(* ===== verification/_CoqProject ===== *)
-Q . S2P
Prelude.v
Geometry.v
InputEvents.v
Validator.v
Schedule.v
BufferStream.v
Occlusion.v
WindowInfo.v
Placement.v
Surface.v
SurfaceStack.v
Sessions.v
Shell.v
WmState.v
WmTree.v
WmFocus.v
WmCycle.v
WmOutputs.v
WmRequests.v
WmLifecycle.v
MinimalWm.v
InputDispatcher.v
SeatTracker.v
KeyRepeat.v
Touchspots.v
BufferVault.v
PromptSessions.v
Framing.v
DisplayChanger.v
SurfaceSpec.v
WlSurfaces.v
WlWindows.v
WlClient.v
WlKeyboards.v
WlInput.v
WlPointers.v
WlTold.v
DecorWindow.v
DecorInput.v
DecorRenderer.v
Decoration.v
Anr.v
WlXdg.v
WlLayers.v
