(* ===== verification/Prelude.v ===== *)
(** * Verification of the Mir display server

    Mir is a display server: clients submit buffers of pixels for their
    surfaces, compositors take them and draw the scene on outputs, the shell
    and its window manager decide where windows are, which is on top and
    which has the focus, and input events go to the surfaces.  The library
    models the parts of the C++ server that carry this logic and proves what
    makes them correct.

    ** Parts of the program and the files that model them

    - [Prelude]: exceptions, assignment to record fields, machine integers,
      sequences and ordered sets, automation.
    - [Geometry]: points, sizes, rectangles and sets of rectangles
      ([include/core/mir/geometry], [src/core/geometry]).
    - [InputEvents], [Validator]: the data of input events, and the repair of
      the stream of touch events of a device
      ([src/server/input/validator.cpp]).
    - [Schedule], [BufferStream]: the queueing and dropping schedules behind
      one interface (a type class with laws), and the stream of buffers with
      the arbiter that hands them to compositors
      ([src/server/compositor/stream.cpp], [multi_monitor_arbiter.cpp]).
      The stream and the arbiter share schedules through a heap.
    - [Occlusion]: removal of hidden elements before drawing
      ([src/server/compositor/occlusion.cpp]).
    - [Surface]: the scene surface with its attributes, margins, streams and
      input area ([src/server/scene/basic_surface.cpp]).
    - [SurfaceStack]: the layers of surfaces, overlays, registered compositors
      and the trackers that tell a surface whether it is exposed
      ([src/server/scene/surface_stack.cpp], [rendering_tracker.cpp]).
    - [Sessions], [Shell]: the sessions in their cyclic order, and the focus of
      sessions and surface trees ([src/server/scene/session_container.cpp],
      [src/server/shell/abstract_shell.cpp]).
    - [WindowInfo], [Placement]: what the window manager records of a window,
      the adjustment of sizes to its constraints, the placement of child
      windows and the validation of requests ([src/miral/window_info.cpp],
      [place_relative] and [validate_modification_request] of
      [src/miral/basic_window_manager.cpp]).
    - [WmState], [WmTree], [WmFocus], [WmCycle], [WmOutputs], [WmRequests],
      [WmLifecycle]: the window manager
      ([src/miral/basic_window_manager.cpp]): its state and the choice of
      display areas; trees of windows and workspaces; the active window and
      the states of windows; cycling through applications and windows;
      outputs, attached windows and application zones; the requests of
      clients; windows and sessions that come and go.
    - [MinimalWm]: the policy that moves and resizes windows with the pointer
      and with touches ([src/miral/minimal_window_manager.cpp]) on top of the
      window manager, which remembers the last input event for it.
    - [InputDispatcher]: which surface gets which input event, with enter and
      leave events and gestures
      ([src/server/input/surface_input_dispatcher.cpp]), over an interface to
      the scene that [SurfaceStack] implements.
    - [SeatTracker], [KeyRepeat], [Touchspots]: the state of a seat summed over
      its devices, over an interface to the key mapper; the repetition of keys
      that are held; the spots shown for touches
      ([seat_input_device_tracker.cpp], [key_repeat_dispatcher.cpp],
      [touchspot_controller.cpp] of [src/server/input]).
    - [BufferVault]: the buffers of a stream on the side of the client, whom
      they belong to and who waits for one ([src/client/buffer_vault.cpp],
      [buffer.cpp]); the server is the environment that answers.
    - [PromptSessions]: prompt sessions and their participants
      ([prompt_session_container.cpp], [prompt_session_impl.cpp],
      [prompt_session_manager_impl.cpp] of [src/server/scene]).
    - [Framing]: messages and file descriptors on the socket between client and
      server ([src/server/frontend/socket_messenger.cpp],
      [socket_connection.cpp], [src/client/rpc/stream_socket_transport.cpp],
      [mir_protobuf_rpc_channel.cpp], [src/common/fd/fd_socket_transmission.cpp]).
    - [DisplayChanger]: which display configuration is shown, with the tasks
      that wait in the server's queue and the preview of a base configuration
      ([src/server/scene/mediating_display_changer.cpp]).
    - [SurfaceSpec]: the specifications in which clients describe surfaces and
      their conversion for the window manager
      ([src/server/shell/surface_specification.cpp],
      [src/server/scene/surface_creation_parameters.cpp],
      [src/miral/window_specification.cpp]).
    - [WlSurfaces], [WlWindows], [WlClient]: the surfaces and subsurfaces of
      Wayland clients with the state they commit; surfaces that are windows;
      and the requests of a client put together
      ([wl_surface.cpp], [wl_subcompositor.cpp], [window_wl_surface_role.cpp]
      of [src/server/frontend_wayland]).
    - [WlKeyboards], [WlInput]: the keyboards, pointers, cursors and touches
      that Wayland clients bind, the seat and the dispatcher of each window
      ([wl_keyboard.cpp], [wl_pointer.cpp], [wl_touch.cpp], [wl_seat.cpp],
      [wayland_input_dispatcher.cpp]); [WlPointers] and [WlTold] show what the
      clients can rely on.
    - [DecorWindow], [DecorInput], [DecorRenderer], [Decoration]: the titlebars
      and borders that the shell gives windows: their geometry, the widgets that
      answer to pointers and touches, the pixels, and the decoration that follows
      its window by tasks of an executor, with the manager of decorations
      ([src/server/shell/decoration]).
    - [Anr]: the detection of applications that do not respond
      ([src/server/scene/timeout_application_not_responding_detector.cpp]).
    - [WlXdg], [WlLayers]: the toplevel windows, popups and layer surfaces of
      Wayland clients over the windows of [WlWindows], with the observer of their
      scene surface and the executor of the Wayland thread
      ([xdg_shell_stable.cpp], [layer_shell_v1.cpp],
      [wayland_surface_observer.cpp], [wayland_executor.cpp] of
      [src/server/frontend_wayland]).

    The window manager works on the surfaces of [Surface] through the shell of
    [Shell]; the surface stack of [SurfaceStack] orders the same surfaces; the
    surfaces draw from the streams of [BufferStream].  Events of the devices go
    through the seat and the key repeat dispatcher to the input dispatcher,
    which finds the surface in the stack; for a Wayland window they go on through
    its dispatcher to the devices of the client.  What a Wayland window tells the
    shell is a specification of [SurfaceSpec], which [WmRequests] carries out.
    A decoration watches a surface of [Surface], sets its margins and asks the
    shell to modify its own surface with such specifications.

    ** How the code is modelled

    Structs are records with the source's fields, enumerations are inductive
    types, flags and identities of objects are integers, and a [shared_ptr] or
    [weak_ptr] is the identity of the object it points to, looked up in a map.
    A function that throws returns an [outcome].  Calls of an object come one
    after another, as its lock makes them; where a call does part of its work
    without the lock ([Stream::lock_compositor_buffer] of [BufferStream], the report
    that ends a ping cycle in [Anr]), that part is taken to follow at once, and the
    file says so.  The window manager's operations run in a
    state and exception monad ([WmState.M]).  Signed overflow is undefined in
    C++, so integers are unbounded where no conversion wraps, and the theorems
    that need a range state it.  The policy a shell plugs into the window
    manager is outside the library: its [confirm_] answers are parameters, its
    [advise_] callbacks are recorded and are taken not to call back into the
    manager, and the canonical policy of [src/miral/canonical_window_manager.cpp]
    is defined.

    Loops over trees of windows recurse on parents and children; the model
    gives them the number of calls they may nest.  [WmTree.tree_of_known] and
    [WmFocus.select_terminates] show that the number of windows (twice that for
    a selection) is enough, and the number of surfaces for the focus trees of
    [Shell]; the loops over sessions need one step per session
    ([WmCycle.cycle_sessions_within]).  The trees of Wayland surfaces are
    recursed on with one call more than there are surfaces ([WlClient.wl_fuel]),
    which [WlSurfaces.tree_induction] and [WlSurfaces.chain_induction] show to be
    enough; a parent or child that no longer exists is the outcome
    [use_after_free].  The waiting of [BufferVault] ends by a
    measure on the buffers that the server has.  The reads and writes of [Framing] take
    the results of the system calls from a list; the round trips hold for every
    list with enough transfers to move all bytes one at a time.

    ** What the theorems show

    - Buffers: every sequence of stream operations behaves as an abstract
      queue of frames; each compositor sees frames in order and, queueing, all
      of them; readiness means that there is a new frame.
    - Touch events: the validator's output is a valid stream for every input in
      which the contacts of an event have distinct identities, and a valid stream
      passes unchanged.
    - Scene: removing occluded elements changes no pixel that their clip areas
      leave to them; the stack is sorted
      by depth in every reachable state; raising, hit testing and exposure
      reports do what they say; the attributes of a surface are independent
      variables with ranges.
    - Windows: sizes respect limits, increments and aspect ratios; placements
      lie on the output or are the preferred ones; exactly which requests are
      accepted; selecting a window makes a window of its tree active; moving a
      window moves its tree; attached windows and application zones are where an
      independent definition of the layout puts them; filling a display area and restoring is a round trip;
      cycling through applications and windows ends; adding and removing
      windows keeps trees, owners and lists consistent and removal leaves no
      reference behind; the surface that has the focus and its ancestors are in the
      focused state, and no others as long as surfaces go away tidily; dragging a window
      moves or resizes it exactly with the cursor.
    - Input: what surfaces see of pointers is bracketed by enter and leave,
      and gestures stay with their surface; keys go down and up in turn and, as long
      as no states of keys are set from outside, repeat only while they are held
      and then for ever; the seat is the sum of its
      devices and the cursor stays on the outputs; each touch has its spot.
    - Clients: the buffers of a stream are accounted for and change hands in
      turn, withdrawals are served in order, and a client that waits is served
      if the server answers; the manager of prompt sessions implements a map
      from prompt sessions to participants.
    - Wayland: commits of synchronized subsurfaces take effect at once with
      their parent's, the pointer finds the surface that the shell was told of,
      every commit brings the shell to what the client asked for last, and
      no request fails of a client that names surfaces that exist, makes no cycles
      and destroys no surface that still has subsurfaces.  Clients can follow what
      they are told about input: which surface a pointer is on, the buttons held,
      the modifiers of the keys told unless a keymap came in between, and the
      places of touches.  Toplevel windows are told whether they are active, and
      their state and size under conditions that the theorem gives; popups are put
      where the XDG protocol says; and layer surfaces agree with their clients on
      sizes by acknowledged configure events, until serials wrap around.
      Specifications carry what was set through their conversions.
    - Displays: once its queue is empty the server shows the configuration of
      the session that has the focus, if the requests kept to an order; examples
      show what happens otherwise.
    - Decorations: titlebar, borders and content tile the window; drawing stays
      in its buffer, and redrawing what has changed shows what drawing afresh
      would; only presses of its widgets make a decoration ask for something; and
      when its tasks have run it shows the window as it is.
    - Sessions that stop answering are found out, and none that answers in time.
    - Messages: what one end of the socket sends the other receives, for bodies
      that the length in the header can tell.
    - Defects of the source: where the code does not do what it means to, a
      theorem states the condition and the effect.

    ** Not modelled

    Graphics platforms, the Wayland front end apart from surfaces, windows,
    input, the stable XDG shell and layer surfaces, the X11 front end, the client library above the framing of
    messages, GL rendering, reports, main loops and threads are calls into
    libraries or glue.  Of the window manager setting single
    attributes and drag and drop remain; of the client the connection and the
    surfaces above the buffers; of the input code the device hub, the cursor
    and the filter chain.  What the policy does when
    a window gains the focus is to raise its tree, which changes the stacking
    and not the state of the window manager; it is not carried out in
    [MinimalWm].  The matrices of renderables are opaque values. *)
From Stdlib Require Export ZArith Lia Bool.
From stdpp Require Export strings gmap sorting prelude.

(** ** Scope, notations and hint databases *)
Declare Scope mir_scope.
Delimit Scope mir_scope with mir.
Global Open Scope mir_scope.
Global Open Scope Z_scope.

Create HintDb mir.

(** ** Exceptions

    A throwing C++ function returns an [outcome]: the value it returns or the exception it throws.  The
    [what()] string of the source is kept, so that two different failures
    are two different values.  The last four values are no C++ exceptions: a
    division that traps, the use of a null pointer or of an object that has
    been deleted, and a recursion of the
    source that has not ended after as many calls as the model allows it. *)
Inductive exn :=
| runtime_error (what : string)
| logic_error (what : string)
| invalid_argument (what : string)
| out_of_range
| fatal_error
| divide_by_zero
| null_dereference
| use_after_free
| out_of_fuel.

#[export] Instance exn_eq_dec : EqDecision exn.
Proof. solve_decision. Defined.

Inductive outcome (A : Type) :=
| Ret (a : A)
| Throw (e : exn).
Arguments Ret {A} a.
Arguments Throw {A} e.

#[export] Instance outcome_ret : MRet outcome := fun A a => Ret a.
#[export] Instance outcome_bind : MBind outcome := fun A B f m =>
  match m with Ret a => f a | Throw e => Throw e end.
#[export] Instance outcome_fmap : FMap outcome := fun A B f m =>
  match m with Ret a => Ret (f a) | Throw e => Throw e end.

Definition returns {A} (m : outcome A) : Prop := exists a, m = Ret a.

Lemma outcome_bind_Ret {A B} (f : A -> outcome B) (m : outcome A) (b : B) :
  (m ≫= f) = Ret b <-> exists a, m = Ret a /\ f a = Ret b.
Proof. destruct m; cbn; naive_solver. Qed.

Lemma returns_bind {A B} (m : outcome A) (f : A -> outcome B) :
  returns m -> (forall a, m = Ret a -> returns (f a)) -> returns (m ≫= f).
Proof. intros [a ->] H. cbn. by apply H. Qed.
#[export] Hint Resolve returns_bind : mir.

(** ** Assignments to one field of a struct

    A record type declares the eta expansion of its values once; the
    assignment [r.field = v] is then written [r <| field := v |>]. *)
Class EtaExpansion (R : Type) := eta_expand : R -> R.
Class Assignable {R E : Type} (field : R -> E) := assign : E -> R -> R.

Ltac head_of t := lazymatch t with ?f _ => head_of f | _ => t end.
Ltac derive_assign :=
  match goal with
  | |- @Assignable ?R ?E ?field =>
      let v := fresh "v" in
      let r := fresh "r" in
      intros v r;
      let eta := lazymatch constr:(@eta_expand R _) with @eta_expand _ ?inst => inst end in
      let h := head_of eta in
      let body := eval cbv beta delta [h] in (eta r) in
      match body with
      | context C [field r] => let assigned := context C [v] in exact assigned
      end
  end.
#[export] Hint Extern 1 (Assignable _) => derive_assign : typeclass_instances.

Notation "r <| field := v |>" := (@assign _ _ field _ v r)
  (at level 8, field constr at level 99, v constr at level 99, left associativity,
   format "r  <| field  :=  v |>") : mir_scope.

(** ** Machine integers

    Signed overflow is undefined in C++, so integers are [Z] and the range
    of the 32-bit type is a predicate; conversions that the language
    defines to wrap ([static_cast] from a wider type, unsigned arithmetic)
    are functions. *)
Definition INT_MAX : Z := 2147483647.
Definition INT_MIN : Z := -2147483648.
Definition UINT_MAX : Z := 4294967295.

Definition is_int (z : Z) : Prop := INT_MIN <= z <= INT_MAX.

#[export] Instance is_int_dec (z : Z) : Decision (is_int z).
Proof. unfold is_int. apply _. Defined.

(** [static_cast<int>] of a wider signed integer. *)
Definition to_int (z : Z) : Z := (z - INT_MIN) mod (2 ^ 32) + INT_MIN.

(** Conversion to [uint32_t] / [unsigned]. *)
Definition to_uint32 (z : Z) : Z := z mod (2 ^ 32).

Lemma to_int_id z : is_int z -> to_int z = z.
Proof. unfold is_int, to_int, INT_MIN, INT_MAX. intros H. rewrite Z.mod_small; lia. Qed.

Lemma to_int_range z : is_int (to_int z).
Proof.
  unfold is_int, to_int, INT_MIN, INT_MAX.
  pose proof (Z.mod_pos_bound (z - -2147483648) (2 ^ 32)). lia.
Qed.

Lemma to_uint32_id z : 0 <= z <= UINT_MAX -> to_uint32 z = z.
Proof. unfold to_uint32, UINT_MAX. intros. rewrite Z.mod_small; lia. Qed.
#[export] Hint Resolve to_int_id to_int_range to_uint32_id : mir.

(** [static_cast<int>(0.5 * z)]: halving in [double] is exact for an [int],
    and the conversion back truncates towards zero. *)
Definition half (z : Z) : Z := Z.quot z 2.

Lemma half_nonneg z : 0 <= z -> 0 <= half z <= z.
Proof. unfold half. intros. Z.to_euclidean_division_equations. lia. Qed.

Lemma half_opp z : half (- z) = - half z.
Proof. unfold half. apply Z.quot_opp_l. lia. Qed.

Lemma half_bounds z : -1 <= z - 2 * half z <= 1.
Proof. unfold half. Z.to_euclidean_division_equations. lia. Qed.

(** [v & flag] used as a condition. *)
Definition has_flag (v flag : Z) : bool := negb (Z.land v flag =? 0).

(** ** Standard library algorithms on sequences *)
Section Sequences.
Context {A : Type} `{EqDecision A}.
Implicit Types (x y : A) (l : list A).

(** [auto it = std::find(...); if (it != end) v.erase(it);] *)
Fixpoint erase_first x l : list A :=
  match l with
  | [] => []
  | y :: l' => if decide (y = x) then l' else y :: erase_first x l'
  end.

(** The erase-remove idiom [v.erase(remove(begin, end, x), end)]. *)
Fixpoint erase_all x l : list A :=
  match l with
  | [] => []
  | y :: l' => if decide (y = x) then erase_all x l' else y :: erase_all x l'
  end.

(** [std::find_if] as the element found. *)
Fixpoint find_if (p : A -> bool) l : option A :=
  match l with
  | [] => None
  | y :: l' => if p y then Some y else find_if p l'
  end.

Lemma erase_first_notin x l : x ∉ l -> erase_first x l = l.
Proof.
  induction l as [|y l IH]; intros Hx; [done|]. cbn. rewrite decide_False by set_solver.
  f_equal. apply IH. set_solver.
Qed.

Lemma erase_first_Permutation x l : x ∈ l -> l ≡ₚ x :: erase_first x l.
Proof.
  induction l as [|y l IH]; intros Hx; [by apply not_elem_of_nil in Hx|].
  cbn. destruct (decide (y = x)) as [->|Hne]; [done|].
  rewrite <-Permutation_swap. constructor. apply IH. set_solver.
Qed.

Lemma erase_first_NoDup x l : NoDup l -> NoDup (erase_first x l).
Proof.
  intros Hl. destruct (decide (x ∈ l)) as [Hx|Hx].
  - rewrite (erase_first_Permutation x l Hx) in Hl. by apply NoDup_cons in Hl as [_ Hl].
  - by rewrite erase_first_notin.
Qed.

Lemma elem_of_erase_first x y l : NoDup l -> y ∈ erase_first x l <-> y ∈ l /\ y <> x.
Proof.
  intros Hl. destruct (decide (x ∈ l)) as [Hx|Hx].
  - pose proof (erase_first_Permutation x l Hx) as Hp.
    rewrite Hp in Hl. apply NoDup_cons in Hl as [Hn _]. rewrite Hp at 2. set_solver.
  - rewrite erase_first_notin by done. set_solver.
Qed.

Lemma elem_of_erase_first_weak x y l : y ∈ erase_first x l -> y ∈ l.
Proof.
  destruct (decide (x ∈ l)) as [Hx|Hx].
  - rewrite (erase_first_Permutation x l Hx) at 2. set_solver.
  - by rewrite erase_first_notin.
Qed.

Lemma elem_of_erase_all x y l : y ∈ erase_all x l <-> y ∈ l /\ y <> x.
Proof.
  induction l as [|z l IH]; cbn; [set_solver|]. destruct (decide (z = x)); set_solver.
Qed.

Lemma erase_all_NoDup x l : NoDup l -> NoDup (erase_all x l).
Proof.
  induction 1 as [|z l Hz Hl IH]; cbn; [constructor|]. destruct (decide (z = x)); [done|].
  constructor; [|done]. rewrite elem_of_erase_all. tauto.
Qed.

Lemma erase_all_notin x l : x ∉ l -> erase_all x l = l.
Proof.
  induction l as [|y l IH]; intros Hx; [done|]. cbn. rewrite decide_False by set_solver.
  f_equal. apply IH. set_solver.
Qed.

Lemma erase_all_app x l1 l2 : erase_all x (l1 ++ l2) = erase_all x l1 ++ erase_all x l2.
Proof. induction l1 as [|y l1 IH]; cbn; [done|]. destruct (decide (y = x)); [done|]. cbn. by f_equal. Qed.

Lemma erase_first_all x l : NoDup l -> erase_first x l = erase_all x l.
Proof.
  induction 1 as [|z l Hz Hl IH]; cbn; [done|]. destruct (decide (z = x)) as [->|]; [|by f_equal].
  by rewrite erase_all_notin.
Qed.
End Sequences.

Lemma find_if_Some {A} (p : A -> bool) (l : list A) (y : A) :
  find_if p l = Some y -> y ∈ l /\ p y = true.
Proof.
  induction l as [|z l IH]; cbn; [done|]. destruct (p z) eqn:E; [|set_solver].
  intros [= ->]. set_solver.
Qed.

Lemma find_if_None {A} (p : A -> bool) (l : list A) :
  find_if p l = None <-> forall y, y ∈ l -> p y = false.
Proof.
  induction l as [|z l IH]; cbn; [set_solver|]. destruct (p z) eqn:E.
  - split; [done|]. intros H. rewrite (H z) in E by set_solver. done.
  - rewrite IH. split; intros H y; [intros [->|?]%elem_of_cons|]; set_solver.
Qed.

Lemma sublist_reverse {A} (l1 l2 : list A) : l1 `sublist_of` l2 -> reverse l1 `sublist_of` reverse l2.
Proof.
  induction 1 as [|x l1 l2 _ IH|x l1 l2 _ IH]; [done|..]; rewrite ?reverse_cons.
  - by apply sublist_app.
  - by apply sublist_inserts_r.
Qed.

#[export] Hint Resolve erase_first_NoDup erase_all_NoDup : mir.

(** ** std::set of integers: sorted sequences without repetition *)
Fixpoint set_insert (x : Z) (s : list Z) : list Z :=
  match s with
  | [] => [x]
  | y :: s' => if x <? y then x :: s else if x =? y then s else y :: set_insert x s'
  end.

Lemma elem_of_set_insert x y s : y ∈ set_insert x s <-> y = x \/ y ∈ s.
Proof.
  induction s as [|z s IH]; cbn; [set_solver|].
  destruct (x <? z); [set_solver|]. destruct (Z.eqb_spec x z); set_solver.
Qed.

Lemma set_insert_sorted x s : StronglySorted Z.lt s -> StronglySorted Z.lt (set_insert x s).
Proof.
  induction 1 as [|z s Hs IH Hz]; cbn; [repeat constructor|].
  destruct (Z.ltb_spec x z).
  { constructor; [by constructor|]. constructor; [done|]. eapply Forall_impl; [done|]. cbn; lia. }
  destruct (Z.eqb_spec x z); [by constructor|]. constructor; [done|].
  apply Forall_forall. intros y [->|Hy]%elem_of_set_insert; [lia|].
  by eapply Forall_forall in Hz.
Qed.

Lemma sorted_NoDup s : StronglySorted Z.lt s -> NoDup s.
Proof.
  induction 1 as [|z s Hs IH Hz]; constructor; [|done].
  intros Hin. eapply Forall_forall in Hz; [|done]. lia.
Qed.

(** ** Filters, searches and maps *)
Lemma filter_none {A} (P : A -> Prop) `{forall x, Decision (P x)} (l : list A) :
  (forall x, x ∈ l -> ~ P x) -> filter P l = [].
Proof.
  induction l as [|x l IH]; intros Hl; [done|]. rewrite filter_cons, decide_False by (apply Hl; set_solver).
  apply IH. set_solver.
Qed.
Lemma filter_all {A} (P : A -> Prop) `{forall x, Decision (P x)} (l : list A) :
  (forall x, x ∈ l -> P x) -> filter P l = l.
Proof.
  induction l as [|x l IH]; intros Hl; [done|]. rewrite filter_cons, decide_True by (apply Hl; set_solver).
  f_equal. apply IH. set_solver.
Qed.

Lemma find_if_ext {A} (p q : A -> bool) l : (forall x, p x = q x) -> find_if p l = find_if q l.
Proof. intros H. induction l as [|x l IH]; [done|]. cbn. by rewrite H, IH. Qed.

Lemma alter_known {A} (f : A -> A) (p : Z) (m : gmap Z A) a : m !! p = Some a -> alter f p m = <[p := f a]> m.
Proof.
  intros Ha. apply map_eq. intros q. destruct (decide (q = p)) as [->|Hq]; [by rewrite lookup_alter_eq, lookup_insert_eq, Ha|].
  by rewrite lookup_alter_ne, lookup_insert_ne.
Qed.

Lemma alter_unknown {A} (f : A -> A) (p : Z) (m : gmap Z A) : m !! p = None -> alter f p m = m.
Proof.
  intros Ha. apply map_eq. intros q. destruct (decide (q = p)) as [->|Hq]; [by rewrite lookup_alter_eq, Ha|by rewrite lookup_alter_ne].
Qed.

Lemma size_insert_known {A} (m : gmap Z A) id a : is_Some (m !! id) -> size (<[id := a]> m) = size m.
Proof. intros [x H]. by rewrite map_size_insert, H. Qed.

Lemma size_delete_known {A} (m : gmap Z A) id : is_Some (m !! id) -> S (size (delete id m)) = size m.
Proof.
  intros [x H]. rewrite <-(insert_delete_id m id x) at 2 by done. by rewrite map_size_insert, lookup_delete_eq.
Qed.

Lemma foldr_delete_lookup {A} (m : gmap Z A) ids id :
  foldr delete m ids !! id = if decide (id ∈ ids) then None else m !! id.
Proof.
  induction ids as [|x ids IH]; cbn [foldr]; [by rewrite decide_False by apply not_elem_of_nil|].
  destruct (decide (id = x)) as [->|Hne].
  - rewrite lookup_delete_eq, decide_True by set_solver. done.
  - rewrite lookup_delete_ne, IH by done. destruct (decide (id ∈ ids)) as [H|H].
    + by rewrite decide_True by set_solver.
    + by rewrite decide_False by set_solver.
Qed.

Lemma foldr_delete_size {A} (m : gmap Z A) ids :
  NoDup ids -> (forall id, id ∈ ids -> is_Some (m !! id)) -> (size (foldr delete m ids) + length ids = size m)%nat.
Proof.
  induction 1 as [|x ids Hx Hn IH]; intros Hk; cbn [foldr length]; [lia|].
  assert (is_Some (foldr delete m ids !! x)) as [a Ha].
  { rewrite foldr_delete_lookup, decide_False by done. apply Hk. set_solver. }
  assert (size (delete x (foldr delete m ids)) = pred (size (foldr delete m ids))) as Hd by (apply map_size_delete_Some; eauto).
  assert (size (foldr delete m ids) <> 0%nat). { intros E%map_size_empty_inv. rewrite E in Ha. by rewrite lookup_empty in Ha. }
  specialize (IH ltac:(set_solver)). lia.
Qed.

(** ** Liveness

    Whatever the steps, a state with [P] is reached. *)
Section Eventually.
Context {S : Type} (step : S -> S -> Prop).

Inductive eventually (P : S -> Prop) (s : S) : Prop :=
| eventually_now : P s -> eventually P s
| eventually_later : (exists s', step s s') -> (forall s', step s s' -> eventually P s') -> eventually P s.

Lemma eventually_bind (P Q : S -> Prop) s :
  eventually P s -> (forall s', P s' -> eventually Q s') -> eventually Q s.
Proof. intros H HQ. induction H as [s HP|s Hex _ IH]; [by apply HQ|]. by apply eventually_later. Qed.

(** A measure that every step lowers until [P] is there. *)
Lemma eventually_measure (P I : S -> Prop) (f : S -> nat) :
  (forall s, I s -> exists s', step s s') -> (forall s s', I s -> step s s' -> P s' \/ I s' /\ (f s' < f s)%nat) ->
  forall s, I s -> eventually P s.
Proof.
  intros Hprogress Hstep s. induction s as [s IH] using (induction_ltof1 _ f). intros HI.
  apply eventually_later; [by apply Hprogress|]. intros s' Hs. destruct (Hstep s s' HI Hs) as [HP|[HI' Hlt]]; [by apply eventually_now|].
  by apply IH.
Qed.
End Eventually.

(** ** Automation *)
(** Turn the boolean tests of the code into propositions. *)
Ltac breflect :=
  repeat match goal with
  | H : _ && _ = true |- _ => apply andb_true_iff in H as [??]
  | H : _ || _ = false |- _ => apply orb_false_iff in H as [??]
  | H : negb _ = true |- _ => apply negb_true_iff in H
  | H : negb _ = false |- _ => apply negb_false_iff in H
  | H : bool_decide _ = true |- _ => apply bool_decide_eq_true in H
  | H : bool_decide _ = false |- _ => apply bool_decide_eq_false in H
  | H : (_ <? _) = true |- _ => apply Z.ltb_lt in H
  | H : (_ <? _) = false |- _ => apply Z.ltb_ge in H
  | H : (_ <=? _) = true |- _ => apply Z.leb_le in H
  | H : (_ <=? _) = false |- _ => apply Z.leb_gt in H
  | H : (_ =? _) = true |- _ => apply Z.eqb_eq in H
  | H : (_ =? _) = false |- _ => apply Z.eqb_neq in H
  end.

(** Case analysis on the first [if] of the goal, remembering the test. *)
Ltac case_if :=
  match goal with
  | |- context [if ?b then _ else _] =>
      lazymatch type of b with
      | bool => let E := fresh "E" in destruct b eqn:E
      | _ => destruct b
      end
  end.

Ltac case_if_in H :=
  match type of H with
  | context [if ?b then _ else _] =>
      lazymatch type of b with
      | bool => let E := fresh "E" in destruct b eqn:E
      | _ => destruct b
      end
  end.
