(* ===== verification/Geometry.v ===== *)
(** * mir::geometry

    Points, sizes, displacements, rectangles and collections of rectangles
    ([include/core/mir/geometry/*.h], [src/core/geometry/rectangle.cpp] and
    [rectangles.cpp]).  The tagged integer wrappers ([X], [Width], [DeltaX],
    ...) differ only in their compile-time tag and are all [Z] here.  The
    reference semantics of a rectangle is the set of pixels it covers
    ([covers]); the operations are proved to compute on that set. *)
From S2P Require Import Prelude.

(** ** Data *)
Record Point := mkPoint { px : Z; py : Z }.
Record Size := mkSize { width : Z; height : Z }.
Record Displacement := mkDisplacement { dx : Z; dy : Z }.
Record Rectangle := mkRectangle { top_left : Point; r_size : Size }.

#[export] Instance Point_eq_dec : EqDecision Point.
Proof. solve_decision. Defined.
#[export] Instance Size_eq_dec : EqDecision Size.
Proof. solve_decision. Defined.
#[export] Instance Displacement_eq_dec : EqDecision Displacement.
Proof. solve_decision. Defined.
#[export] Instance Rectangle_eq_dec : EqDecision Rectangle.
Proof. solve_decision. Defined.

Definition point_zero : Point := mkPoint 0 0.
Definition displacement_zero : Displacement := mkDisplacement 0 0.
(** [geom::Rectangle()] *)
Definition rectangle_default : Rectangle := mkRectangle point_zero (mkSize 0 0).

(** ** Points, sizes and displacements *)
(** [Point + Displacement] *)
Definition point_add (p : Point) (d : Displacement) : Point :=
  mkPoint (px p + dx d) (py p + dy d).
(** [Point - Displacement] *)
Definition point_sub_disp (p : Point) (d : Displacement) : Point :=
  mkPoint (px p - dx d) (py p - dy d).
(** [Point - Point] *)
Definition point_diff (p q : Point) : Displacement :=
  mkDisplacement (px p - px q) (py p - py q).
(** [Point + DeltaX], [Point + DeltaY] *)
Definition point_add_dx (p : Point) (d : Z) : Point := mkPoint (px p + d) (py p).
Definition point_add_dy (p : Point) (d : Z) : Point := mkPoint (px p) (py p + d).

Definition displacement_add (a b : Displacement) : Displacement :=
  mkDisplacement (dx a + dx b) (dy a + dy b).
Definition displacement_sub (a b : Displacement) : Displacement :=
  mkDisplacement (dx a - dx b) (dy a - dy b).
(** [0.5 * Displacement] *)
Definition displacement_half (d : Displacement) : Displacement :=
  mkDisplacement (half (dx d)) (half (dy d)).

(** [Displacement::length_squared]: the products are taken in [long long]. *)
Definition length_squared (d : Displacement) : Z := dx d * dx d + dy d * dy d.
(** [Displacement < Displacement] *)
Definition displacement_ltb (a b : Displacement) : bool :=
  length_squared a <? length_squared b.

Definition as_displacement (s : Size) : Displacement := mkDisplacement (width s) (height s).
Definition as_size (d : Displacement) : Size := mkSize (dx d) (dy d).

(** ** Rectangle *)
Definition bottom_right (r : Rectangle) : Point :=
  point_add (top_left r) (as_displacement (r_size r)).
Definition top_right (r : Rectangle) : Point :=
  point_add_dx (top_left r) (width (r_size r)).
Definition bottom_left (r : Rectangle) : Point :=
  point_add_dy (top_left r) (height (r_size r)).

Definition left (r : Rectangle) : Z := px (top_left r).
Definition right (r : Rectangle) : Z := px (bottom_right r).
Definition top (r : Rectangle) : Z := py (top_left r).
Definition bottom (r : Rectangle) : Z := py (bottom_right r).

(** [Rectangle::contains(Rectangle const&)] *)
Definition contains (self r : Rectangle) : bool :=
  (left self <=? left r) &&
  (left r + width (r_size r) <=? left self + width (r_size self)) &&
  (top self <=? top r) &&
  (top r + height (r_size r) <=? top self + height (r_size self)).

(** [Rectangle::contains(Point const&)] *)
Definition contains_point (self : Rectangle) (p : Point) : bool :=
  if (width (r_size self) =? 0) || (height (r_size self) =? 0) then false
  else
    let br := bottom_right self in
    (left self <=? px p) && (px p <? px br) &&
    (top self <=? py p) && (py p <? py br).

Definition overlaps (self r : Rectangle) : bool :=
  let disjoint :=
    (right self <=? left r)
    || (right r <=? left self)
    || (bottom self <=? top r)
    || (bottom r <=? top self)
    || (width (r_size self) =? 0)
    || (height (r_size self) =? 0)
    || (width (r_size r) =? 0)
    || (height (r_size r) =? 0) in
  negb disjoint.

Definition intersection_with (self r : Rectangle) : Rectangle :=
  let max_left := Z.max (left self) (left r) in
  let min_right := Z.min (right self) (right r) in
  let max_top := Z.max (top self) (top r) in
  let min_bottom := Z.min (bottom self) (bottom r) in
  if (max_left <? min_right) && (max_top <? min_bottom)
  then mkRectangle (mkPoint max_left max_top)
                   (mkSize (min_right - max_left) (min_bottom - max_top))
  else rectangle_default.

(** ** Rectangles *)
(** The member [std::vector<Rectangle> rectangles]. *)
Abbreviation Rectangles := (list Rectangle).

Definition rectangles_add (rs : Rectangles) (rect : Rectangle) : Rectangles := rs ++ [rect].
Definition rectangles_remove (rs : Rectangles) (rect : Rectangle) : Rectangles :=
  erase_first rect rs.

(** The anonymous namespace's [clamp]. *)
Definition clamp (x min max : Z) : Z := Z.min (Z.max x min) max.
Definition rect_from_points (tl br : Point) : Rectangle :=
  mkRectangle tl (as_size (point_diff br tl)).

(** [confined_point] of the loop body of [Rectangles::confine]. *)
Definition confine_to (rect : Rectangle) (point : Point) : Point :=
  let br := bottom_right rect in
  let min_x := px (top_left rect) in
  let max_x := px br - 1 in
  let min_y := py (top_left rect) in
  let max_y := py br - 1 in
  mkPoint (clamp (px point) min_x max_x) (clamp (py point) min_y max_y).

Fixpoint confine_loop (point : Point) (rs : Rectangles)
    (ret_point : Point) (min_dp : Displacement) : Point :=
  match rs with
  | [] => ret_point
  | rect :: rest =>
      if contains_point rect point then point
      else if (0 <? width (r_size rect)) && (0 <? height (r_size rect)) then
        let confined_point := confine_to rect point in
        let dp := point_diff confined_point point in
        if displacement_ltb dp min_dp
        then confine_loop point rest confined_point dp
        else confine_loop point rest ret_point min_dp
      else confine_loop point rest ret_point min_dp
  end.

Definition confine (rs : Rectangles) (point : Point) : Point :=
  confine_loop point rs point (mkDisplacement INT_MAX INT_MAX).

(** The accumulator is [None] until [points_initialized]. *)
Fixpoint bounding_loop (rs : Rectangles) (acc : option (Point * Point)) : option (Point * Point) :=
  match rs with
  | [] => acc
  | rect :: rest =>
      let rtl := top_left rect in
      let rbr := bottom_right rect in
      bounding_loop rest
        (match acc with
         | None => Some (rtl, rbr)
         | Some (tl, br) =>
             Some (mkPoint (Z.min (px rtl) (px tl)) (Z.min (py rtl) (py tl)),
                   mkPoint (Z.max (px rbr) (px br)) (Z.max (py rbr) (py br)))
         end)
  end.

Definition bounding_rectangle (rs : Rectangles) : Rectangle :=
  match rs with
  | [] => rectangle_default
  | _ =>
      match bounding_loop rs None with
      | Some (tl, br) => rect_from_points tl br
      | None => rect_from_points point_zero point_zero
      end
  end.

(** The inner loop of [operator==]: the first unused slot of [other] that
    holds [rect] is marked as used. *)
Fixpoint claim (rect : Rectangle) (other : Rectangles) (element_used : list bool)
  : option (list bool) :=
  match other, element_used with
  | o :: os, u :: us =>
      if negb u && bool_decide (o = rect) then Some (true :: us)
      else match claim rect os us with
           | Some us' => Some (u :: us')
           | None => None
           end
  | _, _ => None
  end.

Fixpoint rectangles_eq_loop (rs other : Rectangles) (element_used : list bool) : bool :=
  match rs with
  | [] => true
  | rect :: rest =>
      match claim rect other element_used with
      | Some used' => rectangles_eq_loop rest other used'
      | None => false
      end
  end.

(** [Rectangles::operator==] *)
Definition rectangles_eqb (rs other : Rectangles) : bool :=
  if Nat.eqb (length rs) (length other)
  then rectangles_eq_loop rs other (replicate (length rs) false)
  else false.

(** ** Reference semantics: the pixels of a rectangle *)
Definition covers (r : Rectangle) (p : Point) : Prop :=
  left r <= px p < right r /\ top r <= py p < bottom r.

#[export] Instance covers_dec (r : Rectangle) (p : Point) : Decision (covers r p).
Proof. unfold covers. apply _. Defined.

Definition nonempty (r : Rectangle) : Prop := 0 < width (r_size r) /\ 0 < height (r_size r).
Definition sized (r : Rectangle) : Prop := 0 <= width (r_size r) /\ 0 <= height (r_size r).

#[export] Instance nonempty_dec (r : Rectangle) : Decision (nonempty r).
Proof. unfold nonempty. apply _. Defined.
#[export] Instance sized_dec (r : Rectangle) : Decision (sized r).
Proof. unfold sized. apply _. Defined.

(** Reduce every geometric accessor to coordinates. *)
Ltac geom :=
  unfold covers, nonempty, sized, left, right, top, bottom, bottom_right, top_right, bottom_left,
    point_add, point_sub_disp, point_diff, point_add_dx, point_add_dy, as_displacement, as_size,
    rect_from_points, rectangle_default, point_zero, displacement_zero in *; cbn in *.

(** Close a goal about coordinates and boolean tests. *)
Ltac geom_solve :=
  repeat match goal with
  | r : Rectangle |- _ => destruct r as [[? ?] [? ?]]
  | p : Point |- _ => destruct p as [? ?]
  end; geom; breflect; try lia.

(** ** Lemmas on rectangles *)
Lemma contains_point_covers r p : contains_point r p = true <-> covers r p.
Proof.
  unfold contains_point. destruct r as [[? ?] [w h]], p. geom.
  destruct (Z.eqb_spec w 0), (Z.eqb_spec h 0); cbn; try lia;
    rewrite !andb_true_iff, !Z.leb_le, !Z.ltb_lt; lia.
Qed.

Lemma covers_nonempty r p : covers r p -> nonempty r.
Proof. geom_solve. Qed.

Lemma nonempty_covers r : nonempty r <-> covers r (top_left r).
Proof. geom_solve. Qed.

Lemma intersection_covers r1 r2 p :
  covers (intersection_with r1 r2) p <-> covers r1 p /\ covers r2 p.
Proof.
  unfold intersection_with. destruct r1 as [[? ?] [? ?]], r2 as [[? ?] [? ?]], p. geom.
  case_if; cbn; breflect; [lia|]. apply andb_false_iff in E as [?|?]; breflect; lia.
Qed.

Lemma contains_covers r1 r2 p : contains r1 r2 = true -> covers r2 p -> covers r1 p.
Proof. unfold contains. geom_solve. Qed.

Lemma contains_iff r1 r2 :
  contains r1 r2 = true <->
  left r1 <= left r2 /\ right r2 <= right r1 /\ top r1 <= top r2 /\ bottom r2 <= bottom r1.
Proof.
  unfold contains. destruct r1 as [[? ?] [? ?]], r2 as [[? ?] [? ?]]. geom.
  rewrite !andb_true_iff, !Z.leb_le. lia.
Qed.

Lemma contains_nonempty_iff r1 r2 :
  nonempty r2 -> contains r1 r2 = true <-> forall p, covers r2 p -> covers r1 p.
Proof.
  intros Hne. split; [intros Hc p; by apply contains_covers|]. intros Hall.
  rewrite contains_iff.
  pose proof (Hall (top_left r2)). pose proof (Hall (mkPoint (right r2 - 1) (bottom r2 - 1))).
  geom_solve.
Qed.

Lemma overlaps_iff r1 r2 :
  sized r1 -> sized r2 ->
  overlaps r1 r2 = true <-> exists p, covers r1 p /\ covers r2 p.
Proof.
  intros H1 H2. unfold overlaps. rewrite negb_true_iff, !orb_false_iff.
  rewrite !Z.leb_gt, !Z.eqb_neq. split.
  - intros Ho. exists (mkPoint (Z.max (left r1) (left r2)) (Z.max (top r1) (top r2))). geom_solve.
  - intros (p & Hp1 & Hp2). geom_solve.
Qed.

Lemma intersection_nonempty r1 r2 p :
  covers r1 p -> covers r2 p -> nonempty (intersection_with r1 r2).
Proof. intros ??. apply (covers_nonempty _ p). by apply intersection_covers. Qed.

Lemma intersection_default r1 r2 :
  intersection_with r1 r2 = rectangle_default <-> forall p, ~ (covers r1 p /\ covers r2 p).
Proof.
  split.
  - intros E p Hp. apply intersection_covers in Hp. rewrite E in Hp. geom_solve.
  - intros Hno. unfold intersection_with. case_if; [|done]. breflect. exfalso.
    apply (Hno (mkPoint (Z.max (left r1) (left r2)) (Z.max (top r1) (top r2)))). geom_solve.
Qed.

Lemma intersection_contained r1 r2 :
  nonempty (intersection_with r1 r2) ->
  contains r1 (intersection_with r1 r2) = true /\ contains r2 (intersection_with r1 r2) = true.
Proof. intros Hne. split; apply contains_nonempty_iff; [done|..|done|]; intros p; rewrite intersection_covers; tauto. Qed.

(** Algebra of rectangles over pixel sets. *)
Theorem rectangle_pixel_algebra (r1 r2 : Rectangle) :
  sized r1 -> sized r2 ->
  (forall p, contains_point r1 p = true <-> covers r1 p) /\
  (forall p, contains_point (intersection_with r1 r2) p = true <->
             contains_point r1 p = true /\ contains_point r2 p = true) /\
  (overlaps r1 r2 = true <-> intersection_with r1 r2 <> rectangle_default) /\
  (nonempty r2 ->
   contains r1 r2 = true <-> forall p, contains_point r2 p = true -> contains_point r1 p = true) /\
  (nonempty r2 -> contains r1 r2 = true <-> intersection_with r1 r2 = r2).
Proof.
  intros H1 H2. split; [apply contains_point_covers|]. setoid_rewrite contains_point_covers.
  split; [apply intersection_covers|]. split; [|split; [apply contains_nonempty_iff|]].
  - rewrite overlaps_iff, intersection_default by done. split; [naive_solver|].
    intros Hn. destruct (overlaps r1 r2) eqn:E; [by apply overlaps_iff in E|].
    exfalso. apply Hn. intros p Hp. assert (overlaps r1 r2 = true) by (apply overlaps_iff; eauto).
    congruence.
  - intros Hne. rewrite contains_iff. unfold intersection_with. case_if; split; intros H.
    + destruct r1 as [[? ?] [? ?]], r2 as [[? ?] [? ?]]. geom. repeat (f_equal; try lia).
    + rewrite <-H. geom_solve.
    + apply andb_false_iff in E as [?|?]; geom_solve.
    + subst r2. geom_solve.
Qed.

Lemma rectangle_pixel_algebra_witness :
  let r1 := mkRectangle (mkPoint 0 0) (mkSize 10 10) in
  let r2 := mkRectangle (mkPoint 5 5) (mkSize 3 3) in
  contains r1 r2 = true /\ overlaps r1 r2 = true /\
  (contains r1 r2 = true <-> intersection_with r1 r2 = r2).
Proof.
  intros r1 r2. split; [reflexivity|]. split; [reflexivity|].
  apply (rectangle_pixel_algebra r1 r2); unfold sized, nonempty; cbn; lia.
Defined.

(** ** Confinement *)
(** Squared distance between two points. *)
Definition dist2 (p q : Point) : Z := length_squared (point_diff q p).

Lemma dist2_nonneg p q : 0 <= dist2 p q.
Proof. unfold dist2, length_squared. nia. Qed.

Lemma dist2_zero p q : dist2 p q = 0 -> q = p.
Proof.
  unfold dist2, length_squared. destruct p as [a b], q as [c d]; cbn. intros H.
  pose proof (Z.square_nonneg (c - a)). pose proof (Z.square_nonneg (d - b)).
  assert (c - a = 0) by (apply Z.eq_square_0; lia).
  assert (d - b = 0) by (apply Z.eq_square_0; lia). f_equal; lia.
Qed.

Lemma clamp_nearest x lo hi q : lo <= q <= hi -> lo <= clamp x lo hi <= hi /\
  (clamp x lo hi - x) * (clamp x lo hi - x) <= (q - x) * (q - x).
Proof.
  intros. split; [unfold clamp; lia|].
  rewrite <-(Z.abs_square (clamp _ _ _ - x)), <-(Z.abs_square (q - x)).
  apply Z.square_le_mono_nonneg; unfold clamp; lia.
Qed.

Lemma confine_to_spec rect p : nonempty rect ->
  covers rect (confine_to rect p) /\
  forall q, covers rect q -> dist2 p (confine_to rect p) <= dist2 p q.
Proof.
  intros Hne. destruct rect as [[x y] [w h]], p as [a b]. split.
  - unfold confine_to, clamp. geom_solve.
  - intros [qx qy] Hq. unfold confine_to, dist2, length_squared. geom.
    pose proof (clamp_nearest a x (x + w - 1) qx ltac:(lia)).
    pose proof (clamp_nearest b y (y + h - 1) qy ltac:(lia)). lia.
Qed.

Lemma confine_loop_spec p rs ret min_dp :
  let res := confine_loop p rs ret min_dp in
  (res = ret /\ forall r q, r ∈ rs -> covers r q -> length_squared min_dp <= dist2 p q) \/
  ((exists r, r ∈ rs /\ covers r res) /\ dist2 p res <= length_squared min_dp /\
   forall r q, r ∈ rs -> covers r q -> dist2 p res <= dist2 p q).
Proof.
  revert ret min_dp. induction rs as [|rect rs IH]; intros ret min_dp; cbn.
  { apply or_introl. split; [done|]. set_solver. }
  assert (Hmin : 0 <= length_squared min_dp) by (unfold length_squared; nia).
  destruct (contains_point rect p) eqn:Ec.
  { apply contains_point_covers in Ec. apply or_intror.
    replace (dist2 p p) with 0 by (unfold dist2, length_squared; geom; lia).
    split; [set_solver|]. split; [done|]. intros. apply dist2_nonneg. }
  destruct ((0 <? width (r_size rect)) && (0 <? height (r_size rect))) eqn:Ene.
  - assert (Hne : nonempty rect) by (breflect; done).
    destruct (confine_to_spec rect p Hne) as [Hc Hn].
    unfold displacement_ltb. case_if; breflect; fold (dist2 p (confine_to rect p)) in *.
    + destruct (IH (confine_to rect p) (point_diff (confine_to rect p) p)) as [[-> Hr]|(He & Hle & Hr)];
        fold (dist2 p (confine_to rect p)) in *; apply or_intror.
      * split; [set_solver|]. split; [lia|]. intros r q [->|Hr']%elem_of_cons Hq; eauto.
      * split; [set_solver|]. split; [lia|]. intros r q [->|Hr']%elem_of_cons Hq; [|eauto].
        specialize (Hn q Hq). lia.
    + destruct (IH ret min_dp) as [[-> Hr]|(He & Hle & Hr)]; [apply or_introl|apply or_intror].
      * split; [done|]. intros r q [->|Hr']%elem_of_cons Hq; [|eauto]. specialize (Hn q Hq). lia.
      * split; [set_solver|]. split; [lia|]. intros r q [->|Hr']%elem_of_cons Hq; [|eauto].
        specialize (Hn q Hq). lia.
  - assert (Hemp : forall q, ~ covers rect q).
    { intros q Hq. apply covers_nonempty in Hq as [??]. apply andb_false_iff in Ene as [?|?]; breflect; lia. }
    destruct (IH ret min_dp) as [[-> Hr]|(He & Hle & Hr)]; [apply or_introl|apply or_intror].
    + split; [done|]. intros r q [->|Hr']%elem_of_cons Hq; [by destruct (Hemp q)|eauto].
    + split; [set_solver|]. split; [done|]. intros r q [->|Hr']%elem_of_cons Hq; [by destruct (Hemp q)|eauto].
Qed.

(** Coordinates whose differences fit in an [int]. *)
Definition screen_coord (z : Z) : Prop := - 2 ^ 30 < z < 2 ^ 30.
Definition on_screen (p : Point) : Prop := screen_coord (px p) /\ screen_coord (py p).

(** The pointer confinement: the nearest point of the region. *)
Lemma confine_spec (rs : Rectangles) (p : Point) :
  on_screen p ->
  (forall r, r ∈ rs -> nonempty r -> on_screen (top_left r)) ->
  (exists r, r ∈ rs /\ nonempty r) ->
  (exists r, r ∈ rs /\ contains_point r (confine rs p) = true) /\
  (forall r q, r ∈ rs -> contains_point r q = true -> dist2 p (confine rs p) <= dist2 p q) /\
  ((exists r, r ∈ rs /\ contains_point r p = true) -> confine rs p = p).
Proof.
  intros Hp Hrs (r0 & Hr0 & Hne). setoid_rewrite contains_point_covers. unfold confine.
  destruct (confine_loop_spec p rs p (mkDisplacement INT_MAX INT_MAX)) as [[_ Hfar]|(He & _ & Hr)].
  { exfalso. specialize (Hfar r0 (top_left r0) Hr0). rewrite <-nonempty_covers in Hfar.
    specialize (Hfar Hne). specialize (Hrs r0 Hr0 Hne). unfold on_screen, screen_coord in *.
    unfold dist2, length_squared, INT_MAX in Hfar. destruct p, r0 as [[??] ?]. geom. nia. }
  split; [done|]. split; [eauto|]. intros (r & Hr' & Hc).
  apply dist2_zero. pose proof (dist2_nonneg p (confine_loop p rs p (mkDisplacement INT_MAX INT_MAX))).
  specialize (Hr r p Hr' Hc). replace (dist2 p p) with 0 in Hr; [lia|].
  unfold dist2, length_squared. geom. lia.
Qed.

(** ** Bounding rectangle *)
Definition within (tl br : Point) (r : Rectangle) : Prop :=
  px tl <= left r /\ py tl <= top r /\ right r <= px br /\ bottom r <= py br.

Lemma bounding_loop_spec rs tl br :
  exists tl' br', bounding_loop rs (Some (tl, br)) = Some (tl', br') /\
    px tl' <= px tl /\ py tl' <= py tl /\ px br <= px br' /\ py br <= py br' /\
    (forall r, r ∈ rs -> within tl' br' r) /\
    (forall tl2 br2, px tl2 <= px tl /\ py tl2 <= py tl /\ px br <= px br2 /\ py br <= py br2 ->
       (forall r, r ∈ rs -> within tl2 br2 r) ->
       px tl2 <= px tl' /\ py tl2 <= py tl' /\ px br' <= px br2 /\ py br' <= py br2).
Proof.
  revert tl br. induction rs as [|r rs IH]; intros tl br; cbn.
  { exists tl, br. repeat split; try lia; set_solver. }
  destruct (IH (mkPoint (Z.min (px (top_left r)) (px tl)) (Z.min (py (top_left r)) (py tl)))
               (mkPoint (Z.max (px (bottom_right r)) (px br)) (Z.max (py (bottom_right r)) (py br))))
    as (tl' & br' & Heq & ? & ? & ? & ? & Hin & Hleast).
  exists tl', br'. split; [exact Heq|]. clear Heq. cbn in *. repeat (split; [lia|]). split.
  - intros r' [->|?]%elem_of_cons; [unfold within; geom; lia|eauto].
  - intros tl2 br2 Hb Hr. apply Hleast; [|set_solver].
    pose proof (Hr r ltac:(set_solver)) as Hw. unfold within in Hw. geom. lia.
Qed.

(** The bounding rectangle. *)
Theorem bounding_rectangle_least (rs : Rectangles) :
  rs <> [] ->
  (forall r, r ∈ rs -> contains (bounding_rectangle rs) r = true) /\
  (forall b, (forall r, r ∈ rs -> contains b r = true) -> contains b (bounding_rectangle rs) = true).
Proof.
  destruct rs as [|r rs]; [done|]. intros _. cbn [bounding_rectangle bounding_loop].
  destruct (bounding_loop_spec rs (top_left r) (bottom_right r))
    as (tl' & br' & -> & ? & ? & ? & ? & Hin & Hleast).
  setoid_rewrite contains_iff. split.
  - intros r' [->|Hr']%elem_of_cons; [|specialize (Hin r' Hr')]; unfold within in *; geom; lia.
  - intros b Hb. pose proof (Hb r ltac:(set_solver)).
    destruct (Hleast (top_left b) (bottom_right b)).
    + geom. lia.
    + intros r' Hr'. specialize (Hb r' ltac:(set_solver)). unfold within. geom. lia.
    + geom. lia.
Qed.

Lemma bounding_rectangle_least_witness :
  let rs := [mkRectangle (mkPoint 0 0) (mkSize 8 6); mkRectangle (mkPoint (-4) 2) (mkSize 6 9)] in
  bounding_rectangle rs = mkRectangle (mkPoint (-4) 0) (mkSize 12 11) /\
  forall r, r ∈ rs -> contains (bounding_rectangle rs) r = true.
Proof.
  intros rs. split; [reflexivity|].
  refine (proj1 (bounding_rectangle_least rs _)). discriminate.
Defined.

(** ** Equality of collections *)
(** The slots of [other] not used yet. *)
Fixpoint unclaimed (other : Rectangles) (used : list bool) : Rectangles :=
  match other, used with
  | o :: os, u :: us => if u then unclaimed os us else o :: unclaimed os us
  | _, _ => []
  end.

Lemma claim_Some rect other used used' :
  claim rect other used = Some used' -> unclaimed other used ≡ₚ rect :: unclaimed other used'.
Proof.
  revert used used'. induction other as [|o os IH]; intros [|u us] used'; cbn; try done.
  destruct u; cbn.
  - destruct (claim rect os us) eqn:E; [|done]. intros [= <-]. by apply IH.
  - case_bool_decide as Ho; [intros [= <-]; by subst|].
    destruct (claim rect os us) as [us'|] eqn:E; [|done]. intros [= <-].
    rewrite (IH _ _ E). apply Permutation_swap.
Qed.

Lemma claim_None rect other used :
  length used = length other -> claim rect other used = None -> rect ∉ unclaimed other used.
Proof.
  revert used. induction other as [|o os IH]; intros [|u us]; cbn; try done.
  { intros _ _. by apply not_elem_of_nil. }
  intros [= Hl]. destruct u; cbn.
  - destruct (claim rect os us) eqn:E; [done|]. intros _. by apply IH.
  - case_bool_decide as Ho; [done|]. destruct (claim rect os us) eqn:E; [done|].
    intros _ [->|?]%elem_of_cons; [done|]. by eapply IH.
Qed.

Lemma claim_length rect other used used' :
  claim rect other used = Some used' -> length used' = length used.
Proof.
  revert used used'. induction other as [|o os IH]; intros [|u us] used'; cbn; try done.
  case_if; [by intros [= <-]|]. destruct (claim rect os us) eqn:E'; [|done].
  intros [= <-]. cbn. f_equal. by eapply IH.
Qed.

Lemma rectangles_eq_loop_spec rs other used :
  length used = length other ->
  rectangles_eq_loop rs other used = true <-> exists rest, unclaimed other used ≡ₚ rs ++ rest.
Proof.
  revert used. induction rs as [|r rs IH]; intros used Hl; cbn.
  { split; [eauto|done]. }
  destruct (claim r other used) as [used'|] eqn:E.
  - rewrite IH by (by rewrite (claim_length _ _ _ _ E)).
    pose proof (claim_Some _ _ _ _ E) as Hp. split; intros [rest Hr]; exists rest.
    + by rewrite Hp, Hr.
    + apply (Permutation_cons_inv (a := r)). by rewrite <-Hp, Hr.
  - split; [done|]. intros [rest Hr]. exfalso. apply (claim_None r other used Hl E).
    rewrite Hr. set_solver.
Qed.

Lemma unclaimed_fresh other n : length other = n -> unclaimed other (replicate n false) = other.
Proof. revert n. induction other as [|o os IH]; intros [|n]; cbn; try done. intros [= ?]. f_equal. by apply IH. Qed.

(** Equality of collections. *)
Theorem rectangles_eqb_Permutation (rs other : Rectangles) :
  rectangles_eqb rs other = true <-> rs ≡ₚ other.
Proof.
  unfold rectangles_eqb. destruct (Nat.eqb_spec (length rs) (length other)) as [Hl|Hl].
  - rewrite rectangles_eq_loop_spec by (by rewrite length_replicate).
    rewrite unclaimed_fresh by done. split.
    + intros [rest Hr]. pose proof (Permutation_length Hr) as Hlen. rewrite length_app in Hlen.
      destruct rest; [|cbn in Hlen; lia]. by rewrite Hr, app_nil_r.
    + intros Hp. exists []. by rewrite app_nil_r.
  - split; [done|]. by intros ?%Permutation_length.
Qed.
