(* ===== verification/InputEvents.v ===== *)
(** * Input events

    The data that the input stages of the server exchange: [MirEvent] and its
    input variants ([include/client/mir_toolkit/events/input/*.h],
    [src/common/events/*.cpp], [include/common/mir/events/contact_state.h]).
    Axis values are IEEE binary32 numbers ([spec_float]). *)
From Stdlib Require Export SpecFloat.
From S2P Require Import Prelude Geometry.

Abbreviation float32 := spec_float.
#[export] Instance spec_float_eq_dec : EqDecision spec_float.
Proof. solve_decision. Defined.

(** ** Actions *)
Inductive MirTouchAction :=
| mir_touch_action_up
| mir_touch_action_down
| mir_touch_action_change.

Inductive MirKeyboardAction :=
| mir_keyboard_action_up
| mir_keyboard_action_down
| mir_keyboard_action_repeat.

Inductive MirPointerAction :=
| mir_pointer_action_button_up
| mir_pointer_action_button_down
| mir_pointer_action_enter
| mir_pointer_action_leave
| mir_pointer_action_motion.

#[export] Instance MirTouchAction_eq_dec : EqDecision MirTouchAction.
Proof. solve_decision. Defined.
#[export] Instance MirKeyboardAction_eq_dec : EqDecision MirKeyboardAction.
Proof. solve_decision. Defined.
#[export] Instance MirPointerAction_eq_dec : EqDecision MirPointerAction.
Proof. solve_decision. Defined.

(** ** Events *)
(** [mir::events::ContactState] *)
Record ContactState := mkContact {
  touch_id : Z;
  action : MirTouchAction;
  tooltype : Z;
  c_x : float32;
  c_y : float32;
  pressure : float32;
  touch_major : float32;
  touch_minor : float32;
  orientation : float32
}.

#[export] Instance ContactState_eq_dec : EqDecision ContactState.
Proof. solve_decision. Defined.

Definition with_action (a : MirTouchAction) (c : ContactState) : ContactState :=
  mkContact (touch_id c) a (tooltype c) (c_x c) (c_y c) (pressure c) (touch_major c)
            (touch_minor c) (orientation c).

(** What every [MirInputEvent] carries. *)
Record InputHeader := mkHeader {
  device_id : Z;
  event_time : Z;
  cookie : list Z;
  modifiers : Z
}.

Record MirTouchEvent := mkTouchEvent { t_header : InputHeader; contacts : list ContactState }.

Record MirKeyboardEvent := mkKeyboardEvent {
  k_header : InputHeader;
  k_action : MirKeyboardAction;
  key_code : Z;
  scan_code : Z
}.

Record MirPointerEvent := mkPointerEvent {
  p_header : InputHeader;
  p_action : MirPointerAction;
  p_buttons : Z;
  axis_x : float32;
  axis_y : float32;
  axis_hscroll : float32;
  axis_vscroll : float32;
  axis_relative_x : float32;
  axis_relative_y : float32
}.

#[export] Instance InputHeader_eq_dec : EqDecision InputHeader.
Proof. solve_decision. Defined.
#[export] Instance MirTouchEvent_eq_dec : EqDecision MirTouchEvent.
Proof. solve_decision. Defined.
#[export] Instance MirKeyboardEvent_eq_dec : EqDecision MirKeyboardEvent.
Proof. solve_decision. Defined.
#[export] Instance MirPointerEvent_eq_dec : EqDecision MirPointerEvent.
Proof. solve_decision. Defined.

(** [mir_event_type_input] events by their input type, and every other event
    (which the input stages only forward) by its type number. *)
Inductive MirEvent :=
| KeyEvent (e : MirKeyboardEvent)
| TouchEvent (e : MirTouchEvent)
| PointerEvent (e : MirPointerEvent)
| NonInputEvent (type : Z).

#[export] Instance MirEvent_eq_dec : EqDecision MirEvent.
Proof. solve_decision. Defined.

(** ** Arithmetic on axis values

    The operations of [float] round to nearest, ties to even. *)
Definition fadd : float32 -> float32 -> float32 := SFadd 24 128.
Definition fsub : float32 -> float32 -> float32 := SFsub 24 128.

(** The conversion of an [int] to [float]. *)
Definition float_of_int (z : Z) : float32 := binary_normalize 24 128 z 0 false.

(** [static_cast<int>] of a [float] drops the fraction.  Where the language
    leaves the result undefined (infinities, NaN, values beyond [int]) any
    number may stand. *)
Definition int_of_float (x : float32) : Z :=
  match x with
  | S754_finite s m e =>
      let magnitude := if 0 <=? e then Z.pos m * 2 ^ e else Z.pos m / 2 ^ (- e) in
      if s then - magnitude else magnitude
  | _ => 0
  end.

(** [geom::Point{x, y}] of two axis values. *)
Definition point_of_floats (x y : float32) : Point := mkPoint (int_of_float x) (int_of_float y).

(** ** Changing events *)
#[export] Instance eta_PointerEvent : EtaExpansion MirPointerEvent := fun e =>
  mkPointerEvent (p_header e) (p_action e) (p_buttons e) (axis_x e) (axis_y e) (axis_hscroll e) (axis_vscroll e)
    (axis_relative_x e) (axis_relative_y e).
#[export] Instance eta_Contact : EtaExpansion ContactState := fun c =>
  mkContact (touch_id c) (action c) (tooltype c) (c_x c) (c_y c) (pressure c) (touch_major c) (touch_minor c)
    (orientation c).
#[export] Instance eta_KeyboardEvent : EtaExpansion MirKeyboardEvent := fun e =>
  mkKeyboardEvent (k_header e) (k_action e) (key_code e) (scan_code e).
#[export] Instance eta_InputHeader : EtaExpansion InputHeader := fun h =>
  mkHeader (device_id h) (event_time h) (cookie h) (modifiers h).

Definition transform_positions (ev : MirEvent) (movement : Displacement) : MirEvent :=
  match ev with
  | PointerEvent e =>
      PointerEvent (e <| axis_x := fsub (axis_x e) (float_of_int (dx movement)) |>
                      <| axis_y := fsub (axis_y e) (float_of_int (dy movement)) |>)
  | TouchEvent t =>
      TouchEvent (mkTouchEvent (t_header t)
        ((fun c => c <| c_x := fsub (c_x c) (float_of_int (dx movement)) |>
                     <| c_y := fsub (c_y c) (float_of_int (dy movement)) |>) <$> contacts t))
  | _ => ev
  end.

(** [mir_input_event_get_device_id]; the events that are no input events have
    no device. *)
Definition event_device (ev : MirEvent) : option Z :=
  match ev with
  | KeyEvent e => Some (device_id (k_header e))
  | TouchEvent t => Some (device_id (t_header t))
  | PointerEvent e => Some (device_id (p_header e))
  | NonInputEvent _ => None
  end.

(** ** Exactness

    An integer of at most 24 bits is a [float]. *)
Lemma digits2_pos_size (p : positive) : digits2_pos p = Pos.size p.
Proof. induction p; cbn; congruence. Qed.

Lemma digits2_bounds (p : positive) : 2 ^ (Z.pos (digits2_pos p) - 1) <= Z.pos p < 2 ^ Z.pos (digits2_pos p).
Proof.
  rewrite digits2_pos_size. pose proof (Pos.size_gt p) as H1. pose proof (Pos.size_le p) as H2.
  change (Z.pos p < Z.pos (2 ^ Pos.size p)) in H1. change (Z.pos (2 ^ Pos.size p) <= Z.pos p~0) in H2.
  rewrite Pos2Z.inj_pow in *. split; [|done].
  rewrite Z.sub_1_r. apply (Z.mul_le_mono_pos_l _ _ 2); [lia|]. rewrite <-Z.pow_succ_r, Z.succ_pred by lia.
  exact H2.
Qed.

Lemma digits2_unique (p : positive) (d : Z) : 0 < d -> 2 ^ (d - 1) <= Z.pos p < 2 ^ d -> Z.pos (digits2_pos p) = d.
Proof.
  intros Hd [H1 H2]. destruct (digits2_bounds p) as [H3 H4].
  assert (Z.pos (digits2_pos p) - 1 < d) by (eapply Z.pow_lt_mono_r_iff with (a := 2); lia).
  assert (d - 1 < Z.pos (digits2_pos p)) by (eapply Z.pow_lt_mono_r_iff with (a := 2); lia). lia.
Qed.

Lemma iter_xO (p n : positive) : Z.pos (Pos.iter xO p n) = Z.pos p * 2 ^ Z.pos n.
Proof.
  revert p. induction n as [|n IH] using Pos.peano_ind; intros p; [cbn; lia|].
  rewrite Pos.iter_succ, Pos2Z.inj_xO, IH, Pos2Z.inj_succ, Z.pow_succ_r by lia. lia.
Qed.

(** A mantissa of 24 digits is not rounded. *)
Lemma binary_round_aux_exact s (m : positive) e :
  Z.pos (digits2_pos m) = 24 -> -149 <= e <= 104 -> binary_round_aux 24 128 s (Z.pos m) e loc_Exact = S754_finite s m e.
Proof.
  intros Hd He. unfold binary_round_aux, shr_fexp, fexp, emin. cbn [Zdigits2]. rewrite Hd.
  replace (Z.max (24 + e - 24) (3 - 128 - 24) - e) with 0 by lia. cbn [shr shr_record_of_loc shr_m loc_of_shr_record round_nearest_even].
  cbn [Zdigits2]. rewrite Hd. replace (Z.max (24 + e - 24) (3 - 128 - 24) - e) with 0 by lia. cbn.
  by rewrite (proj2 (Z.leb_le e _)) by lia.
Qed.

Lemma binary_round_exact s (p : positive) :
  Z.pos p < 2 ^ 24 -> exists m e, binary_round 24 128 s p 0 = S754_finite s m e /\ e <= 0 /\ Z.pos m = Z.pos p * 2 ^ (- e).
Proof.
  intros Hp. destruct (digits2_bounds p) as [H1 H2].
  assert (Hd : 0 < Z.pos (digits2_pos p) <= 24).
  { split; [lia|]. cut (Z.pos (digits2_pos p) - 1 < 24); [lia|]. apply Z.pow_lt_mono_r_iff with (a := 2); lia. }
  unfold binary_round, fexp, emin. rewrite Z.add_0_r.
  replace (Z.max (Z.pos (digits2_pos p) - 24) (3 - 128 - 24)) with (Z.pos (digits2_pos p) - 24) by lia.
  unfold shl_align. rewrite Z.sub_0_r. destruct (Z.pos (digits2_pos p) - 24) as [|q|q] eqn:Eq; [| lia|].
  - exists p, 0. rewrite binary_round_aux_exact by lia. split; [done|]. lia.
  - exists (Pos.iter xO p q), (Z.neg q).
    assert (Hdig : Z.pos (digits2_pos (Pos.iter xO p q)) = 24).
    { apply digits2_unique; [lia|]. rewrite iter_xO.
      replace (24 - 1) with ((Z.pos (digits2_pos p) - 1) + Z.pos q) by lia.
      replace 24 with (Z.pos (digits2_pos p) + Z.pos q) by lia. rewrite !Z.pow_add_r by lia. nia. }
    rewrite binary_round_aux_exact by lia. split; [done|]. split; [lia|]. by rewrite iter_xO.
Qed.

Lemma int_of_float_of_int z : Z.abs z < 2 ^ 24 -> int_of_float (float_of_int z) = z.
Proof.
  intros Hz. unfold float_of_int, binary_normalize. destruct z as [|p|p]; [done|..].
  - destruct (binary_round_exact false p) as (m' & e' & -> & He & Hm); [lia|]. cbn [int_of_float]. rewrite Hm.
    destruct (Z.leb_spec 0 e'); [assert (e' = 0) as -> by lia; cbn; lia|]. by rewrite Z.div_mul by lia.
  - destruct (binary_round_exact true p) as (m' & e' & -> & He & Hm); [lia|]. cbn [int_of_float]. rewrite Hm.
    destruct (Z.leb_spec 0 e'); [assert (e' = 0) as -> by lia; cbn; lia|]. rewrite Z.div_mul by lia. done.
Qed.
