(* ===== verification/Validator.v ===== *)
(** * mir::input::Validator

    [src/server/input/validator.cpp]: the stage that repairs the stream of
    touch events of each device, so that a touch point never vanishes without
    having been released and never appears without having come down.

    The state is [last_event_by_device]; the calls of [dispatch_valid_event]
    are the list of events a step returns.  The contract is [valid_stream]
    on the events dispatched for one device; it is proved for every sequence
    of events whose touch points have distinct ids. *)
From S2P Require Import Prelude InputEvents.

Abbreviation Contacts := (list ContactState).

(** [std::set_difference] of two ordered sequences. *)
Definition set_difference (s1 s2 : list Z) : list Z := filter (fun x => x ∉ s2) s1.

(** ** ensure_stream_validity_locked *)
Definition has_id (id : Z) (c : ContactState) : bool := touch_id c =? id.

(** [pos->action = a], where [pos] is the first contact with the id. *)
Fixpoint set_action (id : Z) (a : MirTouchAction) (l : Contacts) : Contacts :=
  match l with
  | [] => []
  | c :: l' => if has_id id c then with_action a c :: l' else c :: set_action id a l'
  end.

(** [last_state.erase(pos)] *)
Fixpoint erase_id (id : Z) (l : Contacts) : Contacts :=
  match l with
  | [] => []
  | c :: l' => if has_id id c then l' else c :: erase_id id l'
  end.

(** The loop over [missing_up]: what it dispatches and the state it leaves. *)
Fixpoint release_missing (missing_up : list Z) (last_state : Contacts) : list Contacts * Contacts :=
  match missing_up with
  | [] => ([], last_state)
  | id :: rest =>
      let released := set_action id mir_touch_action_up last_state in
      let (out, final) := release_missing rest (erase_id id released) in
      (released :: out, final)
  end.

(** The loop over [missing_down].  [pos] is in [new_event] for every id of
    [missing_down]; the other branch is never taken. *)
Fixpoint insert_missing (missing_down : list Z) (new_event last_state : Contacts)
  : list Contacts * Contacts :=
  match missing_down with
  | [] => ([], last_state)
  | id :: rest =>
      match find_if (has_id id) new_event with
      | Some pos =>
          let (out, final) :=
            insert_missing rest new_event
              (last_state ++ [with_action mir_touch_action_change pos]) in
          ((last_state ++ [with_action mir_touch_action_down pos]) :: out, final)
      | None => insert_missing rest new_event last_state
      end
  end.

Definition ensure_stream_validity_locked (new_event last_state : Contacts)
  : list Contacts * Contacts :=
  let expected := foldr (fun c s => set_insert (touch_id c) s) [] last_state in
  let in_next_event := foldr (fun c s => set_insert (touch_id c) s) [] new_event in
  let changed_in_next_event :=
    foldr (fun c s => if bool_decide (action c <> mir_touch_action_down)
                      then set_insert (touch_id c) s else s) [] new_event in
  let missing_up := set_difference expected in_next_event in
  let missing_down := set_difference changed_in_next_event expected in
  let (out1, state1) := release_missing missing_up last_state in
  let (out2, state2) := insert_missing missing_down new_event state1 in
  (out1 ++ out2, state2).

(** ** handle_touch_event and validate_and_dispatch *)
Abbreviation ValidatorState := (gmap Z Contacts).

(** The contacts kept for the next event: a point that came down is from now
    on a changed one, a released one is forgotten. *)
Definition settle (c : ContactState) : ContactState :=
  if bool_decide (action c = mir_touch_action_down)
  then with_action mir_touch_action_change c else c.

Definition next_state (new_state : Contacts) : Contacts :=
  filter (fun c => action c <> mir_touch_action_up) (settle <$> new_state).

(** The synthesized event.  Its time is the number of the modifiers, as in
    the source. *)
Definition make_touch_event (ev : MirTouchEvent) (cs : Contacts) : MirEvent :=
  TouchEvent (mkTouchEvent
    (mkHeader (device_id (t_header ev)) (modifiers (t_header ev)) [] (modifiers (t_header ev))) cs).

(** [get_contact_state]: the contacts of the event, whose orientation is not
    read. *)
Definition get_contact_state (ev : MirTouchEvent) : Contacts :=
  (fun c => mkContact (touch_id c) (action c) (tooltype c) (c_x c) (c_y c) (pressure c)
                      (touch_major c) (touch_minor c) (S754_zero false)) <$> contacts ev.

Definition handle_touch_event (st : ValidatorState) (ev : MirTouchEvent)
  : list MirEvent * ValidatorState :=
  let id := device_id (t_header ev) in
  let new_state := get_contact_state ev in
  let last_state := default [] (st !! id) in
  let (injected, _) := ensure_stream_validity_locked new_state last_state in
  ((make_touch_event ev <$> injected) ++ [TouchEvent ev], <[id := next_state new_state]> st).

Definition validate_and_dispatch (st : ValidatorState) (ev : MirEvent)
  : list MirEvent * ValidatorState :=
  match ev with
  | TouchEvent t => handle_touch_event st t
  | _ => ([ev], st)
  end.

(** A run of the validator over a sequence of events. *)
Fixpoint run_validator (st : ValidatorState) (evs : list MirEvent) : list MirEvent :=
  match evs with
  | [] => []
  | ev :: rest =>
      let (out, st') := validate_and_dispatch st ev in
      out ++ run_validator st' rest
  end.

(** ** The contract *)
(** The touch points that are down after an event. *)
Definition live (cs : Contacts) : list Z :=
  touch_id <$> filter (fun c => action c <> mir_touch_action_up) cs.

Definition ids (cs : Contacts) : list Z := touch_id <$> cs.

(** [cur] may follow [prev]: no live point vanishes, no point appears except
    by coming down. *)
Definition valid_next (prev cur : Contacts) : Prop :=
  (forall id, id ∈ live prev -> id ∈ ids cur) /\
  (forall c, c ∈ cur -> touch_id c ∉ live prev -> action c = mir_touch_action_down).

Fixpoint valid_stream (prev : Contacts) (s : list Contacts) : Prop :=
  match s with
  | [] => True
  | cur :: rest => valid_next prev cur /\ valid_stream cur rest
  end.

(** The contacts of the touch events of one device in an event sequence. *)
Definition device_stream (d : Z) (evs : list MirEvent) : list Contacts :=
  evs ≫= (fun ev => match ev with
                    | TouchEvent t => if device_id (t_header t) =? d then [contacts t] else []
                    | _ => []
                    end).

(** The touch points of one event have distinct ids. *)
Definition well_formed (ev : MirEvent) : Prop :=
  match ev with TouchEvent t => NoDup (ids (contacts t)) | _ => True end.

#[export] Instance well_formed_dec ev : Decision (well_formed ev).
Proof. destruct ev; cbn; apply _. Defined.

(** ** Lemmas on the ordered sets *)
Lemma elem_of_set_of {A} (f : A -> Z) (l : list A) id :
  id ∈ foldr (fun c s => set_insert (f c) s) [] l <-> id ∈ f <$> l.
Proof. induction l as [|c l IH]; cbn; [set_solver|]. rewrite elem_of_set_insert, elem_of_cons, IH. done. Qed.

Lemma set_of_NoDup {A} (f : A -> Z) (l : list A) : NoDup (foldr (fun c s => set_insert (f c) s) [] l).
Proof.
  apply sorted_NoDup. induction l as [|c l IH]; cbn; [constructor|]. by apply set_insert_sorted.
Qed.

Lemma set_of_changed (l : Contacts) :
  foldr (fun c s => if bool_decide (action c <> mir_touch_action_down)
                    then set_insert (touch_id c) s else s) [] l =
  foldr (fun c s => set_insert (touch_id c) s) [] (filter (fun c => action c <> mir_touch_action_down) l).
Proof.
  induction l as [|c l IH]; [done|]. rewrite filter_cons. cbn [foldr]. case_bool_decide.
  - rewrite decide_True by done. cbn [foldr]. by rewrite IH.
  - rewrite decide_False by naive_solver. exact IH.
Qed.

(** ** Lemmas on contacts *)
Lemma ids_set_action id a l : ids (set_action id a l) = ids l.
Proof. induction l as [|c l IH]; cbn; [done|]. unfold ids in *. destruct (has_id id c); cbn; by rewrite ?IH. Qed.

Lemma ids_erase_id id l : NoDup (ids l) -> forall x, x ∈ ids (erase_id id l) <-> x ∈ ids l /\ x <> id.
Proof.
  unfold ids. induction l as [|c l IH]; cbn; [set_solver|]. intros [Hc Hl]%NoDup_cons x.
  unfold has_id. destruct (Z.eqb_spec (touch_id c) id) as [<-|Hne]; cbn; [set_solver|].
  rewrite !elem_of_cons, IH by done. set_solver.
Qed.

Lemma erase_id_NoDup id l : NoDup (ids l) -> NoDup (ids (erase_id id l)).
Proof.
  unfold ids. induction l as [|c l IH]; cbn; [done|]. intros [Hc Hl]%NoDup_cons.
  unfold has_id. destruct (touch_id c =? id); [done|]. cbn. constructor; [|by apply IH].
  intros [? _]%ids_erase_id; done.
Qed.

Lemma erase_set_action id a l : erase_id id (set_action id a l) = erase_id id l.
Proof.
  induction l as [|c l IH]; cbn; [done|]. destruct (has_id id c) eqn:E; cbn; [|by rewrite E, IH].
  unfold has_id in *. cbn. by rewrite E.
Qed.

Definition changed (c : ContactState) : Prop := action c = mir_touch_action_change.

Lemma erase_id_Forall (P : ContactState -> Prop) id l : Forall P l -> Forall P (erase_id id l).
Proof. induction 1; cbn; [constructor|]. destruct (has_id id x); [done|by constructor]. Qed.

Lemma live_changed l : Forall changed l -> live l = ids l.
Proof.
  unfold live, ids. induction 1 as [|c l Hc Hl IH]; [done|]. rewrite filter_cons, decide_True by (rewrite Hc; done).
  rewrite !fmap_cons. by f_equal.
Qed.

Lemma live_app l1 l2 : live (l1 ++ l2) = live l1 ++ live l2.
Proof. unfold live. by rewrite filter_app, fmap_app. Qed.

Lemma live_released id l : Forall changed l -> live (set_action id mir_touch_action_up l) = ids (erase_id id l).
Proof.
  unfold live, ids. induction 1 as [|c l Hc Hl IH]; [done|]. cbn [set_action erase_id].
  destruct (has_id id c); rewrite filter_cons.
  - rewrite decide_False by (intros H; apply H; done). fold (live l). by rewrite live_changed.
  - rewrite decide_True by (rewrite Hc; done). rewrite !fmap_cons. by f_equal.
Qed.

Lemma find_has_id id l : id ∈ ids l -> exists c, find_if (has_id id) l = Some c /\ c ∈ l /\ touch_id c = id.
Proof.
  intros (c0 & -> & Hc0)%list_elem_of_fmap. destruct (find_if (has_id (touch_id c0)) l) as [c|] eqn:E.
  - apply find_if_Some in E as [Hc E]. unfold has_id in E. breflect. eauto.
  - rewrite find_if_None in E. specialize (E c0 Hc0). unfold has_id in E. breflect. done.
Qed.

(** ** The state mirrors the last dispatched event *)
Record mirrors (prev last_state : Contacts) : Prop := {
  mirrors_ids : forall id, id ∈ live prev <-> id ∈ ids last_state;
  mirrors_NoDup : NoDup (ids last_state);
  mirrors_changed : Forall changed last_state
}.

Lemma valid_next_ids prev cur :
  (forall id, id ∈ live prev <-> id ∈ ids cur) -> valid_next prev cur.
Proof.
  intros H. split; [intros id; apply H|]. intros c Hc Hn. destruct Hn. apply H. by apply list_elem_of_fmap_2.
Qed.

Lemma mirrors_release prev l id :
  mirrors prev l ->
  valid_next prev (set_action id mir_touch_action_up l) /\
  mirrors (set_action id mir_touch_action_up l) (erase_id id l).
Proof.
  intros [Hi Hn Hc]. split.
  - apply valid_next_ids. intros x. by rewrite ids_set_action.
  - split; [|by apply erase_id_NoDup|by apply erase_id_Forall]. intros x. by rewrite live_released.
Qed.

Lemma mirrors_insert prev l c :
  mirrors prev l -> touch_id c ∉ ids l ->
  valid_next prev (l ++ [with_action mir_touch_action_down c]) /\
  mirrors (l ++ [with_action mir_touch_action_down c]) (l ++ [with_action mir_touch_action_change c]).
Proof.
  intros [Hi Hn Hc] Hnew. unfold ids in *. split; [split|split].
  - intros x Hx%Hi. unfold ids. rewrite fmap_app. set_solver.
  - intros c' [Hc'|Hc']%elem_of_app Hl; [|by apply list_elem_of_singleton in Hc' as ->].
    destruct Hl. apply Hi. by apply list_elem_of_fmap_2.
  - intros x. rewrite live_app, live_changed by done. unfold ids. rewrite fmap_app. done.
  - unfold ids. rewrite fmap_app. apply NoDup_app. split; [done|]. split; [set_solver|apply NoDup_singleton].
  - apply Forall_app. split; [done|]. by repeat constructor.
Qed.

Lemma mirrors_settle cs : NoDup (ids cs) -> mirrors cs (next_state cs).
Proof.
  intros Hn. assert (Hids : ids (next_state cs) = live cs).
  { unfold ids, live, next_state. clear Hn. induction cs as [|c cs IH]; [done|]. rewrite fmap_cons, !filter_cons.
    assert (touch_id (settle c) = touch_id c) as Hid by (unfold settle; by case_bool_decide).
    assert (action (settle c) <> mir_touch_action_up <-> action c <> mir_touch_action_up) as Hact.
    { unfold settle. case_bool_decide as H; [rewrite H|]; done. }
    destruct (decide (action c <> mir_touch_action_up)) as [H|H].
    - rewrite decide_True by tauto. rewrite !fmap_cons, Hid. by f_equal.
    - by rewrite decide_False by tauto. }
  split.
  - intros x. by rewrite Hids.
  - rewrite Hids. unfold live. eapply sublist_NoDup; [exact Hn|].
    apply fmap_sublist, sublist_filter.
  - unfold next_state. clear. induction cs as [|c cs IH]; [constructor|]. rewrite fmap_cons, filter_cons.
    case_decide as H; [|done].
    constructor; [|done]. unfold changed, settle in *. case_bool_decide; [done|]. by destruct (action c).
Qed.

(** ** The two repair loops *)
Fixpoint stream_end (prev : Contacts) (s : list Contacts) : Contacts :=
  match s with [] => prev | cur :: rest => stream_end cur rest end.

Lemma valid_stream_app prev s1 s2 :
  valid_stream prev (s1 ++ s2) <-> valid_stream prev s1 /\ valid_stream (stream_end prev s1) s2.
Proof. revert prev. induction s1 as [|c s1 IH]; intros prev; cbn; [tauto|]. rewrite IH. tauto. Qed.

Lemma stream_end_app prev s1 s2 : stream_end prev (s1 ++ s2) = stream_end (stream_end prev s1) s2.
Proof. revert prev. induction s1; intros; cbn; auto. Qed.

Lemma release_missing_spec ups prev l out fin :
  mirrors prev l -> release_missing ups l = (out, fin) ->
  valid_stream prev out /\ mirrors (stream_end prev out) fin /\
  forall x, x ∈ ids fin <-> x ∈ ids l /\ x ∉ ups.
Proof.
  revert prev l out. induction ups as [|id ups IH]; intros prev l out Hm; cbn.
  { intros [= <- <-]. split; [done|]. split; [done|]. set_solver. }
  rewrite erase_set_action. destruct (release_missing ups _) as [out' fin'] eqn:E. intros [= <- <-].
  destruct (mirrors_release prev l id Hm) as [Hv Hm'].
  destruct (IH _ _ _ Hm' E) as (Hv' & Hm'' & Hids). split; [done|]. split; [done|].
  intros x. rewrite Hids, ids_erase_id by apply Hm. set_solver.
Qed.

Lemma insert_missing_spec downs new prev l out fin :
  mirrors prev l -> NoDup downs -> (forall id, id ∈ downs -> id ∈ ids new /\ id ∉ ids l) ->
  insert_missing downs new l = (out, fin) ->
  valid_stream prev out /\ mirrors (stream_end prev out) fin /\
  forall x, x ∈ ids fin <-> x ∈ ids l \/ x ∈ downs.
Proof.
  revert prev l out. induction downs as [|id downs IH]; intros prev l out Hm Hnd Hin; cbn.
  { intros [= <- <-]. split; [done|]. split; [done|]. set_solver. }
  apply NoDup_cons in Hnd as [Hid Hnd].
  destruct (Hin id ltac:(set_solver)) as [Hnew Hl].
  destruct (find_has_id id new Hnew) as (c & -> & Hc & <-).
  destruct (insert_missing downs new _) as [out' fin'] eqn:E. intros [= <- <-].
  destruct (mirrors_insert prev l c Hm Hl) as [Hv Hm'].
  assert (Hids' : forall x, x ∈ ids (l ++ [with_action mir_touch_action_change c]) <->
                            x ∈ ids l \/ x = touch_id c).
  { intros x. unfold ids. rewrite fmap_app. set_solver. }
  edestruct (IH _ _ out' Hm' Hnd) as (Hv' & Hm'' & Hids); [|exact E|].
  { intros x Hx. destruct (Hin x ltac:(set_solver)). rewrite Hids'. split; [done|].
    intros [?| ->]; done. }
  split; [done|]. split; [done|]. intros x. rewrite Hids, Hids'. set_solver.
Qed.

Lemma ensure_stream_validity_spec new prev l out fin :
  mirrors prev l -> ensure_stream_validity_locked new l = (out, fin) ->
  valid_stream prev out /\ valid_next (stream_end prev out) new.
Proof.
  intros Hm. unfold ensure_stream_validity_locked. rewrite set_of_changed.
  destruct (release_missing _ l) as [out1 st1] eqn:E1.
  destruct (release_missing_spec _ _ _ _ _ Hm E1) as (Hv1 & Hm1 & Hids1).
  destruct (insert_missing _ new st1) as [out2 st2] eqn:E2. intros [= <- <-].
  assert (Hdown : forall id, id ∈ set_difference
      (foldr (fun c s => set_insert (touch_id c) s) [] (filter (fun c => action c <> mir_touch_action_down) new))
      (foldr (fun c s => set_insert (touch_id c) s) [] l) <->
      (exists c, c ∈ new /\ action c <> mir_touch_action_down /\ touch_id c = id) /\ id ∉ ids l).
  { intros id. unfold set_difference. rewrite list_elem_of_filter, !elem_of_set_of. fold (ids l).
    rewrite list_elem_of_fmap. setoid_rewrite list_elem_of_filter. naive_solver. }
  apply (insert_missing_spec _ _ (stream_end prev out1)) in E2 as (Hv2 & Hm2 & Hids2); [|done|..].
  2: { apply NoDup_filter, set_of_NoDup. }
  2: { intros id [(c & Hc & _ & <-) Hid]%Hdown. split; [by apply list_elem_of_fmap_2|].
    intros [? _]%Hids1. done. }
  split; [by apply valid_stream_app|]. rewrite stream_end_app.
  assert (Hlive : forall id, id ∈ live (stream_end (stream_end prev out1) out2) <->
     (id ∈ ids l /\ id ∈ ids new) \/
     ((exists c, c ∈ new /\ action c <> mir_touch_action_down /\ touch_id c = id) /\ id ∉ ids l)).
  { intros id. rewrite (mirrors_ids _ _ Hm2), Hids2, Hids1, Hdown.
    unfold set_difference. rewrite list_elem_of_filter, !elem_of_set_of. fold (ids l). fold (ids new).
    destruct (decide (id ∈ ids new)); naive_solver. }
  split.
  - intros id [[_ ?]|[(c & Hc & _ & <-) _]]%Hlive; [done|]. by apply list_elem_of_fmap_2.
  - intros c Hc Hn. destruct (decide (action c = mir_touch_action_down)) as [|Ha]; [done|].
    destruct Hn. apply Hlive. destruct (decide (touch_id c ∈ ids l)); [|naive_solver].
    apply or_introl. split; [done|]. by apply list_elem_of_fmap_2.
Qed.

(** ** Runs *)
Lemma ids_get ev : ids (get_contact_state ev) = ids (contacts ev).
Proof. unfold ids, get_contact_state. rewrite <-list_fmap_compose. by apply list_fmap_ext. Qed.

Lemma live_get ev : live (get_contact_state ev) = live (contacts ev).
Proof.
  unfold live, get_contact_state. induction (contacts ev) as [|c l IH]; [done|].
  rewrite fmap_cons, !filter_cons. cbn [action]. case_decide; rewrite ?fmap_cons, ?IH; done.
Qed.

Lemma valid_next_get prev ev : valid_next prev (get_contact_state ev) -> valid_next prev (contacts ev).
Proof.
  intros [H1 H2]. split; [intros id; rewrite <-ids_get; apply H1|].
  intros c Hc Hn. unfold get_contact_state in H2.
  specialize (H2 _ (list_elem_of_fmap_2 _ _ _ Hc)). by apply H2.
Qed.

Lemma device_stream_injected d ev out :
  device_stream d (make_touch_event ev <$> out) = if device_id (t_header ev) =? d then out else [].
Proof. unfold device_stream. induction out as [|c out IH]; cbn; [by case_if|]. rewrite IH. by case_if. Qed.

Lemma device_stream_app d l1 l2 : device_stream d (l1 ++ l2) = device_stream d l1 ++ device_stream d l2.
Proof. unfold device_stream. apply bind_app. Qed.

(** What one step does to the stream of every device. *)
Lemma validate_step st prevs ev out st' :
  (forall d, mirrors (prevs d) (default [] (st !! d))) -> well_formed ev ->
  validate_and_dispatch st ev = (out, st') ->
  (forall d, valid_stream (prevs d) (device_stream d out)) /\
  (forall d, mirrors (stream_end (prevs d) (device_stream d out)) (default [] (st' !! d))).
Proof.
  intros Hinv Hwf. destruct ev as [| t | |]; cbn; try (intros [= <- <-]; by split).
  unfold handle_touch_event. destruct (ensure_stream_validity_locked _ _) as [inj fin] eqn:E.
  intros [= <- <-]. set (id := device_id (t_header t)) in *.
  destruct (ensure_stream_validity_spec _ (prevs id) _ _ _ (Hinv id) E) as [Hv Hn%valid_next_get].
  assert (Hs : forall d, device_stream d ((make_touch_event t <$> inj) ++ [TouchEvent t]) =
                         if id =? d then inj ++ [contacts t] else []).
  { intros d. rewrite device_stream_app, device_stream_injected. cbn. fold id. by case_if. }
  split; intros d; rewrite Hs; destruct (Z.eqb_spec id d) as [<-|Hne]; try done.
  - apply valid_stream_app. by split.
  - rewrite stream_end_app, lookup_insert_eq. cbn.
    pose proof (mirrors_settle (get_contact_state t)) as Hms. rewrite ids_get in Hms.
    destruct (Hms Hwf) as [Hi Hnd Hch]. split; try done. intros x. rewrite <-live_get. apply Hi.
  - rewrite lookup_insert_ne by done. apply Hinv.
Qed.

Lemma run_validator_valid st prevs evs d :
  (forall d, mirrors (prevs d) (default [] (st !! d))) -> Forall well_formed evs ->
  valid_stream (prevs d) (device_stream d (run_validator st evs)).
Proof.
  revert st prevs. induction evs as [|ev evs IH]; intros st prevs Hinv Hwf; [done|].
  cbn [run_validator]. apply Forall_cons in Hwf as [Hwf1 Hwf]. destruct (validate_and_dispatch st ev) as [out st'] eqn:E.
  destruct (validate_step _ _ _ _ _ Hinv Hwf1 E) as [Hv Hinv'].
  rewrite device_stream_app. apply valid_stream_app. split; [done|].
  by apply (IH st' (fun d => stream_end (prevs d) (device_stream d out))).
Qed.

Lemma mirrors_initial : mirrors [] [].
Proof. split; [done|constructor|constructor]. Qed.

(** ** Theorems *)
(** C2: for every sequence of events whose touch points have distinct ids and
    for every device, the touch events the validator dispatches for the
    device form a valid stream: a point that is down stays in every event
    until one releases it, and a point that was not down enters with a down
    action.  (With two points of the same id in one event a point can vanish:
    [duplicate_id_vanishes].) *)
Theorem validator_stream_valid (evs : list MirEvent) (d : Z) :
  Forall well_formed evs -> valid_stream [] (device_stream d (run_validator ∅ evs)).
Proof.
  intros Hwf. apply (run_validator_valid ∅ (fun _ => [])); [|done].
  intros d'. rewrite lookup_empty. apply mirrors_initial.
Qed.

(** Two touches go down together, then only the second is reported, and a
    third moves without having come down. *)
Definition example_contact (id : Z) (a : MirTouchAction) : ContactState :=
  mkContact id a 0 (S754_zero false) (S754_zero false) (S754_zero false) (S754_zero false)
            (S754_zero false) (S754_zero false).
Definition example_events : list MirEvent :=
  [TouchEvent (mkTouchEvent (mkHeader 3 10 [] 1)
     [example_contact 0 mir_touch_action_down; example_contact 1 mir_touch_action_down]);
   TouchEvent (mkTouchEvent (mkHeader 3 20 [] 1)
     [example_contact 1 mir_touch_action_change; example_contact 2 mir_touch_action_change])].

Lemma validator_stream_valid_witness :
  device_stream 3 (run_validator ∅ example_events) =
    [[example_contact 0 mir_touch_action_down; example_contact 1 mir_touch_action_down];
     [example_contact 0 mir_touch_action_up; example_contact 1 mir_touch_action_change];
     [example_contact 1 mir_touch_action_change; example_contact 2 mir_touch_action_down];
     [example_contact 1 mir_touch_action_change; example_contact 2 mir_touch_action_change]] /\
  valid_stream [] (device_stream 3 (run_validator ∅ example_events)).
Proof.
  split; [vm_compute; reflexivity|]. apply (validator_stream_valid example_events 3).
  apply (bool_decide_unpack _). vm_compute. exact I.
Defined.

(** Two contacts of one event with the same id: only one of them is released
    when the next event has none. *)
Example duplicate_id_vanishes :
  let touch cs := TouchEvent (mkTouchEvent (mkHeader 3 10 [] 1) cs) in
  device_stream 3 (run_validator ∅ [touch [example_contact 0 mir_touch_action_down; example_contact 0 mir_touch_action_down]; touch []]) =
    [[example_contact 0 mir_touch_action_down; example_contact 0 mir_touch_action_down];
     [example_contact 0 mir_touch_action_up; example_contact 0 mir_touch_action_change]; []].
Proof. vm_compute. reflexivity. Qed.

Lemma set_difference_nil s1 s2 : (forall x, x ∈ s1 -> x ∈ s2) -> set_difference s1 s2 = [].
Proof.
  unfold set_difference. induction s1 as [|x s1 IH]; intros H; [done|].
  rewrite filter_cons, decide_False; [apply IH; set_solver|]. intros Hn. apply Hn. set_solver.
Qed.

Lemma ensure_stream_validity_nop new prev l :
  mirrors prev l -> valid_next prev new -> ensure_stream_validity_locked new l = ([], l).
Proof.
  intros Hm [H1 H2]. unfold ensure_stream_validity_locked. rewrite set_of_changed.
  rewrite !set_difference_nil; [done|..]; intros x; rewrite !elem_of_set_of; fold (ids l).
  - intros (c & -> & Hc)%list_elem_of_fmap. apply list_elem_of_filter in Hc as [Ha Hc].
    apply (mirrors_ids _ _ Hm). destruct (decide (touch_id c ∈ live prev)); [done|]. by destruct Ha; apply H2.
  - intros Hx%(mirrors_ids _ _ Hm). by apply H1.
Qed.

Lemma valid_next_get' prev ev : valid_next prev (contacts ev) -> valid_next prev (get_contact_state ev).
Proof.
  intros [H1 H2]. split; [intros id; rewrite ids_get; apply H1|].
  intros c (c0 & -> & Hc)%list_elem_of_fmap. cbn. by apply H2.
Qed.

Lemma run_validator_id st prevs evs :
  (forall d, mirrors (prevs d) (default [] (st !! d))) -> Forall well_formed evs ->
  (forall d, valid_stream (prevs d) (device_stream d evs)) -> run_validator st evs = evs.
Proof.
  revert st prevs. induction evs as [|ev evs IH]; intros st prevs Hinv Hwf Hv; [done|].
  cbn [run_validator]. apply Forall_cons in Hwf as [Hwf1 Hwf].
  assert (exists st', validate_and_dispatch st ev = ([ev], st')) as [st' E].
  { destruct ev as [| t | |]; cbn; eauto. unfold handle_touch_event.
    specialize (Hv (device_id (t_header t))). change (TouchEvent t :: evs) with ([TouchEvent t] ++ evs) in Hv.
    rewrite device_stream_app in Hv. cbn in Hv. rewrite Z.eqb_refl in Hv. cbn in Hv.
    rewrite (ensure_stream_validity_nop _ _ _ (Hinv _)); [cbn; eauto|]. apply valid_next_get', Hv. }
  rewrite E. destruct (validate_step _ _ _ _ _ Hinv Hwf1 E) as [_ Hinv'].
  cbn. f_equal. apply (IH _ _ Hinv' Hwf). intros d. specialize (Hv d).
  change (ev :: evs) with ([ev] ++ evs) in Hv. rewrite device_stream_app in Hv.
  by apply valid_stream_app in Hv as [_ Hv].
Qed.

(** the validator is transparent: it forwards every event it is given,
    unchanged and in order, and adds nothing to a stream that is already
    valid for every device. *)
Theorem validator_transparent (evs : list MirEvent) :
  evs `sublist_of` run_validator ∅ evs /\
  (Forall well_formed evs -> (forall d, valid_stream [] (device_stream d evs)) ->
   run_validator ∅ evs = evs).
Proof.
  split.
  - generalize (∅ : ValidatorState). induction evs as [|ev evs IH]; intros st; [constructor|].
    cbn [run_validator]. destruct (validate_and_dispatch st ev) as [out st'] eqn:E.
    assert (exists pre, out = pre ++ [ev]) as [pre ->].
    { destruct ev as [| t | |]; cbn in E; [by injection E as <- <-; exists []| |by injection E as <- <-; exists []..].
      unfold handle_touch_event in E. destruct (ensure_stream_validity_locked _ _). injection E as <- <-. eauto. }
    rewrite <-app_assoc. apply sublist_inserts_l. cbn. by constructor.
  - intros Hwf Hv. apply (run_validator_id ∅ (fun _ => [])); [|done..].
    intros d. rewrite lookup_empty. apply mirrors_initial.
Qed.

Lemma validator_transparent_witness :
  run_validator ∅ (take 1 example_events) = take 1 example_events.
Proof.
  apply (validator_transparent (take 1 example_events)).
  - apply (bool_decide_unpack _). vm_compute. exact I.
  - intros d. cbn. case_if; cbn; [|done]. split; [|done]. split; [intros id []%not_elem_of_nil|].
    intros c [->|[->|[]%not_elem_of_nil]%elem_of_cons]%elem_of_cons; done.
Defined.

(** ** Synthesized events *)
(** What [last_event_by_device] holds between events. *)
Definition settled (l : Contacts) : Prop := NoDup (ids l) /\ Forall changed l.
Definition validator_inv (st : ValidatorState) : Prop := forall d, settled (default [] (st !! d)).

(** One point of the event changes state, the others are reported as
    unchanged in state. *)
Definition one_transition (cs : Contacts) : Prop :=
  exists c, c ∈ cs /\ action c <> mir_touch_action_change /\
    filter (fun c => action c <> mir_touch_action_change) cs = [c].

Lemma changed_filter l : Forall changed l -> filter (fun c => action c <> mir_touch_action_change) l = [].
Proof.
  induction 1 as [|c l Hc Hl IH]; [done|]. rewrite filter_cons, decide_False; [done|]. intros H. by apply H.
Qed.

Lemma release_one_transition id l :
  Forall changed l -> id ∈ ids l -> one_transition (set_action id mir_touch_action_up l).
Proof.
  unfold ids. induction 1 as [|c l Hc Hl IH]; [intros []%not_elem_of_nil|]. rewrite fmap_cons. cbn [set_action].
  unfold has_id. destruct (Z.eqb_spec (touch_id c) id) as [|Hne].
  - intros _. exists (with_action mir_touch_action_up c). split; [set_solver|]. split; [done|].
    by rewrite filter_cons, decide_True, changed_filter.
  - intros [?|Hin]%elem_of_cons; [done|]. destruct (IH Hin) as (c' & ? & ? & Hf).
    exists c'. split; [set_solver|]. split; [done|]. rewrite filter_cons, decide_False; [done|].
    intros H'. by apply H'.
Qed.

Lemma insert_one_transition c l :
  Forall changed l -> one_transition (l ++ [with_action mir_touch_action_down c]).
Proof.
  intros Hl. exists (with_action mir_touch_action_down c). split; [set_solver|]. split; [done|].
  by rewrite filter_app, changed_filter.
Qed.

Lemma release_missing_transitions ups l out fin :
  settled l -> NoDup ups -> (forall id, id ∈ ups -> id ∈ ids l) -> release_missing ups l = (out, fin) ->
  settled fin /\ Forall one_transition out.
Proof.
  revert l out. induction ups as [|id ups IH]; intros l out [Hn Hc] Hu Hin; cbn; [by intros [= <- <-]|].
  rewrite erase_set_action. destruct (release_missing ups _) as [out' fin'] eqn:E. intros [= <- <-].
  apply NoDup_cons in Hu as [Hid Hu]. apply IH in E as [Hf Ho]; [|split|done|].
  - split; [done|]. constructor; [|done]. apply release_one_transition; [done|]. apply Hin. set_solver.
  - by apply erase_id_NoDup.
  - by apply erase_id_Forall.
  - intros x Hx. rewrite ids_erase_id by done. set_solver.
Qed.

Lemma insert_missing_transitions downs new l out fin :
  Forall changed l -> insert_missing downs new l = (out, fin) -> Forall one_transition out.
Proof.
  revert l out. induction downs as [|id downs IH]; intros l out Hc; cbn; [by intros [= <- <-]|].
  destruct (find_if (has_id id) new) as [c|]; [|by apply IH].
  destruct (insert_missing downs new _) as [out' fin'] eqn:E. intros [= <- <-].
  constructor; [by apply insert_one_transition|]. eapply IH; [|exact E].
  apply Forall_app. split; [done|]. by repeat constructor.
Qed.

Lemma ensure_transitions new l out fin :
  settled l -> ensure_stream_validity_locked new l = (out, fin) -> Forall one_transition out.
Proof.
  intros Hs. unfold ensure_stream_validity_locked.
  destruct (release_missing _ l) as [out1 st1] eqn:E1.
  destruct (insert_missing _ new st1) as [out2 st2] eqn:E2. intros [= <- <-].
  apply release_missing_transitions in E1 as [[_ Hst1] Ho1]; [|done|..].
  - apply Forall_app. split; [done|]. by eapply insert_missing_transitions.
  - apply NoDup_filter, set_of_NoDup.
  - intros id. unfold set_difference. rewrite list_elem_of_filter, !elem_of_set_of. tauto.
Qed.

(** What a touch event causes to be dispatched, and the invariant of the
    stored contacts.  Each synthesized event has the device and the modifiers
    of the event it precedes and reports exactly one point coming down or
    going up; its time is the number that encodes the modifiers, whatever the
    time of the event. *)
Theorem validator_synthesized (st st' : ValidatorState) (t : MirTouchEvent) (out : list MirEvent) :
  validator_inv st -> well_formed (TouchEvent t) ->
  validate_and_dispatch st (TouchEvent t) = (out, st') ->
  validator_inv st' /\
  exists injected, out = injected ++ [TouchEvent t] /\
    forall e, e ∈ injected -> exists h cs, e = TouchEvent (mkTouchEvent h cs) /\ one_transition cs /\
      device_id h = device_id (t_header t) /\ modifiers h = modifiers (t_header t) /\
      event_time h = modifiers (t_header t).
Proof.
  intros Hinv Hwf. cbn. unfold handle_touch_event.
  destruct (ensure_stream_validity_locked _ _) as [inj fin] eqn:E. intros [= <- <-].
  apply ensure_transitions in E as Ho; [|apply Hinv]. split.
  - intros d. rewrite lookup_insert. case_decide; [cbn|apply Hinv].
    pose proof (mirrors_settle (get_contact_state t)) as Hms. rewrite ids_get in Hms.
    destruct (Hms Hwf) as [_ Hn Hc]. by split.
  - eexists. split; [done|]. intros e (cs & -> & Hcs)%list_elem_of_fmap.
    eexists _, cs. split; [done|]. rewrite Forall_forall in Ho. by split; [apply Ho|].
Qed.

Lemma validator_synthesized_witness :
  exists st', validate_and_dispatch ∅ (TouchEvent (mkTouchEvent (mkHeader 3 20 [] 1)
      [example_contact 2 mir_touch_action_change])) =
    ([TouchEvent (mkTouchEvent (mkHeader 3 1 [] 1) [example_contact 2 mir_touch_action_down]);
      TouchEvent (mkTouchEvent (mkHeader 3 20 [] 1) [example_contact 2 mir_touch_action_change])], st')
    /\ validator_inv st'.
Proof.
  eexists. split; [vm_compute; reflexivity|].
  refine (proj1 (validator_synthesized ∅ _
    (mkTouchEvent (mkHeader 3 20 [] 1) [example_contact 2 mir_touch_action_change]) _ _ _ _)).
  - intros d. rewrite lookup_empty. split; constructor.
  - apply (bool_decide_unpack _). vm_compute. exact I.
  - reflexivity.
Defined.
