(* ===== verification/Schedule.v ===== *)
(** * mir::compositor::Schedule

    The queue between a client that submits buffers and the compositors that
    show them: the abstract class [Schedule] as an interface with its laws,
    and its two implementations, [QueueingSchedule]
    ([src/server/compositor/queueing_schedule.cpp]) and [DroppingSchedule]
    ([dropping_schedule.cpp]).  The clients ([BufferStream.v]) are proved
    against the interface. *)
From S2P Require Import Prelude Geometry.

(** A [graphics::Buffer] and what the stream reads from it; [buf_id] is its
    identity (the address compared by [shared_ptr]'s equality). *)
Record Buffer := mkBuffer { buf_id : Z; buf_size : Size; buf_format : Z }.
#[export] Instance Buffer_eq_dec : EqDecision Buffer.
Proof. solve_decision. Defined.

(** ** The interface *)
Class Schedule (S : Type) := {
  schedule : Buffer -> S -> S;
  num_scheduled : S -> nat;
  next_buffer : S -> outcome (Buffer * S)
}.

(** What a schedule promises: it is a queue of pending buffers, handed out
    from the front; scheduling makes a buffer the last one, keeps some of the
    others in their order and does not keep a second copy. *)
Class ScheduleLaws (S : Type) `{Schedule S} := {
  pending : S -> list Buffer;
  num_scheduled_pending s : num_scheduled s = length (pending s);
  next_buffer_empty s :
    pending s = [] -> next_buffer s = Throw (logic_error "no buffer scheduled");
  next_buffer_pending s b bs :
    pending s = b :: bs -> exists s', next_buffer s = Ret (b, s') /\ pending s' = bs;
  schedule_pending s b :
    exists kept, pending (schedule b s) = kept ++ [b] /\ kept `sublist_of` pending s /\
      (NoDup (pending s) -> b ∉ kept)
}.

(** ** QueueingSchedule *)
Record QueueingSchedule := mkQueueing { queue : list Buffer }.

Definition queueing_schedule (buffer : Buffer) (s : QueueingSchedule) : QueueingSchedule :=
  mkQueueing (erase_first buffer (queue s) ++ [buffer]).
Definition queueing_num_scheduled (s : QueueingSchedule) : nat := length (queue s).
Definition queueing_next_buffer (s : QueueingSchedule) : outcome (Buffer * QueueingSchedule) :=
  match queue s with
  | [] => Throw (logic_error "no buffer scheduled")
  | buffer :: rest => Ret (buffer, mkQueueing rest)
  end.

#[export] Instance QueueingSchedule_Schedule : Schedule QueueingSchedule := {
  schedule := queueing_schedule;
  num_scheduled := queueing_num_scheduled;
  next_buffer := queueing_next_buffer
}.

(** ** DroppingSchedule *)
Record DroppingSchedule := mkDropping { the_only_buffer : option Buffer }.

Definition dropping_schedule (buffer : Buffer) (s : DroppingSchedule) : DroppingSchedule :=
  mkDropping (Some buffer).
Definition dropping_num_scheduled (s : DroppingSchedule) : nat :=
  match the_only_buffer s with Some _ => 1 | None => 0 end.
Definition dropping_next_buffer (s : DroppingSchedule) : outcome (Buffer * DroppingSchedule) :=
  match the_only_buffer s with
  | None => Throw (logic_error "no buffer scheduled")
  | Some buffer => Ret (buffer, mkDropping None)
  end.

#[export] Instance DroppingSchedule_Schedule : Schedule DroppingSchedule := {
  schedule := dropping_schedule;
  num_scheduled := dropping_num_scheduled;
  next_buffer := dropping_next_buffer
}.

(** ** The laws hold of both *)
Lemma erase_first_sublist {A} `{EqDecision A} (x : A) (l : list A) : erase_first x l `sublist_of` l.
Proof. induction l as [|y l IH]; cbn; [done|]. case_decide; by constructor. Qed.

#[export] Instance QueueingSchedule_Laws : ScheduleLaws QueueingSchedule.
Proof.
  refine {| pending := queue |}; [done|..].
  - intros [q] Hq. cbn in *. by rewrite Hq.
  - intros [q] b bs Hq. cbn in *. subst q. eexists. done.
  - intros [q] b. exists (erase_first b q). split; [done|]. split; [apply erase_first_sublist|].
    cbn. intros Hn. rewrite elem_of_erase_first by done. tauto.
Defined.

#[export] Instance DroppingSchedule_Laws : ScheduleLaws DroppingSchedule.
Proof.
  refine {| pending := fun s => option_list (the_only_buffer s) |}.
  - by intros [[b|]].
  - by intros [[b|]].
  - intros [[b'|]] b bs Hq; cbn in *; [|done]. simplify_eq. by eexists.
  - intros [o] b. exists []. split; [done|]. split; [apply sublist_nil_l|]. intros _. apply not_elem_of_nil.
Defined.

(** ** Dynamic dispatch
    The [shared_ptr<Schedule>] of a stream points to either class. *)
Inductive AnySchedule :=
| AQueueing (s : QueueingSchedule)
| ADropping (s : DroppingSchedule).

#[export] Instance AnySchedule_Schedule : Schedule AnySchedule := {
  schedule b s := match s with
    | AQueueing s => AQueueing (schedule b s)
    | ADropping s => ADropping (schedule b s) end;
  num_scheduled s := match s with
    | AQueueing s => num_scheduled s
    | ADropping s => num_scheduled s end;
  next_buffer s := match s with
    | AQueueing s => (fun '(b, s') => (b, AQueueing s')) <$> next_buffer s
    | ADropping s => (fun '(b, s') => (b, ADropping s')) <$> next_buffer s end
}.

#[export] Instance AnySchedule_Laws : ScheduleLaws AnySchedule.
Proof.
  refine {| pending := fun s => match s with AQueueing s => pending s | ADropping s => pending s end |}.
  - intros [s|s]; apply (num_scheduled_pending s).
  - intros [s|s] Hs; cbn [next_buffer AnySchedule_Schedule]; by rewrite next_buffer_empty.
  - intros [s|s] b bs Hs; cbn [next_buffer AnySchedule_Schedule];
      destruct (next_buffer_pending s b bs Hs) as (s' & -> & Hs').
    + by exists (AQueueing s').
    + by exists (ADropping s').
  - intros [s|s] b; apply (schedule_pending s b).
Defined.

#[global] Arguments pending : simpl never.

(** ** Draining a schedule
    [while (schedule->num_scheduled()) v.emplace_back(schedule->next_buffer());]
    The fuel of the loop is the number of scheduled buffers at its start,
    which [drain_complete] shows to be enough. *)
Section Drain.
Context {S : Type} `{ScheduleLaws S}.

Fixpoint drain_loop (fuel : nat) (s : S) : outcome (list Buffer * S) :=
  match fuel with
  | O => Ret ([], s)
  | Datatypes.S fuel' =>
      match num_scheduled s with
      | O => Ret ([], s)
      | _ =>
          '(buffer, s1) ← next_buffer s;
          '(rest, s2) ← drain_loop fuel' s1;
          Ret (buffer :: rest, s2)
      end
  end.

Definition drain (s : S) : outcome (list Buffer * S) := drain_loop (num_scheduled s) s.

Lemma drain_loop_complete fuel s :
  (length (pending s) <= fuel)%nat -> exists s', drain_loop fuel s = Ret (pending s, s') /\ pending s' = [].
Proof.
  revert s. induction fuel as [|fuel IH]; intros s Hf; cbn.
  - destruct (pending s) eqn:E; cbn in Hf; [eauto|lia].
  - rewrite num_scheduled_pending. destruct (pending s) as [|b bs] eqn:E; cbn; [by eauto|].
    destruct (next_buffer_pending s b bs E) as (s1 & -> & Hs1). cbn in *.
    destruct (IH s1) as (s2 & -> & Hs2); [rewrite Hs1; lia|]. cbn. rewrite Hs1. eauto.
Qed.

Lemma drain_complete s : exists s', drain s = Ret (pending s, s') /\ pending s' = [].
Proof. apply drain_loop_complete. by rewrite num_scheduled_pending. Qed.
End Drain.
