(* ===== verification/BufferStream.v ===== *)
(** * mir::compositor::MultiMonitorArbiter and mir::compositor::Stream

    [src/server/compositor/multi_monitor_arbiter.cpp] decides which buffer
    each compositor shows; [src/server/compositor/stream.cpp] feeds it from a
    schedule that is exchanged when frame dropping is switched on or off.
    The stream and its arbiter hold two pointers to the schedule: the heap of
    schedules and both pointers are part of the state.  The operations come one
    after another.  Most hold the stream's lock, but [lock_compositor_buffer]
    holds only that of the arbiter, so that it can fall between the two parts of
    [transition_schedule], which exchanges the schedules; that is left out. *)
From stdpp Require Import functions.
From S2P Require Import Prelude Geometry Schedule.

(** ** MultiMonitorArbiter *)
Abbreviation CompositorID := Z.

(** The members other than the pointer to the schedule. *)
Record Arbiter := mkArbiter {
  current_buffer : option Buffer;
  current_buffer_users : list (option CompositorID)
}.

Definition arbiter_init : Arbiter := mkArbiter None [].

(** The first empty slot takes the id; the vector grows when there is none. *)
Fixpoint add_user (id : CompositorID) (slots : list (option CompositorID))
  : list (option CompositorID) :=
  match slots with
  | [] => [Some id]
  | None :: rest => Some id :: rest
  | Some u :: rest => Some u :: add_user id rest
  end.

Definition add_current_buffer_user (a : Arbiter) (id : CompositorID) : Arbiter :=
  mkArbiter (current_buffer a) (add_user id (current_buffer_users a)).

Definition is_user_of_current_buffer (a : Arbiter) (id : CompositorID) : bool :=
  existsb (fun slot => match slot with Some u => u =? id | None => false end)
          (current_buffer_users a).

Definition clear_current_users (a : Arbiter) : Arbiter :=
  mkArbiter (current_buffer a) ((fun _ => None) <$> current_buffer_users a).

Section Arbiter.
Context {S : Type} `{Schedule S}.

(** [current_buffer = schedule->next_buffer(); clear_current_users();] *)
Definition advance (s : S) (a : Arbiter) : outcome (S * Arbiter) :=
  '(b, s') ← next_buffer s;
  Ret (s', clear_current_users (mkArbiter (Some b) (current_buffer_users a))).

Definition compositor_acquire (s : S) (a : Arbiter) (id : CompositorID)
  : outcome (Buffer * (S * Arbiter)) :=
  '(s', a') ←
    (if bool_decide (current_buffer a = None) || is_user_of_current_buffer a id then
       if Nat.ltb 0 (num_scheduled s) then advance s a else Ret (s, a)
     else Ret (s, a));
  match current_buffer a' with
  | None => Throw (logic_error "no buffer to give to compositor")
  | Some b => Ret (b, (s', add_current_buffer_user a' id))
  end.

Definition snapshot_acquire (s : S) (a : Arbiter) : outcome (Buffer * (S * Arbiter)) :=
  match current_buffer a with
  | Some b => Ret (b, (s, a))
  | None =>
      if Nat.ltb 0 (num_scheduled s) then
        '(b, s') ← next_buffer s;
        Ret (b, (s', clear_current_users (mkArbiter (Some b) (current_buffer_users a))))
      else Throw (logic_error "no buffer to give to snapshotter")
  end.

Definition buffer_ready_for (s : S) (a : Arbiter) (id : CompositorID) : bool :=
  if Nat.ltb 0 (num_scheduled s) then true
  else if bool_decide (current_buffer a <> None) && negb (is_user_of_current_buffer a id) then true
  else false.

Definition advance_schedule (s : S) (a : Arbiter) : outcome (S * Arbiter) :=
  if Nat.ltb 0 (num_scheduled s) then advance s a else Ret (s, a).
End Arbiter.

(** ** Stream *)
Inductive ScheduleMode := Queueing | Dropping.
#[export] Instance ScheduleMode_eq_dec : EqDecision ScheduleMode.
Proof. solve_decision. Defined.

(** A reference to a schedule on the heap. *)
Abbreviation ref := nat.

Record Stream := mkStream {
  schedule_mode : ScheduleMode;
  schedule_ref : ref;           (* Stream::schedule *)
  arbiter_schedule : ref;       (* MultiMonitorArbiter::schedule *)
  heap : ref -> AnySchedule;
  heap_next : ref;              (* references from here on are unallocated *)
  arbiter : Arbiter;
  stream_size : Size;
  pixel_format : Z;
  first_frame_posted : bool
}.

(** The constructor: the heap holds one queueing schedule that both members
    point to. *)
Definition stream_init (size : Size) (pf : Z) : Stream :=
  mkStream Queueing 0 0 (fun _ => AQueueing (mkQueueing [])) 1 arbiter_init size pf false.

Definition set_heap (st : Stream) (r : ref) (s : AnySchedule) : Stream :=
  mkStream (schedule_mode st) (schedule_ref st) (arbiter_schedule st) (<[r := s]> (heap st))
    (heap_next st) (arbiter st) (stream_size st) (pixel_format st) (first_frame_posted st).
Definition set_arbiter (st : Stream) (a : Arbiter) : Stream :=
  mkStream (schedule_mode st) (schedule_ref st) (arbiter_schedule st) (heap st)
    (heap_next st) a (stream_size st) (pixel_format st) (first_frame_posted st).
Definition set_mode (st : Stream) (m : ScheduleMode) : Stream :=
  mkStream m (schedule_ref st) (arbiter_schedule st) (heap st)
    (heap_next st) (arbiter st) (stream_size st) (pixel_format st) (first_frame_posted st).

(** The schedule each member points to. *)
Definition own_schedule (st : Stream) : AnySchedule := heap st (schedule_ref st).
Definition arb_schedule (st : Stream) : AnySchedule := heap st (arbiter_schedule st).

(** Run an arbiter operation on the schedule the arbiter points to. *)
Definition with_arbiter {A} (st : Stream)
    (f : AnySchedule -> Arbiter -> outcome (A * (AnySchedule * Arbiter))) : outcome (A * Stream) :=
  '(x, (s', a')) ← f (arb_schedule st) (arbiter st);
  Ret (x, set_arbiter (set_heap st (arbiter_schedule st) s') a').

(** A null [buffer] is [None]; the result carries the argument of the frame
    callback. *)
Definition submit_buffer (st : Stream) (buffer : option Buffer) : outcome (Size * Stream) :=
  match buffer with
  | None => Throw (invalid_argument "cannot submit null buffer")
  | Some b =>
      let st1 := mkStream (schedule_mode st) (schedule_ref st) (arbiter_schedule st) (heap st)
                   (heap_next st) (arbiter st) (buf_size b) (buf_format b) true in
      Ret (buf_size b, set_heap st1 (schedule_ref st1) (schedule b (own_schedule st1)))
  end.

Definition lock_compositor_buffer (st : Stream) (id : CompositorID) : outcome (Buffer * Stream) :=
  with_arbiter st (fun s a => compositor_acquire s a id).

(** [with_most_recent_buffer_do]: the buffer its callback is given. *)
Definition with_most_recent_buffer (st : Stream) : outcome (Buffer * Stream) :=
  with_arbiter st snapshot_acquire.

(** [new_schedule] is the freshly made schedule object. *)
Definition transition_schedule (st : Stream) (new_schedule : AnySchedule) : outcome Stream :=
  '(transferred_buffers, drained) ← drain (own_schedule st);
  let st1 := set_heap st (schedule_ref st) drained in
  let fresh := heap_next st1 in
  let filled := foldl (fun s b => schedule b s) new_schedule transferred_buffers in
  Ret (mkStream (schedule_mode st1) fresh fresh (<[fresh := filled]> (heap st1))
         (Datatypes.S fresh) (arbiter st1) (stream_size st1) (pixel_format st1)
         (first_frame_posted st1)).

Definition allow_framedropping (st : Stream) (dropping : bool) : outcome Stream :=
  if dropping && bool_decide (schedule_mode st = Queueing) then
    st' ← transition_schedule st (ADropping (mkDropping None));
    Ret (set_mode st' Dropping)
  else if negb dropping && bool_decide (schedule_mode st = Dropping) then
    st' ← transition_schedule st (AQueueing (mkQueueing []));
    Ret (set_mode st' Queueing)
  else Ret st.

Definition framedropping (st : Stream) : bool := bool_decide (schedule_mode st = Dropping).

Definition buffers_ready_for_compositor (st : Stream) (id : CompositorID) : Z :=
  if buffer_ready_for (arb_schedule st) (arbiter st) id then 1 else 0.

Definition drop_old_buffers (st : Stream) : outcome Stream :=
  '(transferred_buffers, drained) ← drain (own_schedule st);
  let st1 := set_heap st (schedule_ref st) drained in
  let st2 := match last transferred_buffers with
             | Some b => set_heap st1 (schedule_ref st1) (schedule b (own_schedule st1))
             | None => st1
             end in
  '(s', a') ← advance_schedule (arb_schedule st2) (arbiter st2);
  Ret (set_arbiter (set_heap st2 (arbiter_schedule st2) s') a').

Definition has_submitted_buffer (st : Stream) : bool := first_frame_posted st.

(** ** Operations as a transition system *)
Inductive stream_op :=
| Submit (b : option Buffer)
| Acquire (id : CompositorID)
| Snapshot
| AllowDropping (dropping : bool)
| DropOld
| Ready (id : CompositorID).

Inductive stream_obs :=
| OSize (s : Size)
| OBuffer (b : Buffer)
| OReady (n : Z)
| ODone.

Definition stream_step (st : Stream) (o : stream_op) : outcome (stream_obs * Stream) :=
  match o with
  | Submit b => '(s, st') ← submit_buffer st b; Ret (OSize s, st')
  | Acquire id => '(b, st') ← lock_compositor_buffer st id; Ret (OBuffer b, st')
  | Snapshot => '(b, st') ← with_most_recent_buffer st; Ret (OBuffer b, st')
  | AllowDropping d => st' ← allow_framedropping st d; Ret (ODone, st')
  | DropOld => st' ← drop_old_buffers st; Ret (ODone, st')
  | Ready id => Ret (OReady (buffers_ready_for_compositor st id), st)
  end.

(** ** Abstract specification: a queue, a shown frame, and who has seen it *)
Record AStream := mkAStream {
  a_mode : ScheduleMode;
  a_pending : list Buffer;
  a_current : option Buffer;
  a_users : gset CompositorID;
  a_size : Size;
  a_format : Z;
  a_posted : bool
}.

Definition a_enqueue (m : ScheduleMode) (b : Buffer) (q : list Buffer) : list Buffer :=
  match m with Queueing => erase_first b q ++ [b] | Dropping => [b] end.

(** Show the next pending frame, if there is one. *)
Definition a_next (a : AStream) : AStream :=
  match a_pending a with
  | [] => a
  | b :: q => mkAStream (a_mode a) q (Some b) ∅ (a_size a) (a_format a) (a_posted a)
  end.

Definition a_set_pending (a : AStream) (m : ScheduleMode) (q : list Buffer) : AStream :=
  mkAStream m q (a_current a) (a_users a) (a_size a) (a_format a) (a_posted a).

Definition a_step (a : AStream) (o : stream_op) : outcome (stream_obs * AStream) :=
  match o with
  | Submit None => Throw (invalid_argument "cannot submit null buffer")
  | Submit (Some b) =>
      Ret (OSize (buf_size b),
           mkAStream (a_mode a) (a_enqueue (a_mode a) b (a_pending a)) (a_current a) (a_users a)
             (buf_size b) (buf_format b) true)
  | Acquire id =>
      let a1 := if bool_decide (a_current a = None \/ id ∈ a_users a) then a_next a else a in
      match a_current a1 with
      | None => Throw (logic_error "no buffer to give to compositor")
      | Some b => Ret (OBuffer b,
          mkAStream (a_mode a1) (a_pending a1) (a_current a1) ({[id]} ∪ a_users a1)
            (a_size a1) (a_format a1) (a_posted a1))
      end
  | Snapshot =>
      let a1 := if bool_decide (a_current a = None) then a_next a else a in
      match a_current a1 with
      | None => Throw (logic_error "no buffer to give to snapshotter")
      | Some b => Ret (OBuffer b, a1)
      end
  | AllowDropping true => Ret (ODone, a_set_pending a Dropping (option_list (last (a_pending a))))
  | AllowDropping false => Ret (ODone, a_set_pending a Queueing (a_pending a))
  | DropOld => Ret (ODone, a_next (a_set_pending a (a_mode a) (option_list (last (a_pending a)))))
  | Ready id =>
      Ret (OReady (if bool_decide (a_pending a <> [] \/ (a_current a <> None /\ id ∉ a_users a))
                   then 1 else 0), a)
  end.

(** ** Abstraction *)
Definition users_of (a : Arbiter) : gset CompositorID :=
  list_to_set (omap (fun slot => slot) (current_buffer_users a)).

Definition abs (st : Stream) : AStream :=
  mkAStream (schedule_mode st) (pending (own_schedule st)) (current_buffer (arbiter st))
    (users_of (arbiter st)) (stream_size st) (pixel_format st) (first_frame_posted st).

Definition kind (s : AnySchedule) : ScheduleMode :=
  match s with AQueueing _ => Queueing | ADropping _ => Dropping end.

(** The two pointers are aliases of one allocated schedule, of the class the
    mode says, whose pending buffers are distinct. *)
Record stream_wf (st : Stream) : Prop := {
  wf_alias : arbiter_schedule st = schedule_ref st;
  wf_allocated : (schedule_ref st < heap_next st)%nat;
  wf_kind : kind (own_schedule st) = schedule_mode st;
  wf_NoDup : NoDup (pending (own_schedule st))
}.

(** ** Users of the current buffer *)
Lemma is_user_spec a id : is_user_of_current_buffer a id = bool_decide (id ∈ users_of a).
Proof.
  unfold is_user_of_current_buffer, users_of. apply eq_bool_prop_intro.
  rewrite bool_decide_spec, elem_of_list_to_set, list_elem_of_omap, Is_true_true, existsb_exists.
  setoid_rewrite <-list_elem_of_In. split.
  - intros ([u|] & Hin & Hu); [|done]. breflect. subst. by exists (Some id).
  - intros (o & Hin & Ho). exists o. split; [done|]. subst. apply Z.eqb_refl.
Qed.

Lemma users_add a id : users_of (add_current_buffer_user a id) = {[id]} ∪ users_of a.
Proof.
  unfold users_of. cbn. induction (current_buffer_users a) as [|[u|] l IH]; cbn; [done| |set_solver].
  rewrite IH. set_solver.
Qed.

Lemma users_clear a : users_of (clear_current_users a) = ∅.
Proof. unfold users_of. cbn. by induction (current_buffer_users a). Qed.

(** ** Lemmas on schedules of either class *)
Lemma pending_schedule s b : NoDup (pending s) -> pending (schedule b s) = a_enqueue (kind s) b (pending s).
Proof. by destruct s as [[q]|[o]]. Qed.

Lemma kind_schedule s b : kind (schedule b s) = kind s.
Proof. by destruct s. Qed.

Lemma kind_next s b s' : next_buffer s = Ret (b, s') -> kind s' = kind s.
Proof. destruct s as [[[|? ?]]|[[?|]]]; cbn; naive_solver. Qed.

Lemma kind_drain_loop fuel s bs s' : drain_loop fuel s = Ret (bs, s') -> kind s' = kind s.
Proof.
  revert s bs. induction fuel as [|fuel IH]; intros s bs; cbn [drain_loop]; [naive_solver|].
  destruct (num_scheduled s); [naive_solver|].
  rewrite outcome_bind_Ret. intros ([b s1] & E1 & H). rewrite outcome_bind_Ret in H.
  destruct H as ([r s2] & E2 & [= <- <-]). rewrite (IH _ _ E2). by eapply kind_next.
Qed.

Lemma enqueue_NoDup m b q : NoDup q -> NoDup (a_enqueue m b q).
Proof.
  intros Hq. destruct m; cbn; [|apply NoDup_singleton].
  apply NoDup_app. split; [auto with mir|]. split; [|apply NoDup_singleton].
  intros x Hx ->%list_elem_of_singleton. by apply elem_of_erase_first in Hx as [_ ?].
Qed.

Lemma refill_queueing q bs :
  NoDup (q ++ bs) ->
  foldl (fun s b => schedule b s) (AQueueing (mkQueueing q)) bs = AQueueing (mkQueueing (q ++ bs)).
Proof.
  revert q. induction bs as [|b bs IH]; intros q Hn; cbn; [by rewrite app_nil_r|].
  unfold queueing_schedule. cbn. rewrite erase_first_notin.
  - rewrite IH; by rewrite <-app_assoc.
  - apply NoDup_app in Hn as (_ & Hn & _). intros Hb. apply (Hn b Hb). set_solver.
Qed.

Lemma refill_dropping o bs :
  foldl (fun s b => schedule b s) (ADropping (mkDropping o)) bs =
  ADropping (mkDropping (match last bs with Some b => Some b | None => o end)).
Proof.
  revert o. induction bs as [|b bs IH]; intros o; [done|]. cbn [foldl]. change (schedule b _) with (ADropping (mkDropping (Some b))).
  rewrite IH. destruct bs as [|b' bs]; [done|]. rewrite last_cons_cons. by destruct (last (b' :: bs)) eqn:E; [|apply last_None in E].
Qed.

(** ** Refinement *)
Lemma advance_spec {S} `{ScheduleLaws S} (s : S) a b q :
  pending s = b :: q ->
  exists s', next_buffer s = Ret (b, s') /\ pending s' = q /\
    advance s a = Ret (s', clear_current_users (mkArbiter (Some b) (current_buffer_users a))).
Proof.
  intros Hp. destruct (next_buffer_pending s b q Hp) as (s' & E & Hs').
  exists s'. unfold advance. rewrite E. by repeat split.
Qed.

Lemma num_scheduled_pos {S} `{ScheduleLaws S} (s : S) :
  Nat.ltb 0 (num_scheduled s) = bool_decide (pending s <> []).
Proof. rewrite num_scheduled_pending. by destruct (pending s). Qed.

(** Updating the schedule and the arbiter of a well-formed stream. *)
Lemma update_arbiter_spec st s' a' :
  stream_wf st -> kind s' = schedule_mode st -> NoDup (pending s') ->
  stream_wf (set_arbiter (set_heap st (arbiter_schedule st) s') a') /\
  abs (set_arbiter (set_heap st (arbiter_schedule st) s') a') =
    mkAStream (schedule_mode st) (pending s') (current_buffer a') (users_of a')
      (stream_size st) (pixel_format st) (first_frame_posted st).
Proof.
  intros [Ha Hal Hk Hn] Hk' Hn'. unfold abs, own_schedule. cbn. rewrite Ha, fn_lookup_insert.
  split; [|done]. split; unfold own_schedule; cbn; rewrite ?fn_lookup_insert; done.
Qed.

Lemma update_own_spec st s' :
  stream_wf st -> kind s' = schedule_mode st -> NoDup (pending s') ->
  stream_wf (set_heap st (schedule_ref st) s') /\
  abs (set_heap st (schedule_ref st) s') = a_set_pending (abs st) (schedule_mode st) (pending s').
Proof.
  intros [Ha Hal Hk Hn] Hk' Hn'. unfold abs, own_schedule. cbn. rewrite fn_lookup_insert.
  split; [|done]. split; unfold own_schedule; cbn; rewrite ?fn_lookup_insert; done.
Qed.

Lemma arb_own st : stream_wf st -> arb_schedule st = own_schedule st.
Proof. intros [Ha _ _ _]. unfold arb_schedule, own_schedule. by rewrite Ha. Qed.

(** The result of a concrete step matches the result of the abstract one. *)
Definition simulates (r : outcome (stream_obs * Stream)) (ar : outcome (stream_obs * AStream)) : Prop :=
  match r with
  | Ret (obs, st') => stream_wf st' /\ ar = Ret (obs, abs st')
  | Throw e => ar = Throw e
  end.

(** Advancing, as seen through the abstraction. *)
Lemma advance_simulates st b q :
  stream_wf st -> pending (own_schedule st) = b :: q ->
  exists s', next_buffer (arb_schedule st) = Ret (b, s') /\ pending s' = q /\
    kind s' = schedule_mode st /\ NoDup q /\
    advance (arb_schedule st) (arbiter st) =
      Ret (s', clear_current_users (mkArbiter (Some b) (current_buffer_users (arbiter st)))).
Proof.
  intros Hwf Hp. rewrite arb_own by done.
  destruct (advance_spec (own_schedule st) (arbiter st) b q Hp) as (s' & Hn & Hq & Hadv).
  exists s'. repeat split; try done.
  - rewrite (kind_next _ _ _ Hn). apply Hwf.
  - pose proof (wf_NoDup _ Hwf) as Hnd. rewrite Hp in Hnd. by apply NoDup_cons in Hnd as [_ ?].
Qed.

Lemma acquire_simulates st id :
  stream_wf st -> simulates (stream_step st (Acquire id)) (a_step (abs st) (Acquire id)).
Proof.
  intros Hwf. cbn [stream_step a_step]. unfold lock_compositor_buffer, with_arbiter, compositor_acquire.
  rewrite is_user_spec, num_scheduled_pos, (arb_own st Hwf). cbn [a_current a_users abs].
  assert (Hb : bool_decide (current_buffer (arbiter st) = None) || bool_decide (id ∈ users_of (arbiter st)) =
          bool_decide (current_buffer (arbiter st) = None \/ id ∈ users_of (arbiter st)))
    by (by rewrite bool_decide_or).
  rewrite Hb. clear Hb.
  assert (Hstay : forall b, current_buffer (arbiter st) = Some b ->
     simulates (Ret (OBuffer b, set_arbiter (set_heap st (arbiter_schedule st) (own_schedule st))
                                  (add_current_buffer_user (arbiter st) id)))
       (Ret (OBuffer b, mkAStream (a_mode (abs st)) (a_pending (abs st)) (a_current (abs st))
          ({[id]} ∪ a_users (abs st)) (a_size (abs st)) (a_format (abs st)) (a_posted (abs st))))).
  { intros b Hcur. destruct (update_arbiter_spec st (own_schedule st) (add_current_buffer_user (arbiter st) id) Hwf)
      as [Hw Hab]; [apply Hwf..|]. split; [done|]. rewrite Hab, users_add. done. }
  case_bool_decide as Hor.
  - destruct (pending (own_schedule st)) as [|b q] eqn:Hp.
    + rewrite bool_decide_false by (intros H; by apply H). unfold a_next. cbn [a_pending abs]. rewrite Hp. cbn.
      destruct (current_buffer (arbiter st)) as [b|] eqn:Hcur; cbn; [|done].
      specialize (Hstay b eq_refl). cbn in Hstay. rewrite ?Hp, ?Hcur in Hstay. rewrite ?Hcur, ?Hp. exact Hstay.
    + rewrite bool_decide_true by done.
      destruct (advance_simulates st b q Hwf Hp) as (s' & _ & Hq & Hk & Hn & Hadv).
      rewrite (arb_own st Hwf) in Hadv. rewrite Hadv. cbn. unfold a_next. cbn [a_pending abs]. rewrite Hp. cbn.
      edestruct (update_arbiter_spec st s') as [Hw Hab]; [done|done|by rewrite Hq|]. split; [exact Hw|].
      rewrite Hab, users_add, users_clear, Hq. done.
  - cbn. destruct (current_buffer (arbiter st)) as [b|] eqn:Hcur; cbn; [|tauto].
    specialize (Hstay b eq_refl). cbn in Hstay. by rewrite Hcur in *.
Qed.

Lemma snapshot_simulates st :
  stream_wf st -> simulates (stream_step st Snapshot) (a_step (abs st) Snapshot).
Proof.
  intros Hwf. cbn [stream_step a_step]. unfold with_most_recent_buffer, with_arbiter, snapshot_acquire.
  cbn [a_current abs]. destruct (current_buffer (arbiter st)) as [b|] eqn:Hcur.
  - rewrite bool_decide_false by done. cbn. rewrite Hcur. cbn. rewrite (arb_own st Hwf).
    destruct (update_arbiter_spec st (own_schedule st) (arbiter st) Hwf) as [Hw Hab]; [apply Hwf..|].
    split; [done|]. by rewrite Hab.
  - rewrite bool_decide_true by done. rewrite num_scheduled_pos, (arb_own st Hwf).
    unfold a_next. cbn [a_pending abs]. destruct (pending (own_schedule st)) as [|b q] eqn:Hp.
    + rewrite bool_decide_false by (intros H; by apply H). cbn. by rewrite Hcur.
    + rewrite bool_decide_true by done.
      destruct (advance_simulates st b q Hwf Hp) as (s' & Hnext & Hq & Hk & Hn & _).
      rewrite (arb_own st Hwf) in Hnext. rewrite Hnext. cbn.
      edestruct (update_arbiter_spec st s') as [Hw Hab]; [done|done|by rewrite Hq|]. split; [exact Hw|].
      rewrite Hab, users_clear, Hq. done.
Qed.

Lemma submit_simulates st b :
  stream_wf st -> simulates (stream_step st (Submit b)) (a_step (abs st) (Submit b)).
Proof.
  intros Hwf. destruct b as [b|]; [|done].
  set (st1 := mkStream (schedule_mode st) (schedule_ref st) (arbiter_schedule st) (heap st)
                (heap_next st) (arbiter st) (buf_size b) (buf_format b) true).
  change (stream_step st (Submit (Some b))) with
    (Ret (OSize (buf_size b), set_heap st1 (schedule_ref st1) (schedule b (own_schedule st1)))).
  assert (Hwf1 : stream_wf st1) by (destruct Hwf; by split).
  destruct (update_own_spec st1 (schedule b (own_schedule st1)) Hwf1) as [Hw Hab].
  - rewrite kind_schedule. apply Hwf.
  - rewrite pending_schedule by apply Hwf. apply enqueue_NoDup, Hwf.
  - split; [done|]. rewrite Hab, pending_schedule by apply Hwf1. rewrite (wf_kind _ Hwf1). done.
Qed.

Lemma drain_own st :
  stream_wf st -> exists s', drain (own_schedule st) = Ret (pending (own_schedule st), s') /\
    pending s' = [] /\ kind s' = schedule_mode st.
Proof.
  intros Hwf. destruct (drain_complete (own_schedule st)) as (s' & E & Hp).
  exists s'. repeat split; [done..|]. rewrite (kind_drain_loop _ _ _ _ E). apply Hwf.
Qed.

Lemma transition_spec st new :
  stream_wf st ->
  exists st', transition_schedule st new = Ret st' /\
    arbiter_schedule st' = schedule_ref st' /\ (schedule_ref st' < heap_next st')%nat /\
    own_schedule st' = foldl (fun s b => schedule b s) new (pending (own_schedule st)) /\
    schedule_mode st' = schedule_mode st /\ arbiter st' = arbiter st /\
    stream_size st' = stream_size st /\ pixel_format st' = pixel_format st /\
    first_frame_posted st' = first_frame_posted st.
Proof.
  intros Hwf. destruct (drain_own st Hwf) as (s' & E & _). unfold transition_schedule. rewrite E.
  eexists. split; [reflexivity|]. unfold own_schedule. cbn. rewrite fn_lookup_insert. repeat split; lia.
Qed.

Lemma allow_framedropping_simulates st d :
  stream_wf st -> simulates (stream_step st (AllowDropping d)) (a_step (abs st) (AllowDropping d)).
Proof.
  intros Hwf. cbn [stream_step]. unfold allow_framedropping.
  assert (Hk := wf_kind _ Hwf). assert (Hnd := wf_NoDup _ Hwf).
  destruct d; destruct (schedule_mode st) eqn:Hm; cbn [andb negb].
  - rewrite bool_decide_true by done. destruct (transition_spec st (ADropping (mkDropping None)) Hwf)
      as (st' & -> & Ha & Hal & Hown & _ & Harb & Hs & Hp & Hf). rewrite refill_dropping in Hown.
    cbn [mbind outcome_bind]. split.
    + split; unfold own_schedule in *; cbn; rewrite ?Hown; try done.
      unfold pending; cbn. destruct (last _); cbn; [apply NoDup_singleton|constructor].
    + unfold abs, own_schedule in *. cbn. rewrite Hown, Harb, Hs, Hp, Hf.
      unfold a_set_pending. cbn. repeat f_equal. unfold pending at 2. cbn. by destruct (last _).
  - rewrite bool_decide_false by done. cbn. split; [done|].
    unfold a_set_pending, abs. cbn. rewrite Hm. repeat f_equal.
    destruct (own_schedule st) as [?|[[b|]]]; done.
  - rewrite bool_decide_false by done. cbn. split; [done|]. unfold a_set_pending, abs. cbn. by rewrite Hm.
  - rewrite bool_decide_true by done. destruct (transition_spec st (AQueueing (mkQueueing [])) Hwf)
      as (st' & -> & Ha & Hal & Hown & _ & Harb & Hs & Hp & Hf). rewrite refill_queueing in Hown by done.
    cbn [mbind outcome_bind]. split.
    + split; unfold own_schedule in *; cbn; rewrite ?Hown; try done.
    + unfold abs, own_schedule in *. cbn. rewrite Hown, Harb, Hs, Hp, Hf. done.
Qed.

Lemma drop_old_simulates st :
  stream_wf st -> simulates (stream_step st DropOld) (a_step (abs st) DropOld).
Proof.
  intros Hwf. cbn [stream_step a_step]. unfold drop_old_buffers.
  destruct (drain_own st Hwf) as (s' & E & Hps & Hks). rewrite E. cbn [mbind outcome_bind].
  destruct (update_own_spec st s' Hwf Hks) as [Hwf1 Habs1]; [rewrite Hps; constructor|].
  set (st1 := set_heap st (schedule_ref st) s') in *. cbn [a_mode a_pending abs].
  destruct (last (pending (own_schedule st))) as [b|] eqn:Hl.
  - assert (Hown1 : own_schedule st1 = s') by (unfold own_schedule; cbn; apply fn_lookup_insert).
    destruct (update_own_spec st1 (schedule b s') Hwf1) as [Hwf2 Habs2].
    { by rewrite kind_schedule. }
    { rewrite pending_schedule by (rewrite Hps; constructor). apply enqueue_NoDup. rewrite Hps. constructor. }
    rewrite Hown1. set (st2 := set_heap st1 (schedule_ref st1) (schedule b s')) in *.
    assert (Hp2 : pending (own_schedule st2) = [b]).
    { unfold own_schedule, st2, set_heap. cbn [heap schedule_ref].
      rewrite fn_lookup_insert, pending_schedule by (rewrite Hps; constructor).
      rewrite Hps. by destruct (kind s'). }
    destruct (advance_simulates st2 b [] Hwf2 Hp2) as (s2 & _ & Hq & Hk & Hn & Hadv).
    unfold advance_schedule. rewrite num_scheduled_pos, (arb_own st2 Hwf2), Hp2, bool_decide_true by done.
    rewrite (arb_own st2 Hwf2) in Hadv. rewrite Hadv. cbn [mbind outcome_bind].
    edestruct (update_arbiter_spec st2 s2) as [Hw Hab]; [done|done|by rewrite Hq|]. split; [exact Hw|].
    rewrite Hab, users_clear, Hq. done.
  - unfold advance_schedule. rewrite num_scheduled_pos, (arb_own st1 Hwf1).
    assert (Hown1 : own_schedule st1 = s') by (unfold own_schedule; cbn; apply fn_lookup_insert).
    rewrite Hown1, Hps, bool_decide_false by (intros H; by apply H). cbn [mbind outcome_bind].
    destruct (update_arbiter_spec st1 s' (arbiter st1) Hwf1) as [Hw Hab]; [done|rewrite Hps; constructor|].
    split; [exact Hw|]. rewrite Hab, Hps. done.
Qed.

Lemma ready_simulates st id :
  stream_wf st -> simulates (stream_step st (Ready id)) (a_step (abs st) (Ready id)).
Proof.
  intros Hwf. cbn [stream_step a_step]. split; [done|].
  unfold buffers_ready_for_compositor, buffer_ready_for.
  rewrite num_scheduled_pos, is_user_spec, (arb_own st Hwf). cbn [a_pending a_current a_users abs].
  do 3 f_equal. repeat case_bool_decide; cbn; tauto.
Qed.

(** ** Runs
    An operation that throws leaves the stream as it was: no member is
    assigned before a throw. *)
Section Run.
Context {St : Type} (step : St -> stream_op -> outcome (stream_obs * St)).

Fixpoint run (st : St) (ops : list stream_op) : list (stream_op * outcome stream_obs) * St :=
  match ops with
  | [] => ([], st)
  | o :: rest =>
      match step st o with
      | Ret (obs, st') => let (tr, fin) := run st' rest in ((o, Ret obs) :: tr, fin)
      | Throw e => let (tr, fin) := run st rest in ((o, Throw e) :: tr, fin)
      end
  end.
End Run.

Lemma stream_step_simulates st o : stream_wf st -> simulates (stream_step st o) (a_step (abs st) o).
Proof.
  intros Hwf. destruct o.
  - by apply submit_simulates.
  - by apply acquire_simulates.
  - by apply snapshot_simulates.
  - by apply allow_framedropping_simulates.
  - by apply drop_old_simulates.
  - by apply ready_simulates.
Qed.

Lemma stream_init_wf size pf : stream_wf (stream_init size pf).
Proof. split; cbn; try done; [lia|constructor]. Qed.

Lemma run_simulates st ops :
  stream_wf st ->
  run a_step (abs st) ops = (fst (run stream_step st ops), abs (snd (run stream_step st ops))) /\
  stream_wf (snd (run stream_step st ops)).
Proof.
  revert st. induction ops as [|o ops IH]; intros st Hwf; [done|]. cbn [run].
  pose proof (stream_step_simulates st o Hwf) as Hs. unfold simulates in Hs.
  destruct (stream_step st o) as [[obs st']|e].
  - destruct Hs as [Hwf' ->]. destruct (IH st' Hwf') as [E Hw]. rewrite E.
    by destruct (run stream_step st' ops).
  - rewrite Hs. destruct (IH st Hwf) as [E Hw]. rewrite E. by destruct (run stream_step st ops).
Qed.

(** C1: every sequence of operations on a new stream gives, operation by
    operation, the results of the abstract machine (a queue of pending
    frames, the shown frame, the set of compositors that have acquired it),
    exceptions included, and ends in a state in which the stream and its
    arbiter still point to the same schedule. *)
Theorem stream_refines_spec (size : Size) (pf : Z) (ops : list stream_op) :
  let final := snd (run stream_step (stream_init size pf) ops) in
  fst (run stream_step (stream_init size pf) ops) =
    fst (run a_step (mkAStream Queueing [] None ∅ size pf false) ops) /\
  abs final = snd (run a_step (mkAStream Queueing [] None ∅ size pf false) ops) /\
  arbiter_schedule final = schedule_ref final.
Proof.
  destruct (run_simulates (stream_init size pf) ops (stream_init_wf size pf)) as [E Hwf].
  change (abs (stream_init size pf)) with (mkAStream Queueing [] None ∅ size pf false) in E.
  cbn zeta. rewrite E. repeat split. apply Hwf.
Qed.

(** ** Frame order *)
Definition submitted (ops : list stream_op) : list Buffer :=
  omap (fun o => match o with Submit b => b | _ => None end) ops.

(** What a compositor acquired, in order. *)
Definition acquired (id : CompositorID) (tr : list (stream_op * outcome stream_obs)) : list Buffer :=
  omap (fun '(o, r) => match o, r with
                       | Acquire i, Ret (OBuffer b) => if i =? id then Some b else None
                       | _, _ => None
                       end) tr.

(** Collapse immediate repetitions. *)
Fixpoint collapse (l : list Buffer) : list Buffer :=
  match l with
  | x :: rest => if decide (head rest = Some x) then collapse rest else x :: collapse rest
  | [] => []
  end.

Lemma head_collapse l : head (collapse l) = head l.
Proof. induction l as [|x l IH]; cbn; [done|]. case_decide; [|done]. by rewrite IH. Qed.

Lemma sublist_skip_head {A} (x : A) (l rest : list A) :
  l `sublist_of` x :: rest -> head l <> Some x -> l `sublist_of` rest.
Proof.
  intros Hs Hh. destruct l as [|y l]; [apply sublist_nil_l|]. cbn in Hh.
  inversion Hs; subst; [congruence|done].
Qed.

Lemma collapse_cons x l rest :
  collapse l `sublist_of` x :: rest -> collapse (x :: l) `sublist_of` x :: rest.
Proof.
  intros Hs. cbn. case_decide as Hh; [done|]. constructor. apply (sublist_skip_head x); [done|].
  by rewrite head_collapse.
Qed.

(** The frames still to come, the shown one included. *)
Definition upcoming (a : AStream) (ops : list stream_op) : list Buffer :=
  option_list (a_current a) ++ a_pending a ++ submitted ops.

Lemma upcoming_next a ops : upcoming (a_next a) ops `sublist_of` upcoming a ops.
Proof.
  unfold upcoming, a_next. destruct (a_pending a) as [|b q] eqn:E; cbn; rewrite ?E; [done|].
  by apply sublist_inserts_l.
Qed.

Lemma last_sublist {A} (l : list A) : option_list (last l) `sublist_of` l.
Proof.
  destruct (last l) as [x|] eqn:E; [|apply sublist_nil_l].
  apply last_Some in E as [l' ->]. cbn. by apply sublist_inserts_l.
Qed.

Lemma upcoming_step a o obs a' ops :
  a_step a o = Ret (obs, a') -> upcoming a' ops `sublist_of` upcoming a (o :: ops).
Proof.
  assert (Hsub : forall o, submitted ops `sublist_of` submitted (o :: ops)).
  { intros [[b|]| | | | |]; cbn; try done. by apply sublist_cons. }
  assert (Hgrow : forall a2, upcoming a2 ops `sublist_of` upcoming a2 (o :: ops)).
  { intros a2. unfold upcoming. apply sublist_app; [done|]. by apply sublist_app. }
  destruct o as [[b|]|id| |[]| |id]; cbn [a_step].
  - intros [= <- <-]. unfold upcoming. cbn. apply sublist_app; [done|].
    destruct (a_mode a); cbn.
    + rewrite <-app_assoc. apply sublist_app; [apply erase_first_sublist|done].
    + by apply sublist_inserts_l.
  - done.
  - set (a1 := if bool_decide _ then _ else _). destruct (a_current a1) eqn:Ec; [|done]. intros [= <- <-].
    etrans; [|apply (Hgrow a)].
    assert (Hs : upcoming a1 ops `sublist_of` upcoming a ops).
    { subst a1. case_bool_decide; [apply upcoming_next|done]. }
    unfold upcoming at 1 in Hs. rewrite Ec in Hs. exact Hs.
  - destruct (a_current (if bool_decide _ then _ else _)) eqn:Ec; [|done]. intros [= <- <-].
    etrans; [|apply (Hgrow a)]. case_bool_decide; [apply upcoming_next|done].
  - intros [= <- <-]. unfold upcoming. cbn. apply sublist_app; [done|]. apply sublist_app; [|done].
    apply last_sublist.
  - by intros [= <- <-].
  - intros [= <- <-]. etrans; [apply upcoming_next|]. unfold upcoming. cbn.
    apply sublist_app; [done|]. apply sublist_app; [|done]. apply last_sublist.
  - by intros [= <- <-].
Qed.

Lemma acquire_current a id obs a' :
  a_step a (Acquire id) = Ret (obs, a') -> exists b, obs = OBuffer b /\ a_current a' = Some b.
Proof.
  cbn. destruct (a_current (if bool_decide _ then _ else _)) as [b|] eqn:Ec; [|done].
  intros [= <- <-]. by exists b.
Qed.

Lemma a_run_order a ops id :
  collapse (acquired id (fst (run a_step a ops))) `sublist_of` upcoming a ops.
Proof.
  revert a. induction ops as [|o ops IH]; intros a; [apply sublist_nil_l|]. cbn [run].
  destruct (a_step a o) as [[obs a']|e] eqn:E.
  - specialize (IH a'). destruct (run a_step a' ops) as [tr fin]. cbn [fst] in *.
    etrans; [|by eapply upcoming_step].
    destruct o; cbn [acquired omap list_omap]; try done.
    destruct (acquire_current _ _ _ _ E) as (b & -> & Hc). destruct (id0 =? id); [|done].
    unfold upcoming in *. rewrite Hc in *. cbn [option_list app] in *. by apply collapse_cons.
  - specialize (IH a). destruct (run a_step a ops) as [tr fin]. cbn [fst] in *.
    etrans; [|apply sublist_app; [done|apply sublist_app; [done|]]].
    2: { instantiate (1 := submitted ops). destruct o as [[b|]| | | | |]; cbn; try done. }
    by destruct o.
Qed.

(** whatever the submissions, the switches of frame dropping, the
    snapshots and the other compositors do, the distinct frames a compositor
    acquires come in the order in which they were submitted: frames may be
    skipped or shown again, but never shown out of order. *)
Theorem stream_frames_in_order (size : Size) (pf : Z) (ops : list stream_op) (id : CompositorID) :
  collapse (acquired id (fst (run stream_step (stream_init size pf) ops))) `sublist_of` submitted ops.
Proof.
  destruct (run_simulates (stream_init size pf) ops (stream_init_wf size pf)) as [E _].
  pose proof (a_run_order (abs (stream_init size pf)) ops id) as H. by rewrite E in H.
Qed.

(** ** Delivery *)
Lemma run_app {St} (step : St -> stream_op -> outcome (stream_obs * St)) st ops1 ops2 :
  run step st (ops1 ++ ops2) =
  (fst (run step st ops1) ++ fst (run step (snd (run step st ops1)) ops2),
   snd (run step (snd (run step st ops1)) ops2)).
Proof.
  revert st. induction ops1 as [|o ops1 IH]; intros st; [cbn; by destruct (run step st ops2)|].
  cbn. destruct (step st o) as [[obs st']|e]; rewrite IH;
    [destruct (run step st' ops1)|destruct (run step st ops1)]; done.
Qed.

Lemma acquired_app id tr1 tr2 : acquired id (tr1 ++ tr2) = acquired id tr1 ++ acquired id tr2.
Proof. unfold acquired. apply omap_app. Qed.

Lemma acquired_acquire id b tr :
  acquired id ((Acquire id, Ret (OBuffer b)) :: tr) = b :: acquired id tr.
Proof. unfold acquired. cbn. by rewrite Z.eqb_refl. Qed.

(** Submissions only fill the queue. *)
Lemma a_run_submit a bs id :
  NoDup (a_pending a ++ bs) -> a_mode a = Queueing ->
  acquired id (fst (run a_step a (Submit <$> (Some <$> bs)))) = [] /\
  let a' := snd (run a_step a (Submit <$> (Some <$> bs))) in
  a_mode a' = Queueing /\ a_pending a' = a_pending a ++ bs /\
  a_current a' = a_current a /\ a_users a' = a_users a.
Proof.
  revert a. induction bs as [|b bs IH]; intros a Hn Hm; [by rewrite app_nil_r|].
  rewrite !fmap_cons. cbn [run a_step]. rewrite Hm. cbn [a_enqueue].
  assert (Hb : b ∉ a_pending a).
  { apply NoDup_app in Hn as (_ & Hn & _). intros Hb. apply (Hn b Hb). set_solver. }
  rewrite erase_first_notin by done.
  set (a1 := mkAStream _ _ _ _ _ _ _).
  destruct (IH a1) as (Ha & Hmode & Hp & Hc & Hu); [cbn; by rewrite <-app_assoc|done|].
  destruct (run a_step a1 _) as [tr fin]. cbn [fst snd] in *. split; [done|].
  repeat split; try done. rewrite Hp. cbn. by rewrite <-app_assoc.
Qed.

(** One compositor drains the queue. *)
Lemma a_run_acquire a bs id :
  a_pending a = bs -> (a_current a = None \/ id ∈ a_users a) ->
  acquired id (fst (run a_step a (replicate (length bs) (Acquire id)))) = bs.
Proof.
  revert a. induction bs as [|b bs IH]; intros a Hp Hu; [done|].
  cbn [length replicate run a_step]. rewrite bool_decide_true by done.
  unfold a_next. rewrite Hp. cbn [a_current a_users a_mode a_pending a_size a_format a_posted].
  specialize (IH (mkAStream (a_mode a) bs (Some b) ({[id]} ∪ ∅) (a_size a) (a_format a) (a_posted a))).
  destruct (run a_step _ _) as [tr fin]. cbn [fst] in *. rewrite acquired_acquire. f_equal.
  apply IH; [done|]. cbn. set_solver.
Qed.

Lemma run_results size pf ops :
  fst (run stream_step (stream_init size pf) ops) =
  fst (run a_step (mkAStream Queueing [] None ∅ size pf false) ops).
Proof.
  destruct (run_simulates (stream_init size pf) ops (stream_init_wf size pf)) as [E _].
  change (abs (stream_init size pf)) with (mkAStream Queueing [] None ∅ size pf false) in E. by rewrite E.
Qed.

(** in the default (queueing) mode a compositor that acquires as often as
    the client has submitted sees every distinct frame exactly once and in
    order; with frame dropping on, it sees the last one. *)
Theorem stream_delivery (size : Size) (pf : Z) (bs : list Buffer) (id : CompositorID) :
  NoDup bs ->
  acquired id (fst (run stream_step (stream_init size pf)
    ((Submit <$> (Some <$> bs)) ++ replicate (length bs) (Acquire id)))) = bs /\
  acquired id (fst (run stream_step (stream_init size pf)
    ((Submit <$> (Some <$> bs)) ++ [AllowDropping true; Acquire id]))) = option_list (last bs).
Proof.
  intros Hn. rewrite !run_results.
  destruct (a_run_submit (mkAStream Queueing [] None ∅ size pf false) bs id Hn eq_refl)
    as (Ha & Hm & Hp & Hc & Hu). rewrite !run_app. cbn [fst]. rewrite !acquired_app, Ha. cbn [app].
  set (a := snd _) in *. split.
  - apply a_run_acquire; [done|]. rewrite Hc. by apply or_introl.
  - cbn [run a_step]. rewrite Hp. cbn [app]. unfold a_set_pending. cbn [a_current]. rewrite Hc.
    rewrite bool_decide_true by (by apply or_introl). unfold a_next. cbn [a_pending].
    change ([] ++ bs) with bs in *. destruct (last bs) as [b|]; [exact (acquired_acquire id b [])|done].
Qed.

Definition example_buffer (n : Z) : Buffer := mkBuffer n (mkSize 4 4) 1.

Lemma stream_delivery_witness :
  let bs := [example_buffer 1; example_buffer 2; example_buffer 3] in
  acquired 7 (fst (run stream_step (stream_init (mkSize 4 4) 1)
    ((Submit <$> (Some <$> bs)) ++ replicate (length bs) (Acquire 7)))) = bs.
Proof.
  intros bs. refine (proj1 (stream_delivery (mkSize 4 4) 1 bs 7 _)).
  apply (bool_decide_unpack _). vm_compute. exact I.
Defined.

(** ** Readiness *)
Lemma add_user_is_user id slots :
  existsb (fun slot => match slot with Some u => u =? id | None => false end) (add_user id slots) = true.
Proof.
  induction slots as [|[u|] l IH]; cbn; rewrite ?Z.eqb_refl; [done| |done]. rewrite IH. apply orb_true_r.
Qed.

Section Readiness.
Context {S : Type} `{ScheduleLaws S}.
Implicit Types (s : S) (a : Arbiter).

(** For every implementation of the schedule interface,
    [buffer_ready_for] tells exactly whether an acquisition will give the
    compositor a frame it has not acquired yet: when it says yes the
    acquisition succeeds and either takes the first pending frame or a
    current frame the compositor was not using, when it says no it changes
    nothing but the users and fails exactly when there is no current frame. *)
Theorem ready_iff_new_frame (s : S) (a : Arbiter) (id : CompositorID) :
  (buffer_ready_for s a id = true ->
   exists b s' a', compositor_acquire s a id = Ret (b, (s', a')) /\
     is_user_of_current_buffer a' id = true /\ current_buffer a' = Some b /\
     ((exists q, pending s = b :: q /\ pending s' = q) \/
      (s' = s /\ current_buffer a = Some b /\ is_user_of_current_buffer a id = false))) /\
  (buffer_ready_for s a id = false ->
   pending s = [] /\
   compositor_acquire s a id =
     match current_buffer a with
     | Some b => Ret (b, (s, add_current_buffer_user a id))
     | None => Throw (logic_error "no buffer to give to compositor")
     end).
Proof.
  unfold buffer_ready_for, compositor_acquire. rewrite num_scheduled_pos.
  destruct (pending s) as [|b q] eqn:Hp.
  - rewrite bool_decide_false by (intros Hx; by apply Hx).
    destruct (current_buffer a) as [b|] eqn:Hc.
    + rewrite (bool_decide_true (Some b <> None)), (bool_decide_false (Some b = None)) by done. cbn.
      destruct (is_user_of_current_buffer a id) eqn:Hu; cbn; rewrite Hc; split; try done.
      intros _. eexists b, s, _. split; [done|]. split; [apply add_user_is_user|]. naive_solver.
    + rewrite (bool_decide_false (None <> None)), (bool_decide_true (None = None)) by (try done; intros Hx; by apply Hx).
      cbn. rewrite Hc. by split.
  - rewrite bool_decide_true by done. split; [|done]. intros _.
    destruct (advance_spec s a b q Hp) as (s' & _ & Hq & Hadv).
    destruct (bool_decide (current_buffer a = None) || is_user_of_current_buffer a id) eqn:E.
    + rewrite Hadv. cbn. eexists b, s', _. split; [done|]. split; [apply add_user_is_user|]. naive_solver.
    + apply orb_false_iff in E as [E1 E2]. apply bool_decide_eq_false in E1. cbn.
      destruct (current_buffer a) as [b0|] eqn:Hc; [|done].
      eexists b0, s, _. split; [done|]. split; [apply add_user_is_user|]. naive_solver.
Qed.
End Readiness.

Lemma ready_iff_new_frame_witness :
  exists b s' a', compositor_acquire (mkQueueing [example_buffer 1]) arbiter_init 7 = Ret (b, (s', a')) /\
    is_user_of_current_buffer a' 7 = true /\ current_buffer a' = Some b /\
    ((exists q, pending (mkQueueing [example_buffer 1]) = b :: q /\ pending s' = q) \/
      (s' = mkQueueing [example_buffer 1] /\ current_buffer arbiter_init = Some b /\
       is_user_of_current_buffer arbiter_init 7 = false)).
Proof.
  refine (proj1 (ready_iff_new_frame (mkQueueing [example_buffer 1]) arbiter_init 7) _). reflexivity.
Defined.

(** ** The slots of the users *)
(** [n] acquisitions in a row by one compositor. *)
Fixpoint acquire_times {S} `{Schedule S} (n : nat) (s : S) (a : Arbiter) (id : CompositorID) : Arbiter :=
  match n with
  | O => a
  | Datatypes.S n' =>
      match compositor_acquire s a id with
      | Ret (_, (s', a')) => acquire_times n' s' a' id
      | Throw _ => a
      end
  end.

Lemma add_user_full id slots :
  Forall is_Some slots -> length (add_user id slots) = Datatypes.S (length slots) /\
                          Forall is_Some (add_user id slots).
Proof.
  induction 1 as [|o l [u ->] Hl IH]; cbn; [repeat constructor; eauto|].
  destruct IH as [-> ?]. split; [done|]. constructor; eauto.
Qed.

(** While no new frame is scheduled, every acquisition of the current
    frame takes one more slot, also when the compositor already has one: the
    vector of users is as long as the number of acquisitions since the frame
    was first shown, not as the number of compositors. *)
Theorem acquire_grows_users {S} `{ScheduleLaws S} (n : nat) (s : S) (a : Arbiter) (b : Buffer)
    (id : CompositorID) :
  pending s = [] -> current_buffer a = Some b -> Forall is_Some (current_buffer_users a) ->
  length (current_buffer_users (acquire_times n s a id)) = (length (current_buffer_users a) + n)%nat.
Proof.
  intros Hp. revert a. induction n as [|n IH]; intros a Hc Hf; cbn; [lia|].
  unfold compositor_acquire. rewrite num_scheduled_pos, Hp.
  rewrite bool_decide_eq_false_2, bool_decide_eq_false_2 by (rewrite ?Hc; done || (intros Hx; by apply Hx)).
  replace (if false || is_user_of_current_buffer a id then if false then advance s a else Ret (s, a) else Ret (s, a))
    with (Ret (s, a)) by (by destruct (is_user_of_current_buffer a id)).
  cbn. rewrite Hc. destruct (add_user_full id _ Hf) as [Hlen Hf'].
  rewrite IH; cbn; [lia|done|done].
Qed.

Lemma acquire_grows_users_witness :
  length (current_buffer_users
    (acquire_times 1000 (mkQueueing []) (mkArbiter (Some (example_buffer 1)) [Some 7]) 7)) = 1001%nat.
Proof.
  apply (acquire_grows_users 1000 (mkQueueing []) (mkArbiter (Some (example_buffer 1)) [Some 7])
           (example_buffer 1) 7); [reflexivity|reflexivity|]. repeat constructor. by eexists.
Defined.
