(* ===== verification/Occlusion.v ===== *)
(** * Occlusion of scene elements

    [src/server/compositor/occlusion.cpp]: before an output is composited,
    the elements that cannot contribute a pixel to it are removed from the
    scene.  The elements are listed from the bottom to the top. *)
From S2P Require Import Prelude Geometry InputEvents.

(** [1.0f] *)
Definition float_one : float32 := S754_finite false 8388608 (-23).

Section Occlusion.
(** [glm::mat4] and its comparison with the identity matrix are the matrix
    library's. *)
Context {mat4 : Type} (is_identity : mat4 -> bool).

(** The part of [mg::Renderable] the code reads. *)
Record Renderable := mkRenderable {
  transformation : mat4;
  screen_position : Rectangle;
  alpha : float32;
  shaped : bool;
  clip_area : option Rectangle
}.

(** [mc::SceneElement]: its identity and its renderable. *)
Record SceneElement := mkElement { element_id : Z; renderable : Renderable }.

Implicit Types (r : Renderable) (e : SceneElement) (area : Rectangle) (coverage : list Rectangle).

(** The result and the coverage the function leaves behind. *)
Definition renderable_is_occluded r area coverage : bool * list Rectangle :=
  if negb (is_identity (transformation r)) then (false, coverage)
  else
    let window := screen_position r in
    let clipped_window := intersection_with window area in
    if bool_decide (clipped_window = rectangle_default) then (true, coverage)
    else
      let occluded := existsb (fun c => contains c clipped_window) coverage in
      let coverage' :=
        if negb occluded && SFeqb (alpha r) float_one && negb (shaped r)
        then coverage ++ [clipped_window] else coverage in
      (occluded, coverage').

(** The loop over the reversed sequence: the elements left in place and the
    elements moved to [occluded], both in the original order. *)
Fixpoint occlusion_loop (reversed : list SceneElement) area coverage
    (kept occluded : list SceneElement) : list SceneElement * list SceneElement :=
  match reversed with
  | [] => (kept, occluded)
  | e :: rest =>
      let '(o, coverage') := renderable_is_occluded (renderable e) area coverage in
      if o then occlusion_loop rest area coverage' kept (e :: occluded)
      else occlusion_loop rest area coverage' (e :: kept) occluded
  end.

(** [elements] after the call, and the returned sequence. *)
Definition filter_occlusions_from (elements : list SceneElement) area
  : list SceneElement * list SceneElement :=
  occlusion_loop (reverse elements) area [] [] [].

(** ** What a pixel shows *)
(** The renderer paints nothing outside the clip area. *)
Definition clipped_in (p : Point) r : Prop :=
  match clip_area r with Some c => covers c p | None => True end.
#[local] Instance clipped_in_dec p r : Decision (clipped_in p r).
Proof. unfold clipped_in. destruct (clip_area r); apply _. Defined.

(** A renderable with a transformation may paint anywhere. *)
Definition may_paint (p : Point) r : bool :=
  bool_decide (clipped_in p r) &&
  (negb (is_identity (transformation r)) || bool_decide (covers (screen_position r) p)).

(** Opaque, untransformed and not shaped. *)
Definition opaque r : bool :=
  is_identity (transformation r) && SFeqb (alpha r) float_one && negb (shaped r).

Definition hides_below (p : Point) r : bool := may_paint p r && opaque r.

(** The elements, from the top, that a compositor that paints every element
    blends at a pixel before it meets one that hides the rest. *)
Fixpoint visible_at (p : Point) (from_top : list SceneElement) : list SceneElement :=
  match from_top with
  | [] => []
  | e :: rest =>
      if may_paint p (renderable e)
      then e :: (if hides_below p (renderable e) then [] else visible_at p rest)
      else visible_at p rest
  end.

(** ** Correctness *)
(** The loop without accumulators. *)
Fixpoint kept_of (l : list SceneElement) area coverage : list SceneElement :=
  match l with
  | [] => []
  | e :: rest =>
      let '(o, coverage') := renderable_is_occluded (renderable e) area coverage in
      if o then kept_of rest area coverage' else e :: kept_of rest area coverage'
  end.
Fixpoint occluded_of (l : list SceneElement) area coverage : list SceneElement :=
  match l with
  | [] => []
  | e :: rest =>
      let '(o, coverage') := renderable_is_occluded (renderable e) area coverage in
      if o then e :: occluded_of rest area coverage' else occluded_of rest area coverage'
  end.

Lemma occlusion_loop_eq l area coverage kept occluded :
  occlusion_loop l area coverage kept occluded =
  (reverse (kept_of l area coverage) ++ kept, reverse (occluded_of l area coverage) ++ occluded).
Proof.
  revert coverage kept occluded. induction l as [|e l IH]; intros; cbn [occlusion_loop kept_of occluded_of]; [done|].
  destruct (renderable_is_occluded _ _ _) as [[] c]; rewrite IH, reverse_cons, <-app_assoc; done.
Qed.

Lemma filter_occlusions_eq elements area :
  filter_occlusions_from elements area =
  (reverse (kept_of (reverse elements) area []), reverse (occluded_of (reverse elements) area [])).
Proof. unfold filter_occlusions_from. rewrite occlusion_loop_eq. by rewrite !app_nil_r. Qed.

Lemma occlusion_partition l area coverage :
  l ≡ₚ kept_of l area coverage ++ occluded_of l area coverage /\
  kept_of l area coverage `sublist_of` l /\ occluded_of l area coverage `sublist_of` l.
Proof.
  revert coverage. induction l as [|e l IH]; intros; cbn; [done|].
  destruct (renderable_is_occluded _ _ _) as [[] c]; destruct (IH c) as (Hp & Hk & Ho).
  - split; [rewrite <-Permutation_middle; by constructor|]. split; by constructor.
  - split; [by constructor|]. split; by constructor.
Qed.

(** No rectangle of the coverage covers the pixel. *)
Definition uncovered (p : Point) coverage : Prop := forall c, c ∈ coverage -> ~ covers c p.

(** The clip area of the element, if it is opaque, does not cut off the pixel. *)
Definition clip_harmless (p : Point) e : Prop :=
  opaque (renderable e) = true -> covers (screen_position (renderable e)) p -> clipped_in p (renderable e).

(** An occluded renderable paints no pixel that the coverage leaves free. *)
Lemma occluded_paints_nothing r area coverage p coverage' :
  renderable_is_occluded r area coverage = (true, coverage') ->
  covers area p -> uncovered p coverage -> may_paint p r = false /\ coverage' = coverage.
Proof.
  unfold renderable_is_occluded, may_paint. intros Ho Ha Hu.
  destruct (is_identity (transformation r)); cbn in *; [|done].
  destruct (bool_decide (_ = rectangle_default)) eqn:Hd.
  - injection Ho as <-. breflect. rewrite intersection_default in Hd. split; [|done].
    apply andb_false_iff, or_intror, bool_decide_eq_false. naive_solver.
  - destruct (existsb _ _) eqn:Hex; [|done]. injection Ho as <-. split; [|done].
    apply existsb_exists in Hex as (c & Hc & Hcon). apply andb_false_iff, or_intror, bool_decide_eq_false.
    intros Hp. apply (Hu c); [by apply list_elem_of_In|]. apply (contains_covers _ _ _ Hcon).
    by apply intersection_covers.
Qed.

(** A renderable that stays and does not hide the pixel leaves it free. *)
Lemma kept_leaves_free e area coverage p coverage' :
  renderable_is_occluded (renderable e) area coverage = (false, coverage') -> clip_harmless p e ->
  covers area p -> uncovered p coverage -> hides_below p (renderable e) = false -> uncovered p coverage'.
Proof.
  unfold renderable_is_occluded, hides_below, may_paint, clip_harmless, opaque.
  set (r := renderable e). intros Ho Hclip Ha Hu Hh.
  destruct (is_identity (transformation r)); cbn in *; [|by injection Ho as <-].
  destruct (bool_decide (_ = rectangle_default)); [done|]. destruct (existsb _ _); [done|].
  injection Ho as <-. cbn. destruct (SFeqb _ _), (shaped r); cbn in *; try done.
  intros c [Hc| ->%list_elem_of_singleton]%elem_of_app; [by apply Hu|].
  rewrite intersection_covers. intros [Hw _]. specialize (Hclip eq_refl Hw).
  by rewrite !bool_decide_true in Hh.
Qed.

Lemma visible_at_kept l area coverage p :
  Forall (clip_harmless p) l -> covers area p -> uncovered p coverage ->
  visible_at p (kept_of l area coverage) = visible_at p l.
Proof.
  intros Hl Ha. revert coverage. induction Hl as [|e l He Hl IH]; intros coverage Hu; cbn; [done|].
  destruct (renderable_is_occluded _ _ _) as [[] c] eqn:Ho.
  - destruct (occluded_paints_nothing _ _ _ _ _ Ho Ha Hu) as [-> ->]. by apply IH.
  - cbn. destruct (hides_below p (renderable e)) eqn:Hh.
    + unfold hides_below in Hh. breflect. by destruct (may_paint p (renderable e)).
    + by rewrite (IH c) by (by eapply kept_leaves_free).
Qed.

Lemma filter_occlusions_split elements area :
  let '(kept, occluded) := filter_occlusions_from elements area in
  elements ≡ₚ kept ++ occluded /\ kept `sublist_of` elements /\ occluded `sublist_of` elements.
Proof.
  rewrite filter_occlusions_eq. destruct (occlusion_partition (reverse elements) area []) as (Hp & Hk & Ho).
  repeat split.
  - rewrite (reverse_Permutation (kept_of _ _ _)), (reverse_Permutation (occluded_of _ _ _)), <-Hp.
    symmetry. apply reverse_Permutation.
  - apply sublist_reverse in Hk. by rewrite reverse_involutive in Hk.
  - apply sublist_reverse in Ho. by rewrite reverse_involutive in Ho.
Qed.

(** C30: occlusion filtering splits the scene into the elements that stay and the
    elements that go, each in its stacking order, and at every pixel of the
    output's area at which no opaque element is cut off by its clip area the
    elements that are blended there, from the top down to the first one that
    hides the rest, are the same before and after.  (Where an opaque element is
    clipped away the filter can change the pixel: [occlusion_ignores_clip_area].) *)
Theorem occlusion_preserves_pixels (elements : list SceneElement) (area : Rectangle) :
  let '(kept, occluded) := filter_occlusions_from elements area in
  elements ≡ₚ kept ++ occluded /\
  kept `sublist_of` elements /\ occluded `sublist_of` elements /\
  forall p, contains_point area p = true -> Forall (clip_harmless p) elements ->
    visible_at p (reverse kept) = visible_at p (reverse elements).
Proof.
  pose proof (filter_occlusions_split elements area) as Hs.
  rewrite filter_occlusions_eq in *. destruct Hs as (Hp & Hk & Ho). repeat (split; [done|]).
  intros p Ha%contains_point_covers Hclip. rewrite reverse_involutive. apply visible_at_kept; [|done|].
  - by rewrite reverse_Permutation.
  - intros c Hc. by apply not_elem_of_nil in Hc.
Qed.

Lemma clipped_window_nonempty r area p :
  covers area p -> covers (screen_position r) p ->
  bool_decide (intersection_with (screen_position r) area = rectangle_default) = false.
Proof.
  intros Ha Hr. apply bool_decide_eq_false. rewrite intersection_default. intros Hx. by apply (Hx p).
Qed.

Lemma opaque_covers r area p :
  opaque r = true -> covers area p -> covers (screen_position r) p ->
  renderable_is_occluded r area [] = (false, [intersection_with (screen_position r) area]).
Proof.
  intros Ho Ha Hr. unfold renderable_is_occluded, opaque in *. breflect.
  rewrite (clipped_window_nonempty r area p) by done.
  destruct (is_identity _); [|done]. destruct (SFeqb _ _); [|done]. by destruct (shaped r).
Qed.

Lemma inside_is_occluded r area w p :
  is_identity (transformation r) = true -> covers area p -> covers (screen_position r) p ->
  contains w (screen_position r) = true ->
  fst (renderable_is_occluded r area [intersection_with w area]) = true.
Proof.
  intros Hid Ha Hr Hw. unfold renderable_is_occluded. rewrite Hid, (clipped_window_nonempty r area p) by done.
  cbn -[intersection_with contains]. rewrite orb_false_r.
  apply contains_nonempty_iff; [by apply (intersection_nonempty _ _ p)|].
  intros q. rewrite !intersection_covers. intros [? ?]. split; [by eapply contains_covers|done].
Qed.

(** The clip area of an element is not taken into account: an opaque
    window that is clipped makes the filter drop every window that lies
    inside its unclipped extents, also where the clipping leaves that window
    in view. *)
Theorem occlusion_ignores_clip_area (below above : SceneElement) (clip : Rectangle) (area : Rectangle) (p : Point) :
  opaque (renderable above) = true -> clip_area (renderable above) = Some clip ->
  is_identity (transformation (renderable below)) = true -> clip_area (renderable below) = None ->
  contains (screen_position (renderable above)) (screen_position (renderable below)) = true ->
  covers area p -> covers (screen_position (renderable below)) p -> ~ covers clip p ->
  visible_at p (reverse [below; above]) = [below] /\
  fst (filter_occlusions_from [below; above] area) = [above].
Proof.
  intros Hop Hclip Hid Hnc Hcon Ha Hb Hnot.
  assert (Hw : covers (screen_position (renderable above)) p) by (by eapply contains_covers).
  split; [change (reverse [below; above]) with [above; below]|].
  - assert (Hpa : may_paint p (renderable above) = false).
    { apply andb_false_iff, or_introl, bool_decide_eq_false. unfold clipped_in. by rewrite Hclip. }
    assert (Hpb : may_paint p (renderable below) = true).
    { unfold may_paint. rewrite Hid, !bool_decide_true; [done|done|]. unfold clipped_in. by rewrite Hnc. }
    cbn. rewrite Hpa, Hpb. by case_if.
  - rewrite filter_occlusions_eq. change (reverse [below; above]) with [above; below]. cbn [kept_of].
    rewrite (opaque_covers _ _ p) by done.
    pose proof (inside_is_occluded _ _ _ _ Hid Ha Hb Hcon) as Hocc.
    by destruct (renderable_is_occluded (renderable below) _ _) as [[] c].
Qed.
End Occlusion.


(** Three windows: the middle one covers the bottom one, the top one is
    translucent. *)
Definition example_scene : list (SceneElement (mat4 := unit)) :=
  let window id x w a :=
    mkElement id (mkRenderable tt (mkRectangle (mkPoint x 0) (mkSize w 10)) a false None) in
  [window 1 2 4 float_one; window 2 0 8 float_one; window 3 0 20 (S754_zero false)].

Lemma occlusion_preserves_pixels_witness :
  let area := mkRectangle (mkPoint 0 0) (mkSize 50 50) in
  element_id <$> fst (filter_occlusions_from (fun _ => true) example_scene area) = [2; 3] /\
  visible_at (fun _ => true) (mkPoint 3 3)
    (reverse (fst (filter_occlusions_from (fun _ => true) example_scene area))) =
  visible_at (fun _ => true) (mkPoint 3 3) (reverse example_scene).
Proof.
  intros area. split; [reflexivity|].
  pose proof (occlusion_preserves_pixels (fun _ : unit => true) example_scene area) as H.
  destruct (filter_occlusions_from _ example_scene area) as [kept occluded].
  apply H; [reflexivity|]. repeat constructor.
Defined.

Lemma occlusion_ignores_clip_area_witness :
  let window id x w clip :=
    mkElement id (mkRenderable tt (mkRectangle (mkPoint x 0) (mkSize w 10)) float_one false clip) in
  let clip := mkRectangle (mkPoint 0 0) (mkSize 2 2) in
  let scene := [window 1 2 4 None; window 2 0 8 (Some clip)] in
  element_id <$> visible_at (fun _ => true) (mkPoint 3 3) (reverse scene) = [1] /\
  element_id <$> fst (filter_occlusions_from (fun _ => true) scene (mkRectangle (mkPoint 0 0) (mkSize 50 50))) = [2].
Proof.
  intros window clip scene.
  destruct (occlusion_ignores_clip_area (fun _ : unit => true) (window 1 2 4 None) (window 2 0 8 (Some clip)) clip
    (mkRectangle (mkPoint 0 0) (mkSize 50 50)) (mkPoint 3 3)) as [H1 H2];
    [reflexivity..|geom; lia|geom; lia|geom; lia|].
  unfold scene. rewrite H1, H2. split; reflexivity.
Defined.
