(* ===== verification/WindowInfo.v ===== *)
(** * miral::WindowInfo and miral::WindowSpecification

    What the window manager records of a window
    ([src/miral/window_info.cpp]), the request to create or modify one
    ([include/miral/miral/window_specification.h]) and the adjustment of a
    resize request to the window's constraints. *)
From S2P Require Import Prelude Geometry.

(** ** Enumerations ([include/core/mir_toolkit/common.h]) *)
Inductive MirWindowType :=
| mir_window_type_normal
| mir_window_type_utility
| mir_window_type_dialog
| mir_window_type_gloss
| mir_window_type_freestyle
| mir_window_type_menu
| mir_window_type_inputmethod
| mir_window_type_satellite
| mir_window_type_tip
| mir_window_type_decoration.

Inductive MirWindowState :=
| mir_window_state_unknown
| mir_window_state_restored
| mir_window_state_minimized
| mir_window_state_maximized
| mir_window_state_vertmaximized
| mir_window_state_fullscreen
| mir_window_state_horizmaximized
| mir_window_state_hidden
| mir_window_state_attached.

Inductive MirDepthLayer :=
| mir_depth_layer_background
| mir_depth_layer_below
| mir_depth_layer_application
| mir_depth_layer_always_on_top
| mir_depth_layer_above
| mir_depth_layer_overlay.

#[export] Instance MirWindowType_eq_dec : EqDecision MirWindowType.
Proof. solve_decision. Defined.
#[export] Instance MirWindowState_eq_dec : EqDecision MirWindowState.
Proof. solve_decision. Defined.
#[export] Instance MirDepthLayer_eq_dec : EqDecision MirDepthLayer.
Proof. solve_decision. Defined.

(** Flag types are integers. *)
Abbreviation MirPlacementGravity := Z.
Definition mir_placement_gravity_center : Z := 0.
Definition mir_placement_gravity_west : Z := 1.
Definition mir_placement_gravity_east : Z := 2.
Definition mir_placement_gravity_north : Z := 4.
Definition mir_placement_gravity_south : Z := 8.
Definition mir_placement_gravity_northwest : Z := Z.lor 4 1.
Definition mir_placement_gravity_northeast : Z := Z.lor 4 2.
Definition mir_placement_gravity_southwest : Z := Z.lor 8 1.
Definition mir_placement_gravity_southeast : Z := Z.lor 8 2.

Abbreviation MirPlacementHints := Z.
Definition mir_placement_hints_flip_x : Z := 1.
Definition mir_placement_hints_flip_y : Z := 2.
Definition mir_placement_hints_slide_x : Z := 4.
Definition mir_placement_hints_slide_y : Z := 8.
Definition mir_placement_hints_resize_x : Z := 16.
Definition mir_placement_hints_resize_y : Z := 32.
Definition mir_placement_hints_antipodes : Z := 64.

(** ** Data *)
(** A window is identified by its surface. *)
Abbreviation Window := Z.

(** Two [unsigned]. *)
Record AspectRatio := mkAspectRatio { ar_width : Z; ar_height : Z }.
#[export] Instance AspectRatio_eq_dec : EqDecision AspectRatio.
Proof. solve_decision. Defined.

(** [msh::StreamSpecification]; the stream is a weak pointer. *)
Record StreamSpecification := mkStreamSpec {
  ssp_stream : option Z;
  ssp_displacement : Displacement;
  ssp_size : option Size
}.

(** A parent that is set is a weak pointer, [Some None] when it has expired;
    the content is a weak pointer that may be empty. *)
Record WindowSpecification := mkSpec {
  sp_top_left : option Point;
  sp_size : option Size;
  sp_name : option string;
  sp_output_id : option Z;
  sp_type : option MirWindowType;
  sp_state : option MirWindowState;
  sp_preferred_orientation : option Z;
  sp_aux_rect : option Rectangle;
  sp_placement_hints : option MirPlacementHints;
  sp_window_placement_gravity : option MirPlacementGravity;
  sp_aux_rect_placement_gravity : option MirPlacementGravity;
  sp_aux_rect_placement_offset : option Displacement;
  sp_min_width : option Z;
  sp_min_height : option Z;
  sp_max_width : option Z;
  sp_max_height : option Z;
  sp_width_inc : option Z;
  sp_height_inc : option Z;
  sp_min_aspect : option AspectRatio;
  sp_max_aspect : option AspectRatio;
  sp_parent : option (option Window);
  sp_input_shape : option (list Rectangle);
  sp_shell_chrome : option Z;
  sp_confine_pointer : option Z;
  sp_depth_layer : option MirDepthLayer;
  sp_attached_edges : option MirPlacementGravity;
  sp_exclusive_rect : option (option Rectangle);
  sp_application_id : option string;
  sp_userdata : option Z;
  sp_pixel_format : option Z;
  sp_buffer_usage : option Z;
  sp_content : option Z;
  sp_streams : option (list StreamSpecification);
  sp_input_mode : option Z
}.

#[export] Instance WindowSpecification_eta : EtaExpansion WindowSpecification := fun s =>
  mkSpec (sp_top_left s) (sp_size s) (sp_name s) (sp_output_id s) (sp_type s) (sp_state s)
    (sp_preferred_orientation s) (sp_aux_rect s) (sp_placement_hints s)
    (sp_window_placement_gravity s) (sp_aux_rect_placement_gravity s)
    (sp_aux_rect_placement_offset s) (sp_min_width s) (sp_min_height s) (sp_max_width s)
    (sp_max_height s) (sp_width_inc s) (sp_height_inc s) (sp_min_aspect s) (sp_max_aspect s)
    (sp_parent s) (sp_input_shape s) (sp_shell_chrome s) (sp_confine_pointer s) (sp_depth_layer s)
    (sp_attached_edges s) (sp_exclusive_rect s) (sp_application_id s) (sp_userdata s)
    (sp_pixel_format s) (sp_buffer_usage s) (sp_content s) (sp_streams s) (sp_input_mode s).

Definition spec_empty : WindowSpecification :=
  mkSpec None None None None None None None None None None None None None None None None None
    None None None None None None None None None None None None None None None None None.

Record WindowInfo := mkWindowInfo {
  wi_window : option Window;
  wi_name : string;
  wi_type : MirWindowType;
  wi_state : MirWindowState;
  wi_restore_rect : Rectangle;
  wi_parent : option Window;
  wi_children : list Window;
  wi_min_width : Z;
  wi_min_height : Z;
  wi_max_width : Z;
  wi_max_height : Z;
  wi_preferred_orientation : Z;
  wi_confine_pointer : Z;
  wi_width_inc : Z;
  wi_height_inc : Z;
  wi_min_aspect : AspectRatio;
  wi_max_aspect : AspectRatio;
  wi_output_id : option Z;
  wi_shell_chrome : Z;
  wi_depth_layer : MirDepthLayer;
  wi_attached_edges : MirPlacementGravity;
  wi_exclusive_rect : option Rectangle;
  wi_userdata : option Z           (* the identity of the shell's object *)
}.

#[export] Instance WindowInfo_eta : EtaExpansion WindowInfo := fun i =>
  mkWindowInfo (wi_window i) (wi_name i) (wi_type i) (wi_state i) (wi_restore_rect i)
    (wi_parent i) (wi_children i) (wi_min_width i) (wi_min_height i) (wi_max_width i)
    (wi_max_height i) (wi_preferred_orientation i) (wi_confine_pointer i) (wi_width_inc i)
    (wi_height_inc i) (wi_min_aspect i) (wi_max_aspect i) (wi_output_id i) (wi_shell_chrome i)
    (wi_depth_layer i) (wi_attached_edges i) (wi_exclusive_rect i) (wi_userdata i).

(** ** Clamping and defaults *)
(** [std::min<unsigned long>(LONG_MAX, dim)] returned as [unsigned]. *)
Definition clamp_dim (dim : Z) : Z := to_uint32 (Z.min (2 ^ 63 - 1) dim).
Definition clamp_aspect (source : AspectRatio) : AspectRatio :=
  mkAspectRatio (clamp_dim (ar_width source)) (clamp_dim (ar_height source)).

Definition default_min_width : Z := 0.
Definition default_min_height : Z := 0.
Definition default_max_width : Z := INT_MAX.
Definition default_max_height : Z := INT_MAX.
Definition default_width_inc : Z := 1.
Definition default_height_inc : Z := 1.
Definition default_min_aspect_ratio : AspectRatio := clamp_aspect (mkAspectRatio 0 UINT_MAX).
Definition default_max_aspect_ratio : AspectRatio := clamp_aspect (mkAspectRatio UINT_MAX 0).

Definition clamp_width (source : Z) : Z :=
  Z.min default_max_width (Z.max default_min_width source).
Definition clamp_height (source : Z) : Z :=
  Z.min default_max_height (Z.max default_min_height source).

(** ** Constructors *)
(** [.value()] of an unset [mir::optional_value] is a fatal error. *)
Definition value {A} (o : option A) : outcome A :=
  match o with Some a => Ret a | None => Throw fatal_error end.

(** The flag types' zero ([mir_pointer_unconfined],
    [mir_shell_chrome_normal]) and [mir_orientation_mode_any]. *)
Definition mir_orientation_mode_any : Z := 15.

Definition WindowInfo_from (window : Window) (params : WindowSpecification) : outcome WindowInfo :=
  name ← value (sp_name params);
  tl ← value (sp_top_left params);
  size ← value (sp_size params);
  Ret (mkWindowInfo (Some window) name
         (default mir_window_type_normal (sp_type params))
         (default mir_window_state_restored (sp_state params))
         (mkRectangle tl size) None []
         (default default_min_width (sp_min_width params))
         (default default_min_height (sp_min_height params))
         (default default_max_width (sp_max_width params))
         (default default_max_height (sp_max_height params))
         (default mir_orientation_mode_any (sp_preferred_orientation params))
         (default 0 (sp_confine_pointer params))
         (default default_width_inc (sp_width_inc params))
         (default default_height_inc (sp_height_inc params))
         (default default_min_aspect_ratio (sp_min_aspect params))
         (default default_max_aspect_ratio (sp_max_aspect params))
         (sp_output_id params)
         (default 0 (sp_shell_chrome params))
         (default mir_depth_layer_application (sp_depth_layer params))
         (default mir_placement_gravity_center (sp_attached_edges params))
         (match sp_exclusive_rect params with Some r => r | None => None end)
         (sp_userdata params)).

(** ** Queries on the type *)
Definition can_be_active (t : MirWindowType) : bool :=
  match t with
  | mir_window_type_normal | mir_window_type_utility | mir_window_type_dialog
  | mir_window_type_freestyle | mir_window_type_menu => true
  | mir_window_type_satellite | mir_window_type_inputmethod | mir_window_type_gloss
  | mir_window_type_tip | mir_window_type_decoration => false
  end.

Definition must_have_parent (t : MirWindowType) : bool :=
  match t with
  | mir_window_type_gloss | mir_window_type_inputmethod | mir_window_type_satellite
  | mir_window_type_tip => true
  | _ => false
  end.

Definition can_morph_to (t new_type : MirWindowType) : bool :=
  match new_type with
  | mir_window_type_normal | mir_window_type_utility | mir_window_type_satellite =>
      match t with
      | mir_window_type_normal | mir_window_type_utility | mir_window_type_dialog
      | mir_window_type_satellite => true
      | _ => false
      end
  | mir_window_type_dialog =>
      match t with
      | mir_window_type_normal | mir_window_type_utility | mir_window_type_dialog
      | mir_window_type_menu | mir_window_type_satellite => true
      | _ => false
      end
  | _ => false
  end.

Definition must_not_have_parent (t : MirWindowType) : bool :=
  match t with
  | mir_window_type_normal | mir_window_type_utility => true
  | _ => false
  end.

Definition needs_titlebar (t : MirWindowType) : bool :=
  match t with
  | mir_window_type_freestyle | mir_window_type_menu | mir_window_type_inputmethod
  | mir_window_type_gloss | mir_window_type_tip | mir_window_type_decoration => false
  | _ => true
  end.

(** [surface_visible] is [surface->visible()] of the window's surface, [None]
    when there is none. *)
Definition is_visible (s : MirWindowState) (surface_visible : option bool) : bool :=
  match s with
  | mir_window_state_hidden | mir_window_state_minimized => false
  | _ => match surface_visible with Some v => v | None => false end
  end.

(** ** Children and clamped setters *)
Definition add_child (i : WindowInfo) (child : Window) : WindowInfo :=
  i <| wi_children := wi_children i ++ [child] |>.
Definition remove_child (i : WindowInfo) (child : Window) : WindowInfo :=
  i <| wi_children := erase_first child (wi_children i) |>.
Definition set_min_width (i : WindowInfo) (w : Z) : WindowInfo := i <| wi_min_width := clamp_width w |>.
Definition set_min_height (i : WindowInfo) (h : Z) : WindowInfo := i <| wi_min_height := clamp_height h |>.
Definition set_max_width (i : WindowInfo) (w : Z) : WindowInfo := i <| wi_max_width := clamp_width w |>.
Definition set_max_height (i : WindowInfo) (h : Z) : WindowInfo := i <| wi_max_height := clamp_height h |>.
Definition set_min_aspect (i : WindowInfo) (a : AspectRatio) : WindowInfo :=
  i <| wi_min_aspect := clamp_aspect a |>.
Definition set_max_aspect (i : WindowInfo) (a : AspectRatio) : WindowInfo :=
  i <| wi_max_aspect := clamp_aspect a |>.

(** ** constrain_resize *)
(** Integer division and remainder trap on a zero divisor. *)
Definition checked_div (a b : Z) : outcome Z :=
  if b =? 0 then Throw divide_by_zero else Ret (Z.quot a b).
Definition checked_rem (a b : Z) : outcome Z :=
  if b =? 0 then Throw divide_by_zero else Ret (Z.rem a b).

(** One dimension, raised to its minimum and then lowered to its maximum. *)
Definition apply_limits (lo hi dim : Z) : Z :=
  let dim := if dim <? lo then lo else dim in
  if hi <? dim then hi else dim.

(** One dimension, rounded to its minimum plus a multiple of the increment. *)
Definition apply_increment (lo inc dim : Z) : outcome Z :=
  let d := dim - lo in
  r ← checked_rem d inc;
  if r =? 0 then Ret dim
  else
    q ← checked_div (Z.quot (2 * d + inc) 2) inc;
    Ret (lo + to_int (inc * q)).

(** [(error+(dim-1))/dim] with [unsigned dim] and [long long error]. *)
Definition aspect_correction (error dim : Z) : outcome Z :=
  checked_div (error + to_uint32 (dim - 1)) dim.

Definition apply_min_aspect (ar : AspectRatio) (s : Size) : outcome Size :=
  let error := height s * ar_width ar - width s * ar_height ar in
  if 0 <? error then
    width_correction ← aspect_correction error (ar_height ar);
    height_correction ← aspect_correction error (ar_width ar);
    if width_correction <? height_correction
    then Ret (mkSize (width s + to_int width_correction) (height s))
    else Ret (mkSize (width s) (height s - to_int height_correction))
  else Ret s.

Definition apply_max_aspect (ar : AspectRatio) (s : Size) : outcome Size :=
  let error := width s * ar_height ar - height s * ar_width ar in
  if 0 <? error then
    height_correction ← aspect_correction error (ar_width ar);
    width_correction ← aspect_correction error (ar_height ar);
    if width_correction <? height_correction
    then Ret (mkSize (width s - to_int width_correction) (height s))
    else Ret (mkSize (width s) (height s + to_int height_correction))
  else Ret s.

(** The size that satisfies the window's constraints. *)
Definition constrained_size (i : WindowInfo) (requested : Size) : outcome Size :=
  let w0 := apply_limits (wi_min_width i) (wi_max_width i) (width requested) in
  let h0 := apply_limits (wi_min_height i) (wi_max_height i) (height requested) in
  w1 ← apply_increment (wi_min_width i) (wi_width_inc i) w0;
  h1 ← apply_increment (wi_min_height i) (wi_height_inc i) h0;
  s2 ← apply_min_aspect (wi_min_aspect i) (mkSize w1 h1);
  apply_max_aspect (wi_max_aspect i) s2.

(** [window] is the rectangle the window has now; the result is the adjusted
    request. *)
Definition constrain_resize (i : WindowInfo) (window : Rectangle) (requested : Rectangle)
  : outcome Rectangle :=
  let left_resize := negb (px (top_left requested) =? px (top_left window)) in
  let top_resize := negb (py (top_left requested) =? py (top_left window)) in
  new_size ← constrained_size i (r_size requested);
  let x := if left_resize
           then px (top_left requested) - (width new_size - width (r_size requested))
           else px (top_left requested) in
  let y := if top_resize
           then py (top_left requested) - (height new_size - height (r_size requested))
           else py (top_left requested) in
  Ret (match wi_state i with
       | mir_window_state_restored | mir_window_state_attached =>
           mkRectangle (mkPoint x y) new_size
       | mir_window_state_vertmaximized =>
           mkRectangle (mkPoint x (py (top_left window)))
                       (mkSize (width new_size) (height (r_size window)))
       | mir_window_state_horizmaximized =>
           mkRectangle (mkPoint (px (top_left window)) y)
                       (mkSize (width (r_size window)) (height new_size))
       | _ => window
       end).

(** ** Increments *)
(** The increment rounding cannot leave the range of [int]. *)
Definition increment_fits (lo hi inc : Z) : Prop :=
  0 <= lo <= hi /\ hi <= INT_MAX /\ 1 <= inc /\ (inc = 1 \/ hi + inc <= INT_MAX).

#[export] Instance increment_fits_dec lo hi inc : Decision (increment_fits lo hi inc).
Proof. unfold increment_fits. apply _. Defined.

Lemma apply_limits_range lo hi d : lo <= hi -> lo <= apply_limits lo hi d <= hi.
Proof. unfold apply_limits. intros. destruct (Z.ltb_spec d lo); case_if; breflect; lia. Qed.

Lemma apply_limits_id lo hi d : lo <= d <= hi -> apply_limits lo hi d = d.
Proof. unfold apply_limits. intros. destruct (Z.ltb_spec d lo); case_if; breflect; lia. Qed.

(** The multiple of [inc] the code rounds [d] to. *)
Definition rounded (d inc : Z) : Z := inc * ((2 * d + inc) / 2 / inc).

Lemma rounded_spec d inc :
  0 <= d -> 1 <= inc ->
  0 <= rounded d inc /\ 2 * d - inc < 2 * rounded d inc <= 2 * d + inc /\ (inc | rounded d inc).
Proof.
  intros Hd Hi. unfold rounded.
  pose proof (Z.div_pos (2 * d + inc) 2 ltac:(lia) ltac:(lia)).
  pose proof (Z.div_mod (2 * d + inc) 2 ltac:(lia)). pose proof (Z.mod_pos_bound (2 * d + inc) 2 ltac:(lia)).
  set (m := (2 * d + inc) / 2) in *.
  pose proof (Z.div_mod m inc ltac:(lia)). pose proof (Z.mod_pos_bound m inc ltac:(lia)).
  pose proof (Z.div_pos m inc ltac:(lia) ltac:(lia)).
  split; [nia|]. split; [lia|]. exists (m / inc). lia.
Qed.

Lemma apply_increment_spec lo hi inc d :
  increment_fits lo hi inc -> lo <= d <= hi ->
  apply_increment lo inc d = Ret (if (d - lo) mod inc =? 0 then d else lo + rounded (d - lo) inc).
Proof.
  intros (Hlo & Hhi & Hinc & Hfit) Hd. unfold apply_increment, checked_rem, checked_div.
  rewrite (proj2 (Z.eqb_neq inc 0)) by lia. cbn. rewrite Z.rem_mod_nonneg by lia.
  case_if; [done|]. cbn. f_equal. f_equal.
  rewrite (Z.quot_div_nonneg (2 * _ + _)) by lia.
  pose proof (Z.div_pos (2 * (d - lo) + inc) 2 ltac:(lia) ltac:(lia)).
  rewrite Z.quot_div_nonneg by lia. fold (rounded (d - lo) inc).
  destruct (rounded_spec (d - lo) inc) as (Hr & Hb & _); [lia..|].
  apply to_int_id. unfold is_int, INT_MIN, INT_MAX in *. breflect.
  destruct Hfit as [->|Hfit]; [rewrite Z.mod_1_r in E; lia|lia].
Qed.

(** ** Aspect ratios *)
Lemma aspect_correction_spec error dim :
  0 < error -> 1 <= dim <= UINT_MAX ->
  exists c, aspect_correction error dim = Ret c /\ 1 <= c /\ error <= c * dim /\ (c - 1) * dim < error.
Proof.
  intros He Hd. unfold aspect_correction, checked_div. rewrite (proj2 (Z.eqb_neq dim 0)) by lia.
  rewrite to_uint32_id, Z.quot_div_nonneg by lia. eexists. split; [done|].
  pose proof (Z.div_mod (error + (dim - 1)) dim ltac:(lia)).
  pose proof (Z.mod_pos_bound (error + (dim - 1)) dim ltac:(lia)). nia.
Qed.

Definition dims_fit (s : Size) : Prop := 0 <= width s <= INT_MAX /\ 0 <= height s <= INT_MAX.

(** [h / w <= ar_height / ar_width], cross-multiplied. *)
Definition not_narrower (ar : AspectRatio) (s : Size) : Prop :=
  height s * ar_width ar <= width s * ar_height ar.
Definition not_wider (ar : AspectRatio) (s : Size) : Prop :=
  width s * ar_height ar <= height s * ar_width ar.

(** A ratio of [unsigned] numbers whose denominator is not zero. *)
Definition min_ratio_ok (ar : AspectRatio) : Prop :=
  0 <= ar_width ar <= UINT_MAX /\ 1 <= ar_height ar <= UINT_MAX.
Definition max_ratio_ok (ar : AspectRatio) : Prop :=
  1 <= ar_width ar <= UINT_MAX /\ 0 <= ar_height ar <= UINT_MAX.

#[export] Instance min_ratio_ok_dec ar : Decision (min_ratio_ok ar).
Proof. unfold min_ratio_ok. apply _. Defined.
#[export] Instance max_ratio_ok_dec ar : Decision (max_ratio_ok ar).
Proof. unfold max_ratio_ok. apply _. Defined.

Lemma apply_min_aspect_spec ar s :
  dims_fit s -> min_ratio_ok ar ->
  exists s', apply_min_aspect ar s = Ret s' /\ not_narrower ar s' /\
    (not_narrower ar s -> s' = s) /\
    width s <= width s' <= width s + height s /\ 0 <= height s' <= height s.
Proof.
  destruct s as [w h], ar as [aw ah]. unfold dims_fit, min_ratio_ok, not_narrower, apply_min_aspect, INT_MAX. cbn.
  intros (Hw & Hh) (Haw & Hah). case_if; breflect; [|eexists; split; [done|]; cbn; repeat split; lia].
  assert (1 <= aw) by nia.
  destruct (aspect_correction_spec _ ah E ltac:(lia)) as (wc & -> & Hwc1 & Hwc2 & Hwc3).
  destruct (aspect_correction_spec _ aw E ltac:(lia)) as (hc & -> & Hhc1 & Hhc2 & Hhc3). cbn.
  assert (hc <= h) by nia.
  case_if; breflect; rewrite to_int_id by (unfold is_int, INT_MIN, INT_MAX; lia);
    eexists; (split; [done|]); cbn; (split; [nia|]); (split; [lia|nia]).
Qed.

Lemma apply_max_aspect_spec ar s :
  dims_fit s -> max_ratio_ok ar ->
  exists s', apply_max_aspect ar s = Ret s' /\ not_wider ar s' /\
    (not_wider ar s -> s' = s) /\
    height s <= height s' <= height s + width s /\ 0 <= width s' <= width s.
Proof.
  destruct s as [w h], ar as [aw ah]. unfold dims_fit, max_ratio_ok, not_wider, apply_max_aspect, INT_MAX. cbn.
  intros (Hw & Hh) (Haw & Hah). case_if; breflect; [|eexists; split; [done|]; cbn; repeat split; lia].
  assert (1 <= ah) by nia.
  destruct (aspect_correction_spec _ aw E ltac:(lia)) as (hc & -> & Hhc1 & Hhc2 & Hhc3). cbn.
  destruct (aspect_correction_spec _ ah E ltac:(lia)) as (wc & -> & Hwc1 & Hwc2 & Hwc3). cbn.
  assert (wc <= w) by nia.
  case_if; breflect; rewrite to_int_id by (unfold is_int, INT_MIN, INT_MAX; lia);
    eexists; (split; [done|]); cbn; (split; [nia|]); (split; [lia|nia]).
Qed.

(** ** The constrained size *)
Definition limits_ok (i : WindowInfo) : Prop :=
  increment_fits (wi_min_width i) (wi_max_width i) (wi_width_inc i) /\
  increment_fits (wi_min_height i) (wi_max_height i) (wi_height_inc i).
#[export] Instance limits_ok_dec i : Decision (limits_ok i).
Proof. unfold limits_ok. apply _. Defined.

(** One dimension after the limits and the increment. *)
Definition stepped (lo hi inc d : Z) : Z :=
  let d := apply_limits lo hi d in
  if (d - lo) mod inc =? 0 then d else lo + rounded (d - lo) inc.

Lemma stepped_spec lo hi inc d :
  increment_fits lo hi inc ->
  lo <= stepped lo hi inc d <= INT_MAX /\
  (inc | stepped lo hi inc d - lo) /\
  2 * Z.abs (stepped lo hi inc d - apply_limits lo hi d) <= inc /\
  ((inc | hi - lo) -> stepped lo hi inc d <= hi).
Proof.
  intros (Hlo & Hhi & Hinc & Hfit). unfold stepped. pose proof (apply_limits_range lo hi d ltac:(lia)).
  set (d0 := apply_limits lo hi d) in *.
  destruct (rounded_spec (d0 - lo) inc) as (Hr & Hb & Hdiv); [lia..|]. case_if; breflect.
  - apply Z.mod_divide in E; [|lia]. repeat split; try lia. done.
  - split; [|split; [|split]].
    + destruct Hfit as [->|Hfit]; [by rewrite Z.mod_1_r in E|lia].
    + by replace (lo + rounded (d0 - lo) inc - lo) with (rounded (d0 - lo) inc) by lia.
    + lia.
    + intros [k Hk]. destruct Hdiv as [m Hm]. assert (m < k + 1) by (apply (Z.mul_lt_mono_pos_r inc); lia).
      assert (m * inc <= k * inc) by (apply Z.mul_le_mono_nonneg_r; lia). lia.
Qed.

Lemma apply_increment_stepped lo hi inc d :
  increment_fits lo hi inc -> apply_increment lo inc (apply_limits lo hi d) = Ret (stepped lo hi inc d).
Proof. intros Hf. apply (apply_increment_spec lo hi); [done|]. apply apply_limits_range. unfold increment_fits in Hf. lia. Qed.

Lemma constrained_size_steps i req :
  limits_ok i ->
  constrained_size i req =
    apply_min_aspect (wi_min_aspect i)
      (mkSize (stepped (wi_min_width i) (wi_max_width i) (wi_width_inc i) (width req))
              (stepped (wi_min_height i) (wi_max_height i) (wi_height_inc i) (height req)))
    ≫= apply_max_aspect (wi_max_aspect i).
Proof.
  intros [Hw Hh]. unfold constrained_size.
  rewrite (apply_increment_stepped _ _ _ (width req) Hw), (apply_increment_stepped _ _ _ (height req) Hh).
  reflexivity.
Qed.

Lemma stepped_le lo hi inc d : increment_fits lo hi inc -> stepped lo hi inc d <= Z.max lo d + inc.
Proof.
  intros Hf. destruct (stepped_spec lo hi inc d Hf) as (_ & _ & Hn & _).
  assert (apply_limits lo hi d <= Z.max lo d); [|lia].
  unfold apply_limits. destruct (Z.ltb_spec d lo); case_if; breflect; lia.
Qed.

Lemma default_ratios :
  default_min_aspect_ratio = mkAspectRatio 0 UINT_MAX /\ default_max_aspect_ratio = mkAspectRatio UINT_MAX 0.
Proof. split; reflexivity. Qed.

(** The default aspect ratios never correct a size. *)
Lemma default_ratios_inactive s :
  dims_fit s ->
  apply_min_aspect default_min_aspect_ratio s = Ret s /\
  apply_max_aspect default_max_aspect_ratio s = Ret s.
Proof.
  destruct default_ratios as [-> ->]. intros [Hw Hh]. unfold apply_min_aspect, apply_max_aspect. cbn [ar_width ar_height].
  assert (UINT_MAX > 0) by reflexivity. split; case_if; breflect; (done || nia).
Qed.

(** A set of constraints without aspect ratios. *)
Definition no_ratios (i : WindowInfo) : Prop :=
  wi_min_aspect i = default_min_aspect_ratio /\ wi_max_aspect i = default_max_aspect_ratio.

Lemma constrained_size_no_ratios i req :
  limits_ok i -> no_ratios i ->
  constrained_size i req =
    Ret (mkSize (stepped (wi_min_width i) (wi_max_width i) (wi_width_inc i) (width req))
                (stepped (wi_min_height i) (wi_max_height i) (wi_height_inc i) (height req))).
Proof.
  intros Hok [Hmin Hmax]. rewrite constrained_size_steps, Hmin, Hmax by done. destruct Hok as [Hw Hh].
  set (s := mkSize _ _). destruct (default_ratios_inactive s) as [-> Hs]; [|exact Hs].
  destruct (stepped_spec _ _ _ (width req) Hw) as [? _], (stepped_spec _ _ _ (height req) Hh) as [? _].
  destruct Hw as [? _], Hh as [? _]. unfold dims_fit. cbn. lia.
Qed.

(** with the default aspect ratios a resize request always gets a size:
    in each dimension the nearest minimum-plus-multiple-of-the-increment to
    the request cut to the limits; never below the minimum; and, when the
    increment divides the range of sizes, within the maximum and a fixed
    point of the adjustment. *)
Theorem constrained_size_limits (i : WindowInfo) (req : Size) :
  limits_ok i -> no_ratios i ->
  exists s, constrained_size i req = Ret s /\
    wi_min_width i <= width s /\ wi_min_height i <= height s /\
    (wi_width_inc i | width s - wi_min_width i) /\
    (wi_height_inc i | height s - wi_min_height i) /\
    2 * Z.abs (width s - apply_limits (wi_min_width i) (wi_max_width i) (width req)) <= wi_width_inc i /\
    2 * Z.abs (height s - apply_limits (wi_min_height i) (wi_max_height i) (height req)) <= wi_height_inc i /\
    ((wi_width_inc i | wi_max_width i - wi_min_width i) ->
     (wi_height_inc i | wi_max_height i - wi_min_height i) ->
     width s <= wi_max_width i /\ height s <= wi_max_height i /\ constrained_size i s = Ret s).
Proof.
  intros Hok Hr. eexists. split; [by apply constrained_size_no_ratios|]. cbn.
  destruct (stepped_spec _ _ _ (width req) (proj1 Hok)) as ([? ?] & Dw & ? & Hmw).
  destruct (stepped_spec _ _ _ (height req) (proj2 Hok)) as ([? ?] & Dh & ? & Hmh).
  repeat (split; [done|]). intros Hdw Hdh. split; [by apply Hmw|]. split; [by apply Hmh|].
  rewrite constrained_size_no_ratios by done. cbn. f_equal.
  assert (Hfix : forall lo hi inc d, inc <> 0 -> lo <= d <= hi -> (inc | d - lo) -> stepped lo hi inc d = d).
  { intros lo hi inc d Hi Hd Hdiv. unfold stepped. rewrite apply_limits_id by done.
    apply Z.mod_divide in Hdiv as ->; done. }
  destruct Hok as [(? & ? & ? & ?) (? & ? & ? & ?)].
  f_equal; apply Hfix; (done || lia || (split; [done|]; auto)).
Qed.

Definition example_info : WindowInfo :=
  mkWindowInfo (Some 1) "term" mir_window_type_normal mir_window_state_restored rectangle_default
    None [] 4 6 100 106 15 0 8 10 default_min_aspect_ratio default_max_aspect_ratio None 0
    mir_depth_layer_application 0 None None.

Lemma constrained_size_limits_witness :
  constrained_size example_info (mkSize 50 500) = Ret (mkSize 52 106) /\
  exists s, constrained_size example_info (mkSize 50 500) = Ret s /\ wi_min_width example_info <= width s.
Proof.
  split; [reflexivity|].
  destruct (constrained_size_limits example_info (mkSize 50 500)) as (s & Hs & Hw & _).
  - apply (bool_decide_unpack _). reflexivity.
  - split; reflexivity.
  - exists s. split; [exact Hs | exact Hw].
Defined.

(** The request and the limits are small enough for every intermediate size
    to fit an [int]. *)
Definition request_fits (i : WindowInfo) (req : Size) : Prop :=
  Z.max (wi_min_width i) (width req) + wi_width_inc i +
  (Z.max (wi_min_height i) (height req) + wi_height_inc i) <= INT_MAX.
#[export] Instance request_fits_dec i req : Decision (request_fits i req).
Proof. unfold request_fits. apply _. Defined.

(** with aspect ratios whose denominators are not zero the adjustment never
    divides by zero and the size it gives is never wider than the maximum
    ratio; when only a minimum ratio is set it is never narrower than that. *)
Theorem constrained_size_aspect (i : WindowInfo) (req : Size) :
  limits_ok i -> min_ratio_ok (wi_min_aspect i) -> max_ratio_ok (wi_max_aspect i) -> request_fits i req ->
  exists s, constrained_size i req = Ret s /\ 0 <= width s /\ 0 <= height s /\
    not_wider (wi_max_aspect i) s /\
    (wi_max_aspect i = default_max_aspect_ratio -> not_narrower (wi_min_aspect i) s).
Proof.
  intros Hok Hmin Hmax Hreq. rewrite constrained_size_steps by done. destruct Hok as [Hw Hh].
  pose proof (stepped_le _ _ _ (width req) Hw). pose proof (stepped_le _ _ _ (height req) Hh).
  destruct (stepped_spec _ _ _ (width req) Hw) as [? _], (stepped_spec _ _ _ (height req) Hh) as [? _].
  destruct Hw as (? & _ & ? & _), Hh as (? & _ & ? & _). unfold request_fits in Hreq.
  set (w := stepped _ _ _ (width req)) in *. set (h := stepped _ _ _ (height req)) in *.
  destruct (apply_min_aspect_spec (wi_min_aspect i) (mkSize w h)) as (s1 & -> & Hn & _ & Hb1 & Hb2);
    [unfold dims_fit; cbn; lia|done|]. cbn in Hb1, Hb2 |- *.
  destruct (apply_max_aspect_spec (wi_max_aspect i) s1) as (s2 & -> & Hn2 & Hid & Hb3 & Hb4);
    [unfold dims_fit; lia|done|].
  exists s2. split; [done|]. split; [lia|]. split; [lia|]. split; [done|]. intros E. rewrite Hid; [done|].
  rewrite E. destruct default_ratios as [_ ->]. unfold not_wider, UINT_MAX. cbn. nia.
Qed.

Lemma constrained_size_aspect_witness :
  let i := example_info <| wi_min_aspect := mkAspectRatio 4 3 |> <| wi_max_aspect := mkAspectRatio 16 9 |> in
  constrained_size i (mkSize 50 90) = Ret (mkSize 52 39) /\
  exists s, constrained_size i (mkSize 50 90) = Ret s /\ not_wider (mkAspectRatio 16 9) s.
Proof.
  intros i. split; [reflexivity|].
  destruct (constrained_size_aspect i (mkSize 50 90)) as (s & Hs & _ & _ & Hn & _);
    [apply (bool_decide_unpack _); reflexivity..|].
  exists s. split; [exact Hs | exact Hn].
Defined.

(** A zero increment, or a minimum aspect ratio with a zero height (a
    maximum one with a zero width), makes the adjustment of an ordinary
    request divide by zero. *)
Theorem constrained_size_division_by_zero (i : WindowInfo) (req : Size) :
  limits_ok i -> no_ratios i ->
  constrained_size (i <| wi_width_inc := 0 |>) req = Throw divide_by_zero /\
  (forall s, constrained_size i req = Ret s -> 0 < width s -> 0 < height s ->
   forall n, 0 < n ->
     constrained_size (i <| wi_min_aspect := mkAspectRatio n 0 |>) req = Throw divide_by_zero /\
     constrained_size (i <| wi_max_aspect := mkAspectRatio 0 n |>) req = Throw divide_by_zero).
Proof.
  intros Hok Hr. split; [reflexivity|]. intros s Hs Hw Hh n Hn.
  rewrite constrained_size_no_ratios in Hs by done. injection Hs as <-. cbn in Hw, Hh.
  rewrite !constrained_size_steps by done. cbn. destruct Hr as [Hmin Hmax].
  set (w := stepped _ _ _ (width req)) in *. set (h := stepped _ _ _ (height req)) in *.
  assert (Hf : dims_fit (mkSize w h)).
  { unfold dims_fit. cbn. destruct Hok as [Hfw Hfh].
    pose proof (stepped_spec _ _ _ (width req) Hfw) as [? _].
    pose proof (stepped_spec _ _ _ (height req) Hfh) as [? _]. subst w h. lia. }
  split.
  - unfold apply_min_aspect. cbn. rewrite (proj2 (Z.ltb_lt _ _)) by nia. reflexivity.
  - rewrite Hmin, (proj1 (default_ratios_inactive _ Hf)). unfold apply_max_aspect. cbn.
    rewrite (proj2 (Z.ltb_lt _ _)) by nia. reflexivity.
Qed.

Lemma constrained_size_division_by_zero_witness :
  constrained_size (example_info <| wi_width_inc := 0 |>) (mkSize 50 90) = Throw divide_by_zero.
Proof.
  apply (constrained_size_division_by_zero example_info (mkSize 50 90));
    [apply (bool_decide_unpack _); reflexivity|split; reflexivity].
Defined.

(** The rounding to the increment comes after the limits: a request at or
    above the maximum is given a size above the maximum exactly when the
    range of sizes leaves a remainder of at least half an increment. *)
Theorem constrained_size_exceeds_maximum (i : WindowInfo) (req : Size) :
  limits_ok i -> no_ratios i -> wi_max_width i <= width req ->
  exists s, constrained_size i req = Ret s /\
    (wi_max_width i < width s <->
     wi_width_inc i <= 2 * ((wi_max_width i - wi_min_width i) mod wi_width_inc i)).
Proof.
  intros Hok Hr Hreq. eexists. split; [by apply constrained_size_no_ratios|]. cbn.
  destruct Hok as [(Hlo & Hhi & Hinc & Hfit) _]. unfold stepped.
  set (lo := wi_min_width i) in *. set (hi := wi_max_width i) in *. set (inc := wi_width_inc i) in *.
  assert (apply_limits lo hi (width req) = hi) as ->.
  { unfold apply_limits. destruct (Z.ltb_spec (width req) lo); case_if; breflect; lia. }
  pose proof (Z.div_mod (hi - lo) inc ltac:(lia)). pose proof (Z.mod_pos_bound (hi - lo) inc ltac:(lia)).
  case_if; breflect; [lia|]. destruct (rounded_spec (hi - lo) inc) as (Hr0 & Hb & m & Hm); [lia..|].
  set (q := (hi - lo) / inc) in *. set (r := (hi - lo) mod inc) in *. rewrite Hm in *.
  split; intros H1; [|].
  - assert (q < m) by (apply (Z.mul_lt_mono_pos_r inc); lia).
    assert ((q + 1) * inc <= m * inc) by (apply Z.mul_le_mono_nonneg_r; lia). lia.
  - assert (m <> q); [intros ->; lia|].
    assert (q - 1 < m) by (apply (Z.mul_lt_mono_pos_r inc); lia).
    assert ((q + 1) * inc <= m * inc) by (apply Z.mul_le_mono_nonneg_r; lia). lia.
Qed.

Lemma constrained_size_exceeds_maximum_witness :
  let i := example_info <| wi_min_width := 0 |> <| wi_max_width := 10 |> <| wi_width_inc := 4 |> in
  constrained_size i (mkSize 10 6) = Ret (mkSize 12 6) /\
  exists s, constrained_size i (mkSize 10 6) = Ret s /\ (10 < width s <-> 4 <= 2 * ((10 - 0) mod 4)).
Proof.
  intros i. split; [reflexivity|].
  apply (constrained_size_exceeds_maximum i (mkSize 10 6));
    [apply (bool_decide_unpack _); reflexivity|split; reflexivity|vm_compute; congruence].
Defined.

(** What the state of the window allows to move. *)
Definition free_horizontally (s : MirWindowState) : bool :=
  match s with
  | mir_window_state_restored | mir_window_state_attached | mir_window_state_vertmaximized => true
  | _ => false
  end.
Definition free_vertically (s : MirWindowState) : bool :=
  match s with
  | mir_window_state_restored | mir_window_state_attached | mir_window_state_horizmaximized => true
  | _ => false
  end.

(** whatever the constraints do to the size, the edge the user does not
    drag stays where the request has it: a request that moves the left edge
    keeps its right edge, one that does not keeps its left edge (and likewise
    top and bottom); an edge that the window's state anchors does not move at
    all. *)
Theorem constrain_resize_anchors (i : WindowInfo) (window req r : Rectangle) :
  constrain_resize i window req = Ret r ->
  (if free_horizontally (wi_state i)
   then if bool_decide (left req = left window) then left r = left req else right r = right req
   else left r = left window /\ right r = right window) /\
  (if free_vertically (wi_state i)
   then if bool_decide (top req = top window) then top r = top req else bottom r = bottom req
   else top r = top window /\ bottom r = bottom window).
Proof.
  unfold constrain_resize. destruct (constrained_size i (r_size req)) as [s|]; cbn; [|done].
  intros [= <-].
  destruct (wi_state i); geom; repeat case_bool_decide; repeat case_if; breflect; cbn in *; lia.
Qed.

Lemma constrain_resize_anchors_witness :
  let window := mkRectangle (mkPoint 10 10) (mkSize 20 26) in
  let req := mkRectangle (mkPoint 5 10) (mkSize 25 40) in
  constrain_resize example_info window req =
    Ret (mkRectangle (mkPoint 2 10) (mkSize 28 36)) /\
  right (mkRectangle (mkPoint 2 10) (mkSize 28 36)) = right req.
Proof.
  intros window req. split; [reflexivity|].
  apply (constrain_resize_anchors example_info window req (mkRectangle (mkPoint 2 10) (mkSize 28 36))).
  reflexivity.
Defined.
