(* ===== verification/Placement.v ===== *)
(** * Placement of child windows

    The part of [src/miral/basic_window_manager.cpp] that places a window
    relative to its parent by gravities and hints ([place_relative] and the
    functions it uses), and the validation of requests to modify a window
    ([validate_modification_request]). *)
From S2P Require Import Prelude Geometry WindowInfo.

(** ** Gravities *)
Definition flip_x (g : MirPlacementGravity) : MirPlacementGravity :=
  if g =? mir_placement_gravity_northwest then mir_placement_gravity_northeast
  else if g =? mir_placement_gravity_northeast then mir_placement_gravity_northwest
  else if g =? mir_placement_gravity_west then mir_placement_gravity_east
  else if g =? mir_placement_gravity_east then mir_placement_gravity_west
  else if g =? mir_placement_gravity_southwest then mir_placement_gravity_southeast
  else if g =? mir_placement_gravity_southeast then mir_placement_gravity_southwest
  else g.

Definition flip_y (g : MirPlacementGravity) : MirPlacementGravity :=
  if g =? mir_placement_gravity_northwest then mir_placement_gravity_southwest
  else if g =? mir_placement_gravity_north then mir_placement_gravity_south
  else if g =? mir_placement_gravity_northeast then mir_placement_gravity_southeast
  else if g =? mir_placement_gravity_southwest then mir_placement_gravity_northwest
  else if g =? mir_placement_gravity_south then mir_placement_gravity_north
  else if g =? mir_placement_gravity_southeast then mir_placement_gravity_northeast
  else g.

Definition flip_x_disp (d : Displacement) : Displacement := mkDisplacement (-1 * dx d) (dy d).
Definition flip_y_disp (d : Displacement) : Displacement := mkDisplacement (dx d) (-1 * dy d).

Definition antipodes (g : MirPlacementGravity) : MirPlacementGravity :=
  if g =? mir_placement_gravity_northwest then mir_placement_gravity_southeast
  else if g =? mir_placement_gravity_north then mir_placement_gravity_south
  else if g =? mir_placement_gravity_northeast then mir_placement_gravity_southwest
  else if g =? mir_placement_gravity_west then mir_placement_gravity_east
  else if g =? mir_placement_gravity_east then mir_placement_gravity_west
  else if g =? mir_placement_gravity_southwest then mir_placement_gravity_northeast
  else if g =? mir_placement_gravity_south then mir_placement_gravity_north
  else if g =? mir_placement_gravity_southeast then mir_placement_gravity_northwest
  else g.

Definition constrain_to (rect : Rectangle) (point : Point) : Point :=
  let x := if px point <? px (top_left rect) then px (top_left rect) else px point in
  let y := if py point <? py (top_left rect) then py (top_left rect) else py point in
  let x := if px (bottom_right rect) <? x then px (bottom_right rect) else x in
  let y := if py (bottom_right rect) <? y then py (bottom_right rect) else y in
  mkPoint x y.

Definition bad_gravity : exn := runtime_error "bad placement gravity".

Definition anchor_for (aux_rect : Rectangle) (g : MirPlacementGravity) : outcome Point :=
  let size := as_displacement (r_size aux_rect) in
  if g =? mir_placement_gravity_northwest then Ret (top_left aux_rect)
  else if g =? mir_placement_gravity_north then Ret (point_add_dx (top_left aux_rect) (half (dx size)))
  else if g =? mir_placement_gravity_northeast then Ret (top_right aux_rect)
  else if g =? mir_placement_gravity_west then Ret (point_add_dy (top_left aux_rect) (half (dy size)))
  else if g =? mir_placement_gravity_center then Ret (point_add (top_left aux_rect) (displacement_half size))
  else if g =? mir_placement_gravity_east then Ret (point_add_dy (top_right aux_rect) (half (dy size)))
  else if g =? mir_placement_gravity_southwest then Ret (bottom_left aux_rect)
  else if g =? mir_placement_gravity_south then Ret (point_add_dx (bottom_left aux_rect) (half (dx size)))
  else if g =? mir_placement_gravity_southeast then Ret (bottom_right aux_rect)
  else Throw bad_gravity.

Definition offset_for (size : Size) (g : MirPlacementGravity) : outcome Displacement :=
  let displacement := as_displacement size in
  let hx := half (- dx displacement) in
  let hy := half (- dy displacement) in
  let fx := -1 * dx displacement in
  let fy := -1 * dy displacement in
  if g =? mir_placement_gravity_northwest then Ret (mkDisplacement 0 0)
  else if g =? mir_placement_gravity_north then Ret (mkDisplacement hx 0)
  else if g =? mir_placement_gravity_northeast then Ret (mkDisplacement fx 0)
  else if g =? mir_placement_gravity_west then Ret (mkDisplacement 0 hy)
  else if g =? mir_placement_gravity_center then Ret (mkDisplacement hx hy)
  else if g =? mir_placement_gravity_east then Ret (mkDisplacement fx hy)
  else if g =? mir_placement_gravity_southwest then Ret (mkDisplacement 0 fy)
  else if g =? mir_placement_gravity_south then Ret (mkDisplacement hx fy)
  else if g =? mir_placement_gravity_southeast then Ret (mkDisplacement fx fy)
  else Throw bad_gravity.

(** ** place_relative *)
Section PlaceRelative.
(** The values the function fixes before its loops. *)
Context (active_output_area parent aux_rect : Rectangle) (hints : MirPlacementHints)
        (win_gravity : MirPlacementGravity) (offset : Displacement).
Implicit Types (g : MirPlacementGravity) (size : Size).

(** [constrain_to(parent, anchor_for(aux_rect, g) + d) + offset_for(size, wg)] *)
Definition candidate g (d : Displacement) (wg : MirPlacementGravity) size : outcome Point :=
  a ← anchor_for aux_rect g;
  o ← offset_for size wg;
  Ret (point_add (constrain_to parent (point_add a d)) o).

Definition fits (result : Point) size : bool := contains active_output_area (mkRectangle result size).

(** The body of the first loop: the rectangle it returns, if it returns. *)
Definition try_flips g size : outcome (Point * option Rectangle) :=
  let attempt (enabled : bool) (g' : MirPlacementGravity) (d : Displacement) (wg : MirPlacementGravity)
      (next : outcome (option Rectangle)) : outcome (option Rectangle) :=
    if enabled then
      result ← candidate g' d wg size;
      if fits result size then Ret (Some (mkRectangle result size)) else next
    else next in
  let fx := has_flag hints mir_placement_hints_flip_x in
  let fy := has_flag hints mir_placement_hints_flip_y in
  result ← candidate g offset win_gravity size;
  found ←
    (if fits result size then Ret (Some (mkRectangle result size))
     else
       attempt fx (flip_x g) (flip_x_disp offset) (flip_x win_gravity)
         (attempt fy (flip_y g) (flip_y_disp offset) (flip_y win_gravity)
            (attempt (fx && fy) (flip_x (flip_y g)) (flip_x_disp (flip_y_disp offset))
               (flip_x (flip_y win_gravity)) (Ret None))));
  Ret (result, found).

(** The first loop: the rectangle it returns and the default result. *)
Fixpoint flip_loop (gs : list MirPlacementGravity) size (default_result : option Rectangle)
  : outcome (option Rectangle * option Rectangle) :=
  match gs with
  | [] => Ret (None, default_result)
  | g :: rest =>
      '(result, found) ← try_flips g size;
      match found with
      | Some r => Ret (Some r, default_result)
      | None =>
          flip_loop rest size
            (match default_result with Some d => Some d | None => Some (mkRectangle result size) end)
      end
  end.

(** One coordinate slid into the output. *)
Definition slide (enabled : bool) (pos len lo hi : Z) : Z :=
  if enabled then
    if pos - lo <? 0 then pos - (pos - lo)
    else if 0 <? pos + len - hi then pos - (pos + len - hi)
    else pos
  else pos.

Definition slide_point (result : Point) size : Point :=
  mkPoint
    (slide (has_flag hints mir_placement_hints_slide_x) (px result) (width size)
       (px (top_left active_output_area)) (px (top_right active_output_area)))
    (slide (has_flag hints mir_placement_hints_slide_y) (py result) (height size)
       (py (top_left active_output_area)) (py (bottom_left active_output_area))).

Fixpoint slide_loop (gs : list MirPlacementGravity) size : outcome (option Rectangle) :=
  match gs with
  | [] => Ret None
  | g :: rest =>
      result ← candidate g offset win_gravity size;
      let result := slide_point result size in
      if fits result size then Ret (Some (mkRectangle result size)) else slide_loop rest size
  end.

(** One dimension cut to the output: the new position and the new length. *)
Definition cut (enabled : bool) (pos len lo hi : Z) : Z * Z :=
  if enabled then
    let left_overhang := pos - lo in
    let right_overhang := pos + len - hi in
    let '(pos', len') := if left_overhang <? 0 then (pos - left_overhang, len + left_overhang)
                         else (pos, len) in
    (pos', if 0 <? right_overhang then len' - right_overhang else len')
  else (pos, len).

Definition cut_rect (result : Point) size : Point * Size :=
  let '(x, w) := cut (has_flag hints mir_placement_hints_resize_x) (px result) (width size)
                   (px (top_left active_output_area)) (px (top_right active_output_area)) in
  let '(y, h) := cut (has_flag hints mir_placement_hints_resize_y) (py result) (height size)
                   (py (top_left active_output_area)) (py (bottom_left active_output_area)) in
  (mkPoint x y, mkSize w h).

(** The third loop assigns to [size], which the next iteration starts from. *)
Fixpoint resize_loop (gs : list MirPlacementGravity) size : outcome (option Rectangle) :=
  match gs with
  | [] => Ret None
  | g :: rest =>
      result ← candidate g offset win_gravity size;
      let '(result, size') := cut_rect result size in
      if fits result size' then Ret (Some (mkRectangle result size')) else resize_loop rest size'
  end.

Definition place_loops (gs : list MirPlacementGravity) size : outcome (option Rectangle) :=
  '(found, default_result) ← flip_loop gs size None;
  match found with
  | Some r => Ret (Some r)
  | None =>
      slid ← slide_loop gs size;
      match slid with
      | Some r => Ret (Some r)
      | None =>
          resized ← resize_loop gs size;
          match resized with
          | Some r => Ret (Some r)
          | None => Ret default_result
          end
      end
  end.
End PlaceRelative.

(** [active_output_area] is [active_output()]. *)
Definition place_relative (active_output_area parent : Rectangle) (parameters : WindowSpecification)
    (size : Size) : outcome (option Rectangle) :=
  hints ← value (sp_placement_hints parameters);
  win_gravity ← value (sp_window_placement_gravity parameters);
  let size := default size (sp_size parameters) in
  let offset := default displacement_zero (sp_aux_rect_placement_offset parameters) in
  aux ← value (sp_aux_rect parameters);
  let aux_rect := mkRectangle (point_add (top_left aux) (point_diff (top_left parent) point_zero)) (r_size aux) in
  gravity ← value (sp_aux_rect_placement_gravity parameters);
  let rect_gravities :=
    gravity :: (if has_flag hints mir_placement_hints_antipodes then [antipodes gravity] else []) in
  place_loops active_output_area parent aux_rect hints win_gravity offset rect_gravities size.

(** ** Totality *)
Definition gravities : list MirPlacementGravity :=
  [mir_placement_gravity_center; mir_placement_gravity_west; mir_placement_gravity_east;
   mir_placement_gravity_north; mir_placement_gravity_south; mir_placement_gravity_northwest;
   mir_placement_gravity_northeast; mir_placement_gravity_southwest; mir_placement_gravity_southeast].
Definition valid_gravity (g : MirPlacementGravity) : Prop := g ∈ gravities.
#[export] Instance valid_gravity_dec g : Decision (valid_gravity g).
Proof. unfold valid_gravity. apply _. Defined.

Lemma valid_gravity_ind (P : Z -> Prop) g : valid_gravity g -> Forall P gravities -> P g.
Proof. intros Hg Hall. rewrite Forall_forall in Hall. by apply Hall. Qed.

(** Check a property at each of the nine gravities. *)
Ltac by_gravity Hg :=
  match type of Hg with
  | valid_gravity ?g =>
      pattern g; apply (valid_gravity_ind _ g Hg); unfold gravities; repeat apply Forall_cons_2; try apply Forall_nil_2
  end.

Lemma valid_flip_x g : valid_gravity g -> valid_gravity (flip_x g).
Proof. intros Hg. by_gravity Hg; apply (bool_decide_unpack _); reflexivity. Qed.
Lemma valid_flip_y g : valid_gravity g -> valid_gravity (flip_y g).
Proof. intros Hg. by_gravity Hg; apply (bool_decide_unpack _); reflexivity. Qed.
Lemma valid_antipodes g : valid_gravity g -> valid_gravity (antipodes g).
Proof. intros Hg. by_gravity Hg; apply (bool_decide_unpack _); reflexivity. Qed.
#[export] Hint Resolve valid_flip_x valid_flip_y valid_antipodes : mir.

Lemma flips_antipodes g : valid_gravity g ->
  flip_x (flip_x g) = g /\ flip_y (flip_y g) = g /\ flip_x (flip_y g) = antipodes g.
Proof. intros Hg. by_gravity Hg; done. Qed.

Lemma anchor_for_total r g : valid_gravity g -> returns (anchor_for r g).
Proof. intros Hg. by_gravity Hg; by eexists. Qed.
Lemma offset_for_total s g : valid_gravity g -> returns (offset_for s g).
Proof. intros Hg. by_gravity Hg; by eexists. Qed.

Section Correctness.
Context (out parent aux_rect : Rectangle) (hints : MirPlacementHints)
        (win_gravity : MirPlacementGravity) (offset : Displacement)
        (Hwin : valid_gravity win_gravity).
Local Notation candidate := (candidate parent aux_rect).
Local Notation fits := (fits out).

Lemma candidate_total g d wg size :
  valid_gravity g -> valid_gravity wg -> exists p, candidate g d wg size = Ret p.
Proof.
  intros Hg Hwg. unfold Placement.candidate. destruct (anchor_for_total aux_rect g Hg) as [a ->].
  destruct (offset_for_total size wg Hwg) as [o ->]. cbn. eauto.
Qed.

(** A found rectangle is on the output and keeps the size. *)
Definition good (size : Size) (found : option Rectangle) : Prop :=
  forall r, found = Some r -> contains out r = true /\ r_size r = size.

Lemma good_fits size p : fits p size = true -> good size (Some (mkRectangle p size)).
Proof. by intros Hf r [= <-]. Qed.
Lemma good_None size : good size None.
Proof. by intros r. Qed.
Hint Resolve good_fits good_None : mir.

Lemma try_flips_spec g size :
  valid_gravity g ->
  exists p found, candidate g offset win_gravity size = Ret p /\
    try_flips out parent aux_rect hints win_gravity offset g size = Ret (p, found) /\
    good size found /\
    (fits p size = true -> found = Some (mkRectangle p size)) /\
    (has_flag hints mir_placement_hints_flip_x = false ->
     has_flag hints mir_placement_hints_flip_y = false -> fits p size = false -> found = None).
Proof.
  intros Hg. unfold try_flips.
  destruct (candidate_total g offset win_gravity size Hg Hwin) as [p Hp]. rewrite Hp. cbn.
  destruct (fits p size) eqn:Hf; [exists p, (Some (mkRectangle p size)); do 2 (split; [done|]); split; [by auto with mir|]; split; congruence|].
  destruct (candidate_total (flip_x g) (flip_x_disp offset) (flip_x win_gravity) size) as [px' ->]; auto with mir.
  destruct (candidate_total (flip_y g) (flip_y_disp offset) (flip_y win_gravity) size) as [py' ->]; auto with mir.
  destruct (candidate_total (flip_x (flip_y g)) (flip_x_disp (flip_y_disp offset))
              (flip_x (flip_y win_gravity)) size) as [pxy ->]; auto with mir. cbn.
  destruct (has_flag hints mir_placement_hints_flip_x), (has_flag hints mir_placement_hints_flip_y); cbn;
    repeat (case_if; cbn); eexists p, _; (split; [done|]); (split; [done|]); (split; [by auto with mir|]); split; congruence.
Qed.

Local Notation flip_loop := (flip_loop out parent aux_rect hints win_gravity offset).
Local Notation slide_loop := (slide_loop out parent aux_rect hints win_gravity offset).
Local Notation resize_loop := (resize_loop out parent aux_rect hints win_gravity offset).

Lemma flip_loop_total gs size d0 :
  Forall valid_gravity gs ->
  exists found, flip_loop gs size (Some d0) = Ret (found, Some d0) /\ good size found /\
    (gs = [] -> found = None).
Proof.
  induction 1 as [|g gs Hg Hgs IH]; [exists None; by auto with mir|]. cbn.
  destruct (try_flips_spec g size Hg) as (p & found & _ & -> & Hgood & _). cbn.
  destruct found as [r|]; [exists (Some r); by auto with mir|].
  destruct IH as (found & -> & Hf & _). by exists found.
Qed.

Lemma flip_loop_spec g gs size p :
  Forall valid_gravity (g :: gs) -> candidate g offset win_gravity size = Ret p ->
  exists found dflt, flip_loop (g :: gs) size None = Ret (found, dflt) /\ good size found /\
    (found = None -> dflt = Some (mkRectangle p size)) /\
    (fits p size = true -> found = Some (mkRectangle p size)) /\
    (has_flag hints mir_placement_hints_flip_x = false ->
     has_flag hints mir_placement_hints_flip_y = false -> gs = [] ->
     found = if fits p size then Some (mkRectangle p size) else None).
Proof.
  intros [Hg Hgs]%Forall_cons Hp. cbn.
  destruct (try_flips_spec g size Hg) as (p' & found & Hp' & -> & Hgood & Hfit & Hno).
  rewrite Hp in Hp'. injection Hp' as <-. cbn. destruct found as [r|].
  - exists (Some r), None. split; [done|]. split; [done|]. split; [done|]. split; [done|].
    intros Hx Hy _. destruct (fits p size); [by apply Hfit|by apply Hno].
  - destruct (flip_loop_total gs size (mkRectangle p size) Hgs) as (found & -> & Hgood' & Hnil).
    exists found, (Some (mkRectangle p size)). split; [done|]. split; [done|]. split; [done|].
    destruct (fits p size); [by discriminate Hfit|]. split; [done|]. intros _ _. exact Hnil.
Qed.

Lemma slide_loop_spec gs size :
  Forall valid_gravity gs ->
  exists found, slide_loop gs size = Ret found /\ good size found /\
    (gs <> [] -> has_flag hints mir_placement_hints_slide_x = true ->
     has_flag hints mir_placement_hints_slide_y = true ->
     0 <= width size <= width (r_size out) -> 0 <= height size <= height (r_size out) ->
     found <> None).
Proof.
  induction 1 as [|g gs Hg Hgs IH]; [exists None; by auto with mir|]. cbn.
  destruct (candidate_total g offset win_gravity size Hg Hwin) as [p ->]. cbn.
  destruct (fits (slide_point out hints p size) size) eqn:Hf.
  - eexists. split; [done|]. split; [by apply good_fits|done].
  - destruct IH as (found & -> & Hgood & _). exists found. split; [done|]. split; [done|].
    intros _ Hx Hy Hw Hh. exfalso. revert Hf. apply not_false_iff_true. unfold Placement.fits, slide_point.
    rewrite Hx, Hy. apply contains_iff. unfold slide. destruct out as [[? ?] [? ?]], size. geom.
    repeat case_if; breflect; lia.
Qed.

Lemma slide_loop_off g size p :
  candidate g offset win_gravity size = Ret p ->
  has_flag hints mir_placement_hints_slide_x = false ->
  has_flag hints mir_placement_hints_slide_y = false -> fits p size = false ->
  slide_loop [g] size = Ret None.
Proof.
  intros Hp Hx Hy Hf. cbn. rewrite Hp. cbn. unfold slide_point. rewrite Hx, Hy. cbn. destruct p. cbn in *.
  by rewrite Hf.
Qed.

Lemma resize_loop_spec gs size :
  Forall valid_gravity gs ->
  exists found, resize_loop gs size = Ret found /\
    (forall r, found = Some r -> contains out r = true) /\
    (has_flag hints mir_placement_hints_resize_x = false ->
     has_flag hints mir_placement_hints_resize_y = false -> good size found).
Proof.
  intros Hgs. revert size. induction Hgs as [|g gs Hg Hgs IH]; intros size; [exists None; by auto with mir|]. cbn.
  destruct (candidate_total g offset win_gravity size Hg Hwin) as [p ->]. cbn.
  destruct (cut_rect out hints p size) as [p' size'] eqn:Hcut.
  assert (Hs : has_flag hints mir_placement_hints_resize_x = false ->
               has_flag hints mir_placement_hints_resize_y = false -> size' = size).
  { intros Hx Hy. unfold cut_rect in Hcut. rewrite Hx, Hy in Hcut. cbn in Hcut. destruct size. by injection Hcut as _ <-. }
  destruct (fits p' size') eqn:Hf.
  - eexists. split; [done|]. split; [by intros r [= <-]|]. intros Hx Hy r [= <-]. split; [done|]. by apply Hs.
  - destruct (IH size') as (found & -> & Hc & Hgood). exists found. split; [done|]. split; [done|].
    intros Hx Hy. rewrite <-(Hs Hx Hy). by apply Hgood.
Qed.

(** Cutting on both axes is intersecting with the output. *)
Lemma cut_rect_intersection p size :
  has_flag hints mir_placement_hints_resize_x = true ->
  has_flag hints mir_placement_hints_resize_y = true ->
  nonempty (intersection_with (mkRectangle p size) out) ->
  let '(p', size') := cut_rect out hints p size in
  mkRectangle p' size' = intersection_with (mkRectangle p size) out.
Proof.
  intros Hx Hy Hne. unfold cut_rect, cut. rewrite Hx, Hy. unfold intersection_with in *.
  destruct out as [[? ?] [? ?]], p, size. geom. case_if_in Hne; cbn in *; [|lia]. breflect.
  repeat (case_if; cbn); breflect; f_equal; f_equal; lia.
Qed.

Lemma resize_loop_overlap g gs size p :
  candidate g offset win_gravity size = Ret p ->
  has_flag hints mir_placement_hints_resize_x = true ->
  has_flag hints mir_placement_hints_resize_y = true ->
  nonempty (intersection_with (mkRectangle p size) out) ->
  resize_loop (g :: gs) size = Ret (Some (intersection_with (mkRectangle p size) out)).
Proof.
  intros Hp Hx Hy Hne. cbn. rewrite Hp. cbn. pose proof (cut_rect_intersection p size Hx Hy Hne) as Hc.
  destruct (cut_rect out hints p size) as [p' size']. unfold Placement.fits. rewrite Hc.
  by rewrite (proj2 (intersection_contained _ _ Hne)).
Qed.

(** The windows that sliding on both axes brings onto the output. *)
Definition can_slide (size : Size) : Prop :=
  has_flag hints mir_placement_hints_slide_x = true /\ has_flag hints mir_placement_hints_slide_y = true /\
  0 <= width size <= width (r_size out) /\ 0 <= height size <= height (r_size out).

(** The windows that cutting on both axes brings onto the output. *)
Definition can_cut (pref : Rectangle) : Prop :=
  has_flag hints mir_placement_hints_resize_x = true /\ has_flag hints mir_placement_hints_resize_y = true /\
  nonempty (intersection_with pref out).

Definition no_flags (flag_x flag_y : Z) : Prop := has_flag hints flag_x = false /\ has_flag hints flag_y = false.

(** The four ways to a result: flipping takes precedence over sliding, which
    takes precedence over resizing; the last resort is the preferred
    placement. [only] says that there is a single gravity to try. *)
Inductive placed (only : Prop) (pref : Rectangle) : Rectangle -> Prop :=
| placed_flip r :
    contains out r = true -> r_size r = r_size pref ->
    (contains out pref = true -> r = pref) ->
    (only -> no_flags mir_placement_hints_flip_x mir_placement_hints_flip_y -> r = pref) ->
    placed only pref r
| placed_slide r :
    contains out pref = false -> contains out r = true -> r_size r = r_size pref ->
    (only -> ~ no_flags mir_placement_hints_slide_x mir_placement_hints_slide_y) ->
    placed only pref r
| placed_cut r :
    contains out pref = false -> ~ can_slide (r_size pref) -> contains out r = true ->
    (no_flags mir_placement_hints_resize_x mir_placement_hints_resize_y -> r_size r = r_size pref) ->
    (can_cut pref -> r = intersection_with pref out) ->
    (only -> ~ no_flags mir_placement_hints_resize_x mir_placement_hints_resize_y) ->
    placed only pref r
| placed_default :
    contains out pref = false -> ~ can_slide (r_size pref) -> ~ can_cut pref -> placed only pref pref.

Lemma resize_loop_off g size p :
  candidate g offset win_gravity size = Ret p ->
  no_flags mir_placement_hints_resize_x mir_placement_hints_resize_y -> fits p size = false ->
  resize_loop [g] size = Ret None.
Proof.
  intros Hp [Hx Hy] Hf. cbn. rewrite Hp. cbn. unfold cut_rect. rewrite Hx, Hy. cbn. destruct p, size. cbn in *.
  by rewrite Hf.
Qed.

Lemma place_loops_after_flips g gs size p :
  Forall valid_gravity (g :: gs) -> candidate g offset win_gravity size = Ret p -> fits p size = false ->
  exists r,
    (slid ← slide_loop (g :: gs) size;
     match slid with
     | Some r => Ret (Some r)
     | None =>
         resized ← resize_loop (g :: gs) size;
         match resized with
         | Some r => Ret (Some r)
         | None => Ret (Some (mkRectangle p size))
         end
     end) = Ret (Some r) /\ placed (gs = []) (mkRectangle p size) r.
Proof.
  intros Hall Hp Hf. destruct (slide_loop_spec (g :: gs) size Hall) as (slid & Hs & Hgood & Hsome).
  rewrite Hs. cbn [mbind outcome_bind]. destruct slid as [r|].
  { exists r. split; [done|]. destruct (Hgood r eq_refl). apply placed_slide; [done..|].
    intros -> [Hx Hy]. by rewrite (slide_loop_off g size p) in Hs. }
  assert (Hns : ~ can_slide size) by (intros (? & ? & ? & ?); by apply Hsome).
  destruct (resize_loop_spec (g :: gs) size Hall) as (found & Hr & Hc & Hgood'). rewrite Hr. cbn [mbind outcome_bind].
  assert (Hcut : can_cut (mkRectangle p size) -> found = Some (intersection_with (mkRectangle p size) out)).
  { intros (Hx & Hy & Hne). rewrite (resize_loop_overlap g gs size p Hp Hx Hy Hne) in Hr. by injection Hr. }
  destruct found as [r|].
  - exists r. split; [done|]. apply placed_cut; [done|done|by apply Hc|..].
    + intros [Hx Hy]. by apply Hgood'.
    + intros Hcc. by injection (Hcut Hcc).
    + intros -> Hno. by rewrite (resize_loop_off g size p) in Hr.
  - eexists. split; [done|]. apply placed_default; [done|done|]. intros Hcc. by discriminate (Hcut Hcc).
Qed.

Lemma place_loops_spec g gs size p :
  Forall valid_gravity (g :: gs) -> candidate g offset win_gravity size = Ret p ->
  exists r, place_loops out parent aux_rect hints win_gravity offset (g :: gs) size = Ret (Some r) /\
    placed (gs = []) (mkRectangle p size) r.
Proof.
  intros Hall Hp. unfold place_loops.
  destruct (flip_loop_spec g gs size p Hall Hp) as (found & dflt & -> & Hgood & Hd & Hfit & Hoff).
  cbn [mbind outcome_bind]. destruct found as [r|].
  - exists r. split; [done|]. destruct (Hgood r eq_refl). apply placed_flip; [done|done|..].
    + intros Hc. by injection (Hfit Hc).
    + intros Hgs [Hx Hy]. specialize (Hoff Hx Hy Hgs). destruct (fits p size); [by injection Hoff|done].
  - rewrite (Hd eq_refl). apply place_loops_after_flips; [done|done|].
    destruct (fits p size); [by discriminate Hfit|done].
Qed.
(** With a single gravity and no hint but resizing only the last loop acts. *)
Lemma place_loops_only_resize g size p :
  valid_gravity g -> candidate g offset win_gravity size = Ret p -> fits p size = false ->
  no_flags mir_placement_hints_flip_x mir_placement_hints_flip_y ->
  no_flags mir_placement_hints_slide_x mir_placement_hints_slide_y ->
  place_loops out parent aux_rect hints win_gravity offset [g] size =
    let '(p', size') := cut_rect out hints p size in
    Ret (Some (if fits p' size' then mkRectangle p' size' else mkRectangle p size)).
Proof.
  intros Hg Hp Hf [Hfx Hfy] [Hsx Hsy]. unfold place_loops.
  destruct (flip_loop_spec g [] size p) as (found & dflt & -> & _ & Hd & _ & Hoff); [by apply Forall_cons_2|done|].
  specialize (Hoff Hfx Hfy eq_refl). rewrite Hf in Hoff. subst found. cbn [mbind outcome_bind].
  rewrite (slide_loop_off g size p), (Hd eq_refl) by done. cbn [mbind outcome_bind].
  cbn. rewrite Hp. cbn. destruct (cut_rect out hints p size) as [p' size']. by destruct (fits p' size').
Qed.
End Correctness.

(** ** What place_relative promises *)
(** A request that carries everything the function reads. *)
Record placement_request (p : WindowSpecification) (hints : MirPlacementHints)
    (aux : Rectangle) (wg rg : MirPlacementGravity) : Prop := {
  request_hints : sp_placement_hints p = Some hints;
  request_aux : sp_aux_rect p = Some aux;
  request_window_gravity : sp_window_placement_gravity p = Some wg;
  request_rect_gravity : sp_aux_rect_placement_gravity p = Some rg;
  request_wg_valid : valid_gravity wg;
  request_rg_valid : valid_gravity rg
}.

(** The placement asked for, before any hint applies. *)
Definition preferred (parent : Rectangle) (p : WindowSpecification) (aux : Rectangle)
    (wg rg : MirPlacementGravity) (size : Size) : outcome Rectangle :=
  let size := default size (sp_size p) in
  let aux_rect := mkRectangle (point_add (top_left aux) (point_diff (top_left parent) point_zero)) (r_size aux) in
  result ← candidate parent aux_rect rg (default displacement_zero (sp_aux_rect_placement_offset p)) wg size;
  Ret (mkRectangle result size).

Lemma place_relative_placed out parent p size hints aux wg rg :
  placement_request p hints aux wg rg ->
  exists pref r, preferred parent p aux wg rg size = Ret pref /\
    r_size pref = default size (sp_size p) /\
    place_relative out parent p size = Ret (Some r) /\
    placed out hints (has_flag hints mir_placement_hints_antipodes = false) pref r.
Proof.
  intros [Hh Ha Hwg Hrg Vwg Vrg]. unfold place_relative, preferred. rewrite Hh, Ha, Hwg, Hrg. cbn [value mbind outcome_bind].
  set (sz := default size (sp_size p)). set (off := default displacement_zero _). set (ax := mkRectangle _ _).
  destruct (candidate_total parent ax rg off wg sz Vrg Vwg) as [q Hq]. rewrite Hq. cbn [mbind outcome_bind].
  set (more := if has_flag _ _ then _ else _).
  destruct (place_loops_spec out parent ax hints wg off Vwg rg more sz q) as (r & Hr & Hpl).
  { subst more. apply Forall_cons_2; [done|]. case_if; [|done]. apply Forall_cons_2; [by auto with mir|done]. }
  { done. }
  exists (mkRectangle q sz), r. split; [done|]. split; [done|]. split; [done|].
  destruct Hpl; [apply placed_flip|apply placed_slide|apply placed_cut|apply placed_default]; try done;
    intros Hanti; subst more; rewrite Hanti in *; auto.
Qed.

(** C29: a placement request with valid gravities always gets a rectangle: the
    preferred placement when that is on the output; otherwise a rectangle on
    the output or, as the last resort, the preferred placement; the size
    changes only when a resize hint is set; without hints the preferred
    placement is taken as it is. *)
Theorem place_relative_sound (out parent : Rectangle) (p : WindowSpecification) (size : Size)
    (hints : MirPlacementHints) (aux : Rectangle) (wg rg : MirPlacementGravity) :
  placement_request p hints aux wg rg ->
  exists pref r, preferred parent p aux wg rg size = Ret pref /\
    place_relative out parent p size = Ret (Some r) /\
    (contains out pref = true -> r = pref) /\
    (r = pref \/ contains out r = true) /\
    (no_flags hints mir_placement_hints_resize_x mir_placement_hints_resize_y ->
     r_size r = default size (sp_size p)) /\
    (hints = 0 -> r = pref).
Proof.
  intros Hreq. destruct (place_relative_placed out parent p size hints aux wg rg Hreq)
    as (pref & r & Hpref & Hsize & Hr & Hpl).
  exists pref, r. split; [done|]. split; [done|]. rewrite <-Hsize.
  assert (H0 : forall fx fy, hints = 0 -> no_flags hints fx fy) by (by intros ?? ->).
  destruct Hpl as [r Hc Hs Hp Ho|r Hn Hc Hs Ho|r Hn _ Hc Hs _ Ho|Hn _ _];
    (split; [by (done || congruence)|]); (split; [by auto|]); (split; [by auto|]); intros E; rewrite ?E in *;
    try (exfalso; apply Ho); auto.
Qed.

(** a window that may slide on both axes and is not larger than the output
    is always placed on the output, with its own size. *)
Theorem place_relative_slides (out parent : Rectangle) (p : WindowSpecification) (size : Size)
    (hints : MirPlacementHints) (aux : Rectangle) (wg rg : MirPlacementGravity) :
  placement_request p hints aux wg rg ->
  can_slide out hints (default size (sp_size p)) ->
  exists r, place_relative out parent p size = Ret (Some r) /\
    contains out r = true /\ r_size r = default size (sp_size p).
Proof.
  intros Hreq Hslide. destruct (place_relative_placed out parent p size hints aux wg rg Hreq)
    as (pref & r & _ & Hsize & Hr & Hpl).
  exists r. split; [done|]. rewrite <-Hsize in *. by destruct Hpl.
Qed.

(** A window that may be resized on both axes and whose preferred placement
    overlaps the output is always placed on the output and never empty: it
    keeps its size, or it is the part of the preferred placement that is on
    the output. *)
Theorem place_relative_resizes (out parent : Rectangle) (p : WindowSpecification) (size : Size)
    (hints : MirPlacementHints) (aux : Rectangle) (wg rg : MirPlacementGravity) :
  placement_request p hints aux wg rg ->
  exists pref, preferred parent p aux wg rg size = Ret pref /\
    (can_cut out hints pref ->
     exists r, place_relative out parent p size = Ret (Some r) /\ contains out r = true /\ nonempty r /\
       (r_size r = default size (sp_size p) \/ r = intersection_with pref out)).
Proof.
  intros Hreq. destruct (place_relative_placed out parent p size hints aux wg rg Hreq)
    as (pref & r & Hpref & Hsize & Hr & Hpl).
  exists pref. split; [done|]. intros Hcut. exists r. split; [done|]. rewrite <-Hsize in *.
  assert (Hne : nonempty (intersection_with pref out)) by apply Hcut.
  assert (Hnp : forall r', r_size r' = r_size pref -> nonempty r').
  { intros r' E. unfold nonempty. rewrite E. apply nonempty_covers, intersection_covers in Hne as [Hc _].
    by apply (covers_nonempty _ _ Hc). }
  destruct Hpl as [r Hc Hs Hp Ho|r Hn Hc Hs Ho|r Hn _ Hc Hs Hi Ho|Hn _ Hno]; try by auto.
  rewrite (Hi Hcut). split; [apply intersection_contained; done|]. auto.
Qed.

(** A window that may only be resized horizontally and whose preferred
    placement is entirely to the left of the output, within its vertical
    range, is given a negative width. *)
Theorem place_relative_negative_width (out parent : Rectangle) (p : WindowSpecification) (size : Size)
    (aux : Rectangle) (wg rg : MirPlacementGravity) :
  placement_request p mir_placement_hints_resize_x aux wg rg ->
  exists pref, preferred parent p aux wg rg size = Ret pref /\
    (sized pref -> sized out -> right pref < left out -> top out <= top pref -> bottom pref <= bottom out ->
     exists r, place_relative out parent p size = Ret (Some r) /\ width (r_size r) = right pref - left out).
Proof.
  intros Hreq. destruct (place_relative_placed out parent p size _ aux wg rg Hreq)
    as (pref & r & Hpref & Hsize & Hr & Hpl).
  exists pref. split; [done|]. intros H1 H2 Hleft Htop Hbot.
  destruct Hreq as [Hh Ha Hwg Hrg Vwg Vrg]. unfold place_relative, preferred in *.
  rewrite Hh, Ha, Hwg, Hrg in *. cbn [value mbind outcome_bind] in *.
  destruct (candidate _ _ rg _ wg _) as [q|] eqn:Hq; [|done]. injection Hpref as <-.
  set (sz := default size (sp_size p)) in *. clearbody sz.
  change (has_flag mir_placement_hints_resize_x mir_placement_hints_antipodes) with false. cbn iota.
  rewrite (place_loops_only_resize _ _ _ _ _ _ Vwg rg sz q Vrg Hq); [|..|split; reflexivity|split; reflexivity].
  - unfold cut_rect. change (has_flag mir_placement_hints_resize_x mir_placement_hints_resize_x) with true.
    change (has_flag mir_placement_hints_resize_x mir_placement_hints_resize_y) with false. unfold cut.
    destruct out as [[? ?] [? ?]], q, sz. geom. rewrite (proj2 (Z.ltb_lt _ 0)), (proj2 (Z.ltb_ge 0 _)) by lia.
    unfold fits. rewrite (proj2 (contains_iff _ _)) by (geom; lia). eexists. split; [done|]. cbn. lia.
  - apply not_true_is_false. unfold fits. rewrite contains_iff. geom_solve.
Qed.

(** A menu that is aligned with the corner of a window mostly off the left
    edge of the screen. *)
Definition example_menu (hints : Z) : WindowSpecification :=
  spec_empty <| sp_placement_hints := Some hints |>
    <| sp_aux_rect := Some (mkRectangle (mkPoint 0 0) (mkSize 10 10)) |>
    <| sp_window_placement_gravity := Some mir_placement_gravity_northwest |>
    <| sp_aux_rect_placement_gravity := Some mir_placement_gravity_northeast |>.

Lemma example_menu_request hints :
  placement_request (example_menu hints) hints (mkRectangle (mkPoint 0 0) (mkSize 10 10))
    mir_placement_gravity_northwest mir_placement_gravity_northeast.
Proof. split; try reflexivity; by apply (bool_decide_unpack _). Qed.

Definition example_output : Rectangle := mkRectangle (mkPoint 0 0) (mkSize 100 100).

Lemma place_relative_sound_witness :
  let parent := mkRectangle (mkPoint 20 30) (mkSize 40 40) in
  exists r, place_relative example_output parent (example_menu 0) (mkSize 80 20) = Ret (Some r) /\
    r = mkRectangle (mkPoint 30 30) (mkSize 80 20).
Proof.
  intros parent.
  destruct (place_relative_sound example_output parent (example_menu 0) (mkSize 80 20) 0 _ _ _
              (example_menu_request 0)) as (pref & r & Hpref & Hr & _ & _ & _ & Hno).
  exists r. split; [exact Hr|]. rewrite (Hno eq_refl). injection Hpref as <-. reflexivity.
Defined.

Lemma place_relative_slides_witness :
  let hints := Z.lor mir_placement_hints_slide_x mir_placement_hints_slide_y in
  let parent := mkRectangle (mkPoint 20 30) (mkSize 40 40) in
  place_relative example_output parent (example_menu hints) (mkSize 80 20) =
    Ret (Some (mkRectangle (mkPoint 20 30) (mkSize 80 20))) /\
  exists r, place_relative example_output parent (example_menu hints) (mkSize 80 20) = Ret (Some r) /\
    contains example_output r = true /\ r_size r = mkSize 80 20.
Proof.
  intros hints parent. split; [reflexivity|].
  apply (place_relative_slides example_output parent (example_menu hints) (mkSize 80 20) hints _ _ _
           (example_menu_request hints)).
  unfold can_slide. cbn. repeat split; lia.
Defined.

Lemma place_relative_resizes_witness :
  let hints := Z.lor mir_placement_hints_resize_x mir_placement_hints_resize_y in
  let parent := mkRectangle (mkPoint 20 30) (mkSize 40 40) in
  place_relative example_output parent (example_menu hints) (mkSize 80 20) =
    Ret (Some (mkRectangle (mkPoint 30 30) (mkSize 70 20))) /\
  exists r, place_relative example_output parent (example_menu hints) (mkSize 80 20) = Ret (Some r) /\ nonempty r.
Proof.
  intros hints parent. split; [reflexivity|].
  destruct (place_relative_resizes example_output parent (example_menu hints) (mkSize 80 20) hints _ _ _
              (example_menu_request hints)) as (pref & Hpref & Hcut).
  injection Hpref as <-. destruct Hcut as (r & Hr & _ & Hne & _).
  - unfold can_cut. split; [reflexivity|]. split; [reflexivity|]. split; reflexivity.
  - exists r. split; [exact Hr | exact Hne].
Defined.

Lemma place_relative_negative_width_witness :
  let parent := mkRectangle (mkPoint (-500) 0) (mkSize 40 40) in
  exists r, place_relative example_output parent (example_menu mir_placement_hints_resize_x) (mkSize 50 50) =
    Ret (Some r) /\ width (r_size r) = -440.
Proof.
  intros parent.
  destruct (place_relative_negative_width example_output parent (example_menu mir_placement_hints_resize_x)
              (mkSize 50 50) _ _ _ (example_menu_request _)) as (pref & Hpref & Hneg).
  injection Hpref as <-. apply Hneg; vm_compute; repeat split; congruence.
Defined.

(** ** validate_modification_request *)
Definition invalid_type_change : exn := runtime_error "Invalid surface type change".

(** The switch on the original type, with its two fall-throughs. *)
Definition validate_type_change (original_type target_type : MirWindowType) : outcome unit :=
  let unchanged := if bool_decide (target_type = original_type) then Ret tt else Throw invalid_type_change in
  let menu :=
    match target_type with
    | mir_window_type_menu | mir_window_type_satellite => unchanged
    | _ => Throw invalid_type_change
    end in
  match original_type with
  | mir_window_type_normal | mir_window_type_utility | mir_window_type_dialog
  | mir_window_type_satellite =>
      match target_type with
      | mir_window_type_normal | mir_window_type_utility | mir_window_type_dialog
      | mir_window_type_satellite => menu
      | _ => Throw invalid_type_change
      end
  | mir_window_type_menu => menu
  | mir_window_type_gloss | mir_window_type_freestyle | mir_window_type_inputmethod
  | mir_window_type_tip | mir_window_type_decoration => unchanged
  end.

(** The parent the window will have. *)
Definition target_parent (modifications : WindowSpecification) (window_info : WindowInfo) : option Window :=
  match sp_parent modifications with Some p => p | None => wi_parent window_info end.

Definition validate_parent (target_type : MirWindowType) (parent : option Window) : outcome unit :=
  match target_type with
  | mir_window_type_normal | mir_window_type_utility =>
      if bool_decide (parent <> None)
      then Throw (runtime_error "Window type must not have a parent") else Ret tt
  | mir_window_type_satellite | mir_window_type_gloss | mir_window_type_tip =>
      if bool_decide (parent = None)
      then Throw (runtime_error "Window type must have a parent") else Ret tt
  | mir_window_type_inputmethod | mir_window_type_dialog | mir_window_type_menu
  | mir_window_type_freestyle | mir_window_type_decoration => Ret tt
  end.

Definition validate_size (size : option Size) : outcome unit :=
  match size with
  | Some s =>
      if width s <=? 0 then Throw (runtime_error "width must be positive")
      else if height s <=? 0 then Throw (runtime_error "height must be positive")
      else Ret tt
  | None => Ret tt
  end.

Definition validate_modification_request (modifications : WindowSpecification) (window_info : WindowInfo)
  : outcome unit :=
  target_type ←
    match sp_type modifications with
    | Some target_type =>
        _ ← validate_type_change (wi_type window_info) target_type;
        Ret target_type
    | None => Ret (wi_type window_info)
    end;
  _ ← validate_parent target_type (target_parent modifications window_info);
  validate_size (sp_size modifications).

(** The type changes that get through the switch. *)
Lemma validate_type_change_iff t t' :
  validate_type_change t t' = Ret tt <->
  t' = t /\ t <> mir_window_type_normal /\ t <> mir_window_type_utility /\ t <> mir_window_type_dialog.
Proof. destruct t, t'; split; (naive_solver || (intros H; cbn in H; naive_solver)). Qed.

Definition wants_no_parent (t : MirWindowType) : Prop := must_not_have_parent t = true.
Definition wants_parent (t : MirWindowType) : Prop :=
  must_have_parent t = true /\ t <> mir_window_type_inputmethod.

Lemma validate_parent_iff t parent :
  validate_parent t parent = Ret tt <->
  (wants_no_parent t -> parent = None) /\ (wants_parent t -> parent <> None).
Proof. unfold wants_no_parent, wants_parent. destruct t, parent; cbn; naive_solver. Qed.

Lemma validate_size_iff o :
  validate_size o = Ret tt <-> forall s, o = Some s -> 0 < width s /\ 0 < height s.
Proof.
  destruct o as [s|]; cbn; [|naive_solver]. repeat case_if; breflect; split; try done.
  - intros H. specialize (H s eq_refl). lia.
  - intros H. specialize (H s eq_refl). lia.
  - intros _ s' [= <-]. lia.
Qed.

(** a request to modify a window is accepted exactly when it leaves the
    type alone (or repeats it, for a type other than normal, utility and
    dialog), when the type and the presence of a parent agree and when a
    requested size is positive in both dimensions. *)
Theorem validate_modification_request_iff (m : WindowSpecification) (i : WindowInfo) :
  validate_modification_request m i = Ret tt <->
  (forall t, sp_type m = Some t ->
     t = wi_type i /\ t <> mir_window_type_normal /\ t <> mir_window_type_utility /\ t <> mir_window_type_dialog) /\
  (wants_no_parent (wi_type i) -> target_parent m i = None) /\
  (wants_parent (wi_type i) -> target_parent m i <> None) /\
  (forall s, sp_size m = Some s -> 0 < width s /\ 0 < height s).
Proof.
  unfold validate_modification_request.
  assert (Hrest : forall t,
    (_ ← validate_parent t (target_parent m i); validate_size (sp_size m)) = Ret tt <->
    (wants_no_parent t -> target_parent m i = None) /\ (wants_parent t -> target_parent m i <> None) /\
    (forall s, sp_size m = Some s -> 0 < width s /\ 0 < height s)).
  { intros t. rewrite outcome_bind_Ret, <-validate_size_iff.
    split; [intros ([] & Hp & Hs); apply validate_parent_iff in Hp; naive_solver|].
    intros (? & ? & ?). exists tt. by rewrite validate_parent_iff. }
  destruct (sp_type m) as [t|]; [|cbn; rewrite Hrest; naive_solver].
  destruct (validate_type_change (wi_type i) t) as [[]|e] eqn:E; cbn.
  - rewrite Hrest. apply validate_type_change_iff in E as (-> & Ht). naive_solver.
  - split; [done|]. intros [Ht _]. destruct (Ht t eq_refl) as [-> Hn].
    by rewrite (proj2 (validate_type_change_iff _ _) (conj eq_refl Hn)) in E.
Qed.

(** The changes of type that [can_morph_to] allows are refused by the
    validation, except that a satellite may be asked to stay a satellite. *)
Theorem morphing_is_refused (t t' : MirWindowType) (m : WindowSpecification) (i : WindowInfo) :
  wi_type i = t -> sp_type m = Some t' -> can_morph_to t t' = true ->
  (t = mir_window_type_satellite /\ t' = mir_window_type_satellite) \/
  validate_modification_request m i = Throw invalid_type_change.
Proof.
  intros <- Ht Hm. unfold validate_modification_request. rewrite Ht.
  destruct (wi_type i), t'; cbn in *; try done; auto.
Qed.

Definition example_morph : WindowSpecification :=
  spec_empty <| sp_type := Some mir_window_type_utility |>.

Lemma morphing_is_refused_witness :
  can_morph_to mir_window_type_normal mir_window_type_utility = true /\
  validate_modification_request example_morph example_info = Throw invalid_type_change.
Proof.
  split; [reflexivity|].
  destruct (morphing_is_refused mir_window_type_normal mir_window_type_utility
    example_morph example_info eq_refl eq_refl eq_refl) as [[H _]|H]; [discriminate H|exact H].
Defined.
