(* ===== verification/Surface.v ===== *)
(** * mir::scene::BasicSurface

    The surface of the scene that a window is made of
    ([src/server/scene/basic_surface.cpp]): its rectangle, margins, input
    area, attributes and content.  A surface shares its buffer streams with
    other owners: the streams live in a store of their own, and a layer of the
    surface refers to one.  Every operation runs under the surface's lock; the
    notifications it sends to its observers are part of its result. *)
From S2P Require Import Prelude Geometry InputEvents Schedule BufferStream WindowInfo Occlusion.

(** ** Data *)
Inductive MirWindowAttrib :=
| mir_window_attrib_type
| mir_window_attrib_state
| mir_window_attrib_swapinterval
| mir_window_attrib_focus
| mir_window_attrib_dpi
| mir_window_attrib_visibility
| mir_window_attrib_preferred_orientation.

Inductive MirWindowFocusState := mir_window_focus_state_unfocused | mir_window_focus_state_focused.
Inductive MirWindowVisibility := mir_window_visibility_occluded | mir_window_visibility_exposed.

#[export] Instance MirWindowAttrib_eq_dec : EqDecision MirWindowAttrib.
Proof. solve_decision. Defined.
#[export] Instance MirWindowFocusState_eq_dec : EqDecision MirWindowFocusState.
Proof. solve_decision. Defined.
#[export] Instance MirWindowVisibility_eq_dec : EqDecision MirWindowVisibility.
Proof. solve_decision. Defined.

(** The values of the enumerations as the [int] that [configure] takes. *)
Definition window_types : list MirWindowType :=
  [mir_window_type_normal; mir_window_type_utility; mir_window_type_dialog; mir_window_type_gloss;
   mir_window_type_freestyle; mir_window_type_menu; mir_window_type_inputmethod;
   mir_window_type_satellite; mir_window_type_tip; mir_window_type_decoration].
Definition window_states : list MirWindowState :=
  [mir_window_state_unknown; mir_window_state_restored; mir_window_state_minimized;
   mir_window_state_maximized; mir_window_state_vertmaximized; mir_window_state_fullscreen;
   mir_window_state_horizmaximized; mir_window_state_hidden; mir_window_state_attached].
Definition focus_states : list MirWindowFocusState :=
  [mir_window_focus_state_unfocused; mir_window_focus_state_focused].
Definition visibilities : list MirWindowVisibility :=
  [mir_window_visibility_occluded; mir_window_visibility_exposed].

(** The enumerator of an [int], when it is in range. *)
Definition enum_of {A} (values : list A) (v : Z) : option A :=
  if 0 <=? v then values !! Z.to_nat v else None.
Fixpoint enum_index {A} `{EqDecision A} (values : list A) (a : A) : Z :=
  match values with
  | [] => 0
  | x :: rest => if decide (x = a) then 0 else 1 + enum_index rest a
  end.

(** [ms::StreamInfo] *)
Record StreamInfo := mkStreamInfo {
  info_stream : Z;
  info_displacement : Displacement;
  info_size : option Size
}.

Record Margins := mkMargins { m_top : Z; m_left : Z; m_bottom : Z; m_right : Z }.
#[export] Instance Margins_eq_dec : EqDecision Margins.
Proof. solve_decision. Defined.

Record Surface := mkSurface {
  sf_name : string;
  sf_rect : Rectangle;
  sf_transformation : Z;        (* the matrix, an opaque value *)
  sf_alpha : float32;
  sf_hidden : bool;
  sf_input_mode : Z;
  sf_input_rectangles : list Rectangle;
  sf_layers : list StreamInfo;
  sf_type : MirWindowType;
  sf_state : MirWindowState;
  sf_swapinterval : Z;
  sf_focus : MirWindowFocusState;
  sf_dpi : Z;
  sf_visibility : MirWindowVisibility;
  sf_orientation_mode : Z;
  sf_confine_pointer : Z;
  sf_depth_layer : MirDepthLayer;
  sf_clip_area : option Rectangle;
  sf_application_id : string;
  sf_session : Z;
  sf_margins : Margins
}.

#[export] Instance Surface_eta : EtaExpansion Surface := fun s =>
  mkSurface (sf_name s) (sf_rect s) (sf_transformation s) (sf_alpha s) (sf_hidden s) (sf_input_mode s)
    (sf_input_rectangles s) (sf_layers s) (sf_type s) (sf_state s) (sf_swapinterval s) (sf_focus s)
    (sf_dpi s) (sf_visibility s) (sf_orientation_mode s) (sf_confine_pointer s) (sf_depth_layer s)
    (sf_clip_area s) (sf_application_id s) (sf_session s) (sf_margins s).

(** What the observers are told. *)
Inductive SurfaceEvent :=
| moved_to (p : Point)
| hidden_set_to (hide : bool)
| window_resized_to (s : Size)
| content_resized_to (s : Size)
| alpha_set_to (a : float32)
| transformation_set_to (t : Z)
| reception_mode_set_to (mode : Z)
| attrib_changed (attrib : MirWindowAttrib) (v : Z)
| renamed (title : string)
| depth_layer_set_to (layer : MirDepthLayer)
| application_id_set_to (id : string).

(** The streams of the process by their identity. *)
Abbreviation Streams := (gmap Z Stream).

(** The constructor; a surface without content is refused. *)
Definition surface_init (name : string) (rect : Rectangle) (confine : Z) (layers : list StreamInfo)
    (session identity : Z) : outcome Surface :=
  match layers with
  | [] => Throw (logic_error "Surface must have content")
  | _ =>
      Ret (mkSurface name rect identity float_one false 0 [] layers mir_window_type_normal
             mir_window_state_restored 1 mir_window_focus_state_unfocused 0
             mir_window_visibility_occluded mir_orientation_mode_any confine
             mir_depth_layer_application None EmptyString session (mkMargins 0 0 0 0))
  end.

(** ** Geometry of a surface *)
Definition content_offset (s : Surface) : Displacement :=
  mkDisplacement (m_left (sf_margins s)) (m_top (sf_margins s)).

Definition content_size (s : Surface) : Size :=
  mkSize (Z.max (width (r_size (sf_rect s)) - m_left (sf_margins s) - m_right (sf_margins s)) 1)
         (Z.max (height (r_size (sf_rect s)) - m_top (sf_margins s) - m_bottom (sf_margins s)) 1).

Definition content_top_left (s : Surface) : Point :=
  point_add (top_left (sf_rect s)) (mkDisplacement (m_left (sf_margins s)) (m_top (sf_margins s))).

Definition input_bounds (s : Surface) : Rectangle := mkRectangle (content_top_left s) (content_size s).

Definition surface_move_to (s : Surface) (p : Point) : Surface * list SurfaceEvent :=
  (s <| sf_rect := mkRectangle p (r_size (sf_rect s)) |>, [moved_to p]).

Definition surface_resize (s : Surface) (desired : Size) : Surface * list SurfaceEvent :=
  let new_size := mkSize (if width desired <=? 0 then 1 else width desired)
                         (if height desired <=? 0 then 1 else height desired) in
  if bool_decide (new_size <> r_size (sf_rect s)) then
    let s' := s <| sf_rect := mkRectangle (top_left (sf_rect s)) new_size |> in
    (s', [window_resized_to new_size; content_resized_to (content_size s')])
  else (s, []).

Definition set_window_margins (s : Surface) (top left bottom right : Z) : Surface * list SurfaceEvent :=
  let m := mkMargins (Z.max top 0) (Z.max left 0) (Z.max bottom 0) (Z.max right 0) in
  if bool_decide (m <> sf_margins s) then
    let s' := s <| sf_margins := m |> in (s', [content_resized_to (content_size s')])
  else (s, []).

(** ** Visibility *)
Definition stream_posted (streams : Streams) (l : StreamInfo) : bool :=
  match streams !! info_stream l with Some st => has_submitted_buffer st | None => false end.

Definition surface_visible (streams : Streams) (s : Surface) : bool :=
  negb (sf_hidden s) && existsb (stream_posted streams) (sf_layers s).

Definition set_hidden (s : Surface) (hide : bool) : Surface * list SurfaceEvent :=
  (s <| sf_hidden := hide |>, [hidden_set_to hide]).
Definition hide (s : Surface) := set_hidden s true.
Definition show (s : Surface) := set_hidden s false.

Definition input_area_contains (streams : Streams) (s : Surface) (p : Point) : bool :=
  if negb (surface_visible streams s) then false
  else if match sf_clip_area s with Some c => negb (contains_point c p) | None => false end then false
  else
    match sf_input_rectangles s with
    | [] => contains_point (mkRectangle (content_top_left s) (content_size s)) p
    | rects =>
        let d := point_diff p (content_top_left s) in
        existsb (fun r => contains_point r (mkPoint (dx d) (dy d))) rects
    end.

(** The renderables of the layers that have content; [has_alpha] is
    [mg::contains_alpha] of a pixel format. *)
Definition generate_renderables (has_alpha : Z -> bool) (streams : Streams) (s : Surface)
  : list (Z * Renderable (mat4 := Z)) :=
  if match sf_clip_area s with Some c => negb (overlaps (sf_rect s) c) | None => false end then []
  else
    omap (fun l =>
      match streams !! info_stream l with
      | Some st =>
          if has_submitted_buffer st then
            let size := match info_size l with Some z => z | None => stream_size st end in
            Some (info_stream l,
                  mkRenderable (sf_transformation s)
                    (mkRectangle (point_add (content_top_left s) (info_displacement l)) size)
                    (sf_alpha s) (has_alpha (pixel_format st)) (sf_clip_area s))
          else None
      | None => None
      end) (sf_layers s).

Definition surface_buffers_ready (streams : Streams) (s : Surface) (id : CompositorID) : Z :=
  foldl (fun max_buf l =>
    Z.max max_buf (match streams !! info_stream l with
                   | Some st => buffers_ready_for_compositor st id
                   | None => 0
                   end)) 0 (sf_layers s).

(** ** Plain setters *)
Definition set_alpha (s : Surface) (a : float32) : Surface * list SurfaceEvent :=
  (s <| sf_alpha := a |>, [alpha_set_to a]).
Definition set_transformation (s : Surface) (t : Z) : Surface * list SurfaceEvent :=
  (s <| sf_transformation := t |>, [transformation_set_to t]).
Definition set_reception_mode (s : Surface) (mode : Z) : Surface * list SurfaceEvent :=
  (s <| sf_input_mode := mode |>, [reception_mode_set_to mode]).
Definition set_input_region (s : Surface) (rects : list Rectangle) : Surface * list SurfaceEvent :=
  (s <| sf_input_rectangles := rects |>, []).
Definition set_depth_layer (s : Surface) (l : MirDepthLayer) : Surface * list SurfaceEvent :=
  (s <| sf_depth_layer := l |>, [depth_layer_set_to l]).
Definition set_clip_area (s : Surface) (a : option Rectangle) : Surface * list SurfaceEvent :=
  (s <| sf_clip_area := a |>, []).
Definition set_confine_pointer_state (s : Surface) (c : Z) : Surface * list SurfaceEvent :=
  (s <| sf_confine_pointer := c |>, []).
Definition surface_rename (s : Surface) (title : string) : Surface * list SurfaceEvent :=
  if bool_decide (sf_name s <> title) then (s <| sf_name := title |>, [renamed title]) else (s, []).
Definition set_application_id (s : Surface) (id : string) : Surface * list SurfaceEvent :=
  if bool_decide (sf_application_id s <> id)
  then (s <| sf_application_id := id |>, [application_id_set_to id]) else (s, []).
Definition set_streams (s : Surface) (layers : list StreamInfo) : Surface * list SurfaceEvent :=
  (s <| sf_layers := layers |>, [moved_to (top_left (sf_rect s))]).

(** ** Attributes *)
(** Run an operation of every layer's stream. *)
Fixpoint for_each_stream (f : Stream -> outcome Stream) (layers : list StreamInfo) (streams : Streams)
  : outcome Streams :=
  match layers with
  | [] => Ret streams
  | l :: rest =>
      match streams !! info_stream l with
      | Some st =>
          st' ← f st;
          for_each_stream f rest (<[info_stream l := st']> streams)
      | None => for_each_stream f rest streams
      end
  end.

(** The surface, the streams and the notifications after a successful call. *)
Abbreviation attrib_result := (Surface * Streams * list SurfaceEvent)%type.

Definition set_type (s : Surface) (streams : Streams) (v : Z) : outcome attrib_result :=
  match enum_of window_types v with
  | None => Throw (logic_error "Invalid surface type.")
  | Some t =>
      if bool_decide (sf_type s <> t)
      then Ret (s <| sf_type := t |>, streams, [attrib_changed mir_window_attrib_type v])
      else Ret (s, streams, [])
  end.

Definition surface_set_state (s : Surface) (streams : Streams) (v : Z) : outcome attrib_result :=
  match enum_of window_states v with
  | None => Throw (logic_error "Invalid surface state.")
  | Some t =>
      if bool_decide (sf_state s <> t)
      then Ret (s <| sf_state := t |>, streams, [attrib_changed mir_window_attrib_state v])
      else Ret (s, streams, [])
  end.

Definition set_swap_interval (s : Surface) (streams : Streams) (interval : Z) : outcome attrib_result :=
  if interval <? 0 then Throw (logic_error "Invalid swapinterval")
  else if bool_decide (sf_swapinterval s <> interval) then
    let s' := s <| sf_swapinterval := interval |> in
    streams' ← for_each_stream (fun st => allow_framedropping st (interval =? 0)) (sf_layers s') streams;
    Ret (s', streams', [attrib_changed mir_window_attrib_swapinterval interval])
  else Ret (s, streams, []).

Definition set_preferred_orientation (s : Surface) (streams : Streams) (mode : Z) : outcome attrib_result :=
  if Z.land mode mir_orientation_mode_any =? 0 then Throw (logic_error "Invalid orientation mode")
  else if bool_decide (sf_orientation_mode s <> mode)
  then Ret (s <| sf_orientation_mode := mode |>, streams,
            [attrib_changed mir_window_attrib_preferred_orientation mode])
  else Ret (s, streams, []).

Definition set_dpi (s : Surface) (streams : Streams) (dpi : Z) : outcome attrib_result :=
  if dpi <? 0 then Throw (logic_error "Invalid DPI value")
  else if bool_decide (sf_dpi s <> dpi)
  then Ret (s <| sf_dpi := dpi |>, streams, [attrib_changed mir_window_attrib_dpi dpi])
  else Ret (s, streams, []).

Definition set_focus_state (s : Surface) (streams : Streams) (v : Z) : outcome attrib_result :=
  match enum_of focus_states v with
  | None => Throw (logic_error "Invalid focus state.")
  | Some f =>
      if bool_decide (sf_focus s <> f)
      then Ret (s <| sf_focus := f |>, streams, [attrib_changed mir_window_attrib_focus v])
      else Ret (s, streams, [])
  end.

Definition set_visibility (s : Surface) (streams : Streams) (v : Z) : outcome attrib_result :=
  match enum_of visibilities v with
  | None => Throw (logic_error "Invalid visibility value")
  | Some vis =>
      if bool_decide (sf_visibility s <> vis) then
        let s' := s <| sf_visibility := vis |> in
        streams' ← (if bool_decide (vis = mir_window_visibility_exposed)
                    then for_each_stream drop_old_buffers (sf_layers s') streams
                    else Ret streams);
        Ret (s', streams', [attrib_changed mir_window_attrib_visibility v])
      else Ret (s, streams, [])
  end.

Definition configure (s : Surface) (streams : Streams) (attrib : MirWindowAttrib) (v : Z)
  : outcome (Z * attrib_result) :=
  r ← match attrib with
      | mir_window_attrib_type => set_type s streams v
      | mir_window_attrib_state => surface_set_state s streams v
      | mir_window_attrib_focus => set_focus_state s streams v
      | mir_window_attrib_swapinterval => set_swap_interval s streams v
      | mir_window_attrib_dpi => set_dpi s streams v
      | mir_window_attrib_visibility => set_visibility s streams v
      | mir_window_attrib_preferred_orientation => set_preferred_orientation s streams v
      end;
  Ret (v, r).

Definition query (s : Surface) (attrib : MirWindowAttrib) : Z :=
  match attrib with
  | mir_window_attrib_type => enum_index window_types (sf_type s)
  | mir_window_attrib_state => enum_index window_states (sf_state s)
  | mir_window_attrib_swapinterval => sf_swapinterval s
  | mir_window_attrib_focus => enum_index focus_states (sf_focus s)
  | mir_window_attrib_dpi => sf_dpi s
  | mir_window_attrib_visibility => enum_index visibilities (sf_visibility s)
  | mir_window_attrib_preferred_orientation => sf_orientation_mode s
  end.

(** ** Attributes behave like variables *)
Definition valid_attrib (attrib : MirWindowAttrib) (v : Z) : Prop :=
  match attrib with
  | mir_window_attrib_type => 0 <= v < 10
  | mir_window_attrib_state => 0 <= v < 9
  | mir_window_attrib_focus | mir_window_attrib_visibility => 0 <= v < 2
  | mir_window_attrib_swapinterval | mir_window_attrib_dpi => 0 <= v
  | mir_window_attrib_preferred_orientation => Z.land v mir_orientation_mode_any <> 0
  end.
#[export] Instance valid_attrib_dec a v : Decision (valid_attrib a v).
Proof. destruct a; cbn; apply _. Defined.

Definition streams_wf (streams : Streams) : Prop := map_Forall (fun _ st => stream_wf st) streams.

Lemma enum_of_None {A} (values : list A) v :
  enum_of values v = None <-> ~ (0 <= v < Z.of_nat (length values)).
Proof.
  unfold enum_of. case_if; breflect; [|split; [lia|done]]. rewrite lookup_ge_None. lia.
Qed.

Lemma enum_index_of {A} `{EqDecision A} (values : list A) v a :
  NoDup values -> enum_of values v = Some a -> enum_index values a = v.
Proof.
  unfold enum_of. case_if; [|done]. breflect. intros Hn Hl.
  rewrite <-(Z2Nat.id v) by done. revert Hl. generalize (Z.to_nat v). clear v E.
  induction Hn as [|x l Hx Hn IH]; intros n Hl; [done|]. cbn. destruct n as [|n]; cbn in Hl.
  - injection Hl as ->. by rewrite decide_True.
  - rewrite decide_False; [rewrite (IH n Hl); lia|]. intros ->. apply Hx. by eapply list_elem_of_lookup_2.
Qed.

Lemma for_each_stream_wf f layers streams :
  (forall st, stream_wf st -> exists st', f st = Ret st' /\ stream_wf st') ->
  streams_wf streams -> exists streams', for_each_stream f layers streams = Ret streams' /\ streams_wf streams'.
Proof.
  intros Hf. revert streams. induction layers as [|l layers IH]; intros streams Hs; cbn; [eauto|].
  destruct (streams !! info_stream l) as [st|] eqn:El; [|by apply IH].
  destruct (Hf st) as (st' & -> & Hst'); [by eapply Hs|]. cbn. apply IH. by apply map_Forall_insert_2.
Qed.

Lemma allow_framedropping_wf b st : stream_wf st -> exists st', allow_framedropping st b = Ret st' /\ stream_wf st'.
Proof.
  intros Hst. pose proof (stream_step_simulates st (AllowDropping b) Hst) as Hs. unfold simulates, stream_step in Hs.
  destruct (allow_framedropping st b) as [st'|]; cbn in Hs; [exists st'; by destruct Hs|]. by destruct b.
Qed.

Lemma drop_old_buffers_wf st : stream_wf st -> exists st', drop_old_buffers st = Ret st' /\ stream_wf st'.
Proof.
  intros Hst. pose proof (stream_step_simulates st DropOld Hst) as Hs. unfold simulates, stream_step in Hs.
  destruct (drop_old_buffers st) as [st'|]; cbn in Hs; [exists st'; by destruct Hs|done].
Qed.

(** What a successful [configure] promises. *)
Definition configured (s : Surface) (attrib : MirWindowAttrib) (v : Z)
    (r : outcome (Z * attrib_result)) : Prop :=
  exists s' streams' events, r = Ret (v, (s', streams', events)) /\
    query s' attrib = v /\ (forall a, a <> attrib -> query s' a = query s a) /\
    events = (if query s attrib =? v then [] else [attrib_changed attrib v]) /\
    streams_wf streams'.

(** Close the proof of [configured] for an attribute, given its new value. *)
Ltac configured_solve :=
  do 3 eexists; split; [reflexivity|]; split; [reflexivity|]; split; [by intros []|];
  split; [|done]; cbn [query]; try done.

Lemma configure_enum s streams attrib v :
  streams_wf streams -> valid_attrib attrib v ->
  attrib = mir_window_attrib_type \/ attrib = mir_window_attrib_state \/ attrib = mir_window_attrib_focus ->
  configured s attrib v (configure s streams attrib v).
Proof.
  intros Hs Hv Ha. unfold configure.
  destruct Ha as [->|[->| ->]]; cbn [valid_attrib] in Hv;
    [unfold set_type; destruct (enum_of window_types v) as [t|] eqn:E
    |unfold surface_set_state; destruct (enum_of window_states v) as [t|] eqn:E
    |unfold set_focus_state; destruct (enum_of focus_states v) as [t|] eqn:E];
    try (apply enum_of_None in E; cbn in E; lia);
    (apply enum_index_of in E; [|apply (bool_decide_unpack _); reflexivity]); subst v;
    (case_bool_decide as Hne; [|subst t]); configured_solve; rewrite ?Z.eqb_refl; try done;
    match goal with |- context [enum_index _ (?f s)] => destruct (f s), t end;
    (reflexivity || (exfalso; by apply Hne)).
Qed.

Lemma configure_visibility_case s streams v :
  streams_wf streams -> 0 <= v < 2 ->
  configured s mir_window_attrib_visibility v (configure s streams mir_window_attrib_visibility v).
Proof.
  intros Hs Hv. unfold configure, set_visibility.
  destruct (enum_of visibilities v) as [t|] eqn:E; [|apply enum_of_None in E; cbn in E; lia].
  apply enum_index_of in E; [|apply (bool_decide_unpack _); reflexivity]. subst v.
  case_bool_decide as Hne; [|subst t; configured_solve; by rewrite Z.eqb_refl].
  destruct (for_each_stream_wf drop_old_buffers (sf_layers s) streams drop_old_buffers_wf Hs) as (streams' & Hstr & Hs').
  cbn. rewrite Hstr. case_bool_decide; cbn; configured_solve;
    destruct (sf_visibility s), t; (reflexivity || (exfalso; by apply Hne)).
Qed.

Lemma configure_number s streams attrib v :
  streams_wf streams -> valid_attrib attrib v ->
  attrib = mir_window_attrib_swapinterval \/ attrib = mir_window_attrib_dpi \/
    attrib = mir_window_attrib_preferred_orientation ->
  configured s attrib v (configure s streams attrib v).
Proof.
  intros Hs Hv Ha. unfold configure.
  destruct Ha as [->|[->| ->]]; cbn [valid_attrib] in Hv;
    [unfold set_swap_interval|unfold set_dpi|unfold set_preferred_orientation].
  - rewrite (proj2 (Z.ltb_ge v 0)) by done.
    destruct (for_each_stream_wf (fun st => allow_framedropping st (v =? 0)) (sf_layers s) streams
                (allow_framedropping_wf _) Hs) as (streams' & Hstr & Hs').
    case_bool_decide as Hne; cbn; rewrite ?Hstr; cbn; [|subst v]; configured_solve.
    + by rewrite (proj2 (Z.eqb_neq _ _)).
    + by rewrite Z.eqb_refl.
  - rewrite (proj2 (Z.ltb_ge v 0)) by done.
    case_bool_decide as Hne; [|subst v]; configured_solve; rewrite ?Z.eqb_refl; [|done].
    by rewrite (proj2 (Z.eqb_neq _ _)).
  - rewrite (proj2 (Z.eqb_neq (Z.land _ _) 0)) by done.
    case_bool_decide as Hne; [|subst v]; configured_solve; rewrite ?Z.eqb_refl; [|done].
    by rewrite (proj2 (Z.eqb_neq _ _)).
Qed.

Lemma configure_spec (s : Surface) (streams : Streams) (attrib : MirWindowAttrib) (v : Z) :
  streams_wf streams ->
  if bool_decide (valid_attrib attrib v)
  then configured s attrib v (configure s streams attrib v)
  else exists what, configure s streams attrib v = Throw (logic_error what).
Proof.
  intros Hs. case_bool_decide as Hv.
  - destruct attrib; try (by apply configure_enum; auto); try (by apply configure_number; auto).
    by apply configure_visibility_case.
  - unfold configure. destruct attrib; cbn [valid_attrib] in Hv;
      [unfold set_type|unfold surface_set_state|unfold set_swap_interval|unfold set_focus_state|unfold set_dpi
      |unfold set_visibility|unfold set_preferred_orientation];
      (rewrite (proj2 (enum_of_None _ v)) by done) || (rewrite (proj2 (Z.ltb_lt v 0)) by lia)
      || (rewrite (proj2 (Z.eqb_eq (Z.land v _) 0)) by (by apply dec_stable));
      eexists; reflexivity.
Qed.

Lemma configure_visibility_configured s streams (vis : MirWindowVisibility) :
  streams_wf streams ->
  configured s mir_window_attrib_visibility (enum_index visibilities vis)
    (configure s streams mir_window_attrib_visibility (enum_index visibilities vis)).
Proof. intros Hs. apply configure_visibility_case; [done|]. destruct vis; vm_compute; split; congruence. Qed.

(** The attributes of a surface behave like independent variables with a
    range: [configure] with a value in range returns that value, afterwards
    [query] gives it and every other attribute is as before, and the observers
    are told exactly when the value changed; a value out of range is refused
    with an exception. *)
Theorem configure_query (s : Surface) (streams : Streams) (attrib : MirWindowAttrib) (v : Z) :
  streams_wf streams ->
  if bool_decide (valid_attrib attrib v)
  then configured s attrib v (configure s streams attrib v)
  else exists what, configure s streams attrib v = Throw (logic_error what).
Proof. apply configure_spec. Qed.

Definition example_surface : Surface :=
  mkSurface "term" (mkRectangle (mkPoint 10 20) (mkSize 100 80)) 0 float_one false 0 []
    [mkStreamInfo 5 (mkDisplacement 0 0) None] mir_window_type_normal mir_window_state_restored 1
    mir_window_focus_state_unfocused 0 mir_window_visibility_occluded mir_orientation_mode_any 0
    mir_depth_layer_application None EmptyString 1 (mkMargins 0 0 0 0).
Definition example_streams : Streams := {[5 := stream_init (mkSize 100 80) 1]}.

Lemma configure_query_witness :
  configured example_surface mir_window_attrib_state 3
    (configure example_surface example_streams mir_window_attrib_state 3).
Proof.
  apply (configure_query example_surface example_streams mir_window_attrib_state 3).
  apply map_Forall_singleton, stream_init_wf.
Defined.

(** ** Invariant *)
Inductive surface_op :=
| OpMoveTo (p : Point) | OpResize (s : Size) | OpMargins (top left bottom right : Z)
| OpHide | OpShow | OpAlpha (a : float32) | OpTransformation (t : Z) | OpReceptionMode (m : Z)
| OpInputRegion (rs : list Rectangle) | OpDepthLayer (l : MirDepthLayer) | OpClipArea (a : option Rectangle)
| OpConfine (c : Z) | OpRename (n : string) | OpApplicationId (n : string) | OpStreams (l : list StreamInfo)
| OpConfigure (attrib : MirWindowAttrib) (v : Z).

Definition surface_step (s : Surface) (streams : Streams) (o : surface_op) : outcome attrib_result :=
  let keep (r : Surface * list SurfaceEvent) := Ret (fst r, streams, snd r) in
  match o with
  | OpMoveTo p => keep (surface_move_to s p)
  | OpResize z => keep (surface_resize s z)
  | OpMargins t l b r => keep (set_window_margins s t l b r)
  | OpHide => keep (hide s)
  | OpShow => keep (show s)
  | OpAlpha a => keep (set_alpha s a)
  | OpTransformation t => keep (set_transformation s t)
  | OpReceptionMode m => keep (set_reception_mode s m)
  | OpInputRegion rs => keep (set_input_region s rs)
  | OpDepthLayer l => keep (set_depth_layer s l)
  | OpClipArea a => keep (set_clip_area s a)
  | OpConfine c => keep (set_confine_pointer_state s c)
  | OpRename n => keep (surface_rename s n)
  | OpApplicationId n => keep (set_application_id s n)
  | OpStreams l => keep (set_streams s l)
  | OpConfigure a v => '(_, r) ← configure s streams a v; Ret r
  end.

Record surface_ok (s : Surface) : Prop := {
  ok_width : 1 <= width (r_size (sf_rect s));
  ok_height : 1 <= height (r_size (sf_rect s));
  ok_margins : 0 <= m_top (sf_margins s) /\ 0 <= m_left (sf_margins s) /\
               0 <= m_bottom (sf_margins s) /\ 0 <= m_right (sf_margins s);
  ok_attribs : forall a, valid_attrib a (query s a)
}.

Lemma enum_index_range {A} `{EqDecision A} (values : list A) a :
  a ∈ values -> 0 <= enum_index values a < Z.of_nat (length values).
Proof.
  induction values as [|x l IH]; intros Ha; [by apply not_elem_of_nil in Ha|]. cbn -[Z.of_nat].
  case_decide; [lia|]. apply elem_of_cons in Ha as [?|Ha]; [congruence|]. specialize (IH Ha). lia.
Qed.

(** An operation that keeps the attributes, the margins and the size. *)
Lemma surface_ok_same s s' :
  surface_ok s -> r_size (sf_rect s') = r_size (sf_rect s) -> sf_margins s' = sf_margins s ->
  (forall a, query s' a = query s a) -> surface_ok s'.
Proof.
  intros [Hw Hh Hm Ha] Hr Hmar Hq. split; rewrite ?Hr, ?Hmar; try done. intros a. rewrite Hq. apply Ha.
Qed.

Lemma configure_keeps s streams a v r s' streams' ev :
  configure s streams a v = Ret (r, (s', streams', ev)) ->
  sf_rect s' = sf_rect s /\ sf_margins s' = sf_margins s /\ sf_depth_layer s' = sf_depth_layer s.
Proof.
  unfold configure. intros H. apply outcome_bind_Ret in H as ([[s1 str1] ev1] & H & [= <- <- <- <-]).
  destruct a; cbn in H; unfold set_type, surface_set_state, set_swap_interval, set_focus_state, set_dpi,
    set_visibility, set_preferred_orientation in H;
    repeat match type of H with
    | context [match ?x with _ => _ end] =>
        lazymatch type of x with
        | outcome _ => apply outcome_bind_Ret in H as (? & _ & H)
        | _ => destruct x
        end
    end; try done; try (apply outcome_bind_Ret in H as (? & _ & H)); by injection H as <- <- <-.
Qed.

Lemma configure_ok s streams a v r s' streams' ev :
  surface_ok s -> streams_wf streams -> configure s streams a v = Ret (r, (s', streams', ev)) ->
  surface_ok s' /\ streams_wf streams' /\ (forall z, content_resized_to z ∈ ev -> z = content_size s').
Proof.
  intros Hok Hs Hc. destruct (configure_keeps _ _ _ _ _ _ _ _ Hc) as (Hr & Hm & _).
  assert (Hq : if bool_decide (valid_attrib a v) then configured s a v (configure s streams a v)
               else exists what, configure s streams a v = Throw (logic_error what)).
  { apply configure_spec. done. }
  case_bool_decide as Hv; [|destruct Hq; congruence].
  destruct Hq as (s1 & str1 & ev1 & E & Hqa & Hqo & Hev & Hwf). rewrite Hc in E. injection E as -> <- <- <-.
  split; [|split; [done|]].
  - destruct Hok as [? ? ? Ha]. split; rewrite ?Hr, ?Hm; try done. intros b.
    destruct (decide (b = a)) as [->|Hne]; [by rewrite Hqa|]. rewrite Hqo by done. apply Ha.
  - intros z Hz. rewrite Hev in Hz. destruct (query s a =? v); [by apply not_elem_of_nil in Hz|].
    by apply list_elem_of_singleton in Hz.
Qed.

Lemma surface_resize_ok s z :
  surface_ok s -> surface_ok (fst (surface_resize s z)) /\
  (forall c, content_resized_to c ∈ snd (surface_resize s z) -> c = content_size (fst (surface_resize s z))).
Proof.
  intros [? ? ? Ha]. unfold surface_resize. case_bool_decide; cbn [fst snd]; [|split; [by split|set_solver]].
  split; [|set_solver]. split; cbn; try done; case_if; breflect; lia.
Qed.

Lemma set_window_margins_ok s t l b r :
  surface_ok s -> surface_ok (fst (set_window_margins s t l b r)) /\
  (forall c, content_resized_to c ∈ snd (set_window_margins s t l b r) ->
             c = content_size (fst (set_window_margins s t l b r))).
Proof.
  intros [? ? ? Ha]. unfold set_window_margins. case_bool_decide; cbn [fst snd]; [|split; [by split|set_solver]].
  split; [|set_solver]. split; cbn; try done. lia.
Qed.

Lemma surface_step_ok s streams o s' streams' events :
  surface_ok s -> streams_wf streams -> surface_step s streams o = Ret (s', streams', events) ->
  surface_ok s' /\ streams_wf streams' /\ (forall z, content_resized_to z ∈ events -> z = content_size s').
Proof.
  intros Hok Hs Hstep.
  assert (Hkeep : forall s1 ev, surface_step s streams o = Ret (s1, streams, ev) ->
    surface_ok s1 -> (forall z, content_resized_to z ∈ ev -> z = content_size s1) ->
    surface_ok s' /\ streams_wf streams' /\ (forall z, content_resized_to z ∈ events -> z = content_size s')).
  { intros s1 ev E. rewrite Hstep in E. by injection E as <- <- <-. }
  destruct o; try (apply (Hkeep _ _ eq_refl); [by apply (surface_ok_same s)|set_solver]).
  - apply (Hkeep _ _ eq_refl); by apply surface_resize_ok.
  - apply (Hkeep _ _ eq_refl); by apply set_window_margins_ok.
  - apply (Hkeep _ _ eq_refl); unfold surface_rename; case_bool_decide; try set_solver; by apply (surface_ok_same s).
  - apply (Hkeep _ _ eq_refl); unfold set_application_id; case_bool_decide; try set_solver; by apply (surface_ok_same s).
  - cbn in Hstep. apply outcome_bind_Ret in Hstep as ([r0 [[s1 str1] ev1]] & Hc & [= <- <- <-]).
    by eapply configure_ok.
Qed.

(** C40: a surface that has a positive size, margins that are not negative and
    attributes in their ranges keeps them through every operation, and the
    content of the surface is never empty; when the margins leave room it is
    inside the window. *)
Theorem surface_invariant (s : Surface) (streams : Streams) (o : surface_op)
    (s' : Surface) (streams' : Streams) (events : list SurfaceEvent) :
  surface_ok s -> streams_wf streams -> surface_step s streams o = Ret (s', streams', events) ->
  surface_ok s' /\ streams_wf streams' /\ nonempty (input_bounds s') /\
  (m_left (sf_margins s') + m_right (sf_margins s') < width (r_size (sf_rect s')) ->
   m_top (sf_margins s') + m_bottom (sf_margins s') < height (r_size (sf_rect s')) ->
   contains (sf_rect s') (input_bounds s') = true) /\
  (forall z, content_resized_to z ∈ events -> z = content_size s').
Proof.
  intros Hok Hs Hstep.
  destruct (surface_step_ok _ _ _ _ _ _ Hok Hs Hstep) as (Hok' & Hs' & Hev).
  split; [done|]. split; [done|]. split; [|split; [|done]].
  - unfold input_bounds, content_size, nonempty. cbn. lia.
  - intros Hw Hh. apply contains_iff. destruct Hok' as [? ? (? & ? & ? & ?) _].
    unfold input_bounds, content_size, content_top_left. destruct (sf_rect s') as [[? ?] [? ?]]. geom. lia.
Qed.

Lemma surface_invariant_witness :
  surface_ok (fst (surface_resize example_surface (mkSize (-5) 300))) /\
  contains (mkRectangle (mkPoint 10 20) (mkSize 1 300))
    (input_bounds (fst (surface_resize example_surface (mkSize (-5) 300)))) = true.
Proof.
  assert (Hok : surface_ok example_surface).
  { split; [cbn; lia | cbn; lia | cbn; lia |]. intros []; apply (bool_decide_unpack _); reflexivity. }
  assert (Hs : streams_wf example_streams) by (apply map_Forall_singleton, stream_init_wf).
  destruct (surface_invariant example_surface example_streams (OpResize (mkSize (-5) 300)) _ _ _ Hok Hs eq_refl)
    as (H1 & _ & _ & H2 & _).
  split; [exact H1|]. apply H2; reflexivity.
Defined.
