(* ===== verification/SurfaceStack.v ===== *)
(** * mir::scene::SurfaceStack and mir::scene::RenderingTracker

    The stacking order of the surfaces ([src/server/scene/surface_stack.cpp]),
    which the input and compositing stages read, and the trackers that derive
    a surface's visibility from what the compositors report
    ([src/server/scene/rendering_tracker.cpp]).  The surfaces themselves are
    shared with their owners: they are in the store of the [World], and the
    stack holds their identities. *)
From stdpp Require Import sorting.
From S2P Require Import Prelude Geometry InputEvents BufferStream WindowInfo Occlusion Surface.

Definition mir_depth_layer_get_index (l : MirDepthLayer) : nat :=
  match l with
  | mir_depth_layer_background => 0
  | mir_depth_layer_below => 1
  | mir_depth_layer_application => 2
  | mir_depth_layer_always_on_top => 3
  | mir_depth_layer_above => 4
  | mir_depth_layer_overlay => 5
  end.

(** ** RenderingTracker *)
Record Tracker := mkTracker {
  occlusions : gset CompositorID;
  active_compositors_ : gset CompositorID
}.

Definition tracker_init : Tracker := mkTracker ∅ ∅.

(** The tracker with the surface it observes and the streams. *)
Abbreviation Tracked := (Tracker * Surface * Streams)%type.

Definition ensure_is_active_compositor (t : Tracker) (cid : CompositorID) : outcome unit :=
  if bool_decide (cid ∈ active_compositors_ t) then Ret tt
  else Throw (logic_error "No active compositor with supplied id").

Definition configure_visibility (t : Tracker) (s : Surface) (streams : Streams) (v : MirWindowVisibility)
  : outcome Tracked :=
  '(_, (s', streams', _)) ← configure s streams mir_window_attrib_visibility (enum_index visibilities v);
  Ret (t, s', streams').

Definition occluded_in_all_active_compositors (t : Tracker) : bool :=
  bool_decide (occlusions t = active_compositors_ t).

Definition rendered_in (t : Tracker) (s : Surface) (streams : Streams) (cid : CompositorID) : outcome Tracked :=
  _ ← ensure_is_active_compositor t cid;
  configure_visibility (mkTracker (occlusions t ∖ {[cid]}) (active_compositors_ t)) s streams
    mir_window_visibility_exposed.

Definition occluded_in (t : Tracker) (s : Surface) (streams : Streams) (cid : CompositorID) : outcome Tracked :=
  _ ← ensure_is_active_compositor t cid;
  let t' := mkTracker ({[cid]} ∪ occlusions t) (active_compositors_ t) in
  if occluded_in_all_active_compositors t'
  then configure_visibility t' s streams mir_window_visibility_occluded
  else Ret (t', s, streams).

Definition active_compositors (t : Tracker) (s : Surface) (streams : Streams) (cids : gset CompositorID)
  : outcome Tracked :=
  let t' := mkTracker (cids ∩ occlusions t) cids in
  if occluded_in_all_active_compositors t'
  then configure_visibility t' s streams mir_window_visibility_occluded
  else Ret (t', s, streams).

Definition is_exposed_in (t : Tracker) (cid : CompositorID) : outcome bool :=
  _ ← ensure_is_active_compositor t cid;
  if bool_decide (size (occlusions t) = 0%nat) then Ret true
  else Ret (negb (bool_decide (cid ∈ occlusions t))).

(** ** The stack *)
Inductive SceneEvent :=
| surface_added (id : Z)
| surface_removed (id : Z)
| surfaces_reordered
| scene_changed_event.

Record World := mkWorld {
  surfaces : gmap Z Surface;
  streams : Streams;
  surface_layers : list (list Z);
  rendering_trackers : gmap Z Tracker;
  registered_compositors : gset CompositorID;
  overlays : list Z;
  scene_changed : bool
}.
#[export] Instance World_eta : EtaExpansion World := fun w =>
  mkWorld (surfaces w) (streams w) (surface_layers w) (rendering_trackers w)
    (registered_compositors w) (overlays w) (scene_changed w).

Definition stack_init (surfaces : gmap Z Surface) (streams : Streams) : World :=
  mkWorld surfaces streams [] ∅ ∅ [] false.

(** [surface_layers.resize(depth_index + 1)] when the vector is too short, and
    [push_back] on the layer. *)
Definition insert_at_top (layers : list (list Z)) (depth_index : nat) (id : Z) : list (list Z) :=
  let layers := if Nat.leb (length layers) depth_index
                then layers ++ replicate (depth_index + 1 - length layers) [] else layers in
  alter (fun layer => layer ++ [id]) depth_index layers.

(** The depth of a surface of the store. *)
Definition depth_of (surfaces : gmap Z Surface) (id : Z) : nat :=
  match surfaces !! id with Some s => mir_depth_layer_get_index (sf_depth_layer s) | None => 0 end.

Definition insert_surface_at_top_of_depth_layer (surfaces : gmap Z Surface) (layers : list (list Z)) (id : Z)
  : list (list Z) := insert_at_top layers (depth_of surfaces id) id.

(** The loop over the layers up to the first that has the surface. *)
Fixpoint erase_from_layers (id : Z) (layers : list (list Z)) : option (list (list Z)) :=
  match layers with
  | [] => None
  | layer :: rest =>
      if bool_decide (id ∈ layer) then Some (erase_first id layer :: rest)
      else match erase_from_layers id rest with
           | Some rest' => Some (layer :: rest')
           | None => None
           end
  end.

(** Put a tracked surface back into the store. *)
Definition store_tracked (w : World) (id : Z) (r : Tracked) : World :=
  let '(t, s, str) := r in
  w <| rendering_trackers := <[id := t]> (rendering_trackers w) |>
    <| surfaces := <[id := s]> (surfaces w) |> <| streams := str |>.

Definition create_rendering_tracker_for (w : World) (id : Z) : outcome World :=
  match surfaces w !! id with
  | Some s =>
      r ← active_compositors tracker_init s (streams w) (registered_compositors w);
      Ret (store_tracked w id r)
  | None => Throw out_of_range
  end.

Definition add_surface (w : World) (id : Z) (input_mode : Z) : outcome (World * list SceneEvent) :=
  match surfaces w !! id with
  | Some _ =>
      let w1 := w <| surface_layers :=
                       insert_surface_at_top_of_depth_layer (surfaces w) (surface_layers w) id |> in
      w2 ← create_rendering_tracker_for w1 id;
      match surfaces w2 !! id with
      | Some s =>
          Ret (w2 <| surfaces := <[id := fst (set_reception_mode s input_mode)]> (surfaces w2) |>,
               [surface_added id])
      | None => Throw out_of_range
      end
  | None => Throw out_of_range
  end.

Definition remove_surface (w : World) (id : Z) : World * list SceneEvent :=
  match erase_from_layers id (surface_layers w) with
  | Some layers =>
      (w <| surface_layers := layers |> <| rendering_trackers := delete id (rendering_trackers w) |>,
       [surface_removed id])
  | None => (w, [])
  end.

(** [raise] of one surface. *)
Definition raise_surface (w : World) (id : Z) : outcome (World * list SceneEvent) :=
  match erase_from_layers id (surface_layers w) with
  | Some layers =>
      Ret (w <| surface_layers := insert_surface_at_top_of_depth_layer (surfaces w) layers id |>,
           [surfaces_reordered])
  | None => Throw (runtime_error "Invalid surface")
  end.

(** The body of the loop of [raise(SurfaceSet)] for the layer at an index:
    stable partition, truncation, and insertion of what was cut off. *)
Definition raise_in_layer (surfaces : gmap Z Surface) (ss : gset Z) (layers : list (list Z)) (index : nat)
  : list (list Z) :=
  match layers !! index with
  | Some layer =>
      let to_raise := filter (fun id => id ∈ ss) layer in
      let layers1 := <[index := filter (fun id => id ∉ ss) layer]> layers in
      foldl (insert_surface_at_top_of_depth_layer surfaces) layers1 to_raise
  | None => layers
  end.

(** The layers after the loop, and whether a layer changed in its iteration. *)
Fixpoint raise_loop (surfaces : gmap Z Surface) (ss : gset Z) (layers : list (list Z)) (indices : list nat)
  : list (list Z) * bool :=
  match indices with
  | [] => (layers, false)
  | i :: rest =>
      let layers' := raise_in_layer surfaces ss layers i in
      let changed := bool_decide (layers !! i <> layers' !! i) in
      let '(final, reordered) := raise_loop surfaces ss layers' rest in
      (final, changed || reordered)
  end.

Definition raise_set (w : World) (ss : gset Z) : World * list SceneEvent :=
  let '(layers, reordered) :=
    raise_loop (surfaces w) ss (surface_layers w) (seq 0 (length (surface_layers w))) in
  (w <| surface_layers := layers |>, if reordered then [surfaces_reordered] else []).

(** A change of a surface's depth layer reaches the stack through the
    observer that [add_surface] registered and [remove_surface] removed. *)
Definition change_depth_layer (w : World) (id : Z) (l : MirDepthLayer) : outcome (World * list SceneEvent) :=
  match surfaces w !! id with
  | Some s =>
      let w' := w <| surfaces := <[id := fst (set_depth_layer s l)]> (surfaces w) |> in
      if bool_decide (is_Some (rendering_trackers w !! id)) then raise_surface w' id else Ret (w', [])
  | None => Throw out_of_range
  end.

(** The topmost surface whose input area contains a point. *)
Definition surface_at (w : World) (cursor : Point) : option Z :=
  find_if (fun id => match surfaces w !! id with
                     | Some s => input_area_contains (streams w) s cursor
                     | None => false
                     end)
    (concat (reverse <$> reverse (surface_layers w))).

(** The order in which [for_each] visits the surfaces: bottom to top. *)
Definition stacking_order (w : World) : list Z := concat (surface_layers w).

(** [update_rendering_tracker_compositors]: the loop over the trackers. *)
Fixpoint update_trackers (ids : list Z) (w : World) : outcome World :=
  match ids with
  | [] => Ret w
  | id :: rest =>
      match rendering_trackers w !! id, surfaces w !! id with
      | Some t, Some s =>
          r ← active_compositors t s (streams w) (registered_compositors w);
          update_trackers rest (store_tracked w id r)
      | _, _ => update_trackers rest w
      end
  end.
Definition update_rendering_tracker_compositors (w : World) : outcome World :=
  update_trackers (elements (dom (rendering_trackers w))) w.

Definition register_compositor (w : World) (cid : CompositorID) : outcome World :=
  update_rendering_tracker_compositors (w <| registered_compositors := {[cid]} ∪ registered_compositors w |>).
Definition unregister_compositor (w : World) (cid : CompositorID) : outcome World :=
  update_rendering_tracker_compositors (w <| registered_compositors := registered_compositors w ∖ {[cid]} |>).

Definition emit_scene_changed (w : World) : World * list SceneEvent :=
  (w <| scene_changed := true |>, [scene_changed_event]).
Definition add_input_visualization (w : World) (overlay : Z) : World * list SceneEvent :=
  emit_scene_changed (w <| overlays := overlays w ++ [overlay] |>).
Definition remove_input_visualization (w : World) (overlay : Z) : outcome (World * list SceneEvent) :=
  if bool_decide (overlay ∈ overlays w)
  then Ret (emit_scene_changed (w <| overlays := erase_first overlay (overlays w) |>))
  else Throw (runtime_error "Attempt to remove an overlay which was never added or which has been previously removed").

(** The renderables of the visible surfaces from the bottom to the top, then
    the overlays. *)
Definition scene_elements_for (has_alpha : Z -> bool) (overlay_renderable : Z -> Renderable (mat4 := Z)) (w : World)
  : World * list (SceneElement (mat4 := Z)) :=
  (w <| scene_changed := false |>,
   mjoin ((fun id =>
     match surfaces w !! id with
     | Some s =>
         if surface_visible (streams w) s
         then (fun '(rid, r) => mkElement rid r) <$> generate_renderables has_alpha (streams w) s
         else []
     | None => []
     end) <$> stacking_order w) ++
   ((fun o => mkElement o (overlay_renderable o)) <$> overlays w)).

Fixpoint frames_pending_loop (w : World) (cid : CompositorID) (ids : list Z) (result : Z) : outcome Z :=
  match ids with
  | [] => Ret result
  | id :: rest =>
      match surfaces w !! id with
      | Some s =>
          if surface_visible (streams w) s then
            exposed ← match rendering_trackers w !! id with
                      | Some t => is_exposed_in t cid
                      | None => Ret false
                      end;
            let ready := surface_buffers_ready (streams w) s cid in
            frames_pending_loop w cid rest (if exposed && (result <? ready) then ready else result)
          else frames_pending_loop w cid rest result
      | None => frames_pending_loop w cid rest result
      end
  end.
Definition frames_pending (w : World) (cid : CompositorID) : outcome Z :=
  frames_pending_loop w cid (stacking_order w) (if scene_changed w then 1 else 0).

(** ** Layers as indexed sets *)
Definition in_layer (layers : list (list Z)) (m : nat) (x : Z) : Prop :=
  exists layer, layers !! m = Some layer /\ x ∈ layer.

Lemma in_layer_cons l layers m x :
  in_layer (l :: layers) m x <-> (m = 0%nat /\ x ∈ l) \/ exists m', m = S m' /\ in_layer layers m' x.
Proof. unfold in_layer. destruct m as [|m]; cbn; naive_solver. Qed.

Lemma in_layer_concat layers x : x ∈ concat layers <-> exists m, in_layer layers m x.
Proof.
  induction layers as [|l layers IH]; cbn; [unfold in_layer; set_solver|].
  rewrite elem_of_app, IH. setoid_rewrite in_layer_cons. naive_solver.
Qed.

(** The vector after [resize]. *)
Definition resized (layers : list (list Z)) (n : nat) : list (list Z) :=
  if Nat.leb (length layers) n then layers ++ replicate (n + 1 - length layers) [] else layers.

Lemma concat_replicate_nil {A} n : concat (replicate n ([] : list A)) = [].
Proof. by induction n. Qed.

Lemma resized_concat layers n : concat (resized layers n) = concat layers.
Proof. unfold resized. case_if; [|done]. by rewrite concat_app, concat_replicate_nil, app_nil_r. Qed.

Lemma resized_length layers n : (n < length (resized layers n))%nat.
Proof.
  unfold resized. destruct (Nat.leb_spec (length layers) n); [|done]. rewrite length_app, length_replicate. lia.
Qed.

Lemma resized_in_layer layers n m x : in_layer (resized layers n) m x <-> in_layer layers m x.
Proof.
  unfold resized. case_if; [|done]. unfold in_layer. split; [|intros (l & Hl & Hx); exists l; by rewrite (lookup_app_l_Some _ _ _ _ Hl)].
  intros (l & [Hl|[_ Hl]]%lookup_app_Some & Hx); [eauto|].
  apply lookup_replicate in Hl as [-> _]. by apply not_elem_of_nil in Hx.
Qed.

Lemma concat_alter_app (layers : list (list Z)) n id :
  (n < length layers)%nat -> concat (alter (fun l => l ++ [id]) n layers) ≡ₚ id :: concat layers.
Proof.
  revert n. induction layers as [|l layers IH]; intros n Hn; [cbn in Hn; lia|].
  destruct n as [|n]; cbn; [rewrite <-app_assoc; by rewrite Permutation_middle|].
  rewrite IH by (cbn in Hn; lia). by rewrite Permutation_middle.
Qed.

Lemma insert_at_top_concat layers n id : concat (insert_at_top layers n id) ≡ₚ id :: concat layers.
Proof.
  unfold insert_at_top. fold (resized layers n).
  rewrite concat_alter_app by apply resized_length. by rewrite resized_concat.
Qed.

Lemma insert_at_top_in_layer layers n id m x :
  in_layer (insert_at_top layers n id) m x <-> in_layer layers m x \/ (m = n /\ x = id).
Proof.
  unfold insert_at_top. fold (resized layers n). rewrite <-(resized_in_layer layers n m x).
  pose proof (resized_length layers n) as Hlen. set (ls := resized layers n) in *. unfold in_layer.
  destruct (decide (m = n)) as [->|Hne].
  - rewrite list_lookup_alter_eq. destruct (lookup_lt_is_Some_2 ls n Hlen) as [l Hl]. rewrite Hl. cbn. split.
    + intros (l' & [= <-] & [Hx|Hx%list_elem_of_singleton]%elem_of_app); naive_solver.
    + intros [(l' & [= <-] & Hx)|[_ ->]]; eexists; (split; [done|]); set_solver.
  - rewrite list_lookup_alter_ne by done. naive_solver.
Qed.

Lemma erase_from_layers_None id layers : erase_from_layers id layers = None <-> id ∉ concat layers.
Proof.
  induction layers as [|l layers IH]; cbn; [set_solver|]. case_bool_decide; [set_solver|].
  destruct (erase_from_layers id layers); rewrite elem_of_app; naive_solver.
Qed.

Lemma erase_from_layers_concat id layers layers' :
  erase_from_layers id layers = Some layers' -> concat layers ≡ₚ id :: concat layers'.
Proof.
  revert layers'. induction layers as [|l layers IH]; cbn; intros layers' H; [done|].
  case_bool_decide as Hin.
  - injection H as <-. cbn. by rewrite (erase_first_Permutation id l Hin) at 1.
  - destruct (erase_from_layers id layers) as [rest|]; [|done]. injection H as <-. cbn.
    rewrite (IH rest eq_refl). by rewrite Permutation_middle.
Qed.

Lemma erase_from_layers_in_layer id layers layers' m x :
  erase_from_layers id layers = Some layers' -> in_layer layers' m x -> in_layer layers m x.
Proof.
  revert layers' m. induction layers as [|l layers IH]; cbn; intros layers' m H; [done|].
  case_bool_decide as Hin.
  - injection H as <-. rewrite !in_layer_cons. intros [[-> Hx]|Hx]; [|by right].
    left. split; [done|]. by eapply elem_of_erase_first_weak.
  - destruct (erase_from_layers id layers) as [rest|]; [|done]. injection H as <-. rewrite !in_layer_cons.
    naive_solver.
Qed.

(** ** Invariant *)
Record world_ok (w : World) : Prop := {
  wok_NoDup : NoDup (stacking_order w);
  wok_depth : forall m x, in_layer (surface_layers w) m x ->
                is_Some (surfaces w !! x) /\ depth_of (surfaces w) x = m;
  wok_trackers : forall x, is_Some (rendering_trackers w !! x) <-> x ∈ stacking_order w
}.

Lemma stack_init_ok surfaces streams : world_ok (stack_init surfaces streams).
Proof.
  split; cbn; [constructor|unfold in_layer; set_solver|].
  intros x. rewrite lookup_empty. split; [by intros [? ?]|set_solver].
Qed.

(** The stacking order is sorted by depth. *)
Definition by_depth (w : World) (x y : Z) : Prop :=
  (depth_of (surfaces w) x <= depth_of (surfaces w) y)%nat.

Lemma layers_sorted (d : Z -> nat) (layers : list (list Z)) (k : nat) :
  (forall m x, in_layer layers m x -> d x = (k + m)%nat) ->
  StronglySorted (fun x y => (d x <= d y)%nat) (concat layers).
Proof.
  revert k. induction layers as [|l layers IH]; intros k Hd; cbn; [constructor|].
  assert (Hl : forall x, x ∈ l -> d x = k) by (intros x Hx; rewrite (Hd 0%nat x); [lia|rewrite in_layer_cons; naive_solver]).
  assert (Hrest : forall m x, in_layer layers m x -> d x = (S k + m)%nat)
    by (intros m x Hx; rewrite (Hd (S m) x); [lia|rewrite in_layer_cons; naive_solver]).
  assert (Hge : forall x, x ∈ concat layers -> (k <= d x)%nat)
    by (intros x [m Hx]%in_layer_concat; rewrite (Hrest m x Hx); lia).
  specialize (IH (S k) Hrest). clear Hd Hrest. induction l as [|y l IHl]; cbn; [done|]. constructor.
  - apply IHl. set_solver.
  - apply Forall_forall. intros x [Hx|Hx]%elem_of_app; rewrite (Hl y) by set_solver.
    + rewrite (Hl x); [done|set_solver].
    + by apply Hge.
Qed.

Lemma world_ok_sorted w : world_ok w -> StronglySorted (by_depth w) (stacking_order w).
Proof. intros Hok. apply (layers_sorted _ _ 0). intros m x Hx. by apply (wok_depth w Hok m x). Qed.

(** A store that keeps the surfaces and their depths keeps the invariant. *)
Lemma depth_of_insert (ss : gmap Z Surface) id s s' x :
  ss !! id = Some s -> sf_depth_layer s' = sf_depth_layer s ->
  depth_of (<[id := s']> ss) x = depth_of ss x.
Proof.
  intros Hs Hd. unfold depth_of. destruct (decide (x = id)) as [->|Hne].
  - by rewrite lookup_insert_eq, Hs, Hd.
  - by rewrite lookup_insert_ne.
Qed.

Definition same_depths (ss ss' : gmap Z Surface) : Prop :=
  forall x, depth_of ss' x = depth_of ss x /\ (is_Some (ss' !! x) <-> is_Some (ss !! x)).

Lemma same_depths_insert ss id s s' :
  ss !! id = Some s -> sf_depth_layer s' = sf_depth_layer s -> same_depths ss (<[id := s']> ss).
Proof.
  intros Hs Hd x. split; [by eapply depth_of_insert|]. rewrite lookup_insert_is_Some'. naive_solver.
Qed.

Lemma world_ok_keep w w' :
  world_ok w -> surface_layers w' = surface_layers w -> same_depths (surfaces w) (surfaces w') ->
  (forall x, is_Some (rendering_trackers w' !! x) <-> is_Some (rendering_trackers w !! x)) -> world_ok w'.
Proof.
  intros [Hn Hd Ht] Hl Hs Htr. split.
  - unfold stacking_order in *. by rewrite Hl.
  - intros m x. rewrite Hl. intros Hx. destruct (Hs x) as [-> ->]. by apply Hd.
  - intros x. unfold stacking_order in *. by rewrite Htr, Hl.
Qed.

Lemma tracked_depth t s str r s' str' (m : outcome Tracked) :
  m = Ret (r, s', str') ->
  (exists v t', m = configure_visibility t' s str v) \/ m = Ret (t, s, str) -> sf_depth_layer s' = sf_depth_layer s.
Proof.
  intros -> [(v & t' & H)|[= -> -> ->]]; [|done]. unfold configure_visibility in H. symmetry in H.
  apply outcome_bind_Ret in H as ([r0 [[s1 str1] ev1]] & H & [= <- <- <-]). by apply configure_keeps in H as (_ & _ & ?).
Qed.

Lemma active_compositors_depth t s str cids t' s' str' :
  active_compositors t s str cids = Ret (t', s', str') -> sf_depth_layer s' = sf_depth_layer s.
Proof.
  unfold active_compositors. intros H. eapply tracked_depth; [exact H|]. case_if; [left; eauto|by right].
Qed.

Lemma rendered_in_depth t s str cid t' s' str' :
  rendered_in t s str cid = Ret (t', s', str') -> sf_depth_layer s' = sf_depth_layer s.
Proof.
  unfold rendered_in. intros H. apply outcome_bind_Ret in H as (_ & _ & H).
  eapply (tracked_depth t); [exact H|]. left; eauto.
Qed.

Lemma occluded_in_depth t s str cid t' s' str' :
  occluded_in t s str cid = Ret (t', s', str') -> sf_depth_layer s' = sf_depth_layer s.
Proof.
  unfold occluded_in. intros H. apply outcome_bind_Ret in H as (_ & _ & H).
  eapply tracked_depth; [exact H|]. case_if; [left; eauto|by right].
Qed.
#[local] Hint Resolve active_compositors_depth rendered_in_depth occluded_in_depth : mir.

Lemma store_tracked_ok w id t0 s t s' str :
  world_ok w -> surfaces w !! id = Some s -> rendering_trackers w !! id = Some t0 ->
  sf_depth_layer s' = sf_depth_layer s -> world_ok (store_tracked w id (t, s', str)).
Proof.
  intros Hok Hs Ht Hd. apply (world_ok_keep w); [done|done|by eapply same_depths_insert|].
  intros x. cbn. rewrite lookup_insert_is_Some'. naive_solver.
Qed.

Lemma update_trackers_ok ids w w' : world_ok w -> update_trackers ids w = Ret w' -> world_ok w'.
Proof.
  revert w. induction ids as [|id ids IH]; intros w Hok; cbn; [by intros [= <-]|].
  destruct (rendering_trackers w !! id) as [t|] eqn:Ht; [|by apply IH].
  destruct (surfaces w !! id) as [s|] eqn:Hs; [|by apply IH].
  intros H. apply outcome_bind_Ret in H as ([[t' s'] str'] & Ha & H). apply (IH _) in H; [done|].
  eapply store_tracked_ok; eauto with mir.
Qed.

Lemma world_ok_reorder w layers :
  world_ok w -> concat layers ≡ₚ stacking_order w ->
  (forall m x, in_layer layers m x -> depth_of (surfaces w) x = m) ->
  world_ok (w <| surface_layers := layers |>).
Proof.
  intros [Hn Hd Ht] Hp Hl. split; cbn.
  - unfold stacking_order. cbn. by rewrite Hp.
  - intros m x Hx. split; [|by apply Hl].
    assert (x ∈ stacking_order w) as [m' Hx']%in_layer_concat by (rewrite <-Hp; apply in_layer_concat; eauto).
    by apply (Hd m').
  - intros x. unfold stacking_order. cbn. by rewrite Ht, Hp.
Qed.

Lemma add_surface_ok w id mode w' ev :
  world_ok w -> id ∉ stacking_order w -> add_surface w id mode = Ret (w', ev) -> world_ok w'.
Proof.
  intros [Hn Hd Ht] Hnew. unfold add_surface. destruct (surfaces w !! id) as [s|] eqn:Hs; [|done].
  unfold create_rendering_tracker_for. cbn. rewrite Hs.
  destruct (active_compositors _ _ _ _) as [[[t s1] str]|] eqn:Ha; [|done]. cbn. rewrite lookup_insert_eq. intros [= <- <-].
  apply active_compositors_depth in Ha.
  assert (Hsame : same_depths (surfaces w) (<[id := s1 <| sf_input_mode := mode |>]> (<[id := s1]> (surfaces w)))).
  { rewrite insert_insert_eq. by eapply same_depths_insert. }
  split; cbn.
  - unfold stacking_order, insert_surface_at_top_of_depth_layer. cbn. rewrite insert_at_top_concat. by constructor.
  - intros m x Hx. destruct (Hsame x) as [-> ->].
    apply insert_at_top_in_layer in Hx as [Hx|[-> ->]]; [by apply Hd|]. split; [by rewrite Hs|done].
  - intros x. unfold stacking_order, insert_surface_at_top_of_depth_layer. cbn.
    rewrite lookup_insert_is_Some', insert_at_top_concat, Ht. set_solver.
Qed.

Lemma remove_surface_ok w id : world_ok w -> world_ok (fst (remove_surface w id)).
Proof.
  intros Hok. unfold remove_surface. destruct (erase_from_layers id (surface_layers w)) as [layers|] eqn:E; [|done].
  destruct Hok as [Hn Hd Ht]. pose proof (erase_from_layers_concat _ _ _ E) as Hp.
  unfold stacking_order in *. rewrite Hp in Hn. apply NoDup_cons in Hn as [Hnot Hn].
  split; unfold stacking_order; cbn; [done| |].
  - intros m x Hx. apply (Hd m). by eapply erase_from_layers_in_layer.
  - intros x. rewrite lookup_delete_is_Some, Ht, Hp. set_solver.
Qed.

(** Moving a surface to the top of the layer its depth says. *)
Lemma raise_surface_reorder w id w' ev :
  NoDup (stacking_order w) ->
  (forall m x, in_layer (surface_layers w) m x -> x <> id -> depth_of (surfaces w) x = m) ->
  raise_surface w id = Ret (w', ev) ->
  exists layers, w' = w <| surface_layers := layers |> /\ concat layers ≡ₚ stacking_order w /\
    (forall m x, in_layer layers m x -> depth_of (surfaces w) x = m).
Proof.
  intros Hn Hd. unfold raise_surface. destruct (erase_from_layers id (surface_layers w)) as [layers|] eqn:E; [|done].
  intros [= <- _]. eexists. split; [done|]. pose proof (erase_from_layers_concat _ _ _ E) as Hp.
  unfold stacking_order, insert_surface_at_top_of_depth_layer in *. split.
  - by rewrite insert_at_top_concat, Hp.
  - intros m x [Hx|[-> ->]]%insert_at_top_in_layer; [|done]. rewrite Hp in Hn. apply NoDup_cons in Hn as [Hnot _].
    apply (Hd m); [by eapply erase_from_layers_in_layer|]. intros ->. apply Hnot, in_layer_concat. eauto.
Qed.

Lemma raise_surface_ok w id w' ev : world_ok w -> raise_surface w id = Ret (w', ev) -> world_ok w'.
Proof.
  intros Hok Hr. destruct (raise_surface_reorder w id w' ev) as (layers & -> & Hp & Hl);
    [apply Hok|intros m x Hx _; by apply Hok|done|]. by apply world_ok_reorder.
Qed.

Lemma change_depth_layer_ok w id l w' ev : world_ok w -> change_depth_layer w id l = Ret (w', ev) -> world_ok w'.
Proof.
  intros Hok. unfold change_depth_layer. destruct (surfaces w !! id) as [s|] eqn:Hs; [|done].
  set (w1 := w <| surfaces := _ |>).
  assert (Hne : forall x, x <> id -> depth_of (surfaces w1) x = depth_of (surfaces w) x).
  { intros x Hx. unfold depth_of. cbn. by rewrite lookup_insert_ne. }
  assert (Hsome : forall x, is_Some (surfaces w1 !! x) <-> is_Some (surfaces w !! x)).
  { intros x. cbn. rewrite lookup_insert_is_Some'. naive_solver. }
  destruct Hok as [Hn Hd Ht]. case_bool_decide as Htr.
  - intros Hr. destruct (raise_surface_reorder w1 id w' ev) as (layers & -> & Hp & Hl); [done| |done|].
    + intros m x Hx Hxn. rewrite Hne by done. by apply (Hd m x).
    + split; cbn; unfold stacking_order in *; cbn in *; [by rewrite Hp| |intros x; by rewrite Ht, Hp].
      intros m x Hx. split; [|by apply Hl]. apply Hsome.
      assert (x ∈ concat (surface_layers w)) as [m' Hx']%in_layer_concat by (rewrite <-Hp; apply in_layer_concat; eauto).
      by apply (Hd m').
  - intros [= <- <-]. split; cbn; [done| |done]. intros m x Hx.
    assert (x <> id). { intros ->. apply Htr, Ht, in_layer_concat. eauto. }
    split; [apply Hsome; by apply (Hd m x)|]. change (depth_of (surfaces w1) x = m). rewrite Hne by done. by apply Hd.
Qed.

(** ** Raising a set of surfaces *)
(** The surfaces that stay, then the raised ones, each in their old order. *)
Definition rearranged (ss : gset Z) (layer : list Z) : list Z :=
  filter (fun id => id ∉ ss) layer ++ filter (fun id => id ∈ ss) layer.

Lemma rearranged_Permutation ss layer : rearranged ss layer ≡ₚ layer.
Proof.
  unfold rearranged. induction layer as [|x l IH]; [done|]. rewrite !filter_cons.
  destruct (decide (x ∈ ss)) as [Hin|Hin].
  - rewrite decide_False by tauto. rewrite <-Permutation_middle. by constructor.
  - rewrite decide_True by done. cbn. by constructor.
Qed.

Lemma rearranged_idemp ss layer : rearranged ss (rearranged ss layer) = rearranged ss layer.
Proof.
  unfold rearranged. rewrite !filter_app.
  set (a := filter (fun id => id ∉ ss) layer). set (b := filter (fun id => id ∈ ss) layer).
  assert (Ha : forall x, x ∈ a -> x ∉ ss) by (by intros x [? _]%list_elem_of_filter).
  assert (Hb : forall x, x ∈ b -> x ∈ ss) by (by intros x [? _]%list_elem_of_filter).
  rewrite (filter_all _ a Ha), (filter_none (fun id => id ∉ ss) b), (filter_none (fun id => id ∈ ss) a), (filter_all _ b Hb);
    [by rewrite app_nil_r|done|]. intros x Hx Hn. by apply Hn, Hb.
Qed.

Lemma foldl_insert_in_place ss i ids layers base :
  layers !! i = Some base -> Forall (fun x => depth_of ss x = i) ids ->
  foldl (insert_surface_at_top_of_depth_layer ss) layers ids = <[i := base ++ ids]> layers.
Proof.
  intros Hl Hids. revert layers base Hl. induction Hids as [|x ids Hx Hids IH]; intros layers base Hl; cbn.
  - by rewrite app_nil_r, list_insert_id.
  - unfold insert_surface_at_top_of_depth_layer at 2, insert_at_top. rewrite Hx.
    pose proof (lookup_lt_Some _ _ _ Hl). rewrite (proj2 (Nat.leb_gt _ _)) by lia.
    assert (Halt : alter (fun layer => layer ++ [x]) i layers = <[i := base ++ [x]]> layers).
    { apply list_eq. intros j. destruct (decide (i = j)) as [<-|Hne].
      - rewrite list_lookup_alter_eq, Hl, list_lookup_insert_eq by done. done.
      - by rewrite list_lookup_alter_ne, list_lookup_insert_ne. }
    rewrite Halt, (IH _ (base ++ [x])) by (by apply list_lookup_insert_eq).
    by rewrite list_insert_insert_eq, <-app_assoc.
Qed.

Lemma raise_in_layer_eq surfs ss layers i layer :
  layers !! i = Some layer -> (forall x, x ∈ layer -> depth_of surfs x = i) ->
  raise_in_layer surfs ss layers i = <[i := rearranged ss layer]> layers.
Proof.
  intros Hl Hd. unfold raise_in_layer. rewrite Hl. pose proof (lookup_lt_Some _ _ _ Hl).
  rewrite (foldl_insert_in_place surfs i _ _ (filter (fun id => id ∉ ss) layer)).
  - by rewrite list_insert_insert_eq.
  - by apply list_lookup_insert_eq.
  - apply Forall_forall. intros x [_ Hx]%list_elem_of_filter. by apply Hd.
Qed.

Lemma raise_loop_eq surfs ss pre post :
  (forall m x, in_layer post m x -> depth_of surfs x = (length pre + m)%nat) ->
  raise_loop surfs ss (pre ++ post) (seq (length pre) (length post)) =
  (pre ++ (rearranged ss <$> post), bool_decide (post <> (rearranged ss <$> post))).
Proof.
  revert pre. induction post as [|l post IH]; intros pre Hd; cbn [raise_loop seq length].
  { by rewrite bool_decide_false by tauto. }
  assert (Hl : (pre ++ l :: post) !! length pre = Some l) by (by apply list_lookup_middle).
  rewrite (raise_in_layer_eq surfs ss _ _ l Hl).
  2: { intros x Hx. rewrite (Hd 0%nat x); [lia|]. rewrite in_layer_cons. by left. }
  rewrite Hl, list_lookup_insert_eq by (rewrite length_app; cbn; lia).
  replace (<[length pre := rearranged ss l]> (pre ++ l :: post)) with ((pre ++ [rearranged ss l]) ++ post).
  2: { rewrite <-app_assoc. cbn. symmetry. rewrite insert_app_r_alt, Nat.sub_diag by lia. done. }
  replace (S (length pre)) with (length (pre ++ [rearranged ss l])) by (rewrite length_app; cbn; lia).
  rewrite IH.
  - rewrite fmap_cons, <-app_assoc. cbn. f_equal. destruct (decide (l = rearranged ss l)) as [E|E].
    + rewrite (bool_decide_false (Some l <> _)) by (intros Hx; apply Hx; by f_equal). cbn.
      apply bool_decide_ext. rewrite <-E at 1. split; [intros Hx [=]; by apply Hx|intros Hx Hy; apply Hx; by f_equal].
    + rewrite (bool_decide_true (Some l <> _)) by congruence. cbn. symmetry. apply bool_decide_eq_true. congruence.
  - intros m x Hx. rewrite (Hd (S m) x); [rewrite length_app; cbn; lia|]. rewrite in_layer_cons. right. eauto.
Qed.

Lemma raise_set_eq w ss :
  world_ok w ->
  raise_set w ss =
  (w <| surface_layers := rearranged ss <$> surface_layers w |>,
   if bool_decide (surface_layers w <> (rearranged ss <$> surface_layers w)) then [surfaces_reordered] else []).
Proof.
  intros [_ Hd _]. unfold raise_set.
  pose proof (raise_loop_eq (surfaces w) ss [] (surface_layers w)) as H. cbn [length app] in H. rewrite H; [done|].
  intros m x Hx. by apply Hd.
Qed.

Lemma concat_rearranged ss layers : concat (rearranged ss <$> layers) ≡ₚ concat layers.
Proof.
  induction layers as [|l layers IH]; [done|]. rewrite fmap_cons. cbn. by rewrite rearranged_Permutation, IH.
Qed.

Lemma raise_set_ok w ss : world_ok w -> world_ok (fst (raise_set w ss)).
Proof.
  intros Hok. rewrite raise_set_eq by done. cbn. apply world_ok_reorder; [done|apply concat_rearranged|].
  intros m x (l & Hl & Hx). rewrite list_lookup_fmap in Hl.
  destruct (surface_layers w !! m) as [l0|] eqn:E; [|done]. injection Hl as <-.
  rewrite rearranged_Permutation in Hx. apply (wok_depth w Hok). by exists l0.
Qed.

(** ** Reachable stacks *)
Inductive stack_op :=
| StCreate (id : Z) (s : Surface)          (* a new surface object, not yet in the stack *)
| StSurface (id : Z) (o : surface_op)      (* an operation on a surface by its owner *)
| StAdd (id mode : Z)
| StRemove (id : Z)
| StRaise (id : Z)
| StRaiseSet (ss : gset Z)
| StRegister (cid : CompositorID)
| StUnregister (cid : CompositorID)
| StRendered (id : Z) (cid : CompositorID)
| StOccluded (id : Z) (cid : CompositorID)
| StAddOverlay (o : Z)
| StRemoveOverlay (o : Z).

(** A report of a compositor on one of the scene elements of a surface. *)
Definition report_on (w : World) (id : Z)
    (f : Tracker -> Surface -> Streams -> outcome Tracked) : outcome (World * list SceneEvent) :=
  match rendering_trackers w !! id, surfaces w !! id with
  | Some t, Some s => r ← f t s (streams w); Ret (store_tracked w id r, [])
  | _, _ => Throw out_of_range
  end.

Definition stack_step (w : World) (o : stack_op) : outcome (World * list SceneEvent) :=
  match o with
  | StCreate id s =>
      match surfaces w !! id with
      | None => Ret (w <| surfaces := <[id := s]> (surfaces w) |>, [])
      | Some _ => Throw out_of_range
      end
  | StSurface id (OpDepthLayer l) => change_depth_layer w id l
  | StSurface id op =>
      match surfaces w !! id with
      | Some s =>
          '(s', str', _) ← surface_step s (streams w) op;
          Ret (w <| surfaces := <[id := s']> (surfaces w) |> <| streams := str' |>, [])
      | None => Throw out_of_range
      end
  | StAdd id mode => add_surface w id mode
  | StRemove id => Ret (remove_surface w id)
  | StRaise id => raise_surface w id
  | StRaiseSet ss => Ret (raise_set w ss)
  | StRegister cid => w' ← register_compositor w cid; Ret (w', [])
  | StUnregister cid => w' ← unregister_compositor w cid; Ret (w', [])
  | StRendered id cid => report_on w id (fun t s str => rendered_in t s str cid)
  | StOccluded id cid => report_on w id (fun t s str => occluded_in t s str cid)
  | StAddOverlay o => Ret (add_input_visualization w o)
  | StRemoveOverlay o => remove_input_visualization w o
  end.

(** The owners add a surface once. *)
Definition stack_enabled (w : World) (o : stack_op) : Prop :=
  match o with StAdd id _ => id ∉ stacking_order w | _ => True end.

Inductive stack_reachable : World -> Prop :=
| reachable_init str : stack_reachable (stack_init ∅ str)
| reachable_step w o w' ev :
    stack_reachable w -> stack_enabled w o -> stack_step w o = Ret (w', ev) -> stack_reachable w'.

Lemma report_on_ok w id f w' ev :
  world_ok w -> (forall t s t' s' str', f t s (streams w) = Ret (t', s', str') -> sf_depth_layer s' = sf_depth_layer s) ->
  report_on w id f = Ret (w', ev) -> world_ok w'.
Proof.
  intros Hok Hf. unfold report_on. destruct (rendering_trackers w !! id) as [t|] eqn:Ht; [|done].
  destruct (surfaces w !! id) as [s|] eqn:Hs; [|done].
  intros H. apply outcome_bind_Ret in H as ([[t' s'] str'] & H & [= <- <-]).
  eapply store_tracked_ok; eauto.
Qed.

Lemma surface_step_depth s str o s' str' ev :
  surface_step s str o = Ret (s', str', ev) -> (forall l, o <> OpDepthLayer l) -> sf_depth_layer s' = sf_depth_layer s.
Proof.
  intros H Hno. destruct o; cbn in H;
    try (apply outcome_bind_Ret in H as ([r0 [[s1 str1] ev1]] & H & [= <- <- <-]); by apply configure_keeps in H as (_ & _ & ?));
    injection H as <- _ _; try done; unfold surface_resize, set_window_margins, surface_rename, set_application_id;
    try (case_bool_decide; done). by destruct (Hno l).
Qed.

Lemma stack_surface_ok w id o w' ev :
  world_ok w -> stack_step w (StSurface id o) = Ret (w', ev) -> world_ok w'.
Proof.
  intros Hok H.
  assert (Hgen : (forall l, o <> OpDepthLayer l) ->
    match surfaces w !! id with
    | Some s =>
        '(s', str', _) ← surface_step s (streams w) o;
        Ret (w <| surfaces := <[id := s']> (surfaces w) |> <| streams := str' |>, [])
    | None => Throw out_of_range
    end = Ret (w', ev) -> world_ok w').
  { intros Hno Hs. destruct (surfaces w !! id) as [s|] eqn:E; [|done].
    apply outcome_bind_Ret in Hs as ([[s' str'] ev'] & Hs & [= <- <-]).
    apply (world_ok_keep w); [done|done| |done]. eapply same_depths_insert; [done|].
    by eapply surface_step_depth. }
  destruct o; try (by apply Hgen). by eapply change_depth_layer_ok.
Qed.

Lemma stack_step_ok w o w' ev :
  world_ok w -> stack_enabled w o -> stack_step w o = Ret (w', ev) -> world_ok w'.
Proof.
  intros Hok Hen H. destruct o; cbn [stack_step] in H.
  - destruct (surfaces w !! id) eqn:E; [done|]. injection H as <- <-. destruct Hok as [Hn Hd Ht].
    split; [done| |done]. intros m x Hx. destruct (Hd m x Hx) as [Hs Hdx].
    assert (x <> id) by (intros ->; rewrite E in Hs; by destruct Hs).
    unfold depth_of. cbn. by rewrite lookup_insert_ne.
  - by eapply stack_surface_ok.
  - by eapply add_surface_ok.
  - injection H as H. replace w' with (fst (remove_surface w id)) by (by rewrite H). by apply remove_surface_ok.
  - by eapply raise_surface_ok.
  - injection H as H. replace w' with (fst (raise_set w ss)) by (by rewrite H). by apply raise_set_ok.
  - apply outcome_bind_Ret in H as (w1 & H & [= <- <-]). eapply update_trackers_ok; [|exact H]. by apply (world_ok_keep w).
  - apply outcome_bind_Ret in H as (w1 & H & [= <- <-]). eapply update_trackers_ok; [|exact H]. by apply (world_ok_keep w).
  - eapply (report_on_ok w); [done| |exact H]. cbn. intros t s t' s' str'; apply rendered_in_depth.
  - eapply (report_on_ok w); [done| |exact H]. cbn. intros t s t' s' str'; apply occluded_in_depth.
  - injection H as <- <-. by apply (world_ok_keep w).
  - unfold remove_input_visualization in H. case_bool_decide; [|done]. injection H as <- <-. by apply (world_ok_keep w).
Qed.

Lemma stack_reachable_ok w : stack_reachable w -> world_ok w.
Proof. induction 1 as [str|w o w' ev _ IH Hen H]; [apply stack_init_ok|]. by eapply stack_step_ok. Qed.

(** C39: in every state the surface stack can reach, whatever the owners, the
    shell and the compositors do, a surface is stacked at most once, every
    stacked surface is tracked, and a surface is never below one of a lower
    depth layer. *)
Theorem stack_sorted_by_depth (w : World) :
  stack_reachable w ->
  NoDup (stacking_order w) /\
  (forall x, is_Some (rendering_trackers w !! x) <-> x ∈ stacking_order w) /\
  StronglySorted (by_depth w) (stacking_order w).
Proof.
  intros Hr%stack_reachable_ok. split; [apply Hr|]. split; [apply Hr|]. by apply world_ok_sorted.
Qed.

(** Raising a set of surfaces moves, within every layer, the surfaces of the
    set above the others and keeps the order among both; no surface is lost,
    and the observers are told exactly when the order changed. *)
Theorem raise_set_spec (w : World) (ss : gset Z) :
  stack_reachable w ->
  let '(w', events) := raise_set w ss in
  surface_layers w' = (fun layer => filter (fun x => x ∉ ss) layer ++ filter (fun x => x ∈ ss) layer) <$> surface_layers w /\
  stacking_order w' ≡ₚ stacking_order w /\
  events = (if bool_decide (surface_layers w' = surface_layers w) then [] else [surfaces_reordered]) /\
  fst (raise_set w' ss) = w'.
Proof.
  intros Hr%stack_reachable_ok. pose proof (raise_set_ok w ss Hr) as Hok'. rewrite raise_set_eq in * by done. cbn in Hok'.
  split; [done|]. split; [apply concat_rearranged|]. split.
  - cbn. case_bool_decide as H1; case_bool_decide as H2; try done; exfalso; ((by apply H1) || (by apply H2)).
  - rewrite raise_set_eq by done. cbn [fst surface_layers].
    assert (E : rearranged ss <$> (rearranged ss <$> surface_layers w) = rearranged ss <$> surface_layers w).
    { rewrite <-list_fmap_compose. apply list_fmap_ext. intros i l _. apply rearranged_idemp. }
    unfold assign. cbn. by rewrite E.
Qed.

(** ** The surface at a point *)
Definition takes_input_at (w : World) (p : Point) (id : Z) : bool :=
  match surfaces w !! id with Some s => input_area_contains (streams w) s p | None => false end.

Lemma concat_reverse {A} (ls : list (list A)) : concat (reverse <$> reverse ls) = reverse (concat ls).
Proof.
  induction ls as [|l ls IH]; [done|]. rewrite reverse_cons, fmap_app, concat_app, IH. cbn [concat].
  rewrite reverse_app. cbn. by rewrite app_nil_r.
Qed.

Lemma find_if_split {A} (p : A -> bool) (l : list A) x :
  find_if p l = Some x -> exists l1 l2, l = l1 ++ x :: l2 /\ p x = true /\ Forall (fun y => p y = false) l1.
Proof.
  induction l as [|y l IH]; cbn; [done|]. destruct (p y) eqn:E.
  - intros [= ->]. by exists [], l.
  - intros (l1 & l2 & -> & Hx & Hl)%IH. exists (y :: l1), l2. by repeat constructor.
Qed.

(** [surface_at] gives the topmost surface that takes input at a point: no
    surface above it does, and so none of a higher depth layer; it gives none
    only when no surface of the stack does. *)
Theorem surface_at_topmost (w : World) (p : Point) :
  stack_reachable w ->
  match surface_at w p with
  | Some id =>
      takes_input_at w p id = true /\
      (exists below above, stacking_order w = below ++ id :: above /\
         Forall (fun y => takes_input_at w p y = false) above) /\
      (forall y, y ∈ stacking_order w -> takes_input_at w p y = true ->
         (depth_of (surfaces w) y <= depth_of (surfaces w) id)%nat)
  | None => forall y, y ∈ stacking_order w -> takes_input_at w p y = false
  end.
Proof.
  intros Hr%stack_reachable_ok. unfold surface_at. rewrite concat_reverse. fold (stacking_order w) (takes_input_at w p).
  destruct (find_if _ _) as [id|] eqn:E.
  - apply find_if_split in E as (l1 & l2 & El & Hid & Habove). split; [done|].
    assert (Hsplit : stacking_order w = reverse l2 ++ id :: reverse l1).
    { rewrite <-(reverse_involutive (stacking_order w)), El, reverse_app, reverse_cons, <-app_assoc. done. }
    split; [exists (reverse l2), (reverse l1); split; [done|by rewrite reverse_Permutation]|].
    intros y Hy Hty. pose proof (world_ok_sorted w Hr) as Hs. rewrite Hsplit in Hy, Hs.
    apply elem_of_app in Hy as [Hy|[->|Hy]%elem_of_cons]; [|done|].
    + apply (StronglySorted_app_1_elem_of _ _ _ y id Hs Hy). set_solver.
    + rewrite Forall_forall in Habove. rewrite Habove in Hty; [done|]. by rewrite reverse_Permutation in Hy.
  - intros y Hy. rewrite find_if_None in E. apply E. by rewrite reverse_Permutation.
Qed.

(** ** A scene *)
Definition example_posted : Streams :=
  match submit_buffer (stream_init (mkSize 100 80) 1) (Some (example_buffer 1)) with
  | Ret (_, st) => {[5 := st]}
  | Throw _ => ∅
  end.

Definition example_world : outcome World :=
  '(w1, _) ← stack_step (stack_init ∅ example_posted) (StCreate 1 example_surface);
  '(w2, _) ← stack_step w1 (StAdd 1 0);
  '(w3, _) ← stack_step w2 (StCreate 2 example_surface);
  '(w4, _) ← stack_step w3 (StAdd 2 0);
  '(w5, _) ← stack_step w4 (StSurface 1 (OpDepthLayer mir_depth_layer_overlay));
  Ret w5.

Lemma example_world_reachable w : example_world = Ret w -> stack_reachable w.
Proof.
  unfold example_world. intros H.
  repeat (apply outcome_bind_Ret in H as ([? ?] & ? & H)). injection H as <-.
  repeat (eapply reachable_step; [|..|eassumption]); [apply reachable_init|..];
    repeat match goal with H : stack_step _ _ = Ret _ |- _ => vm_compute in H; injection H as <- <- end;
    cbn; set_solver.
Qed.

Definition example_stack : World := match example_world with Ret w => w | Throw _ => stack_init ∅ ∅ end.

Lemma example_stack_reachable : stack_reachable example_stack.
Proof. apply example_world_reachable. vm_compute. reflexivity. Qed.

Lemma stack_sorted_by_depth_witness :
  stacking_order example_stack = [2; 1] /\ StronglySorted (by_depth example_stack) (stacking_order example_stack).
Proof. split; [vm_compute; reflexivity|]. apply stack_sorted_by_depth, example_stack_reachable. Defined.

Lemma raise_set_spec_witness :
  let '(w', events) := raise_set example_stack {[2]} in
  stacking_order w' = [2; 1] /\ fst (raise_set w' {[2]}) = w'.
Proof.
  pose proof (raise_set_spec example_stack {[2]} example_stack_reachable) as H.
  destruct (raise_set example_stack {[2]}) as [w' events] eqn:E. destruct H as (_ & _ & _ & Hi).
  split; [|exact Hi]. change w' with (fst (w', events)). rewrite <-E. vm_compute. reflexivity.
Defined.

Lemma surface_at_topmost_witness :
  surface_at example_stack (mkPoint 15 25) = Some 1 /\ takes_input_at example_stack (mkPoint 15 25) 1 = true.
Proof.
  pose proof (surface_at_topmost example_stack (mkPoint 15 25) example_stack_reachable) as H.
  assert (E : surface_at example_stack (mkPoint 15 25) = Some 1) by (vm_compute; reflexivity).
  split; [exact E|]. rewrite E in H. exact (proj1 H).
Defined.

(** ** The trackers *)
Record tracker_ok (t : Tracker) (s : Surface) : Prop := {
  tok_active : occlusions t ⊆ active_compositors_ t;
  tok_visibility : occlusions t = active_compositors_ t -> sf_visibility s = mir_window_visibility_occluded
}.

Lemma configure_visibility_spec t s str v :
  streams_wf str ->
  exists s' str', configure_visibility t s str v = Ret (t, s', str') /\ sf_visibility s' = v /\ streams_wf str'.
Proof.
  intros Hs. unfold configure_visibility.
  destruct (configure_visibility_configured s str v Hs) as (s' & str' & ev & -> & Hq & _ & _ & Hwf).
  cbn. exists s', str'. split; [done|]. split; [|done].
  change (enum_index visibilities (sf_visibility s') = enum_index visibilities v) in Hq.
  destruct (sf_visibility s'), v; (reflexivity || discriminate Hq).
Qed.

Lemma is_exposed_in_spec t cid :
  cid ∈ active_compositors_ t -> is_exposed_in t cid = Ret (bool_decide (cid ∉ occlusions t)).
Proof.
  intros Hc. unfold is_exposed_in, ensure_is_active_compositor. rewrite (bool_decide_true (cid ∈ active_compositors_ t)) by done. cbn.
  case_bool_decide as Hz.
  - apply size_empty_inv in Hz. rewrite bool_decide_true; [done|]. set_solver.
  - by rewrite bool_decide_not.
Qed.

(** A surface is told that it is occluded exactly when its last exposing
    compositor reports it occluded, and exposed as soon as one renders it: a
    report of a registered compositor always succeeds and settles whether the
    surface is exposed in that compositor, leaving the other compositors' view
    alone; after [rendered_in] the visibility is exposed, after [occluded_in]
    it is occluded if no active compositor shows the surface and unchanged
    otherwise. *)
Theorem tracker_reports (t : Tracker) (s : Surface) (str : Streams) (cid : CompositorID) :
  tracker_ok t s -> streams_wf str -> cid ∈ active_compositors_ t ->
  (exists t' s' str', rendered_in t s str cid = Ret (t', s', str') /\ tracker_ok t' s' /\
     sf_visibility s' = mir_window_visibility_exposed /\ is_exposed_in t' cid = Ret true /\
     (forall c, c <> cid -> c ∈ active_compositors_ t -> is_exposed_in t' c = is_exposed_in t c)) /\
  (exists t' s' str', occluded_in t s str cid = Ret (t', s', str') /\ tracker_ok t' s' /\
     is_exposed_in t' cid = Ret false /\
     (forall c, c <> cid -> c ∈ active_compositors_ t -> is_exposed_in t' c = is_exposed_in t c) /\
     sf_visibility s' =
       (if bool_decide (active_compositors_ t ⊆ {[cid]} ∪ occlusions t)
        then mir_window_visibility_occluded else sf_visibility s)).
Proof.
  intros [Hact Hvis] Hs Hc. unfold rendered_in, occluded_in, ensure_is_active_compositor.
  rewrite (bool_decide_true (cid ∈ active_compositors_ t)) by done. cbn [mbind outcome_bind]. split.
  - set (t' := mkTracker _ _).
    destruct (configure_visibility_spec t' s str mir_window_visibility_exposed Hs) as (s' & str' & -> & Hv & _).
    exists t', s', str'. split; [done|]. split; [split; cbn; [set_solver|]|].
    + intros E. exfalso. revert E Hc. clear. set_solver.
    + split; [done|]. split; [rewrite is_exposed_in_spec by done; cbn; f_equal; apply bool_decide_eq_true; set_solver|].
      intros c Hne Hca. rewrite !is_exposed_in_spec by done. cbn. f_equal. apply bool_decide_ext. set_solver.
  - set (t' := mkTracker _ _). unfold occluded_in_all_active_compositors.
    assert (Hall : active_compositors_ t ⊆ {[cid]} ∪ occlusions t <-> occlusions t' = active_compositors_ t').
    { cbn. split; [intros; apply set_eq; set_solver|intros <-; done]. }
    assert (Hexp : is_exposed_in t' cid = Ret false).
    { rewrite is_exposed_in_spec by done. cbn. f_equal. apply bool_decide_eq_false. set_solver. }
    assert (Hoth : forall c, c <> cid -> c ∈ active_compositors_ t -> is_exposed_in t' c = is_exposed_in t c).
    { intros c Hne Hca. rewrite !is_exposed_in_spec by done. cbn. f_equal. apply bool_decide_ext. set_solver. }
    rewrite (bool_decide_ext _ _ Hall). case_bool_decide as E.
    + destruct (configure_visibility_spec t' s str mir_window_visibility_occluded Hs) as (s' & str' & -> & Hv & _).
      exists t', s', str'. repeat (split; [done|]). split; [split; cbn; [set_solver|done]|]. done.
    + exists t', s, str. repeat (split; [done|]). split; [split; cbn; [set_solver|done]|]. done.
Qed.

Lemma tracker_reports_witness :
  exists t' s' str', occluded_in (mkTracker {[1]} {[1; 2]}) example_surface ∅ 2 = Ret (t', s', str') /\
    sf_visibility s' = mir_window_visibility_occluded.
Proof.
  destruct (tracker_reports (mkTracker {[1]} {[1; 2]}) example_surface ∅ 2) as [_ (t' & s' & str' & H & _ & _ & _ & Hv)].
  - split; [cbn; set_solver|reflexivity].
  - apply map_Forall_empty.
  - cbn. set_solver.
  - exists t', s', str'. split; [exact H|]. rewrite Hv. vm_compute. reflexivity.
Defined.
