(* ===== verification/Sessions.v ===== *)
(** * mir::scene::SessionContainer

    The sessions in the order in which they connected
    ([src/server/scene/session_container.cpp]) and the cyclic order in which
    the focus moves through them. *)
From S2P Require Import Prelude.

(** A session by its identity; a null pointer is [None]. *)
Abbreviation Session := Z.
Abbreviation SessionContainer := (list Session).

Definition insert_session (apps : SessionContainer) (session : Session) : SessionContainer := apps ++ [session].

Definition remove_session (apps : SessionContainer) (session : Session) : outcome SessionContainer :=
  if bool_decide (session ∈ apps) then Ret (erase_first session apps)
  else Throw (logic_error "Invalid Session").

(** The loop of [successor_of]: [first] is [*apps.begin()]. *)
Fixpoint next_in (first : option Session) (apps : list Session) (session : Session) : outcome (option Session) :=
  match apps with
  | [] => Throw (logic_error "Invalid session")
  | x :: rest =>
      if x =? session then
        match rest with
        | [] => Ret first
        | y :: _ => Ret (Some y)
        end
      else next_in first rest session
  end.

Definition successor_of (apps : SessionContainer) (session : option Session) : outcome (option Session) :=
  match session with
  | None => match apps with [] => Ret None | _ => Ret (last apps) end
  | Some s => next_in (head apps) apps s
  end.

(** The same loop on reverse iterators. *)
Definition predecessor_of (apps : SessionContainer) (session : option Session) : outcome (option Session) :=
  match session with
  | None => match apps with [] => Ret None | _ => Ret (head apps) end
  | Some s => next_in (head (reverse apps)) (reverse apps) s
  end.

Lemma next_in_index first apps i s :
  NoDup apps -> apps !! i = Some s ->
  next_in first apps s = Ret (if decide (S i = length apps) then first else apps !! S i).
Proof.
  revert i. induction apps as [|x apps IH]; intros i Hn Hi; [done|]. apply NoDup_cons in Hn as [Hx Hn]. cbn.
  destruct i as [|i]; cbn in Hi.
  - injection Hi as ->. rewrite Z.eqb_refl. destruct apps; [by rewrite decide_True|by rewrite decide_False].
  - rewrite (proj2 (Z.eqb_neq x s)) by (intros ->; by apply Hx, list_elem_of_lookup_2 with i).
    rewrite (IH i Hn Hi). cbn. destruct (decide (S i = length apps)); [by rewrite decide_True by lia|by rewrite decide_False by lia].
Qed.

Lemma next_in_absent first apps s : s ∉ apps -> next_in first apps s = Throw (logic_error "Invalid session").
Proof.
  induction apps as [|x apps IH]; intros Hs; [done|]. cbn. rewrite (proj2 (Z.eqb_neq x s)) by set_solver.
  apply IH. set_solver.
Qed.

Lemma successor_index apps i s :
  NoDup apps -> apps !! i = Some s -> successor_of apps (Some s) = Ret (apps !! (S i mod length apps)%nat).
Proof.
  intros Hn Hi. pose proof (lookup_lt_Some _ _ _ Hi) as Hlt. cbn [successor_of]. rewrite (next_in_index _ _ i s Hn Hi).
  destruct (decide (S i = length apps)) as [E|E].
  - rewrite E, Nat.Div0.mod_same. by destruct apps.
  - by rewrite Nat.mod_small by lia.
Qed.

Lemma predecessor_index apps i s :
  NoDup apps -> apps !! i = Some s ->
  predecessor_of apps (Some s) = Ret (apps !! ((i + (length apps - 1)) mod length apps)%nat).
Proof.
  intros Hn Hi. pose proof (lookup_lt_Some _ _ _ Hi) as Hlt. cbn [predecessor_of].
  assert (Hrev : reverse apps !! (length apps - S i)%nat = Some s).
  { rewrite reverse_lookup by lia. rewrite <-Hi. f_equal. lia. }
  rewrite (next_in_index _ _ _ s) by (done || by rewrite reverse_Permutation). rewrite length_reverse.
  destruct (decide (S (length apps - S i) = length apps)) as [E|E].
  - assert (i = 0)%nat as -> by lia. rewrite Nat.add_0_l, Nat.mod_small by lia. f_equal.
    destruct apps as [|x apps] using rev_ind; [done|]. rewrite reverse_snoc, length_app. cbn.
    by rewrite Nat.add_sub, list_lookup_middle.
  - f_equal. rewrite reverse_lookup by lia.
    replace (i + (length apps - 1))%nat with ((i - 1) + 1 * length apps)%nat by lia.
    rewrite Nat.Div0.mod_add, Nat.mod_small by lia. f_equal. lia.
Qed.

(** [n] steps of the cycle. *)
Fixpoint successors (apps : SessionContainer) (n : nat) (s : option Session) : outcome (option Session) :=
  match n with
  | O => Ret s
  | S n' => s' ← successor_of apps s; successors apps n' s'
  end.

Lemma successors_index apps i s n :
  NoDup apps -> apps !! i = Some s -> successors apps n (Some s) = Ret (apps !! ((i + n) mod length apps)%nat).
Proof.
  intros Hn Hi. revert i s Hi. induction n as [|n IH]; intros i s Hi; pose proof (lookup_lt_Some _ _ _ Hi) as Hlt.
  - cbn. by rewrite Nat.add_0_r, Nat.mod_small, Hi.
  - cbn [successors]. rewrite (successor_index apps i s Hn Hi). cbn [mbind outcome_bind].
    destruct (lookup_lt_is_Some_2 apps (S i mod length apps)%nat) as [s' Hs']; [by apply Nat.mod_upper_bound; lia|].
    rewrite Hs', (IH _ _ Hs'). do 2 f_equal. rewrite Nat.Div0.add_mod_idemp_l. f_equal. lia.
Qed.

(** [successor_of] and [predecessor_of] are inverse to each other and walk
    the sessions in a cycle that visits every session; both refuse a session
    that is not in the container. *)
Theorem session_cycle (apps : SessionContainer) (s : Session) :
  NoDup apps ->
  (s ∈ apps ->
   (exists t, successor_of apps (Some s) = Ret (Some t) /\ predecessor_of apps (Some t) = Ret (Some s)) /\
   (exists t, predecessor_of apps (Some s) = Ret (Some t) /\ successor_of apps (Some t) = Ret (Some s)) /\
   (forall t, t ∈ apps -> exists n, (n < length apps)%nat /\ successors apps n (Some s) = Ret (Some t)) /\
   successors apps (length apps) (Some s) = Ret (Some s)) /\
  (s ∉ apps -> successor_of apps (Some s) = Throw (logic_error "Invalid session") /\
               predecessor_of apps (Some s) = Throw (logic_error "Invalid session")).
Proof.
  intros Hn. split.
  - intros [i Hi]%list_elem_of_lookup. pose proof (lookup_lt_Some _ _ _ Hi) as Hlt. set (len := length apps) in *.
    split; [|split; [|split]].
    + destruct (lookup_lt_is_Some_2 apps (S i mod len)%nat) as [t Ht]; [by apply Nat.mod_upper_bound; lia|].
      exists t. rewrite (successor_index apps i s Hn Hi), (predecessor_index apps _ t Hn Ht). fold len. rewrite Ht. split; [done|].
      do 2 f_equal. rewrite Nat.Div0.add_mod_idemp_l.
      replace (S i + (len - 1))%nat with (i + 1 * len)%nat by lia. by rewrite Nat.Div0.mod_add, Nat.mod_small.
    + destruct (lookup_lt_is_Some_2 apps ((i + (len - 1)) mod len)%nat) as [t Ht]; [by apply Nat.mod_upper_bound; lia|].
      exists t. rewrite (predecessor_index apps i s Hn Hi), (successor_index apps _ t Hn Ht). fold len. rewrite Ht. split; [done|].
      do 2 f_equal. replace (S ((i + (len - 1)) mod len)) with ((i + (len - 1)) mod len + 1)%nat by lia.
      rewrite Nat.Div0.add_mod_idemp_l. replace (i + (len - 1) + 1)%nat with (i + 1 * len)%nat by lia.
      by rewrite Nat.Div0.mod_add, Nat.mod_small.
    + intros t [j Hj]%list_elem_of_lookup. pose proof (lookup_lt_Some _ _ _ Hj) as Hlj. fold len in Hlj.
      exists ((j + (len - i)) mod len)%nat. split; [by apply Nat.mod_upper_bound; lia|].
      rewrite (successors_index apps i s _ Hn Hi). fold len. rewrite Nat.Div0.add_mod_idemp_r.
      replace (i + (j + (len - i)))%nat with (j + 1 * len)%nat by lia. by rewrite Nat.Div0.mod_add, Nat.mod_small, Hj.
    + rewrite (successors_index apps i s _ Hn Hi). fold len. replace (i + len)%nat with (i + 1 * len)%nat by lia.
      by rewrite Nat.Div0.mod_add, Nat.mod_small, Hi.
  - intros Hs. split; apply next_in_absent; [done|]. by rewrite reverse_Permutation.
Qed.

Lemma session_cycle_witness :
  exists t, successor_of [4; 7; 9] (Some 9) = Ret (Some t) /\ predecessor_of [4; 7; 9] (Some t) = Ret (Some 9).
Proof.
  apply (session_cycle [4; 7; 9] 9); [|set_solver]. apply (bool_decide_unpack _). vm_compute. exact I.
Defined.
