(* ===== verification/Shell.v ===== *)
(** * mir::shell::AbstractShell: the focus

    The part of the shell that decides which surface and session have the
    focus ([src/server/shell/abstract_shell.cpp]), with the surfaces and the
    sessions it works on. *)
From S2P Require Import Prelude Geometry Schedule BufferStream Occlusion WindowInfo Surface Sessions.

(** [sh_parents] is the parent each surface was created with, a weak pointer.
    The last three fields are the state of the objects the shell drives: the
    input targeter and the seat. *)
Record Shell := mkShell {
  sh_surfaces : gmap Z Surface;
  sh_parents : gmap Z Z;
  sh_apps : SessionContainer;
  sh_session_surfaces : gmap Session (list Z);
  focus_session : option Session;
  focus_surface : option Z;
  notified_focus_surface : option Z;
  targeter_focus : option Z;
  confinement_regions : list Rectangle
}.
#[export] Instance Shell_eta : EtaExpansion Shell := fun s =>
  mkShell (sh_surfaces s) (sh_parents s) (sh_apps s) (sh_session_surfaces s) (focus_session s)
    (focus_surface s) (notified_focus_surface s) (targeter_focus s) (confinement_regions s).

(** [weak_ptr::lock]. *)
Definition lock {A} (m : gmap Z A) (p : option Z) : option Z :=
  match p with Some id => if decide (is_Some (m !! id)) then Some id else None | None => None end.

Definition surface_parent (sh : Shell) (id : Z) : option Z := lock (sh_surfaces sh) (sh_parents sh !! id).

(** The surfaces from [item] up to the root of its tree. *)
Fixpoint ancestry (fuel : nat) (sh : Shell) (item : option Z) : list Z :=
  match fuel, item with
  | S f, Some id => id :: ancestry f sh (surface_parent sh id)
  | _, _ => []
  end.

(** The loops of [notify_focus_locked] over the parents end because a parent
    exists before its children; there are at most as many as surfaces. *)
Definition focus_tree (sh : Shell) (item : option Z) : list Z := ancestry (size (sh_surfaces sh)) sh item.

Definition focused_surface (sh : Shell) : option Z := lock (sh_surfaces sh) (focus_surface sh).
Definition focused_session (sh : Shell) : option Session :=
  match focus_session sh with
  | Some s => if decide (s ∈ sh_apps sh) then Some s else None
  | None => None
  end.

Definition set_surface_focus (f : MirWindowFocusState) (surfaces : gmap Z Surface) (id : Z) : gmap Z Surface :=
  match surfaces !! id with
  | Some s => <[id := s <| sf_focus := f |>]> surfaces
  | None => surfaces
  end.

Definition mir_pointer_confined_to_window : Z := 1.

Definition notify_focus_locked (sh : Shell) (surface : option Z) : Shell :=
  let current_focus := lock (sh_surfaces sh) (notified_focus_surface sh) in
  let new_focus_tree := reverse (focus_tree sh surface) in
  let current_focus_tree := focus_tree sh current_focus in
  if decide (surface = current_focus) then sh else
  let sh1 := sh <| notified_focus_surface := surface |> <| confinement_regions := [] |>
                <| sh_surfaces := foldl (set_surface_focus mir_window_focus_state_unfocused) (sh_surfaces sh)
                                    (filter (fun item => item ∉ new_focus_tree) current_focus_tree) |> in
  match surface with
  | Some id =>
      let confined := match sh_surfaces sh1 !! id with
                      | Some s => if sf_confine_pointer s =? mir_pointer_confined_to_window
                                  then [input_bounds s] else confinement_regions sh1
                      | None => confinement_regions sh1
                      end in
      sh1 <| confinement_regions := confined |> <| targeter_focus := Some id |>
          <| sh_surfaces := foldl (set_surface_focus mir_window_focus_state_focused) (sh_surfaces sh1)
                              (filter (fun item => item ∉ current_focus_tree) new_focus_tree) |>
  | None => sh1 <| targeter_focus := None |>
  end.

(** The session coordinator's observers are told of a new session; its own
    state does not change. *)
Definition update_focus_locked (sh : Shell) (session : option Session) (surface : option Z) : Shell :=
  sh <| focus_session := if decide (session = focused_session sh) then focus_session sh else session |>
     <| focus_surface := surface |>.

Definition set_focus_to (sh : Shell) (session : option Session) (surface : option Z) : Shell :=
  update_focus_locked (notify_focus_locked sh surface) session surface.

(** A move or a resize of the focused surface, through the observer that the
    shell keeps on it. *)
Definition update_focused_surface_confined_region (sh : Shell) : Shell :=
  match focused_surface sh with
  | Some id =>
      match sh_surfaces sh !! id with
      | Some s => if sf_confine_pointer s =? mir_pointer_confined_to_window
                  then sh <| confinement_regions := [input_bounds s] |> else sh
      | None => sh
      end
  | None => sh
  end.

(** ** Cycling through the sessions *)
Definition default_surface (sh : Shell) (s : Session) : option Z := sh_session_surfaces sh !! s ≫= head.

(** The loop shared by [focus_next_session] and [focus_prev_session]: go on
    while the session has no surface, until the walk is back at [sentinel]. *)
Fixpoint skip_sessions (fuel : nat) (step : option Session -> outcome (option Session)) (sh : Shell)
    (sentinel session : option Session) : outcome (option Session) :=
  match fuel with
  | O => Throw out_of_fuel
  | S f =>
      match session with
      | None => Ret None
      | Some s =>
          match default_surface sh s with
          | Some _ => Ret session
          | None =>
              next ← step session;
              if decide (next = sentinel) then Ret next else skip_sessions f step sh sentinel next
          end
      end
  end.

Definition focus_session_by (step : option Session -> outcome (option Session)) (sh : Shell) : outcome Shell :=
  first ← step (focused_session sh);
  found ← skip_sessions (S (length (sh_apps sh))) step sh first first;
  let surface := found ≫= default_surface sh in
  let session := match surface with Some _ => found | None => None end in
  Ret (update_focus_locked sh session surface).

Definition focus_next_session (sh : Shell) : outcome Shell := focus_session_by (successor_of (sh_apps sh)) sh.
Definition focus_prev_session (sh : Shell) : outcome Shell := focus_session_by (predecessor_of (sh_apps sh)) sh.

(** ** The focus follows the tree of surfaces *)
Definition parent_rel (sh : Shell) (c p : Z) : Prop := surface_parent sh c = Some p.

(** Parents exist before their children. *)
Definition ranked (sh : Shell) : Prop :=
  exists rank : Z -> nat, forall c p, sh_parents sh !! c = Some p -> (rank p < rank c)%nat.

Lemma lock_Some {A} (m : gmap Z A) p id : lock m p = Some id <-> p = Some id /\ is_Some (m !! id).
Proof. destruct p as [x|]; cbn; [|naive_solver]. case_decide; naive_solver. Qed.

Lemma lock_dom {A} (m m' : gmap Z A) p : dom m = dom m' -> lock m p = lock m' p.
Proof.
  intros E. destruct p as [x|]; [|done]. cbn.
  assert (is_Some (m !! x) <-> is_Some (m' !! x)) as Hx by (rewrite <-!elem_of_dom; by rewrite E).
  do 2 case_decide; tauto.
Qed.

Lemma parent_rel_rank sh : ranked sh -> exists rank : Z -> nat, forall c p, parent_rel sh c p -> (rank p < rank c)%nat.
Proof. intros [rank H]. exists rank. intros c p [E _]%lock_Some. by apply H. Qed.

Lemma rtc_rank sh (rank : Z -> nat) x y :
  (forall c p, parent_rel sh c p -> (rank p < rank c)%nat) -> rtc (parent_rel sh) x y -> (rank y <= rank x)%nat.
Proof. intros Hr. induction 1 as [|x y z H _ IH]; [done|]. apply Hr in H. lia. Qed.

Lemma rtc_known sh x y : is_Some (sh_surfaces sh !! x) -> rtc (parent_rel sh) x y -> is_Some (sh_surfaces sh !! y).
Proof. intros Hx. induction 1 as [|x y z [_ H]%lock_Some _ IH]; [done|]. by apply IH. Qed.

Lemma ancestry_rtc sh fuel (known : gset Z) id :
  ranked sh -> (forall x, rtc (parent_rel sh) id x -> x ∈ known) -> (size known <= fuel)%nat ->
  forall x, x ∈ ancestry fuel sh (Some id) <-> rtc (parent_rel sh) id x.
Proof.
  intros [rank Hrank]%parent_rel_rank. revert known id. induction fuel as [|fuel IH]; intros known id Hk Hs x.
  - assert (known = ∅) as -> by (apply leibniz_equiv, size_empty_iff; lia).
    exfalso. specialize (Hk id (rtc_refl _ _)). set_solver.
  - cbn [ancestry]. rewrite elem_of_cons. destruct (surface_parent sh id) as [p|] eqn:Ep.
    + rewrite (IH (known ∖ {[id]}) p).
      * split.
        -- intros [->|H]; [done|]. by eapply rtc_l.
        -- intros H. inversion H as [|? y ? Hy Hr]; subst; [by left|]. right. unfold parent_rel in Hy. congruence.
      * intros y Hy. apply elem_of_difference. split; [apply Hk; by eapply rtc_l|].
        pose proof (rtc_rank sh rank p y Hrank Hy). specialize (Hrank id p Ep). rewrite elem_of_singleton. intros ->. lia.
      * rewrite size_difference by (specialize (Hk id (rtc_refl _ _)); set_solver). rewrite size_singleton. lia.
    + assert (ancestry fuel sh None = []) as -> by by destruct fuel. split.
      * intros [->|H]; [done|]. by apply not_elem_of_nil in H.
      * intros H. inversion H as [|? y ? Hy Hr]; subst; [by left|]. unfold parent_rel in Hy. congruence.
Qed.

Lemma focus_tree_spec sh item x :
  ranked sh -> (forall id, item = Some id -> is_Some (sh_surfaces sh !! id)) ->
  x ∈ focus_tree sh item <-> exists id, item = Some id /\ rtc (parent_rel sh) id x.
Proof.
  intros Hr Hi. unfold focus_tree. destruct item as [id|].
  - rewrite (ancestry_rtc sh _ (dom (sh_surfaces sh)) id Hr); [naive_solver| |by rewrite size_dom].
    intros y Hy. apply elem_of_dom. eapply rtc_known; [|exact Hy]. by apply Hi.
  - assert (ancestry (size (sh_surfaces sh)) sh None = []) as -> by by destruct (size _).
    split; [by intros ?%not_elem_of_nil|naive_solver].
Qed.

Lemma foldl_set_focus f l m id :
  foldl (set_surface_focus f) m l !! id =
    (fun s => if bool_decide (id ∈ l) then s <| sf_focus := f |> else s) <$> m !! id.
Proof.
  revert m. induction l as [|x l IH]; intros m; cbn [foldl].
  - rewrite bool_decide_false by apply not_elem_of_nil. by destruct (m !! id).
  - rewrite IH. unfold set_surface_focus.
    destruct (decide (x = id)) as [->|Hne].
    + destruct (m !! id) as [s|] eqn:E; [|by rewrite E]. rewrite lookup_insert_eq. cbn.
      rewrite (bool_decide_true (id ∈ id :: l)) by set_solver. by case_bool_decide.
    + assert ((match m !! x with Some s => <[x := s <| sf_focus := f |>]> m | None => m end) !! id = m !! id) as ->.
      { destruct (m !! x); [|done]. by rewrite lookup_insert_ne. }
      by rewrite (bool_decide_ext (id ∈ l) (id ∈ x :: l)) by set_solver.
Qed.

Lemma foldl_set_focus_dom f l m : dom (foldl (set_surface_focus f) m l) = dom m.
Proof.
  apply set_eq. intros id. rewrite !elem_of_dom, foldl_set_focus. by rewrite fmap_is_Some.
Qed.

(** A surface of the tree that has the focus, [in_tree], is in the focused state;
    and no other is, if the surfaces have gone away tidily. *)
Definition focus_ok (tidy : bool) (f : MirWindowFocusState) (in_tree : Prop) : Prop :=
  (in_tree -> f = mir_window_focus_state_focused) /\ (tidy = true -> f = mir_window_focus_state_focused -> in_tree).
Lemma focus_ok_iff tidy f P Q : (P <-> Q) -> focus_ok tidy f P <-> focus_ok tidy f Q.
Proof. unfold focus_ok. tauto. Qed.

Record shell_ok (tidy : bool) (sh : Shell) : Prop := {
  shell_ranked : ranked sh;
  shell_parents : forall c p, sh_parents sh !! c = Some p -> is_Some (sh_surfaces sh !! c);
  shell_focus : forall id s, sh_surfaces sh !! id = Some s ->
    focus_ok tidy (sf_focus s) (id ∈ focus_tree sh (lock (sh_surfaces sh) (notified_focus_surface sh)));
  shell_target : targeter_focus sh = notified_focus_surface sh
}.

(** What happens to the shell: a surface is created under an existing parent,
    a surface goes away, a surface changes in other respects, sessions come and
    go, the focus is set or moves to the next or the previous session. *)
Inductive shell_op :=
| OpCreate (id : Z) (s : Surface) (parent : option Z)
| OpExpire (id : Z)
| OpChange (id : Z) (s : Surface)
| OpSessions (apps : SessionContainer) (surfaces : gmap Session (list Z))
| OpSetFocus (session : option Session) (surface : option Z)
| OpNextSession
| OpPrevSession.

Definition shell_enabled (sh : Shell) (o : shell_op) : Prop :=
  match o with
  | OpCreate id s parent =>
      sh_surfaces sh !! id = None /\ notified_focus_surface sh <> Some id /\
      (forall c, sh_parents sh !! c <> Some id) /\ sf_focus s = mir_window_focus_state_unfocused /\
      (forall p, parent = Some p -> is_Some (sh_surfaces sh !! p))
  | OpChange id s => exists s0, sh_surfaces sh !! id = Some s0 /\ sf_focus s = sf_focus s0
  | OpSetFocus _ surface => forall id, surface = Some id -> is_Some (sh_surfaces sh !! id)
  | OpExpire _ | OpSessions _ _ | OpNextSession | OpPrevSession => True
  end.
(** The surface that goes away is not part of the focused tree, or is its root and
    not the surface that has the focus itself. *)
Definition tidily (sh : Shell) (o : shell_op) : Prop :=
  match o with
  | OpExpire id => id ∉ focus_tree sh (lock (sh_surfaces sh) (notified_focus_surface sh))
                   \/ surface_parent sh id = None /\ notified_focus_surface sh <> Some id
  | _ => True
  end.

Definition shell_step (sh : Shell) (o : shell_op) : outcome Shell :=
  match o with
  | OpCreate id s parent =>
      Ret (sh <| sh_surfaces := <[id := s]> (sh_surfaces sh) |>
              <| sh_parents := match parent with Some p => <[id := p]> (sh_parents sh) | None => sh_parents sh end |>)
  | OpExpire id =>
      Ret (sh <| sh_surfaces := delete id (sh_surfaces sh) |> <| sh_parents := delete id (sh_parents sh) |>)
  | OpChange id s => Ret (update_focused_surface_confined_region (sh <| sh_surfaces := <[id := s]> (sh_surfaces sh) |>))
  | OpSessions apps surfaces => Ret (sh <| sh_apps := apps |> <| sh_session_surfaces := surfaces |>)
  | OpSetFocus session surface => Ret (set_focus_to sh session surface)
  | OpNextSession => focus_next_session sh
  | OpPrevSession => focus_prev_session sh
  end.

(** The states that are reached, and those that are reached while surfaces go away
    tidily only. *)
Inductive shell_reachable (tidy : bool) : Shell -> Prop :=
| shell_start : shell_reachable tidy (mkShell ∅ ∅ [] ∅ None None None None [])
| shell_next sh o sh' :
    shell_reachable tidy sh -> shell_enabled sh o -> (tidy = true -> tidily sh o) -> shell_step sh o = Ret sh' ->
    shell_reachable tidy sh'.

Lemma ancestry_ext sh sh' fuel item :
  (forall c, surface_parent sh' c = surface_parent sh c) -> ancestry fuel sh' item = ancestry fuel sh item.
Proof.
  intros H. revert item. induction fuel as [|fuel IH]; intros [id|]; cbn [ancestry]; [done..| |done]. by rewrite H, IH.
Qed.

Lemma focus_tree_ext sh sh' item :
  dom (sh_surfaces sh') = dom (sh_surfaces sh) -> sh_parents sh' = sh_parents sh ->
  focus_tree sh' item = focus_tree sh item.
Proof.
  intros Hd Hp. unfold focus_tree. rewrite <-!size_dom, Hd. apply ancestry_ext.
  intros c. unfold surface_parent. rewrite Hp. by apply lock_dom.
Qed.

Lemma shell_ok_keep tidy sh sh' :
  shell_ok tidy sh -> dom (sh_surfaces sh') = dom (sh_surfaces sh) -> sh_parents sh' = sh_parents sh ->
  notified_focus_surface sh' = notified_focus_surface sh -> targeter_focus sh' = targeter_focus sh ->
  (forall id s, sh_surfaces sh' !! id = Some s ->
     exists s0, sh_surfaces sh !! id = Some s0 /\ sf_focus s = sf_focus s0) ->
  shell_ok tidy sh'.
Proof.
  intros [Hr Hp Hf Ht] Hd Hpar Hn Htgt Hs. split.
  - unfold ranked. by rewrite Hpar.
  - intros c p. rewrite Hpar, <-elem_of_dom, Hd, elem_of_dom. apply Hp.
  - intros id s Hid. rewrite (focus_tree_ext sh sh') by done. rewrite Hn, (lock_dom _ (sh_surfaces sh)) by done.
    destruct (Hs id s Hid) as (s0 & H0 & ->). by apply Hf.
  - by rewrite Htgt, Hn.
Qed.

Lemma notify_focus_ok tidy sh surface :
  shell_ok tidy sh -> (forall id, surface = Some id -> is_Some (sh_surfaces sh !! id)) ->
  shell_ok tidy (notify_focus_locked sh surface) /\
  lock (sh_surfaces (notify_focus_locked sh surface)) (notified_focus_surface (notify_focus_locked sh surface)) = surface.
Proof.
  intros Hok Hsurf. unfold notify_focus_locked. case_decide as Heq.
  { split; [done|]. by rewrite Heq. }
  set (cur := focus_tree sh (lock (sh_surfaces sh) (notified_focus_surface sh))). set (new := focus_tree sh surface).
  set (off := filter (fun item => item ∉ reverse new) cur).
  set (on := filter (fun item => item ∉ cur) (reverse new)).
  set (sh1 := sh <| notified_focus_surface := surface |> <| confinement_regions := [] |> <| sh_surfaces := _ |>).
  match goal with |- shell_ok _ ?x /\ _ => set (sh' := x) end.
  assert (Hsurfs : forall id, sh_surfaces sh' !! id =
    (fun s => if bool_decide (id ∈ new) then (if bool_decide (id ∈ cur) then s else s <| sf_focus := mir_window_focus_state_focused |>)
              else if bool_decide (id ∈ cur) then s <| sf_focus := mir_window_focus_state_unfocused |> else s) <$> sh_surfaces sh !! id).
  { intros id. subst sh'. destruct surface as [n|]; cbn [sh_surfaces assign].
    - unfold sh1; cbn [sh_surfaces assign]. rewrite !foldl_set_focus, <-option_fmap_compose.
      destruct (sh_surfaces sh !! id) as [s|]; [|done]. cbn. f_equal.
      unfold off, on. rewrite !(bool_decide_ext (id ∈ filter _ _) _ (list_elem_of_filter _ _ _)).
      pose proof (elem_of_reverse id new) as Hrev.
      destruct (decide (id ∈ cur)), (decide (id ∈ new)); repeat case_bool_decide; try done; exfalso; tauto.
    - unfold sh1; cbn [sh_surfaces assign]. rewrite foldl_set_focus. destruct (sh_surfaces sh !! id) as [s|]; [|done]. cbn. f_equal.
      unfold off. rewrite !(bool_decide_ext (id ∈ filter _ _) _ (list_elem_of_filter _ _ _)).
      assert (new = []) as -> by (unfold new, focus_tree; by destruct (size _)).
      destruct (decide (id ∈ cur)); repeat case_bool_decide; try done; exfalso; rewrite ?elem_of_reverse in *; set_solver. }
  assert (Hd : dom (sh_surfaces sh') = dom (sh_surfaces sh)).
  { apply set_eq. intros id. by rewrite !elem_of_dom, Hsurfs, fmap_is_Some. }
  assert (Hp : sh_parents sh' = sh_parents sh) by by subst sh'; destruct surface.
  assert (Hn : notified_focus_surface sh' = surface) by by subst sh'; destruct surface.
  assert (Hl : lock (sh_surfaces sh') (notified_focus_surface sh') = surface).
  { rewrite Hn, (lock_dom _ (sh_surfaces sh)) by done. destruct surface as [n|]; [|done]. apply lock_Some. eauto. }
  split; [|done]. destruct Hok as [Hr Hpar Hf Ht]. split.
  - unfold ranked. by rewrite Hp.
  - intros c p. rewrite Hp, <-elem_of_dom, Hd, elem_of_dom. apply Hpar.
  - intros id s. rewrite Hl, Hsurfs, (focus_tree_ext sh) by done. fold new.
    destruct (sh_surfaces sh !! id) as [s0|] eqn:E0; [|done]. cbn. intros [= <-].
    specialize (Hf id s0 E0). fold cur in Hf. unfold focus_ok in *. repeat case_bool_decide; cbn; naive_solver.
  - rewrite Hn. by subst sh'; destruct surface.
Qed.

Lemma shell_focus_iff tidy sh :
  ranked sh ->
  ((forall id s, sh_surfaces sh !! id = Some s ->
     focus_ok tidy (sf_focus s) (id ∈ focus_tree sh (lock (sh_surfaces sh) (notified_focus_surface sh)))) <->
   (forall id s, sh_surfaces sh !! id = Some s ->
     focus_ok tidy (sf_focus s) (exists n, lock (sh_surfaces sh) (notified_focus_surface sh) = Some n /\ rtc (parent_rel sh) n id))).
Proof.
  intros Hr. assert (Hk : forall id, lock (sh_surfaces sh) (notified_focus_surface sh) = Some id -> is_Some (sh_surfaces sh !! id))
    by by intros id [_ ?]%lock_Some.
  split; intros H id s Hs; specialize (H id s Hs); (eapply focus_ok_iff; [|exact H]); [symmetry|]; by apply focus_tree_spec.
Qed.

(** A relation that agrees with another one on the points reached. *)
Lemma rtc_agree {A} (R R' : relation A) (P : A -> Prop) x y :
  P x -> (forall a b, P a -> R a b -> P b) -> (forall a b, P a -> R a b <-> R' a b) -> rtc R x y <-> rtc R' x y.
Proof.
  intros Hx Hstep Hagree. split; intros H; revert Hx; induction H as [|a b c Hab _ IH]; intros Ha; try done.
  - eapply rtc_l; [by apply Hagree|]. apply IH. eauto.
  - apply Hagree in Hab; [|done]. eapply rtc_l; [done|]. apply IH. eauto.
Qed.

Lemma create_parent_rel sh id s parent a b :
  shell_enabled sh (OpCreate id s parent) -> a <> id ->
  parent_rel sh a b <->
  parent_rel (sh <| sh_surfaces := <[id := s]> (sh_surfaces sh) |>
                 <| sh_parents := match parent with Some p => <[id := p]> (sh_parents sh) | None => sh_parents sh end |>) a b.
Proof.
  intros (Hid & _ & Hc & _ & _) Ha. unfold parent_rel, surface_parent. rewrite !lock_Some. cbn.
  assert ((match parent with Some p => <[id := p]> (sh_parents sh) | None => sh_parents sh end) !! a = sh_parents sh !! a) as ->.
  { destruct parent; [by rewrite lookup_insert_ne|done]. }
  destruct (decide (b = id)) as [->|Hb]; [by split; intros [? _]; exfalso; eapply Hc|]. by rewrite lookup_insert_ne.
Qed.

Lemma shell_create_ok tidy sh id s parent sh' :
  shell_ok tidy sh -> shell_enabled sh (OpCreate id s parent) -> shell_step sh (OpCreate id s parent) = Ret sh' -> shell_ok tidy sh'.
Proof.
  intros [Hr Hp Hf Ht] Hen [= <-]. pose proof Hen as (Hid & Hn & Hc & Hunf & Hpar).
  pose proof (create_parent_rel sh id s parent) as Hrel.
  set (sh' := sh <| sh_surfaces := _ |> <| sh_parents := _ |>) in *.
  assert (Hr' : ranked sh').
  { destruct Hr as [rank Hrank]. exists (fun x => if decide (x = id) then S (match parent with Some p => rank p | None => O end) else rank x).
    intros c p Hcp. cbn in Hcp.
    assert (p <> id) by (intros ->; destruct parent as [q|];
      [apply lookup_insert_Some in Hcp as [[<- ->]|[_ ?]]; [destruct (Hpar id eq_refl); congruence|by eapply Hc]|by eapply Hc]).
    rewrite (decide_False (P := p = id)) by done. destruct parent as [q|].
    - apply lookup_insert_Some in Hcp as [[<- ->]|[Hne ?]]; [rewrite decide_True by done; lia|].
      rewrite decide_False by done. by apply Hrank.
    - rewrite decide_False; [by apply Hrank|]. intros ->. apply Hp in Hcp as [? ?]. congruence. }
  split; [done| | |done].
  - intros c p Hcp. cbn in Hcp |- *. destruct (decide (c = id)) as [->|Hne]; [by rewrite lookup_insert_eq; eauto|].
    rewrite lookup_insert_ne by done. destruct parent as [q|]; [rewrite lookup_insert_ne in Hcp by done|]; by eapply Hp.
  - apply (shell_focus_iff tidy sh' Hr'). intros x sx Hx.
    assert (Hlock : forall n, lock (sh_surfaces sh') (notified_focus_surface sh') = Some n <->
                              lock (sh_surfaces sh) (notified_focus_surface sh) = Some n).
    { intros n. rewrite !lock_Some. cbn. destruct (decide (n = id)) as [->|Hne]; [naive_solver|]. by rewrite lookup_insert_ne. }
    assert (Hrtc : forall n y, n <> id -> rtc (parent_rel sh) n y <-> rtc (parent_rel sh') n y).
    { intros n y Hne. apply (rtc_agree _ _ (fun a => a <> id)); [done| |by intros a b Ha; apply Hrel].
      intros a b _ [Hab _]%lock_Some ->. by eapply Hc. }
    assert (Hnid : forall n, lock (sh_surfaces sh) (notified_focus_surface sh) = Some n -> n <> id) by (intros n [? [? ?]]%lock_Some; congruence).
    cbn in Hx. destruct (decide (x = id)) as [->|Hne].
    + rewrite lookup_insert_eq in Hx. injection Hx as <-. rewrite Hunf. split; [|done].
      intros (n & Hl%Hlock & Hreach). apply Hrtc in Hreach; [|by apply Hnid].
      pose proof Hl as [_ Hkn]%lock_Some. destruct (rtc_known sh n id Hkn Hreach). congruence.
    + rewrite lookup_insert_ne in Hx by done. eapply focus_ok_iff; [|exact (proj1 (shell_focus_iff tidy sh Hr) Hf x sx Hx)].
      split; intros (n & Hl & Hreach); exists n; [apply (Hlock n) in Hl as Hl'|apply (Hlock n) in Hl as Hl'];
        (split; [done|]); apply Hrtc; eauto.
Qed.

Lemma expire_parent_rel sh id a b :
  a <> id -> b <> id ->
  parent_rel sh a b <->
  parent_rel (sh <| sh_surfaces := delete id (sh_surfaces sh) |> <| sh_parents := delete id (sh_parents sh) |>) a b.
Proof.
  intros Ha Hb. unfold parent_rel, surface_parent. rewrite !lock_Some. cbn. by rewrite !lookup_delete_ne.
Qed.

Lemma shell_expire_ok tidy sh id sh' :
  shell_ok tidy sh -> (tidy = true -> tidily sh (OpExpire id)) -> shell_step sh (OpExpire id) = Ret sh' -> shell_ok tidy sh'.
Proof.
  intros [Hr Hp Hf Ht] Hen [= <-]. pose proof (expire_parent_rel sh id) as Hrel.
  set (sh' := sh <| sh_surfaces := _ |> <| sh_parents := _ |>) in *.
  assert (Hr' : ranked sh').
  { destruct Hr as [rank Hrank]. exists rank. intros c p Hc. cbn in Hc. apply lookup_delete_Some in Hc as [_ Hc]. by apply Hrank. }
  split; [done| | |done].
  { intros c p Hc. cbn in Hc. apply lookup_delete_Some in Hc as [Hne ?]. cbn. rewrite lookup_delete_ne by done. by eapply Hp. }
  apply (shell_focus_iff tidy sh' Hr'). intros x sx Hsx. cbn in Hsx. apply lookup_delete_Some in Hsx as [Hx Hsx].
  destruct (proj1 (shell_focus_iff tidy sh Hr) Hf x sx Hsx) as [Hlit Hdark]. split.
  - intros (n & Hl & Hreach). apply Hlit. exists n. split.
    { apply lock_Some in Hl as [Hn [sn Hs]]. cbn in Hn, Hs. apply lookup_delete_Some in Hs as [_ Hs]. apply lock_Some. eauto. }
    apply (rtc_subrel (parent_rel sh')); [|done]. intros a b Hab. apply lock_Some in Hab as [Hab Hb]. cbn in Hab, Hb.
    apply lookup_delete_Some in Hab as [_ Hab]. apply lock_Some. split; [done|]. destruct Hb as [? [_ ?]%lookup_delete_Some]. eauto.
  - intros Htd Hfoc. destruct (Hdark Htd Hfoc) as (n & Hl & Hreach). specialize (Hen Htd). unfold tidily in Hen.
    rewrite focus_tree_spec in Hen by (done || by intros ? [_ ?]%lock_Some). exists n. assert (Hn : n <> id).
    { intros ->. destruct Hen as [Hen|[_ Hen]]; [by apply Hen; exists id|]. apply Hen. by apply lock_Some in Hl as [? _]. }
    split; [apply lock_Some in Hl as [? ?]; apply lock_Some; cbn; by rewrite lookup_delete_ne|].
    assert (Hout : forall y, rtc (parent_rel sh) n y -> rtc (parent_rel sh) y x -> y <> id).
    { intros y Hny Hyx ->. destruct Hen as [Hen|[Hroot _]]; [by apply Hen; exists n|].
      inversion Hyx as [|? z ? Hz _]; subst; [done|]. unfold parent_rel in Hz. congruence. }
    clear Hl Hlit Hdark Hfoc. induction Hreach as [|a b c Hab Hbc IH]; [done|].
    assert (b <> id) by (apply Hout; [by apply rtc_once|done]).
    apply rtc_l with b; [by apply Hrel|]. apply IH; [done..|]. intros y Hby. apply Hout. by eapply rtc_l.
Qed.

Lemma dom_insert_known {A} (m : gmap Z A) id a : is_Some (m !! id) -> dom (<[id := a]> m) = dom m.
Proof. intros H%elem_of_dom. apply set_eq. intros x. set_solver. Qed.

Lemma focus_session_by_keeps step sh sh' :
  focus_session_by step sh = Ret sh' ->
  sh_surfaces sh' = sh_surfaces sh /\ sh_parents sh' = sh_parents sh /\
  notified_focus_surface sh' = notified_focus_surface sh /\ targeter_focus sh' = targeter_focus sh.
Proof. intros (? & _ & (? & _ & [= <-])%outcome_bind_Ret)%outcome_bind_Ret. done. Qed.

Lemma shell_step_ok tidy sh o sh' :
  shell_ok tidy sh -> shell_enabled sh o -> (tidy = true -> tidily sh o) -> shell_step sh o = Ret sh' -> shell_ok tidy sh'.
Proof.
  intros Hok Hen Htd Hstep. destruct o as [id s parent|id|id s|apps surfs|session surface| |].
  - by eapply shell_create_ok.
  - by eapply shell_expire_ok.
  - injection Hstep as <-. destruct Hen as (s0 & H0 & Hfocus).
    set (sh1 := sh <| sh_surfaces := _ |>).
    assert (Hok1 : shell_ok tidy sh1).
    { apply (shell_ok_keep tidy sh); try done; cbn; [by apply dom_insert_known|].
      intros x sx [[<- <-]|[_ ?]]%lookup_insert_Some; eauto. }
    unfold update_focused_surface_confined_region. repeat case_match; try done.
    apply (shell_ok_keep tidy sh1); try done. eauto.
  - injection Hstep as <-. apply (shell_ok_keep tidy sh); try done. eauto.
  - injection Hstep as <-. destruct (notify_focus_ok tidy sh surface Hok Hen) as [Hn _].
    apply (shell_ok_keep tidy _ _ Hn); try done. eauto.
  - apply focus_session_by_keeps in Hstep as (E1 & ? & ? & ?). apply (shell_ok_keep tidy sh); rewrite ?E1; try done. eauto.
  - apply focus_session_by_keeps in Hstep as (E1 & ? & ? & ?). apply (shell_ok_keep tidy sh); rewrite ?E1; try done. eauto.
Qed.

Lemma shell_reachable_ok tidy sh : shell_reachable tidy sh -> shell_ok tidy sh.
Proof.
  induction 1 as [|sh o sh' _ IH Hen Htd Hstep]; [|by eapply shell_step_ok]. split; cbn; try done.
  by exists (fun _ => O).
Qed.

(** C37: the focus follows the tree of surfaces.  In every state the shell can
    reach, whichever surfaces have gone away, the surface that was given the focus
    last, if it is still there, and its ancestors are in the focused state, and key
    events are for that surface; [set_focus_to] gives the focus to the surface
    it is asked for.  No other surface is in the focused state if neither the
    surface that had the focus nor one in the middle of its line of ancestors has
    ever been destroyed while it had the focus ([tidily]); see
    [ancestor_stays_focused]. *)
Theorem focus_follows_tree (tidy : bool) (sh : Shell) :
  shell_reachable tidy sh ->
  (forall id s n, sh_surfaces sh !! id = Some s -> lock (sh_surfaces sh) (notified_focus_surface sh) = Some n ->
     rtc (parent_rel sh) n id -> sf_focus s = mir_window_focus_state_focused) /\
  (forall id s, tidy = true -> sh_surfaces sh !! id = Some s -> sf_focus s = mir_window_focus_state_focused ->
     exists n, lock (sh_surfaces sh) (notified_focus_surface sh) = Some n /\ rtc (parent_rel sh) n id) /\
  targeter_focus sh = notified_focus_surface sh /\
  (forall session surface, (forall id, surface = Some id -> is_Some (sh_surfaces sh !! id)) ->
     let sh' := set_focus_to sh session surface in
     shell_reachable tidy sh' /\ lock (sh_surfaces sh') (notified_focus_surface sh') = surface /\
     focused_surface sh' = surface).
Proof.
  intros Hreach. pose proof (shell_reachable_ok tidy sh Hreach) as Hok.
  pose proof (proj1 (shell_focus_iff tidy sh (shell_ranked _ _ Hok)) (shell_focus _ _ Hok)) as Hf. split; [|split; [|split]].
  - intros id s n Hs Hl Hn. apply (Hf id s Hs). eauto.
  - intros id s Htd Hs Hfoc. by apply (Hf id s Hs).
  - apply Hok.
  - intros session surface Hs sh'. destruct (notify_focus_ok tidy sh surface Hok Hs) as [_ Hl].
    split; [by apply (shell_next tidy sh (OpSetFocus session surface))|]. split; [done|].
    change (lock (sh_surfaces (notify_focus_locked sh surface)) surface = surface).
    destruct surface as [id|]; [|done]. apply lock_Some. split; [done|]. by apply lock_Some in Hl as [_ ?].
Qed.

(** Setting the focus changes nothing of a surface but its focus. *)
Definition blur (s : Surface) : Surface := s <| sf_focus := mir_window_focus_state_unfocused |>.

Lemma foldl_set_focus_blur f l m id : blur <$> foldl (set_surface_focus f) m l !! id = blur <$> m !! id.
Proof. rewrite foldl_set_focus. destruct (m !! id) as [s|]; [|done]. cbn. by case_bool_decide. Qed.

Lemma set_focus_to_blur sh session surface id :
  blur <$> sh_surfaces (set_focus_to sh session surface) !! id = blur <$> sh_surfaces sh !! id.
Proof.
  change (blur <$> sh_surfaces (notify_focus_locked sh surface) !! id = blur <$> sh_surfaces sh !! id).
  unfold notify_focus_locked. case_decide; [done|].
  destruct surface as [n|]; cbn [sh_surfaces assign]; by rewrite !foldl_set_focus_blur.
Qed.

(** ** The next session with a surface *)
(** The sessions in the order in which the focus visits them. *)
Definition cycle_from (k : nat) (apps : SessionContainer) : list Session := drop k apps ++ take k apps.

Definition sessions_after (apps : SessionContainer) (focused : option Session) : list Session :=
  match focused with
  | Some s => match list_find (eq s) apps with Some (i, _) => cycle_from (S i) apps | None => [] end
  | None => cycle_from (length apps - 1) apps
  end.

Definition has_surface (sh : Shell) (s : Session) : bool := bool_decide (is_Some (default_surface sh s)).

Lemma cycle_from_lookup k apps j :
  (k <= length apps)%nat -> (j < length apps)%nat -> cycle_from k apps !! j = apps !! ((k + j) mod length apps)%nat.
Proof.
  intros Hk Hj. unfold cycle_from. destruct (decide (k + j < length apps)%nat) as [Hlt|Hge].
  - rewrite lookup_app_l by (rewrite length_drop; lia). by rewrite lookup_drop, Nat.mod_small.
  - rewrite lookup_app_r by (rewrite length_drop; lia). rewrite length_drop, lookup_take_lt by lia. f_equal.
    replace (k + j)%nat with ((k + j - length apps) + 1 * length apps)%nat by lia.
    rewrite Nat.Div0.mod_add, Nat.mod_small by lia. lia.
Qed.

Lemma cycle_from_Permutation k apps : cycle_from k apps ≡ₚ apps.
Proof. unfold cycle_from. rewrite (comm app). by rewrite take_drop. Qed.

Lemma successor_cycle apps k j s :
  NoDup apps -> (k <= length apps)%nat -> cycle_from k apps !! j = Some s ->
  successor_of apps (Some s) = Ret (cycle_from k apps !! (S j mod length apps)%nat).
Proof.
  intros Hn Hk Hj. pose proof (lookup_lt_Some _ _ _ Hj) as Hlt. rewrite cycle_from_Permutation in Hlt.
  rewrite cycle_from_lookup in Hj by done. rewrite (successor_index apps _ s Hn Hj).
  rewrite cycle_from_lookup by (done || by apply Nat.mod_upper_bound; lia).
  rewrite Nat.Div0.add_mod_idemp_r, <-Nat.add_1_r, Nat.Div0.add_mod_idemp_l. do 3 f_equal. lia.
Qed.

Lemma skip_sessions_cycle sh apps k j fuel :
  NoDup apps -> (k <= length apps)%nat -> (j < length apps)%nat -> (length apps <= fuel + j)%nat ->
  skip_sessions (S fuel) (successor_of apps) sh (cycle_from k apps !! 0%nat) (cycle_from k apps !! j) =
  Ret (match find_if (has_surface sh) (drop j (cycle_from k apps)) with
       | Some s => Some s
       | None => cycle_from k apps !! 0%nat
       end).
Proof.
  intros Hn Hk. set (order := cycle_from k apps).
  assert (Hlen : length order = length apps) by apply Permutation_length, cycle_from_Permutation.
  assert (Hnd : NoDup order) by (unfold order; by rewrite cycle_from_Permutation).
  revert j. induction fuel as [|fuel IH]; intros j Hj Hf; [lia|].
  remember (S fuel) as f eqn:Ef. destruct (lookup_lt_is_Some_2 order j) as [s Hs]; [lia|].
  rewrite (drop_S _ _ _ Hs). cbn [find_if skip_sessions]. rewrite Hs. unfold has_surface at 1.
  destruct (default_surface sh s) as [surf|] eqn:Ed; [by rewrite bool_decide_true by eauto|].
  rewrite bool_decide_false by (intros [? ?]; done).
  rewrite (successor_cycle apps k j s Hn Hk Hs). cbn [mbind outcome_bind]. fold order.
  destruct (decide (S j = length apps)) as [E|E].
  - rewrite E, Nat.Div0.mod_same, decide_True by done. rewrite drop_ge by lia. done.
  - rewrite (Nat.mod_small (S j)) by lia. destruct (lookup_lt_is_Some_2 order (S j)) as [s' Hs']; [lia|].
    rewrite decide_False.
    + rewrite (IH (S j)) by lia. done.
    + intros Heq. rewrite Hs' in Heq. symmetry in Heq. pose proof (NoDup_lookup _ _ _ _ Hnd Hs' Heq). lia.
Qed.

Lemma focus_session_by_cycle sh apps :
  NoDup apps -> length apps = length (sh_apps sh) -> (forall s, focused_session sh = Some s -> s ∈ apps) ->
  let found := find_if (has_surface sh) (sessions_after apps (focused_session sh)) in
  focus_session_by (successor_of apps) sh = Ret (update_focus_locked sh found (found ≫= default_surface sh)).
Proof.
  intros Hn Hlen Hin found.
  assert (Hgo : forall k, (k <= length apps)%nat -> sessions_after apps (focused_session sh) = cycle_from k apps ->
    successor_of apps (focused_session sh) = Ret (cycle_from k apps !! 0%nat) -> (0 < length apps)%nat ->
    focus_session_by (successor_of apps) sh = Ret (update_focus_locked sh found (found ≫= default_surface sh))).
  { intros k Hk Ha Hs Hpos. unfold focus_session_by. rewrite Hs. cbn [mbind outcome_bind].
    rewrite <-Hlen, (skip_sessions_cycle sh apps k 0) by (done || lia). cbn [mbind outcome_bind].
    subst found. rewrite Ha, drop_0. destruct (find_if _ _) as [s|] eqn:Ef.
    - apply find_if_Some in Ef as [_ Ef]. unfold has_surface in Ef. breflect. destruct Ef as [surf Ef]. cbn. by rewrite Ef.
    - destruct (cycle_from k apps !! 0%nat) as [s|] eqn:E0; [|done]. cbn.
      assert (Hno : has_surface sh s = false) by (eapply find_if_None; [exact Ef|by eapply list_elem_of_lookup_2]).
      unfold has_surface in Hno. breflect. destruct (default_surface sh s); [by destruct Hno|done]. }
  destruct (focused_session sh) as [s|] eqn:Efoc.
  - specialize (Hin s eq_refl). destruct (list_find_elem_of (eq s) apps s Hin eq_refl) as [[i y] Hf].
    apply list_find_Some in Hf as Hf'. destruct Hf' as (Hi & <- & _). pose proof (lookup_lt_Some _ _ _ Hi) as Hlt.
    apply (Hgo (S i)); [lia| | |lia].
    + cbn. by rewrite Hf.
    + rewrite (successor_index apps i s Hn Hi), cycle_from_lookup by lia. do 3 f_equal. lia.
  - destruct apps as [|x l]; [by subst found; unfold focus_session_by; rewrite Efoc|].
    apply (Hgo (length (x :: l) - 1)%nat); [lia|done| |cbn; lia].
    rewrite cycle_from_lookup by (cbn; lia). cbn [successor_of]. rewrite last_lookup. do 2 f_equal.
    rewrite Nat.mod_small by (cbn; lia). cbn. lia.
Qed.

Lemma predecessor_reverse apps s : predecessor_of apps s = successor_of (reverse apps) s.
Proof.
  destruct s as [s|]; [done|]. cbn. rewrite last_reverse. destruct apps as [|x l]; [done|].
  rewrite reverse_cons. destruct (reverse l); done.
Qed.

Lemma skip_sessions_ext step step' sh fuel a b :
  (forall s, step s = step' s) -> skip_sessions fuel step sh a b = skip_sessions fuel step' sh a b.
Proof.
  intros E. revert b. induction fuel as [|f IH]; intros b; cbn [skip_sessions]; [done|]. destruct b as [s|]; [|done].
  destruct (default_surface sh s); [done|]. rewrite E. destruct (step' (Some s)) as [n|]; [|done].
  cbn [mbind outcome_bind]. by case_decide.
Qed.

Lemma focus_session_by_ext step step' sh :
  (forall s, step s = step' s) -> focus_session_by step sh = focus_session_by step' sh.
Proof.
  intros E. unfold focus_session_by. rewrite E. destruct (step' _) as [f|]; [|done]. cbn [mbind outcome_bind].
  by rewrite (skip_sessions_ext step step').
Qed.

Lemma sessions_after_Permutation apps focused :
  (forall s, focused = Some s -> s ∈ apps) -> sessions_after apps focused ≡ₚ apps.
Proof.
  intros Hin. destruct focused as [s|]; cbn; [|apply cycle_from_Permutation].
  destruct (list_find_elem_of (eq s) apps s (Hin s eq_refl) eq_refl) as [[i y] ->]. apply cycle_from_Permutation.
Qed.

(** moving the focus to the next or the previous session always ends, and
    gives it to the first session, in the cyclic order of the sessions after
    (or before) the focused one, that has a surface; no session gets it only
    if none has a surface, and the surfaces themselves are not notified. *)
Theorem focus_next_session_cycles (sh : Shell) :
  NoDup (sh_apps sh) ->
  let next := find_if (has_surface sh) (sessions_after (sh_apps sh) (focused_session sh)) in
  let prev := find_if (has_surface sh) (sessions_after (reverse (sh_apps sh)) (focused_session sh)) in
  focus_next_session sh = Ret (update_focus_locked sh next (next ≫= default_surface sh)) /\
  focus_prev_session sh = Ret (update_focus_locked sh prev (prev ≫= default_surface sh)) /\
  (next = None <-> forall s, s ∈ sh_apps sh -> default_surface sh s = None).
Proof.
  intros Hn next prev.
  assert (Hin : forall s, focused_session sh = Some s -> s ∈ sh_apps sh).
  { unfold focused_session. intros s. repeat case_match; naive_solver. }
  split; [|split].
  - by apply focus_session_by_cycle.
  - unfold focus_prev_session. rewrite (focus_session_by_ext _ (successor_of (reverse (sh_apps sh))) sh) by apply predecessor_reverse.
    apply focus_session_by_cycle; [by rewrite reverse_Permutation|by rewrite length_reverse|].
    intros s Hs. by apply elem_of_reverse, Hin.
  - subst next. rewrite find_if_None. split; intros H s Hs.
    + destruct (default_surface sh s) eqn:E; [|done]. assert (has_surface sh s = false) as Hf.
      { apply H. by rewrite (sessions_after_Permutation (sh_apps sh)). }
      unfold has_surface in Hf. breflect. destruct Hf. eauto.
    + unfold has_surface. rewrite H; [by apply bool_decide_false; intros []|].
      by rewrite <-(sessions_after_Permutation (sh_apps sh) (focused_session sh)).
Qed.

(** ** Examples *)
(** Window 1 with the dialog 2, a second window 3, and two sessions of which
    the first has the windows; the dialog has the focus. *)
Definition example_ops : list shell_op :=
  [OpCreate 1 example_surface None; OpCreate 2 example_surface (Some 1); OpCreate 3 example_surface None;
   OpSessions [10; 20; 30] {[10 := [1; 2]; 30 := [3]]}; OpSetFocus (Some 10) (Some 2)].

Fixpoint run_shell (ops : list shell_op) (sh : Shell) : outcome Shell :=
  match ops with
  | [] => Ret sh
  | o :: rest => sh' ← shell_step sh o; run_shell rest sh'
  end.

Definition example_shell : Shell :=
  match run_shell example_ops (mkShell ∅ ∅ [] ∅ None None None None []) with
  | Ret sh => sh
  | Throw _ => mkShell ∅ ∅ [] ∅ None None None None []
  end.

Lemma example_shell_reachable : shell_reachable true example_shell.
Proof.
  eapply (shell_next _ _ (OpSetFocus (Some 10) (Some 2)));
    [eapply (shell_next _ _ (OpSessions [10; 20; 30] {[10 := [1; 2]; 30 := [3]]}));
      [eapply (shell_next _ _ (OpCreate 3 example_surface None));
        [eapply (shell_next _ _ (OpCreate 2 example_surface (Some 1)));
          [eapply (shell_next _ _ (OpCreate 1 example_surface None)); [apply shell_start| | |reflexivity]
          | | |reflexivity]
        | | |reflexivity]
      | | |reflexivity]
    | | |reflexivity].
  all: cbn [shell_enabled]; try done.
  all: split_and?; try done.
  all: try (intros p [= <-]; vm_compute; eauto).
  all: try (intros c; cbn; rewrite ?lookup_insert_Some, ?lookup_empty; naive_solver).
Qed.

Lemma focus_follows_tree_witness :
  (forall id s, sh_surfaces example_shell !! id = Some s -> sf_focus s = mir_window_focus_state_focused ->
     exists n, lock (sh_surfaces example_shell) (notified_focus_surface example_shell) = Some n /\
               rtc (parent_rel example_shell) n id) /\
  (sf_focus <$> sh_surfaces example_shell !! 1) = Some mir_window_focus_state_focused /\
  (sf_focus <$> sh_surfaces example_shell !! 2) = Some mir_window_focus_state_focused /\
  (sf_focus <$> sh_surfaces example_shell !! 3) = Some mir_window_focus_state_unfocused.
Proof.
  split; [|done]. intros id s. exact (proj1 (proj2 (focus_follows_tree true example_shell example_shell_reachable)) id s eq_refl).
Defined.

(** A surface in the middle of the line of ancestors is destroyed, and the focus
    moves on: the surface above stays in the focused state. *)
Example ancestor_stays_focused :
  match run_shell [OpCreate 1 example_surface None; OpCreate 2 example_surface (Some 1); OpCreate 3 example_surface (Some 2);
                   OpCreate 4 example_surface None; OpSetFocus None (Some 3); OpExpire 2; OpSetFocus None (Some 4)]
          (mkShell ∅ ∅ [] ∅ None None None None []) with
  | Ret sh => (fun id => sf_focus <$> sh_surfaces sh !! id) <$> [1; 3; 4]
  | Throw _ => []
  end = [Some mir_window_focus_state_focused; Some mir_window_focus_state_unfocused; Some mir_window_focus_state_focused].
Proof. reflexivity. Qed.

Lemma focus_next_session_cycles_witness :
  focus_next_session example_shell = Ret (update_focus_locked example_shell (Some 30) (Some 3)).
Proof.
  refine (eq_trans (proj1 (focus_next_session_cycles example_shell _)) _); [|reflexivity].
  vm_compute. by repeat constructor; set_solver.
Defined.
