(* ===== verification/WmState.v ===== *)
(** * miral::BasicWindowManager: state and queries

    The state of the window manager ([src/miral/basic_window_manager.h]), the
    monad in which its operations run, the list of recently used windows
    ([src/miral/mru_window_list.cpp]) and the queries that choose the display
    area of a window. *)
From S2P Require Import Prelude Geometry Schedule BufferStream Occlusion WindowInfo Surface Sessions Shell.

(** ** Data *)
Record Output := mkOutput { card_id : Z; output_id : Z; extents : Rectangle }.
Definition is_same_output (o other : Output) : bool :=
  (card_id o =? card_id other) && (output_id o =? output_id other).

Record Zone := mkZone { zone_id : Z; zone_extents : Rectangle }.
#[export] Instance Zone_eq_dec : EqDecision Zone.
Proof. solve_decision. Defined.

(** [attached_windows] is a [std::set], kept in the order of its keys. *)
Record DisplayArea := mkDisplayArea {
  da_area : Rectangle;
  da_application_zone : Zone;
  da_output : option Output;
  da_attached_windows : list Window
}.
#[export] Instance DisplayArea_eta : EtaExpansion DisplayArea := fun a =>
  mkDisplayArea (da_area a) (da_application_zone a) (da_output a) (da_attached_windows a).

(** A display area for a rectangle that is no output; the identity of its
    zone is never looked at. *)
Definition display_area_of_rectangle (r : Rectangle) : DisplayArea := mkDisplayArea r (mkZone 0 r) None [].

(** What the policy is told, in the order in which it is told. *)
Inductive Advice :=
| advise_new_app (s : Session)
| advise_delete_app (s : Session)
| advise_new_window (w : Window)
| advise_focus_lost (w : Window)
| advise_focus_gained (w : Window)
| advise_state_change (w : Window) (state : MirWindowState)
| advise_move_to (w : Window) (p : Point)
| advise_resize (w : Window) (s : Size)
| advise_raise (ws : list Window)
| advise_delete_window (w : Window)
| advise_adding_to_workspace (workspace : Z) (ws : list Window)
| advise_removing_from_workspace (workspace : Z) (ws : list Window)
| advise_output_created (o : Output)
| advise_output_updated (updated original : Output)
| advise_output_deleted (o : Output)
| advise_application_zone_create (z : Zone)
| advise_application_zone_update (updated original : Zone)
| advise_application_zone_delete (z : Zone).

(** [wm_shell] is the focus controller and holds the scene surfaces;
    [wm_applications] gives the session a window belongs to.
    [workspaces_to_windows] is the bimap, in the order of insertion. *)
Record WM := mkWM {
  wm_shell : Shell;
  wm_streams : Streams;
  wm_applications : gmap Window Session;
  app_info : gmap Session (list Window);
  window_info : gmap Window WindowInfo;
  outputs : list Rectangle;
  cursor : Point;
  mru_active_windows : list Window;
  allow_active_window : bool;
  fullscreen_surfaces : list Window;
  display_areas : list DisplayArea;
  workspaces_to_windows : list (Z * Window);
  next_zone_id : Z;
  advice : list Advice
}.
#[export] Instance WM_eta : EtaExpansion WM := fun m =>
  mkWM (wm_shell m) (wm_streams m) (wm_applications m) (app_info m) (window_info m) (outputs m) (cursor m)
    (mru_active_windows m) (allow_active_window m) (fullscreen_surfaces m) (display_areas m)
    (workspaces_to_windows m) (next_zone_id m) (advice m).

(** ** The monad of the operations

    An operation runs under the lock of the manager, changes its state and
    may throw.  The policy's [advise_] callbacks are recorded; the questions
    the policy answers ([confirm_]) are parameters of the operations that ask
    them. *)
Definition M (A : Type) : Type := WM -> outcome (A * WM).

#[export] Instance M_ret : MRet M := fun A a m => Ret (a, m).
#[export] Instance M_bind : MBind M := fun A B f x m =>
  match x m with Ret (a, m') => f a m' | Throw e => Throw e end.

Definition gets {A} (f : WM -> A) : M A := fun m => Ret (f m, m).
Definition modify (f : WM -> WM) : M unit := fun m => Ret (tt, f m).
Definition throw {A} (e : exn) : M A := fun _ => Throw e.
Definition advise (a : Advice) : M unit := modify (fun m => m <| advice := advice m ++ [a] |>).

Lemma M_bind_Ret {A B} (x : M A) (f : A -> M B) m r :
  (x ≫= f) m = Ret r <-> exists a m1, x m = Ret (a, m1) /\ f a m1 = Ret r.
Proof. unfold mbind, M_bind. destruct (x m) as [[a m1]|e]; naive_solver. Qed.

Lemma M_bind_eq {A B} (x : M A) (f : A -> M B) m a m1 : x m = Ret (a, m1) -> (x ≫= f) m = f a m1.
Proof. unfold mbind, M_bind. by intros ->. Qed.

(** A loop [for (auto const& x : l) body(x)]. *)
Fixpoint for_each {A} (l : list A) (body : A -> M unit) : M unit :=
  match l with
  | [] => mret tt
  | x :: rest => body x;; for_each rest body
  end.

Definition surfaces_of (m : WM) : gmap Z Surface := sh_surfaces (wm_shell m).

(** [info_for] is [map::at]; the result is a reference, so an assignment
    through it is [set_info]. *)
Definition info_for (w : Window) : M WindowInfo := fun m =>
  match window_info m !! w with Some i => Ret (i, m) | None => Throw out_of_range end.
Definition set_info (w : Window) (f : WindowInfo -> WindowInfo) : M unit :=
  modify (fun m => m <| window_info := alter f w (window_info m) |>).

(** ** Windows ([src/miral/window.cpp]) *)
Definition window_top_left (m : WM) (w : Window) : Point :=
  match surfaces_of m !! w with Some s => top_left (sf_rect s) | None => mkPoint 0 0 end.
Definition window_size (m : WM) (w : Window) : Size :=
  match surfaces_of m !! w with Some s => r_size (sf_rect s) | None => mkSize 0 0 end.
Definition window_rect (m : WM) (w : Window) : Rectangle := mkRectangle (window_top_left m w) (window_size m w).

(** The shell observes the surface that has the focus: a move or a resize of
    it updates the pointer confinement. *)
Definition changes_geometry (e : SurfaceEvent) : bool :=
  match e with moved_to _ | content_resized_to _ => true | _ => false end.
Definition observe (w : Window) (events : list SurfaceEvent) (sh : Shell) : Shell :=
  if bool_decide (notified_focus_surface sh = Some w) && existsb changes_geometry events
  then update_focused_surface_confined_region sh else sh.

Definition put_surface (w : Window) (s : Surface) (events : list SurfaceEvent) (m : WM) : WM :=
  m <| wm_shell := observe w events ((wm_shell m) <| sh_surfaces := <[w := s]> (surfaces_of m) |>) |>.

Definition change_surface (w : Window) (f : Surface -> Surface * list SurfaceEvent) : M unit :=
  modify (fun m => match surfaces_of m !! w with
                   | Some s => put_surface w (fst (f s)) (snd (f s)) m
                   | None => m
                   end).

Definition window_move_to (w : Window) (p : Point) : M unit := change_surface w (fun s => surface_move_to s p).
Definition window_resize (w : Window) (sz : Size) : M unit := change_surface w (fun s => surface_resize s sz).

(** [mir_surface->configure(attrib, value)] through a pointer that must not
    be null. *)
Definition configure_surface (w : Window) (attrib : MirWindowAttrib) (v : Z) : M unit := fun m =>
  match surfaces_of m !! w with
  | None => Throw null_dereference
  | Some s =>
      match configure s (wm_streams m) attrib v with
      | Ret (_, (s', streams', events)) => Ret (tt, put_surface w s' events (m <| wm_streams := streams' |>))
      | Throw e => Throw e
      end
  end.
Definition with_surface (w : Window) (f : Surface -> Surface * list SurfaceEvent) : M unit := fun m =>
  match surfaces_of m !! w with
  | None => Throw null_dereference
  | Some s => Ret (tt, put_surface w (fst (f s)) (snd (f s)) m)
  end.

Definition info_is_visible (m : WM) (w : Window) (i : WindowInfo) : bool :=
  is_visible (wi_state i) (surface_visible (wm_streams m) <$> surfaces_of m !! w).

(** ** Recently used windows ([src/miral/mru_window_list.cpp]) *)
(** A window leaves the list before its surface goes away, so the surface of a
    window in the list is never null. *)
Definition mru_visible (m : WM) (w : Window) : bool :=
  match surfaces_of m !! w with
  | Some s => negb (bool_decide (sf_state s = mir_window_state_hidden))
  | None => false
  end.
Definition mru_push (w : Window) (windows : list Window) : list Window := erase_all w windows ++ [w].
Definition mru_erase (w : Window) (windows : list Window) : list Window := erase_all w windows.
Definition mru_top (m : WM) : option Window := find_if (mru_visible m) (reverse (mru_active_windows m)).

Definition active_window (m : WM) : option Window := if allow_active_window m then mru_top m else None.

(** ** Display areas *)
Fixpoint find_index {A} (p : A -> bool) (l : list A) : option nat :=
  match l with
  | [] => None
  | x :: rest => if p x then Some O else S <$> find_index p rest
  end.

Definition overlap_area (window_rect area : Rectangle) : Z :=
  let i := r_size (intersection_with window_rect area) in width i * height i.

Definition area_distance (w a : Rectangle) : Z :=
  Z.max (Z.max (left w - right a) (left a - right w)) (Z.max (top w - bottom a) (top a - bottom w)).

(** The loop of [display_area_for]: the area with the biggest overlap, or
    the closest one while none overlaps. *)
Fixpoint best_area (window_rect : Rectangle) (areas : list DisplayArea) (index : nat)
    (max_overlap_area min_distance : Z) (best : option nat) : option nat :=
  match areas with
  | [] => best
  | a :: rest =>
      let intersection_area := overlap_area window_rect (da_area a) in
      if max_overlap_area <? intersection_area then
        best_area window_rect rest (S index) intersection_area min_distance (Some index)
      else if max_overlap_area =? 0 then
        let distance := area_distance window_rect (da_area a) in
        if distance <? min_distance then best_area window_rect rest (S index) max_overlap_area distance (Some index)
        else best_area window_rect rest (S index) max_overlap_area min_distance best
      else best_area window_rect rest (S index) max_overlap_area min_distance best
  end.

Definition on_output (id : option Z) (a : DisplayArea) : bool :=
  match id, da_output a with Some i, Some o => output_id o =? i | _, _ => false end.

(** The position of the area in [display_areas], [None] when a new area has
    to be made up. *)
Definition display_area_index (m : WM) (w : Window) (i : WindowInfo) : option nat :=
  match find_index (on_output (wi_output_id i)) (display_areas m) with
  | Some n => Some n
  | None =>
      match find_index (fun a => bool_decide (w ∈ da_attached_windows a)) (display_areas m) with
      | Some n => Some n
      | None => best_area (window_rect m w) (display_areas m) O 0 INT_MAX None
      end
  end.

Definition display_area_for (m : WM) (w : Window) (i : WindowInfo) : DisplayArea :=
  match display_area_index m w i ≫= (fun n => display_areas m !! n) with
  | Some a => a
  | None => display_area_of_rectangle (window_rect m w)
  end.

Definition active_display_area : M DisplayArea := fun m =>
  match focused_surface (wm_shell m) with
  | Some w => match window_info m !! w with
              | Some i => Ret (display_area_for m w i, m)
              | None => Throw out_of_range
              end
  | None =>
      Ret (match find_if (fun a => contains_point (da_area a) (cursor m)) (display_areas m), display_areas m with
           | Some a, _ => a
           | None, a :: _ => a
           | None, [] => display_area_of_rectangle (mkRectangle (mkPoint 0 0) (mkSize 100 100))
           end, m)
  end.

(** ** Workspaces *)
Definition workspaces_containing (m : WM) (w : Window) : list Z :=
  (filter (fun kv => kv.2 = w) (workspaces_to_windows m)).*1.

(** ** The area of a window *)
Lemma overlap_area_nonneg r a : 0 <= overlap_area r a.
Proof.
  unfold overlap_area, intersection_with. destruct r as [[? ?] [? ?]], a as [[? ?] [? ?]]. cbn. case_if; cbn; [|lia].
  breflect. nia.
Qed.

Definition best_so_far (r : Rectangle) (seen : list DisplayArea) (max_overlap_area min_distance : Z) (best : option nat) : Prop :=
  0 <= max_overlap_area /\
  (forall a, a ∈ seen -> overlap_area r (da_area a) <= max_overlap_area) /\
  (0 < max_overlap_area -> exists n a, best = Some n /\ seen !! n = Some a /\ overlap_area r (da_area a) = max_overlap_area) /\
  (max_overlap_area = 0 ->
     (forall a, a ∈ seen -> min_distance <= area_distance r (da_area a)) /\
     (min_distance < INT_MAX -> exists n a, best = Some n /\ seen !! n = Some a /\ area_distance r (da_area a) = min_distance)).

Lemma best_area_spec r areas seen o d best :
  best_so_far r seen o d best -> d <= INT_MAX ->
  exists o' d', best_so_far r (seen ++ areas) o' d' (best_area r areas (length seen) o d best) /\ d' <= INT_MAX.
Proof.
  revert seen o d best. induction areas as [|a areas IH]; intros seen o d best (Ho & Hmax & Hpos & Hzero) Hd; cbn [best_area].
  { rewrite app_nil_r. exists o, d. done. }
  pose proof (overlap_area_nonneg r (da_area a)) as Hnn.
  rewrite (cons_middle a seen areas), (assoc_L app).
  replace (S (length seen)) with (length (seen ++ [a])) by (rewrite length_app; cbn; lia).
  assert (Hlast : (seen ++ [a]) !! length seen = Some a) by by rewrite list_lookup_middle.
  assert (Hkeep : forall n b, seen !! n = Some b -> (seen ++ [a]) !! n = Some b) by (intros; by apply lookup_app_l_Some).
  case_if; [|case_if; [case_if|]]; breflect; (apply IH; [split_and!|]); try lia.
  all: try (intros b [Hb|Hb%list_elem_of_singleton]%elem_of_app; [specialize (Hmax b Hb); lia|subst b; lia]).
  - intros _. by exists (length seen), a.
  - intros Hz. split; [|intros _; by exists (length seen), a].
    intros b [Hb|Hb%list_elem_of_singleton]%elem_of_app; [|subst b; lia]. destruct (Hzero Hz) as [Hall _]. specialize (Hall b Hb). lia.
  - intros Hz. destruct (Hzero Hz) as [Hall Hex]. split.
    + intros b [Hb|Hb%list_elem_of_singleton]%elem_of_app; [by apply Hall|subst b; lia].
    + intros Hlt. destruct (Hex Hlt) as (n & b & ? & ? & ?). eauto 10.
  - intros Hp. destruct (Hpos Hp) as (n & b & ? & ? & ?). eauto 10.
Qed.

Lemma find_index_Some {A} (p : A -> bool) l n :
  find_index p l = Some n -> exists a, l !! n = Some a /\ p a = true /\ forall k b, (k < n)%nat -> l !! k = Some b -> p b = false.
Proof.
  revert n. induction l as [|x l IH]; intros n; cbn; [done|]. destruct (p x) eqn:E.
  - intros [= <-]. exists x. split_and!; [done..|]. lia.
  - rewrite fmap_Some. intros (k & Hk & ->). destruct (IH k Hk) as (a & ? & ? & Hfirst). exists a. split_and!; [done..|].
    intros [|j] b Hj Hb; [cbn in Hb; congruence|]. apply (Hfirst j); [lia|done].
Qed.

Lemma find_index_None {A} (p : A -> bool) l : find_index p l = None <-> forall a, a ∈ l -> p a = false.
Proof.
  induction l as [|x l IH]; cbn; [set_solver|]. destruct (p x) eqn:E.
  - split; [done|]. intros H. rewrite (H x) in E by set_solver. done.
  - rewrite fmap_None, IH. split; intros H a; [intros [->|?]%elem_of_cons|]; set_solver.
Qed.

(** The choice [display_area_for] is meant to make. *)
Definition right_area (m : WM) (w : Window) (i : WindowInfo) (a : DisplayArea) : Prop :=
  let r := window_rect m w in
  if existsb (on_output (wi_output_id i)) (display_areas m) then on_output (wi_output_id i) a = true
  else if existsb (fun b => bool_decide (w ∈ da_attached_windows b)) (display_areas m) then w ∈ da_attached_windows a
  else (forall b, b ∈ display_areas m -> overlap_area r (da_area b) <= overlap_area r (da_area a)) /\
       ((forall p b, b ∈ display_areas m -> ~ (covers r p /\ covers (da_area b) p)) ->
        forall b, b ∈ display_areas m -> area_distance r (da_area a) <= area_distance r (da_area b)).

Lemma existsb_find_index {A} (p : A -> bool) l : existsb p l = match find_index p l with Some _ => true | None => false end.
Proof. induction l as [|x l IH]; cbn; [done|]. destruct (p x); [done|]. rewrite IH. by destruct (find_index p l). Qed.

Lemma overlap_area_zero r b : (forall p, ~ (covers r p /\ covers b p)) -> overlap_area r b = 0.
Proof. intros H. unfold overlap_area. by rewrite (proj2 (intersection_default r b) H). Qed.

(** the display area of a window is one of the manager's areas: the one of
    the output the window asks for; if there is none, the one the window is
    attached to; otherwise the one it overlaps most, and if it overlaps none
    the one closest to it. *)
Theorem display_area_for_right (m : WM) (w : Window) (i : WindowInfo) :
  display_areas m <> [] ->
  (forall a, a ∈ display_areas m -> area_distance (window_rect m w) (da_area a) < INT_MAX) ->
  display_area_for m w i ∈ display_areas m /\ right_area m w i (display_area_for m w i).
Proof.
  intros Hne Hint. unfold display_area_for, display_area_index, right_area. rewrite !existsb_find_index.
  destruct (find_index (on_output _) _) as [n|] eqn:E1.
  { apply find_index_Some in E1 as (a & Ha & Hp & _). cbn. rewrite Ha. split; [by eapply list_elem_of_lookup_2|done]. }
  destruct (find_index (fun b => bool_decide _) _) as [n|] eqn:E2.
  { apply find_index_Some in E2 as (a & Ha & Hp & _). cbn. rewrite Ha. split; [by eapply list_elem_of_lookup_2|]. by breflect. }
  set (r := window_rect m w) in *.
  destruct (best_area_spec r (display_areas m) [] 0 INT_MAX None) as (o & d & (Ho & Hmax & Hpos & Hzero) & Hd); [|done|].
  { split_and!; [done|set_solver|lia|]. intros _. split; [set_solver|lia]. }
  cbn [app length] in *. assert (o = 0 \/ 0 < o) as [->|Hlt] by lia.
  - destruct (Hzero eq_refl) as [Hall Hex]. destruct (display_areas m) as [|x l] eqn:El; [done|]. rewrite <-El in *.
    assert (Hx : x ∈ display_areas m) by (rewrite El; set_solver).
    pose proof (Hall x Hx). pose proof (Hint x Hx). destruct Hex as (n & a & -> & Ha & Hdist); [lia|]. cbn. rewrite Ha.
    split; [by eapply list_elem_of_lookup_2|]. split.
    + intros b Hb. pose proof (overlap_area_nonneg r (da_area a)). specialize (Hmax b Hb). lia.
    + intros _ b Hb. rewrite Hdist. by apply Hall.
  - destruct (Hpos Hlt) as (n & a & -> & Ha & Ho'). cbn. rewrite Ha. split; [by eapply list_elem_of_lookup_2|]. split.
    + intros b Hb. rewrite Ho'. by apply Hmax.
    + intros Hno. rewrite overlap_area_zero in Ho'; [lia|]. intros p. eapply Hno. by eapply list_elem_of_lookup_2.
Qed.

Lemma for_each_cons {A} (x : A) l body m m1 :
  body x m = Ret (tt, m1) -> for_each (x :: l) body m = for_each l body m1.
Proof. intros H. cbn [for_each]. by rewrite (M_bind_eq _ _ _ _ _ H). Qed.

(** The surfaces after a change of one of them. *)
Lemma observe_surfaces w events sh : sh_surfaces (observe w events sh) = sh_surfaces sh.
Proof. unfold observe, update_focused_surface_confined_region. by repeat case_match. Qed.

Lemma put_surface_surfaces w s events m : surfaces_of (put_surface w s events m) = <[w := s]> (surfaces_of m).
Proof. unfold surfaces_of, put_surface. cbn. by rewrite observe_surfaces. Qed.

(** ** Example: two outputs side by side, window 1 with its dialog 2, and
    window 3, all on the first output *)
Definition example_area (id : Z) (x : Z) : DisplayArea :=
  let r := mkRectangle (mkPoint x 0) (mkSize 800 600) in
  mkDisplayArea r (mkZone id r) (Some (mkOutput 0 id r)) [].

Definition example_wm_streams : Streams :=
  match submit_buffer (stream_init (mkSize 100 80) 1) (Some (example_buffer 1)) with
  | Ret (_, st) => {[5 := st]}
  | Throw _ => ∅
  end.

Definition example_wm : WM :=
  mkWM example_shell example_wm_streams {[1 := 10; 2 := 10; 3 := 30]} {[10 := [1; 2]; 30 := [3]]}
    {[1 := example_info <| wi_children := [2] |>;
      2 := example_info <| wi_type := mir_window_type_dialog |> <| wi_parent := Some 1 |>;
      3 := example_info]}
    [] (mkPoint 0 0) [1; 3; 2] true [] [example_area 1 0; example_area 2 800] [] 3 [].

Lemma display_area_for_right_witness :
  display_area_for example_wm 1 example_info ∈ display_areas example_wm /\
  display_area_for example_wm 1 example_info = example_area 1 0.
Proof.
  split; [|reflexivity]. apply (display_area_for_right example_wm 1 example_info); [done|].
  intros a [->|[->|Ha%not_elem_of_nil]%elem_of_cons]%elem_of_cons; [vm_compute; reflexivity..|done].
Defined.
