(* ===== verification/WmTree.v ===== *)
(** * miral::BasicWindowManager: trees of windows

    Moving, raising and layering a window together with its children, and the
    workspaces that hold whole trees ([src/miral/basic_window_manager.cpp]). *)
From S2P Require Import Prelude Geometry Schedule BufferStream Occlusion WindowInfo Surface Sessions Shell WmState.

(** The recursion of the source follows the children (or the parents) of the
    windows.  Each function takes the number of calls it may nest; the
    theorems show how many are enough for the trees that exist. *)

(** ** Visiting a tree *)
Fixpoint collect (visit : Window -> M (list Window)) (children : list Window) : M (list Window) :=
  match children with
  | [] => mret []
  | c :: rest => ws ← visit c; ws' ← collect visit rest; mret (ws ++ ws')
  end.

(** The local [windows] vector after [push_back(root)] and [add_children]. *)
Fixpoint tree_of (fuel : nat) (root : Window) : M (list Window) :=
  match fuel with
  | O => throw out_of_fuel
  | S f => info ← info_for root; below ← collect (tree_of f) (wi_children info); mret (root :: below)
  end.

Fixpoint root_of (fuel : nat) (w : Window) : M Window :=
  match fuel with
  | O => throw out_of_fuel
  | S f =>
      info ← info_for w;
      match wi_parent info with Some p => root_of f p | None => mret w end
  end.

(** The scene raises the windows the policy is told of, in one call. *)
Fixpoint raise_tree (fuel : nat) (root : Window) : M unit :=
  match fuel with
  | O => throw out_of_fuel
  | S f =>
      info ← info_for root;
      match wi_parent info with Some p => raise_tree f p | None => mret tt end;;
      windows ← tree_of (S f) root;
      advise (advise_raise windows)
  end.

Fixpoint set_tree_depth_layer (fuel : nat) (root : Window) (new_layer : MirDepthLayer) : M unit :=
  match fuel with
  | O => throw out_of_fuel
  | S f =>
      info ← info_for root;
      surface ← gets (fun m => surfaces_of m !! root);
      match surface with
      | None => throw null_dereference
      | Some s =>
          if bool_decide (sf_depth_layer s <> new_layer) || bool_decide (wi_depth_layer info <> new_layer) then
            with_surface root (fun s => Surface.set_depth_layer s new_layer);;
            set_info root (fun i => i <| wi_depth_layer := new_layer |>);;
            for_each (wi_children info) (fun w => set_tree_depth_layer f w new_layer)
          else mret tt
      end
  end.

(** ** Moving a tree *)
Section Moving.
(** The policy's answer may depend on where the windows are. *)
Context (confirm_inherited_move : WM -> Window -> Displacement -> Rectangle).

Definition place_and_size_with (move : Window -> Displacement -> M unit) (root : Window) (new_pos : Point)
    (new_size : Size) : M unit :=
  size ← gets (fun m => window_size m root);
  (if bool_decide (size <> new_size)
   then advise (advise_resize root new_size);; window_resize root new_size
   else mret tt);;
  tl ← gets (fun m => window_top_left m root);
  move root (point_diff new_pos tl).

Fixpoint move_tree (fuel : nat) (root : Window) (movement : Displacement) : M unit :=
  match fuel with
  | O => throw out_of_fuel
  | S f =>
      if bool_decide (movement = mkDisplacement 0 0) then mret tt else
      tl ← gets (fun m => point_add (window_top_left m root) movement);
      advise (advise_move_to root tl);;
      window_move_to root tl;;
      info ← info_for root;
      for_each (wi_children info) (fun child =>
        info_for child;;
        pos ← gets (fun m => confirm_inherited_move m child movement);
        place_and_size_with (move_tree f) child (top_left pos) (r_size pos))
  end.

Definition place_and_size (fuel : nat) : Window -> Point -> Size -> M unit := place_and_size_with (move_tree fuel).

Definition user_movable (t : MirWindowType) : bool :=
  match t with
  | mir_window_type_normal | mir_window_type_utility | mir_window_type_dialog | mir_window_type_satellite
  | mir_window_type_freestyle => true
  | _ => false
  end.

Definition drag_window (fuel : nat) (window : option Window) (movement : Displacement) : M unit :=
  match window with
  | None => mret tt
  | Some w =>
      info ← info_for w;
      if negb (user_movable (wi_type info)) then mret tt else
      match wi_state info with
      | mir_window_state_restored => move_tree fuel w movement
      | mir_window_state_vertmaximized => move_tree fuel w (mkDisplacement (dx movement) 0)
      | mir_window_state_horizmaximized => move_tree fuel w (mkDisplacement 0 (dy movement))
      | _ => mret tt
      end
  end.

Definition drag_active_window (fuel : nat) (movement : Displacement) : M unit :=
  w ← gets active_window; drag_window fuel w movement.
End Moving.

(** [CanonicalWindowManagerPolicy]: children move with their parents. *)
Definition canonical_confirm_inherited_move (m : WM) (w : Window) (movement : Displacement) : Rectangle :=
  mkRectangle (point_add (window_top_left m w) movement) (window_size m w).

(** ** Workspaces *)
Definition add_to_workspace (workspace : Z) (windows : list Window) : M unit :=
  added ← gets (fun m => filter (fun w => (workspace, w) ∉ workspaces_to_windows m) windows);
  modify (fun m => m <| workspaces_to_windows := workspaces_to_windows m ++ ((fun w => (workspace, w)) <$> added) |>);;
  match added with [] => mret tt | _ => advise (advise_adding_to_workspace workspace added) end.

Definition remove_from_workspace (workspace : Z) (p : Window -> Prop) `{forall w, Decision (p w)} : M (list Window) :=
  removed ← gets (fun m => filter p (filter (fun kv => kv.1 = workspace) (workspaces_to_windows m)).*2);
  modify (fun m => m <| workspaces_to_windows :=
    filter (fun kv => ~ (kv.1 = workspace /\ p kv.2)) (workspaces_to_windows m) |>);;
  match removed with [] => mret tt | _ => advise (advise_removing_from_workspace workspace removed) end;;
  mret removed.

Definition add_tree_to_workspace (fuel : nat) (window : option Window) (workspace : Z) : M unit :=
  match window with
  | None => mret tt
  | Some w => root ← root_of fuel w; windows ← tree_of fuel root; add_to_workspace workspace windows
  end.

Definition remove_tree_from_workspace (fuel : nat) (window : option Window) (workspace : Z) : M unit :=
  match window with
  | None => mret tt
  | Some w =>
      root ← root_of fuel w; windows ← tree_of fuel root;
      remove_from_workspace workspace (fun x => x ∈ windows);; mret tt
  end.

Definition move_workspace_content_to_workspace (to_workspace from_workspace : Z) : M unit :=
  removed ← remove_from_workspace from_workspace (fun _ => True);
  add_to_workspace to_workspace removed.

(** ** A tree moves as a whole *)
Lemma collect_info f children m ws :
  (forall c ws, c ∈ children -> f c m = Ret (ws, m) -> forall m', window_info m' = window_info m -> f c m' = Ret (ws, m')) ->
  (forall c r, c ∈ children -> f c m = Ret r -> snd r = m) ->
  collect f children m = Ret (ws, m) -> forall m', window_info m' = window_info m -> collect f children m' = Ret (ws, m').
Proof.
  revert ws. induction children as [|c children IH]; intros ws Hf Hs Hc m' Hm'.
  { cbn in Hc. injection Hc as <-. done. }
  cbn [collect] in *. apply M_bind_Ret in Hc as (w1 & m1 & H1 & Hc). assert (m1 = m) as -> by (apply (Hs c (w1, m1)); [set_solver|done]).
  apply M_bind_Ret in Hc as (w2 & m2 & H2 & Hc). injection Hc as <- ->.
  rewrite (M_bind_eq _ _ m' w1 m') by (apply Hf; [set_solver|done|done]).
  rewrite (M_bind_eq _ _ m' w2 m'); [done|]. apply IH; [|..|done|done]; intros ? ? ?; [apply Hf|apply Hs]; set_solver.
Qed.

Lemma collect_state f children m r :
  (forall c r, f c m = Ret r -> snd r = m) -> collect f children m = Ret r -> snd r = m.
Proof.
  intros Hf. revert r. induction children as [|c children IH]; intros r Hc; cbn [collect] in *; [by injection Hc as <-|].
  apply M_bind_Ret in Hc as (w1 & m1 & H1 & Hc). specialize (Hf _ _ H1). cbn in Hf. subst m1.
  apply M_bind_Ret in Hc as (w2 & m2 & H2 & Hc). specialize (IH _ H2). cbn in IH. subst m2. by injection Hc as <-.
Qed.

Lemma tree_of_state fuel root m r : tree_of fuel root m = Ret r -> snd r = m.
Proof.
  revert root m r. induction fuel as [|fuel IH]; intros root m r H; [done|]. cbn [tree_of] in H.
  apply M_bind_Ret in H as (i & m1 & H1 & H). unfold info_for in H1. destruct (window_info m !! root) as [w|]; [|done]. injection H1 as <- <-.
  apply M_bind_Ret in H as (ws & m2 & H2 & H). injection H as <-. cbn.
  apply (collect_state (tree_of fuel) (wi_children w) m (ws, m2)); [|done]. intros c. apply IH.
Qed.

(** The tree is a function of what the manager knows of the windows. *)
Lemma tree_of_info fuel root m ws m' :
  tree_of fuel root m = Ret (ws, m) -> window_info m' = window_info m -> tree_of fuel root m' = Ret (ws, m').
Proof.
  revert root ws m'. induction fuel as [|fuel IH]; intros root ws m' H Hm'; [done|]. cbn [tree_of] in *.
  apply M_bind_Ret in H as (i & m1 & H1 & H). unfold info_for in H1. destruct (window_info m !! root) as [i0|] eqn:Ei; [|done].
  injection H1 as <- <-. apply M_bind_Ret in H as (ws0 & m2 & H2 & H).
  assert (m2 = m) as -> by (apply (collect_state (tree_of fuel) (wi_children i0) m (ws0, m2)); [intros c; apply tree_of_state|done]). injection H as <-.
  rewrite (M_bind_eq _ _ m' i0 m') by (unfold info_for; by rewrite Hm', Ei).
  rewrite (M_bind_eq _ _ m' ws0 m'); [done|]. eapply collect_info; [| |exact H2|done].
  - intros c w _ Hc m'' Hm''. by apply IH.
  - intros c r _. apply tree_of_state.
Qed.

Definition shifted (d : Displacement) (s : Surface) : Surface :=
  s <| sf_rect := mkRectangle (point_add (top_left (sf_rect s)) d) (r_size (sf_rect s)) |>.

(** The surfaces of [ws] have moved by [d]; nothing else of the manager has
    changed but the pointer confinement and what the policy was told. *)
Definition tree_moved (ws : list Window) (d : Displacement) (m m' : WM) : Prop :=
  (forall w, surfaces_of m' !! w = (if bool_decide (w ∈ ws) then shifted d else id) <$> surfaces_of m !! w) /\
  m' <| wm_shell := wm_shell m |> <| advice := advice m |> = m.

Lemma tree_moved_info ws d m m' : tree_moved ws d m m' -> window_info m' = window_info m.
Proof. intros [_ H]. by rewrite <-H. Qed.

Lemma tree_moved_app ws1 ws2 d m m1 m2 :
  (forall w, w ∈ ws1 -> w ∉ ws2) -> tree_moved ws1 d m m1 -> tree_moved ws2 d m1 m2 -> tree_moved (ws1 ++ ws2) d m m2.
Proof.
  intros Hdis [H1 E1] [H2 E2]. split.
  - intros w. rewrite H2, H1, <-option_fmap_compose. specialize (Hdis w). destruct (surfaces_of m !! w); [|done]. cbn. f_equal.
    rewrite (bool_decide_ext (w ∈ ws1 ++ ws2) (w ∈ ws1 \/ w ∈ ws2)) by apply elem_of_app. repeat case_bool_decide; try done; tauto.
  - unfold assign in *. cbn in *. rewrite <-E2 in E1. exact E1.
Qed.

Lemma tree_moved_refl d m : tree_moved [] d m m.
Proof.
  split; [|by destruct m]. intros w. rewrite bool_decide_false by apply not_elem_of_nil. by destruct (surfaces_of m !! w).
Qed.

(** Moving one window. *)
Lemma move_one root d m :
  is_Some (surfaces_of m !! root) ->
  exists m', window_move_to root (point_add (window_top_left m root) d)
               (m <| advice := advice m ++ [advise_move_to root (point_add (window_top_left m root) d)] |>) = Ret (tt, m') /\
             tree_moved [root] d m m'.
Proof.
  intros [s Hs]. eexists. split; [reflexivity|]. split.
  - intros w. unfold window_top_left. cbn. unfold surfaces_of in *. cbn. rewrite Hs. cbn. rewrite observe_surfaces. cbn.
    destruct (decide (w = root)) as [->|Hne].
    + rewrite lookup_insert_eq, Hs, bool_decide_true by set_solver. done.
    + rewrite lookup_insert_ne by done. rewrite bool_decide_false by set_solver. unfold surfaces_of. cbn. by destruct (sh_surfaces (wm_shell m) !! w).
  - unfold surfaces_of in *. cbn. rewrite Hs. by destruct m.
Qed.

Lemma shifted_rect ws d m m' w :
  tree_moved ws d m m' -> is_Some (surfaces_of m !! w) ->
  window_size m' w = window_size m w /\
  window_top_left m' w = if bool_decide (w ∈ ws) then point_add (window_top_left m w) d else window_top_left m w.
Proof.
  intros [H _] [s Hs]. unfold window_size, window_top_left. rewrite H, Hs. by case_bool_decide.
Qed.

Notation canonical_move_tree := (move_tree canonical_confirm_inherited_move).

Lemma canonical_place child d f m :
  place_and_size_with (canonical_move_tree f) child (top_left (canonical_confirm_inherited_move m child d))
    (r_size (canonical_confirm_inherited_move m child d)) m =
  canonical_move_tree f child d m.
Proof.
  unfold place_and_size_with, canonical_confirm_inherited_move. cbn [top_left r_size].
  rewrite (M_bind_eq _ _ m (window_size m child) m) by done. rewrite bool_decide_false by (intros []; done).
  rewrite (M_bind_eq _ _ m tt m) by done. rewrite (M_bind_eq _ _ m (window_top_left m child) m) by done.
  f_equal. unfold point_diff, point_add. destruct d, (window_top_left m child). cbn. f_equal; lia.
Qed.

Lemma shifted_zero s : shifted (mkDisplacement 0 0) s = s.
Proof. destruct s as [? [[? ?] ?]]. unfold shifted, assign, point_add. cbn. do 3 f_equal; lia. Qed.

Lemma move_forest f d children ws m0 m :
  (forall c ws m, c ∈ children -> tree_of f c m = Ret (ws, m) -> NoDup ws -> Forall (fun w => is_Some (surfaces_of m !! w)) ws ->
     exists m', canonical_move_tree f c d m = Ret (tt, m') /\ tree_moved ws d m m') ->
  collect (tree_of f) children m0 = Ret (ws, m0) -> NoDup ws -> window_info m = window_info m0 ->
  Forall (fun w => is_Some (surfaces_of m !! w)) ws ->
  exists m', for_each children (fun child =>
      info_for child;;
      pos ← gets (fun m => canonical_confirm_inherited_move m child d);
      place_and_size_with (canonical_move_tree f) child (top_left pos) (r_size pos)) m = Ret (tt, m') /\
    tree_moved ws d m m'.
Proof.
  intros Hmove. revert ws m. induction children as [|c children IH]; intros ws m Hc Hnd Hinfo Hsurf.
  { cbn in Hc. injection Hc as <-. exists m. split; [done|apply tree_moved_refl]. }
  cbn [collect] in Hc. apply M_bind_Ret in Hc as (w1 & m1 & H1 & Hc).
  assert (m1 = m0) as -> by (by apply tree_of_state in H1).
  apply M_bind_Ret in Hc as (w2 & m2 & H2 & Hc). injection Hc as <- ->.
  apply NoDup_app in Hnd as (Hn1 & Hdis & Hn2). apply Forall_app in Hsurf as [Hs1 Hs2].
  pose proof (tree_of_info f c m0 w1 m H1 Hinfo) as H1'.
  destruct (Hmove c w1 m) as (m1 & Hm1 & Hmv1); [set_solver|done..|].
  destruct (IH ltac:(set_solver) w2 m1) as (m' & Hm' & Hmv2); [done|done| | |].
  { by rewrite (tree_moved_info _ _ _ _ Hmv1). }
  { eapply Forall_impl; [exact Hs2|]. intros w Hw. destruct Hmv1 as [Hmv _]. rewrite Hmv. by apply fmap_is_Some. }
  exists m'. split; [|by eapply tree_moved_app]. rewrite (for_each_cons c children _ m m1); [done|].
  assert (exists i, info_for c m = Ret (i, m)) as [i Hi].
  { destruct f as [|f]; [done|]. cbn [tree_of] in H1'. apply M_bind_Ret in H1' as (i & mm & Hi & _). exists i.
    unfold info_for in *. destruct (window_info m !! c); [|done]. by injection Hi as <- <-. }
  rewrite (M_bind_eq _ _ m i m Hi). rewrite (M_bind_eq _ _ m (canonical_confirm_inherited_move m c d) m) by done.
  by rewrite canonical_place.
Qed.

Lemma move_tree_moves fuel root d ws m :
  tree_of fuel root m = Ret (ws, m) -> NoDup ws -> Forall (fun w => is_Some (surfaces_of m !! w)) ws ->
  exists m', canonical_move_tree fuel root d m = Ret (tt, m') /\ tree_moved ws d m m'.
Proof.
  revert root ws m. induction fuel as [|f IH]; intros root ws m Ht Hnd Hs; [done|]. cbn [move_tree].
  case_bool_decide as Hz.
  { exists m. split; [done|]. split; [|by destruct m]. intros w. subst d.
    destruct (surfaces_of m !! w); [|done]. cbn. by case_bool_decide; rewrite ?shifted_zero. }
  cbn [tree_of] in Ht. apply M_bind_Ret in Ht as (i & m1 & Hi & Ht). unfold info_for in Hi.
  destruct (window_info m !! root) as [i0|] eqn:Ei; [|done]. injection Hi as <- <-.
  apply M_bind_Ret in Ht as (below & m1 & Hb & Ht). injection Ht as <- ->.
  apply NoDup_cons in Hnd as [Hroot Hnd]. apply Forall_cons in Hs as [Hsr Hsb].
  destruct (move_one root d m Hsr) as (m1 & Hm1 & Hmv1).
  destruct (move_forest f d (wi_children i0) below m m1) as (m2 & Hm2 & Hmv2); [| | | | |].
  - intros c ws m' _. apply IH.
  - done.
  - done.
  - by rewrite (tree_moved_info _ _ _ _ Hmv1).
  - eapply Forall_impl; [exact Hsb|]. intros w Hw. destruct Hmv1 as [Hmv _]. rewrite Hmv. by apply fmap_is_Some.
  - exists m2. split; [|apply (tree_moved_app [root] below d m m1 m2); [set_solver|done|done]].
    rewrite (M_bind_eq _ _ m (point_add (window_top_left m root) d) m) by done.
    erewrite M_bind_eq by reflexivity. rewrite (M_bind_eq _ _ _ _ _ Hm1).
    rewrite (M_bind_eq _ _ m1 i0 m1); [exact Hm2|]. unfold info_for. by rewrite (tree_moved_info _ _ _ _ Hmv1), Ei.
Qed.

(** ** The trees that exist *)
Definition child_rel (m : WM) (p c : Window) : Prop :=
  exists i, window_info m !! p = Some i /\ c ∈ wi_children i.

(** What the manager keeps true of parents and children. *)
Record forest (m : WM) : Prop := {
  forest_child : forall p c, child_rel m p c -> exists ci, window_info m !! c = Some ci /\ wi_parent ci = Some p;
  forest_parent : forall c ci p, window_info m !! c = Some ci -> wi_parent ci = Some p -> child_rel m p c;
  forest_NoDup : forall w i, window_info m !! w = Some i -> NoDup (wi_children i);
  forest_acyclic : exists rank : Window -> nat, forall p c, child_rel m p c -> (rank p < rank c)%nat;
  forest_surface : forall w, is_Some (window_info m !! w) -> is_Some (surfaces_of m !! w)
}.

Definition family (i : WindowInfo) : option Window * list Window := (wi_parent i, wi_children i).

(** The trees depend on the parents and children only. *)
Lemma child_rel_keep m m' p c :
  (forall w, family <$> window_info m' !! w = family <$> window_info m !! w) -> child_rel m' p c <-> child_rel m p c.
Proof.
  intros H. specialize (H p). unfold child_rel.
  destruct (window_info m' !! p) as [i'|], (window_info m !! p) as [i|]; cbn in H; try done; [].
  injection H as _ E. split; intros (j & [= <-] & Hc); eexists; (split; [done|]); congruence.
Qed.

Lemma forest_keep m m' :
  (forall w, family <$> window_info m' !! w = family <$> window_info m !! w) ->
  (forall w, is_Some (surfaces_of m !! w) -> is_Some (surfaces_of m' !! w)) -> forest m -> forest m'.
Proof.
  intros Hfam Hs [H1 H2 H3 H4 H5].
  assert (Hinfo : forall w i', window_info m' !! w = Some i' -> exists i, window_info m !! w = Some i /\ family i' = family i).
  { intros w i' Hi'. specialize (Hfam w). rewrite Hi' in Hfam. destruct (window_info m !! w) as [i|]; [|done]. injection Hfam as ? ?.
    exists i. split; [done|]. unfold family. congruence. }
  split.
  - intros p c Hc%(child_rel_keep m m' _ _ Hfam). destruct (H1 _ _ Hc) as (ci & Hci & Hp). specialize (Hfam c). rewrite Hci in Hfam.
    destruct (window_info m' !! c) as [ci'|]; [|done]. injection Hfam as E _. exists ci'. split; [done|congruence].
  - intros c ci p (i & Hi & E)%Hinfo Hp. apply (child_rel_keep m m' _ _ Hfam). injection E as E _. eapply H2; [done|congruence].
  - intros w i (i0 & Hi & E)%Hinfo. injection E as _ ->. by eapply H3.
  - destruct H4 as [rank Hr]. exists rank. intros p c Hc%(child_rel_keep m m' _ _ Hfam). by apply Hr.
  - intros w [i (i0 & Hi & _)%Hinfo]. apply Hs, H5. eauto.
Qed.

Lemma rtc_child_rank m (rank : Window -> nat) x y :
  (forall p c, child_rel m p c -> (rank p < rank c)%nat) -> rtc (child_rel m) x y -> (rank x <= rank y)%nat.
Proof. intros Hr. induction 1 as [|x y z H _ IH]; [done|]. apply Hr in H. lia. Qed.

Lemma rtc_child_known m x y : forest m -> is_Some (window_info m !! x) -> rtc (child_rel m) x y -> is_Some (window_info m !! y).
Proof.
  intros Hf Hx. induction 1 as [|x y z H _ IH]; [done|]. apply IH.
  destruct (forest_child m Hf _ _ H) as (? & ? & _). eauto.
Qed.

(** A window has one parent, so two windows above it are on one line. *)
Lemma rtc_child_linear m a b x :
  forest m -> rtc (child_rel m) a x -> rtc (child_rel m) b x -> rtc (child_rel m) a b \/ rtc (child_rel m) b a.
Proof.
  intros Hf Ha. revert x Ha b.
  apply (rtc_ind_r (fun x => forall b, rtc (child_rel m) b x -> rtc (child_rel m) a b \/ rtc (child_rel m) b a)); [by right|].
  intros y z Hay Hyz IH b Hb.
  apply rtc_inv_r in Hb as [->|(y' & Hb & Hy')]; [left; by eapply rtc_r|].
  destruct (forest_child m Hf _ _ Hyz) as (i & Hi & Hp). destruct (forest_child m Hf _ _ Hy') as (i' & Hi' & Hp').
  assert (y' = y) as -> by congruence. by apply IH.
Qed.

Lemma siblings_disjoint m root c1 c2 x :
  forest m -> child_rel m root c1 -> child_rel m root c2 -> c1 <> c2 ->
  rtc (child_rel m) c1 x -> rtc (child_rel m) c2 x -> False.
Proof.
  intros Hf H1 H2 Hne Hx1 Hx2. destruct (forest_acyclic m Hf) as [rank Hr].
  assert (Hno : forall a b, child_rel m root a -> child_rel m root b -> a <> b -> rtc (child_rel m) a b -> False).
  { intros a b Ha Hb Hab Hrtc. apply rtc_inv_r in Hrtc as [->|(p & Hap & Hp)]; [done|].
    destruct (forest_child m Hf _ _ Hp) as (i & Hi & Hpar). destruct (forest_child m Hf _ _ Hb) as (i' & Hi' & Hpar').
    assert (p = root) as -> by congruence. pose proof (rtc_child_rank m rank _ _ Hr Hap). specialize (Hr _ _ Ha). lia. }
  destruct (rtc_child_linear m c1 c2 x Hf Hx1 Hx2) as [H|H]; [by eapply (Hno c1 c2)|by eapply (Hno c2 c1)].
Qed.

Lemma collect_forest m root f children :
  forest m -> (forall c, c ∈ children -> child_rel m root c) -> NoDup children ->
  (forall c, c ∈ children -> exists ws, f c m = Ret (ws, m) /\ NoDup ws /\ forall x, x ∈ ws <-> rtc (child_rel m) c x) ->
  exists ws, collect f children m = Ret (ws, m) /\ NoDup ws /\
    forall x, x ∈ ws <-> exists c, c ∈ children /\ rtc (child_rel m) c x.
Proof.
  intros Hf. induction children as [|c children IH]; intros Hch Hnd Hvisit.
  { exists []. split; [done|]. split; [constructor|]. set_solver. }
  apply NoDup_cons in Hnd as [Hc Hnd]. destruct (Hvisit c) as (w1 & H1 & Hn1 & Hx1); [set_solver|].
  destruct IH as (w2 & H2 & Hn2 & Hx2); [set_solver|done|set_solver|].
  exists (w1 ++ w2). cbn [collect]. rewrite (M_bind_eq _ _ m w1 m H1), (M_bind_eq _ _ m w2 m H2). split; [done|]. split.
  - apply NoDup_app. split; [done|]. split; [|done]. intros x Hxw1%Hx1 (c' & Hc' & Hrtc)%Hx2.
    eapply (siblings_disjoint m root c c'); [done|..|done|done]; [apply Hch; set_solver..|]. intros ->. done.
  - intros x. rewrite elem_of_app, Hx1, Hx2. set_solver.
Qed.

Lemma tree_of_forest m fuel (below : gset Window) root :
  forest m -> is_Some (window_info m !! root) -> (forall x, rtc (child_rel m) root x -> x ∈ below) -> (size below <= fuel)%nat ->
  exists ws, tree_of fuel root m = Ret (ws, m) /\ NoDup ws /\ forall x, x ∈ ws <-> rtc (child_rel m) root x.
Proof.
  intros Hf. revert below root. induction fuel as [|f IH]; intros below root [i Hi] Hb Hsz.
  { assert (below = ∅) as -> by (apply leibniz_equiv, size_empty_iff; lia). specialize (Hb root (rtc_refl _ _)). set_solver. }
  destruct (forest_acyclic m Hf) as [rank Hr].
  assert (Hch : forall c, c ∈ wi_children i -> child_rel m root c) by (intros c Hc; by exists i).
  destruct (collect_forest m root (tree_of f) (wi_children i) Hf Hch (forest_NoDup m Hf _ _ Hi)) as (ws & Hws & Hn & Hx).
  { intros c Hc%Hch. apply (IH (below ∖ {[root]})).
    - destruct (forest_child m Hf _ _ Hc) as (? & ? & _). eauto.
    - intros x Hx. apply elem_of_difference. split; [apply Hb; by eapply rtc_l|]. rewrite elem_of_singleton. intros ->.
      pose proof (rtc_child_rank m rank _ _ Hr Hx). specialize (Hr _ _ Hc). lia.
    - rewrite size_difference by (specialize (Hb root (rtc_refl _ _)); set_solver). rewrite size_singleton. lia. }
  exists (root :: ws). cbn [tree_of]. rewrite (M_bind_eq _ _ m i m) by (unfold info_for; by rewrite Hi).
  rewrite (M_bind_eq _ _ m ws m Hws). split; [done|]. split.
  - apply NoDup_cons. split; [|done]. intros (c & Hc%Hch & Hrtc)%Hx. pose proof (rtc_child_rank m rank _ _ Hr Hrtc). specialize (Hr _ _ Hc). lia.
  - intros x. rewrite elem_of_cons, Hx. split.
    + intros [->|(c & Hc%Hch & Hrtc)]; [done|]. by eapply rtc_l.
    + intros H. apply rtc_inv in H as [->|(c & Hc & Hrtc)]; [by left|]. right. exists c. split; [|done].
      destruct Hc as (i' & Hi' & Hc). by assert (i' = i) as -> by congruence.
Qed.

(** As many calls as there are windows are enough. *)
Lemma tree_of_known m fuel root :
  forest m -> is_Some (window_info m !! root) -> (size (window_info m) <= fuel)%nat ->
  exists ws, tree_of fuel root m = Ret (ws, m) /\ NoDup ws /\ forall x, x ∈ ws <-> rtc (child_rel m) root x.
Proof.
  intros Hf Hroot Hfuel. apply (tree_of_forest m fuel (dom (window_info m))); [done..| |by rewrite size_dom].
  intros x Hx. apply elem_of_dom. by eapply rtc_child_known.
Qed.

(** moving a window with the canonical policy moves exactly the windows of
    its tree, all of them by the same displacement, and changes no size and
    nothing else of the manager; the recursion ends within as many calls as
    there are windows. *)
Theorem move_tree_rigid (m : WM) (fuel : nat) (root : Window) (d : Displacement) :
  forest m -> is_Some (window_info m !! root) -> (size (window_info m) <= fuel)%nat ->
  exists m', move_tree canonical_confirm_inherited_move fuel root d m = Ret (tt, m') /\
    m' <| wm_shell := wm_shell m |> <| advice := advice m |> = m /\
    forall w, is_Some (window_info m !! w) ->
      window_size m' w = window_size m w /\
      (rtc (child_rel m) root w -> window_top_left m' w = point_add (window_top_left m w) d) /\
      (~ rtc (child_rel m) root w -> window_top_left m' w = window_top_left m w).
Proof.
  intros Hf Hroot Hfuel. destruct (tree_of_known m fuel root Hf Hroot Hfuel) as (ws & Ht & Hnd & Hx).
  destruct (move_tree_moves fuel root d ws m Ht Hnd) as (m' & Hm' & Hmv).
  { apply Forall_forall. intros w Hw%Hx. apply (forest_surface m Hf). by eapply rtc_child_known. }
  exists m'. split; [done|]. split; [apply Hmv|]. intros w Hw.
  destruct (shifted_rect ws d m m' w Hmv (forest_surface m Hf w Hw)) as [Hsz Htl]. split; [done|]. rewrite Htl, <-Hx.
  split; intros; [by rewrite bool_decide_true|by rewrite bool_decide_false].
Qed.

Lemma example_wm_infos w i :
  window_info example_wm !! w = Some i ->
  (w = 1 /\ wi_parent i = None /\ wi_children i = [2]) \/
  (w = 2 /\ wi_parent i = Some 1 /\ wi_children i = []) \/
  (w = 3 /\ wi_parent i = None /\ wi_children i = []).
Proof.
  unfold example_wm. cbn [window_info]. rewrite !lookup_insert_Some, lookup_singleton_Some. naive_solver.
Qed.

Lemma example_wm_child p c : child_rel example_wm p c <-> p = 1 /\ c = 2.
Proof.
  split.
  - intros (i & [(-> & _ & E)|[(-> & _ & E)|(-> & _ & E)]]%example_wm_infos & Hc); rewrite E in Hc; set_solver.
  - intros [-> ->]. eexists. split; [vm_compute; reflexivity|]. cbn. set_solver.
Qed.

Lemma example_wm_forest : forest example_wm.
Proof.
  split.
  - intros p c [-> ->]%example_wm_child. eexists. split; [vm_compute; reflexivity|done].
  - intros c ci p [(-> & E & _)|[(-> & E & _)|(-> & E & _)]]%example_wm_infos; rewrite E; intros Hp; [done| |done].
    injection Hp as <-. by apply example_wm_child.
  - intros w i [(_ & _ & E)|[(_ & _ & E)|(_ & _ & E)]]%example_wm_infos; rewrite E; repeat constructor; set_solver.
  - exists Z.to_nat. intros p c [-> ->]%example_wm_child. lia.
  - intros w [i [(-> & _)|[(-> & _)|(-> & _)]]%example_wm_infos]; vm_compute; eauto.
Qed.

Lemma move_tree_rigid_witness :
  exists m', move_tree canonical_confirm_inherited_move 3 1 (mkDisplacement 5 7) example_wm = Ret (tt, m') /\
    window_top_left m' 2 = mkPoint 15 27 /\ window_top_left m' 3 = mkPoint 10 20.
Proof.
  destruct (move_tree_rigid example_wm 3 1 (mkDisplacement 5 7)) as (m' & Hm' & _ & H).
  - apply example_wm_forest.
  - vm_compute. eauto.
  - apply (bool_decide_unpack _). reflexivity.
  - exists m'. split; [exact Hm'|]. vm_compute in Hm'. injection Hm' as <-. split; reflexivity.
Defined.
