(* ===== verification/WmFocus.v ===== *)
(** * miral::BasicWindowManager: the active window

    Which window is active, the states of windows, and what happens to the
    focus when a window is hidden or removed
    ([src/miral/basic_window_manager.cpp]). *)
From S2P Require Import Prelude Geometry Schedule BufferStream Occlusion WindowInfo Surface Sessions Shell WmState WmTree.

Definition application_of (m : WM) (w : option Window) : option Session := w ≫= (fun w => wm_applications m !! w).

(** [focus_controller->set_focus_to(window.application(), window)]. *)
Definition give_focus (w : option Window) : M unit :=
  modify (fun m => m <| wm_shell := set_focus_to (wm_shell m) (application_of m w) (lock (surfaces_of m) w) |>).

(** The loop over the children for a dialog on view. *)
Fixpoint visible_dialog (children : list Window) : M (option Window) :=
  match children with
  | [] => mret None
  | c :: rest =>
      info ← info_for c;
      visible ← gets (fun m => info_is_visible m c info);
      if bool_decide (wi_type info = mir_window_type_dialog) && visible then mret (Some c) else visible_dialog rest
  end.

Definition state_value (s : MirWindowState) : Z := enum_index window_states s.

(** [info.state(state)] with the surface told, and shown. *)
Definition restore_window (w : Window) : M unit :=
  advise (advise_state_change w mir_window_state_restored);;
  set_info w (fun i => i <| wi_state := mir_window_state_restored |>);;
  configure_surface w mir_window_attrib_state (state_value mir_window_state_restored);;
  with_surface w show.

Definition activate (prev_window : option Window) (w : Window) : M unit :=
  modify (fun m => m <| mru_active_windows := mru_push w (mru_active_windows m) |>);;
  give_focus (Some w);;
  match prev_window with
  | Some p => if bool_decide (p <> w) then info_for p;; advise (advise_focus_lost p) else mret tt
  | None => mret tt
  end;;
  advise (advise_focus_gained w).

Fixpoint select_active_window (fuel : nat) (hint : option Window) : M (option Window) :=
  match fuel with
  | O => throw out_of_fuel
  | S f =>
      prev_window ← gets active_window;
      hint' ← gets (fun m => lock (surfaces_of m) hint);
      modify (fun m => m <| allow_active_window := bool_decide (is_Some hint') |>);;
      match hint' with
      | None =>
          match prev_window with
          | Some p => give_focus hint;; info_for p;; advise (advise_focus_lost p)
          | None => mret tt
          end;;
          mret None
      | Some w =>
          info ← info_for w;
          dialog ← visible_dialog (wi_children info);
          match dialog with
          | Some child => select_active_window f (Some child)
          | None =>
              if can_be_active (wi_type info) && negb (bool_decide (wi_state info = mir_window_state_hidden)) then
                visible ← gets (fun m => info_is_visible m w info);
                (if visible : bool then mret tt else restore_window w);;
                activate prev_window w;;
                mret (Some w)
              else
                match wi_parent info with
                | Some p => select_active_window f (Some p)
                | None => mret None
                end
          end
      end
  end.

(** ** Trying recently used windows in turn *)
(** [MRUWindowList::enumerate] walks the list backwards while the callback
    asks for more; the callbacks try to select the windows that pass a test,
    and ask for more when the attempt selects nothing.  The walk is over the
    list as it was: a selection changes the list only when it succeeds, and
    then the walk stops. *)
Fixpoint activate_first (fuel : nat) (accept : WM -> Window -> bool) (windows : list Window) : M (option Window) :=
  match windows with
  | [] => mret None
  | w :: rest =>
      visible ← gets (fun m => mru_visible m w && accept m w);
      if visible : bool then
        selected ← select_active_window fuel (Some w);
        match selected with Some _ => mret selected | None => activate_first fuel accept rest end
      else activate_first fuel accept rest
  end.

Definition activate_recent (fuel : nat) (accept : WM -> Window -> bool) : M (option Window) :=
  windows ← gets (fun m => reverse (mru_active_windows m)); activate_first fuel accept windows.

Definition shares_workspace (workspaces : list Z) (m : WM) (w : Window) : bool :=
  existsb (fun workspace => bool_decide (workspace ∈ workspaces)) (workspaces_containing m w).

Definition of_session (session : option Session) (m : WM) (w : Window) : bool :=
  bool_decide (application_of m (Some w) = session).

Definition can_activate_window_for_session (fuel : nat) (session : option Session) : M bool :=
  selected ← activate_recent fuel (of_session session); mret (bool_decide (is_Some selected)).

Definition can_activate_window_for_session_in_workspace (fuel : nat) (session : option Session) (workspaces : list Z)
  : M bool :=
  selected ← activate_recent fuel (fun m w => of_session session m w && shares_workspace workspaces m w);
  mret (bool_decide (is_Some selected)).

(** ** The state of a window *)
Definition attaches (s : MirWindowState) : bool :=
  match s with
  | mir_window_state_maximized | mir_window_state_vertmaximized | mir_window_state_horizmaximized
  | mir_window_state_attached => true
  | _ => false
  end.

Definition detach (w : Window) (a : DisplayArea) : DisplayArea :=
  a <| da_attached_windows := erase_all w (da_attached_windows a) |>.
Definition attach (w : Window) (a : DisplayArea) : DisplayArea :=
  a <| da_attached_windows := set_insert w (da_attached_windows a) |>.

Definition update_attached_and_fullscreen_sets (w : Window) (i : WindowInfo) (state : MirWindowState) : M unit :=
  modify (fun m => m <| fullscreen_surfaces := erase_all w (fullscreen_surfaces m) |>
                     <| display_areas := detach w <$> display_areas m |>);;
  match state with
  | mir_window_state_fullscreen => modify (fun m => m <| fullscreen_surfaces := set_insert w (fullscreen_surfaces m) |>)
  | _ =>
      if attaches state then
        modify (fun m => match display_area_index m w i with
                         | Some n => m <| display_areas := alter (attach w) n (display_areas m) |>
                         | None => m
                         end)
      else mret tt
  end.

Definition hides (s : MirWindowState) : bool :=
  match s with mir_window_state_hidden | mir_window_state_minimized => true | _ => false end.

Definition is_active_or_none (w : Window) (m : WM) : bool :=
  match active_window m with Some a => bool_decide (a = w) | None => true end.

(** The search for another active window when [w] is to be hidden. *)
Definition focus_away_from (fuel : nat) (w : Window) : M unit :=
  select_active_window fuel (Some w);;
  again ← gets (is_active_or_none w);
  (if again : bool then
     workspaces ← gets (fun m => workspaces_containing m w);
     activate_recent fuel (fun m c => negb (bool_decide (c = w)) && shares_workspace workspaces m c);; mret tt
   else mret tt);;
  again ← gets (is_active_or_none w);
  (if again : bool then activate_recent fuel (fun _ c => negb (bool_decide (c = w)));; mret tt else mret tt);;
  active ← gets active_window;
  if bool_decide (active = Some w) then select_active_window fuel None;; mret tt else mret tt.

Definition set_state (fuel : nat) (w : Window) (value : MirWindowState) : M unit :=
  info ← info_for w;
  update_attached_and_fullscreen_sets w info value;;
  if bool_decide (wi_state info = value) then mret tt else
  let was_hidden := hides (wi_state info) in
  advise (advise_state_change w value);;
  if hides value then
    set_info w (fun i => i <| wi_state := mir_window_state_hidden |>);;
    active ← gets active_window;
    (if bool_decide (active = Some w) then focus_away_from fuel w else mret tt);;
    set_info w (fun i => i <| wi_state := value |>);;
    configure_surface w mir_window_attrib_state (state_value value);;
    with_surface w hide
  else
    none_active ← gets (fun m => bool_decide (active_window m = None));
    set_info w (fun i => i <| wi_state := value |>);;
    configure_surface w mir_window_attrib_state (state_value value);;
    with_surface w show;;
    if was_hidden && none_active then select_active_window fuel (Some w);; mret tt else mret tt.

(** ** Selecting a window *)
(** The manager's and the scene's idea of the state of a window agree. *)
Definition coherent (m : WM) : Prop :=
  forall w i s, window_info m !! w = Some i -> surfaces_of m !! w = Some s -> sf_state s = wi_state i.

(** What the manager keeps true of its windows. *)
Record wm_ok (m : WM) : Prop := {
  wm_forest : forest m;
  wm_coherent : coherent m;
  wm_mru : forall w, w ∈ mru_active_windows m -> is_Some (window_info m !! w)
}.

Definition shows_dialog (m : WM) (w : Window) : Prop :=
  exists c ci, child_rel m w c /\ window_info m !! c = Some ci /\ wi_type ci = mir_window_type_dialog /\
               info_is_visible m c ci = true.

Lemma visible_dialog_spec children m :
  (forall c, c ∈ children -> is_Some (window_info m !! c)) ->
  exists r, visible_dialog children m = Ret (r, m) /\
    match r with
    | Some c => c ∈ children /\ exists ci, window_info m !! c = Some ci /\ wi_type ci = mir_window_type_dialog /\ info_is_visible m c ci = true
    | None => forall c ci, c ∈ children -> window_info m !! c = Some ci -> wi_type ci = mir_window_type_dialog -> info_is_visible m c ci = false
    end.
Proof.
  induction children as [|c children IH]; intros Hk.
  { exists None. split; [done|]. set_solver. }
  destruct (Hk c) as [ci Hci]; [set_solver|]. destruct IH as (r & Hr & Hspec); [set_solver|]. cbn [visible_dialog].
  rewrite (M_bind_eq _ _ m ci m) by (unfold info_for; by rewrite Hci).
  rewrite (M_bind_eq _ _ m (info_is_visible m c ci) m) by done.
  destruct (bool_decide (wi_type ci = mir_window_type_dialog) && info_is_visible m c ci) eqn:E.
  - breflect. exists (Some c). split; [done|]. split; [set_solver|]. eauto.
  - exists r. split; [done|]. destruct r as [d|].
    + destruct Hspec as [? ?]. split; [set_solver|done].
    + intros x xi [->|Hx]%elem_of_cons Hxi Ht; [|by eapply Hspec]. assert (xi = ci) as -> by congruence.
      apply andb_false_iff in E as [E|E]; [|done]. breflect. done.
Qed.

Lemma info_for_known w m i : window_info m !! w = Some i -> info_for w m = Ret (i, m).
Proof. intros H. unfold info_for. by rewrite H. Qed.

Lemma mru_top_known m w : mru_top m = Some w -> w ∈ mru_active_windows m.
Proof. intros [H _]%find_if_Some. by apply elem_of_reverse. Qed.

Lemma active_window_known m w : wm_ok m -> active_window m = Some w -> is_Some (window_info m !! w).
Proof. intros [_ _ Hm]. unfold active_window. destruct (allow_active_window m); [|done]. intros H%mru_top_known. by apply Hm. Qed.

Lemma activate_spec prev w m :
  is_Some (surfaces_of m !! w) -> (forall p, prev = Some p -> is_Some (window_info m !! p)) ->
  exists m', activate prev w m = Ret (tt, m') /\
    window_info m' = window_info m /\ wm_streams m' = wm_streams m /\
    mru_active_windows m' = mru_push w (mru_active_windows m) /\ allow_active_window m' = allow_active_window m /\
    (forall x, blur <$> surfaces_of m' !! x = blur <$> surfaces_of m !! x) /\
    focused_surface (wm_shell m') = Some w /\ display_areas m' = display_areas m.
Proof.
  intros Hw Hp. unfold activate. erewrite M_bind_eq by reflexivity. erewrite M_bind_eq by reflexivity.
  match goal with |- context [(_ ≫= _) ?x = _] => set (m1 := x) end.
  assert (Hinfo : window_info m1 = window_info m) by done.
  assert (Hrest : exists advs, (match prev with
      | Some p => if bool_decide (p <> w) then info_for p;; advise (advise_focus_lost p) else mret tt
      | None => mret tt end) m1 = Ret (tt, m1 <| advice := advs |>)).
  { assert (Hid : m1 = m1 <| advice := advice m1 |>) by by destruct m1.
    destruct prev as [p|]; [|eexists; by rewrite Hid at 1]. case_bool_decide; [|eexists; by rewrite Hid at 1].
    destruct (Hp p eq_refl) as [pi Hpi]. rewrite <-Hinfo in Hpi. rewrite (M_bind_eq _ _ m1 pi m1) by by apply info_for_known.
    by eexists. }
  destruct Hrest as [advs ->%(fun H => M_bind_eq _ (fun _ => advise (advise_focus_gained w)) _ _ _ H)].
  eexists. split; [reflexivity|]. split_and!; try done.
  - intros x. exact (set_focus_to_blur (wm_shell m) (application_of m (Some w)) (lock (surfaces_of m) (Some w)) x).
  - change (focused_surface (set_focus_to (wm_shell m) (application_of m (Some w)) (lock (surfaces_of m) (Some w))) = Some w).
    rewrite (proj2 (lock_Some _ _ w) (conj eq_refl Hw)). apply lock_Some. split; [done|].
    pose proof (set_focus_to_blur (wm_shell m) (application_of m (Some w)) (Some w) w) as Hb.
    destruct Hw as [s Hs]. unfold surfaces_of in Hs. rewrite Hs in Hb. apply fmap_Some in Hb as (s' & Hs' & _). by exists s'.
Qed.

Lemma restore_window_spec w m :
  is_Some (surfaces_of m !! w) ->
  exists m' s', restore_window w m = Ret (tt, m') /\
    window_info m' = alter (fun i => i <| wi_state := mir_window_state_restored |>) w (window_info m) /\
    wm_streams m' = wm_streams m /\ mru_active_windows m' = mru_active_windows m /\
    allow_active_window m' = allow_active_window m /\ surfaces_of m' = <[w := s']> (surfaces_of m) /\
    sf_state s' = mir_window_state_restored /\ display_areas m' = display_areas m.
Proof.
  intros [s Hs]. unfold restore_window. erewrite M_bind_eq by reflexivity. erewrite M_bind_eq by reflexivity.
  match goal with |- context [(_ ≫= _) ?x = _] => set (m1 := x) end.
  assert (Hs1 : surfaces_of m1 !! w = Some s) by done.
  assert (Hc : exists s2 ev, configure_surface w mir_window_attrib_state (state_value mir_window_state_restored) m1 =
            Ret (tt, put_surface w s2 ev (m1 <| wm_streams := wm_streams m1 |>)) /\ sf_state s2 = mir_window_state_restored).
  { unfold configure_surface. rewrite Hs1. unfold configure, surface_set_state.
    change (enum_of window_states (state_value mir_window_state_restored)) with (Some mir_window_state_restored).
    cbv beta iota. case_bool_decide as Hst; cbn [mbind outcome_bind]; eexists _, _; (split; [reflexivity|]); [done|].
    destruct (decide (sf_state s = mir_window_state_restored)); tauto. }
  destruct Hc as (s2 & ev & Hc & Hst). rewrite (M_bind_eq _ _ _ _ _ Hc).
  unfold with_surface. rewrite put_surface_surfaces, lookup_insert_eq. eexists _, (fst (show s2)). split; [reflexivity|].
  rewrite !put_surface_surfaces. split_and!; try done. by rewrite insert_insert_eq.
Qed.

(** What a successful selection leaves behind. *)
Record selected (m : WM) (hint a : Window) (m' : WM) : Prop := {
  selected_active : active_window m' = Some a;
  selected_focused : focused_surface (wm_shell m') = Some a;
  selected_window : exists i, window_info m' !! a = Some i /\ can_be_active (wi_type i) = true /\ hides (wi_state i) = false;
  selected_dialog : ~ shows_dialog m' a;
  selected_tree : rtsc (child_rel m) hint a;
  selected_mru : mru_active_windows m' = mru_push a (mru_active_windows m);
  selected_ok : wm_ok m'
}.

Lemma mru_push_top m a windows :
  mru_active_windows m = mru_push a windows -> mru_visible m a = true -> mru_top m = Some a.
Proof. intros E Hv. unfold mru_top. rewrite E. unfold mru_push. rewrite reverse_snoc. cbn. by rewrite Hv. Qed.

Lemma blur_lookup {A} (f : Surface -> A) (m m' : gmap Z Surface) x :
  (forall s, f (blur s) = f s) -> blur <$> m' !! x = blur <$> m !! x -> f <$> m' !! x = f <$> m !! x.
Proof.
  intros Hf H. destruct (m' !! x) as [s'|], (m !! x) as [s|]; try done. apply (inj Some) in H.
  change (Some (f s') = Some (f s)). rewrite <-(Hf s), <-(Hf s'). by rewrite H.
Qed.

Lemma alter_state_family w st (infos : gmap Window WindowInfo) x :
  family <$> alter (fun i => i <| wi_state := st |>) w infos !! x = family <$> infos !! x.
Proof.
  destruct (decide (x = w)) as [->|]; [|by rewrite lookup_alter_ne]. rewrite lookup_alter_eq. by destruct (infos !! w).
Qed.

(** The state after [restore_window] and [activate], in terms of the fields
    the invariant reads. *)
Lemma activation_selected m m' w i s st :
  wm_ok m -> window_info m !! w = Some i -> surfaces_of m' !! w = Some s -> can_be_active (wi_type i) = true ->
  window_info m' = alter (fun i => i <| wi_state := st |>) w (window_info m) -> sf_state s = st -> hides st = false ->
  wm_streams m' = wm_streams m ->
  mru_active_windows m' = mru_push w (mru_active_windows m) -> allow_active_window m' = true ->
  (forall x, x <> w -> blur <$> surfaces_of m' !! x = blur <$> surfaces_of m !! x) ->
  focused_surface (wm_shell m') = Some w -> ~ shows_dialog m w -> selected m w w m'.
Proof.
  intros [Hf Hc Hm] Hi Hs Hact Hinfo Hst Hhide Hstr Hmru Hallow Hblur Hfoc Hdlg.
  assert (Hfam : forall x, family <$> window_info m' !! x = family <$> window_info m !! x).
  { intros x. rewrite Hinfo. apply alter_state_family. }
  assert (Hwi : window_info m' !! w = Some (i <| wi_state := st |>)) by by rewrite Hinfo, lookup_alter_eq, Hi.
  assert (Hne : forall x, x <> w -> window_info m' !! x = window_info m !! x) by (intros x Hx; by rewrite Hinfo, lookup_alter_ne).
  assert (Hvis : mru_visible m' w = true).
  { unfold mru_visible. rewrite Hs, Hst. destruct st; done. }
  split; [| done | | | done | done | split].
  - unfold active_window. rewrite Hallow. by eapply mru_push_top.
  - exists (i <| wi_state := st |>). done.
  - intros (c & ci & Hch & Hci & Ht & Hv). apply Hdlg. apply (child_rel_keep m m' _ _ Hfam) in Hch.
    destruct (forest_acyclic m Hf) as [rank Hr]. assert (c <> w) by (intros ->; specialize (Hr _ _ Hch); lia).
    exists c, ci. rewrite <-(Hne c) by done. split_and!; [done..|]. revert Hv. unfold info_is_visible. rewrite Hstr.
    by rewrite (blur_lookup (surface_visible (wm_streams m)) (surfaces_of m) (surfaces_of m') c) by (done || by apply Hblur).
  - apply (forest_keep m m' Hfam); [|done]. intros x Hx. destruct (decide (x = w)) as [->|Hxw]; [eauto|].
    specialize (Hblur x Hxw). destruct Hx as [sx Hx]. rewrite Hx in Hblur. apply fmap_Some in Hblur as (? & ? & _). eauto.
  - intros x xi xs Hxi Hxs. destruct (decide (x = w)) as [->|Hxw]; [rewrite Hs in Hxs; rewrite Hwi in Hxi; by simplify_eq|].
    rewrite Hne in Hxi by done. pose proof (blur_lookup sf_state _ _ x ltac:(done) (Hblur x Hxw)) as Hb. rewrite Hxs in Hb.
    cbn in Hb. symmetry in Hb. apply fmap_Some in Hb as (xs0 & Hxs0 & ->). by eapply Hc.
  - intros x. rewrite Hmru. unfold mru_push. rewrite elem_of_app, elem_of_erase_all, list_elem_of_singleton.
    intros [[Hx _]|Hx]; [|rewrite Hx; eauto]. apply Hm in Hx. destruct (decide (x = w)) as [->|]; [eauto|]. by rewrite Hne.
Qed.

Definition allowing (m : WM) : WM := m <| allow_active_window := true |>.

Lemma allowing_ok m : wm_ok m -> wm_ok (allowing m).
Proof. intros [Hf Hc Hm]. split; [by apply (forest_keep m)|exact Hc|exact Hm]. Qed.

Lemma visible_hides m w i : info_is_visible m w i = true -> hides (wi_state i) = false.
Proof. unfold info_is_visible, is_visible, hides. by destruct (wi_state i). Qed.

Lemma alter_same_state w i (infos : gmap Window WindowInfo) :
  infos !! w = Some i -> alter (fun i0 => i0 <| wi_state := wi_state i |>) w infos = infos.
Proof.
  intros Hi. apply map_eq. intros x. destruct (decide (x = w)) as [->|]; [|by rewrite lookup_alter_ne].
  rewrite lookup_alter_eq, Hi. cbn. f_equal. by destruct i.
Qed.

(** A window that is not on view is restored, wherever it is attached; when
    it is on view only the focus changes. *)
Definition stays_attached (m : WM) (w : Window) (i : WindowInfo) (m' : WM) : Prop :=
  display_areas m' = display_areas m /\
  (info_is_visible m w i = false -> exists i', window_info m' !! w = Some i' /\ wi_state i' = mir_window_state_restored) /\
  (info_is_visible m w i = true ->
   window_info m' = window_info m /\ wm_streams m' = wm_streams m /\
   forall x, blur <$> surfaces_of m' !! x = blur <$> surfaces_of m !! x).

(** The branch of [select_active_window] that makes the window active. *)
Lemma select_activates m w i prev :
  wm_ok m -> allow_active_window m = true -> window_info m !! w = Some i -> can_be_active (wi_type i) = true ->
  wi_state i <> mir_window_state_hidden -> ~ shows_dialog m w -> (forall p, prev = Some p -> is_Some (window_info m !! p)) ->
  exists m', (visible ← gets (fun m => info_is_visible m w i);
              (if visible : bool then mret tt else restore_window w);;
              activate prev w;; mret (Some w)) m = Ret (Some w, m') /\ selected m w w m' /\ stays_attached m w i m'.
Proof.
  intros Hok Hallow Hi Hact Hst Hdlg Hprev. pose proof Hok as [Hf Hc Hm].
  assert (Hs : is_Some (surfaces_of m !! w)) by (apply (forest_surface m Hf); eauto).
  rewrite (M_bind_eq _ _ m (info_is_visible m w i) m) by done. destruct (info_is_visible m w i) eqn:Hv.
  - rewrite (M_bind_eq _ _ m tt m) by done.
    destruct (activate_spec prev w m Hs Hprev) as (m' & Ha & Hinfo & Hstr & Hmru & Hal & Hblur & Hfoc & Har).
    rewrite (M_bind_eq _ _ _ _ _ Ha). exists m'. split; [done|]. split; [|split; [done|split; [congruence|done]]]. destruct Hs as [s Hs]. pose proof (blur_lookup sf_state _ _ w ltac:(done) (Hblur w)) as Hb.
    rewrite Hs in Hb. cbn in Hb. apply fmap_Some in Hb as (s' & Hs' & Est).
    apply (activation_selected m m' w i s' (wi_state i)); try done.
    + by rewrite alter_same_state.
    + rewrite <-Est. by apply (Hc w).
    + by eapply visible_hides.
    + congruence.
  - destruct (restore_window_spec w m Hs) as (m1 & s1 & Hr & Hinfo1 & Hstr1 & Hmru1 & Hal1 & Hsurf1 & Hst1 & Har1).
    rewrite (M_bind_eq _ _ _ _ _ Hr).
    destruct (activate_spec prev w m1) as (m' & Ha & Hinfo & Hstr & Hmru & Hal & Hblur & Hfoc & Har).
    { rewrite Hsurf1, lookup_insert_eq. eauto. }
    { intros p Hp. rewrite Hinfo1. destruct (Hprev p Hp) as [pi Hpi].
      destruct (decide (p = w)) as [->|]; [rewrite lookup_alter_eq, Hpi; eauto|rewrite lookup_alter_ne, Hpi by done; eauto]. }
    rewrite (M_bind_eq _ _ _ _ _ Ha). exists m'. split; [done|].
    split; [|split; [congruence|split; [intros _; rewrite Hinfo, Hinfo1, lookup_alter_eq, Hi; by eexists|congruence]]]. pose proof (blur_lookup sf_state _ _ w ltac:(done) (Hblur w)) as Hb.
    rewrite Hsurf1, lookup_insert_eq in Hb. cbn in Hb. apply fmap_Some in Hb as (s' & Hs' & Est).
    apply (activation_selected m m' w i s' mir_window_state_restored); try done; try congruence.
    intros x Hx. rewrite Hblur, Hsurf1, lookup_insert_ne by done. done.
Qed.

(** One call of [select_active_window] on a window the manager knows. *)
Lemma select_step f w m i :
  wm_ok m -> window_info m !! w = Some i ->
  (exists c ci, child_rel m w c /\ window_info m !! c = Some ci /\ wi_type ci = mir_window_type_dialog /\
     info_is_visible m c ci = true /\
     select_active_window (S f) (Some w) m = select_active_window f (Some c) (allowing m)) \/
  (~ shows_dialog m w /\
   if can_be_active (wi_type i) && negb (bool_decide (wi_state i = mir_window_state_hidden))
   then exists m', select_active_window (S f) (Some w) m = Ret (Some w, m') /\ selected (allowing m) w w m' /\
          stays_attached (allowing m) w i m'
   else select_active_window (S f) (Some w) m =
          match wi_parent i with
          | Some p => select_active_window f (Some p) (allowing m)
          | None => Ret (None, allowing m)
          end).
Proof.
  intros Hok Hi. pose proof Hok as [Hf _ _]. pose proof (allowing_ok m Hok) as Hok1.
  assert (Hs : is_Some (surfaces_of m !! w)) by (apply (forest_surface m Hf); eauto).
  cbn [select_active_window]. rewrite (M_bind_eq _ _ m (active_window m) m) by done.
  rewrite (M_bind_eq _ _ m (Some w) m) by (unfold gets; by rewrite (proj2 (lock_Some _ _ w) (conj eq_refl Hs))).
  rewrite (M_bind_eq _ _ m tt (allowing m)) by (unfold modify, allowing; by rewrite bool_decide_true by eauto).
  rewrite (M_bind_eq _ _ (allowing m) i (allowing m)) by by apply info_for_known.
  destruct (visible_dialog_spec (wi_children i) (allowing m)) as (r & Hr & Hspec).
  { intros c Hc. destruct (forest_child m Hf w c) as (ci & Hci & _); [by exists i|]. exists ci. exact Hci. }
  rewrite (M_bind_eq _ _ _ _ _ Hr). destruct r as [c|].
  - left. destruct Hspec as (Hc & ci & Hci & Ht & Hv). exists c, ci. split_and!; try done. by exists i.
  - right. assert (Hdlg : ~ shows_dialog m w).
    { intros (c & ci & (i' & Hi' & Hc) & Hci & Ht & Hv). assert (i' = i) as -> by congruence.
      specialize (Hspec c ci Hc Hci Ht). unfold info_is_visible in Hspec, Hv. cbn in Hspec, Hv. unfold surfaces_of in *. cbn in Hspec. congruence. }
    split; [done|]. destruct (can_be_active (wi_type i) && negb _) eqn:E.
    + breflect. by apply (select_activates (allowing m) w i); try done; intros p Hp; apply (active_window_known m).
    + by destruct (wi_parent i).
Qed.

Lemma selected_via m w c a m' : sc (child_rel m) w c -> selected (allowing m) c a m' -> selected m w a m'.
Proof. intros Hstep [? ? ? ? Ht ? ?]. split; try done. eapply rtc_l; [exact Hstep|exact Ht]. Qed.

Lemma selected_allowing m w a m' : selected (allowing m) w a m' -> selected m w a m'.
Proof. intros [? ? ? ? Ht ? ?]. by split. Qed.

(** A dialog on view is selected, or a dialog below it. *)
Lemma select_dialog fuel (below : gset Window) w i m :
  wm_ok m -> window_info m !! w = Some i -> wi_type i = mir_window_type_dialog -> info_is_visible m w i = true ->
  (forall x, rtc (child_rel m) w x -> x ∈ below) -> (size below <= fuel)%nat ->
  exists a m', select_active_window fuel (Some w) m = Ret (Some a, m') /\ selected m w a m'.
Proof.
  revert below w i m. induction fuel as [|f IH]; intros below w i m Hok Hi Ht Hv Hb Hsz.
  { assert (below = ∅) as -> by (apply leibniz_equiv, size_empty_iff; lia). specialize (Hb w (rtc_refl _ _)). set_solver. }
  destruct (forest_acyclic m (wm_forest m Hok)) as [rank Hr].
  destruct (select_step f w m i Hok Hi) as [(c & ci & Hch & Hci & Hct & Hcv & ->)|[Hdlg Hsel]].
  - destruct (IH (below ∖ {[w]}) c ci (allowing m)) as (a & m' & Hsel & Hres); try done.
    + by apply allowing_ok.
    + intros x Hx. apply elem_of_difference. split; [apply Hb; by eapply rtc_l|]. rewrite elem_of_singleton. intros ->.
      pose proof (rtc_child_rank m rank _ _ Hr Hx). specialize (Hr _ _ Hch). lia.
    + rewrite size_difference by (specialize (Hb w (rtc_refl _ _)); set_solver). rewrite size_singleton. lia.
    + exists a, m'. split; [done|]. apply (selected_via m w c); [by left|done].
  - rewrite Ht in Hsel. rewrite bool_decide_false in Hsel by (apply visible_hides in Hv; by intros E; rewrite E in Hv).
    destruct Hsel as (m' & Hsel & Hres & _). exists w, m'. split; [done|by apply selected_allowing].
Qed.

Lemma rtc_parent_rank m (rank : Window -> nat) x y :
  (forall p c, child_rel m p c -> (rank p < rank c)%nat) -> rtc (flip (child_rel m)) x y -> (rank y <= rank x)%nat.
Proof. intros Hr. induction 1 as [|x y z H _ IH]; [done|]. apply Hr in H. lia. Qed.

(** No window from [w] up to the root can become active. *)
Definition nothing_to_select (m : WM) (w : Window) : Prop :=
  forall x i, rtc (flip (child_rel m)) w x -> window_info m !! x = Some i ->
    ~ shows_dialog m x /\ (can_be_active (wi_type i) = false \/ wi_state i = mir_window_state_hidden).

Lemma select_terminates fuel (above : gset Window) w m :
  wm_ok m -> is_Some (window_info m !! w) ->
  (forall x, rtc (flip (child_rel m)) w x -> x ∈ above) -> (size above + size (window_info m) <= fuel)%nat ->
  (exists a m', select_active_window fuel (Some w) m = Ret (Some a, m') /\ selected m w a m') \/
  (select_active_window fuel (Some w) m = Ret (None, allowing m) /\ nothing_to_select m w).
Proof.
  revert above w m. induction fuel as [|f IH]; intros above w m Hok [i Hi] Ha Hsz.
  { assert (above = ∅) as -> by (apply leibniz_equiv, size_empty_iff; lia). specialize (Ha w (rtc_refl _ _)). set_solver. }
  pose proof Hok as [Hf _ _]. destruct (forest_acyclic m Hf) as [rank Hr].
  assert (Hsize : (0 < size above)%nat).
  { assert (size above <> 0%nat); [|lia]. intros E%size_empty_inv. specialize (Ha w (rtc_refl _ _)). set_solver. }
  destruct (select_step f w m i Hok Hi) as [(c & ci & Hch & Hci & Hct & Hcv & ->)|[Hdlg Hsel]].
  - left. destruct (select_dialog f (dom (window_info m)) c ci (allowing m)) as (a & m' & Hsel & Hres); try done.
    + by apply allowing_ok.
    + intros x Hx. apply elem_of_dom. eapply (rtc_child_known (allowing m)); [by apply wm_forest, allowing_ok|by exists ci|exact Hx].
    + rewrite size_dom. lia.
    + exists a, m'. split; [done|]. apply (selected_via m w c); [by left|done].
  - destruct (can_be_active (wi_type i) && negb _) eqn:E.
    { left. destruct Hsel as (m' & Hsel & Hres & _). exists w, m'. split; [done|by apply selected_allowing]. }
    assert (Hno : can_be_active (wi_type i) = false \/ wi_state i = mir_window_state_hidden).
    { apply andb_false_iff in E as [E|E]; breflect; tauto. }
    destruct (wi_parent i) as [p|] eqn:Ep.
    + pose proof (forest_parent m Hf _ _ _ Hi Ep) as Hpc.
      destruct (IH (above ∖ {[w]}) p (allowing m)) as [(a & m' & Hsel' & Hres)|[Hsel' Hres]].
      * by apply allowing_ok.
      * destruct Hpc as (pi & Hpi & _). by exists pi.
      * intros x Hx. apply elem_of_difference. split; [apply Ha; by eapply rtc_l|]. rewrite elem_of_singleton. intros ->.
        pose proof (rtc_parent_rank m rank p w Hr Hx). specialize (Hr _ _ Hpc). lia.
      * rewrite size_difference by (specialize (Ha w (rtc_refl _ _)); set_solver). rewrite size_singleton.
        change (window_info (allowing m)) with (window_info m). lia.
      * left. exists a, m'. rewrite Hsel. split; [done|]. apply (selected_via m w p); [by right|done].
      * right. rewrite Hsel. split; [done|]. intros x xi Hx Hxi. apply rtc_inv in Hx as [<-|(y & Hy & Hx)].
        -- split; [done|]. by assert (xi = i) as -> by congruence.
        -- assert (y = p) as ->. { destruct (forest_child m Hf _ _ Hy) as (i' & Hi' & Hp'). congruence. }
           exact (Hres x xi Hx Hxi).
    + right. split; [done|]. intros x xi Hx Hxi. apply rtc_inv in Hx as [<-|(y & Hy & Hx)].
      * split; [done|]. by assert (xi = i) as -> by congruence.
      * destruct (forest_child m Hf _ _ Hy) as (i' & Hi' & Hp'). congruence.
Qed.

(** C4: selecting a window always ends, within twice as many calls as there
    are windows.  Either a window of the same tree becomes active: it is the
    active window, has the input focus and is the most recently used one, its
    type can be active, it is not hidden or minimized, no dialog of it is on
    view, and the manager's invariant holds; or neither the window nor any
    of its ancestors can be active, and then only the permission to have an
    active window changes. *)
Theorem select_active_window_selects (m : WM) (fuel : nat) (w : Window) :
  wm_ok m -> is_Some (window_info m !! w) -> (2 * size (window_info m) <= fuel)%nat ->
  (exists a m', select_active_window fuel (Some w) m = Ret (Some a, m') /\ selected m w a m') \/
  (select_active_window fuel (Some w) m = Ret (None, allowing m) /\ nothing_to_select m w).
Proof.
  intros Hok Hw Hfuel. apply (select_terminates fuel (dom (window_info m))); [done..| |rewrite size_dom; lia].
  intros x Hx. apply elem_of_dom. clear Hfuel. induction Hx as [|w y z (yi & Hyi & _) _ IH]; [done|]. apply IH. eauto.
Qed.

Lemma example_wm_ok : wm_ok example_wm.
Proof.
  split; [apply example_wm_forest| |].
  - intros w i s Hi Hs.
    assert (wi_state i = mir_window_state_restored) as ->.
    { revert Hi. unfold example_wm. cbn [window_info]. rewrite !lookup_insert_Some, lookup_singleton_Some. naive_solver. }
    apply example_wm_infos in Hi as [(-> & _)|[(-> & _)|(-> & _)]]; vm_compute in Hs; by injection Hs as <-.
  - intros w [->|[->|[->|Hw%not_elem_of_nil]%elem_of_cons]%elem_of_cons]%elem_of_cons; [vm_compute; eauto..|done].
Qed.

Lemma select_active_window_selects_witness :
  exists m', select_active_window 6 (Some 1) example_wm = Ret (Some 2, m') /\ active_window m' = Some 2.
Proof.
  destruct (select_active_window_selects example_wm 6 1) as [(a & m' & H & Hsel)|[H _]].
  - apply example_wm_ok.
  - vm_compute. eauto.
  - apply (bool_decide_unpack _). reflexivity.
  - exists m'. pose proof H as H'. vm_compute in H'. injection H' as Ha _. subst a.
    split; [exact H|exact (selected_active _ _ _ _ Hsel)].
  - vm_compute in H. discriminate H.
Defined.
