(* ===== verification/WmCycle.v ===== *)
(** * miral::BasicWindowManager: cycling through applications and windows

    Moving the active window to the next or previous application, or to the
    next or previous window of the application, preferring the windows that
    share a workspace ([src/miral/basic_window_manager.cpp]). *)
From S2P Require Import Prelude Geometry Schedule BufferStream Occlusion WindowInfo Surface Sessions Shell.
From S2P Require Import WmState WmTree WmFocus.

(** ** Applications *)
(** [focus_controller->focus_next_session()] or [focus_prev_session()]. *)
Definition session_step (step : Shell -> outcome Shell) : M unit := fun m =>
  match step (wm_shell m) with Ret sh => Ret (tt, m <| wm_shell := sh |>) | Throw e => Throw e end.

Definition current_session (m : WM) : option Session := focused_session (wm_shell m).

(** The [do ... while] loops: go on to the next session until one of its
    windows can be activated or the walk is back at [last]. *)
Fixpoint cycle_sessions (steps : nat) (step : Shell -> outcome Shell) (can_activate : option Session -> M bool)
    (last : option Session) : M bool :=
  match steps with
  | O => throw out_of_fuel
  | S n =>
      session_step step;;
      session ← gets current_session;
      found ← can_activate session;
      if found : bool then mret true
      else
        session' ← gets current_session;
        if bool_decide (session' = last) then mret false else cycle_sessions n step can_activate last
  end.

(** [fuel] bounds the calls of a selection, [steps] the walk over the
    sessions. *)
Definition focus_application (steps fuel : nat) (step : Shell -> outcome Shell) : M unit :=
  prev ← gets active_window;
  found ←
    match prev with
    | Some p =>
        workspaces ← gets (fun m => workspaces_containing m p);
        last ← gets (fun m => application_of m (Some p));
        match workspaces with
        | [] => cycle_sessions steps step (can_activate_window_for_session fuel) last
        | _ => cycle_sessions steps step
                 (fun s => can_activate_window_for_session_in_workspace fuel s workspaces) last
        end
    | None =>
        session_step step;; session ← gets current_session; can_activate_window_for_session fuel session
    end;
  if found : bool then mret tt
  else
    focussed ← gets (fun m => focused_surface (wm_shell m));
    match focussed with
    | Some w => info_for w;; select_active_window fuel (Some w);; mret tt
    | None => select_active_window fuel None;; mret tt
    end.

Definition focus_next_application (steps fuel : nat) : M unit := focus_application steps fuel focus_next_session.
Definition focus_prev_application (steps fuel : nat) : M unit := focus_application steps fuel focus_prev_session.

(** ** Windows of one application *)
Definition info_for_session (s : option Session) : M (list Window) := fun m =>
  match s ≫= (fun s => app_info m !! s) with Some ws => Ret (ws, m) | None => Throw out_of_range end.

(** The part of the siblings after [prev], [None] when it is not there. *)
Fixpoint after (prev : Window) (siblings : list Window) : option (list Window) :=
  match siblings with
  | [] => None
  | w :: rest => if decide (w = prev) then Some rest else after prev rest
  end.

Section Siblings.
Context (fuel : nat) (prev : Window) (workspaces : list Z).

(** [if (prev != select_active_window(current)) return;] *)
Definition moves_to (current : Window) : M bool :=
  selected ← select_active_window fuel (Some current); mret (bool_decide (selected <> Some prev)).

(** The two inner loops: one attempt for each workspace in common. *)
Fixpoint attempts (common : list Z) (current : Window) : M bool :=
  match common with
  | [] => mret false
  | _ :: rest => moved ← moves_to current; if moved : bool then mret true else attempts rest current
  end.

Definition in_common (m : WM) (current : Window) : list Z :=
  workspaces_containing m current ≫= (fun workspace => filter (fun ww => ww = workspace) workspaces).

Definition try_shared (current : Window) : M bool :=
  common ← gets (fun m => in_common m current); attempts common current.

Fixpoint try_all (siblings : list Window) : M bool :=
  match siblings with
  | [] => mret false
  | w :: rest => moved ← try_shared w; if moved : bool then mret true else try_all rest
  end.

(** [for (current = begin(siblings); *current != prev; ++current)]; reading
    past the end of the vector is undefined and fails here. *)
Fixpoint try_until_prev (attempt : Window -> M bool) (siblings : list Window) : M bool :=
  match siblings with
  | [] => throw out_of_range
  | w :: rest =>
      if decide (w = prev) then mret false
      else moved ← attempt w; if moved : bool then mret true else try_until_prev attempt rest
  end.

(** [while (++current != end(siblings) && prev == select_active_window( *current))]:
    whether the end was reached. *)
Fixpoint select_until_end (siblings : list Window) : M bool :=
  match siblings with
  | [] => mret true
  | w :: rest => moved ← moves_to w; if moved : bool then mret false else select_until_end rest
  end.

Definition focus_sibling (siblings : list Window) : M unit :=
  found ← match after prev siblings with Some rest => try_all rest | None => mret false end;
  if found : bool then mret tt
  else
    found ← try_until_prev try_shared siblings;
    if found : bool then mret tt
    else
      at_end ← match after prev siblings with Some rest => select_until_end rest | None => mret true end;
      if at_end : bool then try_until_prev moves_to siblings;; mret tt else mret tt.
End Siblings.

Definition focus_within_application (fuel : nat) (order : list Window -> list Window) : M unit :=
  prev ← gets active_window;
  match prev with
  | None => mret tt
  | Some p =>
      workspaces ← gets (fun m => workspaces_containing m p);
      application ← gets (fun m => application_of m (Some p));
      siblings ← info_for_session application;
      focus_sibling fuel p workspaces (order siblings)
  end.

Definition focus_next_within_application (fuel : nat) : M unit := focus_within_application fuel id.
Definition focus_prev_within_application (fuel : nat) : M unit := focus_within_application fuel reverse.

(** ** What a selection leaves alone *)
(** The parts of the state that no change of the active window touches: who
    owns which window and where the windows belong. *)
Definition still (m : WM) :=
  (app_info m, wm_applications m, workspaces_to_windows m, fullscreen_surfaces m, display_areas m, cursor m, next_zone_id m,
   (sh_apps (wm_shell m), sh_session_surfaces (wm_shell m), sh_parents (wm_shell m), dom (surfaces_of m)),
   family <$> window_info m).

Definition keeps_still {A} (x : M A) : Prop := forall m a m', x m = Ret (a, m') -> still m' = still m.

Lemma keeps_ret {A} (a : A) : keeps_still (mret a).
Proof. by intros m b m' [= _ <-]. Qed.
Lemma keeps_throw {A} e : keeps_still (throw e : M A).
Proof. by intros m b m' H. Qed.
Lemma keeps_gets {A} (f : WM -> A) : keeps_still (gets f).
Proof. by intros m b m' [= _ <-]. Qed.
Lemma keeps_modify f : (forall m, still (f m) = still m) -> keeps_still (modify f).
Proof. by intros H m b m' [= _ <-]. Qed.
Lemma keeps_bind {A B} (x : M A) (f : A -> M B) : keeps_still x -> (forall a, keeps_still (f a)) -> keeps_still (x ≫= f).
Proof. intros Hx Hf m b m' (a & m1 & H1 & H2)%M_bind_Ret. rewrite (Hf a m1 b m' H2). by eapply Hx. Qed.
Lemma keeps_info_for w : keeps_still (info_for w).
Proof. intros m a m'. unfold info_for. destruct (window_info m !! w); [|done]. by intros [= _ <-]. Qed.

#[local] Hint Resolve keeps_ret keeps_throw keeps_gets keeps_bind keeps_info_for : keeps.

Lemma keeps_advise a : keeps_still (advise a).
Proof. by apply keeps_modify. Qed.

Lemma keeps_set_state w st : keeps_still (set_info w (fun i => i <| wi_state := st |>)).
Proof.
  apply keeps_modify. intros m. unfold still. cbn. f_equal. apply map_eq. intros x. rewrite !lookup_fmap. apply alter_state_family.
Qed.

Lemma still_put_surface w s events m : is_Some (surfaces_of m !! w) -> still (put_surface w s events m) = still m.
Proof.
  intros Hs. unfold still. rewrite put_surface_surfaces, dom_insert_known by done. unfold put_surface. cbn.
  unfold observe, update_focused_surface_confined_region. by repeat case_match.
Qed.

Lemma keeps_with_surface w f : keeps_still (with_surface w f).
Proof.
  intros m a m'. unfold with_surface. destruct (surfaces_of m !! w) as [s|] eqn:E; [|done]. intros [= _ <-].
  apply still_put_surface. eauto.
Qed.

Lemma keeps_configure w at_ v : keeps_still (configure_surface w at_ v).
Proof.
  intros m a m'. unfold configure_surface. destruct (surfaces_of m !! w) as [s|] eqn:E; [|done].
  destruct (configure s (wm_streams m) at_ v) as [[? [[s' st'] ev]]|]; [|done]. intros [= _ <-].
  rewrite still_put_surface; [done|]. unfold surfaces_of in *. cbn. eauto.
Qed.

Lemma set_focus_to_keeps sh session surface :
  sh_apps (set_focus_to sh session surface) = sh_apps sh /\
  sh_session_surfaces (set_focus_to sh session surface) = sh_session_surfaces sh /\
  sh_parents (set_focus_to sh session surface) = sh_parents sh /\
  dom (sh_surfaces (set_focus_to sh session surface)) = dom (sh_surfaces sh).
Proof.
  split_and!.
  4: { apply set_eq. intros x. by rewrite !elem_of_dom, <-(fmap_is_Some blur), set_focus_to_blur, fmap_is_Some. }
  all: unfold set_focus_to, update_focus_locked, notify_focus_locked; cbn; case_decide; [done|]; by destruct surface.
Qed.

Lemma keeps_give_focus w : keeps_still (give_focus w).
Proof.
  apply keeps_modify. intros m.
  destruct (set_focus_to_keeps (wm_shell m) (application_of m w) (lock (surfaces_of m) w)) as (H1 & H2 & H3 & H4).
  set (sh := set_focus_to _ _ _) in *. unfold still. change (surfaces_of (m <| wm_shell := sh |>)) with (sh_surfaces sh).
  cbn [wm_shell assign]. rewrite H1, H2, H3, H4. done.
Qed.

#[local] Hint Resolve keeps_advise keeps_set_state keeps_with_surface keeps_configure keeps_give_focus : keeps.

Lemma keeps_restore w : keeps_still (restore_window w).
Proof. unfold restore_window. eauto 10 with keeps. Qed.

Lemma keeps_activate prev w : keeps_still (activate prev w).
Proof.
  unfold activate. apply keeps_bind; [by apply keeps_modify|]. intros _. apply keeps_bind; [eauto with keeps|]. intros _.
  apply keeps_bind; [|eauto with keeps]. destruct prev; [case_match|]; eauto with keeps.
Qed.

Lemma keeps_visible_dialog children : keeps_still (visible_dialog children).
Proof.
  induction children as [|c children IH]; cbn [visible_dialog]; [eauto with keeps|].
  apply keeps_bind; [eauto with keeps|]. intros i. apply keeps_bind; [eauto with keeps|]. intros v. case_match; eauto with keeps.
Qed.

#[local] Hint Resolve keeps_restore keeps_activate keeps_visible_dialog : keeps.

Lemma keeps_select fuel w : keeps_still (select_active_window fuel w).
Proof.
  revert w. induction fuel as [|f IH]; intros w; cbn [select_active_window]; [eauto with keeps|].
  apply keeps_bind; [eauto with keeps|]. intros prev. apply keeps_bind; [eauto with keeps|]. intros hint.
  apply keeps_bind; [by apply keeps_modify|]. intros _. destruct hint as [h|].
  - apply keeps_bind; [eauto with keeps|]. intros i. apply keeps_bind; [eauto with keeps|]. intros [c|]; [apply IH|].
    case_match.
    + apply keeps_bind; [eauto with keeps|]. intros v. apply keeps_bind; [destruct v; eauto with keeps|]. eauto with keeps.
    + destruct (wi_parent i); eauto with keeps.
  - apply keeps_bind; [|eauto with keeps]. destruct prev; eauto 6 with keeps.
Qed.

(** ** The owners of the windows *)
(** Every window belongs to a session that is connected and knows its surface,
    and to the application's list of windows. *)
Record sessions_ok (m : WM) : Prop := {
  so_NoDup : NoDup (sh_apps (wm_shell m));
  so_owner : forall w, is_Some (window_info m !! w) -> exists s ws ss,
    wm_applications m !! w = Some s /\ s ∈ sh_apps (wm_shell m) /\
    app_info m !! s = Some ws /\ w ∈ ws /\ sh_session_surfaces (wm_shell m) !! s = Some ss /\ w ∈ ss;
  so_surfaces : forall s ss w, sh_session_surfaces (wm_shell m) !! s = Some ss -> w ∈ ss ->
    is_Some (window_info m !! w) /\ wm_applications m !! w = Some s;
  so_windows : forall s ws w, app_info m !! s = Some ws -> w ∈ ws ->
    is_Some (window_info m !! w) /\ wm_applications m !! w = Some s;
  so_surfaces_NoDup : forall s ss, sh_session_surfaces (wm_shell m) !! s = Some ss -> NoDup ss;
  so_windows_NoDup : forall s ws, app_info m !! s = Some ws -> NoDup ws
}.

Lemma find_if_index {A} (p : A -> bool) l i t :
  l !! i = Some t -> p t = true -> exists j g, find_if p l = Some g /\ l !! j = Some g /\ (j <= i)%nat.
Proof.
  revert i. induction l as [|x l IH]; intros i Hi Ht; [done|]. cbn [find_if]. destruct (p x) eqn:E.
  - exists O, x. split_and!; [done..|lia].
  - destruct i as [|i]; [cbn in Hi; congruence|]. destruct (IH i Hi Ht) as (j & g & ? & ? & ?). exists (S j), g. split_and!; [done..|lia].
Qed.

Lemma sessions_after_cycle apps f :
  NoDup apps -> apps <> [] -> sessions_after apps f <> [] -> exists k, (k <= length apps)%nat /\ sessions_after apps f = cycle_from k apps.
Proof.
  intros Hn Hne. destruct f as [s|]; cbn.
  - destruct (list_find (eq s) apps) as [[i y]|] eqn:E; [|done]. intros _. exists (S i). split; [|done].
    apply list_find_Some in E as (E & _). by apply lookup_lt_Some in E.
  - intros _. exists (length apps - 1)%nat. split; [lia|done].
Qed.

(** The order seen from a later session is the rest of the order. *)
Lemma sessions_after_next apps f g t i j :
  NoDup apps -> sessions_after apps f !! i = Some t -> sessions_after apps f !! j = Some g -> (j < i)%nat ->
  sessions_after apps (Some g) !! (i - S j)%nat = Some t.
Proof.
  intros Hn Hi Hj Hlt. assert (Hne : apps <> []).
  { intros ->. destruct f; cbn in Hi; [done|]. by rewrite lookup_nil in Hi. }
  destruct (sessions_after_cycle apps f Hn Hne) as (k & Hk & E). { intros E. by rewrite E in Hi. } rewrite E in *.
  pose proof (lookup_lt_Some _ _ _ Hi) as Hil. rewrite cycle_from_Permutation in Hil.
  rewrite cycle_from_lookup in Hi, Hj by lia. cbn.
  assert (list_find (eq g) apps = Some (((k + j) mod length apps)%nat, g)) as ->.
  { apply list_find_Some. split; [done|]. split; [done|]. intros q y Hq Hlq <-. pose proof (NoDup_lookup _ _ _ _ Hn Hj Hq). lia. }
  pose proof (lookup_lt_Some _ _ _ Hj). rewrite cycle_from_lookup by lia. rewrite <-Hi. f_equal.
  replace (S ((k + j) mod length apps) + (i - S j))%nat with ((k + j) mod length apps + (i - j))%nat by lia.
  rewrite Nat.Div0.add_mod_idemp_l. f_equal. lia.
Qed.

Lemma focused_session_update sh session surface :
  (forall s, session = Some s -> s ∈ sh_apps sh) -> focused_session (update_focus_locked sh session surface) = session.
Proof.
  intros Hin. unfold focused_session at 1. cbn. destruct (decide (session = focused_session sh)) as [->|E]; [done|].
  destruct session as [g|]; [|done]. by rewrite decide_True by by apply Hin.
Qed.

(** ** Searches that end *)
Lemma still_known m m0 w : still m = still m0 -> is_Some (window_info m !! w) <-> is_Some (window_info m0 !! w).
Proof.
  intros E. injection E as _ _ _ _ _ _ _ _ _ _ _ E. rewrite <-(fmap_is_Some family (window_info m !! w)), <-lookup_fmap, E, lookup_fmap.
  by rewrite fmap_is_Some.
Qed.

Lemma still_size m m0 : still m = still m0 -> size (window_info m) = size (window_info m0).
Proof.
  intros E. injection E as _ _ _ _ _ _ _ _ _ _ _ E. by rewrite <-(map_size_fmap family (window_info m)), E, map_size_fmap.
Qed.

(** The states that an operation passes through which only changes the active
    window, from [m0] on. *)
Section Ends.
Context (m0 : WM) (fuel : nat) (Hfuel : (2 * size (window_info m0) < fuel)%nat).

Definition within (m : WM) : Prop := wm_ok m /\ still m = still m0.
Definition ends {A} (x : M A) : Prop := forall m, within m -> exists a m', x m = Ret (a, m') /\ within m'.

Lemma ends_ret {A} (a : A) : ends (mret a).
Proof. intros m Hm. by exists a, m. Qed.

Lemma ends_bind {A B} (x : M A) (f : A -> M B) : ends x -> (forall a, ends (f a)) -> ends (x ≫= f).
Proof.
  intros Hx Hf m Hm. destruct (Hx m Hm) as (a & m1 & H1 & Hm1). destruct (Hf a m1 Hm1) as (b & m2 & H2 & Hm2).
  exists b, m2. by rewrite (M_bind_eq _ _ _ _ _ H1).
Qed.

Lemma ends_gets_bind {A B} (f : WM -> A) (k : A -> M B) : (forall m, within m -> ends (k (f m))) -> ends (gets f ≫= k).
Proof. intros Hk m Hm. rewrite (M_bind_eq _ _ m (f m) m) by done. by apply Hk. Qed.

Lemma ends_if {A} (b : bool) (x y : M A) : ends x -> ends y -> ends (if b then x else y).
Proof. by destruct b. Qed.

#[local] Hint Resolve ends_ret ends_bind ends_if : ends.

Lemma within_known m w : within m -> is_Some (window_info m !! w) <-> is_Some (window_info m0 !! w).
Proof. intros [_ E]. by apply still_known. Qed.

Lemma select_within w m :
  within m -> is_Some (window_info m0 !! w) ->
  exists r m', select_active_window fuel (Some w) m = Ret (r, m') /\ within m' /\ (r = None -> m' = allowing m).
Proof.
  intros Hm Hw. pose proof Hm as [Hok Hst]. apply (within_known m w Hm) in Hw as Hk.
  destruct (select_terminates fuel (dom (window_info m)) w m Hok Hk) as [(a & m' & Hsel & Hres)|[Hsel _]].
  - intros x Hx. apply elem_of_dom. clear -Hk Hx. induction Hx as [|w y z (yi & Hyi & _) _ IH]; [done|]. apply IH. eauto.
  - rewrite size_dom, (still_size m m0 Hst). lia.
  - exists (Some a), m'. split; [done|]. split; [|done]. split; [apply Hres|]. rewrite <-Hst. by eapply keeps_select.
  - exists None, (allowing m). split; [done|]. split; [|done]. split; [by apply allowing_ok|]. by rewrite <-Hst.
Qed.

Lemma select_ends w : is_Some (window_info m0 !! w) -> ends (select_active_window fuel (Some w)).
Proof. intros Hw m Hm. destruct (select_within w m Hm Hw) as (r & m' & ? & ? & _). eauto. Qed.

Lemma select_none_ends : ends (select_active_window fuel None).
Proof.
  intros m Hm. pose proof Hm as [Hok Hst]. destruct fuel as [|f] eqn:Ef; [lia|]. cbn [select_active_window].
  erewrite M_bind_eq by reflexivity. erewrite M_bind_eq by reflexivity. erewrite M_bind_eq by reflexivity. cbn [lock].
  match goal with |- context [(_ ≫= _) ?x = _] => set (m1 := x) end.
  assert (Hm1 : within m1).
  { split; [|by rewrite <-Hst]. destruct Hok as [Hf Hc Hr]. split; [by apply (forest_keep m)|exact Hc|exact Hr]. }
  destruct (active_window m) as [p|] eqn:Ep; [|exists None, m1; by rewrite (M_bind_eq _ _ m1 tt m1)].
  apply (active_window_known m p Hok) in Ep as [pi Hpi].
  rewrite (M_bind_eq _ _ m1 tt (m1 <| wm_shell := set_focus_to (wm_shell m1) (application_of m1 None) (lock (surfaces_of m1) None) |>
     <| advice := advice m1 ++ [advise_focus_lost p] |>)).
  2: { erewrite M_bind_eq by reflexivity. by erewrite M_bind_eq by (apply info_for_known; exact Hpi). }
  eexists _, _. split; [reflexivity|]. split.
  - destruct Hm1 as [[Hf Hc Hr] _].
    assert (Hb : forall x, blur <$> surfaces_of (m1 <| wm_shell := set_focus_to (wm_shell m1) (application_of m1 None) (lock (surfaces_of m1) None) |>) !! x = blur <$> surfaces_of m1 !! x)
      by (intros x; apply set_focus_to_blur).
    split; [|intros w i s Hi Hs|exact Hr].
    + apply (forest_keep m1); [done| |done]. intros x Hx. specialize (Hb x). destruct Hx as [sx Hx]. rewrite Hx in Hb.
      apply fmap_Some in Hb as (? & ? & _). eauto.
    + pose proof (blur_lookup sf_state _ _ w ltac:(done) (Hb w)) as E. apply (f_equal (fmap sf_state)) in Hs as Hs'.
      cbn in Hs'. change (sf_state <$> surfaces_of (m1 <| wm_shell := set_focus_to (wm_shell m1) (application_of m1 None) (lock (surfaces_of m1) None) |>) !! w = Some (sf_state s)) in Hs'.
      rewrite E in Hs'. apply fmap_Some in Hs' as (s1 & Hs1 & ->). by eapply Hc.
  - destruct Hm1 as [_ <-]. exact (keeps_give_focus None m1 tt _ eq_refl).
Qed.

Lemma activate_first_within accept windows m :
  within m -> (forall w, w ∈ windows -> is_Some (window_info m0 !! w)) ->
  exists r m', activate_first fuel accept windows m = Ret (r, m') /\ within m' /\ (r = None -> wm_shell m' = wm_shell m).
Proof.
  revert m. induction windows as [|w windows IH]; intros m Hm Hk; cbn [activate_first]; [by exists None, m|].
  rewrite (M_bind_eq _ _ m (mru_visible m w && accept m w) m) by done.
  destruct (mru_visible m w && accept m w); [|apply IH; [done|set_solver]].
  destruct (select_within w m Hm) as (r & m1 & Hsel & Hm1 & Hr); [set_solver|]. rewrite (M_bind_eq _ _ _ _ _ Hsel).
  destruct r as [a|]; [by exists (Some a), m1|].
  destruct (IH m1 Hm1) as (r & m2 & Hsel2 & Hm2 & Hr2); [set_solver|]. exists r, m2. split; [done|]. split; [done|].
  intros Hn. rewrite (Hr2 Hn), (Hr eq_refl). done.
Qed.

Lemma activate_recent_within accept m :
  within m -> exists r m', activate_recent fuel accept m = Ret (r, m') /\ within m' /\ (r = None -> wm_shell m' = wm_shell m).
Proof.
  intros Hm. unfold activate_recent. rewrite (M_bind_eq _ _ m (reverse (mru_active_windows m)) m) by done.
  apply activate_first_within; [done|]. intros w Hw. rewrite elem_of_reverse in Hw. apply (within_known m w Hm). exact (wm_mru m (proj1 Hm) w Hw).
Qed.

Lemma can_activate_within s m :
  within m -> exists b m', can_activate_window_for_session fuel s m = Ret (b, m') /\ within m' /\ (b = false -> wm_shell m' = wm_shell m).
Proof.
  intros Hm. destruct (activate_recent_within (of_session s) m Hm) as (r & m' & H & Hm' & Hr). unfold can_activate_window_for_session.
  rewrite (M_bind_eq _ _ _ _ _ H). eexists _, _. split; [reflexivity|]. split; [done|]. intros Hb. apply Hr. destruct r; [|done].
  by rewrite bool_decide_true in Hb by eauto.
Qed.

Lemma can_activate_in_workspace_within s ws m :
  within m -> exists b m', can_activate_window_for_session_in_workspace fuel s ws m = Ret (b, m') /\ within m' /\ (b = false -> wm_shell m' = wm_shell m).
Proof.
  intros Hm. unfold can_activate_window_for_session_in_workspace.
  destruct (activate_recent_within (fun m w => of_session s m w && shares_workspace ws m w) m Hm) as (r & m' & H & Hm' & Hr).
  rewrite (M_bind_eq _ _ _ _ _ H). eexists _, _. split; [reflexivity|]. split; [done|]. intros Hb. apply Hr. destruct r; [|done].
  by rewrite bool_decide_true in Hb by eauto.
Qed.

(** *** The walk over the sessions *)
(** One step of the walk, in the order of the sessions or in reverse. *)
Definition walks (step : Shell -> outcome Shell) (order : list Session) : Prop :=
  forall sh, sh_apps sh = sh_apps (wm_shell m0) ->
  let found := find_if (has_surface sh) (sessions_after order (focused_session sh)) in
  step sh = Ret (update_focus_locked sh found (found ≫= default_surface sh)).

Context (Hsessions : sessions_ok m0).

Lemma session_step_within step order m :
  walks step order -> order ≡ₚ sh_apps (wm_shell m0) -> within m ->
  let found := find_if (has_surface (wm_shell m)) (sessions_after order (current_session m)) in
  exists m', session_step step m = Ret (tt, m') /\ within m' /\ current_session m' = found /\
    sh_session_surfaces (wm_shell m') = sh_session_surfaces (wm_shell m) /\
    (forall w, focused_surface (wm_shell m') = Some w -> is_Some (window_info m' !! w)).
Proof.
  intros Hstep Hord Hm found. pose proof Hm as [Hok Hst]. injection Hst as Hai Hap _ _ _ _ _ Happs Hss _ _ Hfam.
  assert (Hin : forall s, focused_session (wm_shell m) = Some s -> s ∈ order).
  { intros s Hs. rewrite Hord, <-Happs. unfold focused_session in Hs. repeat case_match; naive_solver. }
  assert (Hg : forall s, found = Some s -> s ∈ sh_apps (wm_shell m)).
  { intros s [Hs _]%find_if_Some. rewrite (sessions_after_Permutation order _ Hin) in Hs. by rewrite Happs, <-Hord. }
  eexists. split; [unfold session_step; by rewrite (Hstep (wm_shell m) Happs)|]. fold (current_session m). fold found. clearbody found.
  split; [|split; [|split; [done|]]].
  - destruct Hok as [Hf Hc Hr]. split; [|rewrite <-(proj2 Hm); done]. split; [by apply (forest_keep m)|exact Hc|exact Hr].
  - by apply focused_session_update.
  - intros w [Hw _]%lock_Some. cbn in Hw. destruct found as [g|]; [|done]. cbn in Hw. unfold default_surface in Hw.
    destruct (sh_session_surfaces (wm_shell m) !! g) as [ss|] eqn:Ess; [|done]. cbn in Hw.
    apply (within_known m w Hm). rewrite Hss in Ess. eapply (so_surfaces m0 Hsessions g ss w Ess).
    by apply head_Some_elem_of.
Qed.

Lemma cycle_sessions_within step order can_activate t i steps m :
  walks step order -> order ≡ₚ sh_apps (wm_shell m0) ->
  (forall s m, within m -> exists b m', can_activate s m = Ret (b, m') /\ within m' /\ (b = false -> wm_shell m' = wm_shell m)) ->
  within m -> sessions_after order (current_session m) !! i = Some t -> has_surface (wm_shell m0) t = true -> (i < steps)%nat ->
  exists b m', cycle_sessions steps step can_activate (Some t) m = Ret (b, m') /\ within m' /\
    (b = false -> forall w, focused_surface (wm_shell m') = Some w -> is_Some (window_info m' !! w)).
Proof.
  intros Hstep Hord Hcan. revert i m. induction steps as [|n IH]; intros i m Hm Hi Ht Hlt; [lia|]. cbn [cycle_sessions].
  destruct (session_step_within step order m Hstep Hord Hm) as (m1 & E1 & Hm1 & Hcur & Hsame & Hfoc).
  assert (Hhas : forall s m, within m -> has_surface (wm_shell m) s = has_surface (wm_shell m0) s).
  { intros s m' [_ Hs]. injection Hs as _ _ _ _ _ _ _ _ Hss _ _ _. unfold has_surface, default_surface. by rewrite Hss. }
  destruct (find_if_index (has_surface (wm_shell m)) _ i t Hi) as (j & g & Hg & Hj & Hle); [by rewrite Hhas|].
  rewrite (M_bind_eq _ _ _ _ _ E1). erewrite M_bind_eq by reflexivity.
  destruct (Hcan (current_session m1) m1 Hm1) as (b & m2 & E2 & Hm2 & Hb). rewrite (M_bind_eq _ _ _ _ _ E2).
  destruct b; [by exists true, m2|]. specialize (Hb eq_refl). erewrite M_bind_eq by reflexivity.
  assert (Hcur2 : current_session m2 = Some g) by (unfold current_session; rewrite Hb; by rewrite <-Hg, <-Hcur).
  rewrite Hcur2. case_bool_decide as Hgt.
  - exists false, m2. split; [done|]. split; [done|]. intros _ w. rewrite Hb. intros Hw%Hfoc.
    apply (within_known m2 w Hm2). by apply (within_known m1 w Hm1).
  - assert (i <> j) by (intros ->; congruence). apply (IH (i - S j)%nat); [done| |done|lia]. rewrite Hcur2.
    apply (sessions_after_next order (current_session m) g t i j); [|done..|lia].
    rewrite Hord. apply (so_NoDup m0 Hsessions).
Qed.

Lemma focus_application_ends steps step order :
  walks step order -> order ≡ₚ sh_apps (wm_shell m0) -> (length (sh_apps (wm_shell m0)) <= steps)%nat ->
  ends (focus_application steps fuel step).
Proof.
  intros Hstep Hord Hsteps. unfold focus_application. apply ends_gets_bind. intros m Hm m1 Hm1.
  set (search := match active_window m with Some p => _ | None => _ end).
  assert (Hsearch : exists b m2, search m1 = Ret (b, m2) /\ within m2 /\
    (b = false -> forall w, focused_surface (wm_shell m2) = Some w -> is_Some (window_info m2 !! w))).
  { subst search. destruct (active_window m) as [p|] eqn:Ep.
    - erewrite M_bind_eq by reflexivity. erewrite M_bind_eq by reflexivity.
      apply (active_window_known m p (proj1 Hm)), (within_known m p Hm) in Ep.
      destruct (so_owner m0 Hsessions p Ep) as (s & ws & ss & Hs & Hin & _ & _ & Hss & Hp).
      assert (application_of m1 (Some p) = Some s) as ->.
      { destruct Hm1 as [_ E]. injection E as _ E _ _ _ _ _ _ _ _ _ _. unfold application_of. cbn. by rewrite E. }
      assert (Happs : sh_apps (wm_shell m1) = sh_apps (wm_shell m0)) by (destruct Hm1 as [_ E]; by injection E).
      assert (Hi : s ∈ sessions_after order (current_session m1)).
      { rewrite sessions_after_Permutation; [by rewrite Hord|]. intros x Hx. rewrite Hord, <-Happs. unfold current_session, focused_session in Hx.
        repeat case_match; naive_solver. }
      apply list_elem_of_lookup in Hi as [i Hi]. pose proof (lookup_lt_Some _ _ _ Hi) as Hlt.
      assert (length (sessions_after order (current_session m1)) <= length (sh_apps (wm_shell m0)))%nat.
      { destruct (current_session m1) as [x|]; cbn; [case_match; [case_match|]|]; rewrite ?cycle_from_Permutation, ?Hord; cbn; lia. }
      assert (has_surface (wm_shell m0) s = true).
      { unfold has_surface, default_surface. rewrite Hss. cbn. destruct ss; [by apply not_elem_of_nil in Hp|]. by apply bool_decide_true. }
      destruct (workspaces_containing m1 p) as [|x l]; (eapply (cycle_sessions_within step order _ s i); try done; [|lia]).
      + apply can_activate_within.
      + intros s' m' Hm'. by apply can_activate_in_workspace_within.
    - destruct (session_step_within step order m1 Hstep Hord Hm1) as (m2 & E2 & Hm2 & _ & _ & Hfoc). rewrite (M_bind_eq _ _ _ _ _ E2).
      erewrite M_bind_eq by reflexivity. destruct (can_activate_within (current_session m2) m2 Hm2) as (b & m3 & E3 & Hm3 & Hb).
      exists b, m3. split; [done|]. split; [done|]. intros Hf w. rewrite (Hb Hf). intros Hw%Hfoc.
      apply (within_known m3 w Hm3). by apply (within_known m2 w Hm2). }
  destruct Hsearch as (b & m2 & E2 & Hm2 & Hfoc). rewrite (M_bind_eq _ _ _ _ _ E2). destruct b; [by exists tt, m2|].
  erewrite M_bind_eq by reflexivity. specialize (Hfoc eq_refl). destruct (focused_surface (wm_shell m2)) as [w|].
  - destruct (Hfoc w eq_refl) as [wi Hw]. rewrite (M_bind_eq _ _ _ _ _ (info_for_known w m2 wi Hw)).
    apply ends_bind; [|intros; apply ends_ret|done]. apply select_ends. apply (within_known m2 w Hm2). eauto.
  - apply ends_bind; [apply select_none_ends|intros; apply ends_ret|done].
Qed.

(** *** The walk over the siblings *)
Lemma moves_to_ends prev w : is_Some (window_info m0 !! w) -> ends (moves_to fuel prev w).
Proof. intros Hw. apply ends_bind; [by apply select_ends|]. intros. apply ends_ret. Qed.

Lemma attempts_ends prev common w : is_Some (window_info m0 !! w) -> ends (attempts fuel prev common w).
Proof.
  intros Hw. induction common as [|c common IH]; cbn [attempts]; [apply ends_ret|].
  apply ends_bind; [by apply moves_to_ends|]. intros []; [apply ends_ret|done].
Qed.

Lemma try_shared_ends prev ws w : is_Some (window_info m0 !! w) -> ends (try_shared fuel prev ws w).
Proof. intros Hw. apply ends_gets_bind. intros m _. by apply attempts_ends. Qed.

Lemma try_all_ends prev ws l : (forall w, w ∈ l -> is_Some (window_info m0 !! w)) -> ends (try_all fuel prev ws l).
Proof.
  induction l as [|w l IH]; intros Hl; cbn [try_all]; [apply ends_ret|].
  apply ends_bind; [apply try_shared_ends; set_solver|]. intros []; [apply ends_ret|]. apply IH. set_solver.
Qed.

Lemma select_until_end_ends prev l : (forall w, w ∈ l -> is_Some (window_info m0 !! w)) -> ends (select_until_end fuel prev l).
Proof.
  induction l as [|w l IH]; intros Hl; cbn [select_until_end]; [apply ends_ret|].
  apply ends_bind; [apply moves_to_ends; set_solver|]. intros []; [apply ends_ret|]. apply IH. set_solver.
Qed.

Lemma try_until_prev_ends prev attempt l :
  prev ∈ l -> (forall w, w ∈ l -> ends (attempt w)) -> ends (try_until_prev prev attempt l).
Proof.
  induction l as [|w l IH]; intros Hp Hl; [by apply not_elem_of_nil in Hp|]. cbn [try_until_prev].
  case_decide as E; [apply ends_ret|]. apply ends_bind; [apply Hl; set_solver|]. intros []; [apply ends_ret|].
  apply IH; set_solver.
Qed.

Lemma focus_within_application_ends order :
  (forall l : list Window, order l ≡ₚ l) -> ends (focus_within_application fuel order).
Proof.
  intros Hord. unfold focus_within_application. apply ends_gets_bind. intros m Hm.
  destruct (active_window m) as [p|] eqn:Ep; [|apply ends_ret].
  apply (active_window_known m p (proj1 Hm)), (within_known m p Hm) in Ep.
  destruct (so_owner m0 Hsessions p Ep) as (s & ws & ss & Hs & _ & Hws & Hp & _).
  apply ends_gets_bind. intros m1 _. apply ends_gets_bind. intros m2 Hm2 m3 Hm3.
  rewrite (M_bind_eq _ _ m3 ws m3).
  2: { destruct Hm2 as [_ E2]. injection E2 as _ E2 _ _ _ _ _ _ _ _ _ _. destruct Hm3 as [_ E3]. injection E3 as E3 _ _ _ _ _ _ _ _ _ _ _.
       unfold info_for_session, application_of. cbn. by rewrite E2, Hs; cbn; rewrite E3, Hws. }
  revert m3 Hm3. change (ends (focus_sibling fuel p (workspaces_containing m1 p) (order ws))).
  assert (Hk : forall w, w ∈ order ws -> is_Some (window_info m0 !! w)).
  { intros w. rewrite Hord. intros Hw. by apply (so_windows m0 Hsessions s ws w). }
  assert (Hpo : p ∈ order ws) by by rewrite Hord.
  assert (Hafter : forall rest, after p (order ws) = Some rest -> forall w, w ∈ rest -> is_Some (window_info m0 !! w)).
  { clear Hpo. induction (order ws) as [|x l IH]; cbn [after]; [done|]. case_decide.
    - intros rest [= <-] w Hw. apply Hk. set_solver.
    - apply IH. set_solver. }
  unfold focus_sibling. apply ends_bind.
  { destruct (after p (order ws)) eqn:E; [|apply ends_ret]. apply try_all_ends. by apply Hafter. }
  intros []; [apply ends_ret|]. apply ends_bind.
  { apply try_until_prev_ends; [done|]. intros w Hw. by apply try_shared_ends, Hk. }
  intros []; [apply ends_ret|]. apply ends_bind.
  { destruct (after p (order ws)) eqn:E; [|apply ends_ret]. apply select_until_end_ends. by apply Hafter. }
  intros []; [|apply ends_ret]. apply ends_bind; [|intros; apply ends_ret].
  apply try_until_prev_ends; [done|]. intros w Hw. by apply moves_to_ends, Hk.
Qed.
End Ends.

Lemma sessions_ok_still m m' : still m' = still m -> sessions_ok m -> sessions_ok m'.
Proof.
  intros E [H1 H2 H3 H4 H5 H6]. pose proof (fun w => still_known m' m w E) as Hk. injection E as Ea Ew _ _ _ _ _ Es Ess _ _ _.
  split; rewrite ?Ea, ?Ew, ?Es, ?Ess; try done.
  - intros w Hw%Hk. by apply H2.
  - intros s ss w. rewrite Hk. apply H3.
  - intros s ws w. rewrite Hk. apply H4.
Qed.

Lemma focus_next_walks m0 : sessions_ok m0 -> walks m0 focus_next_session (sh_apps (wm_shell m0)).
Proof.
  intros Hs sh E. rewrite <-E. apply focus_session_by_cycle; [rewrite E; apply Hs|done|].
  intros s. unfold focused_session. repeat case_match; naive_solver.
Qed.

Lemma focus_prev_walks m0 : sessions_ok m0 -> walks m0 focus_prev_session (reverse (sh_apps (wm_shell m0))).
Proof.
  intros Hs sh E. rewrite <-E. unfold focus_prev_session.
  rewrite (focus_session_by_ext _ (successor_of (reverse (sh_apps sh))) sh) by apply predecessor_reverse.
  apply focus_session_by_cycle; [rewrite reverse_Permutation, E; apply Hs|by rewrite length_reverse|].
  intros s. rewrite elem_of_reverse. unfold focused_session. repeat case_match; naive_solver.
Qed.

(** C36: cycling always ends.  From a consistent state, moving to the next or
    previous application, or to the next or previous window of the
    application, returns without an exception and never reads past the end of
    the list of windows: the walk over the applications takes at most as many
    steps as there are sessions.  Afterwards the state is consistent and all
    windows belong to the same applications, workspaces, trees and display
    areas. *)
Theorem cycling_ends (m : WM) (steps fuel : nat) (op : M unit) :
  wm_ok m -> sessions_ok m ->
  (length (sh_apps (wm_shell m)) <= steps)%nat -> (2 * size (window_info m) < fuel)%nat ->
  op ∈ [focus_next_application steps fuel; focus_prev_application steps fuel;
        focus_next_within_application fuel; focus_prev_within_application fuel] ->
  exists m', op m = Ret (tt, m') /\ wm_ok m' /\ sessions_ok m' /\ still m' = still m.
Proof.
  intros Hok Hs Hsteps Hfuel Hop.
  assert (Hends : ends m op).
  { rewrite !elem_of_cons in Hop. destruct Hop as [->|[->|[->|[->|Hop%not_elem_of_nil]]]]; [..|done].
    - apply (focus_application_ends m fuel Hfuel Hs steps _ (sh_apps (wm_shell m))); [by apply focus_next_walks|done..].
    - apply (focus_application_ends m fuel Hfuel Hs steps _ (reverse (sh_apps (wm_shell m))));
        [by apply focus_prev_walks|apply reverse_Permutation|done].
    - by apply (focus_within_application_ends m fuel Hfuel Hs).
    - apply (focus_within_application_ends m fuel Hfuel Hs). apply reverse_Permutation. }
  destruct (Hends m) as ([] & m' & Hm' & Hok' & Hst'); [done|]. exists m'. split_and!; try done. by apply (sessions_ok_still m).
Qed.

Lemma example_sessions_ok : sessions_ok example_wm.
Proof.
  assert (Hk : forall w, is_Some (window_info example_wm !! w) <-> w = 1 \/ w = 2 \/ w = 3).
  { intros w. split; [|intros [->|[->| ->]]; vm_compute; eauto]. intros [i Hi]. apply example_wm_infos in Hi. naive_solver. }
  assert (Hs : forall (s : Session) l, ({[10 := [1; 2]; 30 := [3]]} : gmap Session (list Window)) !! s = Some l -> (s = 10 /\ l = [1; 2]) \/ (s = 30 /\ l = [3])).
  { intros s l. rewrite lookup_insert_Some, lookup_singleton_Some. naive_solver. }
  split.
  - apply (bool_decide_unpack _). vm_compute. exact I.
  - intros w Hw%Hk. exists (if decide (w = 3) then 30 else 10), (if decide (w = 3) then [3] else [1; 2]), (if decide (w = 3) then [3] else [1; 2]).
    destruct Hw as [->|[->| ->]]; vm_compute; split_and!; try done; set_solver.
  - intros s ss w Hl. assert (Hc : (s = 10 /\ ss = [1; 2]) \/ (s = 30 /\ ss = [3])) by (apply Hs; exact Hl).
    destruct Hc as [[-> ->]|[-> ->]]; intros Hw; repeat (apply elem_of_cons in Hw as [->|Hw]); try (by apply not_elem_of_nil in Hw); vm_compute; eauto.
  - intros s ws w Hl%Hs. destruct Hl as [[-> ->]|[-> ->]]; intros Hw; repeat (apply elem_of_cons in Hw as [->|Hw]); try (by apply not_elem_of_nil in Hw); vm_compute; eauto.
  - intros s ss Hl. assert (Hc : (s = 10 /\ ss = [1; 2]) \/ (s = 30 /\ ss = [3])) by (apply Hs; exact Hl).
    destruct Hc as [[-> ->]|[-> ->]]; repeat constructor; set_solver.
  - intros s ws Hl%Hs. destruct Hl as [[-> ->]|[-> ->]]; repeat constructor; set_solver.
Qed.

Lemma cycling_ends_witness :
  exists m', focus_next_application 3 7 example_wm = Ret (tt, m') /\ active_window m' = Some 3.
Proof.
  destruct (cycling_ends example_wm 3 7 (focus_next_application 3 7)) as (m' & Hm' & _).
  - exact example_wm_ok.
  - exact example_sessions_ok.
  - vm_compute. lia.
  - vm_compute. lia.
  - apply elem_of_cons. by left.
  - exists m'. split; [exact Hm'|]. vm_compute in Hm'. injection Hm' as <-. reflexivity.
Defined.
