(* ===== verification/WmOutputs.v ===== *)
(** * miral::BasicWindowManager: outputs and zones

    Placing windows that are attached to an output, the application zones,
    and changes of the outputs
    ([src/miral/basic_window_manager.cpp]). *)
From S2P Require Import Prelude Geometry Schedule BufferStream Occlusion WindowInfo Placement Surface Sessions Shell.
From S2P Require Import WmState WmTree WmFocus.

(** ** Application zones *)
Definition drop_both (edges flag1 flag2 : Z) : Z :=
  if has_flag edges flag1 && has_flag edges flag2
  then Z.land (Z.land edges (Z.lnot flag1)) (Z.lnot flag2) else edges.

Definition apply_exclusive_rect_to_application_zone (original_zone exclusive_rect : Rectangle)
    (edges : MirPlacementGravity) : Rectangle :=
  let edges := drop_both edges mir_placement_gravity_west mir_placement_gravity_east in
  let edges := drop_both edges mir_placement_gravity_north mir_placement_gravity_south in
  let zone := original_zone in
  if edges =? mir_placement_gravity_west then
    mkRectangle (mkPoint (right exclusive_rect) (top zone))
                (mkSize (right zone - right exclusive_rect) (height (r_size zone)))
  else if edges =? mir_placement_gravity_east then
    mkRectangle (top_left zone) (mkSize (left exclusive_rect - left zone) (height (r_size zone)))
  else if edges =? mir_placement_gravity_north then
    mkRectangle (mkPoint (left zone) (bottom exclusive_rect))
                (mkSize (width (r_size zone)) (bottom zone - bottom exclusive_rect))
  else if edges =? mir_placement_gravity_south then
    mkRectangle (top_left zone) (mkSize (width (r_size zone)) (top exclusive_rect - top zone))
  else zone.

(** One coordinate of an attached window: along the start edge, along the
    end edge, or centred. *)
Definition attached_position (at_start at_end : bool) (zone_start zone_extent extent : Z) : Z :=
  if at_start then zone_start
  else if at_end then zone_start + zone_extent - extent
  else zone_start + half (zone_extent - extent).

(** Where [place_attached_to_zone] wants the window, [None] for a state that
    does not attach it. *)
Definition attached_placement (state : MirWindowState) (edges : MirPlacementGravity) (window application_zone output_area : Rectangle)
  : option Rectangle :=
  match state with
  | mir_window_state_maximized => Some application_zone
  | mir_window_state_horizmaximized =>
      Some (mkRectangle (mkPoint (px (top_left application_zone)) (py (top_left window)))
                        (mkSize (width (r_size application_zone)) (height (r_size window))))
  | mir_window_state_vertmaximized =>
      Some (mkRectangle (mkPoint (px (top_left window)) (py (top_left application_zone)))
                        (mkSize (width (r_size window)) (height (r_size application_zone))))
  | mir_window_state_attached =>
      let west := has_flag edges mir_placement_gravity_west in
      let east := has_flag edges mir_placement_gravity_east in
      let north := has_flag edges mir_placement_gravity_north in
      let south := has_flag edges mir_placement_gravity_south in
      let zx := if west && east then left output_area else left application_zone in
      let zw := if west && east then width (r_size output_area) else width (r_size application_zone) in
      let w := if west && east then zw else width (r_size window) in
      let zy := if north && south then top output_area else top application_zone in
      let zh := if north && south then height (r_size output_area) else height (r_size application_zone) in
      let h := if north && south then zh else height (r_size window) in
      Some (mkRectangle (mkPoint (attached_position west east zx zw w) (attached_position north south zy zh h)) (mkSize w h))
  | _ => None
  end.

Section Policy.
Context (confirm_inherited_move : WM -> Window -> Displacement -> Rectangle).
Context (confirm_placement_on_display : WM -> Window -> MirWindowState -> Rectangle -> Rectangle).
Context (fuel : nat).

Definition place_attached_to_zone (w : Window) (application_zone output_area : Rectangle) : M unit :=
  info ← info_for w;
  rect ← gets (fun m => window_rect m w);
  match attached_placement (wi_state info) (wi_attached_edges info) rect application_zone output_area with
  | None => throw fatal_error
  | Some placement =>
      updated ← gets (fun m => confirm_placement_on_display m w (wi_state info) placement);
      place_and_size confirm_inherited_move fuel w (top_left updated) (r_size updated)
  end.

(** ** Changes of the outputs *)
Definition place_fullscreen (w : Window) : M unit :=
  alive ← gets (fun m => bool_decide (is_Some (surfaces_of m !! w)));
  if alive : bool then
    info ← info_for w;
    rect ← gets (fun m => confirm_placement_on_display m w mir_window_state_fullscreen (da_area (display_area_for m w info)));
    place_and_size confirm_inherited_move fuel w (top_left rect) (r_size rect)
  else mret tt.

(** The windows of an area that reserve space at its edges (the first pass)
    and the others (the second pass). *)
Fixpoint split_passes (windows : list Window) : M (list Window * list Window) :=
  match windows with
  | [] => mret ([], [])
  | w :: rest =>
      alive ← gets (fun m => bool_decide (is_Some (surfaces_of m !! w)));
      if alive : bool then
        info ← info_for w;
        passes ← split_passes rest;
        if bool_decide (wi_state info = mir_window_state_attached) && bool_decide (is_Some (wi_exclusive_rect info))
        then mret (w :: fst passes, snd passes)
        else mret (fst passes, w :: snd passes)
      else split_passes rest
  end.

(** The first pass shrinks the zone as it goes. *)
Fixpoint first_pass (windows : list Window) (area zone_rect : Rectangle) : M Rectangle :=
  match windows with
  | [] => mret zone_rect
  | w :: rest =>
      place_attached_to_zone w zone_rect area;;
      info ← info_for w;
      tl ← gets (fun m => window_top_left m w);
      first_pass rest area
        (match wi_state info, wi_exclusive_rect info with
         | mir_window_state_attached, Some r =>
             apply_exclusive_rect_to_application_zone zone_rect
               (mkRectangle (mkPoint (px (top_left r) + px tl) (py (top_left r) + py tl)) (r_size r)) (wi_attached_edges info)
         | _, _ => zone_rect
         end)
  end.

Definition update_area (n : nat) : M unit :=
  area ← gets (fun m => display_areas m !! n);
  match area with
  | None => mret tt
  | Some a =>
      passes ← split_passes (da_attached_windows a);
      zone_rect ← first_pass (fst passes) (da_area a) (da_area a);
      for_each (snd passes) (fun w => place_attached_to_zone w zone_rect (da_area a));;
      let old_zone := da_application_zone a in
      let new_zone := mkZone (zone_id old_zone) zone_rect in
      if bool_decide (new_zone <> old_zone) then
        advise (advise_application_zone_update new_zone old_zone);;
        modify (fun m => m <| display_areas := alter (fun a => a <| da_application_zone := new_zone |>) n (display_areas m) |>)
      else mret tt
  end.

Definition update_windows_for_outputs : M unit :=
  windows ← gets fullscreen_surfaces;
  for_each windows place_fullscreen;;
  count ← gets (fun m => length (display_areas m));
  for_each (seq 0 count) update_area.

Definition advise_output_create (output : Output) : M unit :=
  modify (fun m => m <| outputs := rectangles_add (outputs m) (extents output) |>);;
  zone ← gets (fun m => mkZone (next_zone_id m) (extents output));
  n ← gets (fun m => length (display_areas m));
  modify (fun m => m <| next_zone_id := next_zone_id m + 1 |>
                     <| display_areas := display_areas m ++ [mkDisplayArea (extents output) zone (Some output) []] |>);;
  update_windows_for_outputs;;
  advise (advise_output_created output);;
  area ← gets (fun m => display_areas m !! n);
  match area with Some a => advise (advise_application_zone_create (da_application_zone a)) | None => mret tt end.

Definition shows_output (o : Output) (a : DisplayArea) : bool :=
  match da_output a with Some o' => is_same_output o' o | None => false end.

Definition advise_output_update (updated original : Output) : M unit :=
  modify (fun m => m <| outputs := rectangles_add (rectangles_remove (outputs m) (extents original)) (extents updated) |>
                     <| display_areas :=
                          (fun a => if shows_output original a
                                    then a <| da_output := Some updated |> <| da_area := extents updated |> else a)
                          <$> display_areas m |>);;
  update_windows_for_outputs;;
  advise (advise_output_updated updated original).

Definition advise_output_delete (output : Output) : M unit :=
  removed_areas ← gets (fun m => filter (fun a => shows_output output a = true) (display_areas m));
  modify (fun m => m <| display_areas := filter (fun a => shows_output output a <> true) (display_areas m) |>
                     <| outputs := rectangles_remove (outputs m) (extents output) |>);;
  for_each removed_areas (fun a =>
    for_each (da_attached_windows a) (fun w =>
      info ← info_for w; update_attached_and_fullscreen_sets w info (wi_state info)));;
  update_windows_for_outputs;;
  for_each removed_areas (fun a => advise (advise_application_zone_delete (da_application_zone a)));;
  advise (advise_output_deleted output).
End Policy.

(** ** Placing a window with the canonical policy *)
Definition canonical_confirm_placement_on_display (_ : WM) (_ : Window) (_ : MirWindowState) (new_placement : Rectangle)
  : Rectangle := new_placement.

Notation canonical_place := (place_and_size canonical_confirm_inherited_move).

(** Nothing but the surfaces, the pointer confinement and the advice differs. *)
Definition same_manager (m m' : WM) : Prop := m' <| wm_shell := wm_shell m |> <| advice := advice m |> = m.

Lemma same_manager_trans m m1 m2 : same_manager m m1 -> same_manager m1 m2 -> same_manager m m2.
Proof. unfold same_manager, assign. cbn. intros E1 E2. rewrite <-E2 in E1. exact E1. Qed.

Lemma same_manager_info m m' : same_manager m m' -> window_info m' = window_info m.
Proof. unfold same_manager. intros H. by rewrite <-H. Qed.

Lemma same_manager_areas m m' : same_manager m m' -> display_areas m' = display_areas m.
Proof. unfold same_manager. intros H. by rewrite <-H. Qed.

Lemma same_manager_forest m m' :
  same_manager m m' -> (forall w, is_Some (surfaces_of m !! w) -> is_Some (surfaces_of m' !! w)) -> forest m -> forest m'.
Proof. intros H Hs Hf. apply (forest_keep m); [|done|done]. intros w. by rewrite (same_manager_info m m'). Qed.

Definition positive (sz : Size) : Prop := 0 < width sz /\ 0 < height sz.

Lemma resize_spec w sz m s :
  surfaces_of m !! w = Some s -> positive sz ->
  exists m', window_resize w sz m = Ret (tt, m') /\ same_manager m m' /\
    surfaces_of m' = <[w := s <| sf_rect := mkRectangle (top_left (sf_rect s)) sz |>]> (surfaces_of m).
Proof.
  intros Hs [Hw Hh]. unfold window_resize, change_surface. eexists. split; [reflexivity|]. cbn beta. rewrite Hs.
  split; [by destruct m|]. rewrite put_surface_surfaces. f_equal. unfold surface_resize.
  destruct sz as [sw sh]. cbn in Hw, Hh. cbn [width height].
  rewrite (proj2 (Z.leb_gt sw 0)), (proj2 (Z.leb_gt sh 0)) by done. case_bool_decide as E; [done|].
  rewrite E. by destruct s as [? [? ?]].
Qed.

(** A surface but for its place. *)
Definition unplaced (s : Surface) : Surface := s <| sf_rect := mkRectangle (mkPoint 0 0) (mkSize 0 0) |>.

Lemma unplaced_lookup {A} (f : Surface -> A) m m' x :
  (forall s, f (unplaced s) = f s) -> unplaced <$> surfaces_of m' !! x = unplaced <$> surfaces_of m !! x ->
  f <$> surfaces_of m' !! x = f <$> surfaces_of m !! x.
Proof.
  intros Hf H. destruct (surfaces_of m' !! x) as [s'|], (surfaces_of m !! x) as [s|]; try done. apply (inj Some) in H.
  cbn. f_equal. rewrite <-(Hf s), <-(Hf s'). by rewrite H.
Qed.

(** The window is where it is asked to be, its tree has moved along, and
    the other windows are where they were. *)
Lemma canonical_place_spec m fuel w pos sz :
  forest m -> is_Some (window_info m !! w) -> (size (window_info m) <= fuel)%nat -> positive sz ->
  exists m', canonical_place fuel w pos sz m = Ret (tt, m') /\ same_manager m m' /\ forest m' /\
    window_rect m' w = mkRectangle pos sz /\
    (forall x, is_Some (window_info m !! x) -> ~ rtc (child_rel m) w x -> window_rect m' x = window_rect m x) /\
    (forall x, unplaced <$> surfaces_of m' !! x = unplaced <$> surfaces_of m !! x).
Proof.
  intros Hf Hw Hfuel Hsz. destruct (forest_surface m Hf w Hw) as [s Hs].
  assert (Hr : exists m1, (if bool_decide (window_size m w <> sz) then advise (advise_resize w sz);; window_resize w sz else mret tt) m = Ret (tt, m1) /\
    same_manager m m1 /\ surfaces_of m1 = <[w := s <| sf_rect := mkRectangle (top_left (sf_rect s)) sz |>]> (surfaces_of m)).
  { case_bool_decide as E.
    - erewrite M_bind_eq by reflexivity.
      destruct (resize_spec w sz (m <| advice := advice m ++ [advise_resize w sz] |>) s) as (m1 & H1 & H2 & H3); [done|done|].
      exists m1. split; [exact H1|]. split; [|exact H3]. eapply same_manager_trans; [|exact H2]. by destruct m.
    - exists m. split; [done|]. split; [by destruct m|]. symmetry. apply insert_id. rewrite Hs. f_equal.
      unfold window_size in E. rewrite Hs in E. rewrite <-E. by destruct s as [? [? ?]]. }
  destruct Hr as (m1 & Hm1 & Hsame1 & Hsurf1).
  assert (Hf1 : forest m1).
  { apply (same_manager_forest m); [done| |done]. intros x Hx. rewrite Hsurf1.
    destruct (decide (x = w)) as [->|]; [rewrite lookup_insert_eq; eauto|by rewrite lookup_insert_ne]. }
  pose proof (same_manager_info m m1 Hsame1) as Hinfo1.
  destruct (tree_of_known m1 fuel w Hf1) as (ws & Ht & Hnd & Hx); [by rewrite Hinfo1..|].
  destruct (move_tree_moves fuel w (point_diff pos (window_top_left m1 w)) ws m1 Ht Hnd) as (m2 & Hm2 & Hmv).
  { apply Forall_forall. intros x Hxw%Hx. apply (forest_surface m1 Hf1). eapply rtc_child_known; [done| |done]. by rewrite Hinfo1. }
  pose proof Hmv as [Hlook Hsame2]. pose proof (same_manager_trans _ _ _ Hsame1 Hsame2) as Hsame.
  exists m2. split; [|split; [done|split; [|split; [|split]]]].
  - unfold place_and_size, place_and_size_with. rewrite (M_bind_eq _ _ m (window_size m w) m) by done.
    rewrite (M_bind_eq _ _ _ _ _ Hm1), (M_bind_eq _ _ m1 (window_top_left m1 w) m1) by done. exact Hm2.
  - apply (same_manager_forest m1); [done| |done]. intros x. rewrite Hlook. by rewrite fmap_is_Some.
  - assert (Hs1 : surfaces_of m1 !! w = Some (s <| sf_rect := mkRectangle (top_left (sf_rect s)) sz |>)) by by rewrite Hsurf1, lookup_insert_eq.
    destruct (shifted_rect ws _ m1 m2 w Hmv) as [Hs2 Ht2]; [by rewrite Hs1; eauto|].
    rewrite bool_decide_true in Ht2 by by apply Hx. unfold window_rect. rewrite Hs2, Ht2. f_equal.
    + unfold point_add, point_diff. destruct pos, (window_top_left m1 w). cbn. f_equal; lia.
    + unfold window_size. by rewrite Hs1.
  - intros x Hxk Hnot. assert (Hk1 : is_Some (surfaces_of m1 !! x)) by (apply (forest_surface m1 Hf1); by rewrite Hinfo1).
    destruct (shifted_rect ws _ m1 m2 x Hmv Hk1) as [Hs2 Ht2].
    assert (Hnw : ~ rtc (child_rel m1) w x).
    { intros H. apply Hnot. eapply rtc_subrel; [|exact H]. intros a b Hab. apply (child_rel_keep m m1); [|done]. intros y. by rewrite Hinfo1. }
    rewrite bool_decide_false in Ht2 by by rewrite Hx. unfold window_rect. rewrite Hs2, Ht2.
    unfold window_size, window_top_left. rewrite Hsurf1, lookup_insert_ne; [done|]. intros ->. by apply Hnot.
  - intros x. rewrite Hlook, Hsurf1. destruct (decide (x = w)) as [->|Hne].
    + rewrite lookup_insert_eq, Hs. cbn. destruct (bool_decide (w ∈ ws)); reflexivity.
    + rewrite lookup_insert_ne by done. destruct (surfaces_of m !! x); [|done]. cbn. destruct (bool_decide (x ∈ ws)); reflexivity.
Qed.

(** ** The layout of an area, as a function

    Where the windows attached to an area go, and what remains as its
    application zone: windows that reserve space come first and each one
    shrinks the zone the next ones see; the others share what remains.  The
    rectangles are given by what they span from left to right and from top to
    bottom. *)
Definition h_span (r : Rectangle) : Z * Z := (left r, right r).
Definition v_span (r : Rectangle) : Z * Z := (top r, bottom r).
Definition rect_of_spans (h v : Z * Z) : Rectangle := mkRectangle (mkPoint h.1 v.1) (mkSize (h.2 - h.1) (v.2 - v.1)).
(** A window of length [len] attached to the low edge, to the high edge, to both
    (it is stretched over the whole output) or to none (it is centred). *)
Definition attached_span (at_low at_high : bool) (zone area : Z * Z) (len : Z) : Z * Z :=
  match at_low, at_high with
  | true, true => area
  | true, false => (zone.1, zone.1 + len)
  | false, true => (zone.2 - len, zone.2)
  | false, false => let middle := zone.1 + half (zone.2 - zone.1 - len) in (middle, middle + len)
  end.
Definition attached_rect (state : MirWindowState) (edges : MirPlacementGravity) (window zone area : Rectangle) : option Rectangle :=
  match state with
  | mir_window_state_maximized => Some zone
  | mir_window_state_horizmaximized => Some (rect_of_spans (h_span zone) (v_span window))
  | mir_window_state_vertmaximized => Some (rect_of_spans (h_span window) (v_span zone))
  | mir_window_state_attached =>
      Some (rect_of_spans
        (attached_span (has_flag edges mir_placement_gravity_west) (has_flag edges mir_placement_gravity_east) (h_span zone) (h_span area) (width (r_size window)))
        (attached_span (has_flag edges mir_placement_gravity_north) (has_flag edges mir_placement_gravity_south) (v_span zone) (v_span area) (height (r_size window))))
  | _ => None
  end.
Definition placed_at (m : WM) (area zone : Rectangle) (w : Window) : option Rectangle :=
  i ← window_info m !! w;
  attached_rect (wi_state i) (wi_attached_edges i) (window_rect m w) zone area.

Lemma attached_rect_eq state edges window zone area : attached_placement state edges window zone area = attached_rect state edges window zone area.
Proof.
  destruct window as [[wx wy] [ww wh]], zone as [[zx zy] [zw zh]], area as [[ax ay] [aw ah]].
  unfold attached_placement, attached_rect, rect_of_spans, h_span, v_span, left, right, top, bottom. destruct state; cbn -[half]; try done.
  - f_equal. f_equal; f_equal; lia.
  - f_equal. f_equal; f_equal; lia.
  - unfold attached_span, attached_position.
    destruct (has_flag edges mir_placement_gravity_west), (has_flag edges mir_placement_gravity_east),
      (has_flag edges mir_placement_gravity_north), (has_flag edges mir_placement_gravity_south);
      cbn -[half]; rewrite ?Z.add_simpl_l; do 3 f_equal; lia.
Qed.

Inductive Side := at_left | at_right | at_top | at_bottom.

(** The one edge a window is attached to, when edges attached in opposite
    pairs are not counted. *)
Definition attached_side (edges : MirPlacementGravity) : option Side :=
  match has_flag edges mir_placement_gravity_west, has_flag edges mir_placement_gravity_east,
        has_flag edges mir_placement_gravity_north, has_flag edges mir_placement_gravity_south with
  | true, false, n, s => if Bool.eqb n s then Some at_left else None
  | false, true, n, s => if Bool.eqb n s then Some at_right else None
  | _, _, true, false => Some at_top
  | _, _, false, true => Some at_bottom
  | _, _, _, _ => None
  end.

(** The zone without what lies on the near side of the strip. *)
Definition zone_without (side : option Side) (strip zone : Rectangle) : Rectangle :=
  match side with
  | Some at_left => rect_of_spans (right strip, right zone) (v_span zone)
  | Some at_right => rect_of_spans (left zone, left strip) (v_span zone)
  | Some at_top => rect_of_spans (h_span zone) (bottom strip, bottom zone)
  | Some at_bottom => rect_of_spans (h_span zone) (top zone, top strip)
  | None => zone
  end.
(** Flags other than the four edges make the edges unknown. *)
Definition known_side (edges : MirPlacementGravity) : option Side := if bool_decide (0 <= edges < 16) then attached_side edges else None.

Lemma drop_both_high edges f g : Z.shiftr f 4 = 0 -> Z.shiftr g 4 = 0 -> Z.shiftr (drop_both edges f g) 4 = Z.shiftr edges 4.
Proof.
  intros Hf Hg. unfold drop_both. destruct (_ && _); [|done].
  assert (Hn : forall x, Z.shiftr x 4 = 0 -> Z.shiftr (Z.lnot x) 4 = -1).
  { intros x Hx. rewrite Z.shiftr_div_pow2 in * by lia. change (2 ^ 4) with 16 in *. pose proof (Z.add_lnot_diag x).
    pose proof (Z.div_mod x 16 ltac:(lia)). pose proof (Z.mod_pos_bound x 16 ltac:(lia)). symmetry. apply (Z.div_unique _ 16 (-1) (15 - x)); lia. }
  by rewrite !Z.shiftr_land, !Hn, !Z.land_m1_r by done.
Qed.
Lemma zone_without_eq zone strip edges : apply_exclusive_rect_to_application_zone zone strip edges = zone_without (known_side edges) strip zone.
Proof.
  destruct zone as [[zx zy] [zw zh]], strip as [[sx sy] [sw sh]]. unfold known_side. case_bool_decide as He.
  - assert (Hall : edges ∈ seqZ 0 16) by (apply elem_of_seqZ; lia).
    change (seqZ 0 16) with [0;1;2;3;4;5;6;7;8;9;10;11;12;13;14;15] in Hall.
    repeat (apply elem_of_cons in Hall as [->|Hall]); [..|by apply not_elem_of_nil in Hall].
    all: unfold apply_exclusive_rect_to_application_zone.
    all: match goal with |- context [drop_both (drop_both ?e ?a ?b) ?c ?d] =>
           let v := eval vm_compute in (drop_both (drop_both e a b) c d) in change (drop_both (drop_both e a b) c d) with v end.
    all: match goal with |- context [attached_side ?e] =>
           let v := eval vm_compute in (attached_side e) in change (attached_side e) with v end.
    all: cbn [Z.eqb Pos.eqb mir_placement_gravity_west mir_placement_gravity_east mir_placement_gravity_north mir_placement_gravity_south].
    all: unfold zone_without, rect_of_spans, h_span, v_span, left, right, top, bottom; cbn; try done; do 2 f_equal; lia.
  - assert (Hhigh : Z.shiftr edges 4 <> 0).
    { rewrite Z.shiftr_div_pow2 by lia. change (2 ^ 4) with 16. pose proof (Z.div_mod edges 16 ltac:(lia)). pose proof (Z.mod_pos_bound edges 16 ltac:(lia)). lia. }
    unfold apply_exclusive_rect_to_application_zone. cbv zeta. set (e := drop_both _ _ _).
    assert (He' : Z.shiftr e 4 <> 0) by (unfold e; by rewrite !drop_both_high).
    assert (Hne : forall f, Z.shiftr f 4 = 0 -> (e =? f) = false) by (intros f Hf; apply Z.eqb_neq; congruence).
    by rewrite !Hne by reflexivity.
Qed.


Definition reserves (m : WM) (w : Window) : bool :=
  match window_info m !! w with
  | Some i => bool_decide (wi_state i = mir_window_state_attached) && bool_decide (is_Some (wi_exclusive_rect i))
  | None => false
  end.

Definition zone_beside (m : WM) (w : Window) (placement zone : Rectangle) : Rectangle :=
  match window_info m !! w with
  | Some i =>
      match wi_state i, wi_exclusive_rect i with
      | mir_window_state_attached, Some r =>
          zone_without (known_side (wi_attached_edges i))
            (mkRectangle (mkPoint (px (top_left r) + px (top_left placement)) (py (top_left r) + py (top_left placement))) (r_size r)) zone
      | _, _ => zone
      end
  | None => zone
  end.

Fixpoint layout_reserving (m : WM) (area : Rectangle) (windows : list Window) (zone : Rectangle)
  : option (list (Window * Rectangle) * Rectangle) :=
  match windows with
  | [] => Some ([], zone)
  | w :: rest =>
      p ← placed_at m area zone w;
      r ← layout_reserving m area rest (zone_beside m w p zone);
      Some ((w, p) :: fst r, snd r)
  end.

Fixpoint layout_sharing (m : WM) (area zone : Rectangle) (windows : list Window) : option (list (Window * Rectangle)) :=
  match windows with
  | [] => Some []
  | w :: rest => p ← placed_at m area zone w; l ← layout_sharing m area zone rest; Some ((w, p) :: l)
  end.

Definition layout (m : WM) (a : DisplayArea) : option (list (Window * Rectangle) * Rectangle) :=
  r ← layout_reserving m (da_area a) (filter (fun w => reserves m w = true) (da_attached_windows a)) (da_area a);
  l ← layout_sharing m (da_area a) (snd r) (filter (fun w => reserves m w <> true) (da_attached_windows a));
  Some (fst r ++ l, snd r).

(** ** The code computes the layout *)
Definition placed (l : list (Window * Rectangle)) (m : WM) : Prop :=
  Forall (fun wr => window_rect m wr.1 = wr.2) l.
Definition all_positive (l : list (Window * Rectangle)) : Prop := Forall (fun wr => positive (r_size wr.2)) l.

(** A step that places windows and moves only what is below them. *)
Definition places (windows : list Window) (m m' : WM) : Prop :=
  same_manager m m' /\ forest m' /\
  (forall x, is_Some (window_info m !! x) -> (forall w, w ∈ windows -> ~ rtc (child_rel m) w x) ->
     window_rect m' x = window_rect m x).

(** No window of the list is below another one. *)
Definition independent (m : WM) (windows : list Window) : Prop :=
  NoDup windows /\ (forall w, w ∈ windows -> is_Some (window_info m !! w)) /\
  (forall w w', w ∈ windows -> w' ∈ windows -> rtc (child_rel m) w w' -> w = w').

Lemma same_manager_child m m' : same_manager m m' -> child_rel m' = child_rel m.
Proof. intros H%same_manager_info. unfold child_rel. by rewrite H. Qed.

Lemma places_app ws1 ws2 m m1 m2 : places ws1 m m1 -> places ws2 m1 m2 -> places (ws1 ++ ws2) m m2.
Proof.
  intros (Hs1 & Hf1 & Hx1) (Hs2 & Hf2 & Hx2). split; [by eapply same_manager_trans|]. split; [done|].
  intros x Hx Hno. rewrite Hx2, Hx1; [done|done|set_solver|by rewrite (same_manager_info m m1)|].
  rewrite (same_manager_child m m1) by done. set_solver.
Qed.

Lemma placed_at_keep m m' area zone w :
  same_manager m m' -> window_rect m' w = window_rect m w -> placed_at m' area zone w = placed_at m area zone w.
Proof. intros H E. unfold placed_at. by rewrite (same_manager_info m m' H), E. Qed.

Lemma layout_reserving_keep m m' area ws zone :
  same_manager m m' -> (forall w, w ∈ ws -> window_rect m' w = window_rect m w) ->
  layout_reserving m' area ws zone = layout_reserving m area ws zone.
Proof.
  intros H. revert zone. induction ws as [|w ws IH]; intros zone Hw; [done|]. cbn [layout_reserving].
  rewrite (placed_at_keep m m') by (done || apply Hw; set_solver). destruct (placed_at m area zone w) as [p|]; [|done]. cbn.
  assert (zone_beside m' w p zone = zone_beside m w p zone) as -> by (unfold zone_beside; by rewrite (same_manager_info m m' H)).
  rewrite IH; [done|]. set_solver.
Qed.

Lemma layout_sharing_keep m m' area zone ws :
  same_manager m m' -> (forall w, w ∈ ws -> window_rect m' w = window_rect m w) ->
  layout_sharing m' area zone ws = layout_sharing m area zone ws.
Proof.
  intros H. induction ws as [|w ws IH]; intros Hw; [done|]. cbn [layout_sharing].
  rewrite (placed_at_keep m m') by (done || apply Hw; set_solver). destruct (placed_at m area zone w) as [p|]; [|done]. cbn.
  rewrite IH; [done|]. set_solver.
Qed.

Lemma layout_reserving_windows m area ws zone l z : layout_reserving m area ws zone = Some (l, z) -> l.*1 = ws.
Proof.
  revert zone l z. induction ws as [|w ws IH]; intros zone l z; cbn [layout_reserving]; [by intros [= <- <-]|].
  destruct (placed_at m area zone w) as [p|]; [|done]. cbn. destruct (layout_reserving m area ws _) as [[l' z']|] eqn:E; [|done].
  cbn. intros [= <- <-]. cbn. f_equal. by eapply IH.
Qed.

Lemma layout_sharing_windows m area zone ws l : layout_sharing m area zone ws = Some l -> l.*1 = ws.
Proof.
  revert l. induction ws as [|w ws IH]; intros l; cbn [layout_sharing]; [by intros [= <-]|].
  destruct (placed_at m area zone w) as [p|]; [|done]. cbn. destruct (layout_sharing m area zone ws) as [l'|]; [|done].
  cbn. intros [= <-]. cbn. f_equal. by apply IH.
Qed.

Notation canonical_attached := (place_attached_to_zone canonical_confirm_inherited_move canonical_confirm_placement_on_display).

Section Layout.
Context (fuel : nat).

Lemma place_attached_spec m w zone area p :
  forest m -> (size (window_info m) <= fuel)%nat -> placed_at m area zone w = Some p -> positive (r_size p) ->
  exists m', canonical_attached fuel w zone area m = Ret (tt, m') /\ places [w] m m' /\ window_rect m' w = p.
Proof.
  intros Hf Hfuel Hp Hpos. unfold placed_at in Hp. destruct (window_info m !! w) as [i|] eqn:Hi; [|done]. cbn in Hp.
  destruct (canonical_place_spec m fuel w (top_left p) (r_size p)) as (m' & Hm' & Hsame & Hf' & Hrect & Hoth & _); [done|eauto|done|done|].
  exists m'. split; [|split; [split; [done|split; [done|]]|]].
  - unfold place_attached_to_zone. rewrite (M_bind_eq _ _ m i m) by by apply info_for_known.
    rewrite (M_bind_eq _ _ m (window_rect m w) m) by done. rewrite attached_rect_eq, Hp.
    rewrite (M_bind_eq _ _ m p m) by done. exact Hm'.
  - intros x Hx Hno. apply Hoth; [done|]. apply Hno. set_solver.
  - rewrite Hrect. by destruct p.
Qed.

(** The facts a pass hands over after placing its first window. *)
Lemma independent_step m m1 w ws :
  independent m (w :: ws) -> places [w] m m1 ->
  independent m1 ws /\ (forall x, x ∈ ws -> window_rect m1 x = window_rect m x) /\
  (forall m2, places ws m1 m2 -> window_rect m2 w = window_rect m1 w).
Proof.
  intros (Hnd & Hk & Hind) (Hsame & Hf1 & Hx1). apply NoDup_cons in Hnd as [Hw Hnd]. split; [split; [done|split]|split].
  - intros x Hx. rewrite (same_manager_info m m1 Hsame). apply Hk. set_solver.
  - intros a b Ha Hb Hab. rewrite (same_manager_child m m1 Hsame) in Hab. apply Hind; [set_solver..|done].
  - intros x Hx. apply Hx1; [apply Hk; set_solver|]. intros y ->%list_elem_of_singleton Hr. apply Hw.
    rewrite (Hind w x); [done|set_solver|set_solver|done].
  - intros m2 (Hs2 & _ & Hx2). apply Hx2; [rewrite (same_manager_info m m1 Hsame); apply Hk; set_solver|].
    intros y Hy Hr. rewrite (same_manager_child m m1 Hsame) in Hr. apply Hw. rewrite <-(Hind y w); [done|set_solver|set_solver|done].
Qed.

Lemma first_pass_spec ws area zone m l z :
  forest m -> (size (window_info m) <= fuel)%nat -> independent m ws ->
  layout_reserving m area ws zone = Some (l, z) -> all_positive l ->
  exists m', first_pass canonical_confirm_inherited_move canonical_confirm_placement_on_display fuel ws area zone m = Ret (z, m') /\
    places ws m m' /\ placed l m'.
Proof.
  revert zone m l. induction ws as [|w ws IH]; intros zone m l Hf Hfuel Hind Hl Hpos; cbn [layout_reserving] in Hl.
  { injection Hl as <- <-. exists m. split; [done|]. split; [split; [by destruct m|done]|constructor]. }
  destruct (placed_at m area zone w) as [p|] eqn:Hp; [|done]. cbn in Hl.
  destruct (layout_reserving m area ws (zone_beside m w p zone)) as [[l' z']|] eqn:Hl'; [|done]. injection Hl as <- <-. cbn in Hpos |- *.
  apply Forall_cons in Hpos as [Hpp Hpos]. destruct (place_attached_spec m w zone area p) as (m1 & Hm1 & Hpl1 & Hr1); [done..|].
  destruct (independent_step m m1 w ws Hind Hpl1) as (Hind1 & Hkeep & Hstay). pose proof Hpl1 as (Hsame & Hf1 & _).
  pose proof (same_manager_info m m1 Hsame) as Hinfo.
  destruct (IH (zone_beside m w p zone) m1 l') as (m2 & Hm2 & Hpl2 & Hd2); [done|by rewrite Hinfo|done| |done|].
  { by rewrite (layout_reserving_keep m m1). }
  exists m2. split; [|split; [by apply (places_app [w] ws m m1 m2)|]].
  - cbn [first_pass]. rewrite (M_bind_eq _ _ _ _ _ Hm1).
    destruct (proj1 (proj2 Hind) w) as [i Hi]; [set_solver|].
    rewrite (M_bind_eq _ _ m1 i m1) by (apply info_for_known; by rewrite Hinfo).
    rewrite (M_bind_eq _ _ m1 (top_left p) m1) by (unfold gets; by rewrite <-Hr1).
    unfold zone_beside in Hm2. rewrite Hi in Hm2. rewrite <- Hm2. f_equal. destruct (wi_state i), (wi_exclusive_rect i); try done. apply zone_without_eq.
  - constructor; [|done]. cbn. by rewrite Hstay.
Qed.

Lemma second_pass_spec ws area zone m l :
  forest m -> (size (window_info m) <= fuel)%nat -> independent m ws ->
  layout_sharing m area zone ws = Some l -> all_positive l ->
  exists m', for_each ws (fun w => canonical_attached fuel w zone area) m = Ret (tt, m') /\ places ws m m' /\ placed l m'.
Proof.
  revert m l. induction ws as [|w ws IH]; intros m l Hf Hfuel Hind Hl Hpos; cbn [layout_sharing] in Hl.
  { injection Hl as <-. exists m. split; [done|]. split; [split; [by destruct m|done]|constructor]. }
  destruct (placed_at m area zone w) as [p|] eqn:Hp; [|done]. cbn in Hl.
  destruct (layout_sharing m area zone ws) as [l'|] eqn:Hl'; [|done]. injection Hl as <-. 
  apply Forall_cons in Hpos as [Hpp Hpos]. destruct (place_attached_spec m w zone area p) as (m1 & Hm1 & Hpl1 & Hr1); [done..|].
  destruct (independent_step m m1 w ws Hind Hpl1) as (Hind1 & Hkeep & Hstay). pose proof Hpl1 as (Hsame & Hf1 & _).
  pose proof (same_manager_info m m1 Hsame) as Hinfo.
  destruct (IH m1 l') as (m2 & Hm2 & Hpl2 & Hd2); [done|by rewrite Hinfo|done|by rewrite (layout_sharing_keep m m1)|done|].
  exists m2. split; [by rewrite (for_each_cons w ws _ m m1)|]. split; [by apply (places_app [w] ws m m1 m2)|].
  constructor; [|done]. cbn. by rewrite Hstay.
Qed.

Lemma split_passes_spec ws m :
  forest m -> (forall w, w ∈ ws -> is_Some (window_info m !! w)) ->
  split_passes ws m = Ret ((filter (fun w => reserves m w = true) ws, filter (fun w => reserves m w <> true) ws), m).
Proof.
  intros Hf. induction ws as [|w ws IH]; intros Hk; [done|]. cbn [split_passes].
  destruct (Hk w) as [i Hi]; [set_solver|]. rewrite (M_bind_eq _ _ m true m).
  2:{ unfold gets. rewrite bool_decide_true; [done|]. apply (forest_surface m Hf). eauto. }
  rewrite (M_bind_eq _ _ m i m) by by apply info_for_known.
  rewrite (M_bind_eq _ _ m _ m) by (apply IH; set_solver). rewrite !filter_cons.
  assert (Hr : reserves m w = bool_decide (wi_state i = mir_window_state_attached) && bool_decide (is_Some (wi_exclusive_rect i)))
    by (unfold reserves; by rewrite Hi). rewrite <-Hr.
  destruct (reserves m w); [rewrite decide_True, decide_False by (done || tauto)|rewrite decide_False, decide_True by (done || tauto)]; done.
Qed.
End Layout.

Lemma independent_filter m ws (P : Window -> Prop) `{forall w, Decision (P w)} : independent m ws -> independent m (filter P ws).
Proof.
  intros (Hnd & Hk & Hind). split; [by apply NoDup_filter|]. split.
  - intros w [_ Hw]%list_elem_of_filter. by apply Hk.
  - intros w w' [_ Hw]%list_elem_of_filter [_ Hw']%list_elem_of_filter. by apply Hind.
Qed.

Lemma layout_sharing_maximized m area zone ws l w i :
  layout_sharing m area zone ws = Some l -> w ∈ ws -> window_info m !! w = Some i -> wi_state i = mir_window_state_maximized ->
  (w, zone) ∈ l.
Proof.
  intros Hl Hw Hi Hst. revert l Hl. induction ws as [|x ws IH]; intros l Hl; [set_solver|]. cbn [layout_sharing] in Hl.
  destruct (placed_at m area zone x) as [p|] eqn:Hp; [|done]. cbn in Hl.
  destruct (layout_sharing m area zone ws) as [l'|]; [|done]. injection Hl as <-. apply elem_of_cons in Hw as [->|Hw].
  - unfold placed_at in Hp. rewrite Hi in Hp. cbn in Hp. rewrite Hst in Hp. injection Hp as ->. set_solver.
  - apply elem_of_cons. right. by apply IH.
Qed.

(** The two passes do not disturb each other. *)
Lemma passes_disjoint m ws :
  independent m ws ->
  (forall w, w ∈ filter (fun w => reserves m w <> true) ws -> forall y, y ∈ filter (fun w => reserves m w = true) ws -> ~ rtc (child_rel m) y w) /\
  (forall w, w ∈ filter (fun w => reserves m w = true) ws -> forall y, y ∈ filter (fun w => reserves m w <> true) ws -> ~ rtc (child_rel m) y w).
Proof.
  intros (_ & _ & Hind).
  split; intros w [Hw Hin]%list_elem_of_filter y [Hy Hin']%list_elem_of_filter Hr; rewrite (Hind y w) in Hy by done; tauto.
Qed.

Lemma independent_keep m m' ws : same_manager m m' -> independent m ws -> independent m' ws.
Proof.
  intros Hs (Hnd & Hk & Hind). unfold independent. rewrite (same_manager_info m m' Hs), (same_manager_child m m' Hs). done.
Qed.

Lemma filter_complement {A} (P : A -> Prop) `{forall x, Decision (P x)} (l : list A) :
  filter P l ++ filter (fun x => ~ P x) l ≡ₚ l.
Proof.
  induction l as [|x l IH]; [done|]. rewrite !filter_cons. destruct (decide (P x)) as [Hx|Hx].
  - rewrite decide_False by tauto. cbn. by rewrite IH.
  - rewrite decide_True by done. rewrite <-Permutation_middle. by rewrite IH.
Qed.

(** The end of the loop body: the zone is stored when it differs. *)
Lemma update_zone_spec a m n z :
  display_areas m !! n = Some a ->
  exists m', (if bool_decide (mkZone (zone_id (da_application_zone a)) z <> da_application_zone a) then
      advise (advise_application_zone_update (mkZone (zone_id (da_application_zone a)) z) (da_application_zone a));;
      modify (fun m => m <| display_areas := alter (fun a0 => a0 <| da_application_zone := mkZone (zone_id (da_application_zone a)) z |>) n (display_areas m) |>)
    else mret tt) m = Ret (tt, m') /\
    (zone_extents ∘ da_application_zone) <$> display_areas m' !! n = Some z /\
    (forall w, window_rect m' w = window_rect m w) /\ window_info m' = window_info m.
Proof.
  intros Ha. case_bool_decide as E.
  - erewrite M_bind_eq by reflexivity. eexists. split; [reflexivity|]. split; [|done]. cbn. by rewrite list_lookup_alter_eq, Ha.
  - exists m. split; [done|]. split; [|done]. rewrite Ha. cbn. by rewrite <-E.
Qed.

(** C31: [update_windows_for_outputs] computes the layout of each display area.
    The layout is defined from the edges and reserved strips alone
    ([attached_rect], [zone_without]).  With the canonical policy, if no attached
    window is below another one, all are in states that have a place there and the
    layout gives none an empty size, the pass over an area ends, every attached
    window is exactly where the layout puts it, the maximized ones fill the
    application zone, the zone the area has afterwards is the one the layout
    leaves, and nothing the manager knows of the windows changes. *)
Theorem update_area_layout (m : WM) (fuel n : nat) (a : DisplayArea) (l : list (Window * Rectangle)) (z : Rectangle) :
  forest m -> (size (window_info m) <= fuel)%nat -> display_areas m !! n = Some a ->
  independent m (da_attached_windows a) -> layout m a = Some (l, z) -> all_positive l ->
  exists m', update_area canonical_confirm_inherited_move canonical_confirm_placement_on_display fuel n m = Ret (tt, m') /\
    placed l m' /\ l.*1 ≡ₚ da_attached_windows a /\
    (forall w i, w ∈ da_attached_windows a -> window_info m !! w = Some i -> wi_state i = mir_window_state_maximized ->
       window_rect m' w = z) /\
    (zone_extents ∘ da_application_zone) <$> display_areas m' !! n = Some z /\ window_info m' = window_info m.
Proof.
  intros Hf Hfuel Ha Hind Hl Hpos. unfold layout in Hl.
  set (ws1 := filter (fun w => reserves m w = true) _) in Hl. set (ws2 := filter (fun w => reserves m w <> true) _) in Hl.
  destruct (layout_reserving m (da_area a) ws1 (da_area a)) as [[l1 z1]|] eqn:E1; [|done]. cbn in Hl.
  destruct (layout_sharing m (da_area a) z1 ws2) as [l2|] eqn:E2; [|done]. cbn in Hl. injection Hl as <- ->.
  apply Forall_app in Hpos as [Hpos1 Hpos2].
  destruct (first_pass_spec fuel ws1 (da_area a) (da_area a) m l1 z) as (m1 & Hm1 & Hpl1 & Hd1); [done..|by apply independent_filter|done|done|].
  pose proof Hpl1 as (Hsame1 & Hf1 & Hx1). pose proof (same_manager_info m m1 Hsame1) as Hinfo1.
  destruct (passes_disjoint m (da_attached_windows a) Hind) as [Hdis12 Hdis21]. fold ws1 ws2 in Hdis12, Hdis21.
  destruct (second_pass_spec fuel ws2 (da_area a) z m1 l2) as (m2 & Hm2 & Hpl2 & Hd2); [done|by rewrite Hinfo1| | |done|].
  { apply (independent_keep m); [done|by apply independent_filter]. }
  { rewrite (layout_sharing_keep m m1); [done|done|]. intros w Hw. apply Hx1; [apply Hind; by apply list_elem_of_filter in Hw as [_ ?]|by apply Hdis12]. }
  assert (Hd : placed (l1 ++ l2) m2).
  { apply Forall_app. split; [|done]. apply Forall_forall. intros [w r] Hwr. pose proof (proj1 (Forall_forall _ _) Hd1 _ Hwr) as Hr. cbn in Hr |- *. rewrite <-Hr.
    assert (Hw : w ∈ ws1) by (rewrite <-(layout_reserving_windows _ _ _ _ _ _ E1); apply list_elem_of_fmap; by exists (w, r)).
    apply (proj2 (proj2 Hpl2)); [rewrite Hinfo1; apply Hind; by apply list_elem_of_filter in Hw as [_ ?]|].
    rewrite (same_manager_child m m1 Hsame1). by apply Hdis21. }
  destruct (update_zone_spec a m2 n z) as (m' & Hm' & Hz & Hw' & Hi'); [by rewrite (same_manager_areas m1 m2), (same_manager_areas m m1) by apply Hpl2 || done|].
  exists m'. split; [|split; [|split; [|split; [|split]]]].
  - unfold update_area. rewrite (M_bind_eq _ _ m (Some a) m) by (unfold gets; by rewrite Ha).
    rewrite (M_bind_eq _ _ m _ m) by (apply split_passes_spec; [done|apply Hind]). cbn [fst snd]. fold ws1 ws2.
    rewrite (M_bind_eq _ _ _ _ _ Hm1), (M_bind_eq _ _ _ _ _ Hm2). exact Hm'.
  - eapply Forall_impl; [exact Hd|]. intros [w r] Hr. cbn in Hr |- *. rewrite <-Hr. apply Hw'.
  - rewrite fmap_app, (layout_reserving_windows _ _ _ _ _ _ E1), (layout_sharing_windows _ _ _ _ _ E2). apply filter_complement.
  - intros w i Hw Hi Hst. rewrite Hw'. apply (proj1 (Forall_forall _ _) Hd (w, z)). apply elem_of_app. right.
    eapply layout_sharing_maximized; [exact E2| |exact Hi|done]. apply list_elem_of_filter. split; [|done].
    unfold reserves. rewrite Hi, Hst. done.
  - done.
  - rewrite Hi', (same_manager_info m1 m2); [done|apply Hpl2].
Qed.

(** ** What remains beside a reserved strip *)
Definition beyond (side : option Side) (strip : Rectangle) (p : Point) : Prop :=
  match side with
  | Some at_left => right strip <= px p
  | Some at_right => px p < left strip
  | Some at_top => bottom strip <= py p
  | Some at_bottom => py p < top strip
  | None => True
  end.

(** The application zone that remains beside the exclusive rectangle of a
    window attached to one edge is exactly the part of the old zone on the
    far side of the rectangle: it stays inside the zone and does not touch
    the rectangle.  A window attached to a corner, to no edge or to opposite
    edges only leaves the zone as it is. *)
Theorem exclusive_zone_pixels (zone strip : Rectangle) (edges : MirPlacementGravity) (p : Point) :
  0 <= edges < 16 -> left zone <= right strip -> left strip <= right zone -> top zone <= bottom strip -> top strip <= bottom zone ->
  (covers (apply_exclusive_rect_to_application_zone zone strip edges) p <-> covers zone p /\ beyond (attached_side edges) strip p) /\
  (attached_side edges <> None -> covers strip p -> ~ covers (apply_exclusive_rect_to_application_zone zone strip edges) p) /\
  (attached_side edges = None -> apply_exclusive_rect_to_application_zone zone strip edges = zone).
Proof.
  intros He H1 H2 H3 H4. destruct zone as [[zx zy] [zw zh]], strip as [[sx sy] [sw sh]], p as [x y].
  assert (Hall : edges ∈ seqZ 0 16) by (apply elem_of_seqZ; lia).
  change (seqZ 0 16) with [0;1;2;3;4;5;6;7;8;9;10;11;12;13;14;15] in Hall.
  repeat (apply elem_of_cons in Hall as [->|Hall]); [..|by apply not_elem_of_nil in Hall].
  all: unfold apply_exclusive_rect_to_application_zone.
  all: match goal with |- context [drop_both (drop_both ?e ?a ?b) ?c ?d] =>
         let v := eval vm_compute in (drop_both (drop_both e a b) c d) in change (drop_both (drop_both e a b) c d) with v end.
  all: match goal with |- context [attached_side ?e] =>
         let v := eval vm_compute in (attached_side e) in change (attached_side e) with v end.
  all: cbn [Z.eqb Pos.eqb mir_placement_gravity_west mir_placement_gravity_east mir_placement_gravity_north mir_placement_gravity_south].
  all: geom; cbn in *; split_and!; try done; intros; lia.
Qed.

(** ** Whatever the policy answers *)
(** A new layout changes the places of windows, the zones of the areas, the
    pointer confinement and the advice, and nothing else. *)
Definition other_state (m : WM) :=
  (wm_streams m, wm_applications m, app_info m, window_info m, outputs m, cursor m, mru_active_windows m, allow_active_window m,
   fullscreen_surfaces m, workspaces_to_windows m, next_zone_id m).
Definition other_shell (sh : Shell) :=
  (sh_parents sh, sh_apps sh, sh_session_surfaces sh, focus_session sh, focus_surface sh, notified_focus_surface sh, targeter_focus sh).
Record relaid (m m' : WM) : Prop := {
  rl_manager : other_state m' = other_state m;
  rl_shell : other_shell (wm_shell m') = other_shell (wm_shell m);
  rl_attached : da_attached_windows <$> display_areas m' = da_attached_windows <$> display_areas m;
  rl_surfaces : forall x, unplaced <$> surfaces_of m' !! x = unplaced <$> surfaces_of m !! x
}.
Lemma relaid_refl m : relaid m m.
Proof. by split. Qed.
Lemma relaid_trans m m1 m2 : relaid m m1 -> relaid m1 m2 -> relaid m m2.
Proof. intros [H1 H2 H3 H4] [G1 G2 G3 G4]. split; [by rewrite G1|by rewrite G2|by rewrite G3|intros x; by rewrite G4]. Qed.
Lemma relaid_info m m' : relaid m m' -> window_info m' = window_info m.
Proof. intros [H _ _ _]. by injection H. Qed.
Lemma relaid_full m m' : relaid m m' -> fullscreen_surfaces m' = fullscreen_surfaces m.
Proof. intros [H _ _ _]. by injection H. Qed.
Lemma relaid_alive m m' x : relaid m m' -> is_Some (surfaces_of m' !! x) <-> is_Some (surfaces_of m !! x).
Proof. intros [_ _ _ H]. specialize (H x). destruct (surfaces_of m' !! x), (surfaces_of m !! x); try done; split; intros; eauto. Qed.

Lemma relaid_advise m a : relaid m (m <| advice := advice m ++ [a] |>).
Proof. by split. Qed.
Lemma relaid_change w f m : (forall s, unplaced (fst (f s)) = unplaced s) -> exists m', change_surface w f m = Ret (tt, m') /\ relaid m m'.
Proof.
  intros Hf. eexists. split; [reflexivity|]. cbn beta. destruct (surfaces_of m !! w) as [s|] eqn:E; [|apply relaid_refl].
  split; [done| |done|].
  - unfold put_surface, observe, update_focused_surface_confined_region. cbn [wm_shell assign]. by repeat case_match.
  - intros x. rewrite put_surface_surfaces. destruct (decide (x = w)) as [->|]; [by rewrite lookup_insert_eq, E; cbn; rewrite Hf|by rewrite lookup_insert_ne].
Qed.
Lemma move_unplaced p s : unplaced (fst (surface_move_to s p)) = unplaced s.
Proof. unfold surface_move_to. by repeat case_match. Qed.
Lemma resize_unplaced sz s : unplaced (fst (surface_resize s sz)) = unplaced s.
Proof. unfold surface_resize. by repeat case_match. Qed.

(** An operation that, after any changes of the layout, ends with one more. *)
Section Lays.
Context (m0 : WM).
Definition lays {A} (x : M A) : Prop := forall m, relaid m0 m -> exists a m', x m = Ret (a, m') /\ relaid m0 m'.

Lemma lays_ret {A} (a : A) : lays (mret a).
Proof. intros m Hm. by exists a, m. Qed.
Lemma lays_bind {A B} (x : M A) (f : A -> M B) : lays x -> (forall a, lays (f a)) -> lays (x ≫= f).
Proof.
  intros Hx Hf m Hm. destruct (Hx m Hm) as (a & m1 & H1 & Hm1). destruct (Hf a m1 Hm1) as (b & m2 & H2 & Hm2).
  exists b, m2. by rewrite (M_bind_eq _ _ _ _ _ H1).
Qed.
Lemma lays_gets {A B} (g : WM -> A) (f : A -> M B) : (forall m, relaid m0 m -> lays (f (g m))) -> lays (gets g ≫= f).
Proof. intros Hf m Hm. rewrite (M_bind_eq _ _ m (g m) m) by done. by apply (Hf m). Qed.
Lemma lays_step (x : M unit) : (forall m, exists m', x m = Ret (tt, m') /\ relaid m m') -> lays x.
Proof. intros Hx m Hm. destruct (Hx m) as (m' & E & Hm'). exists tt, m'. split; [done|]. by eapply relaid_trans. Qed.
Lemma lays_advise a : lays (advise a).
Proof. apply lays_step. intros m. eexists. split; [reflexivity|]. apply relaid_advise. Qed.
Lemma lays_info {B} w i (f : WindowInfo -> M B) : window_info m0 !! w = Some i -> lays (f i) -> lays (info_for w ≫= f).
Proof. intros Hi Hf m Hm. rewrite (M_bind_eq _ _ m i m) by (apply info_for_known; by rewrite (relaid_info m0 m Hm)). by apply Hf. Qed.
Lemma lays_for_each {A} (l : list A) f : (forall x, x ∈ l -> lays (f x)) -> lays (for_each l f).
Proof.
  induction l as [|x l IH]; intros Hf; [apply lays_ret|]. cbn [for_each]. apply lays_bind; [apply Hf; by left|].
  intros _. apply IH. intros y Hy. apply Hf. by right.
Qed.

Context (confirm_inherited_move : WM -> Window -> Displacement -> Rectangle).
Context (confirm_placement_on_display : WM -> Window -> MirWindowState -> Rectangle -> Rectangle).

Lemma lays_place_with move w pos sz : (forall d, lays (move w d)) -> lays (place_and_size_with move w pos sz).
Proof.
  intros Hmv. unfold place_and_size_with. apply lays_gets. intros m Hm. apply lays_bind; [|intros _; apply lays_gets; intros m1 _; apply Hmv].
  case_bool_decide; [|apply lays_ret]. apply lays_bind; [apply lays_advise|]. intros _. apply lays_step. intros m1. apply relaid_change, resize_unplaced.
Qed.

(** The recursion of [move_tree] is that of [tree_of]. *)
Lemma collect_each (f : Window -> M (list Window)) l m ws : (forall x r, x ∈ l -> f x m = Ret r -> snd r = m) -> collect f l m = Ret (ws, m) ->
  forall x, x ∈ l -> exists wx, f x m = Ret (wx, m).
Proof.
  revert ws. induction l as [|y l IH]; intros ws Hf Hc x Hx; [by apply not_elem_of_nil in Hx|]. cbn [collect] in Hc.
  apply M_bind_Ret in Hc as (wy & m1 & Hy & Hc). pose proof (Hf y (wy, m1) ltac:(by left) Hy) as E. cbn in E. subst m1.
  apply M_bind_Ret in Hc as (wl & m2 & Hl & Hc). apply elem_of_cons in Hx as [->|Hx]; [by eexists|].
  injection Hc as _ ->. apply (IH wl); [intros z r Hz; apply Hf; by right|done|done].
Qed.
Lemma lays_move_tree fuel : forall w ws d, tree_of fuel w m0 = Ret (ws, m0) -> lays (move_tree confirm_inherited_move fuel w d).
Proof.
  induction fuel as [|fuel IH]; intros w ws d Ht; [done|]. cbn [tree_of] in Ht. cbn [move_tree].
  apply M_bind_Ret in Ht as (i & m1 & Hi & Ht). unfold info_for in Hi. destruct (window_info m0 !! w) as [i'|] eqn:Ei; [|done]. injection Hi as -> <-.
  apply M_bind_Ret in Ht as (below & m2 & Hb & Ht). injection Ht as _ ->.
  case_bool_decide; [apply lays_ret|]. apply lays_gets. intros m Hm. apply lays_bind; [apply lays_advise|]. intros _.
  apply lays_bind; [apply lays_step; intros m1; apply relaid_change, move_unplaced|]. intros _.
  apply (lays_info w i); [done|]. apply lays_for_each. intros c Hc.
  destruct (collect_each (tree_of fuel) (wi_children i) m0 below) with (x := c) as [wc Hwc]; [intros x r _; apply tree_of_state|done|done|].
  assert (Hk : exists ci, window_info m0 !! c = Some ci).
  { destruct fuel; [done|]. cbn [tree_of] in Hwc. apply M_bind_Ret in Hwc as (ci & ? & Hci & _). unfold info_for in Hci. destruct (window_info m0 !! c); [by eexists|done]. }
  destruct Hk as [ci Hci]. apply (lays_info c ci); [done|]. apply lays_gets. intros m1 _. apply lays_place_with. intros d'. by eapply IH.
Qed.

Context (fuel : nat) (Hforest : forest m0) (Hfuel : (size (window_info m0) <= fuel)%nat).
Lemma lays_place w pos sz : is_Some (window_info m0 !! w) -> lays (place_and_size confirm_inherited_move fuel w pos sz).
Proof.
  intros Hw. apply lays_place_with. intros d. destruct (tree_of_known m0 fuel w Hforest Hw Hfuel) as (ws & Ht & _). by eapply lays_move_tree.
Qed.

(** The windows attached to an area are known and in a state that has a place
    there; full screen windows are known. *)
Record attached_ok (m : WM) : Prop := {
  ao_areas : forall a w, a ∈ display_areas m -> w ∈ da_attached_windows a -> exists i, window_info m !! w = Some i /\ attaches (wi_state i) = true;
  ao_fullscreen : forall w, w ∈ fullscreen_surfaces m -> is_Some (window_info m !! w)
}.

Definition placeable (w : Window) : Prop := exists i, window_info m0 !! w = Some i /\ attaches (wi_state i) = true.
Lemma lays_attached w zone area : placeable w -> lays (place_attached_to_zone confirm_inherited_move confirm_placement_on_display fuel w zone area).
Proof.
  intros (i & Hi & Ha). unfold place_attached_to_zone. apply (lays_info w i); [done|]. apply lays_gets. intros m Hm.
  destruct (attached_placement _ _ _ _ _) as [p|] eqn:E; [|by destruct (wi_state i)]. apply lays_gets. intros m1 _. apply lays_place. eauto.
Qed.
Lemma lays_first_pass ws area zone : (forall w, w ∈ ws -> placeable w) ->
  lays (first_pass confirm_inherited_move confirm_placement_on_display fuel ws area zone).
Proof.
  revert zone. induction ws as [|w ws IH]; intros zone Hw; [apply lays_ret|]. cbn [first_pass]. destruct (Hw w) as (i & Hi & Ha); [by left|].
  apply lays_bind; [apply lays_attached; by exists i|]. intros _. apply (lays_info w i); [done|]. apply lays_gets. intros m _. apply IH. intros x Hx. apply Hw. by right.
Qed.
Lemma lays_split ws : (forall w, w ∈ ws -> placeable w) -> forall m, relaid m0 m ->
  exists ps, split_passes ws m = Ret (ps, m) /\ (forall w, w ∈ fst ps -> placeable w) /\ (forall w, w ∈ snd ps -> placeable w).
Proof.
  induction ws as [|w ws IH]; intros Hw m Hm; [exists ([], []); split; [done|]; split; intros w Hx; by apply not_elem_of_nil in Hx|].
  destruct (IH (fun x Hx => Hw x (proj2 (elem_of_cons _ _ _) (or_intror Hx))) m Hm) as ([p1 p2] & E & H1 & H2). destruct (Hw w) as (i & Hi & Ha); [by left|].
  cbn [split_passes]. rewrite (M_bind_eq _ _ m _ m) by reflexivity. case_bool_decide; [|by exists (p1, p2)].
  rewrite (M_bind_eq _ _ m i m) by (apply info_for_known; by rewrite (relaid_info m0 m Hm)). rewrite (M_bind_eq _ _ _ _ _ E). cbn [fst snd] in *.
  assert (Hx : forall (p : list Window), (forall x, x ∈ p -> placeable x) -> forall x, x ∈ w :: p -> placeable x).
  { intros p Hp x [->|Hx]%elem_of_cons; [by exists i|by apply Hp]. }
  destruct (_ && _); [exists (w :: p1, p2)|exists (p1, w :: p2)]; (split; [done|]); cbn; split; first [exact H1|exact H2|exact (Hx _ H1)|exact (Hx _ H2)].
Qed.
Lemma lays_area n : attached_ok m0 -> lays (update_area confirm_inherited_move confirm_placement_on_display fuel n).
Proof.
  intros [Ha _]. unfold update_area. apply lays_gets. intros m Hm. destruct (display_areas m !! n) as [a|] eqn:En; [|apply lays_ret].
  assert (Hw : forall w, w ∈ da_attached_windows a -> placeable w).
  { intros w Hw. assert (Hin : da_attached_windows a ∈ da_attached_windows <$> display_areas m).
    { apply list_elem_of_fmap. exists a. split; [done|]. by eapply list_elem_of_lookup_2. }
    rewrite (rl_attached m0 m Hm) in Hin. apply list_elem_of_fmap in Hin as (a0 & Ea & Hin). apply (Ha a0); [done|by rewrite <- Ea]. }
  intros m1 Hm1. destruct (lays_split _ Hw m1 Hm1) as (ps & E & H1 & H2). rewrite (M_bind_eq _ _ _ _ _ E). revert m1 Hm1 E. cut (lays (zone_rect ← first_pass confirm_inherited_move confirm_placement_on_display fuel (fst ps) (da_area a) (da_area a);
      for_each (snd ps) (fun w => place_attached_to_zone confirm_inherited_move confirm_placement_on_display fuel w zone_rect (da_area a));;
      let old_zone := da_application_zone a in let new_zone := mkZone (zone_id old_zone) zone_rect in
      if bool_decide (new_zone <> old_zone) then
        advise (advise_application_zone_update new_zone old_zone);;
        modify (fun m => m <| display_areas := alter (fun a => a <| da_application_zone := new_zone |>) n (display_areas m) |>)
      else mret tt)); [intros HL m1 Hm1 _; by apply HL|].
  apply lays_bind; [by apply lays_first_pass|]. intros z. apply lays_bind; [apply lays_for_each; intros w Hx; by apply lays_attached, H2|]. intros _. cbv zeta.
  case_bool_decide; [|apply lays_ret]. apply lays_bind; [apply lays_advise|]. intros _. apply lays_step. intros m1. eexists. split; [reflexivity|].
  split; [done|done| |done]. cbn. apply list_eq. intros k. rewrite !list_lookup_fmap. destruct (decide (k = n)) as [->|].
  - rewrite list_lookup_alter_eq. by destruct (display_areas m1 !! n).
  - by rewrite list_lookup_alter_ne.
Qed.
(** [update_windows_for_outputs] ends. *)
Lemma lays_outputs : attached_ok m0 -> lays (update_windows_for_outputs confirm_inherited_move confirm_placement_on_display fuel).
Proof.
  intros Ha. unfold update_windows_for_outputs. apply lays_gets. intros m Hm. rewrite (relaid_full m0 m Hm). apply lays_bind.
  - apply lays_for_each. intros w Hw. destruct (ao_fullscreen m0 Ha w Hw) as [i Hi]. unfold place_fullscreen. apply lays_gets. intros m1 _.
    case_bool_decide; [|apply lays_ret]. apply (lays_info w i); [done|]. apply lays_gets. intros m2 _. apply lays_place. eauto.
  - intros _. apply lays_gets. intros m1 _. apply lays_for_each. intros n _. by apply lays_area.
Qed.
End Lays.

(** ** A restored window that is still attached *)
Lemma place_attached_fatal c1 c2 fuel m w i zone area :
  window_info m !! w = Some i -> attaches (wi_state i) = false -> place_attached_to_zone c1 c2 fuel w zone area m = Throw fatal_error.
Proof.
  intros Hi Hst. unfold place_attached_to_zone. rewrite (M_bind_eq _ _ m i m) by by apply info_for_known.
  rewrite (M_bind_eq _ _ m (window_rect m w) m) by done. by destruct (wi_state i).
Qed.

(** A maximized or attached window that is not on view yet, because its
    surface has no content, can be selected: its state becomes restored but
    the display area keeps it among its attached windows, and the next
    attempt to place it there is a fatal error. *)
Theorem select_unposted_fatal (m : WM) (fuel n : nat) (w : Window) (i : WindowInfo) (a : DisplayArea) :
  wm_ok m -> window_info m !! w = Some i -> attaches (wi_state i) = true -> can_be_active (wi_type i) = true ->
  info_is_visible m w i = false -> ~ shows_dialog m w -> display_areas m !! n = Some a -> w ∈ da_attached_windows a ->
  exists m', select_active_window (S fuel) (Some w) m = Ret (Some w, m') /\ active_window m' = Some w /\
    display_areas m' !! n = Some a /\
    forall c1 c2 fuel' zone area, place_attached_to_zone c1 c2 fuel' w zone area m' = Throw fatal_error.
Proof.
  intros Hok Hi Hatt Hact Hvis Hdlg Ha _.
  destruct (select_step fuel w m i Hok Hi) as [(c & ci & Hch & Hci & Hct & Hcv & _)|[_ Hsel]].
  { exfalso. apply Hdlg. by exists c, ci. }
  rewrite Hact, bool_decide_false in Hsel by (by intros E; rewrite E in Hatt). cbn in Hsel.
  destruct Hsel as (m' & Hsel & Hres & Hareas & Hrest & _). exists m'. split; [done|]. split; [apply (selected_active _ _ _ _ Hres)|].
  split; [by rewrite Hareas|]. intros c1 c2 fuel' zone area. destruct (Hrest Hvis) as (i' & Hi' & Hst').
  eapply place_attached_fatal; [exact Hi'|by rewrite Hst'].
Qed.

(** ** Examples *)
(** Window 1 (with its dialog 2) is maximized and window 3 is a panel along
    the top of the first output. *)
Definition docked_area : DisplayArea := (example_area 1 0) <| da_attached_windows := [1; 3] |>.
Definition panel_edges : MirPlacementGravity :=
  Z.lor mir_placement_gravity_north (Z.lor mir_placement_gravity_west mir_placement_gravity_east).
Definition docked (streams : Streams) : WM :=
  mkWM (wm_shell example_wm) streams (wm_applications example_wm) (app_info example_wm)
    {[1 := example_info <| wi_children := [2] |> <| wi_state := mir_window_state_maximized |>;
      2 := example_info <| wi_type := mir_window_type_dialog |> <| wi_parent := Some 1 |>;
      3 := example_info <| wi_state := mir_window_state_attached |> <| wi_attached_edges := panel_edges |>
                        <| wi_exclusive_rect := Some (mkRectangle (mkPoint 0 0) (mkSize 800 24)) |>]}
    [] (mkPoint 0 0) [1; 3; 2] true [] [docked_area; example_area 2 800] [] 3 [].

Lemma example_wm_surfaces : surfaces_of example_wm = sh_surfaces example_shell.
Proof. unfold surfaces_of, example_wm. cbn [wm_shell]. reflexivity. Qed.

Lemma docked_surfaces streams : surfaces_of (docked streams) = surfaces_of example_wm.
Proof. unfold surfaces_of, docked. cbn [wm_shell]. reflexivity. Qed.

Lemma docked_forest streams : forest (docked streams).
Proof.
  apply (forest_keep example_wm); [|by rewrite docked_surfaces|apply example_wm_forest].
  intros w. unfold docked, example_wm. cbn [window_info].
  destruct (decide (w = 1)) as [->|]; [done|]. destruct (decide (w = 2)) as [->|]; [done|]. destruct (decide (w = 3)) as [->|]; [done|].
  rewrite !lookup_insert_ne by congruence. by rewrite !lookup_singleton_ne by congruence.
Qed.

Lemma docked_child streams p c : child_rel (docked streams) p c -> p = 1 /\ c = 2.
Proof.
  intros (i & Hi & Hc). unfold docked in Hi. cbn [window_info] in Hi. rewrite !lookup_insert_Some, lookup_singleton_Some in Hi.
  naive_solver set_solver.
Qed.

Lemma docked_independent streams : independent (docked streams) [1; 3].
Proof.
  split; [repeat constructor; set_solver|]. split.
  - intros w [->|[->|Hw%not_elem_of_nil]%elem_of_cons]%elem_of_cons; [vm_compute; eauto..|done].
  - intros w w' Hw Hw' H. apply rtc_inv_r in H as [->|(p & _ & [-> ->]%docked_child)]; [done|]. set_solver.
Qed.

Lemma update_area_layout_witness :
  exists m', update_area canonical_confirm_inherited_move canonical_confirm_placement_on_display 3 0 (docked ∅) = Ret (tt, m') /\
    window_rect m' 3 = mkRectangle (mkPoint 0 0) (mkSize 800 80) /\
    window_rect m' 1 = mkRectangle (mkPoint 0 24) (mkSize 800 576).
Proof.
  destruct (update_area_layout (docked ∅) 3 0 docked_area
              [(3, mkRectangle (mkPoint 0 0) (mkSize 800 80)); (1, mkRectangle (mkPoint 0 24) (mkSize 800 576))]
              (mkRectangle (mkPoint 0 24) (mkSize 800 576))) as (m' & Hm' & Hp & _).
  - apply docked_forest.
  - apply (bool_decide_unpack _). reflexivity.
  - reflexivity.
  - apply docked_independent.
  - vm_compute. reflexivity.
  - repeat constructor.
  - exists m'. split; [exact Hm'|]. inversion Hp as [|? ? H1 Hp']; subst. inversion Hp' as [|? ? H2 _]; subst. split; [exact H1|exact H2].
Defined.

Lemma exclusive_zone_pixels_witness :
  apply_exclusive_rect_to_application_zone (mkRectangle (mkPoint 0 0) (mkSize 800 600)) (mkRectangle (mkPoint 0 0) (mkSize 800 24)) panel_edges
    = mkRectangle (mkPoint 0 24) (mkSize 800 576) /\
  ~ covers (apply_exclusive_rect_to_application_zone (mkRectangle (mkPoint 0 0) (mkSize 800 600))
              (mkRectangle (mkPoint 0 0) (mkSize 800 24)) panel_edges) (mkPoint 5 10).
Proof.
  split; [reflexivity|].
  apply (exclusive_zone_pixels (mkRectangle (mkPoint 0 0) (mkSize 800 600)) (mkRectangle (mkPoint 0 0) (mkSize 800 24)) panel_edges (mkPoint 5 10)).
  all: try (vm_compute; split; congruence). all: try (vm_compute; congruence).
  apply (bool_decide_unpack _). reflexivity.
Defined.

(** Window 3 is maximized and has not drawn anything yet. *)
Definition unposted_area : DisplayArea := (example_area 1 0) <| da_attached_windows := [3] |>.
Definition unposted_info : WindowInfo := example_info <| wi_state := mir_window_state_maximized |>.
Definition unposted : WM :=
  mkWM (mkShell (alter (fun s => s <| sf_state := mir_window_state_maximized |>) 3 (sh_surfaces example_shell))
          ∅ [10; 30] {[10 := [1; 2]; 30 := [3]]} None None None None [])
    ∅ (wm_applications example_wm) (app_info example_wm) (<[3 := unposted_info]> (window_info example_wm))
    [] (mkPoint 0 0) [] true [] [unposted_area] [] 2 [].

Lemma unposted_surfaces :
  surfaces_of unposted = alter (fun s => s <| sf_state := mir_window_state_maximized |>) 3 (sh_surfaces example_shell).
Proof. unfold surfaces_of, unposted. cbn [wm_shell sh_surfaces]. reflexivity. Qed.

Lemma unposted_infos : window_info unposted = <[3 := unposted_info]> (window_info example_wm).
Proof. unfold unposted. cbn [window_info]. reflexivity. Qed.

Lemma example_wm_family_3 : family <$> window_info example_wm !! 3 = Some (family unposted_info).
Proof. unfold example_wm. cbn [window_info]. reflexivity. Qed.

Lemma unposted_forest : forest unposted.
Proof.
  apply (forest_keep example_wm); [| |apply example_wm_forest].
  - intros w. rewrite unposted_infos. destruct (decide (w = 3)) as [->|]; [|by rewrite lookup_insert_ne].
    by rewrite lookup_insert_eq, example_wm_family_3.
  - intros w. rewrite example_wm_surfaces, unposted_surfaces, <-!elem_of_dom, dom_alter_L. tauto.
Qed.

Lemma unposted_coherent : coherent unposted.
Proof.
  intros w i s. rewrite unposted_infos, unposted_surfaces. destruct (decide (w = 3)) as [->|Hw].
  - rewrite lookup_insert_eq, lookup_alter_eq. intros [= <-] (s0 & _ & ->)%fmap_Some. reflexivity.
  - rewrite lookup_insert_ne, lookup_alter_ne by congruence. rewrite <-example_wm_surfaces. apply (wm_coherent _ example_wm_ok).
Qed.

Lemma unposted_ok : wm_ok unposted.
Proof.
  split; [apply unposted_forest|apply unposted_coherent|]. unfold unposted. cbn [mru_active_windows]. set_solver.
Qed.

Lemma select_unposted_fatal_witness :
  (exists m', select_active_window 2 (Some 3) unposted = Ret (Some 3, m') /\ active_window m' = Some 3) /\
  (select_active_window 2 (Some 3);;
   update_windows_for_outputs canonical_confirm_inherited_move canonical_confirm_placement_on_display 3) unposted = Throw fatal_error.
Proof.
  split; [|vm_compute; reflexivity].
  destruct (select_unposted_fatal unposted 1 0 3 unposted_info unposted_area) as (m' & Hm' & Hact & _).
  - apply unposted_ok.
  - rewrite unposted_infos. apply lookup_insert_eq.
  - reflexivity.
  - reflexivity.
  - vm_compute. reflexivity.
  - intros (c & ci & (i & Hi & Hc) & _). rewrite unposted_infos, lookup_insert_eq in Hi. injection Hi as <-.
    apply not_elem_of_nil in Hc. exact Hc.
  - unfold unposted. cbn [display_areas]. reflexivity.
  - apply list_elem_of_singleton. reflexivity.
  - exists m'. split; [exact Hm'|exact Hact].
Defined.
