(* ===== verification/WmRequests.v ===== *)
(** * miral::BasicWindowManager: requests of clients

    Changing a window at the request of its client or of the shell
    ([modify_window]), the placement that goes with a change of state
    ([place_and_size_for_state]) and the placement of new windows
    ([place_new_surface]) ([src/miral/basic_window_manager.cpp]). *)
From S2P Require Import Prelude Geometry Schedule BufferStream Occlusion WindowInfo Placement Surface Sessions Shell.
From S2P Require Import WmState WmTree WmFocus WmOutputs.

(** ** Applying a specification *)
(** [COPY_IF_SET] with the setters of [WindowInfo]. *)
Definition copy_if_set {A} (o : option A) (set : WindowInfo -> A -> WindowInfo) (i : WindowInfo) : WindowInfo :=
  match o with Some v => set i v | None => i end.

Definition apply_modifications (mods : WindowSpecification) (i0 : WindowInfo) : WindowInfo :=
  let i := copy_if_set (sp_name mods) (fun i v => i <| wi_name := v |>) i0 in
  let i := copy_if_set (sp_type mods) (fun i v => i <| wi_type := v |>) i in
  let i := copy_if_set (sp_min_width mods) set_min_width i in
  let i := copy_if_set (sp_min_height mods) set_min_height i in
  let i := copy_if_set (sp_max_width mods) set_max_width i in
  let i := copy_if_set (sp_max_height mods) set_max_height i in
  let i := copy_if_set (sp_width_inc mods) (fun i v => i <| wi_width_inc := v |>) i in
  let i := copy_if_set (sp_height_inc mods) (fun i v => i <| wi_height_inc := v |>) i in
  let i := copy_if_set (sp_min_aspect mods) set_min_aspect i in
  let i := copy_if_set (sp_max_aspect mods) set_max_aspect i in
  let i := copy_if_set (sp_output_id mods) (fun i v => i <| wi_output_id := Some v |>) i in
  let i := copy_if_set (sp_preferred_orientation mods) (fun i v => i <| wi_preferred_orientation := v |>) i in
  let i := copy_if_set (sp_confine_pointer mods) (fun i v => i <| wi_confine_pointer := v |>) i in
  let i := copy_if_set (sp_userdata mods) (fun i v => i <| wi_userdata := Some v |>) i in
  let i := copy_if_set (sp_shell_chrome mods) (fun i v => i <| wi_shell_chrome := v |>) i in
  let i := copy_if_set (sp_depth_layer mods) (fun i v => i <| wi_depth_layer := v |>) i in
  let i := copy_if_set (sp_attached_edges mods) (fun i v => i <| wi_attached_edges := v |>) i in
  copy_if_set (sp_exclusive_rect mods) (fun i v => i <| wi_exclusive_rect := v |>) i.

(** The restore rectangle was stored at the last change of state: the
    coordinates the window is free to change in its state are taken from where
    it is now. *)
Definition refreshed_restore_rect (state : MirWindowState) (window restore_rect : Rectangle) : Rectangle :=
  match state with
  | mir_window_state_restored | mir_window_state_hidden => window
  | mir_window_state_vertmaximized =>
      mkRectangle (mkPoint (px (top_left window)) (py (top_left restore_rect)))
                  (mkSize (width (r_size window)) (height (r_size restore_rect)))
  | mir_window_state_horizmaximized =>
      mkRectangle (mkPoint (px (top_left restore_rect)) (py (top_left window)))
                  (mkSize (width (r_size restore_rect)) (height (r_size window)))
  | _ => restore_rect
  end.

(** The type of the window is to change: may it, and what becomes of the
    parent. *)
Definition morph (old tmp : WindowInfo) (mods : WindowSpecification) : outcome WindowInfo :=
  if bool_decide (wi_type old = wi_type tmp) then Ret tmp
  else if negb (can_morph_to (wi_type old) (wi_type tmp)) then Throw (runtime_error "Unsupported window type change")
  else if must_not_have_parent (wi_type tmp) then
    if bool_decide (is_Some (sp_parent mods)) then Throw (runtime_error "Target window type does not support parent")
    else Ret (tmp <| wi_parent := None |>)
  else if must_have_parent (wi_type tmp) then
    if bool_decide (wi_parent tmp = None) then Throw (runtime_error "Target window type requires parent") else Ret tmp
  else Ret tmp.

Definition is_set {A} (o : option A) : bool := match o with Some _ => true | None => false end.

(** Whether the application zones have to be computed again. *)
Definition zones_need_update (old : WindowInfo) (mods : WindowSpecification) : bool :=
  (bool_decide (wi_state old = mir_window_state_attached) || bool_decide (sp_state mods = Some mir_window_state_attached))
  && (is_set (sp_state mods) || is_set (sp_size mods) || is_set (sp_attached_edges mods) || is_set (sp_exclusive_rect mods)).

Definition lift {A} (o : outcome A) : M A := fun m => match o with Ret a => Ret (a, m) | Throw e => Throw e end.

Definition when_set {A} (o : option A) (body : A -> M unit) : M unit :=
  match o with Some v => body v | None => mret tt end.

(** The content of a window's surface. *)
Definition content_area (s : Surface) : Rectangle :=
  mkRectangle (point_add (top_left (sf_rect s)) (content_offset s)) (content_size s).

Section Requests.
Context (confirm_inherited_move : WM -> Window -> Displacement -> Rectangle).
Context (confirm_placement_on_display : WM -> Window -> MirWindowState -> Rectangle -> Rectangle).
Context (fuel : nat).

Notation place := (place_and_size confirm_inherited_move fuel).

(** ** place_and_size_for_state *)
(** A full-screen request for another output is never redundant. *)
Definition state_request_applies (mods : WindowSpecification) (i : WindowInfo) (new_state : MirWindowState) : bool :=
  let redundant := bool_decide (new_state = wi_state i) in
  match new_state with
  | mir_window_state_fullscreen =>
      match sp_output_id mods with
      | Some o => bool_decide (wi_output_id i <> Some o) || negb redundant
      | None => negb redundant
      end
  | _ => negb redundant
  end.

Definition place_and_size_for_state (m : WM) (mods : WindowSpecification) (w : Window) (i : WindowInfo) : WindowSpecification :=
  match sp_state mods with
  | None => mods
  | Some new_state =>
      if negb (state_request_applies mods i new_state) then mods
      else
        let refreshed := refreshed_restore_rect (wi_state i) (window_rect m w) (wi_restore_rect i) in
        let restore := mkRectangle (default (top_left refreshed) (sp_top_left mods)) (default (r_size refreshed) (sp_size mods)) in
        let display_area := display_area_for m w i in
        let zone := zone_extents (da_application_zone display_area) in
        let place_at rect := mods <| sp_top_left := Some (top_left rect) |> <| sp_size := Some (r_size rect) |> in
        let confirm := confirm_placement_on_display m w new_state in
        match new_state with
        | mir_window_state_restored => place_at restore
        | mir_window_state_maximized => place_at (confirm zone)
        | mir_window_state_horizmaximized =>
            place_at (confirm (mkRectangle (mkPoint (left zone) (top restore)) (mkSize (width (r_size zone)) (height (r_size restore)))))
        | mir_window_state_vertmaximized =>
            place_at (confirm (mkRectangle (mkPoint (left restore) (top zone)) (mkSize (width (r_size restore)) (height (r_size zone)))))
        | mir_window_state_fullscreen => place_at (confirm (da_area display_area))
        | _ => mods
        end
  end.

(** ** modify_window *)
(** The parent that the specification asks for; a parent that is gone is
    none. *)
Definition requested_parent (mods : WindowSpecification) (tmp : WindowInfo) : M WindowInfo :=
  match sp_parent mods with
  | None => mret tmp
  | Some p =>
      parent ← gets (fun m => lock (surfaces_of m) p);
      match parent with
      | Some pw => pi ← info_for pw; mret (tmp <| wi_parent := wi_window pi |>)
      | None => mret (tmp <| wi_parent := None |>)
      end
  end.

Definition reparent (w : Window) (old new : option Window) : M unit :=
  if bool_decide (old = new) then mret tt
  else
    when_set old (fun p => info_for p;; set_info p (fun i => remove_child i w));;
    when_set new (fun p => info_for p;; set_info p (fun i => add_child i w)).

(** Position and size, by the parts of the specification that are set. *)
Definition modify_placement (w : Window) (mods : WindowSpecification) : M unit :=
  rect ← gets (fun m => window_rect m w);
  let new_pos := default (top_left rect) (sp_top_left mods) in
  match sp_size mods with
  | Some size => place w new_pos size
  | None =>
      if is_set (sp_min_width mods) || is_set (sp_min_height mods) || is_set (sp_max_width mods)
         || is_set (sp_max_height mods) || is_set (sp_width_inc mods) || is_set (sp_height_inc mods) then
        info ← info_for w;
        constrained ← lift (constrain_resize info rect (mkRectangle new_pos (r_size rect)));
        place w (top_left constrained) (r_size constrained)
      else if is_set (sp_top_left mods) then place w new_pos (r_size rect)
      else mret tt
  end.

(** The relative placement of a child; the surface tells its observers. *)
Definition modify_relative_placement (w : Window) (mods : WindowSpecification) : M unit :=
  if is_set (sp_placement_hints mods) then
    info ← info_for w;
    when_set (wi_parent info) (fun parent =>
      parent_surface ← gets (fun m => surfaces_of m !! parent);
      match parent_surface with
      | None => throw null_dereference
      | Some ps =>
          area ← active_display_area;
          size ← gets (fun m => window_size m w);
          new_pos ← lift (place_relative (da_area area) (content_area ps) mods size);
          when_set new_pos (fun r => place w (top_left r) (r_size r));;
          with_surface w (fun s => (s, []))
      end)
  else mret tt.

Definition modify_window (w : Window) (mods : WindowSpecification) : M unit :=
  old ← info_for w;
  when_set (sp_application_id mods) (fun id => change_surface w (fun s => set_application_id s id));;
  tmp ← requested_parent mods (apply_modifications mods old);
  new ← lift (morph old tmp mods);
  set_info w (fun _ => new);;
  when_set (sp_depth_layer mods) (set_tree_depth_layer fuel w);;
  (if bool_decide (wi_type new <> wi_type old)
   then configure_surface w mir_window_attrib_type (enum_index window_types (wi_type new)) else mret tt);;
  reparent w (wi_parent old) (wi_parent new);;
  when_set (sp_name mods) (fun name => with_surface w (fun s => surface_rename s name));;
  when_set (sp_input_shape mods) (fun shape => with_surface w (fun s => set_input_region s shape));;
  when_set (sp_state mods) (fun state =>
    if bool_decide (wi_state new <> state) then
      rect ← gets (fun m => window_rect m w);
      set_info w (fun i => i <| wi_restore_rect := refreshed_restore_rect (wi_state i) rect (wi_restore_rect i) |>)
    else mret tt);;
  modify_placement w mods;;
  modify_relative_placement w mods;;
  match sp_state mods with
  | Some state => set_state fuel w state
  | None =>
      when_set (sp_output_id mods) (fun _ =>
        info ← info_for w; update_attached_and_fullscreen_sets w info (wi_state info))
  end;;
  (if zones_need_update old mods || (negb (is_set (sp_state mods)) && is_set (sp_output_id mods))
   then update_windows_for_outputs confirm_inherited_move confirm_placement_on_display fuel else mret tt);;
  when_set (sp_confine_pointer mods) (fun c => with_surface w (fun s => set_confine_pointer_state s c)).

(** A request of the client; the policy modifies the window as it is asked
    ([CanonicalWindowManagerPolicy::handle_modify_window]). *)
Definition modify_surface (w : Window) (mods : WindowSpecification) : M unit :=
  known ← gets (fun m => bool_decide (is_Some (window_info m !! w)));
  if negb known then mret tt
  else
    info ← info_for w;
    lift (validate_modification_request mods info);;
    mods' ← gets (fun m => place_and_size_for_state m mods w info);
    modify_window w mods'.

(** ** place_new_surface *)
(** [0.5*(as_displacement(a) - as_displacement(b))] centres; a sixth of the
    difference in height is taken off. *)
Definition optically_centred (area : Rectangle) (size : Size) : Point :=
  let dw := width (r_size area) - width size in
  let dh := height (r_size area) - height size in
  mkPoint (px (top_left area) + half dw) (py (top_left area) + half dh - Z.quot dh 6).

Definition place_in_area (outputs : list Rectangle) (display_area : DisplayArea) (params : WindowSpecification)
    (state : MirWindowState) (size : Size) : WindowSpecification :=
  let zone := zone_extents (da_application_zone display_area) in
  let centred := optically_centred zone size in
  let '(tl, sz) :=
    match state with
    | mir_window_state_fullscreen => (top_left (da_area display_area), r_size (da_area display_area))
    | mir_window_state_maximized => (top_left zone, r_size zone)
    | mir_window_state_vertmaximized => (mkPoint (px centred) (py (top_left zone)), mkSize (width size) (height (r_size zone)))
    | mir_window_state_horizmaximized => (mkPoint (px (top_left zone)) (py centred), mkSize (width (r_size zone)) (height size))
    | _ => (centred, size)
    end in
  let y := py (top_left (bounding_rectangle outputs)) in
  params <| sp_top_left := Some (if py tl <? y then mkPoint (px tl) y else tl) |> <| sp_size := Some sz |>.

Definition place_new_surface (params : WindowSpecification) : M WindowSpecification :=
  let params := params <| sp_type := Some (default mir_window_type_normal (sp_type params)) |>
                       <| sp_state := Some (default mir_window_state_restored (sp_state params)) |> in
  on_requested ← gets (fun m => find_if (on_output (sp_output_id params)) (display_areas m));
  display_area ← match on_requested with Some a => mret a | None => active_display_area end;
  size ← lift (value (sp_size params));
  state ← lift (value (sp_state params));
  parent_surface ← gets (fun m => match sp_parent params with Some p => lock (surfaces_of m) p | None => None end);
  positioned ←
    match parent_surface with
    | None => mret None
    | Some p =>
        if is_set (sp_aux_rect params) && is_set (sp_placement_hints params) then
          surface ← gets (fun m => surfaces_of m !! p);
          match surface with
          | None => throw null_dereference
          | Some ps =>
              area ← active_display_area;
              position ← lift (place_relative (da_area area) (content_area ps) params size);
              mret ((fun r => params <| sp_top_left := Some (top_left r) |> <| sp_size := Some (r_size r) |>) <$> position)
          end
        else
          info_for p;;
          rect ← gets (fun m => window_rect m p);
          mret (Some (params <| sp_top_left := Some (optically_centred rect size) |>))
    end;
  match positioned with
  | Some result => mret result
  | None => gets (fun m => place_in_area (outputs m) display_area params state size)
  end.
End Requests.

(** ** Changing the state of a window on view *)
Lemma configure_state w st m s :
  surfaces_of m !! w = Some s ->
  exists s' ev, configure_surface w mir_window_attrib_state (state_value st) m
      = Ret (tt, put_surface w s' ev (m <| wm_streams := wm_streams m |>)) /\
    sf_state s' = st /\ sf_rect s' = sf_rect s.
Proof.
  intros Hs. unfold configure_surface. rewrite Hs. unfold configure, surface_set_state.
  assert (enum_of window_states (state_value st) = Some st) as -> by (by destruct st). cbv beta iota.
  case_bool_decide as Hst; cbn [mbind outcome_bind]; eexists _, _; (split; [reflexivity|]); [done|].
  split; [|done]. symmetry. by destruct (decide (st = sf_state s)).
Qed.

(** Nothing but the surfaces and the lists of attached and full-screen windows
    changes. *)
Lemma update_sets_spec w i st m :
  exists m', update_attached_and_fullscreen_sets w i st m = Ret (tt, m') /\ window_info m' = window_info m /\
    wm_shell m' = wm_shell m /\ wm_streams m' = wm_streams m /\ mru_active_windows m' = mru_active_windows m /\
    allow_active_window m' = allow_active_window m.
Proof.
  unfold update_attached_and_fullscreen_sets. erewrite M_bind_eq by reflexivity.
  match goal with |- context [match st with _ => _ end ?x] => set (m1 := x) end.
  destruct st; cbn [attaches]; eexists; (split; [reflexivity|]); try done; by destruct (display_area_index m1 w i).
Qed.

Lemma window_rect_surfaces m m' w : sf_rect <$> surfaces_of m' !! w = sf_rect <$> surfaces_of m !! w -> window_rect m' w = window_rect m w.
Proof.
  intros H. unfold window_rect, window_top_left, window_size.
  destruct (surfaces_of m' !! w), (surfaces_of m !! w); try done. by injection H as ->.
Qed.

(** What a window keeps when its state changes. *)
Definition state_changed (m : WM) (w : Window) (st : MirWindowState) (m' : WM) : Prop :=
  window_info m' = alter (fun i => i <| wi_state := st |>) w (window_info m) /\
  (forall x, window_rect m' x = window_rect m x).

Lemma set_state_shown fuel w st m i :
  wm_ok m -> window_info m !! w = Some i -> hides (wi_state i) = false -> hides st = false -> wi_state i <> st ->
  exists m', set_state fuel w st m = Ret (tt, m') /\ wm_ok m' /\ state_changed m w st m'.
Proof.
  intros Hok Hi Hh Hst Hne. destruct (forest_surface m (wm_forest m Hok) w) as [s Hs]; [eauto|].
  unfold set_state. rewrite (M_bind_eq _ _ _ _ _ (info_for_known w m i Hi)).
  destruct (update_sets_spec w i st m) as (m1 & E1 & Hinfo1 & Hsh1 & Hstr1 & Hmru1 & Hal1).
  rewrite (M_bind_eq _ _ _ _ _ E1), bool_decide_false by done. cbv zeta.
  erewrite M_bind_eq by reflexivity. rewrite Hst. erewrite M_bind_eq by reflexivity. erewrite M_bind_eq by reflexivity.
  match goal with |- context [(_ ≫= _) ?x = _] => set (m2 := x) end.
  assert (Hs2 : surfaces_of m2 !! w = Some s) by (unfold surfaces_of, m2; cbn; by rewrite Hsh1).
  destruct (configure_state w st m2 s Hs2) as (s' & ev & Ec & Hstate & Hrect).
  rewrite (M_bind_eq _ _ _ _ _ Ec). unfold with_surface at 1. erewrite M_bind_eq by (rewrite put_surface_surfaces, lookup_insert_eq; reflexivity).
  rewrite Hh. cbn [andb]. eexists. split; [reflexivity|].
  match goal with |- wm_ok ?x /\ _ => set (m3 := x) end.
  assert (Hsurf : surfaces_of m3 = <[w := fst (show s')]> (surfaces_of m)).
  { unfold m3. rewrite !put_surface_surfaces, insert_insert_eq. f_equal. unfold surfaces_of, m2. cbn. by rewrite Hsh1. }
  assert (Hinfo : window_info m3 = alter (fun i => i <| wi_state := st |>) w (window_info m)) by (unfold m3, m2; cbn; by rewrite Hinfo1).
  assert (Hmru : mru_active_windows m3 = mru_active_windows m) by exact Hmru1. clearbody m3.
  split; [split|split; [done|]].
  - apply (forest_keep m); [intros x; rewrite Hinfo; apply alter_state_family| |apply Hok]. intros x Hx. rewrite Hsurf.
    by apply lookup_insert_is_Some'; auto.
  - intros x ix sx. rewrite Hinfo, Hsurf. destruct (decide (x = w)) as [->|Hx].
    + rewrite lookup_alter_eq, lookup_insert_eq, Hi. by intros [= <-] [= <-].
    + rewrite lookup_alter_ne, lookup_insert_ne by done. apply (wm_coherent m Hok).
  - intros x. rewrite Hmru, Hinfo, lookup_alter_is_Some. apply (wm_mru m Hok).
  - intros x. apply window_rect_surfaces. rewrite Hsurf. destruct (decide (x = w)) as [->|Hx].
    + rewrite lookup_insert_eq, Hs. cbn. by rewrite Hrect.
    + by rewrite lookup_insert_ne.
Qed.

(** ** Maximize and restore *)
Notation canonical_modify_window := (modify_window canonical_confirm_inherited_move canonical_confirm_placement_on_display).
Notation canonical_modify_surface := (modify_surface canonical_confirm_inherited_move canonical_confirm_placement_on_display).

Definition request (st : MirWindowState) : WindowSpecification := spec_empty <| sp_state := Some st |>.
Definition request_at (st : MirWindowState) (r : Rectangle) : WindowSpecification :=
  (request st) <| sp_top_left := Some (top_left r) |> <| sp_size := Some (r_size r) |>.

Lemma set_info_same w i m : window_info m !! w = Some i -> set_info w (fun _ => i) m = Ret (tt, m).
Proof.
  intros Hi. unfold set_info, modify. do 2 f_equal. destruct m. unfold assign. cbn in *. f_equal.
  apply alter_id. intros x Hx. congruence.
Qed.

(** The invariant reads the families and the states of the windows only. *)
Definition vital (i : WindowInfo) : option Window * list Window * MirWindowState := (family i, wi_state i).

Lemma wm_ok_infos m infos :
  wm_ok m -> (forall x, vital <$> infos !! x = vital <$> window_info m !! x) -> wm_ok (m <| window_info := infos |>).
Proof.
  intros [Hf Hc Hm] Hl. split.
  - apply (forest_keep m); [|done|done]. intros x. specialize (Hl x).
    apply (f_equal (fmap fst)) in Hl. rewrite <-!option_fmap_compose in Hl. exact Hl.
  - intros x xi s Hx Hs. specialize (Hl x). cbn in Hx. rewrite Hx in Hl. destruct (window_info m !! x) as [j|] eqn:Ej; [|done].
    injection Hl as _ _ E. rewrite E. by apply (Hc x j).
  - intros x [j Hj]%Hm. specialize (Hl x). rewrite Hj in Hl. apply fmap_Some in Hl as (? & ? & _). cbn. eauto.
Qed.

(** Storing the restore rectangle. *)
Lemma set_restore_rect_ok w r m :
  wm_ok m -> wm_ok (m <| window_info := alter (fun i => i <| wi_restore_rect := r i |>) w (window_info m) |>).
Proof.
  intros Hok. apply wm_ok_infos; [done|]. intros x.
  destruct (decide (x = w)) as [->|Hx]; [rewrite lookup_alter_eq|by rewrite lookup_alter_ne]. by destruct (window_info m !! w).
Qed.

(** A request with a place and a state that shows the window. *)
Lemma modify_window_state fuel m w i st r :
  wm_ok m -> window_info m !! w = Some i -> (size (window_info m) <= fuel)%nat -> positive (r_size r) ->
  hides (wi_state i) = false -> hides st = false -> wi_state i <> st ->
  wi_state i <> mir_window_state_attached -> st <> mir_window_state_attached ->
  exists m', canonical_modify_window fuel w (request_at st r) m = Ret (tt, m') /\ wm_ok m' /\
    window_rect m' w = r /\ size (window_info m') = size (window_info m) /\
    window_info m' !! w = Some (i <| wi_restore_rect := refreshed_restore_rect (wi_state i) (window_rect m w) (wi_restore_rect i) |>
                                  <| wi_state := st |>).
Proof.
  intros Hok Hi Hfuel Hpos Hh Hst Hne Hna Hsta. unfold modify_window.
  rewrite (M_bind_eq _ _ _ _ _ (info_for_known w m i Hi)). erewrite M_bind_eq by reflexivity.
  rewrite (M_bind_eq _ _ m i m) by reflexivity.
  rewrite (M_bind_eq _ _ m i m) by (unfold lift, morph; by rewrite bool_decide_true).
  rewrite (M_bind_eq _ _ _ _ _ (set_info_same w i m Hi)). erewrite M_bind_eq by reflexivity.
  rewrite (bool_decide_false (wi_type i <> wi_type i)) by (by intros []). erewrite M_bind_eq by reflexivity.
  rewrite (M_bind_eq _ _ m tt m) by (unfold reparent; by rewrite bool_decide_true).
  do 2 (erewrite M_bind_eq by reflexivity). cbn [when_set sp_state request_at request assign].
  rewrite (bool_decide_true (wi_state i <> st)) by done. erewrite M_bind_eq by reflexivity.
  set (keep := fun i => i <| wi_restore_rect := refreshed_restore_rect (wi_state i) (window_rect m w) (wi_restore_rect i) |>).
  set (m1 := m <| window_info := alter keep w (window_info m) |>).
  assert (Hok1 : wm_ok m1) by (by apply set_restore_rect_ok).
  assert (Hi1 : window_info m1 !! w = Some (keep i)) by (unfold m1; cbn; by rewrite lookup_alter_eq, Hi).
  assert (Hsz1 : size (window_info m1) = size (window_info m)) by (rewrite <-!size_dom; unfold m1; cbn; by rewrite dom_alter_L).
  destruct (canonical_place_spec m1 fuel w (top_left r) (r_size r)) as (m2 & E2 & Hsame2 & Hf2 & Hr2 & _ & Hst2);
    [apply Hok1|eauto|lia|done|].
  assert (Hmp : modify_placement canonical_confirm_inherited_move fuel w (request_at st r) m1 = Ret (tt, m2)) by exact E2.
  rewrite (M_bind_eq _ _ _ _ _ Hmp). erewrite M_bind_eq by reflexivity.
  pose proof (same_manager_info _ _ Hsame2) as Hinfo2.
  assert (Hmru2 : mru_active_windows m2 = mru_active_windows m1) by (unfold same_manager in Hsame2; by rewrite <-Hsame2).
  assert (Hok2 : wm_ok m2).
  { split; [done| |intros x; rewrite Hinfo2, Hmru2; apply (wm_mru m1 Hok1)]. intros x ix sx Hx Hs. pose proof (unplaced_lookup sf_state m1 m2 x ltac:(done) (Hst2 x)) as Hstx.
    rewrite Hinfo2 in Hx. rewrite Hs in Hstx. destruct (surfaces_of m1 !! x) as [s1|] eqn:Es1; [|done].
    injection Hstx as E. rewrite E. by apply (wm_coherent m1 Hok1 x). }
  destruct (set_state_shown fuel w st m2 (keep i)) as (m3 & E3 & Hok3 & Hinfo3 & Hrect3); [done|by rewrite Hinfo2|done..|].
  rewrite (M_bind_eq _ _ _ _ _ E3).
  assert (Hz : zones_need_update i (request_at st r) = false).
  { unfold zones_need_update. rewrite (bool_decide_false (wi_state i = _)) by done.
    rewrite (bool_decide_false (sp_state (request_at st r) = _)) by (cbn; congruence). done. }
  rewrite Hz. erewrite M_bind_eq by reflexivity. exists m3. split; [reflexivity|]. split; [done|].
  split; [rewrite Hrect3, Hr2; by destruct r|]. split.
  - by rewrite Hinfo3, <-size_dom, dom_alter_L, size_dom, Hinfo2.
  - by rewrite Hinfo3, lookup_alter_eq, Hinfo2, Hi1.
Qed.

(** Where a window goes that fills its display area. *)
Definition filling (st : MirWindowState) (zone area window : Rectangle) : option Rectangle :=
  match st with
  | mir_window_state_maximized => Some zone
  | mir_window_state_horizmaximized =>
      Some (mkRectangle (mkPoint (left zone) (top window)) (mkSize (width (r_size zone)) (height (r_size window))))
  | mir_window_state_vertmaximized =>
      Some (mkRectangle (mkPoint (left window) (top zone)) (mkSize (width (r_size window)) (height (r_size zone))))
  | mir_window_state_fullscreen => Some area
  | _ => None
  end.

Lemma modify_surface_known fuel w mods m i :
  window_info m !! w = Some i -> validate_modification_request mods i = Ret tt ->
  canonical_modify_surface fuel w mods m
  = canonical_modify_window fuel w (place_and_size_for_state canonical_confirm_placement_on_display m mods w i) m.
Proof.
  intros Hi Hv. unfold modify_surface. erewrite M_bind_eq by reflexivity. rewrite Hi, bool_decide_true by eauto. cbn [negb].
  rewrite (M_bind_eq _ _ _ _ _ (info_for_known w m i Hi)).
  rewrite (M_bind_eq _ _ m tt m) by (unfold lift; by rewrite Hv). by erewrite M_bind_eq by reflexivity.
Qed.

(** C35: filling a display area and restoring is a round trip.  A restored window
    whose client asks for it to be maximized (horizontally, vertically or in
    both directions) or shown full screen fills its application zone or its
    display area accordingly, and when the client asks for it to be restored it
    has exactly the position and size it had before. *)
Theorem fill_restore_roundtrip (m : WM) (fuel : nat) (w : Window) (i : WindowInfo) (st : MirWindowState) (r : Rectangle) :
  wm_ok m -> window_info m !! w = Some i -> (size (window_info m) <= fuel)%nat ->
  wi_state i = mir_window_state_restored -> validate_modification_request spec_empty i = Ret tt ->
  positive (window_size m w) ->
  filling st (zone_extents (da_application_zone (display_area_for m w i))) (da_area (display_area_for m w i)) (window_rect m w)
    = Some r -> positive (r_size r) ->
  exists m1 m2,
    canonical_modify_surface fuel w (request st) m = Ret (tt, m1) /\
    window_rect m1 w = r /\ wi_state <$> window_info m1 !! w = Some st /\
    canonical_modify_surface fuel w (request mir_window_state_restored) m1 = Ret (tt, m2) /\
    window_rect m2 w = window_rect m w /\ wi_state <$> window_info m2 !! w = Some mir_window_state_restored /\ wm_ok m2.
Proof.
  intros Hok Hi Hfuel Hrest Hv Hpos Hr Hrpos.
  assert (Hst : hides st = false /\ st <> mir_window_state_restored /\ st <> mir_window_state_attached) by (by destruct st).
  destruct Hst as (Hh & Hne & Hna).
  assert (E1 : place_and_size_for_state canonical_confirm_placement_on_display m (request st) w i = request_at st r).
  { unfold place_and_size_for_state, state_request_applies. cbn [sp_state request assign]. rewrite Hrest.
    destruct st; try discriminate Hr; injection Hr as <-; reflexivity. }
  destruct (modify_window_state fuel m w i st r Hok Hi Hfuel Hrpos) as (m1 & M1 & Hok1 & Hr1 & Hsz1 & Hi1);
    [by rewrite Hrest|done|congruence|by rewrite Hrest|done|].
  rewrite Hrest in Hi1. cbn [refreshed_restore_rect] in Hi1.
  set (i1 := i <| wi_restore_rect := window_rect m w |> <| wi_state := st |>) in Hi1.
  assert (Hback : refreshed_restore_rect st r (window_rect m w) = window_rect m w).
  { destruct (window_rect m w) as [[? ?] [? ?]]. destruct st; try discriminate Hr; injection Hr as <-; reflexivity. }
  assert (E2 : place_and_size_for_state canonical_confirm_placement_on_display m1 (request mir_window_state_restored) w i1
               = request_at mir_window_state_restored (window_rect m w)).
  { unfold place_and_size_for_state. cbn [sp_state request assign]. unfold state_request_applies.
    change (wi_state i1) with st. rewrite bool_decide_false by done. cbn [negb].
    change (wi_restore_rect i1) with (window_rect m w). rewrite Hr1, Hback. by destruct (window_rect m w). }
  destruct (modify_window_state fuel m1 w i1 mir_window_state_restored (window_rect m w) Hok1 Hi1)
    as (m2 & M2 & Hok2 & Hr2 & _ & Hi2); [lia|done|done|done|done|done|done|].
  exists m1, m2. rewrite (modify_surface_known fuel w (request st) m i Hi Hv), E1.
  rewrite (modify_surface_known fuel w (request mir_window_state_restored) m1 i1 Hi1 Hv), E2, Hi1, Hi2. done.
Qed.

Lemma fill_restore_roundtrip_witness :
  exists m1 m2,
    canonical_modify_surface 3 1 (request mir_window_state_maximized) example_wm = Ret (tt, m1) /\
    window_rect m1 1 = mkRectangle (mkPoint 0 0) (mkSize 800 600) /\
    canonical_modify_surface 3 1 (request mir_window_state_restored) m1 = Ret (tt, m2) /\
    window_rect m2 1 = window_rect example_wm 1.
Proof.
  destruct (fill_restore_roundtrip example_wm 3 1 (example_info <| wi_children := [2] |>) mir_window_state_maximized
              (mkRectangle (mkPoint 0 0) (mkSize 800 600))) as (m1 & m2 & H1 & H2 & _ & H3 & H4 & _).
  - exact example_wm_ok.
  - reflexivity.
  - vm_compute. lia.
  - reflexivity.
  - reflexivity.
  - split; vm_compute; reflexivity.
  - vm_compute. reflexivity.
  - split; vm_compute; reflexivity.
  - exists m1, m2. split; [exact H1|]. split; [exact H2|]. split; [exact H3|exact H4].
Defined.

(** ** A window that becomes its own parent *)
Definition adopt (p : Window) : WindowSpecification := spec_empty <| sp_parent := Some (Some p) |>.

Lemma modify_own_parent fuel m w i :
  wm_ok m -> window_info m !! w = Some i -> wi_window i = Some w ->
  exists m', canonical_modify_window fuel w (adopt w) m = Ret (tt, m') /\
    window_info m' !! w = Some (add_child (i <| wi_parent := Some w |>) w) /\
    wm_shell m' = wm_shell m /\ wm_streams m' = wm_streams m.
Proof.
  intros Hok Hi Hw. pose proof (wm_forest m Hok) as Hf. destruct (forest_acyclic m Hf) as [rank Hr].
  assert (Hs : is_Some (surfaces_of m !! w)) by (apply (forest_surface m Hf); eauto).
  assert (Hp : forall p, wi_parent i = Some p -> p <> w /\ is_Some (window_info m !! p)).
  { intros p Hp. destruct (forest_parent m Hf w i p Hi Hp) as (pi & Hpi & Hc). split; [|eauto].
    intros ->. specialize (Hr w w (ex_intro _ pi (conj Hpi Hc))). lia. }
  unfold modify_window. rewrite (M_bind_eq _ _ _ _ _ (info_for_known w m i Hi)). erewrite M_bind_eq by reflexivity.
  set (new := i <| wi_parent := Some w |>).
  rewrite (M_bind_eq _ _ m new m).
  2: { unfold requested_parent. cbn [sp_parent adopt assign]. erewrite M_bind_eq by reflexivity.
       rewrite (proj2 (lock_Some _ _ w) (conj eq_refl Hs)).
       rewrite (M_bind_eq _ _ _ _ _ (info_for_known w m i Hi)), Hw. reflexivity. }
  rewrite (M_bind_eq _ _ m new m) by (unfold lift, morph; by rewrite bool_decide_true).
  erewrite M_bind_eq by reflexivity. erewrite M_bind_eq by reflexivity.
  rewrite (bool_decide_false (wi_type new <> wi_type i)) by (by intros []). erewrite M_bind_eq by reflexivity.
  set (m1 := m <| window_info := alter (fun _ => new) w (window_info m) |>).
  assert (Hrep : exists infos, reparent w (wi_parent i) (wi_parent new) m1 = Ret (tt, m1 <| window_info := infos |>) /\
            infos !! w = Some (add_child new w)).
  { unfold reparent. rewrite bool_decide_false by (intros E; destruct (Hp w); [by rewrite E|done]). cbn [wi_parent new assign when_set].
    destruct (wi_parent i) as [p|] eqn:Ep; cbn [when_set].
    - destruct (Hp p eq_refl) as [Hne [pi Hpi]].
      rewrite (M_bind_eq _ _ m1 tt (m1 <| window_info := alter (fun j => remove_child j w) p (window_info m1) |>)).
      2: { rewrite (M_bind_eq _ _ m1 pi m1); [done|]. apply info_for_known. unfold m1. cbn. by rewrite lookup_alter_ne. }
      erewrite M_bind_eq by (apply info_for_known; cbn; rewrite lookup_alter_ne, lookup_alter_eq, Hi by done; reflexivity).
      eexists. split; [reflexivity|]. cbn. by rewrite lookup_alter_eq, lookup_alter_ne, lookup_alter_eq, Hi by done.
    - erewrite M_bind_eq by reflexivity. erewrite M_bind_eq by (apply info_for_known; cbn; rewrite lookup_alter_eq, Hi; reflexivity).
      eexists. split; [reflexivity|]. cbn. by rewrite !lookup_alter_eq, Hi. }
  destruct Hrep as (infos & Erep & Hinfos). rewrite (M_bind_eq _ _ _ _ _ Erep).
  set (m2 := m1 <| window_info := infos |>). do 6 (rewrite (M_bind_eq _ _ m2 tt m2) by reflexivity).
  rewrite (M_bind_eq _ _ m2 tt m2).
  2: { unfold zones_need_update. cbn [is_set sp_state sp_size sp_attached_edges sp_exclusive_rect adopt spec_empty assign]. by rewrite andb_false_r. }
  eexists. split; [reflexivity|]. done.
Qed.

(** a client can make a dialog its own parent.  No check stops a request
    that names a window as its own parent: for every dialog on view without
    children the request is accepted and carried out, and from then on the
    recursions that raise the window's tree or select the window never end,
    however many calls they may nest. *)
Theorem own_parent_diverges (m : WM) (fuel : nat) (w : Window) (i : WindowInfo) :
  wm_ok m -> window_info m !! w = Some i -> wi_window i = Some w -> wi_type i = mir_window_type_dialog ->
  wi_children i = [] -> info_is_visible m w i = true ->
  exists m', canonical_modify_surface fuel w (adopt w) m = Ret (tt, m') /\
    forall f, tree_of f w m' = Throw out_of_fuel /\ raise_tree f w m' = Throw out_of_fuel /\
              select_active_window f (Some w) m' = Throw out_of_fuel.
Proof.
  intros Hok Hi Hw Ht Hc Hv. destruct (modify_own_parent fuel m w i Hok Hi Hw) as (m' & Hm' & Hi' & Hsh & Hstr).
  assert (Hs : is_Some (surfaces_of m' !! w)).
  { unfold surfaces_of. rewrite Hsh. apply (forest_surface m (wm_forest m Hok)). eauto. }
  exists m'. split.
  { rewrite (modify_surface_known fuel w (adopt w) m i Hi); [exact Hm'|]. unfold validate_modification_request. by rewrite Ht. }
  set (i' := add_child (i <| wi_parent := Some w |>) w) in Hi'.
  assert (Hc' : wi_children i' = [w]) by (unfold i'; cbn; by rewrite Hc).
  assert (Hvis : forall m'', wm_shell m'' = wm_shell m' -> wm_streams m'' = wm_streams m' -> info_is_visible m'' w i' = true).
  { intros m'' E1 E2. rewrite <-Hv. unfold info_is_visible, surfaces_of. by rewrite E1, E2, Hsh, Hstr. }
  assert (Hsel : forall f m'', window_info m'' = window_info m' -> wm_shell m'' = wm_shell m' -> wm_streams m'' = wm_streams m' ->
            select_active_window f (Some w) m'' = Throw out_of_fuel).
  { induction f as [|f IH]; intros m'' E1 E2 E3; [done|]. cbn [select_active_window]. erewrite M_bind_eq by reflexivity.
    rewrite (M_bind_eq _ _ m'' (Some w) m'') by (unfold gets, surfaces_of in *; rewrite E2; by rewrite (proj2 (lock_Some _ _ w) (conj eq_refl Hs))).
    erewrite M_bind_eq by reflexivity. rewrite bool_decide_true by eauto. fold (allowing m'').
    rewrite (M_bind_eq _ _ (allowing m'') i' (allowing m'')) by (apply info_for_known; cbn; by rewrite E1).
    rewrite Hc'. rewrite (M_bind_eq _ _ (allowing m'') (Some w) (allowing m'')); [by apply IH|].
    cbn [visible_dialog]. rewrite (M_bind_eq _ _ (allowing m'') i' (allowing m'')) by (apply info_for_known; cbn; by rewrite E1).
    erewrite M_bind_eq by reflexivity. rewrite (Hvis (allowing m'')) by done. by rewrite bool_decide_true by exact Ht. }
  intros f. split; [|split; [|by apply Hsel]].
  - induction f as [|f IH]; [done|]. cbn [tree_of]. rewrite (M_bind_eq _ _ _ _ _ (info_for_known w m' i' Hi')), Hc'.
    cbn [collect]. unfold mbind, M_bind. by rewrite IH.
  - induction f as [|f IH]; [done|]. cbn [raise_tree]. rewrite (M_bind_eq _ _ _ _ _ (info_for_known w m' i' Hi')).
    cbn [wi_parent i' add_child assign]. unfold mbind, M_bind. by rewrite IH.
Qed.

(** The dialog 2 of window 1, with its own identity. *)
Definition example_dialog : WindowInfo :=
  example_info <| wi_window := Some 2 |> <| wi_type := mir_window_type_dialog |> <| wi_parent := Some 1 |>.
Definition example_dialog_wm : WM := example_wm <| window_info := <[2 := example_dialog]> (window_info example_wm) |>.

Lemma example_dialog_wm_ok : wm_ok example_dialog_wm.
Proof.
  apply wm_ok_infos; [exact example_wm_ok|]. intros x. destruct (decide (x = 2)) as [->|Hx]; [reflexivity|].
  by rewrite lookup_insert_ne.
Qed.

Lemma own_parent_diverges_witness :
  exists m', canonical_modify_surface 3 2 (adopt 2) example_dialog_wm = Ret (tt, m') /\
    forall f, select_active_window f (Some 2) m' = Throw out_of_fuel.
Proof.
  destruct (own_parent_diverges example_dialog_wm 3 2 example_dialog) as (m' & Hm' & H).
  - exact example_dialog_wm_ok.
  - reflexivity.
  - reflexivity.
  - reflexivity.
  - reflexivity.
  - vm_compute. reflexivity.
  - exists m'. split; [exact Hm'|]. intros f. exact (proj2 (proj2 (H f))).
Defined.
