(* ===== verification/WmLifecycle.v ===== *)
(** * miral::BasicWindowManager: windows come and go

    Sessions and windows are added and removed, and the focus moves on when
    the active window is removed ([src/miral/basic_window_manager.cpp]). *)
From S2P Require Import Prelude Geometry Schedule BufferStream Occlusion WindowInfo Placement Surface Sessions Shell.
From S2P Require Import WmState WmTree WmFocus WmCycle WmOutputs WmRequests.

(** ** Sessions *)
Definition wm_add_session (s : Session) : M unit :=
  modify (fun m => m <| app_info := <[s := []]> (app_info m) |>);; advise (advise_new_app s).

Definition wm_remove_session (s : Session) : M unit :=
  known ← gets (fun m => bool_decide (is_Some (app_info m !! s)));
  if known : bool then
    advise (advise_delete_app s);; modify (fun m => m <| app_info := delete s (app_info m) |>)
  else mret tt.

(** ** Removal *)
(** [ApplicationSession::destroy_surface]: the session and the scene hold the
    surface, which lives no longer than that.  Every surface of a session has
    an entry in its [default_content_map]. *)
Definition destroy_surface (s : Session) (w : Window) : M unit := fun m =>
  let surfaces := default [] (sh_session_surfaces (wm_shell m) !! s) in
  if bool_decide (w ∈ surfaces) then
    Ret (tt, m <| wm_shell := (wm_shell m)
           <| sh_session_surfaces := <[s := erase_first w surfaces]> (sh_session_surfaces (wm_shell m)) |>
           <| sh_surfaces := delete w (surfaces_of m) |> |>)
  else Throw (runtime_error "Invalid surface").

Definition erase (w : Window) : M unit :=
  info ← info_for w;
  when_set (wi_parent info) (fun p => info_for p;; set_info p (fun i => remove_child i w));;
  for_each (wi_children info) (fun c => info_for c;; set_info c (fun i => i <| wi_parent := None |>));;
  modify (fun m => m <| window_info := delete w (window_info m) |>).

Section Lifecycle.
Context (confirm_inherited_move : WM -> Window -> Displacement -> Rectangle).
Context (confirm_placement_on_display : WM -> Window -> MirWindowState -> Rectangle -> Rectangle).
Context (steps fuel : nat).

(** Another window becomes active: the parent, then a recently used window of
    the application in a shared workspace, of any application in a shared
    workspace, of the application, of any application. *)
Definition refocus (application : option Session) (parent : option Window) (workspaces : list Z) : M unit :=
  parent ← gets (fun m => lock (surfaces_of m) parent);
  found ← match parent with Some _ => select_active_window fuel parent | None => mret None end;
  if bool_decide (is_Some found) then mret tt else
  found ← can_activate_window_for_session_in_workspace fuel application workspaces;
  if found : bool then mret tt else
  found ← activate_recent fuel (shares_workspace workspaces);
  if bool_decide (is_Some found) then mret tt else
  found ← can_activate_window_for_session fuel application;
  if found : bool then mret tt else
  found ← activate_recent fuel (fun _ _ => true);
  if bool_decide (is_Some found) then mret tt else
  focus_next_application steps fuel.

(** The lists that hold windows. *)
Definition forget_window (s : Session) (w : Window) (m : WM) : WM :=
  m <| app_info := alter (erase_first w) s (app_info m) |>
    <| mru_active_windows := mru_erase w (mru_active_windows m) |>
    <| fullscreen_surfaces := erase_all w (fullscreen_surfaces m) |>
    <| display_areas := detach w <$> display_areas m |>.

Definition remove_window (application : Session) (w : Window) : M unit :=
  is_active_window ← gets (fun m => bool_decide (active_window m = Some w));
  workspaces ← gets (fun m => workspaces_containing m w);
  for_each workspaces (fun workspace => advise (advise_removing_from_workspace workspace [w]));;
  modify (fun m => m <| workspaces_to_windows := filter (fun kv => kv.2 <> w) (workspaces_to_windows m) |>);;
  advise (advise_delete_window w);;
  info_for_session (Some application);;
  modify (forget_window application w);;
  info ← info_for w;
  (if bool_decide (wi_state info = mir_window_state_attached) && is_set (wi_exclusive_rect info)
   then update_windows_for_outputs confirm_inherited_move confirm_placement_on_display fuel else mret tt);;
  destroy_surface application w;;
  erase w;;
  if is_active_window : bool then refocus (Some application) (wi_parent info) workspaces else mret tt.

Definition wm_remove_surface (session : Session) (w : Window) : M unit :=
  known_session ← gets (fun m => bool_decide (is_Some (app_info m !! session)));
  known ← gets (fun m => bool_decide (is_Some (window_info m !! w)));
  if known_session && known then remove_window session w else mret tt.

Definition force_close (w : Window) : M unit :=
  application ← gets (fun m => application_of m (Some w));
  alive ← gets (fun m => bool_decide (is_Some (surfaces_of m !! w)));
  match application with
  | Some a => if alive : bool then info_for w;; remove_window a w else mret tt
  | None => mret tt
  end.

(** ** New windows *)
(** The policy may change the placement; [build] makes the scene surface for
    the specification and gives the window it is. *)
Context (place_new_window : WM -> Session -> WindowSpecification -> WindowSpecification).
Context (build : Session -> WindowSpecification -> M Window).

Definition with_parent_layer (m : WM) (spec : WindowSpecification) : WindowSpecification :=
  match sp_depth_layer spec, sp_parent spec with
  | None, Some p =>
      match lock (surfaces_of m) p ≫= (fun pw => surfaces_of m !! pw) with
      | Some s => spec <| sp_depth_layer := Some (sf_depth_layer s) |>
      | None => spec
      end
  | _, _ => spec
  end.

Definition wm_add_surface (session : Session) (params : WindowSpecification) : M Window :=
  info_for_session (Some session);;
  placed ← place_new_surface params;
  spec ← gets (fun m => with_parent_layer m (place_new_window m session placed));
  w ← build session spec;
  info ← lift (WindowInfo_from w spec);
  parent ← gets (fun m => match sp_parent spec with Some p => lock (surfaces_of m) p | None => None end);
  modify (fun m => m <| window_info := <[w := info]> (window_info m) |> <| wm_applications := <[w := session]> (wm_applications m) |>);;
  when_set parent (fun p => pi ← info_for p; set_info w (fun i => i <| wi_parent := wi_window pi |>));;
  modify (fun m => m <| app_info := alter (fun ws => ws ++ [w]) session (app_info m) |>);;
  info ← info_for w;
  when_set (wi_parent info) (fun p => info_for p;; set_info p (fun i => add_child i w));;
  workspaces ← gets (fun m => match wi_parent info with Some p => workspaces_containing m p | None => [] end);
  for_each workspaces (fun workspace => add_tree_to_workspace fuel (Some w) workspace);;
  info ← info_for w;
  update_attached_and_fullscreen_sets w info (wi_state info);;
  (if bool_decide (wi_state info = mir_window_state_attached)
   then update_windows_for_outputs confirm_inherited_move confirm_placement_on_display fuel else mret tt);;
  advise (advise_new_window w);;
  mret w.
End Lifecycle.

(** ** A window leaves its tree *)
Definition orphan (w : Window) (i : WindowInfo) : WindowInfo :=
  i <| wi_parent := if decide (wi_parent i = Some w) then None else wi_parent i |>
    <| wi_children := erase_first w (wi_children i) |>.

Lemma for_each_set_info f l m :
  NoDup l -> (forall c, c ∈ l -> is_Some (window_info m !! c)) ->
  exists infos, for_each l (fun c => info_for c;; set_info c f) m = Ret (tt, m <| window_info := infos |>) /\
    forall x, infos !! x = (if bool_decide (x ∈ l) then f else id) <$> window_info m !! x.
Proof.
  intros Hn. revert m. induction Hn as [|c l Hc Hn IH]; intros m Hk.
  { exists (window_info m). split; [by destruct m|]. intros x. rewrite bool_decide_false by apply not_elem_of_nil.
    by destruct (window_info m !! x). }
  destruct (Hk c) as [ci Hci]; [set_solver|]. set (m1 := m <| window_info := alter f c (window_info m) |>).
  destruct (IH m1) as (infos & Hf & Hx).
  { intros x Hx. cbn. assert (x <> c) by set_solver. rewrite lookup_alter_ne by done. apply Hk. set_solver. }
  exists infos. rewrite (for_each_cons c l _ m m1); [split; [exact Hf|]|].
  - intros x. rewrite Hx. cbn. destruct (decide (x = c)) as [->|Hne].
    + rewrite lookup_alter_eq, Hci. rewrite (bool_decide_false (c ∈ l)), (bool_decide_true (c ∈ c :: l)) by set_solver. done.
    + rewrite lookup_alter_ne by done. by rewrite (bool_decide_ext (x ∈ c :: l) (x ∈ l)) by set_solver.
  - by rewrite (M_bind_eq _ _ _ _ _ (info_for_known c m ci Hci)).
Qed.

Lemma erase_spec m0 m w i :
  forest m0 -> window_info m = window_info m0 -> window_info m !! w = Some i ->
  exists infos, erase w m = Ret (tt, m <| window_info := infos |>) /\
    forall x, infos !! x = if decide (x = w) then None else orphan w <$> window_info m !! x.
Proof.
  intros Hf Hinfo Hi. pose proof Hi as Hi0. rewrite Hinfo in Hi0. destruct (forest_acyclic m0 Hf) as [rank Hr].
  assert (Hself : w ∉ wi_children i) by (intros Hw; specialize (Hr w w (ex_intro _ i (conj Hi0 Hw))); lia).
  unfold erase. rewrite (M_bind_eq _ _ _ _ _ (info_for_known w m i Hi)).
  set (m1 := match wi_parent i with Some p => m <| window_info := alter (fun j => remove_child j w) p (window_info m) |> | None => m end).
  rewrite (M_bind_eq _ _ m tt m1).
  2: { subst m1. destruct (wi_parent i) as [p|] eqn:Ep; [|done]. cbn [when_set].
       destruct (forest_parent m0 Hf w i p Hi0 Ep) as (pi & Hpi & _). rewrite <-Hinfo in Hpi.
       by rewrite (M_bind_eq _ _ _ _ _ (info_for_known p m pi Hpi)). }
  assert (Hm1 : forall x, window_info m1 !! x = (if bool_decide (wi_parent i = Some x) then fun j => remove_child j w else id) <$> window_info m !! x).
  { intros x. subst m1. destruct (wi_parent i) as [p|]; cbn.
    - destruct (decide (p = x)) as [->|Hne].
      + by rewrite lookup_alter_eq, bool_decide_true.
      + rewrite lookup_alter_ne, bool_decide_false by congruence. by destruct (window_info m !! x).
    - rewrite bool_decide_false by done. by destruct (window_info m !! x). }
  destruct (for_each_set_info (fun j => j <| wi_parent := None |>) (wi_children i) m1) as (infos & Hfor & Hx).
  { by apply (forest_NoDup m0 Hf w). }
  { intros c Hc. rewrite Hm1, fmap_is_Some. destruct (forest_child m0 Hf w c) as (ci & Hci & _); [by exists i|]. rewrite Hinfo. eauto. }
  rewrite (M_bind_eq _ _ _ _ _ Hfor). exists (delete w infos). split; [subst m1; by destruct (wi_parent i)|].
  intros x. destruct (decide (x = w)) as [->|Hne]; [apply lookup_delete_eq|]. rewrite lookup_delete_ne by done.
  rewrite Hx, Hm1. destruct (window_info m !! x) as [xi|] eqn:Exi; [|done]. pose proof Exi as Exi0. rewrite Hinfo in Exi0.
  cbn. f_equal. unfold orphan.
  assert (Hc : x ∈ wi_children i <-> wi_parent xi = Some w).
  { split.
    - intros Hc. destruct (forest_child m0 Hf w x) as (ci & Hci & Hp); [by exists i|]. congruence.
    - intros Hp. destruct (forest_parent m0 Hf x xi w Exi0 Hp) as (i' & Hi' & Hc). congruence. }
  assert (Hp : wi_parent i = Some x <-> w ∈ wi_children xi).
  { split.
    - intros Hp. destruct (forest_parent m0 Hf w i x Hi0 Hp) as (i' & Hi' & Hc'). congruence.
    - intros Hw. destruct (forest_child m0 Hf x w) as (i' & Hi' & Hp); [by exists xi|]. congruence. }
  destruct (decide (wi_parent xi = Some w)) as [E|E].
  - rewrite (bool_decide_true (x ∈ _)) by by apply Hc. case_bool_decide as Hb; [done|]. cbn.
    rewrite erase_first_notin by (intros H; by apply Hb, Hp). by destruct xi.
  - rewrite (bool_decide_false (x ∈ _)) by (intros H; by apply E, Hc). case_bool_decide as Hb; cbn; [by destruct xi|].
    rewrite erase_first_notin by (intros H; by apply Hb, Hp). by destruct xi.
Qed.

Lemma orphan_children w i x : NoDup (wi_children i) -> x ∈ wi_children (orphan w i) <-> x ∈ wi_children i /\ x <> w.
Proof. apply elem_of_erase_first. Qed.

(** The other trees stay, and the children of the window become roots. *)
Lemma forest_without m m' w :
  forest m -> (forall x, window_info m' !! x = if decide (x = w) then None else orphan w <$> window_info m !! x) ->
  surfaces_of m' = delete w (surfaces_of m) -> forest m'.
Proof.
  intros Hf Hinfo Hsurf.
  assert (Hget : forall x xi', window_info m' !! x = Some xi' -> x <> w /\ exists xi, window_info m !! x = Some xi /\ xi' = orphan w xi).
  { intros x xi'. rewrite Hinfo. case_decide; [done|]. intros (xi & ? & ->)%fmap_Some. eauto. }
  assert (Hput : forall x xi, x <> w -> window_info m !! x = Some xi -> window_info m' !! x = Some (orphan w xi)).
  { intros x xi Hx Hxi. by rewrite Hinfo, decide_False, Hxi. }
  assert (Hrel : forall p c, child_rel m' p c <-> child_rel m p c /\ p <> w /\ c <> w).
  { intros p c. split.
    - intros (pi' & (Hp & pi & Hpi & ->)%Hget & Hc). apply orphan_children in Hc as [Hc ?]; [|by eapply forest_NoDup].
      split; [by exists pi|done].
    - intros ((pi & Hpi & Hc) & Hp & Hcw). exists (orphan w pi). split; [by apply Hput|].
      apply orphan_children; [by eapply forest_NoDup|done]. }
  split.
  - intros p c (Hc & Hp & Hcw)%Hrel. destruct (forest_child m Hf p c Hc) as (ci & Hci & Hpar). exists (orphan w ci).
    split; [by apply Hput|]. cbn. rewrite Hpar, decide_False by congruence. done.
  - intros c ci p (Hcw & ci0 & Hci & ->)%Hget Hp. cbn in Hp. case_decide; [done|]. apply Hrel.
    split; [by eapply forest_parent|]. split; [congruence|done].
  - intros x xi (_ & xi0 & Hxi & ->)%Hget. cbn. apply erase_first_NoDup. by eapply forest_NoDup.
  - destruct (forest_acyclic m Hf) as [rank Hr]. exists rank. intros p c (Hc & _)%Hrel. by apply Hr.
  - intros x [xi (Hx & xi0 & Hxi & ->)%Hget]. rewrite Hsurf, lookup_delete_ne by done. apply (forest_surface m Hf). eauto.
Qed.

Lemma for_each_advise {A} (g : A -> Advice) l m :
  for_each l (fun x => advise (g x)) m = Ret (tt, m <| advice := advice m ++ (g <$> l) |>).
Proof.
  revert m. induction l as [|x l IH]; intros m.
  - cbn. rewrite app_nil_r. by destruct m.
  - rewrite (for_each_cons x l _ m (m <| advice := advice m ++ [g x] |>)) by done. rewrite IH. cbn. by rewrite <-app_assoc.
Qed.

(** The state once the window is gone and before another one gets the
    focus. *)
Definition removed (s : Session) (w : Window) (infos : gmap Window WindowInfo) (advs : list Advice) (m : WM) : WM :=
  forget_window s w m
    <| workspaces_to_windows := filter (fun kv => kv.2 <> w) (workspaces_to_windows m) |>
    <| wm_shell := (wm_shell m)
         <| sh_session_surfaces := <[s := erase_first w (default [] (sh_session_surfaces (wm_shell m) !! s))]> (sh_session_surfaces (wm_shell m)) |>
         <| sh_surfaces := delete w (surfaces_of m) |> |>
    <| window_info := infos |> <| advice := advs |>.

Section Removal.
Context (m : WM) (s : Session) (w : Window) (i : WindowInfo).
Context (Hok : wm_ok m) (Hsessions : sessions_ok m).
Context (Hi : window_info m !! w = Some i) (Hs : wm_applications m !! w = Some s).

(** The state without references to the window in the lists. *)
Definition forgetting (s : Session) (w : Window) (m : WM) : WM :=
  forget_window s w m <| workspaces_to_windows := filter (fun kv => kv.2 <> w) (workspaces_to_windows m) |>.
(** The windows may have been laid out anew in between. *)
Definition laid_out (m m1 : WM) : WM := m <| wm_shell := wm_shell m1 |> <| display_areas := display_areas m1 |>.

Lemma removed_laid_out m2 infos : relaid (forgetting s w m) m2 ->
  m2 <| wm_shell := (wm_shell m2)
         <| sh_session_surfaces := <[s := erase_first w (default [] (sh_session_surfaces (wm_shell m2) !! s))]> (sh_session_surfaces (wm_shell m2)) |>
         <| sh_surfaces := delete w (surfaces_of m2) |> |> <| window_info := infos |> = removed s w infos (advice m2) (laid_out m m2).
Proof.
  intros [H1 _ H3 _]. assert (Hd : detach w <$> display_areas m2 = display_areas m2).
  { rewrite <- (list_fmap_id (display_areas m2)) at 2. apply list_fmap_ext. intros n a Ha. unfold detach, id.
    rewrite erase_all_notin; [by destruct a|]. intros Hw. assert (Hin : da_attached_windows a ∈ da_attached_windows <$> display_areas m2).
    { apply list_elem_of_fmap. exists a. split; [done|]. by eapply list_elem_of_lookup_2. }
    rewrite H3 in Hin. cbn in Hin. apply list_elem_of_fmap in Hin as (a1 & Ea & (a0 & -> & _)%list_elem_of_fmap). rewrite Ea in Hw. cbn in Hw.
    apply elem_of_erase_all in Hw. naive_solver. }
  unfold removed, laid_out, forget_window, surfaces_of. destruct m2. cbn in Hd. cbn. unfold other_state in H1. cbn in H1. injection H1 as -> -> -> _ -> -> -> -> -> -> ->. by rewrite Hd.
Qed.

Lemma remove_window_steps confirm_inherited_move confirm_placement_on_display steps fuel :
  (wi_state i = mir_window_state_attached -> is_Some (wi_exclusive_rect i) -> attached_ok m) -> (size (window_info m) <= fuel)%nat ->
  exists m1 infos advs, relaid (forgetting s w m) m1 /\
    (forall x, infos !! x = if decide (x = w) then None else orphan w <$> window_info m !! x) /\
    remove_window confirm_inherited_move confirm_placement_on_display steps fuel s w m =
      (if bool_decide (active_window m = Some w)
       then refocus steps fuel (Some s) (wi_parent i) (workspaces_containing m w) (removed s w infos advs (laid_out m m1))
       else Ret (tt, removed s w infos advs (laid_out m m1))).
Proof.
  intros Hzone Hfuel. destruct (so_owner m Hsessions w) as (s' & ws & ss & Hs' & _ & Hws & Hw & Hss & Hsw); [eauto|].
  assert (s' = s) as -> by congruence. unfold remove_window.
  erewrite M_bind_eq by reflexivity. erewrite M_bind_eq by reflexivity.
  rewrite (M_bind_eq _ _ _ _ _ (for_each_advise (fun workspace => advise_removing_from_workspace workspace [w]) _ m)).
  erewrite M_bind_eq by reflexivity. erewrite M_bind_eq by reflexivity.
  rewrite (M_bind_eq _ _ _ ws _) by (unfold info_for_session; cbn; by rewrite Hws).
  erewrite M_bind_eq by reflexivity.
  match goal with |- context [(info_for w ≫= _) ?x] => set (m1 := x) end.
  rewrite (M_bind_eq _ _ m1 i m1) by by apply info_for_known.
  assert (Hup : exists m2, (if bool_decide (wi_state i = mir_window_state_attached) && is_set (wi_exclusive_rect i)
     then update_windows_for_outputs confirm_inherited_move confirm_placement_on_display fuel else mret tt) m1 = Ret (tt, m2) /\ relaid m1 m2).
  { destruct (_ && _) eqn:E; [|by exists m1]. apply andb_true_iff in E as [E1%bool_decide_eq_true E2].
    destruct (lays_outputs m1 confirm_inherited_move confirm_placement_on_display fuel) with (m := m1) as ([] & m2 & ? & ?); [|done| |done|by exists m2].
    - by apply (forest_keep m); [..|apply Hok].
    - assert (Hao : attached_ok m) by (apply Hzone; [done|]; destruct (wi_exclusive_rect i); [eauto|done]). destruct Hao as [Ha Hf]. split.
      + intros a x (a0 & -> & Ha0)%list_elem_of_fmap. cbn. rewrite elem_of_erase_all. intros [Hx _]. by apply (Ha a0).
      + intros x. cbn. rewrite elem_of_erase_all. intros [Hx _]. by apply Hf. }
  destruct Hup as (m2 & Hup & Hlaid). rewrite (M_bind_eq _ _ _ _ _ Hup).
  assert (Hsame : workspaces_to_windows m2 = workspaces_to_windows m1 /\ sh_session_surfaces (wm_shell m2) = sh_session_surfaces (wm_shell m)).
  { destruct Hlaid as [H1 H2 _ _]. injection H1. injection H2. done. }
  set (m3 := m2 <| wm_shell := (wm_shell m2)
         <| sh_session_surfaces := <[s := erase_first w (default [] (sh_session_surfaces (wm_shell m2) !! s))]> (sh_session_surfaces (wm_shell m2)) |>
         <| sh_surfaces := delete w (surfaces_of m2) |> |>).
  rewrite (M_bind_eq _ _ m2 tt m3).
  2: { unfold destroy_surface. rewrite (proj2 Hsame), Hss. cbn [default from_option].
       rewrite bool_decide_true by done. subst m3. rewrite (proj2 Hsame), Hss. done. }
  assert (Hi3 : window_info m3 = window_info m) by exact (relaid_info m1 m2 Hlaid).
  destruct (erase_spec m m3 w i) as (infos & Her & Hx); [apply Hok|exact Hi3|by rewrite Hi3|].
  exists m2, infos, (advice m2). assert (Hrel : relaid (forgetting s w m) m2) by (destruct Hlaid as [H1 H2 H3 H4]; by split).
  split; [done|]. split; [intros x; by rewrite Hx, Hi3|]. rewrite (M_bind_eq _ _ _ _ _ Her).
  assert (Hend : m3 <| window_info := infos |> = removed s w infos (advice m2) (laid_out m m2)).
  { apply (removed_laid_out m2 infos Hrel). }
  rewrite Hend. destruct (bool_decide (active_window m = Some w)); reflexivity.
Qed.

Context (infos : gmap Window WindowInfo) (advs : list Advice).
Context (Hinfos : forall x, infos !! x = if decide (x = w) then None else orphan w <$> window_info m !! x).
Notation gone := (removed s w infos advs m).

Lemma removed_known x : is_Some (window_info gone !! x) <-> is_Some (window_info m !! x) /\ x <> w.
Proof. cbn. rewrite Hinfos. case_decide; [|rewrite fmap_is_Some; tauto]. split; [intros []; done|tauto]. Qed.

Lemma removed_ok : wm_ok gone.
Proof.
  destruct Hok as [Hf Hc Hm]. split.
  - by apply (forest_without m gone w).
  - intros x xi sx. cbn. unfold surfaces_of. cbn. rewrite Hinfos. case_decide; [done|].
    rewrite lookup_delete_ne by done. intros (xi0 & Hxi & ->)%fmap_Some Hsx. by apply (Hc x xi0).
  - intros x. cbn. unfold mru_erase. rewrite elem_of_erase_all. intros [Hx Hne]. apply removed_known. split; [by apply Hm|done].
Qed.

Lemma removed_sessions_ok : sessions_ok gone.
Proof.
  destruct Hsessions as [H1 H2 H3 H4 H5 H6]. destruct (H2 w) as (s' & ws & ss & Hs' & Hin & Hws & Hw & Hss & Hsw); [eauto|].
  assert (s' = s) as -> by congruence.
  assert (Happ : forall t l, app_info gone !! t = Some l -> exists l0, app_info m !! t = Some l0 /\ (l = if decide (t = s) then erase_first w l0 else l0)).
  { intros t l. cbn. destruct (decide (t = s)) as [->|Hne]; [rewrite lookup_alter_eq, Hws; intros [= <-]; eauto|].
    rewrite lookup_alter_ne by done. eauto. }
  assert (Hsur : forall t l, sh_session_surfaces (wm_shell gone) !! t = Some l -> exists l0, sh_session_surfaces (wm_shell m) !! t = Some l0 /\ (l = if decide (t = s) then erase_first w l0 else l0)).
  { intros t l. cbn. rewrite Hss. cbn. destruct (decide (t = s)) as [->|Hne]; [rewrite lookup_insert_eq; intros [= <-]; eauto|].
    rewrite lookup_insert_ne by done. eauto. }
  split; [exact H1| | | | |].
  - intros x [Hx Hne]%removed_known. destruct (H2 x Hx) as (t & wx & sx & Ht & Htin & Hwx & Hxw & Hsx & Hxs). cbn. rewrite Hss. cbn.
    exists t, (if decide (t = s) then erase_first w wx else wx), (if decide (t = s) then erase_first w sx else sx).
    destruct (decide (t = s)) as [->|Hts].
    + rewrite lookup_alter_eq, lookup_insert_eq, Hwx. assert (sx = ss) as -> by congruence. cbn.
      rewrite !elem_of_erase_first by eauto. split_and!; done.
    + by rewrite lookup_alter_ne, lookup_insert_ne by done.
  - intros t l x (l0 & Hl0 & ->)%Hsur Hx. assert (x ∈ l0 /\ x <> w) as [Hx0 Hne].
    { case_decide as Ht; [apply elem_of_erase_first in Hx; eauto|]. split; [done|]. intros ->. destruct (H3 t l0 w Hl0 Hx). congruence. }
    destruct (H3 t l0 x Hl0 Hx0). split; [by apply removed_known|done].
  - intros t l x (l0 & Hl0 & ->)%Happ Hx. assert (x ∈ l0 /\ x <> w) as [Hx0 Hne].
    { case_decide as Ht; [apply elem_of_erase_first in Hx; eauto|]. split; [done|]. intros ->. destruct (H4 t l0 w Hl0 Hx). congruence. }
    destruct (H4 t l0 x Hl0 Hx0). split; [by apply removed_known|done].
  - intros t l (l0 & Hl0 & ->)%Hsur. case_decide; [apply erase_first_NoDup|]; eauto.
  - intros t l (l0 & Hl0 & ->)%Happ. case_decide; [apply erase_first_NoDup|]; eauto.
Qed.
End Removal.

(** The invariants survive a new layout. *)
Lemma laid_out_ok m s w m1 : wm_ok m -> sessions_ok m -> relaid (forgetting s w m) m1 ->
  wm_ok (laid_out m m1) /\ sessions_ok (laid_out m m1) /\ sh_apps (wm_shell m1) = sh_apps (wm_shell m).
Proof.
  intros [Hf Hc Hm] Hs Hl. pose proof (fun x => relaid_alive _ _ x Hl) as Halive. destruct Hl as [_ H2 _ H4]. injection H2 as _ Happs Hss _ _ _ _.
  split; [split; [| |exact Hm]|split; [|done]].
  - apply (forest_keep m); [done| |done]. intros x Hx. change (is_Some (surfaces_of m1 !! x)). apply Halive. exact Hx.
  - intros x i sx Hx Hsx. change (surfaces_of (laid_out m m1)) with (surfaces_of m1) in Hsx. specialize (H4 x). rewrite Hsx in H4.
    change (surfaces_of (forgetting s w m)) with (surfaces_of m) in H4. destruct (surfaces_of m !! x) as [s0|] eqn:E0; [|done]. apply (inj Some) in H4.
    change (sf_state (unplaced sx) = wi_state i). rewrite H4. exact (Hc x i s0 Hx E0).
  - destruct Hs as [S1 S2 S3 S4 S5 S6]. split; cbn [laid_out wm_shell assign]; rewrite ?Happs, ?Hss; done.
Qed.

Lemma refocus_ends m0 steps fuel application parent workspaces :
  sessions_ok m0 -> (length (sh_apps (wm_shell m0)) <= steps)%nat -> (2 * size (window_info m0) < fuel)%nat ->
  (forall p, parent = Some p -> is_Some (window_info m0 !! p)) ->
  ends m0 (refocus steps fuel application parent workspaces).
Proof.
  intros Hs Hsteps Hfuel Hp. unfold refocus. apply ends_gets_bind. intros m Hm. apply ends_bind.
  { destruct (lock (surfaces_of m) parent) as [p|] eqn:Ep; [|apply ends_ret].
    apply lock_Some in Ep as [Ep _]. by apply select_ends; auto. }
  intros found. apply ends_if; [apply ends_ret|]. apply ends_bind.
  { intros m1 Hm1. destruct (can_activate_in_workspace_within m0 fuel Hfuel application workspaces m1 Hm1) as (b & m2 & ? & ? & _). eauto. }
  intros []; [apply ends_ret|]. apply ends_bind.
  { intros m1 Hm1. destruct (activate_recent_within m0 fuel Hfuel (shares_workspace workspaces) m1 Hm1) as (b & m2 & ? & ? & _). eauto. }
  intros found1. apply ends_if; [apply ends_ret|]. apply ends_bind.
  { intros m1 Hm1. destruct (can_activate_within m0 fuel Hfuel application m1 Hm1) as (b & m2 & ? & ? & _). eauto. }
  intros []; [apply ends_ret|]. apply ends_bind.
  { intros m1 Hm1. destruct (activate_recent_within m0 fuel Hfuel (fun _ _ => true) m1 Hm1) as (b & m2 & ? & ? & _). eauto. }
  intros found2. apply ends_if; [apply ends_ret|].
  apply (focus_application_ends m0 fuel Hfuel Hs steps _ (sh_apps (wm_shell m0))); [by apply focus_next_walks|done..].
Qed.

(** Nothing refers to the window any more. *)
Record forgotten (m : WM) (w : Window) : Prop := {
  forgotten_info : window_info m !! w = None;
  forgotten_surface : surfaces_of m !! w = None;
  forgotten_family : forall x i, window_info m !! x = Some i -> wi_parent i <> Some w /\ w ∉ wi_children i;
  forgotten_mru : w ∉ mru_active_windows m;
  forgotten_fullscreen : w ∉ fullscreen_surfaces m;
  forgotten_areas : forall a, a ∈ display_areas m -> w ∉ da_attached_windows a;
  forgotten_workspaces : workspaces_containing m w = [];
  forgotten_application : forall s ws, app_info m !! s = Some ws -> w ∉ ws;
  forgotten_session : forall s ss, sh_session_surfaces (wm_shell m) !! s = Some ss -> w ∉ ss;
  forgotten_active : active_window m <> Some w /\ focused_surface (wm_shell m) <> Some w
}.

Lemma forgotten_consistent m w :
  wm_ok m -> sessions_ok m -> window_info m !! w = None -> surfaces_of m !! w = None -> w ∉ fullscreen_surfaces m ->
  (forall a, a ∈ display_areas m -> w ∉ da_attached_windows a) -> workspaces_containing m w = [] -> forgotten m w.
Proof.
  intros Hok Hs Hi Hsurf Hfull Hareas Hwork. pose proof Hok as [Hf _ Hm].
  assert (Hno : ~ is_Some (window_info m !! w)) by (rewrite Hi; by intros []).
  split; try done.
  - intros x xi Hxi. split.
    + intros Hp. destruct (forest_parent m Hf x xi w Hxi Hp) as (? & ? & _). congruence.
    + intros Hc. destruct (forest_child m Hf x w) as (? & ? & _); [by exists xi|]. congruence.
  - intros Hw. by apply Hno, Hm.
  - intros s ws Hws Hw. by apply Hno, (so_windows m Hs s ws w).
  - intros s ss Hss Hw. by apply Hno, (so_surfaces m Hs s ss w).
  - split; [intros E; by apply Hno, (active_window_known m w Hok)|]. intros [_ Hl]%lock_Some.
    unfold surfaces_of in Hsurf. rewrite Hsurf in Hl. by destruct Hl.
Qed.

Lemma parent_known m w i p :
  forest m -> window_info m !! w = Some i -> wi_parent i = Some p -> is_Some (window_info m !! p) /\ p <> w.
Proof.
  intros Hf Hi Hp. pose proof (forest_parent m Hf w i p Hi Hp) as Hc. split; [destruct Hc as (pi & ? & _); eauto|].
  intros ->. destruct (forest_acyclic m Hf) as [rank Hr]. specialize (Hr _ _ Hc). lia.
Qed.

(** The state after the removal, before the focus moves on. *)
Lemma removed_forgotten m s w infos advs :
  window_info (removed s w infos advs m) !! w = None -> forall m',
  wm_ok m' -> sessions_ok m' -> still m' = still (removed s w infos advs m) -> forgotten m' w.
Proof.
  intros Hno m' Hok' Hs' Hst. pose proof (still_known m' _ w Hst) as Hk. injection Hst as Eai Eap Ews Efs Eda _ _ _ _ _ Edom Efam.
  apply forgotten_consistent; [done|done|..].
  - destruct (window_info m' !! w) eqn:E; [|done]. rewrite Hno in Hk. destruct Hk as [Hk _]. destruct Hk; eauto; done.
  - apply not_elem_of_dom. rewrite Edom. unfold removed, surfaces_of. cbn. set_solver.
  - rewrite Efs. cbn. rewrite elem_of_erase_all. naive_solver.
  - rewrite Eda. cbn. intros a (a0 & -> & _)%list_elem_of_fmap. cbn. rewrite elem_of_erase_all. naive_solver.
  - unfold workspaces_containing. rewrite Ews. cbn. rewrite list_filter_filter. clear Ews.
    induction (workspaces_to_windows m) as [|kv l IH]; [done|]. rewrite filter_cons_False by tauto. exact IH.
Qed.

(** C5: removing a window leaves nothing behind.  A client's request to remove
    one of its windows is carried out without an exception, whatever other
    windows there are, whichever is active and whatever the policy answers; if
    the window reserves space at an edge of the output, so that the others are
    laid out anew, this needs the windows attached to the display areas to be in
    states that have a place there ([attached_ok]; [select_unposted_fatal] shows
    how one can get into another state).  Afterwards no list of the manager and no
    other window refers to the window, exactly the other windows are still
    managed, its children have become roots, and the trees, the owners of the
    windows and the recently used windows are consistent. *)
Theorem remove_surface_forgets confirm_inherited_move confirm_placement_on_display
    (steps fuel : nat) (m : WM) (s : Session) (w : Window) (i : WindowInfo) :
  wm_ok m -> sessions_ok m -> window_info m !! w = Some i -> wm_applications m !! w = Some s ->
  (wi_state i = mir_window_state_attached -> is_Some (wi_exclusive_rect i) -> attached_ok m) ->
  (length (sh_apps (wm_shell m)) <= steps)%nat -> (2 * size (window_info m) < fuel)%nat ->
  exists m', wm_remove_surface confirm_inherited_move confirm_placement_on_display steps fuel s w m = Ret (tt, m') /\
    wm_ok m' /\ sessions_ok m' /\ forgotten m' w /\
    (forall x, is_Some (window_info m' !! x) <-> is_Some (window_info m !! x) /\ x <> w) /\
    (forall c, c ∈ wi_children i -> wi_parent <$> window_info m' !! c = Some None).
Proof.
  intros Hok Hs Hi Happ Hzone Hsteps Hfuel.
  destruct (so_owner m Hs w) as (s' & ws & _ & Hs' & _ & Hws & _); [eauto|]. assert (s' = s) as -> by congruence.
  unfold wm_remove_surface. erewrite M_bind_eq by reflexivity. erewrite M_bind_eq by reflexivity.
  rewrite Hws, Hi, !bool_decide_true by eauto. cbn [andb].
  destruct (remove_window_steps m s w i Hok Hs Hi Happ confirm_inherited_move confirm_placement_on_display steps fuel Hzone ltac:(lia))
    as (m1 & infos & advs & Hlaid & Hinfos & ->).
  destruct (laid_out_ok m s w m1 Hok Hs Hlaid) as (Hzok & Hzs & Hzapps). set (g := removed s w infos advs (laid_out m m1)).
  pose proof (removed_ok (laid_out m m1) s w Hzok infos advs Hinfos) as Hgok.
  pose proof (removed_sessions_ok (laid_out m m1) s w i Hzs Hi Happ infos advs Hinfos) as Hgs.
  pose proof (removed_known (laid_out m m1) s w infos advs Hinfos) as Hknown. fold g in Hgok, Hgs, Hknown.
  assert (Hsize : (size (window_info g) <= size (window_info m))%nat).
  { rewrite <-!size_dom. apply subseteq_size. intros x. rewrite !elem_of_dom. by intros [? _]%Hknown. }
  assert (Hend : exists m', (if bool_decide (active_window m = Some w)
      then refocus steps fuel (Some s) (wi_parent i) (workspaces_containing m w) g else Ret (tt, g)) = Ret (tt, m') /\ within g m').
  { case_bool_decide; [|by exists g]. assert (He : ends g (refocus steps fuel (Some s) (wi_parent i) (workspaces_containing m w))).
    { apply refocus_ends; [done|change (sh_apps (wm_shell g)) with (sh_apps (wm_shell m1)); by rewrite Hzapps|lia|]. intros p Hp. apply Hknown. exact (parent_known m w i p (wm_forest m Hok) Hi Hp). }
    destruct (He g) as ([] & m' & ? & ?); [done|eauto]. }
  destruct Hend as (m' & -> & Hok' & Hst). pose proof (fun x => still_known m' g x Hst) as Hk'.
  pose proof (sessions_ok_still g m' Hst Hgs) as Hs''.
  exists m'. split; [done|]. split; [done|]. split; [done|]. split; [|split].
  - apply (removed_forgotten (laid_out m m1) s w infos advs); [|done..]. cbn. by rewrite Hinfos, decide_True.
  - intros x. by rewrite Hk'.
  - injection Hst as _ _ _ _ _ _ _ _ _ _ _ Efam. intros c Hc. assert (family <$> window_info m' !! c = family <$> infos !! c) as E by by rewrite <-!lookup_fmap, Efam.
    destruct (forest_child m (wm_forest m Hok) w c) as (ci & Hci & Hp); [by exists i|].
    assert (c <> w) by (intros ->; by destruct (parent_known m w ci w (wm_forest m Hok) Hci Hp)).
    rewrite Hinfos, decide_False, Hci in E by done.
    cbn in E. apply fmap_Some in E as (ci' & -> & E). injection E as E _. cbn. rewrite <-E. by rewrite decide_True.
Qed.

Lemma remove_surface_forgets_witness :
  exists m', wm_remove_surface canonical_confirm_inherited_move canonical_confirm_placement_on_display 3 7 10 2 example_wm = Ret (tt, m') /\
    forgotten m' 2 /\ active_window m' = Some 1.
Proof.
  destruct (remove_surface_forgets canonical_confirm_inherited_move canonical_confirm_placement_on_display 3 7 example_wm 10 2
              (example_info <| wi_type := mir_window_type_dialog |> <| wi_parent := Some 1 |>)) as (m' & Hm' & _ & _ & Hf & _).
  - exact example_wm_ok.
  - exact example_sessions_ok.
  - reflexivity.
  - reflexivity.
  - discriminate.
  - vm_compute. lia.
  - vm_compute. lia.
  - exists m'. split; [exact Hm'|]. split; [exact Hf|]. vm_compute in Hm'. injection Hm' as <-. reflexivity.
Defined.

(** When a panel that reserves space is removed the maximized window gets the
    space. *)
Example removed_panel_frees_space :
  exists m', wm_remove_surface canonical_confirm_inherited_move canonical_confirm_placement_on_display 3 7 30 3 (docked ∅) = Ret (tt, m') /\
    window_rect m' 1 = mkRectangle (mkPoint 0 0) (mkSize 800 600).
Proof. eexists. split; [vm_compute; reflexivity|]. vm_compute. reflexivity. Qed.

(** The policy is told of a loss of focus that did not happen.  Window 2 is
    active and is removed; the focus goes to its parent, window 1.  Before
    that the policy hears that window 3, which did not have the focus, has
    lost it, because the most recently used window that is left passes for the
    active one. *)
Theorem removal_reports_wrong_focus_lost :
  active_window example_wm = Some 2 /\ focused_surface (wm_shell example_wm) = Some 2 /\
  exists m', wm_remove_surface canonical_confirm_inherited_move canonical_confirm_placement_on_display 3 7 10 2 example_wm = Ret (tt, m') /\
    active_window m' = Some 1 /\
    advice m' = advice example_wm ++ [advise_delete_window 2; advise_focus_lost 3; advise_focus_gained 1].
Proof. split; [reflexivity|]. split; [reflexivity|]. eexists. split; [vm_compute; reflexivity|]. split; reflexivity. Qed.

(** ** New windows *)
Lemma root_of_above m fuel (above : gset Window) w :
  forest m -> is_Some (window_info m !! w) -> (forall x, rtc (flip (child_rel m)) w x -> x ∈ above) -> (size above <= fuel)%nat ->
  exists r, root_of fuel w m = Ret (r, m) /\ rtc (child_rel m) r w.
Proof.
  intros Hf. destruct (forest_acyclic m Hf) as [rank Hr]. revert above w. induction fuel as [|f IH]; intros above w [i Hi] Ha Hsz.
  { assert (above = ∅) as -> by (apply leibniz_equiv, size_empty_iff; lia). specialize (Ha w (rtc_refl _ _)). set_solver. }
  cbn [root_of]. rewrite (M_bind_eq _ _ _ _ _ (info_for_known w m i Hi)). destruct (wi_parent i) as [p|] eqn:Ep; [|by exists w].
  pose proof (forest_parent m Hf w i p Hi Ep) as Hc. destruct (IH (above ∖ {[w]}) p) as (r & Hroot & Hrtc).
  - destruct Hc as (pi & ? & _). eauto.
  - intros x Hx. apply elem_of_difference. split; [apply Ha; by eapply rtc_l|]. rewrite elem_of_singleton. intros ->.
    pose proof (rtc_parent_rank m rank p w Hr Hx). specialize (Hr _ _ Hc). lia.
  - rewrite size_difference by (specialize (Ha w (rtc_refl _ _)); set_solver). rewrite size_singleton. lia.
  - exists r. split; [done|]. by eapply rtc_r.
Qed.

Lemma root_of_known m fuel w :
  forest m -> is_Some (window_info m !! w) -> (size (window_info m) <= fuel)%nat ->
  exists r, root_of fuel w m = Ret (r, m) /\ is_Some (window_info m !! r) /\ rtc (child_rel m) r w.
Proof.
  intros Hf Hw Hfuel. destruct (root_of_above m fuel (dom (window_info m)) w Hf Hw) as (r & Hr & Hrtc); [|by rewrite size_dom|].
  - intros x Hx. apply elem_of_dom. clear Hfuel. induction Hx as [|w y z (yi & Hyi & _) _ IH]; [done|]. apply IH. eauto.
  - exists r. split; [done|]. split; [|done]. apply rtc_inv in Hrtc as [->|(y & (ri & Hri & _) & _)]; [done|eauto].
Qed.

(** More windows in the workspaces [ks], and the policy told. *)
Definition enrolled (ks : list Z) (m m' : WM) : Prop :=
  m' <| workspaces_to_windows := workspaces_to_windows m |> <| advice := advice m |> = m /\
  (forall kv, kv ∈ workspaces_to_windows m -> kv ∈ workspaces_to_windows m') /\
  (forall kv, kv ∈ workspaces_to_windows m' -> kv ∈ workspaces_to_windows m \/ kv.1 ∈ ks).

Lemma enrolled_trans ks1 ks2 m m1 m2 : enrolled ks1 m m1 -> enrolled ks2 m1 m2 -> enrolled (ks1 ++ ks2) m m2.
Proof.
  intros (E1 & A1 & B1) (E2 & A2 & B2). split; [|split].
  - rewrite <-E2 in E1. exact E1.
  - auto.
  - intros kv Hk. rewrite elem_of_app. destruct (B2 kv Hk) as [Hk1|]; [|auto]. destruct (B1 kv Hk1); auto.
Qed.

Lemma enrolled_forest ks m m' : enrolled ks m m' -> forest m -> forest m'.
Proof. intros (E & _) Hf. rewrite <-E in Hf. by apply (forest_keep _ m') in Hf. Qed.

Lemma enrolled_info ks m m' : enrolled ks m m' -> window_info m' = window_info m.
Proof. intros (E & _). by rewrite <-E. Qed.

Lemma add_tree_enrolled fuel w k m :
  forest m -> is_Some (window_info m !! w) -> (size (window_info m) <= fuel)%nat ->
  exists m', add_tree_to_workspace fuel (Some w) k m = Ret (tt, m') /\ enrolled [k] m m' /\ (k, w) ∈ workspaces_to_windows m'.
Proof.
  intros Hf Hw Hfuel. destruct (root_of_known m fuel w Hf Hw Hfuel) as (r & Hr & Hrk & Hrtc).
  destruct (tree_of_known m fuel r Hf Hrk Hfuel) as (ws & Ht & _ & Hx). unfold add_tree_to_workspace.
  rewrite (M_bind_eq _ _ _ _ _ Hr), (M_bind_eq _ _ _ _ _ Ht). unfold add_to_workspace.
  erewrite M_bind_eq by reflexivity. erewrite M_bind_eq by reflexivity.
  set (added := filter _ ws). set (m1 := m <| workspaces_to_windows := _ |>).
  assert (Hend : exists advs, (match added with [] => mret tt | _ => advise (advise_adding_to_workspace k added) end) m1 = Ret (tt, m1 <| advice := advs |>)).
  { destruct added; [exists (advice m1); by destruct m1|eexists; reflexivity]. }
  destruct Hend as [advs ->]. eexists. split; [reflexivity|]. split; [split; [by destruct m|split]|].
  - intros kv Hk. cbn. apply elem_of_app. by left.
  - intros kv. cbn. rewrite elem_of_app, list_elem_of_fmap. intros [Hk|(x & -> & _)]; [by left|]. right. cbn. set_solver.
  - cbn. rewrite elem_of_app, list_elem_of_fmap. destruct (decide ((k, w) ∈ workspaces_to_windows m)) as [Hk|Hk]; [by left|right].
    exists w. split; [done|]. apply list_elem_of_filter. split; [done|]. by apply Hx.
Qed.

Lemma add_trees_enrolled fuel w ks m :
  forest m -> is_Some (window_info m !! w) -> (size (window_info m) <= fuel)%nat ->
  exists m', for_each ks (fun k => add_tree_to_workspace fuel (Some w) k) m = Ret (tt, m') /\ enrolled ks m m' /\
    (forall k, k ∈ ks -> (k, w) ∈ workspaces_to_windows m').
Proof.
  revert m. induction ks as [|k ks IH]; intros m Hf Hw Hfuel.
  { exists m. split; [done|]. split; [split; [by destruct m|naive_solver]|]. intros k Hk. by apply not_elem_of_nil in Hk. }
  destruct (add_tree_enrolled fuel w k m Hf Hw Hfuel) as (m1 & H1 & E1 & Hk1).
  destruct (IH m1) as (m2 & H2 & E2 & Hk2); [by eapply enrolled_forest|by rewrite (enrolled_info _ _ _ E1)..|].
  exists m2. cbn [for_each]. rewrite (M_bind_eq _ _ _ _ _ H1). split; [done|]. split; [by eapply (enrolled_trans [k])|].
  intros x [->|Hx]%elem_of_cons; [|by apply Hk2]. by apply E2.
Qed.

(** A new window joins the forest, below its parent if it has one. *)
Lemma forest_with m m' w info :
  forest m -> window_info m !! w = None -> wi_children info = [] ->
  (forall p, wi_parent info = Some p -> is_Some (window_info m !! p)) ->
  (forall x, window_info m' !! x = if decide (x = w) then Some info
     else (if bool_decide (wi_parent info = Some x) then fun i => add_child i w else id) <$> window_info m !! x) ->
  (forall x, is_Some (surfaces_of m !! x) -> is_Some (surfaces_of m' !! x)) -> is_Some (surfaces_of m' !! w) -> forest m'.
Proof.
  intros Hf Hfresh Hnil Hpar Hinfo Hsurf Hw.
  assert (Hget : forall x xi', window_info m' !! x = Some xi' -> (x = w /\ xi' = info) \/
            (x <> w /\ exists xi, window_info m !! x = Some xi /\ wi_parent xi' = wi_parent xi /\
               wi_children xi' = wi_children xi ++ (if bool_decide (wi_parent info = Some x) then [w] else []))).
  { intros x xi'. rewrite Hinfo. case_decide as Hx; [intros [= <-]; by left|]. intros (xi & Hxi & ->)%fmap_Some. right. split; [done|].
    exists xi. split; [done|]. case_bool_decide; [done|]. by rewrite app_nil_r. }
  assert (Hold : forall x xi, window_info m !! x = Some xi -> x <> w /\ exists xi', window_info m' !! x = Some xi' /\ wi_parent xi' = wi_parent xi /\
            wi_children xi' = wi_children xi ++ (if bool_decide (wi_parent info = Some x) then [w] else [])).
  { intros x xi Hxi. assert (x <> w) as Hx by congruence. split; [done|]. rewrite Hinfo, decide_False, Hxi by done. cbn.
    eexists. split; [done|]. case_bool_decide; [done|]. by rewrite app_nil_r. }
  assert (Hnew : forall p, ~ child_rel m p w).
  { intros p Hc. destruct (forest_child m Hf p w Hc) as (? & ? & _). congruence. }
  assert (Hrel : forall p c, child_rel m' p c <-> child_rel m p c \/ (wi_parent info = Some p /\ c = w)).
  { intros p c. split.
    - intros (pi' & Hpi' & Hc). destruct (Hget p pi' Hpi') as [[-> ->]|(Hp & pi & Hpi & _ & E)].
      { rewrite Hnil in Hc. by apply not_elem_of_nil in Hc. }
      rewrite E in Hc. apply elem_of_app in Hc as [Hc|Hc]; [left; by exists pi|]. case_bool_decide; [|by apply not_elem_of_nil in Hc].
      right. split; [done|]. set_solver.
    - intros [(pi & Hpi & Hc)|[Hp ->]].
      + destruct (Hold p pi Hpi) as (_ & pi' & Hpi' & _ & E). exists pi'. split; [done|]. rewrite E. set_solver.
      + destruct (Hpar p Hp) as [pi Hpi]. destruct (Hold p pi Hpi) as (_ & pi' & Hpi' & _ & E). exists pi'. split; [done|].
        rewrite E, bool_decide_true by done. set_solver. }
  split.
  - intros p c [Hc|[Hp ->]]%Hrel.
    + destruct (forest_child m Hf p c Hc) as (ci & Hci & Hp). destruct (Hold c ci Hci) as (_ & ci' & Hci' & E & _).
      exists ci'. by rewrite E.
    + exists info. by rewrite Hinfo, decide_True.
  - intros c ci p Hci Hp. apply Hrel. destruct (Hget c ci Hci) as [[-> ->]|(Hc & ci0 & Hci0 & E & _)]; [by right|]. left.
    eapply forest_parent; [done|done|congruence].
  - intros x xi Hxi. destruct (Hget x xi Hxi) as [[-> ->]|(Hx & xi0 & Hxi0 & _ & ->)]; [rewrite Hnil; constructor|].
    case_bool_decide; [|rewrite app_nil_r; by eapply forest_NoDup]. apply NoDup_app. split; [by eapply forest_NoDup|].
    split; [|repeat constructor; set_solver]. intros y Hy Hyw. assert (y = w) as -> by set_solver. apply (Hnew x). by exists xi0.
  - destruct (forest_acyclic m Hf) as [rank Hr].
    exists (fun x => if decide (x = w) then match wi_parent info with Some p => S (rank p) | None => O end else rank x).
    intros p c [Hc|[Hp ->]]%Hrel.
    + assert (c <> w) by (intros ->; by apply (Hnew p)). assert (p <> w) by (intros ->; destruct Hc as (? & ? & _); congruence).
      rewrite !decide_False by done. by apply Hr.
    + assert (p <> w). { intros ->. destruct (Hpar w Hp). congruence. } rewrite decide_False, decide_True by done. rewrite Hp. lia.
  - intros x [xi Hxi]. destruct (Hget x xi Hxi) as [[-> _]|(_ & xi0 & Hxi0 & _)]; [done|]. apply Hsurf, (forest_surface m Hf). eauto.
Qed.

Lemma update_sets_owners w i st m m' :
  update_attached_and_fullscreen_sets w i st m = Ret (tt, m') ->
  app_info m' = app_info m /\ wm_applications m' = wm_applications m /\ workspaces_to_windows m' = workspaces_to_windows m.
Proof.
  unfold update_attached_and_fullscreen_sets. erewrite M_bind_eq by reflexivity.
  match goal with |- context [match st with _ => _ end ?x] => set (m1 := x) end.
  destruct st; cbn [attaches]; intros [= <-]; try done; by destruct (display_area_index m1 w i).
Qed.

(** [build] makes a surface for the session with the state the specification
    asks for, and nothing knows the new window yet. *)
Record built (m : WM) (s : Session) (spec : WindowSpecification) (w : Window) (m1 : WM) : Prop := {
  built_fresh : window_info m !! w = None /\ surfaces_of m !! w = None /\ workspaces_containing m w = [];
  built_surface : exists surface, sf_state surface = default mir_window_state_restored (sp_state spec) /\
    m1 = m <| wm_shell := (wm_shell m) <| sh_surfaces := <[w := surface]> (surfaces_of m) |>
                <| sh_session_surfaces := <[s := default [] (sh_session_surfaces (wm_shell m) !! s) ++ [w]]> (sh_session_surfaces (wm_shell m)) |> |>
}.

(** The manager's records once the window is registered. *)
Definition registered (m1 : WM) (s : Session) (w : Window) (info : WindowInfo) : WM :=
  m1 <| wm_applications := <[w := s]> (wm_applications m1) |>
     <| app_info := alter (fun ws => ws ++ [w]) s (app_info m1) |>
     <| window_info := match wi_parent info with
                       | Some p => alter (fun i => add_child i w) p (<[w := info]> (window_info m1))
                       | None => <[w := info]> (window_info m1)
                       end |>.

Section Registered.
Context (m m1 : WM) (s : Session) (spec : WindowSpecification) (w : Window) (info : WindowInfo).
Context (Hok : wm_ok m) (Hs : sessions_ok m) (Hbuilt : built m s spec w m1).
Context (Hstate : wi_state info = default mir_window_state_restored (sp_state spec)) (Hnil : wi_children info = []).
Context (Hpar : forall p, wi_parent info = Some p -> is_Some (window_info m !! p)).
Notation reg := (registered m1 s w info).

Lemma registered_info x :
  window_info reg !! x = if decide (x = w) then Some info
    else (if bool_decide (wi_parent info = Some x) then fun i => add_child i w else id) <$> window_info m !! x.
Proof.
  destruct Hbuilt as [(Hfresh & _ & _) (surface & _ & ->)]. unfold registered. cbn. destruct (wi_parent info) as [p|] eqn:Ep.
  - assert (p <> w) by (intros ->; destruct (Hpar w eq_refl); congruence). case_decide as Hx.
    + subst x. by rewrite lookup_alter_ne, lookup_insert_eq by done.
    + destruct (decide (p = x)) as [->|Hpx].
      * by rewrite lookup_alter_eq, lookup_insert_ne, bool_decide_true by done.
      * rewrite lookup_alter_ne, lookup_insert_ne, bool_decide_false by congruence. by destruct (window_info m !! x).
  - case_decide as Hx; [subst x; by rewrite lookup_insert_eq|]. rewrite lookup_insert_ne, bool_decide_false by done.
    by destruct (window_info m !! x).
Qed.

Lemma registered_known x : is_Some (window_info reg !! x) <-> x = w \/ is_Some (window_info m !! x).
Proof. rewrite registered_info. case_decide; [naive_solver|]. rewrite fmap_is_Some. naive_solver. Qed.

Lemma registered_size : (size (window_info reg) <= S (size (window_info m)))%nat.
Proof.
  pose proof registered_known as Hknown. rewrite <-!size_dom. transitivity (size ({[w]} ∪ dom (window_info m))).
  - apply subseteq_size. intros x. rewrite elem_of_dom, elem_of_union, elem_of_dom, Hknown. set_solver.
  - rewrite size_union_alt, size_singleton. apply le_n_S, subseteq_size. set_solver.
Qed.

Lemma registered_ok : wm_ok reg.
Proof.
  pose proof registered_info as Hinfo. pose proof registered_known as Hknown.
  destruct Hbuilt as [(Hfresh & Hnosurf & _) (surface & Hsurf & ->)]. split.
  - apply (forest_with m _ w info); [apply Hok|done|done|done|exact Hinfo| |].
    + intros x [sx Hx]. unfold surfaces_of. cbn. destruct (decide (x = w)) as [->|]; [congruence|].
      unfold surfaces_of in *. rewrite lookup_insert_ne by done. eauto.
    + unfold surfaces_of. cbn. rewrite lookup_insert_eq. eauto.
  - intros x xi sx Hx Hsx. rewrite Hinfo in Hx. unfold surfaces_of in Hsx. cbn in Hsx. case_decide as Hxw.
    + subst x. rewrite lookup_insert_eq in Hsx. congruence.
    + rewrite lookup_insert_ne in Hsx by done. apply fmap_Some in Hx as (xi0 & Hxi0 & ->).
      rewrite (wm_coherent m Hok x xi0 sx Hxi0 Hsx). by case_bool_decide.
  - intros x Hx. apply Hknown. right. by apply (wm_mru m Hok).
Qed.

Lemma registered_sessions_ok : s ∈ sh_apps (wm_shell m) -> is_Some (app_info m !! s) -> sessions_ok reg.
Proof.
  intros Hin [ws0 Hws0]. pose proof registered_known as Hknown. destruct Hs as [H1 H2 H3 H4 H5 H6].
  set (ss0 := default [] (sh_session_surfaces (wm_shell m) !! s)).
  assert (E : window_info m !! w = None /\ sh_apps (wm_shell reg) = sh_apps (wm_shell m) /\ app_info reg = alter (fun ws => ws ++ [w]) s (app_info m) /\
    wm_applications reg = <[w := s]> (wm_applications m) /\ sh_session_surfaces (wm_shell reg) = <[s := ss0 ++ [w]]> (sh_session_surfaces (wm_shell m)))
    by (destruct Hbuilt as [(Hfresh & _ & _) (surface & _ & ->)]; done).
  destruct E as (Hfresh & E1 & E2 & E3 & E4).
  assert (Hne : forall x, is_Some (window_info m !! x) -> x <> w) by (intros x [? ?] ->; congruence).
  assert (Hss0 : forall x, x ∈ ss0 -> is_Some (window_info m !! x) /\ wm_applications m !! x = Some s).
  { intros x. unfold ss0. destruct (sh_session_surfaces (wm_shell m) !! s) eqn:E; [by apply H3|]. cbn. by intros ?%not_elem_of_nil. }
  assert (Hws0' : forall x, x ∈ ws0 -> is_Some (window_info m !! x) /\ wm_applications m !! x = Some s) by (intros x; by apply H4).
  assert (Hmem : forall l x, (forall x, x ∈ l -> is_Some (window_info m !! x) /\ wm_applications m !! x = Some s) -> x ∈ l ++ [w] ->
            is_Some (window_info reg !! x) /\ <[w := s]> (wm_applications m) !! x = Some s).
  { intros l x Hl [Hx|Hx]%elem_of_app; rewrite Hknown.
    - destruct (Hl x Hx) as [Hk Ha]. by rewrite lookup_insert_ne by (symmetry; by apply Hne); auto.
    - assert (x = w) as -> by set_solver. rewrite lookup_insert_eq. auto. }
  assert (Hother : forall t x, is_Some (window_info m !! x) /\ wm_applications m !! x = Some t ->
            is_Some (window_info reg !! x) /\ <[w := s]> (wm_applications m) !! x = Some t).
  { intros t x [Hk Ha]. rewrite Hknown, lookup_insert_ne by (symmetry; by apply Hne). auto. }
  assert (Hnd : forall l, NoDup l -> (forall x, x ∈ l -> is_Some (window_info m !! x) /\ wm_applications m !! x = Some s) -> NoDup (l ++ [w])).
  { intros l Hl Hk. apply NoDup_app. split; [done|]. split; [|repeat constructor; set_solver].
    intros x Hx Hxw. assert (x = w) as -> by set_solver. destruct (Hk w Hx) as [[? ?] _]. congruence. }
  split; rewrite ?E1, ?E2, ?E3, ?E4; [done|..].
  - intros x [->|Hx]%Hknown.
    + exists s, (ws0 ++ [w]), (ss0 ++ [w]). rewrite lookup_insert_eq, lookup_alter_eq, Hws0, lookup_insert_eq.
      split_and!; try done; set_solver.
    + destruct (H2 x Hx) as (t & wx & sx & Ht & Htin & Hwx & Hxw & Hsx & Hxs). rewrite lookup_insert_ne by (symmetry; by apply Hne).
      destruct (decide (t = s)) as [->|Hts].
      * exists s, (ws0 ++ [w]), (ss0 ++ [w]). rewrite lookup_alter_eq, Hws0, lookup_insert_eq. unfold ss0. rewrite Hsx. cbn.
        split_and!; try done; set_solver.
      * exists t, wx, sx. by rewrite lookup_alter_ne, lookup_insert_ne by done.
  - intros t l x Hl Hx. destruct (decide (t = s)) as [->|Hts].
    + rewrite lookup_insert_eq in Hl. injection Hl as <-. by apply (Hmem ss0).
    + rewrite lookup_insert_ne in Hl by done. by apply Hother, (H3 t l).
  - intros t l x Hl Hx. destruct (decide (t = s)) as [->|Hts].
    + rewrite lookup_alter_eq, Hws0 in Hl. injection Hl as <-. by apply (Hmem ws0).
    + rewrite lookup_alter_ne in Hl by done. by apply Hother, (H4 t l).
  - intros t l Hl. destruct (decide (t = s)) as [->|Hts]; [|rewrite lookup_insert_ne in Hl by done; eauto].
    rewrite lookup_insert_eq in Hl. injection Hl as <-. apply Hnd; [|done]. unfold ss0.
    destruct (sh_session_surfaces (wm_shell m) !! s) eqn:E; [eauto|constructor].
  - intros t l Hl. destruct (decide (t = s)) as [->|Hts]; [|rewrite lookup_alter_ne in Hl by done; eauto].
    rewrite lookup_alter_eq, Hws0 in Hl. injection Hl as <-. eauto.
Qed.
End Registered.

Lemma wm_ok_same m m' :
  window_info m' = window_info m -> wm_shell m' = wm_shell m -> mru_active_windows m' = mru_active_windows m -> wm_ok m -> wm_ok m'.
Proof.
  intros E1 E2 E3 [Hf Hc Hm]. split.
  - apply (forest_keep m); [by rewrite E1|unfold surfaces_of; by rewrite E2|done].
  - unfold coherent, surfaces_of in *. by rewrite E1, E2.
  - by rewrite E1, E3.
Qed.

Lemma sessions_ok_same m m' :
  window_info m' = window_info m -> wm_shell m' = wm_shell m -> app_info m' = app_info m -> wm_applications m' = wm_applications m ->
  sessions_ok m -> sessions_ok m'.
Proof. intros E1 E2 E3 E4 [H1 H2 H3 H4 H5 H6]. by split; rewrite ?E1, ?E2, ?E3, ?E4. Qed.

Lemma elem_of_workspaces_containing m w k : k ∈ workspaces_containing m w <-> (k, w) ∈ workspaces_to_windows m.
Proof.
  unfold workspaces_containing. rewrite list_elem_of_fmap. split.
  - intros ([k' x] & -> & Hk). apply list_elem_of_filter in Hk as [E Hk]. cbn in *. by subst x.
  - intros Hk. exists (k, w). split; [done|]. by apply list_elem_of_filter.
Qed.

(** The last steps of [add_surface]: workspaces, display areas, the policy. *)
Lemma add_surface_finish confirm_inherited_move confirm_placement_on_display fuel m w info :
  wm_ok m -> window_info m !! w = Some info -> (size (window_info m) <= fuel)%nat -> wi_state info <> mir_window_state_attached ->
  workspaces_containing m w = [] ->
  exists m',
    (workspaces ← gets (fun m => match wi_parent info with Some p => workspaces_containing m p | None => [] end);
     for_each workspaces (fun workspace => add_tree_to_workspace fuel (Some w) workspace);;
     info ← info_for w;
     update_attached_and_fullscreen_sets w info (wi_state info);;
     (if bool_decide (wi_state info = mir_window_state_attached)
      then update_windows_for_outputs confirm_inherited_move confirm_placement_on_display fuel else mret tt);;
     advise (advise_new_window w);; mret w) m = Ret (w, m') /\
    window_info m' = window_info m /\ wm_shell m' = wm_shell m /\ mru_active_windows m' = mru_active_windows m /\
    app_info m' = app_info m /\ wm_applications m' = wm_applications m /\
    (forall k, k ∈ workspaces_containing m' w <-> exists p, wi_parent info = Some p /\ k ∈ workspaces_containing m p).
Proof.
  intros Hok Hi Hfuel Hst Hnew. erewrite M_bind_eq by reflexivity.
  set (ks := match wi_parent info with Some p => workspaces_containing m p | None => [] end).
  destruct (add_trees_enrolled fuel w ks m (wm_forest m Hok)) as (m1 & H1 & (E1 & Hsub & Hsup) & Hin); [eauto|done|].
  rewrite (M_bind_eq _ _ _ _ _ H1).
  assert (Hi1 : window_info m1 = window_info m) by by rewrite <-E1.
  rewrite (M_bind_eq _ _ m1 info m1) by (apply info_for_known; by rewrite Hi1).
  destruct (update_sets_spec w info (wi_state info) m1) as (m2 & H2 & Hi2 & Hsh2 & _ & Hmru2 & _).
  destruct (update_sets_owners w info (wi_state info) m1 m2 H2) as (Hai2 & Hap2 & Hws2).
  rewrite (M_bind_eq _ _ _ _ _ H2), bool_decide_false by done. erewrite M_bind_eq by reflexivity. erewrite M_bind_eq by reflexivity.
  eexists. split; [reflexivity|]. cbn [window_info wm_shell mru_active_windows app_info wm_applications assign].
  rewrite Hi2, Hsh2, Hmru2, Hai2, Hap2. rewrite <-E1. do 5 (split; [done|]). rewrite E1.
  intros k. rewrite elem_of_workspaces_containing. cbn [workspaces_to_windows assign]. rewrite Hws2.
  assert (Hks : k ∈ ks <-> exists p, wi_parent info = Some p /\ k ∈ workspaces_containing m p).
  { unfold ks. destruct (wi_parent info); [naive_solver|]. split; [by intros ?%not_elem_of_nil|naive_solver]. }
  rewrite <-Hks. split; [|apply Hin]. intros [Hk|Hk]%Hsup; [|done].
  apply elem_of_workspaces_containing in Hk. rewrite Hnew in Hk. by apply not_elem_of_nil in Hk.
Qed.

Lemma built_keeps m s spec w m1 :
  built m s spec w m1 -> window_info m1 = window_info m /\ workspaces_to_windows m1 = workspaces_to_windows m /\
  forall p, p <> Some w -> lock (surfaces_of m1) p = lock (surfaces_of m) p.
Proof.
  intros [_ (surface & _ & ->)]. do 2 (split; [done|]). intros [p|] Hp; [|done]. unfold surfaces_of. cbn.
  by rewrite lookup_insert_ne by congruence.
Qed.

Lemma WindowInfo_from_spec w spec info :
  WindowInfo_from w spec = Ret info ->
  wi_parent info = None /\ wi_children info = [] /\ wi_state info = default mir_window_state_restored (sp_state spec).
Proof. unfold WindowInfo_from. intros (n & _ & (tl & _ & (sz & _ & [= <-])%outcome_bind_Ret)%outcome_bind_Ret)%outcome_bind_Ret. done. Qed.

(** The first steps: from the request to the registered window. *)
Lemma register_steps {B} m1 s w info parent (k : WindowInfo -> M B) :
  wi_parent info = None -> (forall p, parent = Some p -> p <> w /\ wi_window <$> window_info m1 !! p = Some (Some p)) ->
  (modify (fun m => m <| window_info := <[w := info]> (window_info m) |> <| wm_applications := <[w := s]> (wm_applications m) |>);;
   when_set parent (fun p => pi ← info_for p; set_info w (fun i => i <| wi_parent := wi_window pi |>));;
   modify (fun m => m <| app_info := alter (fun ws => ws ++ [w]) s (app_info m) |>);;
   info ← info_for w;
   when_set (wi_parent info) (fun p => info_for p;; set_info p (fun i => add_child i w));;
   k info) m1 = k (info <| wi_parent := parent |>) (registered m1 s w (info <| wi_parent := parent |>)).
Proof.
  intros Hno Hpar. erewrite M_bind_eq by reflexivity.
  destruct parent as [p|]; cbn [when_set].
  - destruct (Hpar p eq_refl) as [Hne Hp]. apply fmap_Some in Hp as (pi & Hpi & Hpw).
    set (m2 := m1 <| window_info := <[w := info]> (window_info m1) |> <| wm_applications := <[w := s]> (wm_applications m1) |>).
    rewrite (M_bind_eq _ _ m2 tt (m2 <| window_info := <[w := info <| wi_parent := Some p |>]> (window_info m1) |>)).
    2: { rewrite (M_bind_eq _ _ m2 pi m2) by (apply info_for_known; cbn; by rewrite lookup_insert_ne).
         unfold set_info, modify. cbn. rewrite <-Hpw. do 3 f_equal. apply map_eq. intros x. destruct (decide (x = w)) as [->|Hx].
         - by rewrite lookup_alter_eq, !lookup_insert_eq.
         - by rewrite lookup_alter_ne, !lookup_insert_ne by done. }
    erewrite M_bind_eq by reflexivity.
    erewrite M_bind_eq by (apply info_for_known; cbn; by rewrite lookup_insert_eq). cbn [wi_parent assign when_set].
    match goal with |- (_ ≫= _) ?x = _ => set (m3 := x) end.
    assert (info_for p m3 = Ret (pi, m3)) as Hp3 by (apply info_for_known; cbn; by rewrite lookup_insert_ne).
    rewrite (M_bind_eq _ _ m3 tt (m3 <| window_info := alter (fun i => add_child i w) p (window_info m3) |>)); [done|].
    by rewrite (M_bind_eq _ _ _ _ _ Hp3).
  - erewrite M_bind_eq by reflexivity. erewrite M_bind_eq by reflexivity.
    erewrite M_bind_eq by (apply info_for_known; cbn; by rewrite lookup_insert_eq). rewrite Hno. cbn [when_set].
    erewrite M_bind_eq by reflexivity. assert (info <| wi_parent := None |> = info) as -> by (destruct info; cbn in *; by subst).
    unfold registered. by rewrite Hno.
Qed.

(** a new window is registered everywhere.  When the surface has been
    built, [add_surface] returns the new window: it is managed with the data of
    the specification, belongs to its application, is a child of its parent and
    on exactly the workspaces of its parent, the other windows are still
    managed, and the state is consistent. *)
Theorem add_surface_registers confirm_inherited_move confirm_placement_on_display place_new_window build
    (fuel : nat) (m m1 : WM) (s : Session) (params placed : WindowSpecification) (w : Window) (info : WindowInfo) :
  wm_ok m -> sessions_ok m -> s ∈ sh_apps (wm_shell m) -> is_Some (app_info m !! s) -> (size (window_info m) < fuel)%nat ->
  place_new_surface params m = Ret (placed, m) ->
  let spec := with_parent_layer m (place_new_window m s placed) in
  let parent := match sp_parent spec with Some p => lock (surfaces_of m) p | None => None end in
  build s spec m = Ret (w, m1) -> built m s spec w m1 -> WindowInfo_from w spec = Ret info ->
  wi_state info <> mir_window_state_attached -> sp_parent spec <> Some (Some w) ->
  (forall p, parent = Some p -> wi_window <$> window_info m !! p = Some (Some p)) ->
  exists m',
    wm_add_surface confirm_inherited_move confirm_placement_on_display fuel place_new_window build s params m = Ret (w, m') /\
    wm_ok m' /\ sessions_ok m' /\ window_info m' !! w = Some (info <| wi_parent := parent |>) /\
    (exists ws, app_info m' !! s = Some ws /\ w ∈ ws) /\
    (forall p, parent = Some p -> child_rel m' p w) /\
    (forall k, k ∈ workspaces_containing m' w <-> exists p, parent = Some p /\ k ∈ workspaces_containing m p) /\
    (forall x, is_Some (window_info m' !! x) <-> x = w \/ is_Some (window_info m !! x)).
Proof.
  intros Hok Hs Hin Hai Hfuel Hplace spec parent Hbuild Hbuilt Hinfo Hatt Hself Hpar.
  destruct (WindowInfo_from_spec w spec info Hinfo) as (Hnopar & Hnil & Hst).
  set (info' := info <| wi_parent := parent |>).
  assert (Hpk : forall p, parent = Some p -> is_Some (window_info m !! p)).
  { intros p [pi [? _]]%Hpar%fmap_Some. eauto. }
  assert (Hfresh : window_info m !! w = None) by apply Hbuilt.
  destruct (built_keeps m s spec w m1 Hbuilt) as (Hi1 & Hw1 & Hl1).
  assert (Hlock : match sp_parent spec with Some p => lock (surfaces_of m1) p | None => None end = parent).
  { unfold parent. destruct (sp_parent spec) as [p|]; [|done]. apply Hl1. congruence. }
  pose proof (registered_info m m1 s spec w info' Hbuilt Hpk) as Hreg.
  pose proof (registered_known m m1 s spec w info' Hbuilt Hpk) as Hknown.
  pose proof (registered_ok m m1 s spec w info' Hok Hbuilt Hst Hnil Hpk) as Hrok.
  assert (Hrs : sessions_ok (registered m1 s w info')) by (by apply (registered_sessions_ok m m1 s spec w info')).
  set (reg := registered m1 s w info') in *.
  assert (Hsize : (size (window_info reg) <= S (size (window_info m)))%nat) by (by apply (registered_size m m1 s spec w info')).
  destruct (add_surface_finish confirm_inherited_move confirm_placement_on_display fuel reg w info') as (m' & Hfin & E1 & E2 & E3 & E4 & E5 & Hws);
    [done|by rewrite Hreg, decide_True|lia|done| |].
  { destruct Hbuilt as [(_ & _ & Hno) _]. unfold workspaces_containing in *. change (workspaces_to_windows reg) with (workspaces_to_windows m1). by rewrite Hw1. }
  exists m'. split; [|split; [|split; [|split; [|split; [|split; [|split]]]]]].
  - destruct Hai as [ws Hwsi]. unfold wm_add_surface.
    rewrite (M_bind_eq _ _ m ws m) by (unfold info_for_session; cbn; by rewrite Hwsi).
    rewrite (M_bind_eq _ _ _ _ _ Hplace). rewrite (M_bind_eq _ _ m spec m) by done. rewrite (M_bind_eq _ _ _ _ _ Hbuild).
    rewrite (M_bind_eq _ _ m1 info m1) by (unfold lift; by rewrite Hinfo). rewrite (M_bind_eq _ _ m1 parent m1) by (unfold gets; by rewrite Hlock).
    rewrite (register_steps m1 s w info parent); [exact Hfin|done|]. intros p Hp. rewrite Hi1. split; [|by apply Hpar].
    intros ->. destruct (Hpk w Hp). congruence.
  - by apply (wm_ok_same reg).
  - by apply (sessions_ok_same reg).
  - by rewrite E1, Hreg, decide_True.
  - rewrite E4. destruct (so_owner reg Hrs w) as (t & wt & _ & Ht & _ & Hwt & Hin' & _); [by rewrite Hknown; left|].
    unfold reg, registered in Ht. cbn in Ht. rewrite lookup_insert_eq in Ht. injection Ht as <-. eauto.
  - intros p Hp. destruct (Hpk p Hp) as [pi Hpi]. exists (add_child pi w). rewrite E1, Hreg, decide_False by (intros ->; congruence).
    rewrite Hpi, bool_decide_true by done. split; [done|]. cbn. set_solver.
  - intros k. rewrite Hws. unfold workspaces_containing. change (workspaces_to_windows reg) with (workspaces_to_windows m1). by rewrite Hw1.
  - intros x. by rewrite E1, Hknown.
Qed.


(** A dialog 4 of window 1, made by a factory of plain surfaces. *)
Definition example_params : WindowSpecification :=
  spec_empty <| sp_name := Some "dialog"%string |> <| sp_type := Some mir_window_type_dialog |>
             <| sp_size := Some (mkSize 40 30) |> <| sp_parent := Some (Some 1) |>.

Definition with_new_surface (w : Window) (s : Session) (m : WM) : WM :=
  m <| wm_shell := (wm_shell m) <| sh_surfaces := <[w := example_surface]> (surfaces_of m) |>
      <| sh_session_surfaces := <[s := default [] (sh_session_surfaces (wm_shell m) !! s) ++ [w]]> (sh_session_surfaces (wm_shell m)) |> |>.
Definition example_build (w : Window) (s : Session) (spec : WindowSpecification) : M Window := fun m =>
  Ret (w, with_new_surface w s m).
Definition example_placed : WindowSpecification :=
  match place_new_surface example_params example_wm with Ret (spec, _) => spec | Throw _ => spec_empty end.
Definition example_new_info : WindowInfo :=
  match WindowInfo_from 4 (with_parent_layer example_wm example_placed) with Ret i => i | Throw _ => example_info end.

Lemma add_surface_registers_witness :
  exists m', wm_add_surface canonical_confirm_inherited_move canonical_confirm_placement_on_display 4 (fun _ _ spec => spec) (example_build 4)
      10 example_params example_wm = Ret (4, m') /\ wm_ok m' /\ child_rel m' 1 4 /\ window_info m' !! 4 <> None.
Proof.
  destruct (add_surface_registers canonical_confirm_inherited_move canonical_confirm_placement_on_display (fun _ _ spec => spec) (example_build 4)
    4 example_wm (with_new_surface 4 10 example_wm) 10 example_params example_placed 4 example_new_info) as (m' & Hm' & Hok & _ & Hi & _ & Hc & _).
  - exact example_wm_ok.
  - exact example_sessions_ok.
  - apply (bool_decide_unpack _). vm_compute. exact I.
  - vm_compute. eauto.
  - vm_compute. lia.
  - vm_compute. reflexivity.
  - reflexivity.
  - split; [split_and!; reflexivity|]. exists example_surface. split; reflexivity.
  - reflexivity.
  - discriminate.
  - discriminate.
  - intros p [= <-]. reflexivity.
  - exists m'. split; [exact Hm'|]. split; [exact Hok|]. split; [apply (Hc 1); reflexivity|]. rewrite Hi. discriminate.
Defined.
