(* ===== verification/MinimalWm.v ===== *)
(** * miral::MinimalWindowManager and the input of the window manager

    The policy that moves and resizes windows with the pointer or with touches
    ([src/miral/minimal_window_manager.cpp]), and the part of
    [BasicWindowManager] that remembers the last input event and lets the
    requests through that answer to it ([src/miral/basic_window_manager.cpp]). *)
From S2P Require Import Prelude Geometry InputEvents Schedule BufferStream Occlusion WindowInfo Placement Surface Sessions Shell.
From S2P Require Import WmState WmTree WmFocus WmCycle WmOutputs WmRequests.

(** ** The policy's state *)
Definition mir_input_event_modifier_alt : Z := 2.
Definition mir_input_event_modifier_shift : Z := 16.
Definition mir_input_event_modifier_sym : Z := 128.
Definition mir_input_event_modifier_ctrl : Z := 512.
Definition mir_input_event_modifier_meta : Z := 4096.
Definition shift_states : Z :=
  Z.lor mir_input_event_modifier_alt (Z.lor mir_input_event_modifier_shift (Z.lor mir_input_event_modifier_sym
    (Z.lor mir_input_event_modifier_ctrl mir_input_event_modifier_meta))).

Definition mir_pointer_button_primary : Z := 1.
Definition mir_pointer_button_secondary : Z := 2.
Definition mir_pointer_button_tertiary : Z := 4.

Definition mir_resize_edge_none : Z := 0.
Definition mir_resize_edge_west : Z := 1.
Definition mir_resize_edge_east : Z := 2.
Definition mir_resize_edge_north : Z := 4.
Definition mir_resize_edge_south : Z := 8.

Definition KEY_TAB : Z := 15.
Definition KEY_GRAVE : Z := 41.
Definition KEY_F4 : Z := 62.

Inductive Gesture := no_gesture | pointer_moving | pointer_resizing | touch_moving | touch_resizing.
#[export] Instance Gesture_eq_dec : EqDecision Gesture.
Proof. solve_decision. Defined.

(** [gesture_window] is a weak pointer to a window. *)
Record Minimal := mkMinimal {
  gesture : Gesture;
  pointer_gesture_button : Z;
  gesture_window : option Window;
  gesture_shift_keys : Z;
  resize_edge : Z;
  resize_top_left : Point;
  resize_size : Size;
  old_cursor : Point;
  old_touch : Point
}.
#[export] Instance Minimal_eta : EtaExpansion Minimal := fun p =>
  mkMinimal (gesture p) (pointer_gesture_button p) (gesture_window p) (gesture_shift_keys p) (resize_edge p)
    (resize_top_left p) (resize_size p) (old_cursor p) (old_touch p).

Definition event_modifiers (h : InputHeader) : Z := Z.land (modifiers h) shift_states.
Definition button_held (e : MirPointerEvent) (button : Z) : bool := has_flag (p_buttons e) button.
Definition cursor_of (e : MirPointerEvent) : Point := point_of_floats (axis_x e) (axis_y e).

(** [total += value]: the sum of a [long] and a [float] is a [float], which
    is converted back. *)
Definition add_to_long (total : Z) (v : float32) : Z := int_of_float (fadd (float_of_int total) v).

Definition touch_center (e : MirTouchEvent) : outcome Point :=
  let count := Z.of_nat (length (contacts e)) in
  let total_x := foldl (fun t c => add_to_long t (c_x c)) 0 (contacts e) in
  let total_y := foldl (fun t c => add_to_long t (c_y c)) 0 (contacts e) in
  if count =? 0 then Throw divide_by_zero else Ret (mkPoint (Z.quot total_x count) (Z.quot total_y count)).

(** ** Gestures *)
Definition first_button (e : MirPointerEvent) (otherwise : Z) : Z :=
  default otherwise (find_if (button_held e) [mir_pointer_button_primary; mir_pointer_button_secondary; mir_pointer_button_tertiary]).

Definition start_gesture (m : WM) (w : Window) (g : Gesture) (shift_keys edge : Z) (p : Minimal) : Minimal :=
  p <| gesture := g |> <| gesture_window := Some w |> <| gesture_shift_keys := shift_keys |>
    <| resize_top_left := window_top_left m w |> <| resize_size := window_size m w |> <| resize_edge := edge |>.

Definition begin_pointer_gesture (w : Window) (i : WindowInfo) (ev : MirEvent) (g : Gesture) (edge : Z) (p : Minimal) : M (Minimal * bool) :=
  match ev with
  | PointerEvent e =>
      if bool_decide (wi_state i <> mir_window_state_restored) then mret (p, false)
      else
        m ← gets id;
        let p1 := start_gesture m w g (event_modifiers (p_header e)) edge p in
        mret (p1 <| pointer_gesture_button := first_button e (pointer_gesture_button p1) |>, true)
  | _ => mret (p, false)
  end.

Definition begin_touch_gesture (w : Window) (i : WindowInfo) (ev : MirEvent) (g : Gesture) (edge : Z) (p : Minimal) : M (Minimal * bool) :=
  match ev with
  | TouchEvent e =>
      if bool_decide (wi_state i <> mir_window_state_restored) then mret (p, false)
      else m ← gets id; mret (start_gesture m w g (event_modifiers (t_header e)) edge p, true)
  | _ => mret (p, false)
  end.

Definition minimal_request_move (w : Window) (i : WindowInfo) (ev : MirEvent) (p : Minimal) : M Minimal :=
  r ← begin_pointer_gesture w i ev pointer_moving mir_resize_edge_none p;
  if (snd r : bool) then mret (fst r)
  else r ← begin_touch_gesture w i ev touch_moving mir_resize_edge_none (fst r); mret (fst r).

Definition minimal_request_resize (w : Window) (i : WindowInfo) (ev : MirEvent) (edge : Z) (p : Minimal) : M Minimal :=
  r ← begin_pointer_gesture w i ev pointer_resizing edge p;
  if (snd r : bool) then mret (fst r)
  else r ← begin_touch_gesture w i ev touch_resizing edge (fst r); mret (fst r).

(** The rectangle that a resize by [movement] asks for. *)
Definition resized_by (edge : Z) (top_left : Point) (size : Size) (movement : Displacement) : Rectangle :=
  let new_width := if has_flag edge mir_resize_edge_east then width size + dx movement else width size in
  let new_width := if has_flag edge mir_resize_edge_west then width size - dx movement else new_width in
  let new_height := if has_flag edge mir_resize_edge_north then height size - dy movement else height size in
  let new_height := if has_flag edge mir_resize_edge_south then height size + dy movement else new_height in
  let x := if has_flag edge mir_resize_edge_west then px top_left + dx movement else px top_left in
  let y := if has_flag edge mir_resize_edge_north then py top_left + dy movement else py top_left in
  mkRectangle (mkPoint x y) (mkSize new_width new_height).

Definition place_at_request (r : Rectangle) : WindowSpecification :=
  spec_empty <| sp_top_left := Some (top_left r) |> <| sp_size := Some (r_size r) |>.

Section Minimal.
(** The scene's answer to which surface is at a point. *)
Context (surface_at : WM -> Point -> option Window).
Context (fuel steps : nat).

Notation modify := (modify_window canonical_confirm_inherited_move canonical_confirm_placement_on_display fuel).
Notation select := (select_active_window fuel).
Notation drag := (drag_active_window canonical_confirm_inherited_move fuel).

(** [gesture_window && tools.select_active_window(gesture_window) == gesture_window] *)
Definition gesture_window_selected (p : Minimal) : M bool :=
  window ← gets (fun m => lock (surfaces_of m) (gesture_window p));
  match window with
  | None => mret false
  | Some w => selected ← select (Some w); mret (bool_decide (selected = Some w))
  end.

Definition apply_resize_by (movement : Displacement) (p : Minimal) : M Minimal :=
  ok ← gesture_window_selected p;
  if (ok : bool) then
    match gesture_window p with
    | Some w =>
        let r := resized_by (resize_edge p) (resize_top_left p) (resize_size p) movement in
        modify w (place_at_request r);;
        mret (p <| resize_top_left := top_left r |> <| resize_size := r_size r |>)
    | None => mret p
    end
  else mret (p <| gesture := no_gesture |>).

Definition drag_gesture_window (movement : Displacement) (p : Minimal) : M (Minimal * bool) :=
  ok ← gesture_window_selected p;
  if (ok : bool) then drag movement;; mret (p, true) else mret (p <| gesture := no_gesture |>, false).

Definition window_at (at_ : Point) : M (option Window) :=
  s ← gets (fun m => surface_at m at_);
  match s with Some w => info ← info_for w; mret (wi_window info) | None => mret None end.

Definition select_at (at_ : Point) : M unit :=
  w ← window_at at_;
  match w with Some x => select (Some x);; mret tt | None => mret tt end.

Definition continues (e : MirPointerEvent) (p : Minimal) : bool :=
  bool_decide (p_action e = mir_pointer_action_motion) && (event_modifiers (p_header e) =? gesture_shift_keys p)
  && button_held e (pointer_gesture_button p).

Definition minimal_handle_pointer_event (e : MirPointerEvent) (p : Minimal) : M (Minimal * bool) :=
  let new_cursor := cursor_of e in
  r ← match gesture p with
      | pointer_resizing =>
          if continues e p then p1 ← apply_resize_by (point_diff new_cursor (old_cursor p)) p; mret (p1, true)
          else mret (p <| gesture := no_gesture |>, false)
      | pointer_moving =>
          if continues e p then drag_gesture_window (point_diff new_cursor (old_cursor p)) p
          else mret (p <| gesture := no_gesture |>, false)
      | _ => mret (p, false)
      end;
  (if negb (snd r) && bool_decide (p_action e = mir_pointer_action_button_down) then select_at new_cursor else mret tt);;
  mret ((fst r) <| old_cursor := new_cursor |>, snd r).

Definition is_drag (e : MirTouchEvent) : bool :=
  forallb (fun c => match action c with mir_touch_action_change => true | _ => false end) (contacts e).

Definition single_down (e : MirTouchEvent) : bool :=
  match contacts e with [c] => bool_decide (action c = mir_touch_action_down) | _ => false end.

Definition minimal_handle_touch_event (e : MirTouchEvent) (p : Minimal) : M (Minimal * bool) :=
  new_touch ← lift (touch_center e);
  let goes_on := is_drag e && (gesture_shift_keys p =? event_modifiers (t_header e)) in
  r ← match gesture p with
      | touch_resizing =>
          if goes_on then
            ok ← gesture_window_selected p;
            if (ok : bool) then p1 ← apply_resize_by (point_diff new_touch (old_touch p)) p; mret (p1, true)
            else mret (p <| gesture := no_gesture |>, false)
          else mret (p <| gesture := no_gesture |>, false)
      | touch_moving =>
          if goes_on then drag_gesture_window (point_diff new_touch (old_touch p)) p
          else mret (p <| gesture := no_gesture |>, false)
      | _ => mret (p, false)
      end;
  (if negb (snd r) && single_down e then select_at new_touch else mret tt);;
  mret ((fst r) <| old_touch := new_touch |>, snd r).

(** The result says whether the event is consumed, and the window whose
    client is asked to close it. *)
Definition minimal_handle_keyboard_event (e : MirKeyboardEvent) : M (bool * option Window) :=
  let shift_state := event_modifiers (k_header e) in
  let down := bool_decide (k_action e = mir_keyboard_action_down) in
  if down && (shift_state =? mir_input_event_modifier_alt) then
    if scan_code e =? KEY_F4 then w ← gets active_window; mret (true, w)
    else if scan_code e =? KEY_TAB then focus_next_application steps fuel;; mret (true, None)
    else if scan_code e =? KEY_GRAVE then focus_next_within_application fuel;; mret (true, None)
    else mret (false, None)
  else if down && (shift_state =? Z.lor mir_input_event_modifier_alt mir_input_event_modifier_shift) then
    if scan_code e =? KEY_TAB then focus_prev_application steps fuel;; mret (true, None)
    else if scan_code e =? KEY_GRAVE then focus_prev_within_application fuel;; mret (true, None)
    else mret (false, None)
  else mret (false, None).

Definition minimal_handle_window_ready (w : Window) : M unit :=
  info ← info_for w; if can_be_active (wi_type info) then select (Some w);; mret tt else mret tt.

Definition minimal_handle_raise_window (w : Window) : M unit := select (Some w);; mret tt.
End Minimal.

(** ** The manager's side: input and requests that answer to it *)
Record Managed := mkManaged { policy : Minimal; last_input_event_timestamp : Z; last_input_event : option MirEvent }.
#[export] Instance Managed_eta : EtaExpansion Managed := fun d =>
  mkManaged (policy d) (last_input_event_timestamp d) (last_input_event d).

Definition remember (t : Z) (ev : MirEvent) (d : Managed) : Managed :=
  d <| last_input_event_timestamp := t |> <| last_input_event := Some ev |>.

Definition update_event_timestamp (ev : MirEvent) (d : Managed) : Managed :=
  match ev with
  | KeyEvent e => remember (event_time (k_header e)) ev d
  | PointerEvent e =>
      match p_action e with
      | mir_pointer_action_button_up | mir_pointer_action_button_down => remember (event_time (p_header e)) ev d
      | _ => d
      end
  | TouchEvent e =>
      if existsb (fun c => match action c with mir_touch_action_change => false | _ => true end) (contacts e)
      then remember (event_time (t_header e)) ev d else d
  | NonInputEvent _ => d
  end.

Definition surface_known (m : WM) (w : Window) : bool := bool_decide (is_Some (window_info m !! w)).

Section Managing.
Context (surface_at : WM -> Point -> option Window).
Context (fuel steps : nat).

(** [handle_keyboard_event], [handle_touch_event] and [handle_pointer_event]
    by the kind of the event. *)
Definition wm_handle_event (ev : MirEvent) (d : Managed) : M (Managed * bool) :=
  let d1 := update_event_timestamp ev d in
  match ev with
  | KeyEvent e => r ← minimal_handle_keyboard_event fuel steps e; mret (d1, fst r)
  | TouchEvent e =>
      r ← minimal_handle_touch_event surface_at fuel e (policy d1); mret (d1 <| policy := fst r |>, snd r)
  | PointerEvent e =>
      modify (fun m => m <| cursor := cursor_of e |>);;
      r ← minimal_handle_pointer_event surface_at fuel e (policy d1); mret (d1 <| policy := fst r |>, snd r)
  | NonInputEvent _ => mret (d, false)
  end.

Definition handle_raise_surface (w : Window) (timestamp : Z) (d : Managed) : M unit :=
  known ← gets (fun m => surface_known m w);
  if negb known then mret tt
  else if last_input_event_timestamp d <=? timestamp then info_for w;; minimal_handle_raise_window fuel w
  else mret tt.

Definition handle_request_move (w : Window) (timestamp : Z) (d : Managed) : M Managed :=
  known ← gets (fun m => surface_known m w);
  if negb known then mret d
  else
    match last_input_event d with
    | Some ev =>
        if last_input_event_timestamp d <=? timestamp then
          i ← info_for w; p ← minimal_request_move w i ev (policy d); mret (d <| policy := p |>)
        else mret d
    | None => mret d
    end.

Definition handle_request_resize (w : Window) (timestamp edge : Z) (d : Managed) : M Managed :=
  known ← gets (fun m => surface_known m w);
  if negb known then mret d
  else
    match last_input_event d with
    | Some ev =>
        if last_input_event_timestamp d <=? timestamp then
          i ← info_for w; p ← minimal_request_resize w i ev edge (policy d); mret (d <| policy := p |>)
        else mret d
    | None => mret d
    end.
End Managing.

(** ** Moving a window with the pointer *)
(** The windows [ws] have been moved by [d]; but for the focus nothing else of
    the windows has changed. *)
Record carried (ws : list Window) (d : Displacement) (m m' : WM) : Prop := {
  carried_info : window_info m' = window_info m;
  carried_streams : wm_streams m' = wm_streams m;
  carried_surfaces : forall x,
    blur <$> surfaces_of m' !! x = (if bool_decide (x ∈ ws) then shifted d else id) <$> (blur <$> surfaces_of m !! x)
}.

Lemma carried_trans ws d1 d2 m m1 m2 :
  carried ws d1 m m1 -> carried ws d2 m1 m2 ->
  carried ws (mkDisplacement (dx d1 + dx d2) (dy d1 + dy d2)) m m2.
Proof.
  intros [I1 S1 F1] [I2 S2 F2]. split; [congruence..|]. intros x. rewrite F2, F1.
  destruct (surfaces_of m !! x) as [s|]; [|done]. case_bool_decide; [|done]. cbn. f_equal.
  destruct s as [? [[? ?] ?]]. unfold shifted, blur, assign, point_add. cbn. do 3 f_equal; lia.
Qed.

Lemma carried_lookup {A} (f : Surface -> A) ws d m m' x :
  (forall s, f (blur s) = f s) -> (forall s, f (shifted d s) = f s) -> carried ws d m m' ->
  f <$> surfaces_of m' !! x = f <$> surfaces_of m !! x.
Proof.
  intros Hb Hs [_ _ F]. specialize (F x). destruct (surfaces_of m' !! x) as [s'|], (surfaces_of m !! x) as [s|]; try done.
  apply (inj Some) in F. cbn. f_equal. rewrite <-(Hb s'), F. case_bool_decide; [by rewrite Hs, Hb|apply Hb].
Qed.

Lemma carried_visible ws d m m' x i : carried ws d m m' -> info_is_visible m' x i = info_is_visible m x i.
Proof.
  intros Hc. unfold info_is_visible. rewrite (carried_streams _ _ _ _ Hc). f_equal.
  by apply (carried_lookup (surface_visible (wm_streams m)) ws d).
Qed.

Lemma carried_child ws d m m' p c : carried ws d m m' -> child_rel m' p c <-> child_rel m p c.
Proof. intros Hc. unfold child_rel. by rewrite (carried_info _ _ _ _ Hc). Qed.

Lemma carried_dialog ws d m m' w : carried ws d m m' -> shows_dialog m' w -> shows_dialog m w.
Proof.
  intros Hc (c & ci & H1 & H2 & H3 & H4). exists c, ci. rewrite (carried_info _ _ _ _ Hc) in H2.
  rewrite (carried_visible _ _ _ _ _ _ Hc) in H4. apply (carried_child _ _ _ _ _ _ Hc) in H1. done.
Qed.

(** A window that the user can move. *)
Record movable (m : WM) (w : Window) : Prop := {
  movable_ok : wm_ok m;
  movable_info : exists i, window_info m !! w = Some i /\ wi_state i = mir_window_state_restored /\
    user_movable (wi_type i) = true /\ can_be_active (wi_type i) = true /\ info_is_visible m w i = true;
  movable_dialog : ~ shows_dialog m w
}.

Lemma carried_movable ws d m m' w : carried ws d m m' -> wm_ok m' -> movable m w -> movable m' w.
Proof.
  intros Hc Hok [_ (i & Hi & H1 & H2 & H3 & H4) Hd]. split; [done| |by intros H%(carried_dialog _ _ _ _ _ Hc)].
  exists i. rewrite (carried_info _ _ _ _ Hc), (carried_visible _ _ _ _ _ _ Hc). done.
Qed.

(** Selecting a window on view changes the focus only. *)
Lemma select_movable f w m :
  movable m w ->
  exists m', select_active_window (S f) (Some w) m = Ret (Some w, m') /\ carried [] (mkDisplacement 0 0) m m' /\ wm_ok m' /\
    active_window m' = Some w.
Proof.
  intros [Hok (i & Hi & Hst & _ & Hact & Hv) Hd].
  destruct (select_step f w m i Hok Hi) as [(c & ci & Hch & Hci & Hct & Hcv & _)|[_ Hsel]]; [by exfalso; apply Hd; exists c, ci|].
  rewrite Hact, Hst in Hsel. cbn in Hsel. destruct Hsel as (m' & Hsel & Hres & _ & _ & Hsame).
  destruct (Hsame Hv) as (H1 & H2 & H3). exists m'. split; [done|]. split; [|split; [apply Hres|apply Hres]].
  split; [done..|]. intros x. rewrite bool_decide_false by apply not_elem_of_nil. rewrite option_fmap_id. apply H3.
Qed.

Lemma carried_nil ws d0 d m m1 m2 : carried [] d0 m m1 -> carried ws d m1 m2 -> carried ws d m m2.
Proof.
  intros [I1 S1 F1] [I2 S2 F2]. split; [congruence..|]. intros x. rewrite F2, F1.
  rewrite (bool_decide_false (x ∈ [])) by apply not_elem_of_nil. by rewrite option_fmap_id.
Qed.

(** The tree of the window moves. *)
Lemma move_carried fuel w d ws m :
  wm_ok m -> tree_of fuel w m = Ret (ws, m) -> NoDup ws -> Forall (fun x => is_Some (surfaces_of m !! x)) ws ->
  exists m', move_tree canonical_confirm_inherited_move fuel w d m = Ret (tt, m') /\ carried ws d m m' /\ wm_ok m' /\
    active_window m' = active_window m.
Proof.
  intros Hok Ht Hnd Hs. destruct (move_tree_moves fuel w d ws m Ht Hnd Hs) as (m' & E & Hmv). exists m'. split; [done|].
  assert (Hc : carried ws d m m').
  { destruct Hmv as [Hsurf Hsame]. split; [by rewrite <-Hsame|by rewrite <-Hsame|]. intros x. rewrite Hsurf.
    destruct (surfaces_of m !! x) as [s|]; [|done]. cbn. by case_bool_decide. }
  split; [done|]. destruct Hmv as [Hsurf Hsame].
  assert (Hmru : mru_active_windows m' = mru_active_windows m) by by rewrite <-Hsame.
  assert (Hallow : allow_active_window m' = allow_active_window m) by by rewrite <-Hsame. split.
  - split.
    + apply (forest_keep m); [intros x; by rewrite (carried_info _ _ _ _ Hc)|intros x Hx; rewrite Hsurf; by apply fmap_is_Some|apply Hok].
    + intros x i s Hi Hx. rewrite (carried_info _ _ _ _ Hc) in Hi.
      pose proof (carried_lookup sf_state ws d m m' x ltac:(done) ltac:(done) Hc) as Hst. rewrite Hx in Hst.
      destruct (surfaces_of m !! x) as [s0|] eqn:E0; [|done]. injection Hst as ->. by apply (wm_coherent m Hok x).
    + intros x. rewrite Hmru, (carried_info _ _ _ _ Hc). apply (wm_mru m Hok).
  - unfold active_window, mru_top. rewrite Hallow, Hmru. case_match; [|done]. apply find_if_ext. intros x. unfold mru_visible.
    pose proof (carried_lookup sf_state ws d m m' x ltac:(done) ltac:(done) Hc) as Hst.
    destruct (surfaces_of m' !! x), (surfaces_of m !! x); try done. injection Hst as ->. done.
Qed.

(** The windows of the tree of [w]. *)
Definition is_tree (m : WM) (w : Window) (ws : list Window) : Prop := forall x, x ∈ ws <-> rtc (child_rel m) w x.

Lemma is_tree_info m m' w ws : window_info m' = window_info m -> is_tree m w ws -> is_tree m' w ws.
Proof. intros E H x. rewrite (H x). unfold child_rel. by rewrite E. Qed.

Lemma drag_step f p w ws d m :
  movable m w -> gesture_window p = Some w -> is_tree m w ws -> (size (window_info m) <= S f)%nat ->
  exists m', drag_gesture_window (S f) d p m = Ret ((p, true), m') /\ carried ws d m m' /\ movable m' w /\ active_window m' = Some w.
Proof.
  intros Hmov Hg Htree Hf. pose proof Hmov as [Hok (i & Hi & Hst & Hum & _) _].
  destruct (select_movable f w m Hmov) as (m1 & Hsel & Hc1 & Hok1 & Hact1).
  pose proof (carried_movable _ _ _ _ _ Hc1 Hok1 Hmov) as Hmov1. pose proof (carried_info _ _ _ _ Hc1) as Hinfo1.
  destruct (tree_of_known m1 (S f) w (wm_forest m1 Hok1)) as (ws1 & Ht & Hnd & Hws1); [rewrite Hinfo1; eauto|by rewrite Hinfo1|].
  destruct (move_carried (S f) w d ws1 m1 Hok1 Ht Hnd) as (m2 & Hmove & Hc2 & Hok2 & Hact2).
  { apply Forall_forall. intros x Hx%Hws1. apply (forest_surface m1 (wm_forest m1 Hok1)).
    eapply rtc_child_known; [apply Hok1|rewrite Hinfo1; eauto|exact Hx]. }
  assert (Hc : carried ws d m m2).
  { apply (carried_nil ws (mkDisplacement 0 0) d m m1 m2 Hc1). destruct Hc2 as [I2 S2 F2]. split; [done..|]. intros x. rewrite F2.
    rewrite (bool_decide_ext (x ∈ ws) (x ∈ ws1)); [done|]. rewrite Hws1, (Htree x). unfold child_rel. by rewrite Hinfo1. }
  exists m2. split; [|split; [done|split; [by eapply carried_movable|by rewrite Hact2]]].
  unfold drag_gesture_window, gesture_window_selected. rewrite Hg.
  assert (Hsurf : is_Some (surfaces_of m !! w)) by (apply (forest_surface m (wm_forest m Hok)); eauto).
  rewrite (M_bind_eq _ _ m true m1).
  2: { rewrite (M_bind_eq _ _ m (Some w) m) by (unfold gets; by rewrite (proj2 (lock_Some _ _ w) (conj eq_refl Hsurf))).
       rewrite (M_bind_eq _ _ _ _ _ Hsel). by rewrite bool_decide_true. }
  cbv iota. rewrite (M_bind_eq _ _ m1 tt m2); [done|].
  unfold drag_active_window. rewrite (M_bind_eq _ _ m1 (Some w) m1) by (unfold gets; by rewrite Hact1).
  unfold drag_window. rewrite (M_bind_eq _ _ m1 i m1) by (apply info_for_known; by rewrite Hinfo1). rewrite Hum, Hst. exact Hmove.
Qed.

(** ** Events and gestures *)
Fixpoint handle_events (surface_at : WM -> Point -> option Window) (fuel steps : nat) (evs : list MirEvent) (d : Managed) : M (Managed * list bool) :=
  match evs with
  | [] => mret (d, [])
  | ev :: rest =>
      r ← wm_handle_event surface_at fuel steps ev d;
      r' ← handle_events surface_at fuel steps rest (fst r);
      mret (fst r', snd r :: snd r')
  end.

Section Gestures.
Context (surface_at : WM -> Point -> option Window) (f steps : nat).

(** The events of a gesture: motions with the modifiers and the button it
    began with. *)
Definition gesture_motion (shift_keys button : Z) (e : MirPointerEvent) : Prop :=
  p_action e = mir_pointer_action_motion /\ event_modifiers (p_header e) = shift_keys /\ button_held e button = true.

Lemma gesture_motion_continues p e :
  gesture_motion (gesture_shift_keys p) (pointer_gesture_button p) e -> continues e p = true.
Proof. intros (H1 & H2 & H3). unfold continues. by rewrite H1, H2, H3, bool_decide_true, Z.eqb_refl. Qed.

Lemma cursor_carried m pt : carried [] (mkDisplacement 0 0) m (m <| cursor := pt |>).
Proof. split; [done..|]. intros x. rewrite bool_decide_false by apply not_elem_of_nil. by rewrite option_fmap_id. Qed.

Lemma cursor_ok m pt : wm_ok m -> wm_ok (m <| cursor := pt |>).
Proof. intros [Hf Hc Hm]. split; [by apply (forest_keep m)|exact Hc|exact Hm]. Qed.

Lemma moving_step d w ws e m :
  movable m w -> is_tree m w ws -> (size (window_info m) <= S f)%nat ->
  gesture (policy d) = pointer_moving -> gesture_window (policy d) = Some w ->
  gesture_motion (gesture_shift_keys (policy d)) (pointer_gesture_button (policy d)) e ->
  exists m', wm_handle_event surface_at (S f) steps (PointerEvent e) d m =
      Ret ((d <| policy := (policy d) <| old_cursor := cursor_of e |> |>, true), m') /\
    carried ws (point_diff (cursor_of e) (old_cursor (policy d))) m m' /\ movable m' w /\ active_window m' = Some w.
Proof.
  intros Hmov Htree Hf Hg Hw He. pose proof He as (Hmotion & _ & _). unfold wm_handle_event.
  assert (update_event_timestamp (PointerEvent e) d = d) as -> by (cbn; by rewrite Hmotion).
  rewrite (M_bind_eq _ _ m tt (m <| cursor := cursor_of e |>)) by done.
  pose proof (cursor_carried m (cursor_of e)) as Hc0.
  destruct (drag_step f (policy d) w ws (point_diff (cursor_of e) (old_cursor (policy d))) (m <| cursor := cursor_of e |>))
    as (m' & Hdrag & Hc & Hmov' & Hact); [by eapply carried_movable; [|apply cursor_ok, Hmov|]|done|done|done|].
  exists m'. split; [|split; [by eapply carried_nil|done]].
  rewrite (M_bind_eq _ _ _ ((policy d) <| old_cursor := cursor_of e |>, true) m'); [done|].
  unfold minimal_handle_pointer_event. rewrite Hg, (gesture_motion_continues _ _ He). rewrite (M_bind_eq _ _ _ _ _ Hdrag). reflexivity.
Qed.

(** Where the cursor is after some motions. *)
Definition last_cursor (start : Point) (es : list MirPointerEvent) : Point := foldl (fun _ e => cursor_of e) start es.

Lemma point_diff_trans a b c :
  mkDisplacement (dx (point_diff b a) + dx (point_diff c b)) (dy (point_diff b a) + dy (point_diff c b)) = point_diff c a.
Proof. destruct a, b, c. unfold point_diff. cbn. f_equal; lia. Qed.

Lemma moving_run d w ws es m :
  movable m w -> is_tree m w ws -> (size (window_info m) <= S f)%nat ->
  gesture (policy d) = pointer_moving -> gesture_window (policy d) = Some w ->
  Forall (gesture_motion (gesture_shift_keys (policy d)) (pointer_gesture_button (policy d))) es ->
  exists d' m', handle_events surface_at (S f) steps (PointerEvent <$> es) d m = Ret ((d', replicate (length es) true), m') /\
    gesture (policy d') = pointer_moving /\
    carried ws (point_diff (last_cursor (old_cursor (policy d)) es) (old_cursor (policy d))) m m' /\ movable m' w /\
    (es <> [] -> active_window m' = Some w).
Proof.
  revert d m. induction es as [|e es IH]; intros d m Hmov Htree Hf Hg Hw Hes.
  { exists d, m. split; [done|]. split; [done|]. split; [|done]. cbn [last_cursor foldl].
    replace (point_diff (old_cursor (policy d)) (old_cursor (policy d))) with (mkDisplacement 0 0)
      by (unfold point_diff; f_equal; lia).
    split; [done..|]. intros x. destruct (surfaces_of m !! x); [|done]. cbn. by case_bool_decide; rewrite ?shifted_zero. }
  apply Forall_cons in Hes as [He Hes].
  destruct (moving_step d w ws e m Hmov Htree Hf Hg Hw He) as (m1 & E1 & Hc1 & Hmov1 & Hact1).
  set (d1 := d <| policy := (policy d) <| old_cursor := cursor_of e |> |>) in *. pose proof (carried_info _ _ _ _ Hc1) as Hinfo.
  destruct (IH d1 m1 Hmov1) as (d' & m' & E & Hg' & Hc & Hmov' & Hact); [by eapply is_tree_info|by rewrite Hinfo|done..|].
  exists d', m'. split; [|split; [done|split; [|split; [done|]]]].
  - cbn [fmap list_fmap handle_events]. rewrite (M_bind_eq _ _ _ _ _ E1). cbn [fst snd]. rewrite (M_bind_eq _ _ _ _ _ E). reflexivity.
  - pose proof (carried_trans ws _ _ m m1 m' Hc1 Hc) as H. cbn [d1 policy old_cursor assign last_cursor] in H.
    rewrite point_diff_trans in H. exact H.
  - intros _. destruct es as [|e2 es]; [|by apply Hact]. cbn in E. by injection E as <- <-.
Qed.

(** Without a gesture motions move only the cursor, and a release of the
    button ends the gesture. *)
Lemma idle_run d es m :
  gesture (policy d) = no_gesture -> Forall (fun e => p_action e = mir_pointer_action_motion) es ->
  exists d' pt, handle_events surface_at (S f) steps (PointerEvent <$> es) d m = Ret ((d', replicate (length es) false), m <| cursor := pt |>).
Proof.
  revert d m. induction es as [|e es IH]; intros d m Hg Hes; [exists d, (cursor m); cbn; by destruct m|].
  apply Forall_cons in Hes as [He Hes].
  destruct (IH (d <| policy := (policy d) <| old_cursor := cursor_of e |> |>) (m <| cursor := cursor_of e |>)) as (d' & pt & E); [done|done|].
  exists d', pt. cbn [fmap list_fmap handle_events].
  rewrite (M_bind_eq _ _ m (d <| policy := (policy d) <| old_cursor := cursor_of e |> |>, false) (m <| cursor := cursor_of e |>)).
  - cbn [fst snd]. rewrite (M_bind_eq _ _ _ _ _ E). reflexivity.
  - unfold wm_handle_event. assert (update_event_timestamp (PointerEvent e) d = d) as -> by (cbn; by rewrite He).
    rewrite (M_bind_eq _ _ m tt (m <| cursor := cursor_of e |>)) by done. unfold minimal_handle_pointer_event. rewrite Hg, He. reflexivity.
Qed.

Lemma release_run d up es m :
  gesture (policy d) = pointer_moving \/ gesture (policy d) = pointer_resizing ->
  p_action up = mir_pointer_action_button_up -> Forall (fun e => p_action e = mir_pointer_action_motion) es ->
  exists d' pt, handle_events surface_at (S f) steps (PointerEvent <$> up :: es) d m =
    Ret ((d', replicate (S (length es)) false), m <| cursor := pt |>).
Proof.
  intros Hg Hup Hes.
  set (d1 := (remember (event_time (p_header up)) (PointerEvent up) d) <| policy := (policy d) <| gesture := no_gesture |> <| old_cursor := cursor_of up |> |>).
  destruct (idle_run d1 es (m <| cursor := cursor_of up |>)) as (d' & pt & E); [done|done|]. exists d', pt.
  cbn [fmap list_fmap handle_events]. rewrite (M_bind_eq _ _ m (d1, false) (m <| cursor := cursor_of up |>)).
  - cbn [fst snd]. rewrite (M_bind_eq _ _ _ _ _ E). reflexivity.
  - unfold wm_handle_event. assert (update_event_timestamp (PointerEvent up) d = remember (event_time (p_header up)) (PointerEvent up) d) as ->
      by (cbn; by rewrite Hup).
    rewrite (M_bind_eq _ _ m tt (m <| cursor := cursor_of up |>)) by done. unfold minimal_handle_pointer_event.
    assert (continues up (policy d) = false) as Hc by (unfold continues; by rewrite Hup).
    cbn [policy remember assign]. destruct Hg as [-> | ->]; rewrite Hc, Hup; reflexivity.
Qed.

Lemma handle_events_app evs1 evs2 d m d1 r1 m1 d2 r2 m2 :
  handle_events surface_at (S f) steps evs1 d m = Ret ((d1, r1), m1) ->
  handle_events surface_at (S f) steps evs2 d1 m1 = Ret ((d2, r2), m2) ->
  handle_events surface_at (S f) steps (evs1 ++ evs2) d m = Ret ((d2, r1 ++ r2), m2).
Proof.
  revert d m r1. induction evs1 as [|ev evs1 IH]; intros d m r1 H1 H2; cbn [handle_events app] in *; [by injection H1 as <- <- <-|].
  apply M_bind_Ret in H1 as ([da ra] & ma & Ha & H1). apply M_bind_Ret in H1 as ([db rb] & mb & Hb & H1).
  cbn in H1. injection H1 as <- <- <-. rewrite (M_bind_eq _ _ _ _ _ Ha). cbn [fst snd].
  rewrite (M_bind_eq _ _ _ _ _ (IH _ _ _ Hb H2)). reflexivity.
Qed.
End Gestures.

(** ** Resizing a window with the pointer *)
(** But for the focus and the places nothing of the windows has changed. *)
Record placed (m m' : WM) : Prop := {
  placed_info : window_info m' = window_info m;
  placed_streams : wm_streams m' = wm_streams m;
  placed_surfaces : forall x, unplaced <$> (blur <$> surfaces_of m' !! x) = unplaced <$> (blur <$> surfaces_of m !! x)
}.

Lemma placed_trans m m1 m2 : placed m m1 -> placed m1 m2 -> placed m m2.
Proof. intros [I1 S1 F1] [I2 S2 F2]. split; [congruence..|]. intros x. by rewrite F2. Qed.

Lemma carried_placed ws d m m' : carried ws d m m' -> placed m m'.
Proof.
  intros [I S F]. split; [done..|]. intros x. rewrite F. destruct (surfaces_of m !! x); [|done]. by case_bool_decide.
Qed.

Lemma placed_visible m m' x i : placed m m' -> info_is_visible m' x i = info_is_visible m x i.
Proof.
  intros [I S F]. unfold info_is_visible. rewrite S. f_equal. specialize (F x).
  destruct (surfaces_of m' !! x) as [s'|], (surfaces_of m !! x) as [s|]; try done. injection F as F. cbn. f_equal.
  destruct s, s'. unfold surface_visible. cbn in *. congruence.
Qed.

Lemma placed_movable m m' w : placed m m' -> wm_ok m' -> movable m w -> movable m' w.
Proof.
  intros Hp Hok [_ (i & Hi & H1 & H2 & H3 & H4) Hd]. split; [done|exists i; rewrite (placed_info _ _ Hp), (placed_visible _ _ _ _ Hp); done|].
  intros (c & ci & (pi & Hpi & Hc) & Hci & Ht & Hv). apply Hd. exists c, ci. rewrite (placed_info _ _ Hp) in Hpi, Hci.
  rewrite (placed_visible _ _ _ _ Hp) in Hv. split_and!; try done. by exists pi.
Qed.

(** A request with a place only. *)
Lemma modify_window_place fuel m w i r :
  wm_ok m -> window_info m !! w = Some i -> wi_state i <> mir_window_state_attached -> (size (window_info m) <= fuel)%nat ->
  positive (r_size r) ->
  exists m', modify_window canonical_confirm_inherited_move canonical_confirm_placement_on_display fuel w (place_at_request r) m = Ret (tt, m') /\
    wm_ok m' /\ placed m m' /\ window_rect m' w = r /\ active_window m' = active_window m.
Proof.
  intros Hok Hi Hna Hfuel Hpos. unfold modify_window.
  rewrite (M_bind_eq _ _ _ _ _ (info_for_known w m i Hi)). erewrite M_bind_eq by reflexivity.
  rewrite (M_bind_eq _ _ m i m) by reflexivity.
  rewrite (M_bind_eq _ _ m i m) by (unfold lift, morph; by rewrite bool_decide_true).
  rewrite (M_bind_eq _ _ _ _ _ (set_info_same w i m Hi)). erewrite M_bind_eq by reflexivity.
  rewrite (bool_decide_false (wi_type i <> wi_type i)) by (by intros []). erewrite M_bind_eq by reflexivity.
  rewrite (M_bind_eq _ _ m tt m) by (unfold reparent; by rewrite bool_decide_true).
  do 3 (erewrite M_bind_eq by reflexivity).
  destruct (canonical_place_spec m fuel w (top_left r) (r_size r)) as (m2 & E2 & Hsame2 & Hf2 & Hr2 & _ & Hun);
    [apply Hok|eauto|lia|done|].
  assert (Hmp : modify_placement canonical_confirm_inherited_move fuel w (place_at_request r) m = Ret (tt, m2)) by exact E2.
  rewrite (M_bind_eq _ _ _ _ _ Hmp). do 2 (erewrite M_bind_eq by reflexivity).
  assert (Hz : zones_need_update i (place_at_request r) = false).
  { unfold zones_need_update. rewrite (bool_decide_false (wi_state i = _)) by done. done. }
  rewrite Hz. erewrite M_bind_eq by reflexivity. exists m2. split; [reflexivity|].
  pose proof (same_manager_info _ _ Hsame2) as Hinfo2.
  assert (Hmru : mru_active_windows m2 = mru_active_windows m) by (unfold same_manager in Hsame2; by rewrite <-Hsame2).
  assert (Hstr : wm_streams m2 = wm_streams m) by (unfold same_manager in Hsame2; by rewrite <-Hsame2).
  assert (Hallow : allow_active_window m2 = allow_active_window m) by (unfold same_manager in Hsame2; by rewrite <-Hsame2).
  assert (Hst : forall x, sf_state <$> surfaces_of m2 !! x = sf_state <$> surfaces_of m !! x)
    by (intros x; by apply (unplaced_lookup sf_state m m2 x ltac:(done))).
  split; [|split; [|split]].
  - split; [done| |intros x; rewrite Hinfo2, Hmru; apply (wm_mru m Hok)]. intros x ix sx Hx Hs. specialize (Hst x).
    rewrite Hinfo2 in Hx. rewrite Hs in Hst. destruct (surfaces_of m !! x) as [s1|] eqn:Es1; [|done].
    injection Hst as E. rewrite E. by apply (wm_coherent m Hok x).
  - split; [done..|]. intros x. specialize (Hun x). destruct (surfaces_of m2 !! x) as [s2|], (surfaces_of m !! x) as [s1|]; try done.
    apply (inj Some) in Hun. cbn. f_equal. change (unplaced (blur s2)) with (blur (unplaced s2)). by rewrite Hun.
  - rewrite Hr2. by destruct r.
  - unfold active_window, mru_top. rewrite Hallow, Hmru. case_match; [|done]. apply find_if_ext. intros x. unfold mru_visible.
    specialize (Hst x). destruct (surfaces_of m2 !! x), (surfaces_of m !! x); try done. injection Hst as ->. done.
Qed.

Lemma resize_step f p w d m :
  movable m w -> gesture_window p = Some w -> (size (window_info m) <= S f)%nat ->
  positive (r_size (resized_by (resize_edge p) (resize_top_left p) (resize_size p) d)) ->
  exists m', apply_resize_by (S f) d p m =
      Ret (p <| resize_top_left := top_left (resized_by (resize_edge p) (resize_top_left p) (resize_size p) d) |>
             <| resize_size := r_size (resized_by (resize_edge p) (resize_top_left p) (resize_size p) d) |>, m') /\
    placed m m' /\ movable m' w /\ window_rect m' w = resized_by (resize_edge p) (resize_top_left p) (resize_size p) d /\
    active_window m' = Some w.
Proof.
  intros Hmov Hg Hf Hpos. pose proof Hmov as [Hok (i & Hi & Hst & _) _].
  destruct (select_movable f w m Hmov) as (m1 & Hsel & Hc1 & Hok1 & Hact1).
  pose proof (carried_movable _ _ _ _ _ Hc1 Hok1 Hmov) as Hmov1. pose proof (carried_info _ _ _ _ Hc1) as Hinfo1.
  destruct (modify_window_place (S f) m1 w i (resized_by (resize_edge p) (resize_top_left p) (resize_size p) d) Hok1) as (m2 & E2 & Hok2 & Hp2 & Hr2 & Hact2);
    [by rewrite Hinfo1|by rewrite Hst|by rewrite Hinfo1|done|].
  exists m2. split; [|split; [eapply placed_trans; [by eapply carried_placed|done]|split; [by eapply placed_movable|split; [done|by rewrite Hact2]]]].
  unfold apply_resize_by, gesture_window_selected. rewrite Hg.
  assert (Hsurf : is_Some (surfaces_of m !! w)) by (apply (forest_surface m (wm_forest m Hok)); eauto).
  rewrite (M_bind_eq _ _ m true m1).
  2: { rewrite (M_bind_eq _ _ m (Some w) m) by (unfold gets; by rewrite (proj2 (lock_Some _ _ w) (conj eq_refl Hsurf))).
       rewrite (M_bind_eq _ _ _ _ _ Hsel). by rewrite bool_decide_true. }
  cbv iota zeta. rewrite (M_bind_eq _ _ _ _ _ E2). reflexivity.
Qed.

Lemma resized_zero edge tl sz : resized_by edge tl sz (mkDisplacement 0 0) = mkRectangle tl sz.
Proof. destruct tl, sz. unfold resized_by. cbn. rewrite !Z.add_0_r, !Z.sub_0_r. by repeat case_match. Qed.

Lemma resized_trans edge tl sz d1 d2 :
  resized_by edge (top_left (resized_by edge tl sz d1)) (r_size (resized_by edge tl sz d1)) d2 =
  resized_by edge tl sz (mkDisplacement (dx d1 + dx d2) (dy d1 + dy d2)).
Proof.
  unfold resized_by. cbn. destruct (has_flag edge mir_resize_edge_west), (has_flag edge mir_resize_edge_east),
    (has_flag edge mir_resize_edge_north), (has_flag edge mir_resize_edge_south); f_equal; f_equal; lia.
Qed.

Section ResizeGestures.
Context (surface_at : WM -> Point -> option Window) (f steps : nat).

Lemma resizing_step d w e m :
  movable m w -> (size (window_info m) <= S f)%nat ->
  gesture (policy d) = pointer_resizing -> gesture_window (policy d) = Some w ->
  gesture_motion (gesture_shift_keys (policy d)) (pointer_gesture_button (policy d)) e ->
  let r := resized_by (resize_edge (policy d)) (resize_top_left (policy d)) (resize_size (policy d))
             (point_diff (cursor_of e) (old_cursor (policy d))) in
  positive (r_size r) ->
  exists m', wm_handle_event surface_at (S f) steps (PointerEvent e) d m =
      Ret ((d <| policy := (policy d) <| resize_top_left := top_left r |> <| resize_size := r_size r |>
                                      <| old_cursor := cursor_of e |> |>, true), m') /\
    placed m m' /\ movable m' w /\ window_rect m' w = r /\ active_window m' = Some w.
Proof.
  intros Hmov Hf Hg Hw He r Hpos. pose proof He as (Hmotion & _ & _). unfold wm_handle_event.
  assert (update_event_timestamp (PointerEvent e) d = d) as -> by (cbn; by rewrite Hmotion).
  rewrite (M_bind_eq _ _ m tt (m <| cursor := cursor_of e |>)) by done.
  pose proof (cursor_carried m (cursor_of e)) as Hc0.
  destruct (resize_step f (policy d) w (point_diff (cursor_of e) (old_cursor (policy d))) (m <| cursor := cursor_of e |>))
    as (m' & Hr & Hp & Hmov' & Hrect & Hact); [by eapply carried_movable; [|apply cursor_ok, Hmov|]|done|done|done|].
  exists m'. split; [|split; [eapply placed_trans; [by eapply carried_placed|done]|done]].
  erewrite (M_bind_eq _ _ _ (_, true) m'); [reflexivity|].
  unfold minimal_handle_pointer_event. rewrite Hg, (gesture_motion_continues _ _ He).
  rewrite (M_bind_eq _ _ _ (_, true) m') by (rewrite (M_bind_eq _ _ _ _ _ Hr); reflexivity). reflexivity.
Qed.

Lemma resizing_run d w es m :
  movable m w -> (size (window_info m) <= S f)%nat ->
  gesture (policy d) = pointer_resizing -> gesture_window (policy d) = Some w ->
  Forall (gesture_motion (gesture_shift_keys (policy d)) (pointer_gesture_button (policy d))) es ->
  window_rect m w = mkRectangle (resize_top_left (policy d)) (resize_size (policy d)) ->
  let target es := resized_by (resize_edge (policy d)) (resize_top_left (policy d)) (resize_size (policy d))
                     (point_diff (last_cursor (old_cursor (policy d)) es) (old_cursor (policy d))) in
  (forall k, positive (r_size (target (take k es)))) ->
  exists d' m', handle_events surface_at (S f) steps (PointerEvent <$> es) d m = Ret ((d', replicate (length es) true), m') /\
    gesture (policy d') = pointer_resizing /\ placed m m' /\ movable m' w /\ window_rect m' w = target es /\ (es <> [] -> active_window m' = Some w).
Proof.
  revert d m. induction es as [|e es IH]; intros d m Hmov Hf Hg Hw Hes Hrect target Hpos.
  { exists d, m. split; [done|]. split; [done|]. split; [done|]. split; [done|]. split; [|done]. unfold target. cbn [last_cursor foldl].
    replace (point_diff (old_cursor (policy d)) (old_cursor (policy d))) with (mkDisplacement 0 0) by (unfold point_diff; f_equal; lia).
    by rewrite resized_zero. }
  apply Forall_cons in Hes as [He Hes].
  destruct (resizing_step d w e m Hmov Hf Hg Hw He (Hpos 1%nat)) as (m1 & E1 & Hp1 & Hmov1 & Hr1 & Hact1).
  set (d1 := d <| policy := _ |>) in E1. pose proof (placed_info _ _ Hp1) as Hinfo.
  assert (Htrans : forall l, resized_by (resize_edge (policy d1)) (resize_top_left (policy d1)) (resize_size (policy d1))
      (point_diff (last_cursor (old_cursor (policy d1)) l) (old_cursor (policy d1))) = target (e :: l)).
  { intros l. unfold d1, target. cbn [policy resize_edge resize_top_left resize_size old_cursor assign].
    rewrite resized_trans, point_diff_trans. reflexivity. }
  destruct (IH d1 m1 Hmov1) as (d' & m' & E & Hg' & Hp & Hmov' & Hrect' & Hact).
  { by rewrite Hinfo. } { done. } { done. } { done. }
  { rewrite Hr1. by destruct (resized_by _ _ _ _). }
  { intros k. rewrite Htrans. exact (Hpos (S k)). }
  exists d', m'. split; [|split; [done|split; [by eapply placed_trans|split; [done|split]]]].
  - cbn [fmap list_fmap handle_events]. rewrite (M_bind_eq _ _ _ _ _ E1). cbn [fst snd]. rewrite (M_bind_eq _ _ _ _ _ E). reflexivity.
  - rewrite Hrect'. apply Htrans.
  - intros _. destruct es as [|e2 es]; [|by apply Hact]. cbn in E. by injection E as <- <-.
Qed.
End ResizeGestures.

Lemma carried_rect ws d m m' x :
  carried ws d m m' -> is_Some (surfaces_of m !! x) ->
  window_size m' x = window_size m x /\
  window_top_left m' x = if bool_decide (x ∈ ws) then point_add (window_top_left m x) d else window_top_left m x.
Proof.
  intros [_ _ F] [s Hs]. specialize (F x). unfold window_size, window_top_left. rewrite Hs in *.
  destruct (surfaces_of m' !! x) as [s'|]; [|done]. apply (inj Some) in F.
  assert (sf_rect s' = sf_rect (blur s')) as -> by done. rewrite F. by case_bool_decide.
Qed.

(** The request of the client that begins a gesture. *)
Lemma request_begins w ts e0 d m :
  movable m w -> last_input_event d = Some (PointerEvent e0) -> last_input_event_timestamp d <= ts ->
  let begun g edge := (start_gesture m w g (event_modifiers (p_header e0)) edge (policy d))
                        <| pointer_gesture_button := first_button e0 (pointer_gesture_button (policy d)) |> in
  handle_request_move w ts d m = Ret (d <| policy := begun pointer_moving mir_resize_edge_none |>, m) /\
  forall edge, handle_request_resize w ts edge d m = Ret (d <| policy := begun pointer_resizing edge |>, m).
Proof.
  intros [_ (i & Hi & Hst & _) _] Hev Hts begun. unfold handle_request_move, handle_request_resize.
  assert (Hk : surface_known m w = true) by (apply bool_decide_true; eauto).
  split; [|intros edge]; rewrite (M_bind_eq _ _ m true m) by (unfold gets; by rewrite Hk); cbn [negb]; rewrite Hev, (proj2 (Z.leb_le _ _) Hts);
    rewrite (M_bind_eq _ _ _ _ _ (info_for_known w m i Hi)); erewrite M_bind_eq; try reflexivity;
    unfold minimal_request_move, minimal_request_resize, begin_pointer_gesture; rewrite Hst, bool_decide_false by (by intros []); reflexivity.
Qed.

(** C10: Dragging a window with the pointer moves it with the cursor. After a request to move a window that is
    on view and restored, which answers to the last press of a button, each motion with that button and the
    same modifier keys is consumed; the window is active, it and its children have moved by exactly the
    distance the cursor has moved since, no other window has moved and none has changed its size; the release
    of the button ends the gesture: it and the motions after it are not consumed and move nothing. *)
Theorem drag_moves_window (surface_at : WM -> Point -> option Window) (fuel steps : nat) (m : WM) (w : Window) (d : Managed)
    (ts : Z) (e0 up : MirPointerEvent) (es later : list MirPointerEvent) :
  movable m w -> (size (window_info m) <= fuel)%nat ->
  last_input_event d = Some (PointerEvent e0) -> last_input_event_timestamp d <= ts -> es <> [] ->
  Forall (gesture_motion (event_modifiers (p_header e0)) (first_button e0 (pointer_gesture_button (policy d)))) es ->
  p_action up = mir_pointer_action_button_up -> Forall (fun e => p_action e = mir_pointer_action_motion) later ->
  exists d1 d' m', handle_request_move w ts d m = Ret (d1, m) /\
    handle_events surface_at fuel steps (PointerEvent <$> es ++ up :: later) d1 m =
      Ret ((d', replicate (length es) true ++ replicate (S (length later)) false), m') /\
    active_window m' = Some w /\
    forall x, is_Some (window_info m !! x) ->
      window_size m' x = window_size m x /\
      (rtc (child_rel m) w x ->
       window_top_left m' x = point_add (window_top_left m x) (point_diff (last_cursor (old_cursor (policy d)) es) (old_cursor (policy d)))) /\
      (~ rtc (child_rel m) w x -> window_top_left m' x = window_top_left m x).
Proof.
  intros Hmov Hfuel Hev Hts Hne Hes Hup Hlater. destruct (request_begins w ts e0 d m Hmov Hev Hts) as [Hreq _].
  set (d1 := d <| policy := _ |>) in Hreq. pose proof Hmov as [Hok (i & Hi & _) _].
  destruct fuel as [|f]; [apply (proj1 (Nat.le_0_r _)), map_size_empty_inv in Hfuel; by rewrite Hfuel in Hi|].
  destruct (tree_of_known m (S f) w (wm_forest m Hok) ltac:(eauto) Hfuel) as (ws & _ & _ & Htree).
  destruct (moving_run surface_at f steps d1 w ws es m Hmov Htree Hfuel) as (d2 & m2 & E2 & Hg2 & Hc & Hmov2 & Hact); [done..|].
  destruct (release_run surface_at f steps d2 up later m2 (or_introl Hg2) Hup Hlater) as (d3 & pt & E3).
  exists d1, d3, (m2 <| cursor := pt |>). split; [done|]. split.
  { rewrite fmap_app. eapply handle_events_app; [exact E2|exact E3]. }
  split; [by apply Hact|]. intros x Hx.
  destruct (carried_rect ws _ m m2 x Hc (forest_surface m (wm_forest m Hok) x Hx)) as [Hsz Htl].
  change (old_cursor (policy d1)) with (old_cursor (policy d)) in Htl. specialize (Htree x).
  change (window_size (m2 <| cursor := pt |>) x) with (window_size m2 x).
  change (window_top_left (m2 <| cursor := pt |>) x) with (window_top_left m2 x). rewrite Htl. split; [done|].
  split; intros H; [by rewrite bool_decide_true by by apply Htree|by rewrite bool_decide_false by by rewrite Htree].
Qed.

(** C28: (functional) Resizing a window with the pointer drags the edges that were taken hold of, and only these: a
    restored window on view, of a type that the user can move, without a dialog on view, not held at two opposite
    edges.  After any motions of the gesture that leave the window a positive size at each step, each edge of the
    window that is dragged has moved by the distance the cursor has moved since the gesture began, and the others are
    where they were; the release ends the gesture. *)
Theorem drag_resizes_window (surface_at : WM -> Point -> option Window) (fuel steps : nat) (m : WM) (w : Window) (d : Managed)
    (ts edge : Z) (e0 up : MirPointerEvent) (es later : list MirPointerEvent) :
  movable m w -> (size (window_info m) <= fuel)%nat ->
  last_input_event d = Some (PointerEvent e0) -> last_input_event_timestamp d <= ts -> es <> [] ->
  Forall (gesture_motion (event_modifiers (p_header e0)) (first_button e0 (pointer_gesture_button (policy d)))) es ->
  p_action up = mir_pointer_action_button_up -> Forall (fun e => p_action e = mir_pointer_action_motion) later ->
  has_flag edge mir_resize_edge_west && has_flag edge mir_resize_edge_east = false ->
  has_flag edge mir_resize_edge_north && has_flag edge mir_resize_edge_south = false ->
  (forall k, positive (r_size (resized_by edge (window_top_left m w) (window_size m w)
               (point_diff (last_cursor (old_cursor (policy d)) (take k es)) (old_cursor (policy d)))))) ->
  let moved := point_diff (last_cursor (old_cursor (policy d)) es) (old_cursor (policy d)) in
  let by_ flag distance := if has_flag edge flag then distance else 0 in
  exists d1 d' m', handle_request_resize w ts edge d m = Ret (d1, m) /\
    handle_events surface_at fuel steps (PointerEvent <$> es ++ up :: later) d1 m =
      Ret ((d', replicate (length es) true ++ replicate (S (length later)) false), m') /\
    active_window m' = Some w /\ window_info m' = window_info m /\
    left (window_rect m' w) = left (window_rect m w) + by_ mir_resize_edge_west (dx moved) /\
    right (window_rect m' w) = right (window_rect m w) + by_ mir_resize_edge_east (dx moved) /\
    top (window_rect m' w) = top (window_rect m w) + by_ mir_resize_edge_north (dy moved) /\
    bottom (window_rect m' w) = bottom (window_rect m w) + by_ mir_resize_edge_south (dy moved).
Proof.
  intros Hmov Hfuel Hev Hts Hne Hes Hup Hlater Hwe Hns Hpos moved by_.
  destruct (request_begins w ts e0 d m Hmov Hev Hts) as [_ Hreq]. specialize (Hreq edge).
  set (d1 := d <| policy := _ |>) in Hreq. pose proof Hmov as [Hok (i & Hi & _) _].
  destruct fuel as [|f]; [apply (proj1 (Nat.le_0_r _)), map_size_empty_inv in Hfuel; by rewrite Hfuel in Hi|].
  destruct (resizing_run surface_at f steps d1 w es m Hmov Hfuel) as (d2 & m2 & E2 & Hg2 & Hp & _ & Hrect & Hact); [done..|].
  destruct (release_run surface_at f steps d2 up later m2 (or_intror Hg2) Hup Hlater) as (d3 & pt & E3).
  exists d1, d3, (m2 <| cursor := pt |>). split; [done|]. split.
  { rewrite fmap_app. eapply handle_events_app; [exact E2|exact E3]. }
  split; [by apply Hact|]. split; [apply (placed_info _ _ Hp)|].
  change (window_rect (m2 <| cursor := pt |>) w) with (window_rect m2 w). rewrite Hrect. clear -Hwe Hns.
  unfold d1. cbn [policy resize_edge resize_top_left resize_size old_cursor assign start_gesture].
  unfold by_, resized_by, window_rect, left, right, top, bottom, bottom_right, point_add, as_displacement, moved in *.
  cbn [top_left r_size px py width height dx dy].
  destruct (has_flag edge mir_resize_edge_west), (has_flag edge mir_resize_edge_east),
    (has_flag edge mir_resize_edge_north), (has_flag edge mir_resize_edge_south); try done; lia.
Qed.

(** ** Examples *)
Definition example_pointer (a : MirPointerAction) (buttons x y : Z) : MirPointerEvent :=
  mkPointerEvent (mkHeader 1 100 [] 1) a buttons (float_of_int x) (float_of_int y) S754_nan S754_nan S754_nan S754_nan.

Definition example_press : MirPointerEvent := example_pointer mir_pointer_action_button_down 1 5 5.
Definition example_motions : list MirPointerEvent :=
  [example_pointer mir_pointer_action_motion 1 15 25; example_pointer mir_pointer_action_motion 1 30 30].
Definition example_release : MirPointerEvent := example_pointer mir_pointer_action_button_up 0 30 30.

(** The button went down at (5, 5). *)
Definition example_managed : Managed :=
  mkManaged (mkMinimal no_gesture 0 None 0 0 (mkPoint 0 0) (mkSize 0 0) (mkPoint 5 5) (mkPoint 0 0)) 100 (Some (PointerEvent example_press)).
Definition nowhere (m : WM) (p : Point) : option Window := None.

Lemma example_movable : movable example_wm 3.
Proof.
  split; [apply example_wm_ok| |].
  - exists example_info. split_and!; vm_compute; reflexivity.
  - intros (c & ci & H & _). apply example_wm_child in H as [[=] _].
Qed.

Lemma example_motions_ok :
  Forall (gesture_motion (event_modifiers (p_header example_press)) (first_button example_press (pointer_gesture_button (policy example_managed))))
    example_motions.
Proof. repeat constructor. Qed.

Lemma drag_moves_window_witness :
  exists d1 d' m', handle_request_move 3 100 example_managed example_wm = Ret (d1, example_wm) /\
    handle_events nowhere 3 3 (PointerEvent <$> example_motions ++ [example_release]) d1 example_wm = Ret ((d', [true; true; false]), m') /\
    window_top_left m' 3 = point_add (window_top_left example_wm 3) (mkDisplacement 25 25).
Proof.
  destruct (drag_moves_window nowhere 3 3 example_wm 3 example_managed 100 example_press example_release example_motions [])
    as (d1 & d' & m' & H1 & H2 & _ & H3).
  - apply example_movable.
  - apply (bool_decide_unpack _). reflexivity.
  - reflexivity.
  - vm_compute. discriminate.
  - discriminate.
  - apply example_motions_ok.
  - reflexivity.
  - constructor.
  - exists d1, d', m'. split; [exact H1|]. split; [exact H2|].
    destruct (H3 3) as (_ & H & _); [vm_compute; eauto|]. rewrite H by apply rtc_refl. f_equal.
Defined.

Lemma drag_resizes_window_witness :
  exists d1 d' m', handle_request_resize 3 100 mir_resize_edge_west example_managed example_wm = Ret (d1, example_wm) /\
    handle_events nowhere 3 3 (PointerEvent <$> example_motions ++ [example_release]) d1 example_wm = Ret ((d', [true; true; false]), m') /\
    left (window_rect m' 3) = left (window_rect example_wm 3) + 25 /\ right (window_rect m' 3) = right (window_rect example_wm 3) + 0.
Proof.
  destruct (drag_resizes_window nowhere 3 3 example_wm 3 example_managed 100 mir_resize_edge_west example_press example_release example_motions [])
    as (d1 & d' & m' & H1 & H2 & _ & _ & Hl & Hr & _).
  - apply example_movable.
  - apply (bool_decide_unpack _). reflexivity.
  - reflexivity.
  - vm_compute. discriminate.
  - discriminate.
  - apply example_motions_ok.
  - reflexivity.
  - constructor.
  - reflexivity.
  - reflexivity.
  - intros k. destruct k as [|[|k]]; [vm_compute; split; reflexivity..|]. destruct k; vm_compute; split; reflexivity.
  - exists d1, d', m'. split; [exact H1|]. split; [exact H2|]. split; [exact Hl|exact Hr].
Defined.

(** The rectangle of window 3 after its left edge was dragged by [es]. *)
Definition after_dragging (m : WM) (es : list MirPointerEvent) : outcome Rectangle :=
  match (d1 ← handle_request_resize 3 100 mir_resize_edge_west example_managed; handle_events nowhere 3 3 (PointerEvent <$> es) d1) m with
  | Ret (_, m') => Ret (window_rect m' 3)
  | Throw e => Throw e
  end.

(** The limits of a window do not hold when the user resizes it. *)
Definition limited_wm : WM := example_wm <| window_info := alter (fun i => i <| wi_min_width := 90 |>) 3 (window_info example_wm) |>.
Example drag_ignores_limits :
  wi_min_width <$> window_info limited_wm !! 3 = Some 90 /\
  after_dragging limited_wm example_motions = Ret (mkRectangle (mkPoint 35 20) (mkSize 75 80)).
Proof. split; vm_compute; reflexivity. Qed.

(** When the left edge is dragged beyond the right edge, the right edge does
    not hold: the window, by then of width 1, follows the cursor. *)
Example drag_beyond_edge_moves :
  window_rect example_wm 3 = mkRectangle (mkPoint 10 20) (mkSize 100 80) /\
  after_dragging example_wm [example_pointer mir_pointer_action_motion 1 205 5] = Ret (mkRectangle (mkPoint 210 20) (mkSize 1 80)).
Proof. split; vm_compute; reflexivity. Qed.

(** A touch event without contacts, of which the centre is asked, traps. *)
Lemma empty_touch_traps surface_at fuel h p m :
  minimal_handle_touch_event surface_at fuel (mkTouchEvent h []) p m = Throw divide_by_zero.
Proof. reflexivity. Qed.
