(* ===== verification/InputDispatcher.v ===== *)
(** * mir::input::SurfaceInputDispatcher

    The stage that hands every input event of the server to the surface it is
    for ([src/server/input/surface_input_dispatcher.cpp]): keys to the focused
    surface, pointer events to the surface under the pointer or to the owner
    of the gesture in progress, touches to the surface the gesture began on.

    The dispatcher sees the surfaces through [mir::input::Scene], here the
    class [InputScene]; [SurfaceStack.World] is its instance.  The scene
    changes between calls, so every operation takes the scene of the moment. *)
From S2P Require Import Prelude Geometry InputEvents BufferStream WindowInfo Surface SurfaceStack.

(** ** The scene *)
(** What [mir::input::Scene] and [mir::input::Surface] promise: the surfaces in
    the order of [for_each], the points at which each takes input and where its
    content is; and whether a surface exists, which is what [lock] of a
    [weak_ptr] to it tells. *)
Class InputScene (S : Type) := {
  scene_order : S -> list Z;
  scene_contains : S -> Z -> Point -> bool;
  scene_bounds : S -> Z -> Rectangle;
  scene_alive : S -> Z -> bool
}.

#[export] Instance world_scene : InputScene World := {|
  scene_order := stacking_order;
  scene_contains w id p := takes_input_at w p id;
  scene_bounds w id :=
    match surfaces w !! id with
    | Some s => input_bounds s
    | None => mkRectangle (mkPoint 0 0) (mkSize 0 0)
    end;
  scene_alive w id := bool_decide (is_Some (surfaces w !! id))
|}.

(** ** State *)
Record PointerInputState := mkPointerState {
  current_target : option Z;
  gesture_owner : option Z
}.
#[export] Instance eta_PointerInputState : EtaExpansion PointerInputState := fun s =>
  mkPointerState (current_target s) (gesture_owner s).

Record Dispatcher := mkDispatcher {
  pointer_state_by_id : gmap Z PointerInputState;
  touch_state_by_id : gmap Z (option Z);   (* TouchInputState: the gesture owner *)
  last_pointer_event : option MirPointerEvent;
  focus_surface : option Z;
  drag_and_drop_handle : list Z;
  started : bool
}.
#[export] Instance eta_Dispatcher : EtaExpansion Dispatcher := fun d =>
  mkDispatcher (pointer_state_by_id d) (touch_state_by_id d) (last_pointer_event d) (focus_surface d)
    (drag_and_drop_handle d) (started d).

Definition dispatcher_init : Dispatcher := mkDispatcher ∅ ∅ None None [] false.

(** A call of [Surface::consume]: the surface, the event, and the drag and
    drop handle that was set on the event (empty if none was). *)
Record Delivery := mkDelivery { to : Z; what : MirEvent; dnd_handle : list Z }.

(** [set_drag_and_drop_handle] changes pointer events only. *)
Definition handle_for (ev : MirEvent) (handle : list Z) : list Z :=
  match ev with PointerEvent _ => handle | _ => [] end.

Section Dispatch.
Context {S : Type} `{InputScene S}.
Implicit Types (sc : S) (d : Dispatcher).

Definition bounds_displacement sc (surface : Z) : Displacement :=
  let p := top_left (scene_bounds sc surface) in mkDisplacement (px p) (py p).

(** ** Delivery *)
Definition deliver sc (surface : Z) (ev : MirEvent) (handle : list Z) : Delivery :=
  mkDelivery surface (transform_positions ev (bounds_displacement sc surface)) (handle_for ev handle).

Definition deliver_without_relative_motion sc (surface : Z) (pev : MirPointerEvent) (handle : list Z) : Delivery :=
  let f0 := S754_zero false in
  let to_deliver := mkPointerEvent (p_header pev) (p_action pev) (p_buttons pev) (axis_x pev) (axis_y pev)
                      f0 f0 f0 f0 in
  mkDelivery surface (transform_positions (PointerEvent to_deliver) (bounds_displacement sc surface)) handle.

Definition send_enter_exit_event sc d (surface : Z) (pev : MirPointerEvent) (act : MirPointerAction) : Delivery :=
  let p := top_left (scene_bounds sc surface) in
  let h := p_header pev in
  mkDelivery surface
    (PointerEvent (mkPointerEvent (mkHeader (device_id h) (event_time h) [] (modifiers h)) act (p_buttons pev)
       (fsub (axis_x pev) (float_of_int (px p))) (fsub (axis_y pev) (float_of_int (py p)))
       (axis_hscroll pev) (axis_vscroll pev) (axis_relative_x pev) (axis_relative_y pev)))
    (drag_and_drop_handle d).

(** The last surface [for_each] visits whose input area has the point. *)
Definition find_target_surface sc (point : Point) : option Z :=
  foldl (fun top_target target => if scene_contains sc target point then Some target else top_target)
    None (scene_order sc).

Definition pev_position (pev : MirPointerEvent) : Point := point_of_floats (axis_x pev) (axis_y pev).

(** ** Per-device state *)
Definition no_pointer_state : PointerInputState := mkPointerState None None.

(** [insert] leaves an existing entry alone, [operator[]] reads it. *)
Definition ensure_pointer_state d (id : Z) : Dispatcher * PointerInputState :=
  match pointer_state_by_id d !! id with
  | Some s => (d, s)
  | None => (d <| pointer_state_by_id := <[id := no_pointer_state]> (pointer_state_by_id d) |>, no_pointer_state)
  end.
Definition ensure_touch_state d (id : Z) : Dispatcher * option Z :=
  match touch_state_by_id d !! id with
  | Some s => (d, s)
  | None => (d <| touch_state_by_id := <[id := None]> (touch_state_by_id d) |>, None)
  end.
(** Writing through the reference that [ensure_pointer_state] returned. *)
Definition set_pointer_state d (id : Z) (s : PointerInputState) : Dispatcher :=
  d <| pointer_state_by_id := <[id := s]> (pointer_state_by_id d) |>.

(** ** Changes of the scene *)
Definition forget (surface : Z) (o : option Z) : option Z :=
  if bool_decide (o = Some surface) then None else o.

Definition surface_removed sc d (surface : Z) : Dispatcher :=
  let focus :=
    match focus_surface d with
    | Some f => if scene_alive sc f && bool_decide (f = surface) then None else Some f
    | None => None
    end in
  d <| focus_surface := focus |>
    <| pointer_state_by_id :=
         (fun s => mkPointerState (forget surface (current_target s)) (forget surface (gesture_owner s)))
           <$> pointer_state_by_id d |>
    <| touch_state_by_id := forget surface <$> touch_state_by_id d |>.

(** The pointer event that the dispatcher makes up when the scene changes. *)
Definition synthesized (pev : MirPointerEvent) (now : Z) (act : MirPointerAction) (buttons : Z) : MirPointerEvent :=
  let f0 := S754_zero false in
  mkPointerEvent (mkHeader (device_id (p_header pev)) now [] 0) act buttons (axis_x pev) (axis_y pev) f0 f0 f0 f0.

(** [SceneChangeContext]: the last pointer event, where the pointer was and
    what is under it now.  [times] are the readings of the clock, in order. *)
Definition dispatch_scene_change_enter_exit_events sc d (pev : MirPointerEvent)
    (current target : option Z) (times : Z * Z) : bool * list Delivery :=
  if bool_decide (current <> target) then
    (true,
     (match current with
      | Some s => [send_enter_exit_event sc d s
                     (synthesized pev (fst times) mir_pointer_action_leave (p_buttons pev)) mir_pointer_action_leave]
      | None => []
      end) ++
     (match target with
      | Some s => [send_enter_exit_event sc d s
                     (synthesized pev (snd times) mir_pointer_action_enter (p_buttons pev)) mir_pointer_action_enter]
      | None => []
      end))
  else (false, []).

Definition send_motion_event_to_moved_surface sc d (pev : MirPointerEvent) (current target : option Z)
    (moved : Z) (now : Z) : list Delivery :=
  match target with
  | Some t =>
      if bool_decide (t = moved) && bool_decide (current = target)
      then [deliver_without_relative_motion sc t (synthesized pev now mir_pointer_action_motion 0)
              (drag_and_drop_handle d)]
      else []
  | None => []
  end.

Definition surface_moved sc d (moved : Z) (times : Z * Z) : Dispatcher * list Delivery :=
  match last_pointer_event d with
  | None => (d, [])
  | Some pev =>
      let id := device_id (p_header pev) in
      let '(d1, st) := ensure_pointer_state d id in
      let target := find_target_surface sc (pev_position pev) in
      if bool_decide (is_Some (gesture_owner st)) then (d1, [])
      else
        let '(changed, out) :=
          dispatch_scene_change_enter_exit_events sc d1 pev (current_target st) target times in
        if changed then (set_pointer_state d1 id (st <| current_target := target |>), out)
        else (d1, send_motion_event_to_moved_surface sc d1 pev (current_target st) target moved (fst times))
  end.

Definition surface_resized sc d (times : Z * Z) : Dispatcher * list Delivery :=
  match last_pointer_event d with
  | None => (d, [])
  | Some pev =>
      let id := device_id (p_header pev) in
      let '(d1, st) := ensure_pointer_state d id in
      let target := find_target_surface sc (pev_position pev) in
      let '(changed, out) :=
        dispatch_scene_change_enter_exit_events sc d1 pev (current_target st) target times in
      if changed then (set_pointer_state d1 id (st <| current_target := target |>), out) else (d1, out)
  end.

Definition device_reset d (reset_device_id : Z) : Dispatcher :=
  if negb (started d) then d
  else d <| pointer_state_by_id := delete reset_device_id (pointer_state_by_id d) |>
         <| touch_state_by_id := delete reset_device_id (touch_state_by_id d) |>.

(** ** Dispatching *)
Definition dispatch_key sc d (kev : MirKeyboardEvent) : bool * list Delivery :=
  if negb (started d) then (false, [])
  else
    match focus_surface d with
    | Some f => if scene_alive sc f then (true, [mkDelivery f (KeyEvent kev) []]) else (false, [])
    | None => (false, [])
    end.

(** The buttons that [for_pressed_buttons] asks about: primary, secondary,
    tertiary, back and forward. *)
Definition gesture_buttons : list Z := [1; 2; 4; 8; 16].
Definition is_gesture_terminator (pev : MirPointerEvent) : bool :=
  let any_pressed := existsb (fun button => has_flag (p_buttons pev) button) gesture_buttons in
  negb any_pressed && bool_decide (p_action pev = mir_pointer_action_button_up).

(** Leave one surface, enter another. *)
Definition cross sc d (pev : MirPointerEvent) (current target : option Z) : list Delivery :=
  (match current with
   | Some s => [send_enter_exit_event sc d s pev mir_pointer_action_leave]
   | None => []
   end) ++
  (match target with
   | Some s => [send_enter_exit_event sc d s pev mir_pointer_action_enter]
   | None => []
   end).

Definition dispatch_pointer sc d (id : Z) (pev : MirPointerEvent) : bool * Dispatcher * list Delivery :=
  let '(d1, st) := ensure_pointer_state (d <| last_pointer_event := Some pev |>) id in
  let handle := drag_and_drop_handle d in
  match gesture_owner st with
  | Some owner =>
      let first := deliver sc owner (PointerEvent pev) handle in
      let gesture_terminated := is_gesture_terminator pev in
      let st1 := if gesture_terminated then st <| gesture_owner := None |> else st in
      if gesture_terminated || negb (bool_decide (handle = [])) then
        let target := find_target_surface sc (pev_position pev) in
        if bool_decide (current_target st1 <> target) then
          let st2 := st1 <| current_target := target |> in
          let st3 := if negb gesture_terminated then st2 <| gesture_owner := target |> else st2 in
          (true, set_pointer_state d1 id st3, first :: cross sc d1 pev (current_target st1) target)
        else (true, set_pointer_state d1 id st1, [first])
      else (true, set_pointer_state d1 id st1, [first])
  | None =>
      if bool_decide (p_action pev = mir_pointer_action_button_up) then (false, d1, [])
      else
        let target := find_target_surface sc (pev_position pev) in
        let sent_ev := bool_decide (current_target st <> target) in
        let crossing := if sent_ev then cross sc d1 pev (current_target st) target else [] in
        let st1 := if sent_ev then st <| current_target := target |> else st in
        match target with
        | None => (sent_ev, set_pointer_state d1 id st1, crossing)
        | Some t =>
            let st2 := if bool_decide (p_action pev = mir_pointer_action_button_down)
                       then st1 <| gesture_owner := Some t |> else st1 in
            let last :=
              if sent_ev then
                if bool_decide (p_action pev <> mir_pointer_action_motion)
                then [deliver_without_relative_motion sc t pev handle] else []
              else [deliver sc t (PointerEvent pev) handle] in
            (true, set_pointer_state d1 id st2, crossing ++ last)
        end
  end.

Definition is_gesture_start (tev : MirTouchEvent) : bool :=
  forallb (fun c => bool_decide (action c = mir_touch_action_down)) (contacts tev).
Definition is_gesture_end (tev : MirTouchEvent) : bool :=
  forallb (fun c => bool_decide (action c = mir_touch_action_up)) (contacts tev).

(** The position of the first contact.  An event holds room for sixteen
    contacts, so that reading the first of none gives zeros. *)
Definition tev_position (tev : MirTouchEvent) : Point :=
  match contacts tev with
  | c :: _ => point_of_floats (c_x c) (c_y c)
  | [] => mkPoint 0 0
  end.

Definition dispatch_touch sc d (id : Z) (tev : MirTouchEvent) : bool * Dispatcher * list Delivery :=
  let '(d1, owner) := ensure_touch_state d id in
  let owner := if is_gesture_start tev then find_target_surface sc (tev_position tev) else owner in
  let after o := d1 <| touch_state_by_id := <[id := o]> (touch_state_by_id d1) |> in
  match owner with
  | Some s =>
      let out := [deliver sc s (TouchEvent tev) (drag_and_drop_handle d)] in
      (true, after (if is_gesture_end tev then None else owner), out)
  | None => (false, after None, [])
  end.

Definition dispatch sc d (ev : MirEvent) : outcome (bool * Dispatcher * list Delivery) :=
  match ev with
  | NonInputEvent _ => Throw (logic_error "InputDispatcher got an unexpected event type")
  | KeyEvent k => let '(r, out) := dispatch_key sc d k in Ret (r, d, out)
  | TouchEvent t => Ret (dispatch_touch sc d (device_id (t_header t)) t)
  | PointerEvent p => Ret (dispatch_pointer sc d (device_id (p_header p)) p)
  end.

(** ** Control *)
Definition start d : Dispatcher := d <| started := true |>.
Definition stop d : Dispatcher :=
  d <| pointer_state_by_id := ∅ |> <| touch_state_by_id := ∅ |> <| last_pointer_event := None |>
    <| started := false |>.
Definition set_focus_locked d (target : option Z) : Dispatcher := d <| focus_surface := target |>.
Definition dispatcher_set_focus d (target : option Z) : Dispatcher := set_focus_locked d target.
Definition dispatcher_clear_focus d : Dispatcher := set_focus_locked d None.
Definition set_drag_and_drop_handle d (handle : list Z) : Dispatcher := d <| drag_and_drop_handle := handle |>.
Definition clear_drag_and_drop_handle d : Dispatcher := d <| drag_and_drop_handle := [] |>.

(** ** Runs *)
Inductive DispatcherOp :=
| OpDispatch (ev : MirEvent)
| OpSurfaceRemoved (surface : Z)
| OpSurfaceMoved (surface : Z) (times : Z * Z)
| OpSurfaceResized (times : Z * Z)
| OpDeviceReset (id : Z)
| OpStart
| OpStop
| OpSetFocus (target : option Z)
| OpClearFocus
| OpSetHandle (handle : list Z)
| OpClearHandle.

Definition dispatcher_step sc d (op : DispatcherOp) : outcome (Dispatcher * list Delivery) :=
  match op with
  | OpDispatch ev => '(_, d', out) ← dispatch sc d ev; Ret (d', out)
  | OpSurfaceRemoved s => Ret (surface_removed sc d s, [])
  | OpSurfaceMoved s times => Ret (surface_moved sc d s times)
  | OpSurfaceResized times => Ret (surface_resized sc d times)
  | OpDeviceReset id => Ret (device_reset d id, [])
  | OpStart => Ret (start d, [])
  | OpStop => Ret (stop d, [])
  | OpSetFocus t => Ret (dispatcher_set_focus d t, [])
  | OpClearFocus => Ret (dispatcher_clear_focus d, [])
  | OpSetHandle h => Ret (set_drag_and_drop_handle d h, [])
  | OpClearHandle => Ret (clear_drag_and_drop_handle d, [])
  end.
End Dispatch.

(** ** The contract: what the surfaces see of the pointers *)
Section Contract.
Context {S : Type} `{InputScene S}.
Implicit Types (sc : S) (d : Dispatcher) (v : gmap Z Z).

(** What a run leaves behind: the events consumed, and the places where the
    dispatcher drops what it knew without telling anybody, because the surface
    or the device is gone. *)
Inductive LogEntry :=
| Consumed (x : Delivery)
| SurfaceGone (surface : Z)
| DeviceForgotten (id : Z)
| AllForgotten.

Definition step_log d (op : DispatcherOp) (out : list Delivery) : list LogEntry :=
  (match op with
   | OpSurfaceRemoved s => [SurfaceGone s]
   | OpDeviceReset id => if started d then [DeviceForgotten id] else []
   | OpStop => [AllForgotten]
   | _ => []
   end) ++ (Consumed <$> out).

(** An exception leaves the dispatcher as it was. *)
Fixpoint run_dispatcher d (run : list (S * DispatcherOp)) : Dispatcher * list LogEntry :=
  match run with
  | [] => (d, [])
  | (sc, op) :: rest =>
      match dispatcher_step sc d op with
      | Ret (d1, out) => let '(d2, log) := run_dispatcher d1 rest in (d2, step_log d op out ++ log)
      | Throw _ => run_dispatcher d rest
      end
  end.

(** The abstract state: for each device the surface its pointer is in.  A
    pointer enters a surface only when it is in none and leaves only the one it
    is in; if [strict], all other pointer events too go to the surface the
    pointer is in. *)
Definition view_entry (strict : bool) v (entry : LogEntry) : option (gmap Z Z) :=
  match entry with
  | Consumed x =>
      match what x with
      | PointerEvent e =>
          let dev := device_id (p_header e) in
          match p_action e with
          | mir_pointer_action_enter => if bool_decide (v !! dev = None) then Some (<[dev := to x]> v) else None
          | mir_pointer_action_leave => if bool_decide (v !! dev = Some (to x)) then Some (delete dev v) else None
          | _ => if negb strict || bool_decide (v !! dev = Some (to x)) then Some v else None
          end
      | _ => Some v
      end
  | SurfaceGone s => Some (filter (fun kv => kv.2 <> s) v)
  | DeviceForgotten id => Some (delete id v)
  | AllForgotten => Some ∅
  end.

Fixpoint view_log (strict : bool) v (log : list LogEntry) : option (gmap Z Z) :=
  match log with
  | [] => Some v
  | entry :: rest => v' ← view_entry strict v entry; view_log strict v' rest
  end.

(** The surfaces the pointers are in, as the dispatcher has them. *)
Definition targets d : gmap Z Z := omap current_target (pointer_state_by_id d).

(** Devices send motion and buttons; entering and leaving is the
    dispatcher's. *)
Definition device_action (a : MirPointerAction) : bool :=
  match a with mir_pointer_action_enter | mir_pointer_action_leave => false | _ => true end.
Definition op_ok (op : DispatcherOp) : bool :=
  match op with OpDispatch (PointerEvent e) => device_action (p_action e) | _ => true end.

(** A surface is resized while a button is held on the pointer that moved
    last. *)
Definition resize_in_gesture d (op : DispatcherOp) : bool :=
  match op, last_pointer_event d with
  | OpSurfaceResized _, Some pev =>
      match pointer_state_by_id d !! device_id (p_header pev) with
      | Some st => bool_decide (is_Some (gesture_owner st))
      | None => false
      end
  | _, _ => false
  end.
Fixpoint calm d (run : list (S * DispatcherOp)) : bool :=
  match run with
  | [] => true
  | (sc, op) :: rest =>
      negb (resize_in_gesture d op) &&
      calm (match dispatcher_step sc d op with Ret (d', _) => d' | Throw _ => d end) rest
  end.

(** The owner of a gesture is the surface the pointer is in. *)
Definition owned d : Prop :=
  map_Forall (fun _ st => is_Some (gesture_owner st) -> gesture_owner st = current_target st) (pointer_state_by_id d).

(** *** Lemmas *)
Lemma view_log_app strict v l1 l2 :
  view_log strict v (l1 ++ l2) = v' ← view_log strict v l1; view_log strict v' l2.
Proof. revert v. induction l1 as [|e l1 IH]; intros v; [done|]. cbn. destruct (view_entry strict v e); cbn; auto. Qed.

Lemma targets_set d id st :
  targets (set_pointer_state d id st) = partial_alter (fun _ => current_target st) id (targets d).
Proof.
  apply map_eq. intros i. unfold targets, set_pointer_state. cbn. rewrite lookup_omap.
  destruct (decide (i = id)) as [->|Hne].
  - by rewrite lookup_insert_eq, lookup_partial_alter_eq.
  - by rewrite lookup_insert_ne, lookup_partial_alter_ne, lookup_omap.
Qed.

Lemma targets_ensure d id d1 st :
  ensure_pointer_state d id = (d1, st) ->
  targets d1 = targets d /\ targets d !! id = current_target st /\
  (owned d -> owned d1 /\ (is_Some (gesture_owner st) -> gesture_owner st = current_target st)) /\
  drag_and_drop_handle d1 = drag_and_drop_handle d.
Proof.
  unfold ensure_pointer_state. destruct (pointer_state_by_id d !! id) as [s|] eqn:E; intros [= <- <-].
  - split; [done|]. split; [unfold targets; by rewrite lookup_omap, E|]. split; [|done]. intros Ho. split; [done|].
    exact (Ho id s E).
  - change (d <| pointer_state_by_id := _ |>) with (set_pointer_state d id no_pointer_state).
    rewrite targets_set.
    assert (Hid : targets d !! id = None) by (unfold targets; by rewrite lookup_omap, E).
    split; [by apply partial_alter_id; rewrite Hid|]. split; [done|]. split; [|done]. intros Ho. split.
    + unfold owned. cbn. apply map_Forall_insert_2; [|done]. cbn. by intros [? [=]].
    + cbn. by intros [? [=]].
Qed.

Lemma owned_set d id st :
  owned d -> (is_Some (gesture_owner st) -> gesture_owner st = current_target st) -> owned (set_pointer_state d id st).
Proof. intros Ho Hst. unfold owned. cbn. by apply map_Forall_insert_2. Qed.

(** Leaving the current surface and entering the next one. *)
Lemma view_cross strict v (current target : option Z) (leave enter : Z -> Delivery) dev :
  v !! dev = current ->
  (forall s, to (leave s) = s /\ exists e, what (leave s) = PointerEvent e /\
     p_action e = mir_pointer_action_leave /\ device_id (p_header e) = dev) ->
  (forall s, to (enter s) = s /\ exists e, what (enter s) = PointerEvent e /\
     p_action e = mir_pointer_action_enter /\ device_id (p_header e) = dev) ->
  view_log strict v (Consumed <$> ((match current with Some s => [leave s] | None => [] end) ++
                                   (match target with Some s => [enter s] | None => [] end)))
  = Some (partial_alter (fun _ => target) dev v).
Proof.
  intros Hv Hl He. rewrite fmap_app, view_log_app.
  assert (H1 : view_log strict v (Consumed <$> match current with Some s => [leave s] | None => [] end)
               = Some (delete dev v)).
  { destruct current as [s|]; cbn.
    - destruct (Hl s) as (Ht & e & -> & -> & ->). rewrite Ht, bool_decide_true by done. done.
    - by rewrite delete_id. }
  rewrite H1. cbn. destruct target as [s|]; cbn.
  - destruct (He s) as (Ht & e & -> & -> & ->). rewrite Ht, bool_decide_true by apply lookup_delete_eq. cbn.
    by rewrite insert_delete_eq.
  - done.
Qed.

(** An event that neither enters nor leaves. *)
Lemma view_same strict v x e :
  what x = PointerEvent e -> device_action (p_action e) = true ->
  (strict = true -> v !! device_id (p_header e) = Some (to x)) ->
  view_entry strict v (Consumed x) = Some v.
Proof.
  intros Hw Ha Hs. cbn. rewrite Hw. destruct strict; cbn.
  - rewrite (bool_decide_true (v !! device_id (p_header e) = Some (to x))) by auto. by destruct (p_action e).
  - by destruct (p_action e).
Qed.

Lemma cross_view strict v sc d pev current target :
  v !! device_id (p_header pev) = current ->
  view_log strict v (Consumed <$> cross sc d pev current target)
  = Some (partial_alter (fun _ => target) (device_id (p_header pev)) v).
Proof.
  intros Hv. apply (view_cross strict v current target
    (fun s => send_enter_exit_event sc d s pev mir_pointer_action_leave)
    (fun s => send_enter_exit_event sc d s pev mir_pointer_action_enter)); [done|..]; intros s; split; eauto.
Qed.

Lemma target_kept d id st :
  targets d !! id = current_target st -> partial_alter (fun _ => current_target st) id (targets d) = targets d.
Proof. intros Hst. by apply partial_alter_id. Qed.

(** The view after delivering one ordinary event and then crossing over. *)
Lemma gesture_view strict sc d st (id : Z) pev owner handle target :
  id = device_id (p_header pev) -> device_action (p_action pev) = true -> targets d !! id = current_target st ->
  (strict = true -> Some owner = current_target st) ->
  view_entry strict (targets d) (Consumed (deliver sc owner (PointerEvent pev) handle)) = Some (targets d) /\
  view_log strict (targets d)
    (Consumed <$> deliver sc owner (PointerEvent pev) handle :: cross sc d pev (current_target st) target)
  = Some (partial_alter (fun _ => target) id (targets d)).
Proof.
  intros -> Ha Hst Ho.
  assert (H1 : view_entry strict (targets d) (Consumed (deliver sc owner (PointerEvent pev) handle)) = Some (targets d)).
  { eapply view_same; [done|done|]. intros Hs. cbn. rewrite Hst. symmetry. by apply Ho. }
  split; [done|]. rewrite fmap_cons. cbn [view_log]. rewrite H1. cbn [mbind option_bind]. by apply cross_view.
Qed.

(** The surface the pointer is in after looking under it. *)
Lemma retarget strict sc d st (id : Z) pev target :
  id = device_id (p_header pev) -> targets d !! id = current_target st -> gesture_owner st = None ->
  let sent := bool_decide (current_target st <> target) in
  let st1 := if sent then st <| current_target := target |> else st in
  view_log strict (targets d) (Consumed <$> if sent then cross sc d pev (current_target st) target else [])
    = Some (partial_alter (fun _ => target) id (targets d)) /\
  current_target st1 = target /\ gesture_owner st1 = None.
Proof.
  intros -> Hst Ho. cbn zeta. case_bool_decide as Hne.
  - split; [by apply cross_view|done].
  - split; [|done]. cbn. f_equal. symmetry. apply partial_alter_id. congruence.
Qed.

Lemma free_pointer_view strict sc d st pev r d' out :
  let id := device_id (p_header pev) in
  let target := find_target_surface sc (pev_position pev) in
  let sent := bool_decide (current_target st <> target) in
  let st1 := if sent then st <| current_target := target |> else st in
  let crossing := if sent then cross sc d pev (current_target st) target else [] in
  let handle := drag_and_drop_handle d in
  device_action (p_action pev) = true -> (strict = true -> owned d) ->
  targets d !! id = current_target st -> gesture_owner st = None ->
  match target with
  | None => (sent, set_pointer_state d id st1, crossing)
  | Some t =>
      (true, set_pointer_state d id (if bool_decide (p_action pev = mir_pointer_action_button_down)
                                     then st1 <| gesture_owner := Some t |> else st1),
       crossing ++ (if sent then if bool_decide (p_action pev <> mir_pointer_action_motion)
                                 then [deliver_without_relative_motion sc t pev handle] else []
                    else [deliver sc t (PointerEvent pev) handle]))
  end = (r, d', out) ->
  view_log strict (targets d) (Consumed <$> out) = Some (targets d') /\ (strict = true -> owned d').
Proof.
  intros id target sent st1 crossing handle Ha Hown Hst Ho.
  destruct (retarget strict sc d st id pev target eq_refl Hst Ho) as (Hcross & Hcur & Hnone).
  fold sent crossing st1 in Hcross, Hcur, Hnone. clearbody crossing sent st1.
  destruct target as [t|]; intros [= _ <- <-]; rewrite targets_set, ?fmap_app, ?view_log_app, Hcross.
  - cbn [mbind option_bind]. split.
    + assert (Hlast : forall x e, what x = PointerEvent e -> to x = t -> device_action (p_action e) = true ->
                device_id (p_header e) = id ->
                view_log strict (partial_alter (fun _ => Some t) id (targets d)) (Consumed <$> [x])
                = Some (partial_alter (fun _ => Some t) id (targets d))).
      { intros x e Hw Ht Hx Hid. cbn [fmap list_fmap view_log]. erewrite view_same; [done|done|done|].
        intros _. rewrite Hid, Ht. apply lookup_partial_alter_eq. }
      replace (current_target (if bool_decide (p_action pev = _) then _ else _)) with (Some t)
        by (symmetry; destruct (bool_decide (p_action pev = _)); exact Hcur).
      destruct sent; [case_bool_decide; [|done]|]; by eapply Hlast.
    + intros Hs. apply owned_set; [by apply Hown|]. case_bool_decide; [by intros _|].
      rewrite Hnone. by intros [? [=]].
  - rewrite Hcur. split; [done|]. intros Hs. apply owned_set; [by apply Hown|]. rewrite Hnone. by intros [? [=]].
Qed.

Lemma dispatch_pointer_view strict sc d pev r d' out :
  device_action (p_action pev) = true -> (strict = true -> owned d) ->
  dispatch_pointer sc d (device_id (p_header pev)) pev = (r, d', out) ->
  view_log strict (targets d) (Consumed <$> out) = Some (targets d') /\ (strict = true -> owned d').
Proof.
  intros Ha Ho. unfold dispatch_pointer. set (id := device_id (p_header pev)).
  destruct (ensure_pointer_state _ id) as [d1 st] eqn:E.
  apply targets_ensure in E as (Et & Hst & Hown & Eh).
  change (targets (d <| last_pointer_event := Some pev |>)) with (targets d) in *.
  change (drag_and_drop_handle (d <| last_pointer_event := Some pev |>)) with (drag_and_drop_handle d) in Eh.
  rewrite <-Et, <-Eh in *.
  assert (Hown' : strict = true -> owned d1 /\ (is_Some (gesture_owner st) -> gesture_owner st = current_target st))
    by (intros Hs; exact (Hown (Ho Hs))). clear Hown Ho.
  destruct (gesture_owner st) as [owner|] eqn:Eo.
  - assert (Hcur : strict = true -> Some owner = current_target st).
    { intros Hs. by apply (proj2 (Hown' Hs)). }
    destruct (gesture_view strict sc d1 st id pev owner (drag_and_drop_handle d1)
                (find_target_surface sc (pev_position pev)) eq_refl Ha Hst Hcur) as [H1 H2].
    destruct (is_gesture_terminator pev); [|destruct (negb (bool_decide (drag_and_drop_handle d1 = [])))]; cbn.
    1, 2: case_bool_decide as Hne.
    all: intros [= _ <- <-]; rewrite targets_set; cbn [current_target];
      (split; [|intros Hs; apply owned_set; [by apply Hown'|]; cbn; auto]).
    all: try (rewrite Eo; by intros; apply Hcur).
    all: try (by intros [? [=]]).
    all: try exact H2.
    all: cbn [fmap list_fmap view_log]; rewrite H1; cbn; f_equal; symmetry; by apply target_kept.
  - case_bool_decide as Hup.
    { intros [= _ <- <-]. cbn. split; [done|]. apply Hown'. }
    intros Heq. eapply (free_pointer_view strict sc d1 st pev); [done|apply Hown'|done..|exact Heq].
Qed.

Lemma scene_change_view strict sc d pev current target times changed out :
  targets d !! device_id (p_header pev) = current ->
  dispatch_scene_change_enter_exit_events sc d pev current target times = (changed, out) ->
  changed = bool_decide (current <> target) /\
  view_log strict (targets d) (Consumed <$> out)
  = Some (partial_alter (fun _ => target) (device_id (p_header pev)) (targets d)).
Proof.
  intros Hv. unfold dispatch_scene_change_enter_exit_events. case_bool_decide as Hne; intros [= <- <-].
  - split; [done|].
    apply (view_cross strict _ current target
      (fun s => send_enter_exit_event sc d s (synthesized pev (fst times) _ _) mir_pointer_action_leave)
      (fun s => send_enter_exit_event sc d s (synthesized pev (snd times) _ _) mir_pointer_action_enter));
      [done|..]; intros s; split; eauto.
  - split; [done|]. cbn. f_equal. symmetry. apply partial_alter_id. congruence.
Qed.

Lemma surface_moved_view strict sc d moved times d' out :
  (strict = true -> owned d) -> surface_moved sc d moved times = (d', out) ->
  view_log strict (targets d) (Consumed <$> out) = Some (targets d') /\ (strict = true -> owned d').
Proof.
  intros Ho. unfold surface_moved. destruct (last_pointer_event d) as [pev|]; [|by intros [= <- <-]].
  destruct (ensure_pointer_state d _) as [d1 st] eqn:E.
  apply targets_ensure in E as (Et & Hst & Hown & _). rewrite <-Et in *.
  assert (Ho1 : strict = true -> owned d1) by (intros Hs; exact (proj1 (Hown (Ho Hs)))).
  case_bool_decide as Hg; [by intros [= <- <-]|].
  set (target := find_target_surface sc (pev_position pev)).
  destruct (dispatch_scene_change_enter_exit_events _ _ _ _ _ _) as [changed out1] eqn:Ec.
  apply (scene_change_view strict) in Ec as [-> Hv]; [|done]. case_bool_decide as Hne; intros [= <- <-].
  - rewrite targets_set. split; [done|]. intros Hs. apply owned_set; [by apply Ho1|]. cbn. done.
  - split; [|done]. unfold send_motion_event_to_moved_surface. destruct target as [t|]; [|done].
    destruct (bool_decide (t = moved) && _); [|done]. cbn [fmap list_fmap view_log].
    erewrite view_same; [done|done|done|]. intros _. cbn. by rewrite Hst.
Qed.

Lemma surface_resized_view strict sc d times d' out :
  (strict = true -> owned d /\ resize_in_gesture d (OpSurfaceResized times) = false) ->
  surface_resized sc d times = (d', out) ->
  view_log strict (targets d) (Consumed <$> out) = Some (targets d') /\ (strict = true -> owned d').
Proof.
  intros Ho. unfold surface_resized. unfold resize_in_gesture in Ho.
  destruct (last_pointer_event d) as [pev|]; [|intros [= <- <-]; split; [done|apply Ho]].
  assert (Hno : strict = true -> is_Some (gesture_owner (snd (ensure_pointer_state d (device_id (p_header pev))))) -> False).
  { intros Hs. apply Ho in Hs as [_ Hs]. unfold ensure_pointer_state.
    destruct (pointer_state_by_id d !! _); cbn; [by apply bool_decide_eq_false in Hs|by intros [? [=]]]. }
  destruct (ensure_pointer_state d _) as [d1 st] eqn:E.
  apply targets_ensure in E as (Et & Hst & Hown & _). rewrite <-Et in *. cbn in Hno.
  assert (Ho1 : strict = true -> owned d1) by (intros Hs; exact (proj1 (Hown (proj1 (Ho Hs))))).
  destruct (dispatch_scene_change_enter_exit_events _ _ _ _ _ _) as [changed out1] eqn:Ec.
  apply (scene_change_view strict) in Ec as [-> Hv]; [|done]. case_bool_decide as Hne; intros [= <- <-].
  - rewrite targets_set. split; [done|]. intros Hs. apply owned_set; [by apply Ho1|]. cbn. intros Hg.
    by destruct (Hno Hs).
  - rewrite Hv. split; [|done]. f_equal. apply partial_alter_id. congruence.
Qed.

Lemma surface_removed_targets sc d s : targets (surface_removed sc d s) = filter (fun kv => kv.2 <> s) (targets d).
Proof.
  apply map_eq. intros i. unfold targets, surface_removed. cbn.
  rewrite map_lookup_filter, !lookup_omap, lookup_fmap.
  destruct (pointer_state_by_id d !! i) as [st|]; [|done]. cbn. unfold forget.
  destruct (current_target st) as [t|]; cbn; [|by case_bool_decide].
  case_bool_decide as Hs; [injection Hs as ->; by rewrite option_guard_False by naive_solver|].
  rewrite option_guard_True; [done|]. cbn. congruence.
Qed.

Lemma surface_removed_owned sc d s : owned d -> owned (surface_removed sc d s).
Proof.
  intros Ho. unfold owned, surface_removed. cbn. intros i st. rewrite lookup_fmap_Some.
  intros (st0 & <- & Hi). cbn. unfold forget. intros Hg. case_bool_decide as E; [by destruct Hg|].
  rewrite (Ho i st0 Hi Hg) in *. by rewrite bool_decide_false.
Qed.

Lemma device_reset_targets d id : targets (device_reset d id) = if started d then delete id (targets d) else targets d.
Proof.
  unfold device_reset. destruct (started d); [|done]. apply map_eq. intros i. unfold targets. cbn.
  rewrite lookup_omap. destruct (decide (i = id)) as [->|].
  - by rewrite !lookup_delete_eq.
  - by rewrite !lookup_delete_ne, lookup_omap.
Qed.

Lemma step_view strict sc d op d' out :
  op_ok op = true -> (strict = true -> owned d /\ resize_in_gesture d op = false) ->
  dispatcher_step sc d op = Ret (d', out) ->
  view_log strict (targets d) (step_log d op out) = Some (targets d') /\ (strict = true -> owned d').
Proof.
  intros Hop Ho. unfold step_log. rewrite view_log_app.
  destruct op as [ev|s|s times|times|id| | | | |h|]; cbn [dispatcher_step].
  2: { intros [= <- <-]. rewrite surface_removed_targets. split; [done|].
       intros Hs. by apply surface_removed_owned, Ho. }
  2: { intros [= E]. eapply surface_moved_view; [|done]. apply Ho. }
  2: { intros [= E]. eapply surface_resized_view; [|done]. done. }
  2: { intros [= <- <-]. rewrite device_reset_targets. destruct (started d) eqn:Es; cbn; (split; [done|]); intros Hs;
       unfold device_reset; rewrite Es; [|by apply Ho]. unfold owned. cbn. apply map_Forall_delete, Ho, Hs. }
  2, 4-7: intros [= <- <-]; (split; [done|]); apply Ho.
  2: { intros [= <- <-]. split; [done|]. intros _. unfold owned. cbn. apply map_Forall_empty. }
  destruct ev as [k|t|p|]; cbn; intros Hd; [| | |done].
  - destruct (dispatch_key sc d k) as [r o] eqn:E. injection Hd as <- <-. split; [|apply Ho].
    unfold dispatch_key in E. repeat case_match; simplify_eq; done.
  - destruct (dispatch_touch sc d _ t) as [[r d1] o] eqn:E. injection Hd as <- <-.
    unfold dispatch_touch, ensure_touch_state in E. repeat case_match; simplify_eq; (split; [done|apply Ho]).
  - destruct (dispatch_pointer sc d _ p) as [[r d1] o] eqn:E. injection Hd as <- <-.
    eapply dispatch_pointer_view; [exact Hop|apply Ho|exact E].
Qed.

Lemma run_view strict d run :
  Forall (fun so => op_ok so.2 = true) run -> (strict = true -> owned d /\ calm d run = true) ->
  let '(d', log) := run_dispatcher d run in view_log strict (targets d) log = Some (targets d').
Proof.
  intros Hok. revert d. induction Hok as [|[sc op] run Hop _ IH]; intros d Ho; [done|]. cbn [run_dispatcher].
  destruct (dispatcher_step sc d op) as [[d1 out]|e] eqn:E.
  - assert (Hs1 : strict = true -> owned d /\ resize_in_gesture d op = false /\ calm d1 run = true).
    { intros Hs. destruct (Ho Hs) as [? Hc]. cbn in Hc. rewrite E in Hc. by breflect. }
    apply (step_view strict) in E as [Hv Hown]; [|done|naive_solver].
    specialize (IH d1). destruct (run_dispatcher d1 run) as [d2 log]. rewrite view_log_app, Hv. apply IH. naive_solver.
  - apply IH. intros Hs. destruct (Ho Hs) as [? Hc]. cbn in Hc. rewrite E in Hc. by breflect.
Qed.

(** C3: the surfaces see consistent pointers.  For every device the enter and
    leave events of any run form pairs: a pointer enters a surface only after
    it has left the one it was in, or that surface or device is gone, and at
    the end it is in the surface that the dispatcher has as its target.  If no
    surface is resized while a button is held, all other pointer events too go
    to the surface the pointer is in. *)
Theorem enter_leave_bracketed (run : list (S * DispatcherOp)) :
  Forall (fun so => op_ok so.2 = true) run ->
  let '(d', log) := run_dispatcher dispatcher_init run in
  view_log false ∅ log = Some (targets d') /\
  (calm dispatcher_init run = true -> view_log true ∅ log = Some (targets d')).
Proof.
  intros Hok. pose proof (run_view false dispatcher_init run Hok) as H1.
  pose proof (run_view true dispatcher_init run Hok) as H2.
  destruct (run_dispatcher dispatcher_init run) as [d' log].
  change (targets dispatcher_init) with (∅ : gmap Z Z) in *. split; [by apply H1|].
  intros Hc. apply H2. intros _. split; [apply map_Forall_empty|done].
Qed.

(** *** Gestures *)
Lemma run_project {B} (P : Dispatcher -> Prop) (ok : DispatcherOp -> Prop) (f : LogEntry -> list B)
    (g : S * DispatcherOp -> list B) :
  (forall sc d op, P d -> ok op ->
     match dispatcher_step sc d op with
     | Ret (d1, out) => P d1 /\ (step_log d op out ≫= f) = g (sc, op)
     | Throw _ => g (sc, op) = []
     end) ->
  forall run d, P d -> Forall (fun so => ok so.2) run ->
  let '(d', log) := run_dispatcher d run in P d' /\ (log ≫= f) = (run ≫= g).
Proof.
  intros Hstep run. induction run as [|[sc op] run IH]; intros d Hd Hok; [done|].
  apply Forall_cons in Hok as [Hop Hok]. cbn [run_dispatcher]. specialize (Hstep sc d op Hd Hop).
  destruct (dispatcher_step sc d op) as [[d1 out]|e].
  - destruct Hstep as [Hd1 Hf]. specialize (IH d1 Hd1 Hok). destruct (run_dispatcher d1 run) as [d2 log].
    destruct IH as [Hd2 IH]. split; [done|]. by rewrite bind_app, Hf, IH.
  - specialize (IH d Hd Hok). destruct (run_dispatcher d run) as [d2 log]. destruct IH as [Hd2 IH].
    split; [done|]. cbn. by rewrite Hstep, IH.
Qed.

(** The pointer events for a device that are neither enter nor leave, and the
    touch events, as the surfaces consumed them. *)
Definition consumed_pointer (dev : Z) (entry : LogEntry) : list Delivery :=
  match entry with
  | Consumed x =>
      match what x with
      | PointerEvent e => if (device_id (p_header e) =? dev) && device_action (p_action e) then [x] else []
      | _ => []
      end
  | _ => []
  end.
Definition consumed_touch (dev : Z) (entry : LogEntry) : list Delivery :=
  match entry with
  | Consumed x =>
      match what x with TouchEvent t => if device_id (t_header t) =? dev then [x] else [] | _ => [] end
  | _ => []
  end.

(** Each event of a gesture, delivered to its owner. *)
Definition owner_gets_touch (dev owner : Z) (so : S * DispatcherOp) : list Delivery :=
  match so.2 with
  | OpDispatch (TouchEvent t) => if device_id (t_header t) =? dev then [deliver so.1 owner (TouchEvent t) []] else []
  | _ => []
  end.
Definition owner_gets_pointer (dev owner : Z) (so : S * DispatcherOp) : list Delivery :=
  match so.2 with
  | OpDispatch (PointerEvent e) =>
      if device_id (p_header e) =? dev then [deliver so.1 owner (PointerEvent e) []] else []
  | _ => []
  end.

(** What may happen during a gesture: anything but the removal of its owner, a
    reset of the device, a stop, the start of a drag and the end of the
    gesture. *)
Definition during_gesture (dev owner : Z) (op : DispatcherOp) : bool :=
  match op with
  | OpSurfaceRemoved s => negb (s =? owner)
  | OpDeviceReset id => negb (id =? dev)
  | OpStop => false
  | OpSetHandle h => bool_decide (h = [])
  | OpDispatch (TouchEvent t) =>
      negb ((device_id (t_header t) =? dev) && (is_gesture_start t || is_gesture_end t))
  | OpDispatch (PointerEvent e) =>
      device_action (p_action e) && negb ((device_id (p_header e) =? dev) && is_gesture_terminator e)
  | _ => true
  end.

Definition pointer_of (dev : Z) (x : Delivery) : Prop :=
  exists e, what x = PointerEvent e /\ device_id (p_header e) = dev.

Lemma cross_of sc d pev current target : Forall (pointer_of (device_id (p_header pev))) (cross sc d pev current target).
Proof. unfold cross. destruct current, target; cbn; repeat constructor; by eexists. Qed.

Lemma dispatch_pointer_of sc d id pev :
  Forall (pointer_of (device_id (p_header pev))) (dispatch_pointer sc d id pev).2.
Proof.
  unfold dispatch_pointer. destruct (ensure_pointer_state _ _) as [d1 st].
  assert (Hd : forall t h, pointer_of (device_id (p_header pev)) (deliver sc t (PointerEvent pev) h)) by (by eexists).
  assert (Hw : forall t h, pointer_of (device_id (p_header pev)) (deliver_without_relative_motion sc t pev h))
    by (by eexists).
  assert (He : forall t a, pointer_of (device_id (p_header pev)) (send_enter_exit_event sc d1 t pev a)) by (by eexists).
  unfold cross. repeat case_match; cbn; destruct (current_target st);
    repeat first [apply Forall_nil_2 | apply Forall_cons_2 | apply Forall_app_2]; auto.
Qed.

Lemma scene_change_of sc d pev current target times :
  Forall (fun x => pointer_of (device_id (p_header pev)) x /\ forall dev, consumed_pointer dev (Consumed x) = [])
    (dispatch_scene_change_enter_exit_events sc d pev current target times).2.
Proof.
  unfold dispatch_scene_change_enter_exit_events. case_bool_decide; [|done].
  destruct current, target; repeat first [apply Forall_nil_2 | apply Forall_cons_2].
  all: split; [by eexists|intros dev; cbn; by rewrite andb_false_r].
Qed.

Lemma consumed_touch_pointer dev id out : Forall (pointer_of id) out -> (Consumed <$> out) ≫= consumed_touch dev = [].
Proof. induction 1 as [|x out (e & He & _) _ IH]; [done|]. cbn. by rewrite He. Qed.

Lemma consumed_pointer_other dev id out :
  id <> dev -> Forall (pointer_of id) out -> (Consumed <$> out) ≫= consumed_pointer dev = [].
Proof.
  intros Hne. induction 1 as [|x out (e & He & Hid) _ IH]; [done|]. cbn. rewrite He, Hid.
  rewrite (proj2 (Z.eqb_neq id dev)) by done. done.
Qed.

Lemma surface_moved_of sc d moved times :
  exists id, Forall (pointer_of id) (surface_moved sc d moved times).2.
Proof.
  unfold surface_moved. destruct (last_pointer_event d) as [pev|]; [|by exists 0]. exists (device_id (p_header pev)).
  destruct (ensure_pointer_state d _) as [d1 st]. case_bool_decide; [done|].
  pose proof (scene_change_of sc d1 pev (current_target st) (find_target_surface sc (pev_position pev)) times) as Hc.
  destruct (dispatch_scene_change_enter_exit_events _ _ _ _ _ _) as [[] out]; cbn.
  - eapply Forall_impl; [done|]. naive_solver.
  - unfold send_motion_event_to_moved_surface. repeat case_match; repeat constructor. by eexists.
Qed.

Lemma surface_resized_of sc d times :
  (exists id, Forall (pointer_of id) (surface_resized sc d times).2) /\
  forall dev, (Consumed <$> (surface_resized sc d times).2) ≫= consumed_pointer dev = [].
Proof.
  unfold surface_resized. destruct (last_pointer_event d) as [pev|]; [|split; [by exists 0|done]].
  destruct (ensure_pointer_state d _) as [d1 st].
  pose proof (scene_change_of sc d1 pev (current_target st) (find_target_surface sc (pev_position pev)) times) as Hc.
  destruct (dispatch_scene_change_enter_exit_events _ _ _ _ _ _) as [[] out]; cbn [snd] in *.
  all: split; [exists (device_id (p_header pev)); eapply Forall_impl; [done|]; naive_solver|].
  all: intros dev; clear -Hc; induction Hc as [|x out [_ Hx] _ IH]; [done|].
  all: rewrite fmap_cons, bind_cons, IH, app_nil_r; apply Hx.
Qed.

(** A step that keeps the gesture leaves the owner in place and gives it
    exactly the device's events. *)
Lemma touch_gesture_step dev s sc d op :
  touch_state_by_id d !! dev = Some (Some s) -> during_gesture dev s op = true ->
  match dispatcher_step sc d op with
  | Ret (d1, out) => touch_state_by_id d1 !! dev = Some (Some s) /\
                     (step_log d op out ≫= consumed_touch dev) = owner_gets_touch dev s (sc, op)
  | Throw _ => owner_gets_touch dev s (sc, op) = []
  end.
Proof.
  intros Hd Hop. destruct op as [ev|r|r times|times|id| | | | |h|]; cbn in *; try done.
  - destruct ev as [k|t|p|]; cbn in *; [| | |done].
    + destruct (dispatch_key sc d k) as [r o] eqn:E. split; [done|].
      unfold dispatch_key in E. repeat case_match; simplify_eq; done.
    + unfold dispatch_touch, ensure_touch_state. unfold owner_gets_touch. cbn.
      destruct (Z.eqb_spec (device_id (t_header t)) dev) as [<-|Hne]; cbn in Hop.
      * breflect. rewrite Hd, H0, H1. cbn. rewrite lookup_insert_eq, Z.eqb_refl. done.
      * pose proof (proj2 (Z.eqb_neq _ _) Hne) as Hb.
        destruct (touch_state_by_id d !! device_id (t_header t)) as [o|]; cbn.
        all: destruct (if is_gesture_start t then _ else _); cbn; rewrite ?Hb, !lookup_insert_ne by done; done.
    + pose proof (dispatch_pointer_of sc d (device_id (p_header p)) p) as Ho.
      assert (Ht : touch_state_by_id (dispatch_pointer sc d (device_id (p_header p)) p).1.2 = touch_state_by_id d).
      { unfold dispatch_pointer, ensure_pointer_state. repeat case_match; simplify_eq; done. }
      destruct (dispatch_pointer sc d _ p) as [[r d1] o]. cbn in *. rewrite Ht.
      split; [done|]. by eapply consumed_touch_pointer.
  - split; [|done]. unfold surface_removed. cbn. rewrite lookup_fmap, Hd. cbn. unfold forget.
    breflect. by rewrite bool_decide_false by congruence.
  - destruct (surface_moved_of sc d r times) as [id Ho].
    assert (Ht : touch_state_by_id (surface_moved sc d r times).1 = touch_state_by_id d).
    { unfold surface_moved, ensure_pointer_state. repeat case_match; simplify_eq; done. }
    destruct (surface_moved sc d r times) as [d1 o]. cbn in *. rewrite Ht. split; [done|].
    by eapply consumed_touch_pointer.
  - destruct (surface_resized_of sc d times) as [[id Ho] _].
    assert (Ht : touch_state_by_id (surface_resized sc d times).1 = touch_state_by_id d).
    { unfold surface_resized, ensure_pointer_state. repeat case_match; simplify_eq; done. }
    destruct (surface_resized sc d times) as [d1 o]. cbn in *. rewrite Ht. split; [done|].
    by eapply consumed_touch_pointer.
  - unfold device_reset. breflect. destruct (started d); cbn; rewrite ?lookup_delete_ne by done; done.
Qed.

(** a touch gesture belongs to the surface it began on.  The event whose
    contacts all come down goes to the topmost surface under the first
    contact, and every later touch event of the device goes to that same
    surface, once and in order, wherever the contacts, the surfaces or the
    other devices move, until all contacts are up or the surface is removed. *)
Theorem touch_gesture_one_surface (sc : S) (d : Dispatcher) (t0 : MirTouchEvent) (s : Z)
    (run : list (S * DispatcherOp)) :
  let dev := device_id (t_header t0) in
  contacts t0 <> [] -> is_gesture_start t0 = true -> find_target_surface sc (tev_position t0) = Some s ->
  Forall (fun so => during_gesture dev s so.2 = true) run ->
  let '(d', log) := run_dispatcher d ((sc, OpDispatch (TouchEvent t0)) :: run) in
  touch_state_by_id d' !! dev = Some (Some s) /\
  (log ≫= consumed_touch dev) = deliver sc s (TouchEvent t0) [] :: (run ≫= owner_gets_touch dev s).
Proof.
  intros dev Hne Hstart Htarget Hrun. cbn [run_dispatcher dispatcher_step dispatch]. fold dev.
  assert (E : exists d1, dispatch_touch sc d dev t0 = (true, d1, [deliver sc s (TouchEvent t0) []]) /\
                touch_state_by_id d1 !! dev = Some (Some s)).
  { assert (Hend : is_gesture_end t0 = false).
    { unfold is_gesture_end, is_gesture_start in *. destruct (contacts t0) as [|c l]; [done|]. cbn in *. breflect.
      apply andb_false_iff. left. apply bool_decide_eq_false. congruence. }
    unfold dispatch_touch. destruct (ensure_touch_state d dev) as [d1 o]. rewrite Hstart, Htarget, Hend.
    eexists. split; [reflexivity|]. cbn. apply lookup_insert_eq. }
  destruct E as (d1 & -> & Hd1). cbn [mbind outcome_bind].
  pose proof (run_project _ _ (consumed_touch dev) (owner_gets_touch dev s)
    (fun sc d op => touch_gesture_step dev s sc d op) run d1 Hd1 Hrun) as Hp.
  destruct (run_dispatcher d1 run) as [d2 log]. destruct Hp as [Hd2 Hp]. split; [done|].
  rewrite bind_app, Hp. cbn. by rewrite Z.eqb_refl.
Qed.

(** The pointer of [dev] has a button down on surface [s], and nothing is
    dragged. *)
Definition pointer_held (dev s : Z) d : Prop :=
  drag_and_drop_handle d = [] /\ exists st, pointer_state_by_id d !! dev = Some st /\ gesture_owner st = Some s.

Lemma pointer_held_ensure dev s d id :
  pointer_held dev s d -> pointer_held dev s (ensure_pointer_state d id).1.
Proof.
  intros (Hh & st & Hd & Ho). unfold ensure_pointer_state. destruct (pointer_state_by_id d !! id) eqn:E; [by split; eauto|].
  split; [done|]. exists st. cbn. rewrite lookup_insert_ne by congruence. done.
Qed.

Lemma pointer_held_other dev s d id st :
  id <> dev -> pointer_held dev s d -> pointer_held dev s (set_pointer_state d id st).
Proof.
  intros Hne (Hh & st' & Hd & Ho). split; [done|]. exists st'. cbn. by rewrite lookup_insert_ne.
Qed.

Lemma dispatch_pointer_other dev s sc d id pev :
  id <> dev -> pointer_held dev s d -> pointer_held dev s (dispatch_pointer sc d id pev).1.2.
Proof.
  intros Hne Hd. unfold dispatch_pointer.
  destruct (ensure_pointer_state _ id) as [d1 st] eqn:E.
  assert (He : pointer_held dev s d1) by (change d1 with (d1, st).1; rewrite <-E; by apply pointer_held_ensure).
  repeat case_match; cbn [fst snd]; try done; by apply pointer_held_other.
Qed.

Lemma dispatch_pointer_held s sc d pev :
  let dev := device_id (p_header pev) in
  pointer_held dev s d -> is_gesture_terminator pev = false ->
  exists d1, dispatch_pointer sc d dev pev = (true, d1, [deliver sc s (PointerEvent pev) []]) /\ pointer_held dev s d1.
Proof.
  intros dev (Hh & st & Hd & Ho) Ht. unfold dispatch_pointer, ensure_pointer_state. cbn. rewrite Hd, Ho, Ht, Hh.
  eexists. split; [reflexivity|]. split; [done|]. exists st. cbn. by rewrite lookup_insert_eq.
Qed.

Lemma surface_moved_held dev s sc d moved times :
  pointer_held dev s d ->
  pointer_held dev s (surface_moved sc d moved times).1 /\
  (Consumed <$> (surface_moved sc d moved times).2) ≫= consumed_pointer dev = [].
Proof.
  intros Hd. pose proof (surface_moved_of sc d moved times) as Hof. unfold surface_moved in *.
  destruct (last_pointer_event d) as [pev|]; [|done].
  destruct (decide (device_id (p_header pev) = dev)) as [Hid|Hne].
  - rewrite Hid. destruct Hd as (Hh & st & Hst & Ho). unfold ensure_pointer_state. rewrite Hst.
    rewrite bool_decide_true by (rewrite Ho; eauto). split; [|done]. split; eauto.
  - pose proof (pointer_held_ensure dev s d (device_id (p_header pev)) Hd) as He.
    destruct (ensure_pointer_state d _) as [d1 st]. cbn [fst] in He. clear Hof. case_bool_decide; [done|].
    pose proof (scene_change_of sc d1 pev (current_target st) (find_target_surface sc (pev_position pev)) times) as Hc.
    destruct (dispatch_scene_change_enter_exit_events _ _ _ _ _ _) as [[] out]; cbn [fst snd] in *.
    + split; [by apply pointer_held_other|]. eapply consumed_pointer_other; [done|].
      eapply Forall_impl; [done|]. naive_solver.
    + split; [done|]. eapply consumed_pointer_other; [done|]. unfold send_motion_event_to_moved_surface.
      repeat case_match; repeat constructor. by eexists.
Qed.

Lemma surface_resized_held dev s sc d times :
  pointer_held dev s d -> pointer_held dev s (surface_resized sc d times).1.
Proof.
  intros Hd. unfold surface_resized. destruct (last_pointer_event d) as [pev|]; [|done].
  pose proof (pointer_held_ensure dev s d (device_id (p_header pev)) Hd) as He. revert He.
  unfold ensure_pointer_state. destruct (pointer_state_by_id d !! device_id (p_header pev)) as [st|] eqn:E; cbn [fst]; intros He.
  all: destruct (dispatch_scene_change_enter_exit_events _ _ _ _ _ _) as [[] out]; cbn [fst]; [|done].
  - destruct Hd as (Hh & st' & Hst & Ho). split; [done|].
    destruct (decide (device_id (p_header pev) = dev)) as [Hid|Hne]; cbn.
    + rewrite Hid in *. exists (st <| current_target := find_target_surface sc (pev_position pev) |>).
      rewrite lookup_insert_eq. split; [done|]. cbn. congruence.
    + exists st'. by rewrite lookup_insert_ne.
  - destruct Hd as (Hh & st' & Hst & Ho). apply pointer_held_other; [congruence|done].
Qed.

Lemma pointer_gesture_step dev s sc d op :
  pointer_held dev s d -> during_gesture dev s op = true ->
  match dispatcher_step sc d op with
  | Ret (d1, out) => pointer_held dev s d1 /\
                     (step_log d op out ≫= consumed_pointer dev) = owner_gets_pointer dev s (sc, op)
  | Throw _ => owner_gets_pointer dev s (sc, op) = []
  end.
Proof.
  intros Hd Hop. destruct op as [ev|r|r times|times|id| | | | |h|]; cbn [dispatcher_step]; try done.
  - destruct ev as [k|t|p|]; cbn [dispatch]; [| | |done].
    + destruct (dispatch_key sc d k) as [r o] eqn:E. split; [done|].
      unfold dispatch_key in E. repeat case_match; simplify_eq; done.
    + destruct (dispatch_touch sc d _ t) as [[r d1] o] eqn:E. cbn.
      unfold dispatch_touch, ensure_touch_state in E. repeat case_match; simplify_eq; done.
    + cbn in Hop. breflect. unfold owner_gets_pointer. cbn [fst snd].
      destruct (Z.eqb_spec (device_id (p_header p)) dev) as [<-|Hne].
      * destruct (dispatch_pointer_held s sc d p Hd) as (d1 & -> & Hd1); [done|]. cbn.
        rewrite Z.eqb_refl, H0. done.
      * pose proof (dispatch_pointer_other dev s sc d _ p Hne Hd) as H2.
        pose proof (dispatch_pointer_of sc d (device_id (p_header p)) p) as H3.
        destruct (dispatch_pointer sc d _ p) as [[r d1] o]. cbn in *. split; [done|].
        by eapply consumed_pointer_other.
  - destruct Hd as (Hh & st & Hst & Ho). split; [|done]. split; [done|]. cbn in *. breflect.
    rewrite lookup_fmap, Hst. eexists. split; [done|]. cbn. unfold forget. rewrite Ho.
    by rewrite bool_decide_false by congruence.
  - pose proof (surface_moved_held dev s sc d r times Hd) as Hm. by destruct (surface_moved sc d r times).
  - pose proof (surface_resized_held dev s sc d times Hd) as Hr.
    destruct (surface_resized_of sc d times) as [_ Hc]. specialize (Hc dev). by destruct (surface_resized sc d times).
  - destruct Hd as (Hh & st & Hst & Ho). cbn in Hop. breflect. split; [|unfold step_log; by destruct (started d)]. unfold device_reset.
    destruct (started d); (split; [done|]); exists st; cbn; rewrite ?lookup_delete_ne by done; done.
  - cbn in Hop. breflect. subst h. destruct Hd as (_ & Hd). by repeat split.
  - destruct Hd as (_ & Hd). by repeat split.
Qed.

(** The press that begins a gesture. *)
Lemma press_delivered sc d e0 s :
  let dev := device_id (p_header e0) in
  p_action e0 = mir_pointer_action_button_down -> drag_and_drop_handle d = [] ->
  (pointer_state_by_id d !! dev ≫= gesture_owner) = None ->
  find_target_surface sc (pev_position e0) = Some s ->
  exists d1 out press, dispatch_pointer sc d dev e0 = (true, d1, out ++ [press]) /\ pointer_held dev s d1 /\
    ((Consumed <$> out) ≫= consumed_pointer dev) = [] /\
    (press = deliver sc s (PointerEvent e0) [] \/ press = deliver_without_relative_motion sc s e0 []).
Proof.
  intros dev Ha Hh Hno Htarget. unfold dispatch_pointer. destruct (ensure_pointer_state _ dev) as [d1 st] eqn:E.
  assert (Hst : gesture_owner st = None /\ drag_and_drop_handle d1 = []).
  { unfold ensure_pointer_state in E. cbn in E. destruct (pointer_state_by_id d !! dev); injection E as <- <-; done. }
  destruct Hst as [-> Hh1]. rewrite Ha, Htarget, Hh. rewrite bool_decide_false by done.
  rewrite (bool_decide_true (mir_pointer_action_button_down = _)) by done.
  rewrite (bool_decide_true (mir_pointer_action_button_down <> _)) by done.
  destruct (bool_decide (current_target st <> Some s)).
  - eexists _, (cross sc d1 e0 (current_target st) (Some s)), _. split; [reflexivity|]. split; [|split; [|by right]].
    + split; [done|]. eexists. cbn. rewrite lookup_insert_eq. done.
    + unfold cross. destruct (current_target st); cbn; by rewrite !andb_false_r.
  - eexists _, [], _. split; [reflexivity|]. split; [|split; [done|by left]].
    split; [done|]. eexists. cbn. rewrite lookup_insert_eq. done.
Qed.

(** a button held down keeps the pointer with one surface.  The press goes
    to the topmost surface under the pointer, and until the last button is
    released (or the surface goes away, or a drag begins) every motion and
    button event of the device goes to that surface, once and in order,
    whatever is under the pointer. *)
Theorem pointer_gesture_one_surface (sc : S) (d : Dispatcher) (e0 : MirPointerEvent) (s : Z)
    (run : list (S * DispatcherOp)) :
  let dev := device_id (p_header e0) in
  p_action e0 = mir_pointer_action_button_down -> drag_and_drop_handle d = [] ->
  (pointer_state_by_id d !! dev ≫= gesture_owner) = None ->
  find_target_surface sc (pev_position e0) = Some s ->
  Forall (fun so => during_gesture dev s so.2 = true) run ->
  let '(d', log) := run_dispatcher d ((sc, OpDispatch (PointerEvent e0)) :: run) in
  pointer_held dev s d' /\
  exists press, (log ≫= consumed_pointer dev) = press :: (run ≫= owner_gets_pointer dev s) /\ to press = s /\
    exists e, what press = PointerEvent e /\ p_action e = mir_pointer_action_button_down /\
      p_buttons e = p_buttons e0 /\ axis_x e = fsub (axis_x e0) (float_of_int (px (top_left (scene_bounds sc s)))) /\
      axis_y e = fsub (axis_y e0) (float_of_int (py (top_left (scene_bounds sc s)))).
Proof.
  intros dev Ha Hh Hno Htarget Hrun. cbn [run_dispatcher dispatcher_step dispatch]. fold dev.
  destruct (press_delivered sc d e0 s Ha Hh Hno Htarget)
    as (d1 & out & press & E & Hd1 & Hout & Hpress).
  fold dev in E, Hd1, Hout. rewrite E. cbn [mbind outcome_bind].
  pose proof (run_project _ _ (consumed_pointer dev) (owner_gets_pointer dev s)
    (fun sc d op => pointer_gesture_step dev s sc d op) run d1 Hd1 Hrun) as Hp.
  destruct (run_dispatcher d1 run) as [d2 log]. destruct Hp as [Hd2 Hp]. split; [done|]. exists press.
  unfold step_log. cbn [app]. rewrite bind_app, fmap_app, bind_app, Hout, Hp.
  destruct Hpress as [-> | ->]; cbn; unfold dev; rewrite Z.eqb_refl, Ha; cbn; (split; [done|]); (split; [done|]);
    eexists; (split; [reflexivity|done]).
Qed.
End Contract.

(** ** Over the surface stack *)
Lemma foldl_last_match {A} (p : A -> bool) (l : list A) (acc : option A) :
  foldl (fun top x => if p x then Some x else top) acc l = match find_if p (reverse l) with Some x => Some x | None => acc end.
Proof.
  induction l as [|x l IH] using rev_ind; [done|]. rewrite foldl_app, reverse_snoc. cbn. by rewrite IH; destruct (p x).
Qed.

(** the pointer and the touches find the surface that the shell finds: for
    every scene and point the surface that the dispatcher picks by walking the
    whole stack upwards is the one [surface_at] finds from the top. *)
Theorem find_target_surface_is_surface_at (w : World) (p : Point) :
  find_target_surface w p = surface_at w p.
Proof.
  unfold find_target_surface, surface_at. cbn. rewrite foldl_last_match, concat_reverse. fold (stacking_order w).
  fold (takes_input_at w p). by destruct (find_if _ _).
Qed.

(** ** A defect: resizing in a gesture *)
(** [surface_moved] does not synthesize events while a button is held,
    [surface_resized] does: it moves the pointer out of the surface that goes
    on receiving the gesture. *)
Definition example_header : InputHeader := mkHeader 7 0 [] 0.
Definition example_pointer (a : MirPointerAction) (buttons x y : Z) : MirPointerEvent :=
  let f0 := S754_zero false in
  mkPointerEvent example_header a buttons (float_of_int x) (float_of_int y) f0 f0 f0 f0.
Definition example_run : list (World * DispatcherOp) :=
  let press := example_pointer mir_pointer_action_button_down 1 15 25 in
  let drag := example_pointer mir_pointer_action_motion 1 300 300 in
  [(example_stack, OpDispatch (PointerEvent press)); (example_stack, OpDispatch (PointerEvent drag))].

(** a surface that is resized during a gesture is told that the pointer has
    left it and yet receives the following motion: the events of this run are
    not consistent in the strict sense, although every enter is paired with a
    leave. *)
Theorem resize_in_gesture_inconsistent :
  let drag := example_pointer mir_pointer_action_motion 1 301 300 in
  let run := example_run ++ [(example_stack, OpSurfaceResized (1, 2)); (example_stack, OpDispatch (PointerEvent drag))] in
  let '(d', log) := run_dispatcher dispatcher_init run in
  calm dispatcher_init run = false /\ view_log false ∅ log = Some (targets d') /\ view_log true ∅ log = None.
Proof. vm_compute. auto. Qed.

(** ** Witnesses *)
Lemma enter_leave_bracketed_witness :
  calm dispatcher_init example_run = true /\
  view_log true ∅ (run_dispatcher dispatcher_init example_run).2
    = Some (targets (run_dispatcher dispatcher_init example_run).1) /\
  targets (run_dispatcher dispatcher_init example_run).1 !! 7 = Some 1.
Proof.
  assert (Hok : Forall (fun so => op_ok so.2 = true) example_run) by (repeat constructor).
  pose proof (enter_leave_bracketed example_run Hok) as H.
  split; [vm_compute; reflexivity|]. split; [|vm_compute; reflexivity].
  destruct (run_dispatcher dispatcher_init example_run) as [d' log]. cbn [fst snd].
  apply (proj2 H). vm_compute. reflexivity.
Defined.

Definition example_touch (a : MirTouchAction) (x y : Z) : MirTouchEvent :=
  let f0 := S754_zero false in
  mkTouchEvent example_header [mkContact 1 a 0 (float_of_int x) (float_of_int y) f0 f0 f0 f0].

Lemma touch_gesture_one_surface_witness :
  let t1 := example_touch mir_touch_action_change 300 300 in
  let run := [(stack_init ∅ ∅, OpSurfaceRemoved 2); (stack_init ∅ ∅, OpDispatch (TouchEvent t1))] in
  to <$> ((run_dispatcher dispatcher_init
            ((example_stack, OpDispatch (TouchEvent (example_touch mir_touch_action_down 15 25))) :: run)).2
          ≫= consumed_touch 7) = [1; 1].
Proof.
  intros t1 run.
  pose proof (touch_gesture_one_surface example_stack dispatcher_init (example_touch mir_touch_action_down 15 25) 1 run)
    as H. cbn zeta in H.
  destruct (run_dispatcher dispatcher_init _) as [d' log].
  change (device_id (t_header (example_touch mir_touch_action_down 15 25))) with 7 in H.
  destruct H as [_ H]; [discriminate|reflexivity|vm_compute; reflexivity|repeat constructor|].
  cbn [snd]. rewrite H. reflexivity.
Defined.

Lemma pointer_gesture_one_surface_witness :
  to <$> ((run_dispatcher dispatcher_init example_run).2 ≫= consumed_pointer 7) = [1; 1].
Proof.
  pose proof (pointer_gesture_one_surface example_stack dispatcher_init
    (example_pointer mir_pointer_action_button_down 1 15 25) 1
    [(example_stack, OpDispatch (PointerEvent (example_pointer mir_pointer_action_motion 1 300 300)))]) as H.
  cbn zeta in H. unfold example_run. destruct (run_dispatcher dispatcher_init _) as [d' log].
  destruct H as (_ & press & H & Hto & _); [reflexivity|reflexivity|reflexivity|vm_compute; reflexivity|repeat constructor|].
  change (device_id (p_header (example_pointer mir_pointer_action_button_down 1 15 25))) with 7 in H.
  cbn [snd]. rewrite H. cbn. by rewrite Hto.
Defined.
