(* ===== verification/SeatTracker.v ===== *)
(** * mir::input::SeatInputDeviceTracker

    The state that the devices of a seat share
    ([src/server/input/seat_input_device_tracker.cpp]): one cursor, one set of
    pressed buttons, the touch spots, and per device the keys that are down.
    Events come from the devices, pass the filter for keys, update the seat and
    go on to the dispatcher with the seat's cursor and buttons. *)
From S2P Require Import Prelude Geometry InputEvents.

(** ** The key mapper

    [mir::input::KeyMapper] translates scan codes with the keymaps of
    xkbcommon.  Of a mapped event it sets the modifiers and the key code. *)
Class KeyMapper (K : Type) := {
  map_event : K -> MirEvent -> K * MirEvent;
  clear_keymap_for_device : K -> Z -> K;
  km_set_key_state : K -> Z -> list Z -> K;
  km_modifiers : K -> Z;
  device_modifiers : K -> Z -> Z
}.

(** The rest of an event, which mapping does not touch. *)
Definition unmapped (ev : MirEvent) : MirEvent :=
  let strip h := h <| modifiers := 0 |> in
  match ev with
  | KeyEvent e => KeyEvent (e <| k_header := strip (k_header e) |> <| key_code := 0 |>)
  | PointerEvent e => PointerEvent (e <| p_header := strip (p_header e) |>)
  | TouchEvent t => TouchEvent (mkTouchEvent (strip (t_header t)) (contacts t))
  | NonInputEvent t => NonInputEvent t
  end.
Class KeyMapperLaws (K : Type) `{KeyMapper K} := {
  map_event_unmapped : forall k ev, unmapped (snd (map_event k ev)) = unmapped ev
}.

(** A mapper without keymaps. *)
#[export] Instance null_mapper : KeyMapper unit := {|
  map_event k ev := (k, ev);
  clear_keymap_for_device k _ := k;
  km_set_key_state k _ _ := k;
  km_modifiers _ := 0;
  device_modifiers _ _ := 0
|}.
#[export] Instance null_mapper_laws : KeyMapperLaws unit.
Proof. constructor. done. Qed.

(** ** State *)
Record Spot := mkSpot { touch_location : Point; spot_pressure : float32 }.

Record DeviceData := mkDeviceData {
  dd_buttons : Z;
  dd_spots : list Spot;
  scan_codes : list Z
}.
#[export] Instance eta_DeviceData : EtaExpansion DeviceData := fun d =>
  mkDeviceData (dd_buttons d) (dd_spots d) (scan_codes d).
Definition new_device : DeviceData := mkDeviceData 0 [] [].

Record SeatTracker (K : Type) := mkSeat {
  key_mapper : K;
  cursor_x : float32;
  cursor_y : float32;
  buttons : Z;
  device_data : gmap Z DeviceData;
  spots : list Spot;
  confined_region : Rectangles;
  input_region : Rectangles
}.
Arguments mkSeat {K}.
Arguments key_mapper {K}.
Arguments cursor_x {K}.
Arguments cursor_y {K}.
Arguments buttons {K}.
Arguments device_data {K}.
Arguments spots {K}.
Arguments confined_region {K}.
Arguments input_region {K}.
#[export] Instance eta_SeatTracker {K} : EtaExpansion (SeatTracker K) := fun s =>
  mkSeat (key_mapper s) (cursor_x s) (cursor_y s) (buttons s) (device_data s) (spots s) (confined_region s)
    (input_region s).

Definition seat_init {K} (k : K) : SeatTracker K :=
  mkSeat k (S754_zero false) (S754_zero false) 0 ∅ [] [] [].

(** The calls the tracker makes: to the dispatcher, the touch visualizer, the
    cursor listener and the observer of the seat. *)
Inductive SeatCall :=
| Dispatched (ev : MirEvent)
| visualize_touches (touches : list Spot)
| cursor_moved_to (abs_x abs_y : float32)
| seat_add_device (id : Z)
| seat_remove_device (id : Z)
| seat_dispatch_event (ev : MirEvent)
| seat_set_key_state (id : Z) (codes : list Z)
| seat_set_pointer_state (id : Z) (b : Z)
| seat_set_cursor_position (abs_x abs_y : float32)
| seat_set_confinement_region_called (regions : Rectangles)
| seat_reset_confinement_regions.

(** ** DeviceData *)
Definition update_button_state (dd : DeviceData) (button_state : Z) : bool * DeviceData :=
  if dd_buttons dd =? button_state then (false, dd) else (true, dd <| dd_buttons := button_state |>).

Definition spots_of (cs : list ContactState) : list Spot :=
  (fun c => mkSpot (point_of_floats (c_x c) (c_y c)) (pressure c)) <$> filter (fun c => action c <> mir_touch_action_up) cs.
Definition dd_update_spots (dd : DeviceData) (t : MirTouchEvent) : bool * DeviceData :=
  (true, dd <| dd_spots := spots_of (contacts t) |>).

Definition update_scan_codes (dd : DeviceData) (e : MirKeyboardEvent) : DeviceData :=
  match k_action e with
  | mir_keyboard_action_down => dd <| scan_codes := scan_codes dd ++ [scan_code e] |>
  | mir_keyboard_action_up => dd <| scan_codes := erase_all (scan_code e) (scan_codes dd) |>
  | mir_keyboard_action_repeat => dd
  end.

Definition allowed_scan_code_action (dd : DeviceData) (e : MirKeyboardEvent) : bool :=
  let found := bool_decide (scan_code e ∈ scan_codes dd) in
  (bool_decide (k_action e = mir_keyboard_action_down) && negb found)
  || (bool_decide (k_action e <> mir_keyboard_action_down) && found).

Section Tracker.
Context {K : Type} `{KeyMapper K}.
Implicit Types (s : SeatTracker K).

(** ** The seat's shared state

    The devices are in an unordered map: the order in which the spots of
    different devices follow each other is that of the map. *)
Definition update_spots s : SeatTracker K * list SeatCall :=
  let all := map_to_list (device_data s) ≫= (fun kv : Z * DeviceData => dd_spots kv.2) in
  (s <| spots := all |>, [visualize_touches all]).

Definition all_buttons (devices : gmap Z DeviceData) : Z :=
  map_fold (fun _ dd acc => Z.lor acc (dd_buttons dd)) 0 devices.
Definition update_states s : SeatTracker K := s <| buttons := all_buttons (device_data s) |>.

(** ** The cursor *)
Definition cursor_position s : Point := point_of_floats (cursor_x s) (cursor_y s).
Definition button_state s : Z := buttons s.

Definition confine_function s (p : Point) : Point := confine (confined_region s) (confine (input_region s) p).

Definition confine_pointer s : SeatTracker K :=
  let old := cursor_position s in
  let confined := confine_function s old in
  s <| cursor_x := if px confined =? px old then cursor_x s else float_of_int (px confined) |>
    <| cursor_y := if py confined =? py old then cursor_y s else float_of_int (py confined) |>.

Definition update_cursor s (e : MirPointerEvent) : SeatTracker K * list SeatCall :=
  let s1 := confine_pointer (s <| cursor_x := fadd (cursor_x s) (axis_relative_x e) |>
                               <| cursor_y := fadd (cursor_y s) (axis_relative_y e) |>) in
  (s1, [cursor_moved_to (cursor_x s1) (cursor_y s1)]).

(** ** Operations *)
Definition add_device s (id : Z) : SeatTracker K * list SeatCall :=
  (match device_data s !! id with
   | Some _ => s
   | None => s <| device_data := <[id := new_device]> (device_data s) |>
   end, [seat_add_device id]).

Definition remove_device s (id : Z) : outcome (SeatTracker K * list SeatCall) :=
  match device_data s !! id with
  | None => Throw (logic_error "Modifier for unknown device changed")
  | Some dd =>
      let state_update_needed := negb (dd_buttons dd =? 0) in
      let spot_update_needed := negb (bool_decide (dd_spots dd = [])) in
      let s1 := s <| device_data := delete id (device_data s) |>
                  <| key_mapper := clear_keymap_for_device (key_mapper s) id |> in
      let s2 := if state_update_needed then update_states s1 else s1 in
      let '(s3, calls) := if spot_update_needed then update_spots s2 else (s2, []) in
      Ret (s3, calls ++ [seat_remove_device id])
  end.

(** Whether an event is dropped. *)
Definition filter_input_event s (ev : MirEvent) : bool :=
  match ev with
  | KeyEvent e =>
      match device_data s !! device_id (k_header e) with
      | None => true
      | Some dd => negb (allowed_scan_code_action dd e)
      end
  | _ => false
  end.

Definition update_seat_properties s (ev : MirEvent) : outcome (SeatTracker K * list SeatCall) :=
  match event_device ev with
  | None => Ret (s, [])
  | Some id =>
      match device_data s !! id with
      | None => Throw (logic_error "Event of unknown device received")
      | Some dd =>
          let store s' dd' := s' <| device_data := <[id := dd']> (device_data s') |> in
          match ev with
          | KeyEvent e => Ret (store s (update_scan_codes dd e), [])
          | TouchEvent t =>
              let '(changed, dd') := dd_update_spots dd t in
              Ret (if changed then update_spots (store s dd') else (store s dd', []))
          | PointerEvent e =>
              let '(s1, calls) := update_cursor s e in
              let '(changed, dd') := update_button_state dd (p_buttons e) in
              let s2 := store s1 dd' in
              Ret (if changed then update_states s2 else s2, calls)
          | NonInputEvent _ => Ret (s, [])
          end
      end
  end.

(** The seat's cursor and buttons replace those of the device. *)
Definition set_seat_state s (ev : MirEvent) : MirEvent :=
  match ev with
  | PointerEvent e =>
      PointerEvent (e <| axis_x := cursor_x s |> <| axis_y := cursor_y s |> <| p_buttons := buttons s |>)
  | _ => ev
  end.

Definition seat_dispatch s (ev : MirEvent) : outcome (SeatTracker K * list SeatCall) :=
  match ev with
  | NonInputEvent _ => Ret (s, [Dispatched ev; seat_dispatch_event ev])
  | _ =>
      if filter_input_event s ev then Ret (s, [])
      else
        '(s1, calls) ← update_seat_properties s ev;
        let '(k, ev1) := map_event (key_mapper s1) ev in
        let s2 := s1 <| key_mapper := k |> in
        let ev2 := set_seat_state s2 ev1 in
        Ret (s2, calls ++ [Dispatched ev2; seat_dispatch_event ev2])
  end.

Definition set_key_state s (id : Z) (codes : list Z) : SeatTracker K * list SeatCall :=
  let s1 := s <| key_mapper := km_set_key_state (key_mapper s) id codes |> in
  (match device_data s1 !! id with
   | Some dd => s1 <| device_data := <[id := dd <| scan_codes := codes |>]> (device_data s1) |>
   | None => s1
   end, [seat_set_key_state id codes]).

Definition set_pointer_state s (id : Z) (b : Z) : SeatTracker K * list SeatCall :=
  (match device_data s !! id with
   | Some dd => s <| device_data := <[id := snd (update_button_state dd b)]> (device_data s) |>
   | None => s
   end, [seat_set_pointer_state id b]).

Definition set_cursor_position s (abs_x abs_y : float32) : SeatTracker K * list SeatCall :=
  (s <| cursor_x := abs_x |> <| cursor_y := abs_y |>, [seat_set_cursor_position abs_x abs_y]).

Definition set_confinement_regions s (regions : Rectangles) : SeatTracker K * list SeatCall :=
  (s <| confined_region := regions |>, [seat_set_confinement_region_called regions]).
Definition reset_confinement_regions s : SeatTracker K * list SeatCall :=
  (s <| confined_region := [] |>, [seat_reset_confinement_regions]).
Definition update_outputs s (output_regions : Rectangles) : SeatTracker K := s <| input_region := output_regions |>.

(** ** The state event *)
Definition KEY_CAPSLOCK : Z := 58.
Definition KEY_NUMLOCK : Z := 69.
Definition KEY_SCROLLLOCK : Z := 70.
Definition mir_input_event_modifier_caps_lock : Z := 32768.
Definition mir_input_event_modifier_num_lock : Z := 65536.
Definition mir_input_event_modifier_scroll_lock : Z := 131072.

Record InputDeviceState := mkDeviceState { ds_id : Z; pressed_keys : list Z; ds_buttons : Z }.
Record SeatState := mkSeatState {
  when : Z;
  ss_buttons : Z;
  ss_modifiers : Z;
  ss_x : float32;
  ss_y : float32;
  ss_devices : list InputDeviceState
}.

(** A lock that is active without its key being down is reported as a key
    pressed twice. *)
Definition lock_keys (lock_state : Z) (codes : list Z) : list Z :=
  let toggled modifier key :=
    if has_flag lock_state modifier && negb (bool_decide (key ∈ codes)) then [key; key] else [] in
  toggled mir_input_event_modifier_caps_lock KEY_CAPSLOCK ++
  toggled mir_input_event_modifier_num_lock KEY_NUMLOCK ++
  toggled mir_input_event_modifier_scroll_lock KEY_SCROLLLOCK.

Definition create_device_state s (now : Z) : SeatState :=
  mkSeatState now (buttons s) (km_modifiers (key_mapper s)) (cursor_x s) (cursor_y s)
    ((fun kv : Z * DeviceData => mkDeviceState kv.1
                  (scan_codes kv.2 ++ lock_keys (device_modifiers (key_mapper s) kv.1) (scan_codes kv.2))
                  (dd_buttons kv.2))
     <$> map_to_list (device_data s)).

(** ** Steps *)
Inductive SeatOp :=
| SeatAdd (id : Z)
| SeatRemove (id : Z)
| SeatDispatch (ev : MirEvent)
| SeatSetKeys (id : Z) (codes : list Z)
| SeatSetPointer (id : Z) (b : Z)
| SeatSetCursor (abs_x abs_y : float32)
| SeatConfine (regions : Rectangles)
| SeatUnconfine
| SeatOutputs (regions : Rectangles).

Definition seat_step s (op : SeatOp) : outcome (SeatTracker K * list SeatCall) :=
  match op with
  | SeatAdd id => Ret (add_device s id)
  | SeatRemove id => remove_device s id
  | SeatDispatch ev => seat_dispatch s ev
  | SeatSetKeys id codes => Ret (set_key_state s id codes)
  | SeatSetPointer id b => Ret (set_pointer_state s id b)
  | SeatSetCursor ax ay => Ret (set_cursor_position s ax ay)
  | SeatConfine rs => Ret (set_confinement_regions s rs)
  | SeatUnconfine => Ret (reset_confinement_regions s)
  | SeatOutputs rs => Ret (update_outputs s rs, [])
  end.

(** An exception leaves the tracker as it was. *)
Fixpoint run_seat s (ops : list SeatOp) : SeatTracker K * list SeatCall :=
  match ops with
  | [] => (s, [])
  | op :: rest =>
      match seat_step s op with
      | Ret (s1, calls) => let '(s2, log) := run_seat s1 rest in (s2, calls ++ log)
      | Throw _ => run_seat s rest
      end
  end.
End Tracker.

Section Properties.
Context {K : Type} `{KeyMapperLaws K}.
Implicit Types (s : SeatTracker K) (v : gmap Z (gset Z)).

(** What a dispatch that does not throw does. *)
Lemma seat_dispatch_Ret s ev s' calls :
  seat_dispatch s ev = Ret (s', calls) ->
  (filter_input_event s ev = true /\ s' = s /\ calls = []) \/
  exists s1 calls1 k ev1,
    filter_input_event s ev = false /\ update_seat_properties s ev = Ret (s1, calls1) /\ unmapped ev1 = unmapped ev /\
    s' = s1 <| key_mapper := k |> /\
    calls = calls1 ++ [Dispatched (set_seat_state s' ev1); seat_dispatch_event (set_seat_state s' ev1)].
Proof.
  intros Hd. assert (Hcase : (exists n, ev = NonInputEvent n) \/ ~ exists n, ev = NonInputEvent n) by (destruct ev; naive_solver).
  destruct Hcase as [[n ->]|Hin].
  { right. cbn in Hd. injection Hd as <- <-. exists s, [], (key_mapper s), (NonInputEvent n). by destruct s. }
  unfold seat_dispatch in Hd.
  assert (Hd' : (if filter_input_event s ev then Ret (s, []) else
                     '(s1, calls) ← update_seat_properties s ev;
                     let '(k, ev1) := map_event (key_mapper s1) ev in
                     let s2 := s1 <| key_mapper := k |> in
                     let ev2 := set_seat_state s2 ev1 in
                     Ret (s2, calls ++ [Dispatched ev2; seat_dispatch_event ev2])) = Ret (s', calls))
    by (destruct ev; [exact Hd..|by destruct Hin; eexists]). clear Hd.
  destruct (filter_input_event s ev); [left; by injection Hd' as <- <-|right].
  apply outcome_bind_Ret in Hd' as ([s1 calls1] & Hu & Hd').
  pose proof (map_event_unmapped (key_mapper s1) ev) as Hm.
  destruct (map_event (key_mapper s1) ev) as [k ev1]. injection Hd' as <- <-. by exists s1, calls1, k, ev1.
Qed.

(** ** Keys *)

(** The abstract keyboard state: the keys that are down on each device.  A key
    goes down only when it is up, comes up or repeats only when it is down. *)
Definition key_call v (c : SeatCall) : option (gmap Z (gset Z)) :=
  match c with
  | Dispatched (KeyEvent e) =>
      down ← v !! device_id (k_header e);
      match k_action e with
      | mir_keyboard_action_down =>
          if bool_decide (scan_code e ∈ down) then None
          else Some (<[device_id (k_header e) := {[scan_code e]} ∪ down]> v)
      | mir_keyboard_action_up =>
          if bool_decide (scan_code e ∈ down)
          then Some (<[device_id (k_header e) := down ∖ {[scan_code e]}]> v) else None
      | mir_keyboard_action_repeat => if bool_decide (scan_code e ∈ down) then Some v else None
      end
  | seat_add_device id => Some (match v !! id with Some _ => v | None => <[id := ∅]> v end)
  | seat_remove_device id => Some (delete id v)
  | seat_set_key_state id codes =>
      Some (match v !! id with Some _ => <[id := list_to_set codes]> v | None => v end)
  | _ => Some v
  end.
Fixpoint key_log v (log : list SeatCall) : option (gmap Z (gset Z)) :=
  match log with
  | [] => Some v
  | c :: rest => v' ← key_call v c; key_log v' rest
  end.

Definition codes_down (dd : DeviceData) : gset Z := list_to_set (scan_codes dd).
Definition keys_down s : gmap Z (gset Z) := codes_down <$> device_data s.

Lemma key_log_app v l1 l2 : key_log v (l1 ++ l2) = v' ← key_log v l1; key_log v' l2.
Proof. revert v. induction l1 as [|c l1 IH]; intros v; [done|]. cbn. destruct (key_call v c); cbn; auto. Qed.

Lemma keys_down_insert s id dd :
  codes_down <$> <[id := dd]> (device_data s) = <[id := codes_down dd]> (keys_down s).
Proof. apply fmap_insert. Qed.

Lemma keys_same s id dd dd' :
  device_data s !! id = Some dd -> scan_codes dd' = scan_codes dd ->
  codes_down <$> <[id := dd']> (device_data s) = keys_down s.
Proof.
  intros Hd Hc. rewrite keys_down_insert. apply insert_id. unfold keys_down. rewrite lookup_fmap, Hd. cbn.
  unfold codes_down. by rewrite Hc.
Qed.

Lemma allowed_iff dd e :
  allowed_scan_code_action dd e = true <->
  match k_action e with
  | mir_keyboard_action_down => scan_code e ∉ scan_codes dd
  | _ => scan_code e ∈ scan_codes dd
  end.
Proof.
  unfold allowed_scan_code_action. rewrite orb_true_iff, !andb_true_iff, negb_true_iff, !bool_decide_eq_true, bool_decide_eq_false.
  destruct (k_action e); naive_solver.
Qed.

(** What the filter lets through follows the abstract state. *)
Lemma key_allowed s e dd :
  device_data s !! device_id (k_header e) = Some dd -> allowed_scan_code_action dd e = true ->
  key_call (keys_down s) (Dispatched (KeyEvent e))
  = Some (<[device_id (k_header e) := codes_down (update_scan_codes dd e)]> (keys_down s)).
Proof.
  intros Hd Ha. assert (Hv : keys_down s !! device_id (k_header e) = Some (codes_down dd))
    by (unfold keys_down; by rewrite lookup_fmap, Hd).
  cbn. rewrite Hv. cbn. apply allowed_iff in Ha. unfold update_scan_codes.
  assert (Hin : scan_code e ∈ codes_down dd <-> scan_code e ∈ scan_codes dd) by (unfold codes_down; set_solver).
  destruct (k_action e).
  - rewrite bool_decide_true by tauto. do 2 f_equal. unfold codes_down. cbn. apply set_eq. intros y.
    rewrite elem_of_difference, !elem_of_list_to_set, elem_of_erase_all, elem_of_singleton. done.
  - rewrite bool_decide_false by tauto. do 2 f_equal. unfold codes_down. cbn. rewrite list_to_set_app_L. set_solver.
  - rewrite bool_decide_true by tauto. f_equal. symmetry. by apply insert_id.
Qed.

(** Mapping an event changes nothing the keyboard state depends on. *)
Lemma key_call_unmapped v ev : key_call v (Dispatched (unmapped ev)) = key_call v (Dispatched ev).
Proof. by destruct ev. Qed.
Lemma key_call_seat_state v s ev : key_call v (Dispatched (set_seat_state s ev)) = key_call v (Dispatched ev).
Proof. by destruct ev. Qed.

(** The calls that come before the dispatch do not concern keys. *)
Lemma update_seat_properties_keys s ev s1 calls :
  filter_input_event s ev = false -> update_seat_properties s ev = Ret (s1, calls) ->
  key_log (keys_down s) calls = Some (keys_down s) /\
  key_call (keys_down s) (Dispatched ev) = Some (keys_down s1).
Proof.
  intros Hf. unfold update_seat_properties.
  destruct ev as [e|t|e|n]; cbn [event_device]; [| | |by intros [= <- <-]].
  - cbn in Hf. destruct (device_data s !! device_id (k_header e)) as [dd|] eqn:Ed; [|done]. intros [= <- <-].
    split; [done|]. erewrite key_allowed; [|done|by breflect]. f_equal. unfold keys_down at 2. cbn. by rewrite keys_down_insert.
  - destruct (device_data s !! device_id (t_header t)) as [dd|] eqn:Ed; [|done]. intros [= <- <-]. split; [done|].
    cbn. f_equal. symmetry. unfold keys_down at 1. cbn. by eapply keys_same.
  - destruct (device_data s !! device_id (p_header e)) as [dd|] eqn:Ed; [|done].
    destruct (update_cursor s e) as [s2 calls2] eqn:Ec.
    assert (Hs2 : device_data s2 = device_data s /\ calls2 = [cursor_moved_to (cursor_x s2) (cursor_y s2)]).
    { unfold update_cursor in Ec. injection Ec as <- <-. done. }
    destruct Hs2 as [Hs2 ->]. destruct (update_button_state dd (p_buttons e)) as [changed dd'] eqn:Eb. cbn.
    intros [= <- <-]. split; [done|]. f_equal. symmetry.
    transitivity (codes_down <$> <[device_id (p_header e) := dd']> (device_data s)); [by destruct changed; unfold keys_down; cbn; rewrite Hs2|].
    eapply keys_same; [done|]. unfold update_button_state in Eb. case_if_in Eb; by injection Eb as <- <-.
Qed.

Lemma seat_step_keys s op s' calls :
  seat_step s op = Ret (s', calls) -> key_log (keys_down s) calls = Some (keys_down s').
Proof.
  destruct op as [id|id|ev|id codes|id b|ax ay|rs| |rs]; cbn [seat_step].
  - intros [= <- <-]. cbn. unfold keys_down. rewrite lookup_fmap.
    destruct (device_data s !! id) as [dd|]; cbn; [done|]. by rewrite fmap_insert.
  - unfold remove_device. destruct (device_data s !! id) as [dd|] eqn:Ed; [|done].
    set (s1 := s <| device_data := _ |> <| key_mapper := _ |>).
    set (s2 := if negb (dd_buttons dd =? 0) then update_states s1 else s1).
    assert (H2 : device_data s2 = delete id (device_data s)) by (unfold s2; by destruct (negb _)). clearbody s2.
    destruct (negb (bool_decide (dd_spots dd = []))); cbn; intros [= <- <-]; cbn; f_equal; unfold keys_down; cbn;
      by rewrite H2, fmap_delete.
  - intros [(_ & -> & ->)|(s1 & calls1 & k & ev1 & Hf & Hu & Hm & -> & ->)]%seat_dispatch_Ret; [done|].
    apply update_seat_properties_keys in Hu as [H1 H2]; [|done].
    rewrite key_log_app, H1. cbn [mbind option_bind key_log].
    rewrite key_call_seat_state, <-key_call_unmapped, Hm, key_call_unmapped, H2. done.
  - intros [= <- <-]. cbn. unfold keys_down. cbn. rewrite lookup_fmap.
    destruct (device_data s !! id) as [dd|]; cbn; [|done]. by rewrite fmap_insert.
  - intros [= <- <-]. cbn. f_equal. destruct (device_data s !! id) as [dd|] eqn:Ed; [|done].
    symmetry. unfold keys_down at 1. cbn. eapply keys_same; [done|]. unfold update_button_state. by case_if.
  - by intros [= <- <-].
  - by intros [= <- <-].
  - by intros [= <- <-].
  - by intros [= <- <-].
Qed.

Lemma run_seat_keys s ops : let '(s', log) := run_seat s ops in key_log (keys_down s) log = Some (keys_down s').
Proof.
  revert s. induction ops as [|op ops IH]; intros s; [done|]. cbn. destruct (seat_step s op) as [[s1 calls]|] eqn:E; [|apply IH].
  apply seat_step_keys in E. specialize (IH s1). destruct (run_seat s1 ops) as [s2 log]. by rewrite key_log_app, E.
Qed.

(** C33: keys are consistent.  Whatever the devices send and however the key
    states are synchronised, in the events the seat dispatches a key of a
    device goes down only when it is up and comes up or repeats only when it is
    down, and the keys that are down are exactly the ones the tracker records;
    no key of an unknown device is dispatched. *)
Theorem seat_keys_alternate (k : K) (ops : list SeatOp) :
  let '(s', log) := run_seat (seat_init k) ops in key_log ∅ log = Some (keys_down s').
Proof. exact (run_seat_keys (seat_init k) ops). Qed.

(** ** Buttons and touch spots *)
Lemma all_buttons_testbit (m : gmap Z DeviceData) n :
  Z.testbit (all_buttons m) n = true <-> exists id dd, m !! id = Some dd /\ Z.testbit (dd_buttons dd) n = true.
Proof.
  unfold all_buttons.
  apply (map_fold_weak_ind (fun b m => Z.testbit b n = true <-> exists id dd, m !! id = Some dd /\ Z.testbit (dd_buttons dd) n = true)).
  - rewrite Z.bits_0. split; [done|]. intros (id & dd & Hd & _). by rewrite lookup_empty in Hd.
  - intros id dd m' b Hid IH. rewrite Z.lor_spec, orb_true_iff, IH. split.
    + intros [(id' & dd' & Hd & Hb)|Hb]; [|exists id, dd; by rewrite lookup_insert_eq].
      exists id', dd'. by rewrite lookup_insert_ne by congruence.
    + intros (id' & dd' & Hd & Hb). destruct (decide (id' = id)) as [->|Hne].
      * rewrite lookup_insert_eq in Hd. injection Hd as ->. by right.
      * rewrite lookup_insert_ne in Hd by done. left. by exists id', dd'.
Qed.

(** Two sets of devices in which the same buttons are down. *)
Lemma all_buttons_eq (m1 m2 : gmap Z DeviceData) :
  (forall n, (exists id dd, m1 !! id = Some dd /\ Z.testbit (dd_buttons dd) n = true) <->
             (exists id dd, m2 !! id = Some dd /\ Z.testbit (dd_buttons dd) n = true)) ->
  all_buttons m1 = all_buttons m2.
Proof. intros Hm. apply Z.bits_inj. intros n. apply eq_true_iff_eq. by rewrite !all_buttons_testbit. Qed.

Lemma all_buttons_insert_same m id dd dd' :
  m !! id = Some dd -> dd_buttons dd' = dd_buttons dd -> all_buttons (<[id := dd']> m) = all_buttons m.
Proof.
  intros Hd Hb. apply all_buttons_eq. intros n. split; intros (id' & x & Hx & Hn); destruct (decide (id' = id)) as [->|Hne].
  - rewrite lookup_insert_eq in Hx. injection Hx as <-. exists id, dd. by rewrite <-Hb.
  - rewrite lookup_insert_ne in Hx by done. by exists id', x.
  - exists id, dd'. rewrite lookup_insert_eq, Hb. split; [done|]. congruence.
  - exists id', x. by rewrite lookup_insert_ne.
Qed.

Lemma all_buttons_insert_new m id : m !! id = None -> all_buttons (<[id := new_device]> m) = all_buttons m.
Proof.
  intros Hd. apply all_buttons_eq. intros n. split; intros (id' & x & Hx & Hn).
  - apply lookup_insert_Some in Hx as [[<- <-]|[Hne Hx]]; [by rewrite Z.bits_0 in Hn|by exists id', x].
  - exists id', x. rewrite lookup_insert_ne by congruence. done.
Qed.

Lemma all_buttons_delete m id dd : m !! id = Some dd -> dd_buttons dd = 0 -> all_buttons (delete id m) = all_buttons m.
Proof.
  intros Hd Hb. apply all_buttons_eq. intros n. split; intros (id' & x & Hx & Hn).
  - apply lookup_delete_Some in Hx as [_ Hx]. by exists id', x.
  - exists id', x. rewrite lookup_delete_ne; [done|]. intros ->. rewrite Hd in Hx. injection Hx as ->.
    by rewrite Hb, Z.bits_0 in Hn.
Qed.

Definition all_spots (m : gmap Z DeviceData) : list Spot := map_to_list m ≫= (fun kv : Z * DeviceData => dd_spots kv.2).

Lemma all_spots_insert m id dd : m !! id = None -> all_spots (<[id := dd]> m) ≡ₚ dd_spots dd ++ all_spots m.
Proof. intros Hid. unfold all_spots. by rewrite map_to_list_insert. Qed.

Lemma all_spots_delete m id dd : m !! id = Some dd -> all_spots m ≡ₚ dd_spots dd ++ all_spots (delete id m).
Proof.
  intros Hd. rewrite <-(insert_delete_id m id dd) at 1 by done. apply all_spots_insert, lookup_delete_eq.
Qed.

Lemma all_spots_insert_same m id dd dd' :
  m !! id = Some dd -> dd_spots dd' = dd_spots dd -> all_spots (<[id := dd']> m) ≡ₚ all_spots m.
Proof.
  intros Hd Hs. rewrite (all_spots_delete m id dd Hd), <-insert_delete_eq, all_spots_insert, Hs; [done|].
  apply lookup_delete_eq.
Qed.

(** The seat shows the touches of all its devices; its buttons are those of
    all its devices, if nothing but their events changes them. *)
Definition spots_ok s : Prop := spots s ≡ₚ all_spots (device_data s).
Definition buttons_ok s : Prop := buttons s = all_buttons (device_data s).
Definition sets_pointer_state (op : SeatOp) : bool := match op with SeatSetPointer _ _ => true | _ => false end.

Lemma update_seat_properties_ok s ev s1 calls :
  update_seat_properties s ev = Ret (s1, calls) -> (spots_ok s -> spots_ok s1) /\ (buttons_ok s -> buttons_ok s1).
Proof.
  unfold update_seat_properties. destruct (event_device ev) as [id|] eqn:Eid; [|by intros [= <- <-]].
  destruct (device_data s !! id) as [dd|] eqn:Ed; [|done].
  destruct ev as [e|t|e|n]; [| | |by intros [= <- <-]].
  - intros [= <- <-]. unfold spots_ok, buttons_ok. cbn. split; intros Ho.
    + rewrite Ho. symmetry. eapply all_spots_insert_same; [done|]. unfold update_scan_codes. by destruct (k_action e).
    + rewrite Ho. symmetry. eapply all_buttons_insert_same; [done|]. unfold update_scan_codes. by destruct (k_action e).
  - intros [= <- <-]. unfold spots_ok, buttons_ok. cbn. split; intros Ho; [done|].
    rewrite Ho. symmetry. by eapply all_buttons_insert_same.
  - cbn [update_cursor]. destruct (update_button_state dd (p_buttons e)) as [changed dd'] eqn:Eb.
    unfold update_button_state in Eb. case_if_in Eb; injection Eb as <- <-; intros [= <- <-];
      unfold spots_ok, buttons_ok; cbn; (split; intros Ho; [rewrite Ho; symmetry; by eapply all_spots_insert_same|]).
    + rewrite Ho. symmetry. by eapply all_buttons_insert_same.
    + done.
Qed.

Lemma remove_device_ok s id s' calls :
  remove_device s id = Ret (s', calls) -> (spots_ok s -> spots_ok s') /\ (buttons_ok s -> buttons_ok s').
Proof.
  unfold remove_device. destruct (device_data s !! id) as [dd|] eqn:Ed; [|done].
  destruct (dd_buttons dd =? 0) eqn:Eb; destruct (bool_decide (dd_spots dd = [])) eqn:Es; cbn; intros [= <- <-];
    unfold spots_ok, buttons_ok; cbn; breflect; (split; intros Ho; try done).
  all: try (rewrite Ho; symmetry; by eapply all_buttons_delete).
  all: rewrite Ho, (all_spots_delete _ id dd Ed), Es; done.
Qed.

Lemma seat_step_ok s op s' calls :
  seat_step s op = Ret (s', calls) ->
  (spots_ok s -> spots_ok s') /\ (sets_pointer_state op = false -> buttons_ok s -> buttons_ok s').
Proof.
  destruct op as [id|id|ev|id codes|id b|ax ay|rs| |rs]; cbn [seat_step sets_pointer_state].
  - intros [= <- <-]. unfold spots_ok, buttons_ok. destruct (device_data s !! id) eqn:Ed; [done|]. cbn. split.
    + intros ->. by rewrite all_spots_insert.
    + intros _ ->. by rewrite all_buttons_insert_new.
  - intros Hr. apply remove_device_ok in Hr. naive_solver.
  - intros [(_ & -> & ->)|(s1 & calls1 & k & ev1 & _ & Hu & _ & -> & _)]%seat_dispatch_Ret; [done|].
    apply update_seat_properties_ok in Hu as [H1 H2]. split; [exact H1|]. intros _. exact H2.
  - intros [= <- <-]. unfold spots_ok, buttons_ok. cbn. destruct (device_data s !! id) as [dd|] eqn:Ed; [|done]. cbn. split.
    + intros ->. symmetry. by eapply all_spots_insert_same.
    + intros _ ->. symmetry. by eapply all_buttons_insert_same.
  - intros [= <- <-]. split; [|done]. unfold spots_ok. destruct (device_data s !! id) as [dd|] eqn:Ed; [|done]. cbn.
    intros ->. symmetry. eapply all_spots_insert_same; [done|]. unfold update_button_state. by case_if.
  - by intros [= <- <-].
  - by intros [= <- <-].
  - by intros [= <- <-].
  - by intros [= <- <-].
Qed.

Lemma run_seat_ok s ops :
  let '(s', _) := run_seat s ops in
  (spots_ok s -> spots_ok s') /\ (Forall (fun op => sets_pointer_state op = false) ops -> buttons_ok s -> buttons_ok s').
Proof.
  revert s. induction ops as [|op ops IH]; intros s; [done|]. cbn. destruct (seat_step s op) as [[s1 calls]|] eqn:E.
  - apply seat_step_ok in E as [H1 H2]. specialize (IH s1). destruct (run_seat s1 ops) as [s2 log]. destruct IH as [I1 I2].
    split; [by auto|]. intros Hops%Forall_cons. naive_solver.
  - specialize (IH s). destruct (run_seat s ops) as [s2 log]. split; [apply IH|]. intros [_ Hops]%Forall_cons. by apply IH.
Qed.

(** a seat is the sum of its devices.  After any sequence of operations
    (failed ones included) the touch spots shown are those of all the devices,
    and, if no operation sets the state of a pointer from outside, a button of
    the seat is down exactly when it is down on some device. *)
Theorem seat_sums_devices (k : K) (ops : list SeatOp) :
  let '(s', _) := run_seat (seat_init k) ops in
  spots s' ≡ₚ all_spots (device_data s') /\
  (Forall (fun op => sets_pointer_state op = false) ops ->
   forall n, Z.testbit (button_state s') n = true <->
     exists id dd, device_data s' !! id = Some dd /\ Z.testbit (dd_buttons dd) n = true).
Proof.
  pose proof (run_seat_ok (seat_init k) ops) as Hrun. destruct (run_seat (seat_init k) ops) as [s' log].
  destruct Hrun as [H1 H2]. split; [apply H1; unfold spots_ok, all_spots; cbn; by rewrite map_to_list_empty|]. intros Hops n.
  change (button_state s') with (buttons s'). rewrite (H2 Hops eq_refl). apply all_buttons_testbit.
Qed.

(** ** The cursor *)
(** Rectangles that are not empty have coordinates that a [float] holds. *)
Definition region_ok (rs : Rectangles) : Prop :=
  (exists r, r ∈ rs /\ nonempty r) /\
  forall r, r ∈ rs -> nonempty r ->
    - 2 ^ 24 < px (top_left r) /\ px (top_left r) + width (r_size r) <= 2 ^ 24 /\
    - 2 ^ 24 < py (top_left r) /\ py (top_left r) + height (r_size r) <= 2 ^ 24.
Definition in_region (rs : Rectangles) (p : Point) : Prop := exists r, r ∈ rs /\ contains_point r p = true.

Definition float_point (p : Point) : Prop := Z.abs (px p) < 2 ^ 24 /\ Z.abs (py p) < 2 ^ 24.

Lemma in_region_float rs p : region_ok rs -> in_region rs p -> float_point p.
Proof.
  intros [_ Hr] (r & Hin & Hc). apply contains_point_covers in Hc. pose proof (covers_nonempty _ _ Hc) as Hne.
  specialize (Hr r Hin Hne). unfold float_point. destruct p, r as [[] []]. geom. lia.
Qed.

Lemma confine_in_region rs p : region_ok rs -> on_screen p -> in_region rs (confine rs p) /\ (in_region rs p -> confine rs p = p).
Proof.
  intros [Hne Hr] Hp. destruct (confine_spec rs p Hp) as (H1 & _ & H3); [|done|done].
  intros r Hin Hn. specialize (Hr r Hin Hn). destruct Hn as [??]. unfold on_screen, screen_coord. lia.
Qed.

(** The cursor is where confinement puts it. *)
Lemma confine_pointer_position s :
  (px (confine_function s (cursor_position s)) <> px (cursor_position s) \/
   py (confine_function s (cursor_position s)) <> py (cursor_position s) ->
   float_point (confine_function s (cursor_position s))) ->
  cursor_position (confine_pointer s) = confine_function s (cursor_position s).
Proof.
  intros Hf. unfold confine_pointer, cursor_position at 1, point_of_floats. cbn.
  destruct (confine_function s (cursor_position s)) as [cx cy] eqn:E. cbn in *.
  f_equal; case_if; breflect; try (symmetry; assumption); apply int_of_float_of_int, Hf; auto.
Qed.

Lemma confine_pointer_inside s :
  confine_function s (cursor_position s) = cursor_position s -> confine_pointer s = s.
Proof. intros E. unfold confine_pointer. rewrite E, !Z.eqb_refl. by destruct s. Qed.

Lemma update_cursor_position s e :
  let moved := point_of_floats (fadd (cursor_x s) (axis_relative_x e)) (fadd (cursor_y s) (axis_relative_y e)) in
  region_ok (input_region s) -> confined_region s = [] \/ region_ok (confined_region s) -> on_screen moved ->
  cursor_position (fst (update_cursor s e)) = confine_function s moved /\
  in_region (input_region s) (confine (input_region s) moved) /\
  (region_ok (confined_region s) -> in_region (confined_region s) (confine_function s moved)).
Proof.
  intros moved Hin Hc Hm. destruct (confine_in_region _ _ Hin Hm) as [H1 _].
  pose proof (in_region_float _ _ Hin H1) as Hf.
  assert (Hs : on_screen (confine (input_region s) moved)).
  { destruct Hf. unfold on_screen, screen_coord. lia. }
  assert (H2 : region_ok (confined_region s) -> in_region (confined_region s) (confine_function s moved)).
  { intros Hok. by apply confine_in_region. }
  split; [|done]. unfold update_cursor. cbn [fst]. set (s1 := s <| cursor_x := _ |> <| cursor_y := _ |>).
  rewrite confine_pointer_position; [done|]. intros _.
  change (float_point (confine_function s moved)). destruct Hc as [Hc|Hc].
  - unfold confine_function. by rewrite Hc.
  - eapply in_region_float; [done|]. by apply H2.
Qed.

(** The events dispatched by one step carry the cursor and the buttons of the
    seat after it. *)
Lemma dispatched_carries s ev s' calls e :
  seat_dispatch s ev = Ret (s', calls) -> Dispatched (PointerEvent e) ∈ calls ->
  axis_x e = cursor_x s' /\ axis_y e = cursor_y s' /\ p_buttons e = buttons s'.
Proof.
  intros [(_ & -> & ->)|(s1 & calls1 & k & ev1 & _ & Hu & _ & Es & ->)]%seat_dispatch_Ret; [set_solver|].
  intros [Hc|Hc]%elem_of_app.
  - exfalso. unfold update_seat_properties in Hu. destruct (event_device ev) as [id|]; [|injection Hu as <- <-; set_solver].
    destruct (device_data s !! id) as [dd|]; [|done].
    destruct ev as [?|?|p|?]; cbn in Hu; [| |destruct (update_button_state dd (p_buttons p)) as [? ?]|];
      injection Hu as <- <-; set_solver.
  - apply elem_of_cons in Hc as [Hc|Hc]; [|set_solver]. destruct ev1; [done|done|..]; cbn in Hc; [by injection Hc as ->|done].
Qed.

(** C38: the pointer stays on the screen.  A motion moves the cursor by the
    relative motion and then to the nearest point of the outputs, and of the
    confinement region if there is one; the dispatched event is at that point,
    exactly, although positions are kept in single precision; a motion that
    ends inside keeps its fraction of a pixel. *)
Theorem cursor_confined s (e : MirPointerEvent) s' calls :
  let moved := point_of_floats (fadd (cursor_x s) (axis_relative_x e)) (fadd (cursor_y s) (axis_relative_y e)) in
  region_ok (input_region s) -> confined_region s = [] \/ region_ok (confined_region s) -> on_screen moved ->
  seat_dispatch s (PointerEvent e) = Ret (s', calls) ->
  cursor_position s' = confine (confined_region s) (confine (input_region s) moved) /\
  (confined_region s = [] -> in_region (input_region s) (cursor_position s')) /\
  (region_ok (confined_region s) -> in_region (confined_region s) (cursor_position s')) /\
  (in_region (input_region s) moved -> confined_region s = [] \/ in_region (confined_region s) moved ->
     cursor_x s' = fadd (cursor_x s) (axis_relative_x e) /\ cursor_y s' = fadd (cursor_y s) (axis_relative_y e)) /\
  (forall e', Dispatched (PointerEvent e') ∈ calls -> point_of_floats (axis_x e') (axis_y e') = cursor_position s').
Proof.
  intros moved Hin Hc Hm Hd. destruct (update_cursor_position s e Hin Hc Hm) as (H1 & H2 & H3).
  assert (Hcur : cursor_x s' = cursor_x (fst (update_cursor s e)) /\ cursor_y s' = cursor_y (fst (update_cursor s e))).
  { pose proof Hd as [(Hf & _)|(s1 & calls1 & k & ev1 & _ & Hu & _ & -> & _)]%seat_dispatch_Ret; [done|].
    unfold update_seat_properties in Hu. cbn [event_device] in Hu.
    destruct (device_data s !! _) as [dd|]; [|done]. cbn [update_cursor] in Hu.
    destruct (update_button_state dd _) as [[] dd']; injection Hu as <- _; done. }
  destruct Hcur as [Ex Ey].
  assert (Hpos : cursor_position s' = confine_function s moved)
    by (etransitivity; [|exact H1]; unfold cursor_position; by rewrite Ex, Ey).
  rewrite Hpos. split; [done|]. split; [|split; [done|split]].
  - intros E. unfold confine_function. by rewrite E.
  - intros Hi Hi2. rewrite Ex, Ey. unfold update_cursor. cbn [fst]. rewrite confine_pointer_inside; [done|].
    change (confine_function s moved = moved). unfold confine_function.
    destruct (confine_in_region _ _ Hin Hm) as [_ ->]; [|done].
    destruct Hc as [Hc|Hc]; [by rewrite Hc|]. destruct Hi2 as [Hi2|Hi2]; [by rewrite Hi2|].
    by apply confine_in_region.
  - intros e' He'. apply (dispatched_carries _ _ _ _ e' Hd) in He' as (-> & -> & _). exact Hpos.
Qed.
End Properties.

(** ** Examples *)
Definition example_seat : SeatTracker unit :=
  fst (run_seat (seat_init tt)
    [SeatAdd 1; SeatOutputs [mkRectangle (mkPoint 0 0) (mkSize 800 600)]; SeatConfine [mkRectangle (mkPoint 700 0) (mkSize 200 50)]]).
Definition example_motion (b rx ry : Z) : MirPointerEvent :=
  let f0 := S754_zero false in
  mkPointerEvent (mkHeader 1 0 [] 0) mir_pointer_action_motion b f0 f0 f0 f0 (float_of_int rx) (float_of_int ry).

(** A pointer state set from outside is not shared.  [set_pointer_state]
    stores the buttons of the device without updating those of the seat, and
    because the device's next events bring no change they are dispatched with
    the old buttons: here the device holds a button that its events do not
    show. *)
Theorem set_pointer_state_not_shared :
  let s := fst (set_pointer_state example_seat 1 1) in
  dd_buttons <$> device_data s !! 1 = Some 1 /\ button_state s = 0 /\
  exists s' calls e, seat_dispatch s (PointerEvent (example_motion 1 5 5)) = Ret (s', calls) /\
    Dispatched (PointerEvent e) ∈ calls /\ p_buttons e = 0.
Proof.
  split; [reflexivity|]. split; [reflexivity|].
  eexists _, _, _. split; [vm_compute; reflexivity|]. split; [right; left|reflexivity].
Qed.

Lemma cursor_confined_witness :
  exists s' calls, seat_dispatch example_seat (PointerEvent (example_motion 0 900 (-3))) = Ret (s', calls) /\
    cursor_position s' = mkPoint 799 0 /\ in_region (confined_region example_seat) (cursor_position s').
Proof.
  destruct (seat_dispatch example_seat (PointerEvent (example_motion 0 900 (-3)))) as [[s' calls]|] eqn:E;
    [|vm_compute in E; discriminate E].
  exists s', calls. split; [reflexivity|].
  assert (Hok : forall x w h, 0 <= x <= 1000 -> 0 < w <= 1000 -> 0 < h <= 1000 ->
            region_ok [mkRectangle (mkPoint x 0) (mkSize w h)]).
  { intros x w h Hx Hw Hh. split; [eexists; split; [apply list_elem_of_here|unfold nonempty; cbn; lia]|].
    intros r ->%list_elem_of_singleton _. cbn. lia. }
  destruct (cursor_confined example_seat (example_motion 0 900 (-3)) s' calls) as (H1 & _ & H2 & _).
  - apply (Hok 0 800 600); lia.
  - right. apply (Hok 700 200 50); lia.
  - vm_compute. split; split; reflexivity.
  - exact E.
  - split; [rewrite H1; vm_compute; reflexivity|]. apply H2. apply (Hok 700 200 50); lia.
Defined.

(** A release without a press is dropped; the press and its release pass. *)
Definition example_key_run : list SeatOp :=
  let key a := SeatDispatch (KeyEvent (mkKeyboardEvent (mkHeader 1 0 [] 0) a 0 30)) in
  [SeatAdd 1; key mir_keyboard_action_up; key mir_keyboard_action_down; key mir_keyboard_action_down].

Lemma seat_keys_alternate_witness :
  key_log ∅ (snd (run_seat (seat_init tt) example_key_run)) = Some (keys_down (fst (run_seat (seat_init tt) example_key_run))) /\
  keys_down (fst (run_seat (seat_init tt) example_key_run)) !! 1 = Some {[30]}.
Proof.
  split; [|vm_compute; reflexivity]. pose proof (seat_keys_alternate tt example_key_run) as H.
  destruct (run_seat (seat_init tt) example_key_run). exact H.
Defined.

Definition example_buttons : SeatTracker unit :=
  fst (run_seat (seat_init tt) [SeatAdd 1; SeatAdd 2; SeatDispatch (PointerEvent (example_motion 4 0 0))]).

Lemma seat_sums_devices_witness :
  Z.testbit (button_state example_buttons) 2 = true <->
    exists id dd, device_data example_buttons !! id = Some dd /\ Z.testbit (dd_buttons dd) 2 = true.
Proof.
  pose proof (seat_sums_devices tt [SeatAdd 1; SeatAdd 2; SeatDispatch (PointerEvent (example_motion 4 0 0))]) as H.
  unfold example_buttons. destruct (run_seat (seat_init tt) _) as [s' log]. destruct H as [_ H]. apply H. repeat constructor.
Defined.
