(* ===== verification/KeyRepeat.v ===== *)
(** * mir::input::KeyRepeatDispatcher

    Synthesizes repeat events for keys that are held
    ([src/server/input/key_repeat_dispatcher.cpp]).  Every held key has an alarm
    ([mir::time::Alarm]); when it goes off the dispatcher sends a repeat event on
    and sets the alarm again.  Times are milliseconds; an alarm is its deadline
    and what its callback captured.  Destroying an alarm guarantees that its
    callback does not run any more. *)
From S2P Require Import Prelude Geometry InputEvents SeatTracker.

Record RepeatAlarm := mkAlarm { deadline : Z; alarm_key_code : Z; alarm_modifiers : Z }.

Record KeyRepeat := mkKeyRepeat {
  repeat_enabled : bool;
  repeat_timeout : Z;
  repeat_delay : Z;
  disable_repeat_on_touchscreen : bool;
  touch_button_device : option Z;
  repeat_state_by_device : gmap Z (gmap Z RepeatAlarm)
}.
#[export] Instance eta_KeyRepeat : EtaExpansion KeyRepeat := fun r =>
  mkKeyRepeat (repeat_enabled r) (repeat_timeout r) (repeat_delay r) (disable_repeat_on_touchscreen r)
    (touch_button_device r) (repeat_state_by_device r).

Definition key_repeat_init (enabled : bool) (timeout delay : Z) (no_touchscreen : bool) : KeyRepeat :=
  mkKeyRepeat enabled timeout delay no_touchscreen None ∅.

Section Repeat.
(** [cookie_authority->make_cookie] and its serialization. *)
Context (make_cookie : Z -> list Z).
Implicit Types (r : KeyRepeat).

Definition set_touch_button_device r (id : Z) : KeyRepeat := r <| touch_button_device := Some id |>.

Definition repeat_remove_device r (id : Z) : KeyRepeat :=
  r <| repeat_state_by_device := delete id (repeat_state_by_device r) |>
    <| touch_button_device := if bool_decide (touch_button_device r = Some id) then None else touch_button_device r |>.

(** [DeviceRemovalFilter], what the observer of the device hub does.  *)
Definition device_added r (name : string) (id : Z) : KeyRepeat :=
  if bool_decide (name = "mtk-tpd"%string) then set_touch_button_device r id else r.
Definition device_removed r (id : Z) : KeyRepeat := repeat_remove_device r id.

Definition alarms_of r (id : Z) : gmap Z RepeatAlarm := default ∅ (repeat_state_by_device r !! id).
Definition set_alarms r (id : Z) (alarms : gmap Z RepeatAlarm) : KeyRepeat :=
  r <| repeat_state_by_device := <[id := alarms]> (repeat_state_by_device r) |>.

(** [insert] leaves an existing entry alone. *)
Definition ensure_state_for_device_locked r (id : Z) : KeyRepeat := set_alarms r id (alarms_of r id).

(** The event that the lambda [clone_event] dispatches. *)
Definition clone_event (id code : Z) (a : RepeatAlarm) (now : Z) : MirEvent :=
  KeyEvent (mkKeyboardEvent (mkHeader id now (make_cookie now) (alarm_modifiers a)) mir_keyboard_action_repeat
              (alarm_key_code a) code).

(** Whether the event has been handled, the new state, and what was sent to
    the next dispatcher. *)
Definition handle_key_input r (id : Z) (kev : MirKeyboardEvent) (now : Z) : bool * KeyRepeat * list MirEvent :=
  let r1 := ensure_state_for_device_locked r id in
  let alarms := alarms_of r1 id in
  match k_action kev with
  | mir_keyboard_action_up =>
      match alarms !! scan_code kev with
      | None => (false, r1, [])
      | Some _ => (false, set_alarms r1 id (delete (scan_code kev) alarms), [])
      end
  | mir_keyboard_action_down =>
      let captured at_time := mkAlarm at_time (key_code kev) (modifiers (k_header kev)) in
      match alarms !! scan_code kev with
      | Some _ => (true, r1, [clone_event id (scan_code kev) (captured now) now])
      | None => (false, set_alarms r1 id (<[scan_code kev := captured (now + repeat_timeout r)]> alarms), [])
      end
  | mir_keyboard_action_repeat => (false, r1, [])
  end.

Definition repeat_dispatch r (ev : MirEvent) (now : Z) : KeyRepeat * list MirEvent :=
  if negb (repeat_enabled r) then (r, [ev])
  else
    match ev with
    | KeyEvent kev =>
        let id := device_id (k_header kev) in
        if disable_repeat_on_touchscreen r && bool_decide (touch_button_device r = Some id) then (r, [ev])
        else
          let '(handled, r1, out) := handle_key_input r id kev now in
          (r1, if handled then out else out ++ [ev])
    | _ => (r, [ev])
    end.

(** The callback of the alarm of one key, run by the main loop once the
    deadline has passed. *)
Definition alarm_triggered r (id code now : Z) : KeyRepeat * list MirEvent :=
  match repeat_state_by_device r !! id with
  | Some alarms =>
      match alarms !! code with
      | Some a =>
          if deadline a <=? now
          then (set_alarms r id (<[code := mkAlarm (now + repeat_delay r) (alarm_key_code a) (alarm_modifiers a)]> alarms),
                [clone_event id code a now])
          else (r, [])
      | None => (r, [])
      end
  | None => (r, [])
  end.

Definition repeat_stop r : KeyRepeat := r <| repeat_state_by_device := ∅ |>.
End Repeat.

(** ** From the devices to the next dispatcher

    The seat dispatches to the key repeat stage, and the device hub tells both
    of the removal of a device. *)
Section Pipeline.
Context {K : Type} `{KeyMapperLaws K} (make_cookie : Z -> list Z).
Implicit Types (r : KeyRepeat) (s : SeatTracker K) (v : gmap Z (gset Z)).

Inductive PipeOp :=
| PipeSeat (op : SeatOp) (now : Z)
| PipeAlarm (id code now : Z)
| PipeStop.

Definition pipe_call (now : Z) r (c : SeatCall) : KeyRepeat * list SeatCall :=
  match c with
  | Dispatched ev => let '(r1, out) := repeat_dispatch make_cookie r ev now in (r1, Dispatched <$> out)
  | seat_remove_device id => (device_removed r id, [c])
  | _ => (r, [c])
  end.
Fixpoint pipe_calls (now : Z) r (calls : list SeatCall) : KeyRepeat * list SeatCall :=
  match calls with
  | [] => (r, [])
  | c :: rest =>
      let '(r1, out1) := pipe_call now r c in
      let '(r2, out2) := pipe_calls now r1 rest in (r2, out1 ++ out2)
  end.

Definition pipe_step s r (op : PipeOp) : SeatTracker K * KeyRepeat * list SeatCall :=
  match op with
  | PipeSeat o now =>
      match seat_step s o with
      | Ret (s1, calls) => let '(r1, out) := pipe_calls now r calls in (s1, r1, out)
      | Throw _ => (s, r, [])
      end
  | PipeAlarm id code now =>
      let '(r1, out) := alarm_triggered make_cookie r id code now in (s, r1, Dispatched <$> out)
  | PipeStop => (s, repeat_stop r, [])
  end.
Fixpoint run_pipe s r (ops : list PipeOp) : SeatTracker K * KeyRepeat * list SeatCall :=
  match ops with
  | [] => (s, r, [])
  | op :: rest =>
      let '(s1, r1, out1) := pipe_step s r op in
      let '(s2, r2, out2) := run_pipe s1 r1 rest in (s2, r2, out1 ++ out2)
  end.

(** *** Invariant *)
(** A device whose keys do not repeat. *)
Definition excluded r (id : Z) : Prop :=
  repeat_enabled r = false \/ disable_repeat_on_touchscreen r = true /\ touch_button_device r = Some id.

(** Only keys that are down have alarms. *)
Record held r v : Prop := {
  held_down : forall id code, is_Some (alarms_of r id !! code) -> exists down, v !! id = Some down /\ code ∈ down;
  held_excluded : forall id, excluded r id -> alarms_of r id = ∅
}.

Lemma alarms_of_set r id alarms id' :
  alarms_of (set_alarms r id alarms) id' = if decide (id' = id) then alarms else alarms_of r id'.
Proof.
  unfold alarms_of, set_alarms. cbn. destruct (decide (id' = id)) as [->|Hne].
  - by rewrite lookup_insert_eq.
  - by rewrite lookup_insert_ne.
Qed.

Lemma held_grow r v id down (down' : gset Z) :
  held r v -> v !! id = Some down -> (forall code, is_Some (alarms_of r id !! code) -> code ∈ down -> code ∈ down') ->
  held r (<[id := down']> v).
Proof.
  intros [Hd He] Hv Hin. split; [|done]. intros id' code Ha. destruct (decide (id' = id)) as [->|Hne].
  - exists down'. rewrite lookup_insert_eq. split; [done|]. apply Hin; [done|].
    destruct (Hd id code Ha) as (x & Hx & ?). congruence.
  - rewrite lookup_insert_ne by done. by apply Hd.
Qed.

Lemma held_set r v id alarms (down : gset Z) :
  held r v -> ~ excluded r id -> (forall code, is_Some (alarms !! code) -> code ∈ down) ->
  held (set_alarms r id alarms) (<[id := down]> v).
Proof.
  intros [Hd He] Hx Hin. split.
  - intros id' code. rewrite alarms_of_set. destruct (decide (id' = id)) as [->|Hne]; intros Ha.
    + exists down. rewrite lookup_insert_eq. auto.
    + rewrite lookup_insert_ne by done. by apply Hd.
  - intros id' Hx'. rewrite alarms_of_set. destruct (decide (id' = id)) as [->|Hne]; [done|]. by apply He.
Qed.

Lemma ensure_twice r id alarms :
  set_alarms (ensure_state_for_device_locked r id) id alarms = set_alarms r id alarms.
Proof. unfold ensure_state_for_device_locked, set_alarms. cbn. unfold assign. cbn. by rewrite insert_insert_eq. Qed.

Lemma handle_key_input_ok r v kev now v' :
  let id := device_id (k_header kev) in
  held r v -> ~ excluded r id -> key_call v (Dispatched (KeyEvent kev)) = Some v' ->
  exists r1, handle_key_input make_cookie r id kev now = (false, r1, []) /\ held r1 v'.
Proof.
  intros id Hh Hx Hcall. cbn in Hcall. fold id in Hcall.
  destruct (v !! id) as [down|] eqn:Ev; [|done]. cbn in Hcall. unfold handle_key_input. fold id.
  assert (Hal : alarms_of (ensure_state_for_device_locked r id) id = alarms_of r id).
  { unfold ensure_state_for_device_locked. rewrite alarms_of_set. by rewrite decide_True. }
  assert (Hin : forall code, is_Some (alarms_of r id !! code) -> code ∈ down).
  { intros code Ha. destruct (held_down r v Hh id code Ha) as (x & Hx' & ?). congruence. }
  assert (Hsame : held (ensure_state_for_device_locked r id) v).
  { rewrite <-(insert_id v id down Ev). by apply held_set. }
  rewrite Hal, ?ensure_twice. destruct (k_action kev); case_bool_decide as Hc; simplify_eq.
  - destruct (alarms_of r id !! scan_code kev) as [a|] eqn:Ea; rewrite ?ensure_twice; eexists; (split; [reflexivity|]).
    + apply held_set; [done|done|]. intros code Hcode. apply lookup_delete_is_Some in Hcode as [Hne Hcode].
      specialize (Hin code Hcode). set_solver.
    + apply (held_grow _ v id down); [done|done|]. rewrite Hal. intros code Hcode Hd.
      apply elem_of_difference. split; [done|]. rewrite elem_of_singleton. intros ->. rewrite Ea in Hcode. by destruct Hcode.
  - destruct (alarms_of r id !! scan_code kev) as [a|] eqn:Ea; [by destruct Hc; apply Hin; rewrite Ea|].
    rewrite ?ensure_twice. eexists. split; [reflexivity|]. apply held_set; [done|done|].
    intros code [?|[_ Hcode]]%lookup_insert_is_Some; [set_solver|]. specialize (Hin code Hcode). set_solver.
  - eexists. split; [reflexivity|]. done.
Qed.

Lemma excluded_dec r id : excluded r id \/ ~ excluded r id.
Proof.
  unfold excluded. destruct (repeat_enabled r); [|auto]. destruct (disable_repeat_on_touchscreen r); [|by right; naive_solver].
  destruct (decide (touch_button_device r = Some id)); naive_solver.
Qed.

(** An event that the keyboard state does not concern, or of a device whose
    keys do not repeat, is passed on. *)
Lemma repeat_dispatch_excluded r kev now :
  excluded r (device_id (k_header kev)) -> repeat_dispatch make_cookie r (KeyEvent kev) now = (r, [KeyEvent kev]).
Proof.
  unfold repeat_dispatch. intros [->|[-> Ht]]; [done|]. destruct (repeat_enabled r); [|done]. cbn. by rewrite bool_decide_true.
Qed.

Lemma repeat_dispatch_ok r v ev now v' :
  held r v -> key_call v (Dispatched ev) = Some v' ->
  let '(r1, out) := repeat_dispatch make_cookie r ev now in out = [ev] /\ held r1 v'.
Proof.
  intros Hh Hcall. destruct ev as [kev|t|p|n].
  2-4: injection Hcall as <-; unfold repeat_dispatch; by destruct (repeat_enabled r).
  destruct (excluded_dec r (device_id (k_header kev))) as [Hx|Hx].
  - rewrite repeat_dispatch_excluded by done. split; [done|]. cbn in Hcall.
    destruct (v !! device_id (k_header kev)) as [down|] eqn:Ev; [|done]. cbn in Hcall.
    destruct (k_action kev); case_bool_decide; simplify_eq; try done; apply (held_grow _ _ _ down); try done; intros code;
      rewrite (held_excluded r v Hh _ Hx), lookup_empty; by intros [? [=]].
  - destruct (handle_key_input_ok r v kev now v' Hh Hx Hcall) as (r1 & E & Hr1). unfold repeat_dispatch. cbn zeta. rewrite E.
    unfold excluded in Hx. destruct (repeat_enabled r); [|naive_solver]. cbn.
    destruct (disable_repeat_on_touchscreen r); cbn; [|done]. by rewrite bool_decide_false by naive_solver.
Qed.

Lemma device_removed_ok r v id : held r v -> held (device_removed r id) (delete id v).
Proof.
  intros [Hd He].
  assert (Hal : forall id', alarms_of (device_removed r id) id' = if decide (id' = id) then ∅ else alarms_of r id').
  { intros id'. unfold alarms_of. cbn. destruct (decide (id' = id)) as [->|Hne].
    - by rewrite lookup_delete_eq.
    - by rewrite lookup_delete_ne. }
  split.
  - intros id' code. rewrite Hal. destruct (decide (id' = id)) as [->|Hne]; [rewrite lookup_empty; by intros [? [=]]|].
    rewrite lookup_delete_ne by done. apply Hd.
  - intros id' Hx. rewrite Hal. destruct (decide (id' = id)) as [->|Hne]; [done|]. apply He.
    destruct Hx as [Hx|[Hx1 Hx2]]; [by left|]. right. cbn in *. split; [done|]. by case_bool_decide.
Qed.

Definition is_set_key_state (c : SeatCall) : bool := match c with seat_set_key_state _ _ => true | _ => false end.

Lemma pipe_call_ok now r v c v' :
  held r v -> is_set_key_state c = false -> key_call v c = Some v' ->
  let '(r1, out) := pipe_call now r c in key_log v out = Some v' /\ held r1 v'.
Proof.
  intros Hh Hc Hcall. unfold pipe_call. destruct c.
  1: { pose proof (repeat_dispatch_ok r v ev now v' Hh Hcall) as Hr.
       destruct (repeat_dispatch make_cookie r ev now) as [r1 out]. destruct Hr as [-> Hr]. split; [|done].
       cbn [fmap list_fmap key_log]. by rewrite Hcall. }
  all: injection Hcall as <-; try done; (split; [done|]).
  - destruct (v !! id) as [?|] eqn:Ev; [done|].
    destruct Hh as [Hd He]. split; [|done]. intros id' code Ha. destruct (Hd id' code Ha) as (down & Hv & ?).
    exists down. rewrite lookup_insert_ne by congruence. done.
  - by apply device_removed_ok.
Qed.

Lemma pipe_calls_ok now r v calls v' :
  held r v -> Forall (fun c => is_set_key_state c = false) calls -> key_log v calls = Some v' ->
  let '(r1, out) := pipe_calls now r calls in key_log v out = Some v' /\ held r1 v'.
Proof.
  intros Hh Hc. revert r v Hh. induction Hc as [|c calls Hc _ IH]; intros r v Hh Hlog; cbn in *; [by injection Hlog as <-|].
  destruct (key_call v c) as [v1|] eqn:E; [|done]. cbn in Hlog. pose proof (pipe_call_ok now r v c v1 Hh Hc E) as H1.
  destruct (pipe_call now r c) as [r1 out1]. destruct H1 as [H1 Hr1]. specialize (IH r1 v1 Hr1 Hlog).
  destruct (pipe_calls now r1 calls) as [r2 out2]. destruct IH as [IH Hr2]. by rewrite key_log_app, H1.
Qed.

(** The seat passes on a key state only when it is given one. *)
Definition sets_keys (op : PipeOp) : bool := match op with PipeSeat (SeatSetKeys _ _) _ => true | _ => false end.

Lemma seat_step_calls s op s' calls now :
  seat_step s op = Ret (s', calls) -> sets_keys (PipeSeat op now) = false -> Forall (fun c => is_set_key_state c = false) calls.
Proof.
  destruct op as [id|id|ev|id codes|id b|ax ay|rs| |rs]; cbn [seat_step]; try (intros [= <- <-]; by repeat constructor).
  - unfold remove_device. destruct (device_data s !! id) as [dd|]; [|done].
    destruct (negb (bool_decide (dd_spots dd = []))); cbn; intros [= <- <-]; by repeat constructor.
  - intros [(_ & -> & ->)|(s1 & calls1 & k & ev1 & _ & Hu & _ & -> & ->)]%seat_dispatch_Ret _; [done|].
    apply Forall_app_2; [|by repeat constructor]. unfold update_seat_properties in Hu.
    destruct (event_device ev) as [id|]; [|by injection Hu as <- <-].
    destruct (device_data s !! id) as [dd|]; [|done].
    destruct ev as [?|?|p|?]; cbn in Hu; [| |destruct (update_button_state dd (p_buttons p)) as [? ?]|];
      injection Hu as <- <-; by repeat constructor.
Qed.

Lemma alarm_triggered_ok r v id code now :
  held r v -> let '(r1, out) := alarm_triggered make_cookie r id code now in
  key_log v (Dispatched <$> out) = Some v /\ held r1 v.
Proof.
  intros Hh. unfold alarm_triggered. destruct (repeat_state_by_device r !! id) as [alarms|] eqn:Es; [|done].
  destruct (alarms !! code) as [a|] eqn:Ea; [|done]. destruct (deadline a <=? now); [|done].
  assert (Hal : alarms_of r id = alarms) by (unfold alarms_of; by rewrite Es).
  destruct (held_down r v Hh id code) as (down & Hv & Hin); [by rewrite Hal, Ea|].
  split; [cbn; rewrite Hv; cbn; by rewrite bool_decide_true|].
  rewrite <-(insert_id v id down Hv). apply held_set; [done|..].
  - intros Hx. apply (held_excluded r v Hh) in Hx. rewrite Hal in Hx. by rewrite Hx, lookup_empty in Ea.
  - intros c [<-|[_ Hc]]%lookup_insert_is_Some; [done|].
    destruct (held_down r v Hh id c) as (d & Hd & ?); [by rewrite Hal|]. congruence.
Qed.

Lemma run_pipe_ok s r ops :
  held r (keys_down s) -> Forall (fun op => sets_keys op = false) ops ->
  let '(s', r', log) := run_pipe s r ops in key_log (keys_down s) log = Some (keys_down s') /\ held r' (keys_down s').
Proof.
  intros Hh Hops. revert s r Hh. induction Hops as [|op ops Hop _ IH]; intros s r Hh; [done|]. cbn [run_pipe].
  assert (Hstep : let '(s1, r1, out) := pipe_step s r op in
                  key_log (keys_down s) out = Some (keys_down s1) /\ held r1 (keys_down s1)).
  { unfold pipe_step. destruct op as [o now|id code now|].
    - destruct (seat_step s o) as [[s1 calls]|] eqn:E; [|done].
      pose proof (pipe_calls_ok now r (keys_down s) calls (keys_down s1) Hh (seat_step_calls _ _ _ _ _ E Hop)
        (seat_step_keys _ _ _ _ E)) as Hc. by destruct (pipe_calls now r calls).
    - pose proof (alarm_triggered_ok r (keys_down s) id code now Hh) as Ha.
      by destruct (alarm_triggered make_cookie r id code now).
    - split; [done|]. split; [|done]. intros id code. unfold alarms_of. cbn. rewrite lookup_empty. cbn.
      rewrite lookup_empty. by intros [? [=]]. }
  destruct (pipe_step s r op) as [[s1 r1] out1]. destruct Hstep as [H1 Hh1]. specialize (IH s1 r1 Hh1).
  destruct (run_pipe s1 r1 ops) as [[s2 r2] out2]. destruct IH as [H2 Hh2]. by rewrite key_log_app, H1.
Qed.

(** C34: keys repeat only while they are held.  In all that reaches the next
    dispatcher from the devices of a seat and from the alarms together, a key
    goes down only when it is up, and it repeats or comes up only while it is
    down; no alarm outlives its key.  This is as long as the states of keys are not
    set from outside: see [set_key_state_keeps_repeating]. *)
Theorem repeats_while_held (k : K) (enabled no_touchscreen : bool) (timeout delay : Z) (ops : list PipeOp) :
  Forall (fun op => sets_keys op = false) ops ->
  let '(s', r', log) := run_pipe (seat_init k) (key_repeat_init enabled timeout delay no_touchscreen) ops in
  key_log ∅ log = Some (keys_down s') /\
  forall id code, is_Some (alarms_of r' id !! code) -> exists down, keys_down s' !! id = Some down /\ code ∈ down.
Proof.
  intros Hops.
  pose proof (run_pipe_ok (seat_init k) (key_repeat_init enabled timeout delay no_touchscreen) ops) as Hrun.
  destruct (run_pipe _ _ ops) as [[s' r'] log]. destruct Hrun as [H1 [H2 _]]; [|done|by split].
  split; [|done]. intros id code. unfold alarms_of. cbn. rewrite lookup_empty. cbn. rewrite lookup_empty. by intros [? [=]].
Qed.
End Pipeline.

(** ** Liveness: a held key goes on repeating *)
Section Liveness.
Context (make_cookie : Z -> list Z).
Implicit Types (r : KeyRepeat).

(** Everything but the alarms and [stop]. *)
Inductive RepeatOp :=
| RepeatDispatch (ev : MirEvent)
| RepeatDeviceAdded (name : string) (id : Z)
| RepeatDeviceRemoved (id : Z).
Definition repeat_step r (op : RepeatOp) (now : Z) : KeyRepeat * list MirEvent :=
  match op with
  | RepeatDispatch ev => repeat_dispatch make_cookie r ev now
  | RepeatDeviceAdded name id => (device_added r name id, [])
  | RepeatDeviceRemoved id => (device_removed r id, [])
  end.
Fixpoint repeat_steps r (ops : list RepeatOp) (now : Z) : KeyRepeat * list MirEvent :=
  match ops with
  | [] => (r, [])
  | op :: rest =>
      let '(r1, out1) := repeat_step r op now in
      let '(r2, out2) := repeat_steps r1 rest now in (r2, out1 ++ out2)
  end.

(** The main loop runs the callbacks of the alarms that are due. *)
Definition alarm_keys r : list (Z * Z) :=
  map_to_list (repeat_state_by_device r) ≫= (fun kv => (fun ca => (kv.1, ca.1)) <$> map_to_list kv.2).
Fixpoint run_alarms r (keys : list (Z * Z)) (now : Z) : KeyRepeat * list MirEvent :=
  match keys with
  | [] => (r, [])
  | (id, code) :: rest =>
      let '(r1, out1) := alarm_triggered make_cookie r id code now in
      let '(r2, out2) := run_alarms r1 rest now in (r2, out1 ++ out2)
  end.

(** The key is not released and its device stays. *)
Definition keeps_key (id code : Z) (op : RepeatOp) : bool :=
  match op with
  | RepeatDispatch (KeyEvent e) =>
      negb ((device_id (k_header e) =? id) && (scan_code e =? code) && bool_decide (k_action e = mir_keyboard_action_up))
  | RepeatDeviceRemoved i => negb (i =? id)
  | _ => true
  end.

(** One millisecond: any operations that keep the key, then the alarms. *)
Record Moment := mkMoment { m_repeat : KeyRepeat; m_now : Z; m_sent : list MirEvent }.
Definition millisecond (id code : Z) (m m' : Moment) : Prop :=
  exists ops, Forall (fun op => keeps_key id code op = true) ops /\
    let '(r1, out1) := repeat_steps (m_repeat m) ops (m_now m) in
    let '(r2, out2) := run_alarms r1 (alarm_keys r1) (m_now m + 1) in
    m' = mkMoment r2 (m_now m + 1) (m_sent m ++ out1 ++ out2).

Definition is_repeat_of (id code : Z) (ev : MirEvent) : bool :=
  match ev with
  | KeyEvent e => (device_id (k_header e) =? id) && (scan_code e =? code) && bool_decide (k_action e = mir_keyboard_action_repeat)
  | _ => false
  end.
Definition repeats (id code : Z) (evs : list MirEvent) : nat := length (filter (fun ev => is_repeat_of id code ev = true) evs).

Definition alarm_at r (id code : Z) : option RepeatAlarm := alarms_of r id !! code.

Lemma alarm_at_set r id alarms i c :
  alarm_at (set_alarms r id alarms) i c = if decide (i = id) then alarms !! c else alarm_at r i c.
Proof. unfold alarm_at. rewrite alarms_of_set. by destruct (decide (i = id)). Qed.

Lemma repeats_app id code l1 l2 : repeats id code (l1 ++ l2) = (repeats id code l1 + repeats id code l2)%nat.
Proof. unfold repeats. by rewrite filter_app, length_app. Qed.

Lemma repeats_cons id code ev l :
  repeats id code (ev :: l) = ((if is_repeat_of id code ev then 1 else 0) + repeats id code l)%nat.
Proof. unfold repeats. rewrite filter_cons. by destruct (is_repeat_of id code ev). Qed.

Lemma handle_key_input_keeps r i kev now id code a :
  alarm_at r id code = Some a ->
  negb ((i =? id) && (scan_code kev =? code) && bool_decide (k_action kev = mir_keyboard_action_up)) = true ->
  alarm_at (handle_key_input make_cookie r i kev now).1.2 id code = Some a.
Proof.
  intros Ha Hk. unfold handle_key_input.
  assert (He : alarm_at (ensure_state_for_device_locked r i) id code = Some a).
  { unfold ensure_state_for_device_locked. rewrite alarm_at_set. by destruct (decide (id = i)) as [->|]. }
  assert (Hal : alarms_of (ensure_state_for_device_locked r i) i = alarms_of r i).
  { unfold ensure_state_for_device_locked. rewrite alarms_of_set. by rewrite decide_True. }
  rewrite Hal. destruct (k_action kev); [| |done].
  all: destruct (alarms_of r i !! scan_code kev) as [b|] eqn:Eb; cbn [fst snd]; try done.
  all: rewrite alarm_at_set; destruct (decide (id = i)) as [->|Hne]; [|done].
  - rewrite lookup_delete_ne; [done|]. intros <-. by rewrite !Z.eqb_refl in Hk.
  - rewrite lookup_insert_ne; [done|]. intros <-. unfold alarm_at in Ha. congruence.
Qed.

Lemma repeat_step_keeps r op now id code a :
  alarm_at r id code = Some a -> keeps_key id code op = true -> alarm_at (repeat_step r op now).1 id code = Some a.
Proof.
  intros Ha Hk. destruct op as [ev|name i|i]; cbn [repeat_step].
  - unfold repeat_dispatch. destruct (negb (repeat_enabled r)); [done|]. destruct ev as [kev| | |]; try done.
    destruct (disable_repeat_on_touchscreen r && _); [done|].
    pose proof (handle_key_input_keeps r (device_id (k_header kev)) kev now id code a Ha Hk) as Hh.
    by destruct (handle_key_input make_cookie r (device_id (k_header kev)) kev now) as [[h r1] out].
  - cbn. unfold device_added. by case_if.
  - cbn in *. breflect. unfold alarm_at, alarms_of in *. cbn. by rewrite lookup_delete_ne.
Qed.

Lemma repeat_steps_keeps r ops now id code a :
  alarm_at r id code = Some a -> Forall (fun op => keeps_key id code op = true) ops ->
  alarm_at (repeat_steps r ops now).1 id code = Some a.
Proof.
  intros Ha Hops. revert r Ha. induction Hops as [|op ops Hop _ IH]; intros r Ha; [done|]. cbn.
  pose proof (repeat_step_keeps r op now id code a Ha Hop) as H1. destruct (repeat_step r op now) as [r1 out1].
  specialize (IH r1 H1). by destruct (repeat_steps r1 ops now).
Qed.

Lemma alarm_triggered_eq r id code now :
  alarm_triggered make_cookie r id code now =
  match alarm_at r id code with
  | Some a =>
      if deadline a <=? now
      then (set_alarms r id (<[code := mkAlarm (now + repeat_delay r) (alarm_key_code a) (alarm_modifiers a)]> (alarms_of r id)),
            [clone_event make_cookie id code a now])
      else (r, [])
  | None => (r, [])
  end.
Proof.
  unfold alarm_triggered, alarm_at, alarms_of. destruct (repeat_state_by_device r !! id) as [alarms|]; cbn; [done|].
  by rewrite lookup_empty.
Qed.

Lemma alarm_keys_elem r id code a : alarm_at r id code = Some a -> (id, code) ∈ alarm_keys r.
Proof.
  unfold alarm_at, alarms_of, alarm_keys. destruct (repeat_state_by_device r !! id) as [alarms|] eqn:E; cbn;
    [|by rewrite lookup_empty].
  intros Ha. apply list_elem_of_bind. exists (id, alarms). split; [|by apply elem_of_map_to_list].
  apply list_elem_of_fmap. exists (code, a). split; [done|]. by apply elem_of_map_to_list.
Qed.

(** The alarms of the other keys do not matter, the key's own goes off when it
    is due. *)
Lemma run_alarms_spec r keys now id code a :
  alarm_at r id code = Some a ->
  let '(r', out) := run_alarms r keys now in
  (deadline a <= now -> (id, code) ∈ keys -> (1 <= repeats id code out)%nat) /\
  exists a', alarm_at r' id code = Some a' /\ (now < deadline a -> a' = a).
Proof.
  revert r a. induction keys as [|[i c] keys IH]; intros r a Ha; cbn [run_alarms].
  { split; [intros _ Hin; by apply not_elem_of_nil in Hin|]. by exists a. }
  rewrite alarm_triggered_eq. destruct (decide ((i, c) = (id, code))) as [[= -> ->]|Hne].
  - rewrite Ha. destruct (Z.leb_spec (deadline a) now) as [Hd|Hd].
    + set (a1 := mkAlarm _ _ _). set (r1 := set_alarms _ _ _).
      assert (Ha1 : alarm_at r1 id code = Some a1).
      { unfold r1. rewrite alarm_at_set, decide_True by done. apply lookup_insert_eq. }
      specialize (IH r1 a1 Ha1). destruct (run_alarms r1 keys now) as [r2 out]. destruct IH as [_ (a2 & Ha2 & _)].
      split; [|exists a2; split; [done|intros; exfalso; lia]]. intros _ _. rewrite repeats_app, repeats_cons.
      assert (is_repeat_of id code (clone_event make_cookie id code a now) = true) as -> by (cbn; by rewrite !Z.eqb_refl).
      lia.
    + specialize (IH r a Ha). destruct (run_alarms r keys now) as [r2 out]. destruct IH as [_ IH]. split; [intros; exfalso; lia|done].
  - set (fired := match alarm_at r i c with Some _ => _ | None => _ end).
    assert (Hf : alarm_at fired.1 id code = Some a).
    { unfold fired. destruct (alarm_at r i c) as [b|]; [|done]. destruct (deadline b <=? now); [|done]. cbn [fst].
      rewrite alarm_at_set. destruct (decide (id = i)) as [->|]; [|done]. rewrite lookup_insert_ne; [done|congruence]. }
    destruct fired as [r1 out1]. specialize (IH r1 a Hf). destruct (run_alarms r1 keys now) as [r2 out].
    destruct IH as [H1 H2]. split; [|done]. intros Hd [Heq|Hin]%elem_of_cons; [congruence|]. rewrite repeats_app.
    specialize (H1 Hd Hin). lia.
Qed.

(** One millisecond of a held key. *)
Lemma millisecond_progress id code m m' a :
  millisecond id code m m' -> alarm_at (m_repeat m) id code = Some a ->
  exists a', alarm_at (m_repeat m') id code = Some a' /\ m_now m' = m_now m + 1 /\
    (repeats id code (m_sent m) <= repeats id code (m_sent m'))%nat /\
    (deadline a <= m_now m' -> (repeats id code (m_sent m) < repeats id code (m_sent m'))%nat) /\
    (m_now m' < deadline a -> a' = a).
Proof.
  intros (ops & Hops & Hm) Ha. pose proof (repeat_steps_keeps (m_repeat m) ops (m_now m) id code a Ha Hops) as H1.
  destruct (repeat_steps (m_repeat m) ops (m_now m)) as [r1 out1]. cbn in H1.
  pose proof (run_alarms_spec r1 (alarm_keys r1) (m_now m + 1) id code a H1) as H2.
  destruct (run_alarms r1 _ _) as [r2 out2]. destruct H2 as [H2 (a' & Ha' & Hkeep)]. subst m'. cbn [m_repeat m_now m_sent].
  exists a'. split; [done|]. split; [done|]. rewrite !repeats_app. split; [lia|]. split; [|done].
  intros Hd. specialize (H2 Hd (alarm_keys_elem _ _ _ _ H1)). lia.
Qed.

Lemma millisecond_exists id code m : exists m', millisecond id code m m'.
Proof.
  destruct (run_alarms (m_repeat m) (alarm_keys (m_repeat m)) (m_now m + 1)) as [r2 out2] eqn:E.
  eexists. exists []. split; [constructor|]. cbn. rewrite E. reflexivity.
Qed.

Lemma next_repeat id code n m :
  (exists a, alarm_at (m_repeat m) id code = Some a /\ deadline a - m_now m <= Z.of_nat n) ->
  eventually (millisecond id code)
    (fun m' => is_Some (alarm_at (m_repeat m') id code) /\ (repeats id code (m_sent m) < repeats id code (m_sent m'))%nat) m.
Proof.
  intros (a & Ha & Hn). remember (repeats id code (m_sent m)) as c eqn:Ec.
  assert (Hle : (c <= repeats id code (m_sent m))%nat) by lia. clear Ec. revert m Ha Hn Hle.
  induction n as [|n IH]; intros m Ha Hn Hle; (apply eventually_later; [apply millisecond_exists|]); intros m' Hm.
  all: destruct (millisecond_progress id code m m' a Hm Ha) as (a' & Ha' & Ht & Hmono & Hfire & Hkeep).
  - apply eventually_now. split; [by rewrite Ha'|]. specialize (Hfire ltac:(lia)). lia.
  - destruct (Z.le_gt_cases (deadline a) (m_now m')) as [Hd|Hd].
    + apply eventually_now. split; [by rewrite Ha'|]. specialize (Hfire Hd). lia.
    + rewrite (Hkeep ltac:(lia)) in Ha'. apply IH; [done|lia|lia].
Qed.

(** a key that is held goes on repeating.  From a state in which the key has
    its alarm, whatever other events and devices come in the meantime, any
    number of repeats is reached, as long as the alarms that are due are run
    every millisecond. *)
Theorem held_key_repeats (m : Moment) (id code : Z) (n : nat) :
  is_Some (alarm_at (m_repeat m) id code) ->
  eventually (millisecond id code)
    (fun m' => (repeats id code (m_sent m) + n <= repeats id code (m_sent m'))%nat) m.
Proof.
  intros Ha. set (c := repeats id code (m_sent m)).
  apply eventually_bind with (P := fun m' => is_Some (alarm_at (m_repeat m') id code) /\
                                     (c + n <= repeats id code (m_sent m'))%nat); [|intros m' [_ Hn]; by apply eventually_now].
  induction n as [|n IH]; [apply eventually_now; split; [done|unfold c; lia]|].
  eapply eventually_bind; [exact IH|]. intros m1 ([a Ha1] & Hc).
  eapply eventually_bind; [apply (next_repeat id code (Z.to_nat (deadline a - m_now m1)) m1); exists a; split; [done|lia]|].
  intros m2 [Ha2 Hlt]. apply eventually_now. split; [done|]. lia.
Qed.
End Liveness.

(** ** Examples *)
Definition example_key (a : MirKeyboardAction) (code : Z) : MirEvent :=
  KeyEvent (mkKeyboardEvent (mkHeader 1 0 [] 0) a 97 code).
Definition no_cookie (now : Z) : list Z := [].

Definition example_keys : list PipeOp :=
  [PipeSeat (SeatAdd 1) 0; PipeSeat (SeatDispatch (example_key mir_keyboard_action_down 30)) 10; PipeAlarm 1 30 600;
   PipeSeat (SeatDispatch (example_key mir_keyboard_action_up 30)) 620; PipeAlarm 1 30 700].

Lemma repeats_while_held_witness :
  let '(s', r', log) := run_pipe no_cookie (seat_init tt) (key_repeat_init true 500 50 false) example_keys in
  key_log ∅ log = Some (keys_down s') /\ keys_down s' !! 1 = Some ∅ /\ length log = 6%nat.
Proof.
  pose proof (repeats_while_held no_cookie tt true false 500 50 example_keys) as H.
  destruct (run_pipe no_cookie (seat_init tt) (key_repeat_init true 500 50 false) example_keys) as [[s' r'] log] eqn:E.
  destruct H as [H _]; [repeat constructor|]. split; [exact H|].
  vm_compute in E. injection E as <- <- <-. split; reflexivity.
Defined.

Lemma held_key_repeats_witness :
  let r := set_alarms (key_repeat_init true 500 50 false) 1 {[30 := mkAlarm 500 97 0]} in
  alarm_at r 1 30 = Some (mkAlarm 500 97 0) /\
  eventually (millisecond no_cookie 1 30) (fun m' => (3 <= repeats 1 30 (m_sent m'))%nat) (mkMoment r 0 []).
Proof.
  intros r. split; [reflexivity|]. apply (held_key_repeats no_cookie (mkMoment r 0 []) 1 30 3). by exists (mkAlarm 500 97 0).
Defined.

(** A key state set from outside leaves a key repeating.  When the seat is
    told that a key which was held is up, its alarm goes on; the release of the
    key, when it comes, is filtered out as that of a key that is not down, so
    that nothing ever stops the repeats: the events are no longer
    consistent. *)
Theorem set_key_state_keeps_repeating :
  let ops := [PipeSeat (SeatAdd 1) 0; PipeSeat (SeatDispatch (example_key mir_keyboard_action_down 30)) 10;
              PipeSeat (SeatSetKeys 1 []) 20; PipeSeat (SeatDispatch (example_key mir_keyboard_action_up 30)) 30] in
  let '(s', r', log) := run_pipe no_cookie (seat_init tt) (key_repeat_init true 500 50 false) ops in
  keys_down s' !! 1 = Some ∅ /\ is_Some (alarm_at r' 1 30) /\
  forall now, 510 <= now ->
    exists r'' ev, alarm_triggered no_cookie r' 1 30 now = (r'', [ev]) /\ is_repeat_of 1 30 ev = true /\
      key_log ∅ (log ++ [Dispatched ev]) = None.
Proof.
  cbv zeta. destruct (run_pipe no_cookie _ _ _) as [[s' r'] log] eqn:E. vm_compute in E. injection E as <- <- <-.
  split; [reflexivity|]. split; [eexists; reflexivity|]. intros now Hnow. rewrite alarm_triggered_eq.
  destruct (alarm_at _ 1 30) as [a|] eqn:Ea; [|by vm_compute in Ea]. vm_compute in Ea. injection Ea as <-. cbn [deadline].
  rewrite (proj2 (Z.leb_le 510 now)) by done. eexists _, _. split; [reflexivity|]. split; [reflexivity|].
  vm_compute. reflexivity.
Qed.
