(* ===== verification/Touchspots.v ===== *)
(** * mir::input::TouchspotController

    Shows a spot on the screen for every touch
    ([src/server/input/touchspot_controller.cpp]).  The spots are overlays of the
    surface stack; the controller keeps a pool of them and uses as many of the
    first as there are touches.  The n-th renderable of the pool is the overlay
    [renderable_id n]; its state is its position. *)
From S2P Require Import Prelude Geometry InputEvents BufferStream WindowInfo Occlusion Surface SurfaceStack SeatTracker.

Definition touchspot_image_width : Z := 64.
Definition touchspot_image_height : Z := 64.

Record TouchspotController := mkTouchspots {
  ts_enabled : bool;
  renderables_in_use : nat;
  touchspot_renderables : list Point
}.
#[export] Instance eta_Touchspots : EtaExpansion TouchspotController := fun c =>
  mkTouchspots (ts_enabled c) (renderables_in_use c) (touchspot_renderables c).

Definition touchspots_init : TouchspotController := mkTouchspots false 0 [].

(** The top left corner of a spot around a point. *)
Definition move_center_to (pos : Point) : Point :=
  point_sub_disp pos (mkDisplacement (half touchspot_image_width) (half touchspot_image_height)).

Definition ts_enable (c : TouchspotController) : TouchspotController := c <| ts_enabled := true |>.
Definition ts_disable (c : TouchspotController) : TouchspotController := c <| ts_enabled := false |>.

Section Controller.
Context (renderable_id : nat -> Z).
Implicit Types (w : World) (c : TouchspotController).

(** The loop over the touches, from touch [i] on. *)
Fixpoint show_touches (in_use i : nat) (touches : list Spot) (pool : list Point) w : World * list Point * list SceneEvent :=
  match touches with
  | [] => (w, pool, [])
  | t :: rest =>
      let pool1 := <[i := move_center_to (touch_location t)]> pool in
      let '(w1, ev1) := if (in_use <=? i)%nat then add_input_visualization w (renderable_id i) else (w, []) in
      let '(w2, pool2, ev2) := show_touches in_use (S i) rest pool1 w1 in
      (w2, pool2, ev1 ++ ev2)
  end.

(** The loop over the renderables that are not needed any more. *)
Fixpoint hide_touches (indices : list nat) w : outcome (World * list SceneEvent) :=
  match indices with
  | [] => Ret (w, [])
  | i :: rest =>
      '(w1, ev1) ← remove_input_visualization w (renderable_id i);
      '(w2, ev2) ← hide_touches rest w1;
      Ret (w2, ev1 ++ ev2)
  end.

(** [while (size < num_touches) push_back(...)]: a new renderable is at the
    origin. *)
Definition grow_pool (num : nat) (pool : list Point) : list Point :=
  pool ++ replicate (num - length pool) (mkPoint 0 0).

Definition ts_visualize_touches w c (touches : list Spot) : outcome (World * TouchspotController * list SceneEvent) :=
  let shown := if ts_enabled c then touches else [] in
  let num_touches := length shown in
  let pool := grow_pool num_touches (touchspot_renderables c) in
  let '(w1, pool1, ev1) := show_touches (renderables_in_use c) 0 shown pool w in
  '(w2, ev2) ← hide_touches (seq num_touches (renderables_in_use c - num_touches)) w1;
  let c1 := c <| touchspot_renderables := pool1 |> <| renderables_in_use := num_touches |> in
  let '(w3, ev3) := if bool_decide (shown <> []) then emit_scene_changed w2 else (w2, []) in
  Ret (w3, c1, ev1 ++ ev2 ++ ev3).
End Controller.

(** ** The spots shown *)
Section Shown.
Context (renderable_id : nat -> Z).
Implicit Types (w : World) (c : TouchspotController).

(** The overlays are the ones of others and the first renderables of the
    pool. *)
Record spots_shown w c (others : list Z) : Prop := {
  shown_overlays : overlays w ≡ₚ others ++ (renderable_id <$> seq 0 (renderables_in_use c));
  shown_pool : (renderables_in_use c <= length (touchspot_renderables c))%nat
}.

(** Only the overlays change. *)
Definition same_surfaces w w' : Prop :=
  surfaces w' = surfaces w /\ streams w' = streams w /\ surface_layers w' = surface_layers w /\
  rendering_trackers w' = rendering_trackers w /\ registered_compositors w' = registered_compositors w.

Lemma same_surfaces_trans w1 w2 w3 : same_surfaces w1 w2 -> same_surfaces w2 w3 -> same_surfaces w1 w3.
Proof. unfold same_surfaces. intuition congruence. Qed.

(** [centers] from index [i] on. *)
Definition spots_at (pool : list Point) (i : nat) (touches : list Spot) : Prop :=
  forall j t, touches !! j = Some t -> pool !! (i + j)%nat = Some (move_center_to (touch_location t)).

Lemma show_touches_spec in_use i touches pool w w' pool' ev :
  (i + length touches <= length pool)%nat ->
  show_touches renderable_id in_use i touches pool w = (w', pool', ev) ->
  overlays w' = overlays w ++ (renderable_id <$> filter (fun j => in_use <= j)%nat (seq i (length touches))) /\
  same_surfaces w w' /\ length pool' = length pool /\ (forall j, (j < i)%nat -> pool' !! j = pool !! j) /\
  spots_at pool' i touches.
Proof.
  revert i pool w w' pool' ev. induction touches as [|t touches IH]; intros i pool w w' pool' ev Hlen; cbn [show_touches].
  { intros [= <- <- <-]. cbn. rewrite app_nil_r. repeat split. intros j t Hj. by rewrite lookup_nil in Hj. }
  cbn in Hlen. set (pool1 := <[i := _]> pool).
  set (added := if (in_use <=? i)%nat then add_input_visualization w (renderable_id i) else (w, [])).
  assert (Hadd : overlays added.1 = overlays w ++ (renderable_id <$> filter (fun j => in_use <= j)%nat [i]) /\
                 same_surfaces w added.1).
  { unfold added. rewrite filter_cons, filter_nil. destruct (Nat.leb_spec in_use i).
    - rewrite decide_True by done. by repeat split.
    - rewrite decide_False by lia. cbn. rewrite app_nil_r. by repeat split. }
  destruct added as [w1 ev1]. cbn [fst] in Hadd. destruct Hadd as [Ho1 Hs1].
  destruct (show_touches renderable_id in_use (S i) touches pool1 w1) as [[w2 pool2] ev2] eqn:E. intros [= <- <- <-].
  apply IH in E as (Ho2 & Hs2 & Hl & Hkeep & Hat); [|unfold pool1; rewrite length_insert; lia].
  split; [|split; [by eapply same_surfaces_trans|split; [rewrite Hl; apply length_insert|split]]].
  - rewrite Ho2, Ho1, <-app_assoc, <-fmap_app, <-filter_app. done.
  - intros j Hj. rewrite Hkeep by lia. unfold pool1. by rewrite list_lookup_insert_ne by lia.
  - intros [|j] t' Ht; cbn in Ht.
    + injection Ht as <-. rewrite Nat.add_0_r, Hkeep by lia. unfold pool1. rewrite list_lookup_insert_eq by lia. done.
    + rewrite Nat.add_succ_r, <-Nat.add_succ_l. by apply Hat.
Qed.

Lemma hide_touches_spec indices w rest :
  overlays w ≡ₚ rest ++ (renderable_id <$> indices) ->
  exists w' ev, hide_touches renderable_id indices w = Ret (w', ev) /\ overlays w' ≡ₚ rest /\ same_surfaces w w' /\
    (indices = [] -> w' = w /\ ev = []) /\ (indices <> [] -> scene_changed w' = true).
Proof.
  revert w. induction indices as [|i indices IH]; intros w Ho; cbn [hide_touches fmap list_fmap] in *.
  { rewrite app_nil_r in Ho. exists w, []. by repeat split. }
  assert (Hin : renderable_id i ∈ overlays w) by (rewrite Ho; set_solver).
  unfold remove_input_visualization. rewrite (bool_decide_true (renderable_id i ∈ overlays w)) by done.
  cbn [mbind outcome_bind emit_scene_changed].
  set (w1 := (w <| overlays := _ |>) <| scene_changed := true |>).
  destruct (IH w1) as (w' & ev & -> & Ho' & Hs & Hnil & Hcons).
  { unfold w1. cbn. rewrite (erase_first_Permutation _ _ Hin), <-Permutation_middle in Ho.
    by apply Permutation.Permutation_cons_inv in Ho. }
  exists w', ([scene_changed_event] ++ ev). split; [done|]. split; [done|]. split; [|split; [done|]].
  - eapply same_surfaces_trans; [|done]. by repeat split.
  - intros _. destruct indices as [|? ?]; [by destruct (Hnil eq_refl) as [-> _]|by apply Hcons].
Qed.

Lemma filter_seq_ge in_use num :
  filter (fun j => in_use <= j)%nat (seq 0 num) = seq in_use (num - in_use).
Proof.
  induction num as [|num IH]; [done|]. rewrite seq_S, filter_app, IH, filter_cons, filter_nil, Nat.add_0_l.
  destruct (decide (in_use <= num)%nat).
  - replace (S num - in_use)%nat with (S (num - in_use)) by lia. rewrite seq_S. do 2 f_equal. lia.
  - replace (S num - in_use)%nat with (num - in_use)%nat by lia. apply app_nil_r.
Qed.

(** every touch has its spot.  Showing touches never fails, whoever else
    has overlays; afterwards the overlays are those of the others and exactly
    one spot per touch, centred on it (none while disabled); the surfaces are
    not affected, and the scene is marked as changed if spots were or are
    shown. *)
Theorem touchspots_follow_touches w c (others : list Z) (touches : list Spot) :
  spots_shown w c others ->
  let shown := if ts_enabled c then touches else [] in
  exists w' c' ev,
    ts_visualize_touches renderable_id w c touches = Ret (w', c', ev) /\ spots_shown w' c' others /\
    renderables_in_use c' = length shown /\
    spots_at (touchspot_renderables c') 0 shown /\
    same_surfaces w w' /\
    (shown <> [] \/ renderables_in_use c <> O -> scene_changed w' = true).
Proof.
  intros [Ho Hpool] shown. unfold ts_visualize_touches. fold shown. set (in_use := renderables_in_use c) in *.
  set (num := length shown). set (pool := grow_pool num (touchspot_renderables c)).
  assert (Hlen : (num <= length pool)%nat) by (unfold pool, grow_pool; rewrite length_app, length_replicate; lia).
  destruct (show_touches renderable_id in_use 0 shown pool w) as [[w1 pool1] ev1] eqn:E1.
  apply show_touches_spec in E1 as (Ho1 & Hs1 & Hl1 & _ & Hat); [|done]. fold num in Ho1. rewrite filter_seq_ge in Ho1.
  destruct (hide_touches_spec (seq num (in_use - num)) w1 (others ++ (renderable_id <$> seq 0 num)))
    as (w2 & ev2 & -> & Ho2 & Hs2 & _ & Hch).
  { rewrite Ho1, Ho, <-!app_assoc, <-!fmap_app. f_equiv. f_equiv.
    destruct (Nat.le_gt_cases in_use num) as [Hle|Hgt].
    - replace (in_use - num)%nat with 0%nat by lia. replace num with (in_use + (num - in_use))%nat at 2 by lia.
      rewrite seq_app. by rewrite app_nil_r.
    - replace (num - in_use)%nat with 0%nat by lia. replace in_use with (num + (in_use - num))%nat at 1 by lia.
      rewrite seq_app, <-app_assoc. cbn. by rewrite app_nil_r. }
  cbn [mbind outcome_bind]. set (changed := if bool_decide (shown <> []) then _ else _).
  assert (Hc : overlays changed.1 = overlays w2 /\ same_surfaces w2 changed.1 /\
               (shown <> [] \/ in_use <> O -> scene_changed changed.1 = true)).
  { unfold changed. case_bool_decide as Hne; [by repeat split|]. split; [done|]. split; [by repeat split|].
    intros [?|Hu]; [done|]. apply Hch. unfold num. rewrite Hne. cbn. by destruct in_use. }
  destruct changed as [w3 ev3]. cbn [fst] in Hc. destruct Hc as (Ho3 & Hs3 & Hch3).
  eexists w3, _, _. split; [reflexivity|]. split; [split; cbn; [by rewrite Ho3|lia]|]. split; [done|]. split; [done|].
  split; [|done]. eapply same_surfaces_trans; [done|]. by eapply same_surfaces_trans.
Qed.
End Shown.

Lemma touchspots_follow_touches_witness :
  let touches := [mkSpot (mkPoint 100 200) (float_of_int 1); mkSpot (mkPoint 10 20) (float_of_int 1)] in
  exists w' c' ev,
    ts_visualize_touches Z.of_nat (example_stack <| overlays := [0; 77; 1; 2] |>)
      (mkTouchspots true 3 [mkPoint 0 0; mkPoint 0 0; mkPoint 0 0]) touches = Ret (w', c', ev) /\
    overlays w' ≡ₚ [77; 0; 1] /\ touchspot_renderables c' !! 0%nat = Some (mkPoint 68 168).
Proof.
  intros touches.
  destruct (touchspots_follow_touches Z.of_nat (example_stack <| overlays := [0; 77; 1; 2] |>)
    (mkTouchspots true 3 [mkPoint 0 0; mkPoint 0 0; mkPoint 0 0]) [77] touches)
    as (w' & c' & ev & E & [Ho _] & Hn & Hat & _).
  - split; [cbn; apply perm_swap|cbn; lia].
  - exists w', c', ev. split; [exact E|]. split.
    + rewrite Ho, Hn. reflexivity.
    + exact (Hat 0%nat _ eq_refl).
Defined.
