(* ===== verification/BufferVault.v ===== *)
(** * mir::client::BufferVault

    The buffers of a client's stream: which of them the client draws into,
    which the server has, and the promises of a buffer that are still open
    ([src/client/buffer_vault.cpp]), with the client's view of one buffer
    ([src/client/buffer.cpp], [src/platforms/common/client/mir/aging_buffer.cpp]). *)
From S2P Require Import Prelude Geometry InputEvents.

(** ** Data *)
Inductive Owner := Server | Self | ContentProducer | SelfWithContent.
#[export] Instance Owner_eq_dec : EqDecision Owner.
Proof. solve_decision. Defined.

(** A buffer of the connection: [owned] says that the client may submit it. *)
Record ClientBuffer := mkClientBuffer { cb_size : Size; owned : bool; buffer_age : Z }.
#[export] Instance ClientBuffer_eta : EtaExpansion ClientBuffer := fun b =>
  mkClientBuffer (cb_size b) (owned b) (buffer_age b).

(** [v_map] is the connection's map of buffers, to which the vault has a weak
    reference: [map_lost] says that the map is gone, and [v_map] is then what it
    was, with the buffers that the client still holds.
    A promise is known by the number of the call of [withdraw] that made it, a
    callback by a number. *)
Record Vault := mkVault {
  v_map : gmap Z ClientBuffer;
  map_lost : bool;
  being_destroyed : bool;
  buffers : gmap Z Owner;
  promises : list Z;
  v_size : Size;
  disconnected_ : bool;
  current_buffer_count : Z;
  needed_buffer_count : Z;
  initial_buffer_count : Z;
  last_received_id : Z;
  interval : Z;
  deferred_cb : option Z;
  next_promise : Z
}.
#[export] Instance Vault_eta : EtaExpansion Vault := fun v =>
  mkVault (v_map v) (map_lost v) (being_destroyed v) (buffers v) (promises v) (v_size v) (disconnected_ v) (current_buffer_count v)
    (needed_buffer_count v) (initial_buffer_count v) (last_received_id v) (interval v) (deferred_cb v) (next_promise v).

(** What the vault asks of the server and tells the client. *)
Inductive VaultCall :=
| allocate_buffer (size : Size)
| release_buffer (id : Z)
| submit_to_server (id : Z)
| fulfil (promise id : Z)
| run_callback (cb : Z).

(** An operation may have done part of its work when it throws. *)
Definition VResult (A : Type) : Type := Vault * list VaultCall * outcome A.

(** ** The connection's buffers *)
Definition free_buffer (id : Z) (v : Vault) : Vault * list VaultCall :=
  (if map_lost v then v else v <| v_map := delete id (v_map v) |>, [release_buffer id]).
Definition alloc_buffer (v : Vault) : list VaultCall := [allocate_buffer (v_size v)].

Definition checked_buffer_from_map (v : Vault) (id : Z) : outcome ClientBuffer :=
  if map_lost v then Throw (logic_error "connection resources lost; cannot access buffer")
  else match v_map v !! id with Some b => Ret b | None => Throw (logic_error "no buffer in map") end.
(** The buffer that the client holds. *)
Definition held_buffer (v : Vault) (id : Z) : outcome ClientBuffer :=
  match v_map v !! id with Some b => Ret b | None => Throw null_dereference end.

Definition increment_age (b : ClientBuffer) : ClientBuffer :=
  if buffer_age b =? 0 then b else b <| buffer_age := buffer_age b + 1 |>.

Definition submitted (b : ClientBuffer) : outcome ClientBuffer :=
  if owned b then Ret (b <| buffer_age := 1 |> <| owned := false |>)
  else Throw (logic_error "cannot submit unowned buffer").

(** ** The vault *)
(** [std::map] iterates in the order of its keys. *)
Definition ordered_ids (v : Vault) : list Z := merge_sort Z.le (elements (dom (buffers v))).

Fixpoint find_buffer (p : Z -> outcome bool) (ids : list Z) : outcome (option Z) :=
  match ids with
  | [] => Ret None
  | id :: rest => found ← p id; if found : bool then Ret (Some id) else find_buffer p rest
  end.

(** [(entry.second == Owner::Self) && (checked_buffer_from_map(...)->size() == size)] *)
Definition fits_client (v : Vault) (id : Z) : outcome bool :=
  if bool_decide (buffers v !! id = Some Self) then
    b ← checked_buffer_from_map v id; Ret (bool_decide (cb_size b = v_size v))
  else Ret false.

Definition available_buffer (v : Vault) : outcome (option Z) :=
  it ← find_buffer (fun id => ok ← fits_client v id; Ret (ok && negb (id =? last_received_id v))) (ordered_ids v);
  match it with
  | Some id => Ret (Some id)
  | None => find_buffer (fits_client v) (ordered_ids v)
  end.

(** The loop of [withdraw] over buffers of the wrong size. *)
Fixpoint clean_up (ids free_ids : list Z) (v : Vault) : Vault * outcome (list Z) :=
  match ids with
  | [] => (v, Ret free_ids)
  | id :: rest =>
      match checked_buffer_from_map v id with
      | Throw e => (v, Throw e)
      | Ret b =>
          if bool_decide (buffers v !! id = Some Self) && negb (bool_decide (cb_size b = v_size v))
          then clean_up rest (free_ids ++ [id])
                 (v <| current_buffer_count := current_buffer_count v - 1 |> <| buffers := delete id (buffers v) |>)
          else clean_up rest free_ids v
      end
  end.

Fixpoint free_all (ids : list Z) (v : Vault) : Vault * list VaultCall :=
  match ids with
  | [] => (v, [])
  | id :: rest => let '(v1, c1) := free_buffer id v in let '(v2, c2) := free_all rest v1 in (v2, c1 ++ c2)
  end.

(** The result is the number of the promise; a fulfilled one is in the
    calls. *)
Definition withdraw (v : Vault) : VResult Z :=
  if disconnected_ v then (v, [], Throw (logic_error "server_disconnected"))
  else
    match clean_up (ordered_ids v) [] v with
    | (v1, Throw e) => (v1, [], Throw e)
    | (v1, Ret free_ids) =>
        let promise := next_promise v1 in
        let v1 := v1 <| next_promise := promise + 1 |> in
        match available_buffer v1 with
        | Throw e => (v1, [], Throw e)
        | Ret (Some id) =>
            let v2 := v1 <| buffers := <[id := ContentProducer]> (buffers v1) |> in
            let '(v3, freed) := free_all free_ids v2 in
            (v3, fulfil promise id :: freed, Ret promise)
        | Ret None =>
            let v2 := v1 <| promises := promises v1 ++ [promise] |> in
            let must_allocate := current_buffer_count v2 <? needed_buffer_count v2 in
            let v3 := if must_allocate then v2 <| current_buffer_count := current_buffer_count v2 + 1 |> else v2 in
            let allocated := if must_allocate then alloc_buffer v3 else [] in
            let '(v4, freed) := free_all free_ids v3 in
            (v4, allocated ++ freed, Ret promise)
        end
    end.

Definition deposit (v : Vault) (id : Z) : VResult unit :=
  if bool_decide (buffers v !! id = Some ContentProducer) then
    let v1 := v <| buffers := <[id := SelfWithContent]> (buffers v) |> in
    match checked_buffer_from_map v1 id with
    | Ret b => (v1 <| v_map := <[id := increment_age b]> (v_map v1) |>, [], Ret tt)
    | Throw e => (v1, [], Throw e)
    end
  else (v, [], Throw (logic_error "buffer cannot be deposited")).

(** [buffer->submitted()] is a call on the buffer that the client holds. *)
Definition wire_transfer_outbound (v : Vault) (id : Z) (done : Z) : VResult unit :=
  if bool_decide (buffers v !! id = Some SelfWithContent) then
    let v1 := v <| buffers := <[id := Server]> (buffers v) |> in
    match (b ← held_buffer v1 id; submitted b) with
    | Throw e => (v1, [], Throw e)
    | Ret b =>
        let v2 := v1 <| v_map := <[id := b]> (v_map v1) |> in
        if disconnected_ v2 then (v2, [submit_to_server id], Throw (logic_error "server_disconnected"))
        else
          match available_buffer v2 with
          | Throw e => (v2, [submit_to_server id], Throw e)
          | Ret (Some _) => (v2, [submit_to_server id; run_callback done], Ret tt)
          | Ret None => (v2 <| deferred_cb := Some done |>, [submit_to_server id], Ret tt)
          end
    end
  else (v, [], Throw (logic_error "buffer cannot be transferred")).

Definition trigger_callback (v : Vault) : Vault * list VaultCall :=
  match deferred_cb v with
  | Some cb => (v <| deferred_cb := None |>, [run_callback cb])
  | None => (v, [])
  end.

(** The oldest promise gets the buffer. *)
Definition hand_over (id : Z) (v : Vault) : Vault * list VaultCall :=
  match promises v with
  | p :: rest => (v <| buffers := <[id := ContentProducer]> (buffers v) |> <| promises := rest |>, [fulfil p id])
  | [] => (v, [])
  end.

Definition finish_inbound (id : Z) (v : Vault) : VResult unit :=
  let '(v1, c1) := hand_over id v in
  let '(v2, c2) := trigger_callback v1 in
  (v2, c1 ++ c2, Ret tt).

Definition wire_transfer_inbound (v : Vault) (id : Z) : VResult unit :=
  if being_destroyed v then (v, [], Ret tt)
  else
    let v1 := v <| last_received_id := id |> in
    match checked_buffer_from_map v1 id with
    | Throw e => (v1, [], Throw e)
    | Ret b =>
        match buffers v1 !! id with
        | None =>
            if bool_decide (cb_size b = v_size v1) then
              finish_inbound id (v1 <| buffers := <[id := Self]> (buffers v1) |>)
            else
              let '(v2, freed) := free_buffer id v1 in (v2, freed ++ alloc_buffer v2, Ret tt)
        | Some _ =>
            let should_decrease_count := needed_buffer_count v1 <? current_buffer_count v1 in
            if negb (bool_decide (v_size v1 = cb_size b)) || should_decrease_count then
              let v2 := v1 <| buffers := delete id (buffers v1) |> in
              let v3 := if should_decrease_count then v2 <| current_buffer_count := current_buffer_count v2 - 1 |> else v2 in
              let '(v4, freed) := free_buffer id v3 in
              (v4, freed ++ (if should_decrease_count then [] else alloc_buffer v4), Ret tt)
            else finish_inbound id (v1 <| buffers := <[id := Self]> (buffers v1) |>)
        end
    end.

(** [received()] of the client's buffer, whose callback is
    [incoming_buffer]. *)
Definition received (v : Vault) (id : Z) : VResult unit :=
  wire_transfer_inbound (v <| v_map := alter (fun b => b <| owned := true |>) id (v_map v) |>) id.

Definition disconnected (v : Vault) : Vault * list VaultCall :=
  trigger_callback (v <| disconnected_ := true |> <| promises := [] |>).

Definition set_size (v : Vault) (new_size : Size) : Vault := v <| v_size := new_size |>.

(** [size * scale] in [float]. *)
Definition set_scale (v : Vault) (scale : float32) : Vault :=
  let scaled z := int_of_float (SFmul 24 128 scale (float_of_int z)) in
  set_size v (mkSize (scaled (width (v_size v))) (scaled (height (v_size v)))).

(** The loop of [set_interval]: give buffers back while there are too many
    and one is idle. *)
Fixpoint shrink (ids : list Z) (v : Vault) : Vault * list VaultCall :=
  match ids with
  | [] => (v, [])
  | id :: rest =>
      if needed_buffer_count v <? current_buffer_count v then
        if bool_decide (buffers v !! id = Some Self) then
          let '(v1, c1) := free_buffer id (v <| current_buffer_count := current_buffer_count v - 1 |> <| buffers := delete id (buffers v) |>) in
          let '(v2, c2) := shrink rest v1 in (v2, c1 ++ c2)
        else shrink rest v
      else (v, [])
  end.

Definition set_interval (v : Vault) (i : Z) : Vault * list VaultCall :=
  if i =? interval v then (v, [])
  else
    let v1 := v <| interval := i |> in
    if i =? 0 then
      let v2 := v1 <| current_buffer_count := current_buffer_count v1 + 1 |> <| needed_buffer_count := needed_buffer_count v1 + 1 |> in
      (v2, alloc_buffer v2)
    else
      let v2 := v1 <| needed_buffer_count := initial_buffer_count v1 |> in
      shrink (ordered_ids v2) v2.

Definition vault_init (map : gmap Z ClientBuffer) (size : Size) (initial_nbuffers : nat) : Vault * list VaultCall :=
  let n := Z.of_nat initial_nbuffers in
  let v := mkVault map false false ∅ [] size false n n n 0 1 None 0 in
  (v, mjoin (replicate initial_nbuffers (alloc_buffer v))).

(** The destructor: the connection forgets the buffers. *)
Definition destroy (v : Vault) : Vault :=
  v <| being_destroyed := true |> <| v_map := if map_lost v then v_map v else foldr delete (v_map v) (ordered_ids v) |>.

(** ** What the loops do *)
Lemma elem_of_ordered_ids v id : id ∈ ordered_ids v <-> is_Some (buffers v !! id).
Proof. unfold ordered_ids. rewrite merge_sort_Permutation, elem_of_elements. apply elem_of_dom. Qed.

Lemma ordered_ids_NoDup v : NoDup (ordered_ids v).
Proof. unfold ordered_ids. rewrite merge_sort_Permutation. apply NoDup_elements. Qed.

(** Every buffer of the vault is a buffer of the connection, and the client
    owns those that the server does not have. *)
Definition backed (v : Vault) : Prop :=
  forall id o, buffers v !! id = Some o -> exists b, v_map v !! id = Some b /\ (o <> Server -> owned b = true).

Definition idle (v : Vault) (id : Z) : Prop :=
  buffers v !! id = Some Self /\ exists b, v_map v !! id = Some b /\ cb_size b = v_size v.

Lemma fits_client_spec v id :
  backed v -> map_lost v = false -> exists ok, fits_client v id = Ret ok /\ (ok = true <-> idle v id).
Proof.
  intros Hb Hl. unfold fits_client, idle. case_bool_decide as Hs; [|by exists false; naive_solver].
  destruct (Hb id Self Hs) as (b & Hm & _). unfold checked_buffer_from_map. rewrite Hl, Hm. cbn. eexists. split; [done|].
  rewrite bool_decide_eq_true. split; [eauto|]. intros [_ (b' & Hb' & E)]. congruence.
Qed.

Lemma find_buffer_spec p q ids :
  (forall id, id ∈ ids -> exists ok, p id = Ret ok /\ (ok = true <-> q id)) ->
  exists r, find_buffer p ids = Ret r /\
    match r with Some id => id ∈ ids /\ q id | None => forall id, id ∈ ids -> ~ q id end.
Proof.
  induction ids as [|id ids IH]; intros Hp; cbn [find_buffer].
  { exists None. split; [done|]. intros id Hid. by apply not_elem_of_nil in Hid. }
  destruct (Hp id) as (ok & E & Hok); [set_solver|]. rewrite E. cbn [mbind outcome_bind]. destruct ok.
  - exists (Some id). split; [done|]. split; [set_solver|]. by apply Hok.
  - destruct IH as (r & Hr & Hspec); [set_solver|]. exists r. split; [done|]. destruct r as [x|].
    + destruct Hspec. split; [set_solver|done].
    + intros x [->|Hx]%elem_of_cons; [intros Hq; by apply Hok in Hq|by apply Hspec].
Qed.

Lemma available_buffer_spec v :
  backed v -> map_lost v = false -> exists r, available_buffer v = Ret r /\
    match r with Some id => idle v id | None => forall id, ~ idle v id end.
Proof.
  intros Hb Hl. unfold available_buffer.
  destruct (find_buffer_spec (fun id => ok ← fits_client v id; Ret (ok && negb (id =? last_received_id v)))
              (fun id => idle v id /\ id <> last_received_id v) (ordered_ids v)) as (r & Hr & Hspec).
  { intros id _. destruct (fits_client_spec v id Hb Hl) as (ok & E & Hok). rewrite E. cbn. eexists. split; [done|].
    rewrite andb_true_iff, Hok, negb_true_iff, Z.eqb_neq. done. }
  rewrite Hr. cbn [mbind outcome_bind]. destruct r as [id|]; [exists (Some id); split; [done|]; by destruct Hspec as (_ & ? & _)|].
  destruct (find_buffer_spec (fits_client v) (idle v) (ordered_ids v)) as (r2 & Hr2 & Hspec2).
  { intros id _. by apply fits_client_spec. }
  exists r2. split; [done|]. destruct r2 as [id|]; [by destruct Hspec2|]. intros id Hid. apply (Hspec2 id); [|done].
  apply elem_of_ordered_ids. destruct Hid as [-> _]. eauto.
Qed.

Definition wrong_size (v : Vault) (id : Z) : Prop :=
  buffers v !! id = Some Self /\ exists b, v_map v !! id = Some b /\ cb_size b <> v_size v.

Lemma clean_up_spec v ids free_ids :
  backed v -> map_lost v = false -> NoDup ids -> (forall id, id ∈ ids -> is_Some (buffers v !! id)) ->
  exists gone, clean_up ids free_ids v =
      (v <| current_buffer_count := current_buffer_count v - Z.of_nat (length gone) |>
         <| buffers := foldr delete (buffers v) (reverse gone) |>, Ret (free_ids ++ gone)) /\
    NoDup gone /\ forall id, id ∈ gone <-> id ∈ ids /\ wrong_size v id.
Proof.
  intros Hb Hl Hn. revert v free_ids Hb Hl. induction Hn as [|x ids Hx Hn IH]; intros v free_ids Hb Hl Hk; cbn [clean_up].
  { exists []. cbn. rewrite Z.sub_0_r, app_nil_r. split; [by destruct v|]. split; [constructor|]. set_solver. }
  destruct (Hk x) as [o Ho]; [set_solver|]. destruct (Hb x o Ho) as (b & Hm & Hown).
  unfold checked_buffer_from_map. rewrite Hl, Hm.
  destruct (bool_decide (buffers v !! x = Some Self) && negb (bool_decide (cb_size b = v_size v))) eqn:E.
  - breflect. set (v1 := v <| current_buffer_count := _ |> <| buffers := _ |>).
    destruct (IH v1 (free_ids ++ [x])) as (gone & Hc & Hng & Hg).
    { intros id o'. cbn. intros [? Ho']%lookup_delete_Some. by apply Hb. }
    { done. }
    { intros id Hid. cbn. assert (id <> x) by set_solver. rewrite lookup_delete_ne by done. apply Hk. set_solver. }
    assert (Hsame : forall id, id ∈ ids -> wrong_size v1 id <-> wrong_size v id).
    { intros id Hid. unfold wrong_size. cbn. assert (id <> x) by set_solver. by rewrite lookup_delete_ne. }
    exists (x :: gone). rewrite Hc. split; [|split].
    + unfold v1. cbn [current_buffer_count buffers assign]. f_equal; [|by rewrite <-app_assoc].
      assert (foldr delete (delete x (buffers v)) (reverse gone) = foldr delete (buffers v) (reverse (x :: gone))) as ->.
      { rewrite reverse_cons, foldr_app. done. }
      replace (current_buffer_count v - 1 - Z.of_nat (length gone)) with (current_buffer_count v - Z.of_nat (length (x :: gone)))
        by (cbn [length]; lia). done.
    + constructor; [|done]. intros Hin%Hg. by destruct Hin.
    + intros id. rewrite elem_of_cons, Hg, elem_of_cons. split.
      * intros [->|[Hid Hw]]; [split; [by left|]; split; [done|eauto]|]. split; [by right|]. by apply Hsame.
      * intros [[->|Hid] Hw]; [by left|]. right. split; [done|]. by apply Hsame.
  - destruct (IH v free_ids) as (gone & Hc & Hng & Hg); [done|done|set_solver|]. exists gone. rewrite Hc. split; [done|]. split; [done|].
    intros id. rewrite Hg, elem_of_cons. split; [naive_solver|]. intros [[->|Hid] Hw]; [|done]. exfalso.
    destruct Hw as [Hs (b' & Hb' & Hsz)]. assert (b' = b) as -> by congruence.
    apply andb_false_iff in E as [E|E]; breflect; done.
Qed.

Lemma free_all_spec ids v :
  map_lost v = false ->
  free_all ids v = (v <| v_map := foldr delete (v_map v) (reverse ids) |>, release_buffer <$> ids).
Proof.
  revert v. induction ids as [|id ids IH]; intros v Hl; cbn [free_all]; [by destruct v|].
  unfold free_buffer. rewrite Hl, IH, reverse_cons, foldr_app by done. reflexivity.
Qed.

Lemma shrink_spec v ids :
  NoDup ids -> map_lost v = false ->
  exists gone, shrink ids v =
      (v <| current_buffer_count := current_buffer_count v - Z.of_nat (length gone) |>
         <| buffers := foldr delete (buffers v) (reverse gone) |> <| v_map := foldr delete (v_map v) (reverse gone) |>,
       release_buffer <$> gone) /\
    NoDup gone /\ (forall id, id ∈ gone -> id ∈ ids /\ buffers v !! id = Some Self) /\
    (gone <> [] -> needed_buffer_count v <= current_buffer_count v - Z.of_nat (length gone)).
Proof.
  intros Hn. revert v. induction Hn as [|x ids Hx Hn IH]; intros v Hl; cbn [shrink].
  { exists []. cbn. rewrite Z.sub_0_r. split; [by destruct v|]. split; [constructor|]. set_solver. }
  destruct (needed_buffer_count v <? current_buffer_count v) eqn:E.
  2: { exists []. cbn. rewrite Z.sub_0_r. split; [by destruct v|]. split; [constructor|]. set_solver. }
  breflect. case_bool_decide as Hs.
  - unfold free_buffer. cbn [map_lost assign]. rewrite Hl. set (v1 := _ <| v_map := _ |>). destruct (IH v1 Hl) as (gone & Hc & Hng & Hg & Hcount). rewrite Hc.
    exists (x :: gone). split; [|split; [|split]].
    + unfold v1. cbn [current_buffer_count buffers v_map assign fmap list_fmap]. f_equal.
      rewrite reverse_cons, !foldr_app. cbn [foldr length].
      replace (current_buffer_count v - 1 - Z.of_nat (length gone)) with (current_buffer_count v - Z.of_nat (S (length gone))) by lia. done.
    + constructor; [|done]. intros Hin%Hg. by destruct Hin.
    + intros id [->|Hid]%elem_of_cons; [split; [set_solver|done]|]. apply Hg in Hid as [? Hid]. cbn in Hid.
      apply lookup_delete_Some in Hid as [? ?]. split; [set_solver|done].
    + intros _. cbn [length]. destruct gone as [|y gone]; [cbn; lia|]. specialize (Hcount ltac:(done)). cbn in Hcount |- *. lia.
  - destruct (IH v Hl) as (gone & Hc & Hng & Hg & Hcount). exists gone. split_and!; [done..| |done].
    intros id Hid. apply Hg in Hid as [? ?]. split; [set_solver|done].
Qed.

(** ** The vault and its server

    The server answers requests for buffers in their order, with a buffer of
    the size that was asked for, and gives back buffers that were submitted.
    [pending] are the sizes of the requests without an answer. *)
Record VaultWorld := mkVaultWorld { vault : Vault; pending : list Size }.

Definition requested (c : VaultCall) : option Size := match c with allocate_buffer s => Some s | _ => None end.

Definition settled {A} (rest : list Size) (r : VResult A) : VaultWorld * list VaultCall * outcome unit :=
  let '(v, calls, o) := r in (mkVaultWorld v (rest ++ omap requested calls), calls, (fun _ => tt) <$> o).

Inductive VaultOp :=
| OpWithdraw
| OpDeposit (id : Z)
| OpOutbound (id done : Z)
| OpAllocated (id : Z)
| OpReturned (id : Z)
| OpDisconnected
| OpResize (size : Size)
| OpRescale (scale : float32)
| OpInterval (i : Z).

Definition returning {A} (r : Vault * list VaultCall) (a : A) : VResult A := (fst r, snd r, Ret a).

Definition vault_step (w : VaultWorld) (op : VaultOp) : VaultWorld * list VaultCall * outcome unit :=
  let v := vault w in
  match op with
  | OpWithdraw => settled (pending w) (withdraw v)
  | OpDeposit id => settled (pending w) (deposit v id)
  | OpOutbound id done => settled (pending w) (wire_transfer_outbound v id done)
  | OpAllocated id =>
      match pending w with
      | [] => (w, [], Ret tt)
      | s :: rest => settled rest (received (v <| v_map := <[id := mkClientBuffer s false 0]> (v_map v) |>) id)
      end
  | OpReturned id => settled (pending w) (received v id)
  | OpDisconnected => settled (pending w) (returning (disconnected v) tt)
  | OpResize size => settled (pending w) (returning (set_size v size, []) tt)
  | OpRescale scale => settled (pending w) (returning (set_scale v scale, []) tt)
  | OpInterval i => settled (pending w) (returning (set_interval v i) tt)
  end.

(** What the server can do. *)
Definition vault_enabled (w : VaultWorld) (op : VaultOp) : Prop :=
  match op with
  | OpAllocated id => disconnected_ (vault w) = false /\ pending w <> [] /\ v_map (vault w) !! id = None
  | OpReturned id => disconnected_ (vault w) = false /\ buffers (vault w) !! id = Some Server
  | _ => True
  end.

(** ** The accounts *)
Record vault_ok (w : VaultWorld) : Prop := {
  vault_alive : being_destroyed (vault w) = false /\ map_lost (vault w) = false;
  vault_backed : backed (vault w);
  vault_count : current_buffer_count (vault w) = Z.of_nat (size (buffers (vault w)) + length (pending w));
  vault_positive : 1 <= current_buffer_count (vault w) /\ 1 <= initial_buffer_count (vault w) <= needed_buffer_count (vault w);
  vault_waiting : promises (vault w) <> [] -> forall id, buffers (vault w) !! id <> Some Self;
  vault_broken : disconnected_ (vault w) = true -> promises (vault w) = []
}.

(** The error an operation is meant to give a client that misuses it. *)
Definition misuse (w : VaultWorld) (op : VaultOp) : option exn :=
  match op with
  | OpWithdraw => if disconnected_ (vault w) then Some (logic_error "server_disconnected") else None
  | OpDeposit id =>
      if bool_decide (buffers (vault w) !! id = Some ContentProducer) then None else Some (logic_error "buffer cannot be deposited")
  | OpOutbound id _ =>
      if bool_decide (buffers (vault w) !! id = Some SelfWithContent)
      then if disconnected_ (vault w) then Some (logic_error "server_disconnected") else None
      else Some (logic_error "buffer cannot be transferred")
  | _ => None
  end.

Definition step_ok (w : VaultWorld) (op : VaultOp) : Prop :=
  let '(w', _, o) := vault_step w op in
  vault_ok w' /\ o = match misuse w op with Some e => Throw e | None => Ret tt end.

Lemma requested_released ids : omap requested (release_buffer <$> ids) = [].
Proof. by induction ids. Qed.

Lemma backed_insert v v' id o b :
  backed v -> buffers v' = <[id := o]> (buffers v) -> (forall x, x <> id -> v_map v' !! x = v_map v !! x) ->
  v_map v' !! id = Some b -> (o <> Server -> owned b = true) -> backed v'.
Proof.
  intros Hb E Hsame Hid Ho x o'. rewrite E. destruct (decide (x = id)) as [->|Hx].
  - rewrite lookup_insert_eq. intros [= <-]. eauto.
  - rewrite lookup_insert_ne, Hsame by done. apply Hb.
Qed.

Lemma backed_delete v v' id :
  backed v -> buffers v' = delete id (buffers v) -> (forall x, x <> id -> v_map v' !! x = v_map v !! x) -> backed v'.
Proof. intros Hb E Hsame x o'. rewrite E. intros [Hx Ho]%lookup_delete_Some. rewrite Hsame by done. by apply Hb. Qed.

Lemma insert_not_self (m : gmap Z Owner) id o :
  o <> Self -> (forall x, m !! x <> Some Self) -> forall x, <[id := o]> m !! x <> Some Self.
Proof. intros Ho Hm x. destruct (decide (x = id)) as [->|Hx]; [rewrite lookup_insert_eq; congruence|by rewrite lookup_insert_ne]. Qed.

(** The vault after [withdraw] has let go of the idle buffers [gone]. *)
Definition cleaned (v : Vault) (gone : list Z) : Vault :=
  v <| v_map := foldr delete (v_map v) (reverse gone) |> <| buffers := foldr delete (buffers v) (reverse gone) |>
    <| current_buffer_count := current_buffer_count v - Z.of_nat (length gone) |> <| next_promise := next_promise v + 1 |>.

Lemma cleaned_buffers v gone id : buffers (cleaned v gone) !! id = if decide (id ∈ gone) then None else buffers v !! id.
Proof.
  cbn. rewrite foldr_delete_lookup. destruct (decide (id ∈ gone)) as [H|H];
    [rewrite decide_True by by rewrite elem_of_reverse|rewrite decide_False by by rewrite elem_of_reverse]; done.
Qed.

Lemma cleaned_size v gone :
  NoDup gone -> (forall id, id ∈ gone -> buffers v !! id = Some Self) ->
  (size (buffers (cleaned v gone)) + length gone = size (buffers v))%nat.
Proof.
  intros Hn Hg. cbn. rewrite <-(length_reverse gone). apply foldr_delete_size; [by rewrite reverse_Permutation|].
  intros id. rewrite elem_of_reverse. intros Hid%Hg. eauto.
Qed.

Lemma cleaned_backed v gone : backed v -> backed (cleaned v gone).
Proof. intros Hb id o. cbn. rewrite !foldr_delete_lookup. case_decide; [done|]. apply Hb. Qed.

(** A withdrawal takes an idle buffer if there is one, and else leaves a
    promise, with the request of a buffer if there are too few. *)
Lemma withdraw_cases v :
  backed v -> map_lost v = false -> disconnected_ v = false ->
  exists gone, NoDup gone /\ (forall id, id ∈ gone -> buffers v !! id = Some Self) /\
    ((exists id, id ∉ gone /\ buffers v !! id = Some Self /\
        withdraw v = ((cleaned v gone) <| buffers := <[id := ContentProducer]> (buffers (cleaned v gone)) |>,
                      fulfil (next_promise v) id :: (release_buffer <$> gone), Ret (next_promise v))) \/
     ((forall id, buffers (cleaned v gone) !! id <> Some Self) /\
      let few := current_buffer_count (cleaned v gone) <? needed_buffer_count v in
      withdraw v = ((cleaned v gone) <| promises := promises v ++ [next_promise v] |>
                      <| current_buffer_count := current_buffer_count (cleaned v gone) + (if few then 1 else 0) |>,
                    (if few then [allocate_buffer (v_size v)] else []) ++ (release_buffer <$> gone), Ret (next_promise v)))).
Proof.
  intros Hb Hl Hcon. unfold withdraw. rewrite Hcon.
  destruct (clean_up_spec v (ordered_ids v) [] Hb Hl (ordered_ids_NoDup v)) as (gone & -> & Hng & Hg).
  { intros id. apply elem_of_ordered_ids. }
  exists gone. split; [done|]. split; [by intros id [_ [? _]]%Hg|]. cbn [app]. set (v1 := v <| current_buffer_count := _ |> <| buffers := _ |> <| next_promise := _ |>).
  assert (Hlook : forall id, buffers v1 !! id = if decide (id ∈ gone) then None else buffers v !! id) by apply cleaned_buffers.
  assert (Hb1 : backed v1) by (intros id o; rewrite Hlook; case_decide; [done|apply Hb]).
  destruct (available_buffer_spec v1 Hb1 Hl) as (r & -> & Hr). destruct r as [id|]; rewrite free_all_spec by (try case_match; exact Hl).
  - left. exists id. destruct Hr as [Hself _]. rewrite Hlook in Hself. by case_decide.
  - right. split.
    + intros id. rewrite cleaned_buffers, <-Hlook. intros Hs. destruct (Hb1 id Self Hs) as (b & Hm & _).
      destruct (decide (cb_size b = v_size v1)) as [E|E]; [apply (Hr id); split; [done|eauto]|].
      rewrite Hlook in Hs. case_decide as Hid; [done|]. apply Hid, Hg. split; [apply elem_of_ordered_ids; eauto|]. split; [done|eauto].
    + cbn. case_match; [done|]. by rewrite Z.add_0_r.
Qed.

Lemma withdraw_ok w : vault_ok w -> step_ok w OpWithdraw.
Proof.
  intros [Hal Hb Hc [Hp1 Hp2] Hw Hd]. unfold step_ok, vault_step, misuse.
  destruct (disconnected_ (vault w)) eqn:Edis; [unfold withdraw; rewrite Edis; cbn; rewrite app_nil_r; split; [by split; cbn; rewrite ?Edis|done]|].
  destruct (withdraw_cases (vault w) Hb (proj2 Hal) Edis) as (gone & Hng & Hg & Hcases). set (v := vault w) in *.
  pose proof (cleaned_size v gone Hng Hg) as Hsz. pose proof (cleaned_backed v gone Hb) as Hb1. destruct Hcases as [(id & Hid & Hs & ->)|[Hno ->]].
  - assert (Hs1 : buffers (cleaned v gone) !! id = Some Self) by by rewrite cleaned_buffers, decide_False.
    destruct (Hb1 id Self Hs1) as (b & Hm & Ho). pose proof (size_insert_known _ id ContentProducer (ex_intro _ _ Hs1)) as Hins.
    cbn [settled fst snd omap list_omap requested]. rewrite requested_released, app_nil_r. split; [|done].
    split; cbn; [done| | | | |by rewrite Edis].
    + apply (backed_insert (cleaned v gone) _ id ContentProducer b); [done..|]. intros _. by apply Ho.
    + cbn in Hins, Hsz. lia.
    + split; [|done]. pose proof (size_delete_known _ id (ex_intro _ _ Hs1)) as Hdel. cbn in Hdel, Hsz. lia.
    + intros Hne. by apply (Hw Hne) in Hs.
  - cbv zeta. destruct (current_buffer_count (cleaned v gone) <? needed_buffer_count v) eqn:E; breflect; cbn in E;
      cbn [settled fst snd]; rewrite omap_app, requested_released, app_nil_r; cbn [omap list_omap requested]; (split; [|done]);
      (split; cbn; [done|exact Hb1|rewrite ?length_app; cbn in Hsz |- *; lia|lia|intros _; exact Hno|by rewrite Edis]).
Qed.

Lemma deposit_ok w id : vault_ok w -> step_ok w (OpDeposit id).
Proof.
  intros [Hal Hb Hc Hp Hw Hd]. unfold step_ok, vault_step, misuse, deposit.
  case_bool_decide as Hid; [|cbn; rewrite app_nil_r; by destruct w]. destruct (Hb _ _ Hid) as (b & Hm & Ho).
  unfold checked_buffer_from_map. cbn. rewrite (proj2 Hal), Hm. cbn. rewrite app_nil_r. split; [|done]. split; cbn; [done| | |done| |done].
  - apply (backed_insert (vault w) _ id SelfWithContent (increment_age b)); [done|done|..].
    + intros x Hx. cbn. by rewrite lookup_insert_ne.
    + cbn. by rewrite lookup_insert_eq.
    + intros _. unfold increment_age. case_match; by apply Ho.
  - by rewrite size_insert_known by eauto.
  - intros Hne. apply insert_not_self; [done|]. by apply Hw.
Qed.

Lemma outbound_ok w id done_cb : vault_ok w -> step_ok w (OpOutbound id done_cb).
Proof.
  intros [Hal Hb Hc Hp Hw Hd]. unfold step_ok, vault_step, misuse, wire_transfer_outbound.
  case_bool_decide as Hid; [|cbn; rewrite app_nil_r; by destruct w]. destruct (Hb _ _ Hid) as (b & Hm & Ho).
  unfold held_buffer. cbn [v_map assign]. rewrite Hm. cbn [mbind outcome_bind]. unfold submitted.
  rewrite Ho by done. cbv beta match zeta. set (v2 := _ <| v_map := _ |>).
  assert (Hb2 : backed v2).
  { apply (backed_insert (vault w) _ id Server (b <| buffer_age := 1 |> <| owned := false |>)); [done|done|..].
    - intros x Hx. cbn. by rewrite lookup_insert_ne.
    - cbn. by rewrite lookup_insert_eq.
    - done. }
  assert (Hok : forall cb, vault_ok (mkVaultWorld (v2 <| deferred_cb := cb |>) (pending w))).
  { intros cb. split; cbn; [done|exact Hb2| |done| |done]; [by rewrite size_insert_known by eauto|].
    intros Hne. apply insert_not_self; [done|]. by apply Hw. }
  change (disconnected_ v2) with (disconnected_ (vault w)).
  destruct (disconnected_ (vault w)); [cbn; rewrite app_nil_r; split; [exact (Hok (deferred_cb (vault w)))|done]|].
  destruct (available_buffer_spec v2 Hb2 (proj2 Hal)) as (r & -> & Hr). destruct r; cbn; rewrite app_nil_r; (split; [|done]).
  - exact (Hok (deferred_cb (vault w))).
  - exact (Hok (Some done_cb)).
Qed.

(** The invariant but for the buffer that arrives. *)
Record arriving (id : Z) (v : Vault) (rest : list Size) : Prop := {
  arriving_alive : being_destroyed v = false /\ map_lost v = false;
  arriving_backed : backed v;
  arriving_self : buffers v !! id = Some Self;
  arriving_count : current_buffer_count v = Z.of_nat (size (buffers v) + length rest);
  arriving_positive : 1 <= current_buffer_count v /\ 1 <= initial_buffer_count v <= needed_buffer_count v;
  arriving_waiting : promises v <> [] -> forall x, x <> id -> buffers v !! x <> Some Self;
  arriving_broken : disconnected_ v = true -> promises v = []
}.

Lemma finish_inbound_ok id v rest :
  arriving id v rest -> let '(w', _, o) := settled rest (finish_inbound id v) in vault_ok w' /\ o = Ret tt.
Proof.
  intros [Hal Hb Hs Hc Hp Hw Hd]. destruct (Hb id Self Hs) as (b & Hm & Ho).
  assert (Hcb : forall v1, vault_ok (mkVaultWorld v1 rest) -> vault_ok (mkVaultWorld (v1 <| deferred_cb := None |>) rest)).
  { intros v1 [? ? ? ? ? ?]. by split. }
  assert (Hh : let '(v1, c1) := hand_over id v in vault_ok (mkVaultWorld v1 rest) /\ omap requested c1 = []).
  { unfold hand_over. destruct (promises v) as [|p ps] eqn:E; (split; [|done]); split; cbn; try done.
    - apply (backed_insert v _ id ContentProducer b); [done..|]. intros _. by apply Ho.
    - by rewrite size_insert_known by eauto.
    - intros _ x. destruct (decide (x = id)) as [->|Hx]; [by rewrite lookup_insert_eq|].
      rewrite lookup_insert_ne by done. by apply Hw.
    - intros Hdis. by specialize (Hd Hdis). }
  unfold finish_inbound. destruct (hand_over id v) as [v1 c1]. destruct Hh as [Hok Hno]. unfold trigger_callback.
  destruct (deferred_cb v1) as [cb|]; cbn [settled]; rewrite omap_app, Hno, app_nil_r; (split; [|done]); [by apply Hcb|done].
Qed.

Lemma allocated_ok w id : vault_ok w -> vault_enabled w (OpAllocated id) -> step_ok w (OpAllocated id).
Proof.
  intros [Hal Hb Hc Hp Hw Hd] (Hcon & Hpend & Hfree). unfold step_ok, vault_step, misuse.
  destruct (pending w) as [|s rest] eqn:Ep; [done|]. unfold received, wire_transfer_inbound. cbn [being_destroyed assign]. destruct Hal as [Hal Hl]. rewrite Hal.
  unfold checked_buffer_from_map, free_buffer. cbn [v_map map_lost assign buffers v_size]. rewrite Hl, lookup_alter_eq, lookup_insert_eq.
  assert (Hnew : buffers (vault w) !! id = None).
  { destruct (buffers (vault w) !! id) as [o|] eqn:E; [|done]. destruct (Hb _ _ E) as (b & Hm & _). congruence. }
  rewrite Hnew. cbn [fmap option_fmap option_map]. case_bool_decide as Hsz.
  - apply finish_inbound_ok. split; cbn; [done| | | |done| |done].
    + apply (backed_insert (vault w) _ id Self (mkClientBuffer s true 0)); [done|done|..|done].
      * intros x Hx. cbn. by rewrite lookup_alter_ne, lookup_insert_ne.
      * cbn. by rewrite lookup_alter_eq, lookup_insert_eq.
    + by rewrite lookup_insert_eq.
    + rewrite map_size_insert, Hnew. cbn in Hc. lia.
    + intros Hne x Hx. rewrite lookup_insert_ne by done. by apply Hw.
  - cbn. split; [|done]. split; cbn; [done| | |done|done|done].
    + intros x o Ho. cbn in Ho |- *. assert (x <> id) by congruence.
      rewrite lookup_delete_ne, lookup_alter_ne, lookup_insert_ne by done. by apply Hb.
    + rewrite length_app. cbn in Hc |- *. lia.
Qed.

Lemma returned_ok w id : vault_ok w -> vault_enabled w (OpReturned id) -> step_ok w (OpReturned id).
Proof.
  intros [Hal Hb Hc Hp Hw Hd] (Hcon & Hsrv). unfold step_ok, vault_step, misuse, received, wire_transfer_inbound.
  cbn [being_destroyed assign]. destruct Hal as [Hal Hl]. rewrite Hal. destruct (Hb _ _ Hsrv) as (b & Hm & _).
  unfold checked_buffer_from_map, free_buffer. cbn [v_map map_lost assign buffers v_size]. rewrite Hl, lookup_alter_eq, Hm. cbn [fmap option_fmap option_map].
  rewrite Hsrv. cbn [needed_buffer_count current_buffer_count assign cb_size].
  pose proof (size_delete_known (buffers (vault w)) id ltac:(eauto)) as Hdel.
  destruct (needed_buffer_count (vault w) <? current_buffer_count (vault w)) eqn:En; breflect.
  - rewrite orb_true_r. cbn. rewrite ?Hl, app_nil_r. split; [|done]. split; cbn; [done| |lia|lia| |done].
    + apply (backed_delete (vault w) _ id); [done..|]. intros x Hx. cbn. by rewrite lookup_delete_ne, lookup_alter_ne.
    + intros Hne x [_ Hx]%lookup_delete_Some. by apply (Hw Hne) in Hx.
  - rewrite orb_false_r. case_bool_decide as Hsz; cbn [negb].
    + apply finish_inbound_ok. split; cbn; [done| | | |done| |done].
      * apply (backed_insert (vault w) _ id Self (b <| owned := true |>)); [done|done|..|done].
        -- intros x Hx. cbn. by rewrite lookup_alter_ne.
        -- cbn. by rewrite lookup_alter_eq, Hm.
      * by rewrite lookup_insert_eq.
      * by rewrite size_insert_known by eauto.
      * intros Hne x Hx. rewrite lookup_insert_ne by done. by apply Hw.
    + cbn. rewrite ?Hl. split; [|done]. split; cbn; [done| | |lia| |done].
      * apply (backed_delete (vault w) _ id); [done..|]. intros x Hx. cbn. by rewrite lookup_delete_ne, lookup_alter_ne.
      * rewrite length_app. cbn. lia.
      * intros Hne x [_ Hx]%lookup_delete_Some. by apply (Hw Hne) in Hx.
Qed.

Lemma interval_ok w i : vault_ok w -> step_ok w (OpInterval i).
Proof.
  intros [Hal Hb Hc Hp Hw Hd]. unfold step_ok, vault_step, misuse, returning, set_interval.
  destruct (i =? interval (vault w)); [cbn; rewrite app_nil_r; by destruct w|].
  destruct (i =? 0); [cbn; split; [|done]; split; cbn; [done|exact Hb|rewrite length_app; cbn; lia|lia|done|done]|].
  set (v2 := _ <| needed_buffer_count := _ |>). destruct (shrink_spec v2 (ordered_ids v2) (ordered_ids_NoDup v2) (proj2 Hal)) as (gone & -> & Hng & Hg & Hcount).
  cbn [fst snd settled]. rewrite requested_released, app_nil_r. split; [|done].
  assert (Hsz : (size (foldr delete (buffers (vault w)) (reverse gone)) + length gone = size (buffers (vault w)))%nat).
  { rewrite <-(length_reverse gone). apply foldr_delete_size; [by rewrite reverse_Permutation|].
    intros id. rewrite elem_of_reverse. intros [_ Hs]%Hg. cbn in Hs. eauto. }
  split; cbn; [done| |cbn in Hsz; lia| | |done].
  - intros x o. cbn. rewrite !foldr_delete_lookup. case_decide; [done|]. apply Hb.
  - split; [|lia]. destruct gone; [cbn; lia|]. specialize (Hcount ltac:(done)). cbn in Hcount |- *. lia.
  - intros Hne x. rewrite foldr_delete_lookup. case_decide; [done|]. by apply Hw.
Qed.

Lemma vault_step_ok w op : vault_ok w -> vault_enabled w op -> step_ok w op.
Proof.
  intros Hok He. destruct op;
    [by apply withdraw_ok|by apply deposit_ok|by apply outbound_ok|by apply allocated_ok|by apply returned_ok| | | |by apply interval_ok];
    destruct Hok as [Hal Hb Hc Hp Hw Hd].
  - unfold step_ok, vault_step, returning, disconnected, trigger_callback. cbn [deferred_cb assign].
    destruct (deferred_cb (vault w)); cbn; rewrite app_nil_r; (split; [|done]); by split.
  - unfold step_ok. cbn. rewrite app_nil_r. split; [|done]. by split.
  - unfold step_ok. cbn. rewrite app_nil_r. split; [|done]. by split.
Qed.

Lemma vault_init_ok map size n :
  (0 < n)%nat -> let '(v, calls) := vault_init map size n in vault_ok (mkVaultWorld v (omap requested calls)).
Proof.
  intros Hn. cbn [vault_init].
  assert (length (omap requested (mjoin (replicate n [allocate_buffer size]))) = n) as Hl.
  { clear Hn. induction n as [|n IH]; [done|]. cbn. f_equal. exact IH. }
  split; cbn; try done; try lia. rewrite map_size_empty. apply f_equal. symmetry. exact Hl.
Qed.

(** ** Histories *)
Record VaultHistory := mkVaultHistory { h_world : VaultWorld; h_calls : list VaultCall }.

Definition vault_start (map : gmap Z ClientBuffer) (size : Size) (n : nat) : VaultHistory :=
  let '(v, calls) := vault_init map size n in mkVaultHistory (mkVaultWorld v (omap requested calls)) calls.

Inductive vault_moves (allowed : VaultOp -> Prop) (h : VaultHistory) : VaultHistory -> Prop :=
| vault_move op w' calls o :
    allowed op -> vault_enabled (h_world h) op -> vault_step (h_world h) op = (w', calls, o) ->
    vault_moves allowed h (mkVaultHistory w' (h_calls h ++ calls)).

Definition any_op (op : VaultOp) : Prop := True.
Definition answers (op : VaultOp) : Prop := match op with OpAllocated _ | OpReturned _ => True | _ => False end.

(** The buffers that the client has in hand: a buffer is given to a client
    that does not have it, the client submits a buffer that it has, and no
    buffer is released under the client. *)
Definition use (held : gset Z) (c : VaultCall) : option (gset Z) :=
  match c with
  | fulfil _ id => if bool_decide (id ∈ held) then None else Some ({[id]} ∪ held)
  | submit_to_server id => if bool_decide (id ∈ held) then Some (held ∖ {[id]}) else None
  | release_buffer id => if bool_decide (id ∈ held) then None else Some held
  | _ => Some held
  end.
Fixpoint uses (held : gset Z) (calls : list VaultCall) : option (gset Z) :=
  match calls with
  | [] => Some held
  | c :: rest => match use held c with Some held' => uses held' rest | None => None end
  end.

Definition in_hand (o : Owner) : bool := match o with ContentProducer | SelfWithContent => true | _ => false end.
Definition in_hands (bs : gmap Z Owner) : gset Z := dom (filter (fun kv : Z * Owner => in_hand kv.2 = true) bs).

Definition fulfilled (c : VaultCall) : option Z := match c with fulfil p _ => Some p | _ => None end.

Lemma uses_app held c1 c2 : uses held (c1 ++ c2) = match uses held c1 with Some held' => uses held' c2 | None => None end.
Proof. revert held. induction c1 as [|c c1 IH]; intros held; [done|]. cbn. by destruct (use held c). Qed.

Lemma elem_of_in_hands bs id : id ∈ in_hands bs <-> exists o, bs !! id = Some o /\ in_hand o = true.
Proof.
  unfold in_hands. rewrite elem_of_dom. split.
  - intros [o Ho]. apply map_lookup_filter_Some in Ho as [? ?]. eauto.
  - intros (o & Ho & Hh). exists o. by apply map_lookup_filter_Some.
Qed.

Lemma in_hands_insert bs id o :
  in_hands (<[id := o]> bs) = if in_hand o then {[id]} ∪ in_hands bs else in_hands bs ∖ {[id]}.
Proof.
  apply set_eq. intros x. rewrite elem_of_in_hands. destruct (decide (x = id)) as [->|Hx].
  - rewrite lookup_insert_eq. destruct (in_hand o) eqn:E; split.
    + set_solver.
    + eauto.
    + intros (o' & [= <-] & Hh). congruence.
    + by intros [_ []%not_elem_of_singleton]%elem_of_difference.
  - rewrite lookup_insert_ne by done. rewrite <-elem_of_in_hands. destruct (in_hand o); set_solver.
Qed.

Lemma in_hands_insert_same bs id o : in_hand o = false -> id ∉ in_hands bs -> in_hands (<[id := o]> bs) = in_hands bs.
Proof. intros Ho Hid. rewrite in_hands_insert, Ho. set_solver. Qed.

Lemma in_hands_delete bs id : id ∉ in_hands bs -> in_hands (delete id bs) = in_hands bs.
Proof.
  intros Hid. apply set_eq. intros x. destruct (decide (x = id)) as [->|Hx].
  - rewrite elem_of_in_hands, lookup_delete_eq. naive_solver.
  - rewrite !elem_of_in_hands. by rewrite lookup_delete_ne.
Qed.

Lemma not_in_hands bs id : (forall o, bs !! id = Some o -> in_hand o = false) -> id ∉ in_hands bs.
Proof. rewrite elem_of_in_hands. intros H (o & Ho & Hh). rewrite (H o Ho) in Hh. done. Qed.

Lemma in_hands_cleaned v gone :
  (forall id, id ∈ gone -> buffers v !! id = Some Self) -> in_hands (buffers (cleaned v gone)) = in_hands (buffers v).
Proof.
  intros Hg. apply set_eq. intros x. rewrite !elem_of_in_hands, cleaned_buffers. case_decide as H; [|done].
  rewrite (Hg x H). split; intros (o & [= <-] & Hh); done.
Qed.

Lemma uses_released held ids : (forall id, id ∈ ids -> id ∉ held) -> uses held (release_buffer <$> ids) = Some held.
Proof.
  induction ids as [|id ids IH]; intros H; [done|]. cbn. rewrite bool_decide_false by (apply H; set_solver). apply IH. set_solver.
Qed.

(** What one step does to the buffers in hand and to the promises. *)
Record orderly (v v' : Vault) (calls : list VaultCall) : Prop := {
  orderly_use : uses (in_hands (buffers v)) calls = Some (in_hands (buffers v'));
  orderly_promises : disconnected_ v' = false ->
    promises v ++ seqZ (next_promise v) (next_promise v' - next_promise v) = omap fulfilled calls ++ promises v';
  orderly_connected : disconnected_ v' = false -> disconnected_ v = false;
  orderly_broken : disconnected_ v' = true -> omap fulfilled calls = [];
  orderly_next : next_promise v <= next_promise v'
}.

Lemma fulfilled_released ids : omap fulfilled (release_buffer <$> ids) = [].
Proof. by induction ids. Qed.

(** A step that changes no owner in a way the client sees, and no promise. *)
Lemma orderly_quiet v v' calls :
  uses (in_hands (buffers v)) calls = Some (in_hands (buffers v')) -> omap fulfilled calls = [] ->
  promises v' = promises v -> disconnected_ v' = disconnected_ v -> next_promise v' = next_promise v -> orderly v v' calls.
Proof.
  intros Hu Hf Hp Hd Hn. split; [done| |by rewrite Hd|done|lia].
  intros _. rewrite Hn, Z.sub_diag, Hf, Hp. cbn. by rewrite app_nil_r.
Qed.

Lemma finish_inbound_orderly id v :
  buffers v !! id = Some Self -> disconnected_ v = false -> let '(v', calls, _) := finish_inbound id v in orderly v v' calls.
Proof.
  intros Hs Hd. assert (Hno : id ∉ in_hands (buffers v)) by (apply not_in_hands; rewrite Hs; by intros o [= <-]).
  unfold finish_inbound, hand_over. destruct (promises v) as [|p ps] eqn:Ep.
  - unfold trigger_callback. destruct (deferred_cb v); by apply orderly_quiet.
  - unfold trigger_callback. cbn [deferred_cb assign].
    assert (Hall : forall cb, uses (in_hands (buffers v)) (fulfil p id :: cb) = uses (in_hands (<[id := ContentProducer]> (buffers v))) cb).
    { intros cb. cbn [uses use]. rewrite bool_decide_false by done. by rewrite in_hands_insert. }
    destruct (deferred_cb v); (split; cbn [promises disconnected_ assign buffers app]; [by rewrite Hall| |by rewrite Hd|congruence|cbn; lia]);
      intros _; cbn; rewrite Ep, Z.sub_diag; cbn; by rewrite app_nil_r.
Qed.

Lemma withdraw_orderly w v' calls o :
  vault_ok w -> withdraw (vault w) = (v', calls, o) -> orderly (vault w) v' calls.
Proof.
  intros [Hal Hb Hc _ Hw Hd] E. destruct (disconnected_ (vault w)) eqn:Edis.
  { unfold withdraw in E. rewrite Edis in E. simplify_eq. by apply orderly_quiet. }
  destruct (withdraw_cases (vault w) Hb (proj2 Hal) Edis) as (gone & Hng & Hg & Hcases).
  pose proof (in_hands_cleaned (vault w) gone Hg) as Hin. cbn in Hin.
  assert (Hgone : forall id, buffers (vault w) !! id = Some Self -> id ∉ in_hands (buffers (vault w)))
    by (intros id Hs; apply not_in_hands; rewrite Hs; by intros ? [= <-]).
  destruct Hcases as [(id & Hid & Hs & Ew)|[Hno Ew]]; rewrite Ew in E; cbv zeta in E; simplify_eq.
  - assert (Hnil : promises (vault w) = []).
    { destruct (promises (vault w)) eqn:Ep; [done|]. exfalso. by apply (Hw ltac:(done) id). }
    split; cbn; [| |done|congruence|lia].
    + rewrite bool_decide_false by by apply Hgone. rewrite uses_released; [by rewrite in_hands_insert, Hin|].
      intros x Hx. pose proof (Hgone x (Hg x Hx)). set_solver.
    + intros _. rewrite Hnil, fulfilled_released. replace (_ + 1 - _) with 1 by lia. done.
  - split; cbn; [| |done|congruence|lia].
    + rewrite Hin. case_match; cbn; rewrite uses_released; eauto.
    + intros _. replace (_ + 1 - _) with 1 by lia. case_match; cbn; by rewrite fulfilled_released.
Qed.

Lemma outbound_orderly w id cb v' calls o :
  vault_ok w -> wire_transfer_outbound (vault w) id cb = (v', calls, o) -> orderly (vault w) v' calls.
Proof.
  intros [Hal Hb Hc _ Hw Hd] E. unfold wire_transfer_outbound in E. case_bool_decide as Hid; [|simplify_eq; by apply orderly_quiet].
  destruct (Hb _ _ Hid) as (b & Hm & Ho). unfold held_buffer in E. cbn [v_map assign] in E. rewrite Hm in E.
  cbn [mbind outcome_bind] in E. unfold submitted in E. rewrite Ho in E by done. cbv beta match zeta in E.
  assert (Hin : id ∈ in_hands (buffers (vault w))) by (apply elem_of_in_hands; eauto).
  assert (Hall : forall cs, uses (in_hands (buffers (vault w))) (submit_to_server id :: cs) = uses (in_hands (<[id := Server]> (buffers (vault w)))) cs).
  { intros cs. cbn [uses use]. rewrite bool_decide_true by done. by rewrite in_hands_insert. }
  repeat case_match; simplify_eq; apply orderly_quiet; try done; by rewrite Hall.
Qed.

Lemma inbound_orderly w id v0 v' calls o :
  map_lost v0 = false -> disconnected_ (vault w) = false -> buffers v0 = buffers (vault w) -> promises v0 = promises (vault w) ->
  next_promise v0 = next_promise (vault w) -> disconnected_ v0 = disconnected_ (vault w) ->
  buffers (vault w) !! id ∈ [None; Some Server] -> wire_transfer_inbound v0 id = (v', calls, o) -> orderly (vault w) v' calls.
Proof.
  intros Hl Hcon Eb Ep En Ed Hid E. unfold wire_transfer_inbound, free_buffer in E.
  assert (Hno : id ∉ in_hands (buffers (vault w))).
  { apply not_in_hands. intros x Hx. rewrite Hx in Hid. apply elem_of_cons in Hid as [?|?%list_elem_of_singleton]; by simplify_eq. }
  assert (Hfin : forall r, r = finish_inbound id (v0 <| last_received_id := id |> <| buffers := <[id := Self]> (buffers v0) |>) ->
            r = (v', calls, o) -> orderly (vault w) v' calls).
  { intros r Hr Er. pose proof (finish_inbound_orderly id (v0 <| last_received_id := id |> <| buffers := <[id := Self]> (buffers v0) |>)) as Hf.
    cbn [buffers assign disconnected_] in Hf. rewrite lookup_insert_eq in Hf. specialize (Hf eq_refl ltac:(congruence)).
    rewrite <-Hr, Er in Hf. destruct Hf as [Hu Hp Hc Hbr Hnx]. cbn in Hu, Hp, Hc, Hnx.
    rewrite in_hands_insert_same, Eb in Hu by (done || by rewrite Eb). rewrite Ep, En in Hp. rewrite Ed in Hc. rewrite En in Hnx. by split. }
  assert (Hdel : forall x, in_hands (delete id (buffers (vault w))) = in_hands (buffers (vault w)) /\
            uses (in_hands (buffers (vault w))) (release_buffer id :: x) = uses (in_hands (buffers (vault w))) x).
  { intros x. split; [by apply in_hands_delete|]. cbn. by rewrite bool_decide_false. }
  destruct (being_destroyed v0); [simplify_eq; apply orderly_quiet; try done; by rewrite Eb|].
  destruct (checked_buffer_from_map _ id); [|simplify_eq; apply orderly_quiet; try done; cbn; by rewrite Eb].
  cbn [buffers assign] in E. destruct (buffers v0 !! id).
  - cbn [needed_buffer_count current_buffer_count v_size assign] in E. case_match; [|by eapply Hfin].
    simplify_eq. apply orderly_quiet; cbn [app promises disconnected_ next_promise buffers assign];
      [rewrite (proj2 (Hdel _))|..|]; repeat case_match; try done; cbn; by rewrite Eb, (proj1 (Hdel [])).
  - case_bool_decide; [by eapply Hfin|]. cbn in E. rewrite Hl in E. simplify_eq. apply orderly_quiet; try done. rewrite (proj2 (Hdel _)). cbn. by rewrite Eb.
Qed.

Lemma seqZ_join k m n : k <= m -> m <= n -> seqZ k (m - k) ++ seqZ m (n - m) = seqZ k (n - k).
Proof. intros H1 H2. replace (n - k) with (m - k + (n - m)) by lia. rewrite seqZ_app by lia. do 2 f_equal. lia. Qed.

Lemma seqZ_split m n l1 l2 :
  0 <= n -> seqZ m n = l1 ++ l2 -> exists j, 0 <= j <= n /\ l1 = seqZ m j /\ l2 = seqZ (m + j) (n - j).
Proof.
  intros Hn E. assert (length l1 + length l2 = Z.to_nat n)%nat as Hl by (rewrite <-length_app, <-E; apply length_seqZ).
  exists (Z.of_nat (length l1)). split; [lia|]. replace n with (Z.of_nat (length l1) + (n - Z.of_nat (length l1))) in E by lia.
  rewrite seqZ_app in E by lia. symmetry in E. apply app_inj_1 in E; [done|]. rewrite length_seqZ. lia.
Qed.

Lemma deposit_orderly w id v' calls o : vault_ok w -> deposit (vault w) id = (v', calls, o) -> orderly (vault w) v' calls.
Proof.
  intros [_ Hb _ _ _ _] E. unfold deposit in E. case_bool_decide as Hid; [|simplify_eq; by apply orderly_quiet].
  assert (Hsame : in_hands (<[id := SelfWithContent]> (buffers (vault w))) = in_hands (buffers (vault w))).
  { rewrite in_hands_insert. cbn. apply subseteq_union_1_L, singleton_subseteq_l, elem_of_in_hands. eauto. }
  case_match; simplify_eq; apply orderly_quiet; try done; cbn; by rewrite Hsame.
Qed.

Lemma interval_orderly w i v' calls : vault_ok w -> set_interval (vault w) i = (v', calls) -> orderly (vault w) v' calls.
Proof.
  unfold set_interval. intros [[_ Hl] _ _ _ _ _] E. case_match; [simplify_eq; by apply orderly_quiet|]. case_match; [simplify_eq; by apply orderly_quiet|].
  set (v2 := _ <| needed_buffer_count := _ |>) in E. destruct (shrink_spec v2 (ordered_ids v2) (ordered_ids_NoDup v2) Hl) as (gone & Hs & _ & Hg & _).
  rewrite Hs in E. simplify_eq. apply orderly_quiet; try done; [|apply fulfilled_released].
  pose proof (in_hands_cleaned (vault w) gone) as Hin. cbn in Hin. cbn. rewrite Hin by (intros id Hid; by apply (Hg id Hid)).
  apply uses_released. intros id Hid. apply not_in_hands. intros o Ho. destruct (Hg id Hid) as [_ Hself]. cbn in Hself. by simplify_eq.
Qed.

Lemma step_orderly w op w' calls o :
  vault_ok w -> vault_enabled w op -> vault_step w op = (w', calls, o) -> orderly (vault w) (vault w') calls.
Proof.
  intros Hok He E. pose proof Hok as [[_ Hl] Hb _ _ _ _].
  destruct op; unfold vault_step, settled, returning in E; cbn [vault_enabled fst snd] in He, E.
  - destruct (withdraw (vault w)) as [[v c] r] eqn:Ew. simplify_eq. by eapply withdraw_orderly.
  - destruct (deposit (vault w) id) as [[v c] r] eqn:Ew. simplify_eq. by eapply deposit_orderly.
  - destruct (wire_transfer_outbound (vault w) id done) as [[v c] r] eqn:Ew. simplify_eq. by eapply outbound_orderly.
  - destruct He as (Hcon & Hpend & Hfree). destruct (pending w) as [|s rest]; [done|].
    destruct (received _ id) as [[v c] r] eqn:Ew. simplify_eq. unfold received in Ew. refine (inbound_orderly w id _ _ _ _ _ _ _ _ _ _ _ Ew); try done.
    destruct (buffers (vault w) !! id) as [ow|] eqn:Eb; [destruct (Hb _ _ Eb) as (? & ? & _); congruence|]. apply elem_of_cons. by left.
  - destruct He as (Hcon & Hs). destruct (received (vault w) id) as [[v c] r] eqn:Ew. simplify_eq. unfold received in Ew.
    refine (inbound_orderly w id _ _ _ _ _ _ _ _ _ _ _ Ew); try done. rewrite Hs. apply elem_of_cons. right. by apply list_elem_of_singleton.
  - unfold disconnected, trigger_callback in E. cbn [deferred_cb assign] in E.
    case_match; simplify_eq; (split; cbn; [done|done|done|done|lia]).
  - simplify_eq. by apply orderly_quiet.
  - simplify_eq. by apply orderly_quiet.
  - destruct (set_interval (vault w) i) as [v c] eqn:Ew. cbn in E. simplify_eq. by eapply interval_orderly.
Qed.

Lemma vault_move_ok allowed h h' : vault_ok (h_world h) -> vault_moves allowed h h' -> vault_ok (h_world h').
Proof.
  intros Hok [op w' calls o _ He E]. pose proof (vault_step_ok _ _ Hok He) as Hs. unfold step_ok in Hs. rewrite E in Hs. by destruct Hs.
Qed.

Lemma vault_reached_ok map size n h :
  (0 < n)%nat -> rtc (vault_moves any_op) (vault_start map size n) h -> vault_ok (h_world h).
Proof.
  intros Hn. apply (rtc_ind_r (fun h => vault_ok (h_world h))).
  - exact (vault_init_ok map size n Hn).
  - intros h1 h2 _ Hm Hok. by eapply vault_move_ok.
Qed.

Lemma start_calls s n :
  uses ∅ (mjoin (replicate n [allocate_buffer s])) = Some ∅ /\ omap fulfilled (mjoin (replicate n [allocate_buffer s])) = [].
Proof.
  induction n as [|n [IH1 IH2]]; [done|].
  change (mjoin (replicate (S n) [allocate_buffer s])) with (allocate_buffer s :: mjoin (replicate n [allocate_buffer s])).
  split; [exact IH1|exact IH2].
Qed.

(** ** When the connection's map is gone *)
Definition lose_map (w : VaultWorld) : VaultWorld := mkVaultWorld ((vault w) <| map_lost := true |>) (pending w).
Definition resources_lost : exn := logic_error "connection resources lost; cannot access buffer".
Definition has_idle (v : Vault) : bool := existsb (fun id => bool_decide (buffers v !! id = Some Self)) (ordered_ids v).

(** The error of an operation then: it is the one for the loss exactly if the
    operation has to look a buffer up. *)
Definition lost_error (w : VaultWorld) (op : VaultOp) : option exn :=
  let lost_if (b : bool) := if b then Some resources_lost else None in
  match misuse w op with
  | Some e => Some e
  | None =>
      match op with
      | OpWithdraw => lost_if (negb (bool_decide (buffers (vault w) = ∅)))
      | OpDeposit _ | OpAllocated _ | OpReturned _ => lost_if true
      | OpOutbound _ _ => lost_if (has_idle (vault w))
      | _ => None
      end
  end.

Lemma has_idle_iff v : has_idle v = true <-> exists id, buffers v !! id = Some Self.
Proof.
  unfold has_idle. rewrite existsb_exists. split.
  - intros (id & _ & Hs%bool_decide_eq_true). by exists id.
  - intros [id Hs]. exists id. split; [apply list_elem_of_In, elem_of_ordered_ids; eauto|by apply bool_decide_eq_true].
Qed.

Lemma find_buffer_lost v p ids :
  (forall id, p id = if bool_decide (buffers v !! id = Some Self) then Throw resources_lost else Ret false) ->
  find_buffer p ids = if existsb (fun id => bool_decide (buffers v !! id = Some Self)) ids then Throw resources_lost else Ret None.
Proof. intros Hp. induction ids as [|id ids IH]; [done|]. cbn. rewrite Hp. by case_bool_decide. Qed.

Lemma available_buffer_lost v : map_lost v = true -> available_buffer v = if has_idle v then Throw resources_lost else Ret None.
Proof.
  intros Hl. unfold available_buffer, fits_client, checked_buffer_from_map. rewrite Hl.
  rewrite !(find_buffer_lost v) by (intros id; by case_bool_decide). unfold has_idle. by destruct (existsb _ _).
Qed.

Lemma withdraw_lost v : map_lost v = true -> disconnected_ v = false ->
  (fun _ => tt) <$> snd (withdraw v) = if bool_decide (buffers v = ∅) then Ret tt else Throw resources_lost.
Proof.
  intros Hl Hd. unfold withdraw. rewrite Hd. case_bool_decide as He.
  - assert (Ho : ordered_ids v = []) by (unfold ordered_ids; by rewrite He, dom_empty_L, elements_empty). rewrite Ho. cbn [clean_up].
    rewrite available_buffer_lost by exact Hl. unfold has_idle. change (ordered_ids (v <| next_promise := _ |>)) with (ordered_ids v). rewrite Ho. cbn. by repeat case_match.
  - destruct (ordered_ids v) as [|id ids] eqn:Eo; [|cbn; unfold checked_buffer_from_map; by rewrite Hl]. exfalso. apply He, map_empty.
    intros id. destruct (buffers v !! id) eqn:E; [|done]. exfalso. apply (not_elem_of_nil id). rewrite <- Eo. apply elem_of_ordered_ids. eauto.
Qed.

Lemma outbound_lost v id done_cb b : map_lost v = true -> disconnected_ v = false -> buffers v !! id = Some SelfWithContent ->
  v_map v !! id = Some b -> owned b = true -> snd (wire_transfer_outbound v id done_cb) = if has_idle v then Throw resources_lost else Ret tt.
Proof.
  intros Hl Hd Hs Hm Ho. unfold wire_transfer_outbound. rewrite bool_decide_true by done. unfold held_buffer. cbn [v_map assign]. rewrite Hm. cbn [mbind outcome_bind].
  unfold submitted. rewrite Ho. cbn [disconnected_ assign]. rewrite Hd. rewrite available_buffer_lost by exact Hl.
  match goal with |- context [has_idle ?v2] => assert (E : has_idle v2 = has_idle v) end.
  { apply eq_true_iff_eq. rewrite !has_idle_iff. cbn. split; intros [x Hx]; exists x.
    - by apply lookup_insert_Some in Hx as [[_ ?]|[_ Hx]].
    - rewrite lookup_insert_ne; [done|]. intros ->. congruence. }
  rewrite E. by destruct (has_idle v).
Qed.

Lemma lost_step w op : vault_ok w -> vault_enabled w op ->
  snd (vault_step (lose_map w) op) = match lost_error w op with Some e => Throw e | None => Ret tt end.
Proof.
  intros Hok He. pose proof Hok as [[Hal Hl] Hb _ _ _ _]. destruct op; unfold lost_error, misuse.
  - destruct (disconnected_ (vault w)) eqn:Ed; [cbn; unfold withdraw; cbn; by rewrite Ed|].
    pose proof (withdraw_lost (vault (lose_map w)) eq_refl Ed) as Hw. cbn [vault_step]. destruct (withdraw _) as [[v' c] o]. cbn in Hw |- *. rewrite Hw. by case_bool_decide.
  - cbn [vault_step]. unfold deposit. cbn. case_bool_decide; [|done]. done.
  - case_bool_decide as Hs; [|cbn; unfold wire_transfer_outbound; cbn; by rewrite bool_decide_false].
    destruct (Hb _ _ Hs) as (b & Hm & Ho). destruct (disconnected_ (vault w)) eqn:Ed.
    + cbn [vault_step]. unfold wire_transfer_outbound. cbn [lose_map vault buffers assign]. rewrite bool_decide_true by done. unfold held_buffer. cbn. rewrite Hm. cbn. unfold submitted. rewrite Ho by done. cbn. by rewrite Ed.
    + pose proof (outbound_lost (vault (lose_map w)) id done b eq_refl Ed Hs Hm (Ho ltac:(done))) as Hw. cbn [vault_step].
      destruct (wire_transfer_outbound _ id done) as [[v' c] o]. change (has_idle (vault (lose_map w))) with (has_idle (vault w)) in Hw. cbn in Hw |- *. subst o. by destruct (has_idle (vault w)).
  - destruct He as (_ & Hpend & _). cbn [vault_step]. cbn [pending lose_map]. destruct (pending w); [done|]. unfold received, wire_transfer_inbound. cbn. by rewrite Hal.
  - cbn [vault_step]. unfold received, wire_transfer_inbound. cbn. by rewrite Hal.
  - cbn [vault_step]. unfold returning, disconnected, trigger_callback. cbn. by repeat case_match.
  - done.
  - done.
  - cbn [vault_step]. unfold returning. done.
Qed.

(** C8: In every reachable state of a vault that was made for at least one buffer, the count of buffers is
    the number of buffers that it has plus the number of requests that the server has not answered, every
    buffer is one of the connection's and no client waits while a buffer is idle.  As long as the connection's
    map of buffers exists, an operation throws only the error that is meant for its misuse (withdrawing after
    the connection is lost, depositing or submitting a buffer out of turn): "no buffer in map" and "cannot
    submit unowned buffer" never occur.  If the map has gone, an operation that is not misused throws the
    error for that exactly if it has to look up a buffer. *)
Theorem vault_accounting map size n h op :
  (0 < n)%nat -> rtc (vault_moves any_op) (vault_start map size n) h -> vault_enabled (h_world h) op ->
  vault_ok (h_world h) /\
  snd (vault_step (h_world h) op) = match misuse (h_world h) op with Some e => Throw e | None => Ret tt end /\
  snd (vault_step (lose_map (h_world h)) op) = match lost_error (h_world h) op with Some e => Throw e | None => Ret tt end.
Proof.
  intros Hn Hr He. pose proof (vault_reached_ok map size n h Hn Hr) as Hok. split; [done|]. split; [|by apply lost_step].
  pose proof (vault_step_ok _ _ Hok He) as Hs. unfold step_ok in Hs. destruct (vault_step (h_world h) op) as [[w' c] o]. by destruct Hs.
Qed.

(** C7: The calls of every history keep the protocol of the buffers: a buffer is handed to the client only
    while the client does not have it, is submitted only while it does and is never released under it, and
    the buffers in hand are those the vault has marked so; and the withdrawals are served in the order in
    which they were made, each of them once: the promises fulfilled are the first [k] ones, and unless the
    connection was lost those that wait are all the others. *)
Theorem vault_ownership map size n h :
  (0 < n)%nat -> rtc (vault_moves any_op) (vault_start map size n) h ->
  let v := vault (h_world h) in
  uses ∅ (h_calls h) = Some (in_hands (buffers v)) /\
  exists k, 0 <= k <= next_promise v /\ omap fulfilled (h_calls h) = seqZ 0 k /\
    (disconnected_ v = false -> promises v = seqZ k (next_promise v - k)).
Proof.
  intros Hn Hr. cbv zeta. revert Hr. apply (rtc_ind_r (fun h => uses ∅ (h_calls h) = Some (in_hands (buffers (vault (h_world h)))) /\
    exists k, 0 <= k <= next_promise (vault (h_world h)) /\ omap fulfilled (h_calls h) = seqZ 0 k /\
    (disconnected_ (vault (h_world h)) = false -> promises (vault (h_world h)) = seqZ k (next_promise (vault (h_world h)) - k)))).
  - unfold vault_start, vault_init. cbn [h_calls h_world vault buffers next_promise disconnected_ promises].
    destruct (start_calls size n) as [H1 H2]. unfold alloc_buffer. cbn [v_size]. rewrite H1, H2. split; [done|]. exists 0. split; [lia|done].
  - intros h1 h2 Hr Hm (Hu & k & Hk & Hf & Hp). pose proof (vault_reached_ok map size n h1 Hn Hr) as Hok.
    destruct Hm as [op w' calls o _ He E]. destruct (step_orderly _ _ _ _ _ Hok He E) as [Ou Op Oc Ob On].
    cbn [h_calls h_world]. rewrite uses_app, Hu, omap_app, Hf. split; [done|].
    destruct (disconnected_ (vault w')) eqn:Ed; [exists k; rewrite Ob, app_nil_r by done; split; [lia|done]|].
    specialize (Hp (Oc eq_refl)). specialize (Op eq_refl). rewrite Hp, (seqZ_join k (next_promise (vault (h_world h1)))) in Op by lia.
    apply seqZ_split in Op as (j & Hj & -> & ->); [|lia]. exists (k + j). split; [lia|]. split; [|intros _; f_equal; lia].
    symmetry. apply (seqZ_app 0); lia.
Qed.

(** ** Waiting clients are served *)
Definition request_weight (wanted s : Size) : nat := if bool_decide (s = wanted) then 1 else 2.
Definition vault_weight (w : VaultWorld) : nat :=
  3 * size (buffers (vault w)) + sum_list_with (request_weight (v_size (vault w))) (pending w).

Lemma request_weight_fits s : request_weight s s = 1%nat.
Proof. unfold request_weight. by rewrite bool_decide_true. Qed.

(** The client waits for the promise [p] and all buffers are with the server. *)
Definition waits_for (p : Z) (w : VaultWorld) : Prop :=
  vault_ok w /\ disconnected_ (vault w) = false /\ head (promises (vault w)) = Some p /\
  forall id o, buffers (vault w) !! id = Some o -> o = Server.

Definition served (p : Z) (h : VaultHistory) : Prop :=
  exists id, fulfil p id ∈ h_calls h /\ buffers (vault (h_world h)) !! id = Some ContentProducer.

Lemma answer_exists p h : waits_for p (h_world h) -> exists h', vault_moves answers h h'.
Proof.
  intros (Hok & Hcon & Hp & Hall). destruct Hok as [_ _ Hc [Hpos _] _ _].
  assert (exists op, answers op /\ vault_enabled (h_world h) op) as (op & Ha & He).
  { destruct (pending (h_world h)) as [|s rest] eqn:Ep.
    - destruct (map_choose (buffers (vault (h_world h)))) as (id & o & Ho).
      { intros E. rewrite E, map_size_empty in Hc. cbn in Hc. lia. }
      exists (OpReturned id). split; [done|]. split; [done|]. by rewrite <-(Hall id o Ho).
    - exists (OpAllocated (fresh (dom (v_map (vault (h_world h)))))). split; [done|]. split; [done|]. split; [by rewrite Ep|].
      apply not_elem_of_dom, is_fresh. }
  destruct (vault_step (h_world h) op) as [[w' c] o] eqn:E. exists (mkVaultHistory w' (h_calls h ++ c)). by apply (vault_move answers h op w' c o).
Qed.

Lemma finish_inbound_serves p id v : 
  head (promises v) = Some p -> 
  exists v' c, finish_inbound id v = (v', fulfil p id :: c, Ret tt) /\ buffers v' !! id = Some ContentProducer.
Proof.
  intros Hp. unfold finish_inbound, hand_over. destruct (promises v) as [|q ps]; [done|]. cbn in Hp. simplify_eq.
  unfold trigger_callback. cbn [deferred_cb assign]. destruct (deferred_cb v); do 2 eexists; (split; [done|]); cbn; by rewrite lookup_insert_eq.
Qed.

(** An answer serves the client, or is one of the wrong kind, of which there are finitely many. *)
Lemma answer_progress p w op w' c o :
  waits_for p w -> answers op -> vault_enabled w op -> vault_step w op = (w', c, o) ->
  (exists id, fulfil p id ∈ c /\ buffers (vault w') !! id = Some ContentProducer) \/
  waits_for p w' /\ (vault_weight w' < vault_weight w)%nat.
Proof.
  intros (Hok & Hcon & Hp & Hall) Ha He E. pose proof (vault_step_ok w op Hok He) as Hs. unfold step_ok in Hs. rewrite E in Hs.
  destruct Hs as [Hok' _]. destruct Hok as [[Hal Hl] Hb _ _ _ _].
  assert (Hserves : forall v rest, head (promises v) = Some p -> (exists id, settled rest (finish_inbound id v) = (w', c, o)) ->
            exists id, fulfil p id ∈ c /\ buffers (vault w') !! id = Some ContentProducer).
  { intros v rest Hv [id Ev]. destruct (finish_inbound_serves p id v Hv) as (v' & c' & Ef & Hid). rewrite Ef in Ev. cbn in Ev.
    simplify_eq. exists id. split; [apply elem_of_cons; by left|done]. }
  destruct op as [| | |id|id| | | |]; try done; unfold vault_step, received, wire_transfer_inbound in E; cbn [vault_enabled] in He.
  - destruct He as (_ & Hpend & Hfree). destruct (pending w) as [|s rest] eqn:Ep; [done|].
    cbn [being_destroyed assign] in E. rewrite Hal in E. unfold checked_buffer_from_map, free_buffer in E. cbn [v_map map_lost assign buffers v_size] in E.
    rewrite Hl, lookup_alter_eq, lookup_insert_eq in E. cbn [fmap option_fmap option_map cb_size assign] in E.
    assert (Hnew : buffers (vault w) !! id = None).
    { destruct (buffers (vault w) !! id) as [ow|] eqn:Eb; [|done]. destruct (Hb _ _ Eb) as (b & Hm & _). congruence. }
    rewrite Hnew in E. case_bool_decide as Hsz; [left; eapply Hserves; [|eexists; exact E]; done|]. right.
    cbn in E. simplify_eq. split; [done|]. unfold vault_weight. rewrite Ep. cbn. rewrite sum_list_with_app. cbn.
    rewrite request_weight_fits. unfold request_weight at 2. rewrite bool_decide_false by done. lia.
  - destruct He as (_ & Hsrv). destruct (Hb _ _ Hsrv) as (b & Hm & _). cbn [being_destroyed assign] in E. rewrite Hal in E.
    unfold checked_buffer_from_map, free_buffer in E. cbn [v_map map_lost assign buffers v_size] in E. rewrite Hl, lookup_alter_eq, Hm in E.
    cbn [fmap option_fmap option_map cb_size assign] in E. rewrite Hsrv in E.
    case_match; [|left; eapply Hserves; [|eexists; exact E]; done]. right.
    pose proof (size_delete_known (buffers (vault w)) id ltac:(eauto)) as Hdel.
    assert (Hall' : forall x ox, delete id (buffers (vault w)) !! x = Some ox -> ox = Server) by (intros x ox [_ Hx]%lookup_delete_Some; eauto).
    cbn in E. destruct (needed_buffer_count (vault w) <? current_buffer_count (vault w)); cbn in E; rewrite Hl in E; cbn in E; simplify_eq; (split; [done|]); unfold vault_weight; cbn; rewrite sum_list_with_app; cbn;
      rewrite ?request_weight_fits; lia.
Qed.

(** C6: A client that waits for a buffer while it has none in hand is served: whatever the order in which the
    server answers the requests of the vault and gives its buffers back, even if some of them have a size that
    the stream no longer has or are more than it needs, the oldest promise is fulfilled with a buffer that is
    then the client's. *)
Theorem vault_liveness map size n h p ps :
  (0 < n)%nat -> rtc (vault_moves any_op) (vault_start map size n) h ->
  disconnected_ (vault (h_world h)) = false -> promises (vault (h_world h)) = p :: ps ->
  in_hands (buffers (vault (h_world h))) = ∅ ->
  eventually (vault_moves answers) (served p) h.
Proof.
  intros Hn Hr Hcon Hp Hnone. pose proof (vault_reached_ok map size n h Hn Hr) as Hok.
  apply (eventually_measure _ (served p) (fun h => waits_for p (h_world h)) (fun h => vault_weight (h_world h))).
  - intros h1. apply answer_exists.
  - intros h1 h2 Hw [op w' c o Ha He E]. destruct (answer_progress p _ op w' c o Hw Ha He E) as [(id & Hf & Hid)|[Hw' Hlt]].
    + left. exists id. split; [apply elem_of_app; by right|done].
    + by right.
  - split; [done|]. split; [done|]. split; [by rewrite Hp|]. intros id o Ho. destruct o; [done| | |]; exfalso.
    + destruct Hok as [_ _ _ _ Hw _]. apply (Hw ltac:(by rewrite Hp) id Ho).
    + apply (not_elem_of_empty (C := gset Z) id). rewrite <-Hnone. apply elem_of_in_hands. eauto.
    + apply (not_elem_of_empty (C := gset Z) id). rewrite <-Hnone. apply elem_of_in_hands. eauto.
Qed.

(** ** Examples *)
Definition vault_after (h : VaultHistory) (op : VaultOp) : VaultHistory :=
  let '(w', calls, _) := vault_step (h_world h) op in mkVaultHistory w' (h_calls h ++ calls).

Lemma vault_after_moves allowed h op :
  allowed op -> vault_enabled (h_world h) op -> vault_moves allowed h (vault_after h op).
Proof.
  intros Ha He. unfold vault_after. destruct (vault_step (h_world h) op) as [[w' c] o] eqn:E. by apply (vault_move allowed h op w' c o).
Qed.

Definition example_start : VaultHistory := vault_start ∅ (mkSize 64 64) 1.
(** A stream that was resized while the server prepared its buffer. *)
Definition example_waiting : VaultHistory := vault_after (vault_after example_start (OpResize (mkSize 32 32))) OpWithdraw.
(** A buffer on its way through the client. *)
Definition example_round : VaultHistory :=
  foldl vault_after example_start [OpAllocated 7; OpWithdraw; OpDeposit 7; OpOutbound 7 0; OpWithdraw; OpReturned 7].

Lemma example_waiting_reached : rtc (vault_moves any_op) (vault_start ∅ (mkSize 64 64) 1) example_waiting.
Proof. eapply rtc_l; [by apply (vault_after_moves any_op _ (OpResize (mkSize 32 32)))|]. apply rtc_once. by apply (vault_after_moves any_op _ OpWithdraw). Qed.

Lemma example_round_reached : rtc (vault_moves any_op) (vault_start ∅ (mkSize 64 64) 1) example_round.
Proof.
  unfold example_round. cbn [foldl].
  repeat (eapply rtc_r; [|apply vault_after_moves; [done|vm_compute; by split_and?]]). apply rtc_refl.
Qed.

Lemma vault_accounting_witness :
  vault_ok (h_world example_waiting) /\
  snd (vault_step (h_world example_waiting) (OpAllocated 7)) = Ret tt /\
  snd (vault_step (lose_map (h_world example_waiting)) (OpAllocated 7)) = Throw resources_lost.
Proof.
  exact (vault_accounting ∅ (mkSize 64 64) 1 example_waiting (OpAllocated 7) ltac:(lia) example_waiting_reached
           ltac:(vm_compute; by split_and?)).
Defined.

Lemma vault_ownership_witness :
  uses ∅ (h_calls example_round) = Some (in_hands (buffers (vault (h_world example_round)))) /\
  exists k, 0 <= k <= next_promise (vault (h_world example_round)) /\ omap fulfilled (h_calls example_round) = seqZ 0 k /\
    (disconnected_ (vault (h_world example_round)) = false ->
     promises (vault (h_world example_round)) = seqZ k (next_promise (vault (h_world example_round)) - k)).
Proof. exact (vault_ownership ∅ (mkSize 64 64) 1 example_round ltac:(lia) example_round_reached). Defined.

Lemma vault_liveness_witness : eventually (vault_moves answers) (served 0) example_waiting.
Proof.
  exact (vault_liveness ∅ (mkSize 64 64) 1 example_waiting 0 [] ltac:(lia) example_waiting_reached
           ltac:(vm_compute; reflexivity) ltac:(vm_compute; reflexivity) ltac:(vm_compute; reflexivity)).
Defined.

Example example_round_calls :
  h_calls example_round =
    [allocate_buffer (mkSize 64 64); fulfil 0 7; submit_to_server 7; fulfil 1 7; run_callback 0].
Proof. vm_compute. reflexivity. Qed.
