(* ===== verification/PromptSessions.v ===== *)
(** * Prompt sessions

    A prompt session lets a helper show prompts of providers on behalf of an
    application: the participants of all prompt sessions
    ([src/server/scene/prompt_session_container.cpp]), the states of one
    prompt session ([src/server/scene/prompt_session_impl.cpp]) and the
    manager of both ([src/server/scene/prompt_session_manager_impl.cpp]),
    refined to a map from prompt sessions to their participants. *)
From S2P Require Import Prelude.

(** ** Data *)
Inductive ParticipantType := helper | application | prompt_provider.
#[export] Instance ParticipantType_eq_dec : EqDecision ParticipantType.
Proof. solve_decision. Defined.

Inductive MirPromptSessionState :=
  mir_prompt_session_state_stopped | mir_prompt_session_state_started | mir_prompt_session_state_suspended.
#[export] Instance MirPromptSessionState_eq_dec : EqDecision MirPromptSessionState.
Proof. solve_decision. Defined.

(** Sessions and prompt sessions are known by their addresses. *)
Record Participant := mkParticipant { pt_prompt : Z; pt_session : Z; pt_type : ParticipantType; insert_order : Z }.
#[export] Instance Participant_eq_dec : EqDecision Participant.
Proof. solve_decision. Defined.

(** [participant_map] is the multi-index container in the order of its first
    index; [live] are the sessions that exist, whose weak pointers can be
    locked; [prompt_states] are the states of the prompt sessions ever made. *)
Record PromptManager := mkPromptManager {
  prompt_sessions : gset Z;
  participant_map : list Participant;
  insertion_order : Z;
  prompt_states : gmap Z MirPromptSessionState;
  live : gset Z
}.
#[export] Instance PromptManager_eta : EtaExpansion PromptManager := fun m =>
  mkPromptManager (prompt_sessions m) (participant_map m) (insertion_order m) (prompt_states m) (live m).

(** What the helper and the listener are told. *)
Inductive PromptCall :=
| start_prompt (session prompt : Z)
| stop_prompt (session prompt : Z)
| suspend_prompt (session prompt : Z)
| resume_prompt (session prompt : Z)
| starting (prompt : Z)
| stopping (prompt : Z)
| suspending (prompt : Z)
| resuming (prompt : Z)
| prompt_provider_added (prompt session : Z)
| prompt_provider_removed (prompt session : Z).

Definition PResult (A : Type) : Type := PromptManager * list PromptCall * outcome A.

(** ** The container *)
(** The first index: by prompt session, then by the order of insertion. *)
Definition index_after (a b : Participant) : bool :=
  (pt_prompt b <? pt_prompt a) || ((pt_prompt a =? pt_prompt b) && (insert_order b <? insert_order a)).

(** An ordered index that is not unique takes an element at its upper bound. *)
Fixpoint index_insert (x : Participant) (l : list Participant) : list Participant :=
  match l with
  | [] => [x]
  | y :: rest => if index_after y x then x :: l else y :: index_insert x rest
  end.

(** The second index is unique. *)
Definition same_participant (a b : Participant) : Prop :=
  pt_session a = pt_session b /\ pt_type a = pt_type b /\ pt_prompt a = pt_prompt b.
#[export] Instance same_participant_dec a b : Decision (same_participant a b).
Proof. apply _. Defined.

Definition insert_prompt_session (m : PromptManager) (p : Z) : PromptManager :=
  m <| prompt_sessions := {[p]} ∪ prompt_sessions m |>.

Definition remove_prompt_session (m : PromptManager) (p : Z) : PromptManager :=
  m <| participant_map := filter (fun x => pt_prompt x <> p) (participant_map m) |>
    <| prompt_sessions := prompt_sessions m ∖ {[p]} |>.

Definition insert_participant (m : PromptManager) (p s : Z) (t : ParticipantType) : PromptManager * outcome bool :=
  if bool_decide (p ∈ prompt_sessions m) then
    if bool_decide (s ∈ live m) then
      let x := mkParticipant p s t (insertion_order m) in
      let m1 := m <| insertion_order := to_uint32 (insertion_order m + 1) |> in
      if bool_decide (Exists (same_participant x) (participant_map m)) then (m1, Ret false)
      else (m1 <| participant_map := index_insert x (participant_map m) |>, Ret true)
    else (m, Ret false)
  else (m, Throw (runtime_error "Prompt Session does not exist")).

Definition remove_participant (m : PromptManager) (p s : Z) (t : ParticipantType) : PromptManager * bool :=
  let x := mkParticipant p s t 0 in
  if bool_decide (Exists (same_participant x) (participant_map m)) then
    (m <| participant_map := filter (fun y => ~ same_participant x y) (participant_map m) |>, true)
  else (m, false).

(** The participants of a prompt session, in the order of the first index. *)
Definition participants_of (m : PromptManager) (p : Z) : list (Z * ParticipantType) :=
  (fun x => (pt_session x, pt_type x)) <$> filter (fun x => pt_prompt x = p) (participant_map m).

(** The order of the second index among the participants of one session. *)
Definition type_rank (t : ParticipantType) : Z := match t with helper => 0 | application => 1 | prompt_provider => 2 end.
Definition role_le (a b : ParticipantType * Z) : Prop :=
  type_rank a.1 < type_rank b.1 \/ (type_rank a.1 = type_rank b.1 /\ a.2 <= b.2).
#[export] Instance role_le_dec a b : Decision (role_le a b).
Proof. apply _. Defined.

Definition roles_of (m : PromptManager) (s : Z) : list (ParticipantType * Z) :=
  filter (fun r => r.2 ∈ prompt_sessions m)
    (merge_sort role_le ((fun x => (pt_type x, pt_prompt x)) <$> filter (fun x => pt_session x = s) (participant_map m))).

(** ** One prompt session *)
Definition prompt_state (m : PromptManager) (p : Z) : MirPromptSessionState :=
  default mir_prompt_session_state_stopped (prompt_states m !! p).

Definition set_prompt_state (m : PromptManager) (p : Z) (st : MirPromptSessionState) : PromptManager :=
  m <| prompt_states := <[p := st]> (prompt_states m) |>.

(** [if (helper_session) helper_session->...] *)
Definition tell (helper_session : option Z) (call : Z -> PromptCall) : list PromptCall :=
  match helper_session with Some s => [call s] | None => [] end.

Definition prompt_start (m : PromptManager) (p : Z) (helper_session : option Z) : PromptManager * list PromptCall :=
  if bool_decide (prompt_state m p = mir_prompt_session_state_stopped) then
    (set_prompt_state m p mir_prompt_session_state_started, tell helper_session (fun s => start_prompt s p))
  else (m, []).

Definition prompt_stop (m : PromptManager) (p : Z) (helper_session : option Z) : PromptManager * list PromptCall :=
  if bool_decide (prompt_state m p <> mir_prompt_session_state_stopped) then
    (set_prompt_state m p mir_prompt_session_state_stopped, tell helper_session (fun s => stop_prompt s p))
  else (m, []).

Definition prompt_suspend (m : PromptManager) (p : Z) (helper_session : option Z) : PromptManager * list PromptCall :=
  if bool_decide (prompt_state m p = mir_prompt_session_state_started) then
    (set_prompt_state m p mir_prompt_session_state_suspended, tell helper_session (fun s => suspend_prompt s p))
  else (m, []).

Definition prompt_resume (m : PromptManager) (p : Z) (helper_session : option Z) : PromptManager * list PromptCall :=
  if bool_decide (prompt_state m p = mir_prompt_session_state_suspended) then
    (set_prompt_state m p mir_prompt_session_state_started, tell helper_session (fun s => resume_prompt s p))
  else (m, []).

(** ** The manager *)
Definition lock (m : PromptManager) (s : Z) : option Z := if bool_decide (s ∈ live m) then Some s else None.

(** The last participant of a type that [f] sees. *)
Definition last_of_type (m : PromptManager) (p : Z) (t : ParticipantType) : option Z :=
  foldl (fun acc x => if bool_decide (x.2 = t) then lock m x.1 else acc) None (participants_of m p).
Definition application_for (m : PromptManager) (p : Z) : option Z := last_of_type m p application.
Definition helper_for (m : PromptManager) (p : Z) : option Z := last_of_type m p helper.
Definition providers_in (m : PromptManager) (p : Z) : list Z :=
  omap (fun x => if bool_decide (x.2 = prompt_provider) then lock m x.1 else None) (participants_of m p).

Fixpoint remove_providers (m : PromptManager) (p : Z) (participants : list Z) : PromptManager * list PromptCall :=
  match participants with
  | [] => (m, [])
  | s :: rest =>
      let '(m1, removed) := remove_participant m p s prompt_provider in
      let '(m2, calls) := remove_providers m1 p rest in
      (m2, (if removed then [prompt_provider_removed p s] else []) ++ calls)
  end.

Definition stop_prompt_session (m : PromptManager) (p : Z) : PromptManager * list PromptCall :=
  let '(m1, c1) := remove_providers m p (providers_in m p) in
  let '(m2, c2) := prompt_stop m1 p (helper_for m1 p) in
  (remove_prompt_session m2 p, c1 ++ c2 ++ [stopping p]).

Fixpoint leave_all (m : PromptManager) (s : Z) (roles : list (ParticipantType * Z)) : PromptManager * list PromptCall :=
  match roles with
  | [] => (m, [])
  | (t, p) :: rest =>
      let '(m1, c1) :=
        if bool_decide (t = helper) then stop_prompt_session m p
        else
          let '(m1, removed) := remove_participant m p s t in
          (m1, if removed && bool_decide (t = prompt_provider) then [prompt_provider_removed p s] else []) in
      let '(m2, c2) := leave_all m1 s rest in
      (m2, c1 ++ c2)
  end.

Definition prompt_remove_session (m : PromptManager) (s : Z) : PromptManager * list PromptCall :=
  leave_all m s (roles_of m s).

Definition suspend_prompt_session (m : PromptManager) (p : Z) : PromptManager * list PromptCall :=
  let '(m1, c) := prompt_suspend m p (helper_for m p) in (m1, c ++ [suspending p]).

Definition resume_prompt_session (m : PromptManager) (p : Z) : PromptManager * list PromptCall :=
  let '(m1, c) := prompt_resume m p (helper_for m p) in (m1, c ++ [resuming p]).

(** The loop over the connected sessions keeps the last one with the
    process id. *)
Definition application_session (process_id : Z -> Z) (apps : list Z) (pid : Z) : option Z :=
  foldl (fun acc s => if process_id s =? pid then Some s else acc) None apps.

(** [p] is the address of the new prompt session. *)
Definition start_prompt_session_for (process_id : Z -> Z) (apps : list Z) (m : PromptManager) (p s pid : Z) : PResult Z :=
  match application_session process_id apps pid with
  | None => (m, [], Throw (runtime_error "Could not identify application session"))
  | Some app =>
      match insert_participant (insert_prompt_session m p) p s helper with
      | (m1, Throw e) => (m1, [], Throw e)
      | (m1, Ret false) => (m1, [], Throw (runtime_error "Could not set prompt session helper"))
      | (m1, Ret true) =>
          let '(m2, c) := prompt_start m1 p (Some s) in
          match insert_participant m2 p app application with
          | (m3, Throw e) => (m3, c ++ [starting p], Throw e)
          | (m3, Ret _) => (m3, c ++ [starting p], Ret p)
          end
      end
  end.

Definition add_prompt_provider (m : PromptManager) (p s : Z) : PResult unit :=
  match insert_participant m p s prompt_provider with
  | (m1, Throw e) => (m1, [], Throw e)
  | (m1, Ret true) => (m1, [prompt_provider_added p s], Ret tt)
  | (m1, Ret false) => (m1, [], Ret tt)
  end.

(** ** The order of the container *)
Definition before (a b : Participant) : Prop :=
  pt_prompt a < pt_prompt b \/ (pt_prompt a = pt_prompt b /\ insert_order a < insert_order b).

Lemma index_after_iff a b : index_after a b = true <-> before b a.
Proof. unfold index_after, before. rewrite orb_true_iff, andb_true_iff, !Z.ltb_lt, Z.eqb_eq. intuition. Qed.

Lemma elem_of_index_insert x y l : y ∈ index_insert x l <-> y = x \/ y ∈ l.
Proof. induction l as [|z l IH]; cbn; [set_solver|]. destruct (index_after z x); set_solver. Qed.

Lemma index_insert_Permutation x l : index_insert x l ≡ₚ x :: l.
Proof. induction l as [|y l IH]; cbn; [done|]. destruct (index_after y x); [done|]. rewrite IH. apply Permutation_swap. Qed.

Lemma index_insert_sorted x l :
  StronglySorted before l -> (forall y, y ∈ l -> pt_prompt y = pt_prompt x -> insert_order y < insert_order x) ->
  StronglySorted before (index_insert x l).
Proof.
  induction 1 as [|y l Hs IH Hall]; intros Hnew; cbn; [repeat constructor|].
  destruct (index_after y x) eqn:E.
  - apply index_after_iff in E. constructor; [by constructor|]. constructor; [done|].
    eapply Forall_impl; [exact Hall|]. unfold before in *. cbn. intros z Hz. lia.
  - constructor; [apply IH; intros z Hz; apply Hnew; set_solver|]. apply Forall_forall. intros z.
    rewrite elem_of_index_insert. intros [->|Hz]; [|by eapply Forall_forall in Hall].
    specialize (Hnew y ltac:(set_solver)). assert (~ before x y) as Hn by (rewrite <-index_after_iff, E; done).
    unfold before in *. lia.
Qed.

(** A new participant comes last in its prompt session. *)
Lemma filter_index_insert p x l :
  StronglySorted before l -> (forall y, y ∈ l -> pt_prompt y = pt_prompt x -> insert_order y < insert_order x) ->
  filter (fun y => pt_prompt y = p) (index_insert x l) =
  filter (fun y => pt_prompt y = p) l ++ if decide (pt_prompt x = p) then [x] else [].
Proof.
  induction 1 as [|y l Hs IH Hall]; intros Hnew; cbn [index_insert].
  { rewrite filter_cons. by destruct (decide (pt_prompt x = p)). }
  destruct (index_after y x) eqn:E.
  - apply index_after_iff in E. rewrite (filter_cons _ x). destruct (decide (pt_prompt x = p)) as [<-|Hne]; [|by rewrite app_nil_r].
    rewrite (filter_none (fun z => pt_prompt z = pt_prompt x) (y :: l)); [done|].
    intros z Hz Hp. specialize (Hnew z Hz Hp). apply elem_of_cons in Hz as [->|Hz].
    + unfold before in E. lia.
    + eapply Forall_forall in Hall; [|exact Hz]. unfold before in *. lia.
  - rewrite !(filter_cons _ y), IH by (intros z Hz; apply Hnew; set_solver). by destruct (decide (pt_prompt y = p)).
Qed.

Lemma StronglySorted_filtered {A} (R : A -> A -> Prop) (P : A -> Prop) `{!forall x, Decision (P x)} (l : list A) :
  StronglySorted R l -> StronglySorted R (filter P l).
Proof.
  induction 1 as [|x l Hs IH Hall]; [constructor|]. rewrite filter_cons. case_decide; [|done]. constructor; [done|].
  apply Forall_forall. intros y Hy. apply list_elem_of_filter in Hy as [_ Hy]. by eapply Forall_forall in Hall.
Qed.

(** ** The abstract manager

    What a prompt session is: its helper, the application it is for, its
    providers in the order in which they came. *)
Record Prompt := mkPrompt { pr_helper : Z; pr_application : option Z; pr_providers : list Z; pr_suspended : bool }.
#[export] Instance Prompt_eta : EtaExpansion Prompt := fun r =>
  mkPrompt (pr_helper r) (pr_application r) (pr_providers r) (pr_suspended r).
Abbreviation Prompts := (gmap Z Prompt).

Definition listed (r : Prompt) : list (Z * ParticipantType) :=
  (pr_helper r, helper) :: (match pr_application r with Some a => [(a, application)] | None => [] end) ++
  ((fun s => (s, prompt_provider)) <$> pr_providers r).

Definition stop_calls (p : Z) (r : Prompt) : list PromptCall :=
  (prompt_provider_removed p <$> pr_providers r) ++ [stop_prompt (pr_helper r) p; stopping p].

Definition spec_stop (ps : Prompts) (p : Z) : Prompts * list PromptCall :=
  match ps !! p with Some r => (delete p ps, stop_calls p r) | None => (ps, [stopping p]) end.

Definition spec_suspend (ps : Prompts) (p : Z) : Prompts * list PromptCall :=
  match ps !! p with
  | Some r =>
      if pr_suspended r then (ps, [suspending p])
      else (<[p := r <| pr_suspended := true |>]> ps, [suspend_prompt (pr_helper r) p; suspending p])
  | None => (ps, [suspending p])
  end.

Definition spec_resume (ps : Prompts) (p : Z) : Prompts * list PromptCall :=
  match ps !! p with
  | Some r =>
      if pr_suspended r then (<[p := r <| pr_suspended := false |>]> ps, [resume_prompt (pr_helper r) p; resuming p])
      else (ps, [resuming p])
  | None => (ps, [resuming p])
  end.

Definition spec_add_provider (ps : Prompts) (p s : Z) : Prompts * list PromptCall * outcome unit :=
  match ps !! p with
  | Some r =>
      if bool_decide (s ∈ pr_providers r) then (ps, [], Ret tt)
      else (<[p := r <| pr_providers := pr_providers r ++ [s] |>]> ps, [prompt_provider_added p s], Ret tt)
  | None => (ps, [], Throw (runtime_error "Prompt Session does not exist"))
  end.

(** A session that leaves ends the prompt sessions it helps and leaves the
    others. *)
Definition leave (s : Z) (r : Prompt) : Prompt :=
  r <| pr_application := if bool_decide (pr_application r = Some s) then None else pr_application r |>
    <| pr_providers := filter (fun x => x <> s) (pr_providers r) |>.

Definition ordered_prompts (ps : Prompts) (P : Prompt -> bool) : list Z :=
  merge_sort Z.le (elements (dom (filter (fun kv : Z * Prompt => P kv.2 = true) ps))).

Definition helps (s : Z) (r : Prompt) : bool := pr_helper r =? s.
Definition provides (s : Z) (r : Prompt) : bool := bool_decide (s ∈ pr_providers r).

Definition spec_remove_session (ps : Prompts) (s : Z) : Prompts * list PromptCall :=
  (leave s <$> filter (fun kv : Z * Prompt => helps s kv.2 = false) ps,
   mjoin ((fun p => match ps !! p with Some r => stop_calls p r | None => [] end) <$> ordered_prompts ps (helps s)) ++
   ((fun p => prompt_provider_removed p s) <$> ordered_prompts ps (fun r => negb (helps s r) && provides s r))).

(** ** The manager implements the abstract one *)
Definition key (x : Participant) : ParticipantType * Z * Z := (pt_type x, pt_prompt x, pt_session x).

Lemma NoDup_key_filter (Q : Participant -> Prop) `{!forall x, Decision (Q x)} (l : list Participant) :
  NoDup (key <$> l) -> NoDup (key <$> filter Q l).
Proof. intros Hn. eapply sublist_NoDup; [exact Hn|]. apply fmap_sublist, sublist_filter. Qed.

Record implements (m : PromptManager) (ps : Prompts) : Prop := {
  imp_dom : prompt_sessions m = dom ps;
  imp_listed : forall p, participants_of m p = match ps !! p with Some r => listed r | None => [] end;
  imp_state : forall p, prompt_state m p =
    match ps !! p with
    | Some r => if pr_suspended r then mir_prompt_session_state_suspended else mir_prompt_session_state_started
    | None => mir_prompt_session_state_stopped
    end;
  imp_live : forall x, x ∈ participant_map m -> pt_session x ∈ live m;
  imp_sorted : StronglySorted before (participant_map m);
  imp_order : forall x, x ∈ participant_map m -> insert_order x < insertion_order m;
  imp_unique : NoDup (key <$> participant_map m);
  imp_providers : forall p r, ps !! p = Some r -> NoDup (pr_providers r)
}.

Lemma elem_of_participants_of m p s t :
  (s, t) ∈ participants_of m p <-> exists x, x ∈ participant_map m /\ pt_prompt x = p /\ pt_session x = s /\ pt_type x = t.
Proof.
  unfold participants_of. rewrite list_elem_of_fmap. split.
  - intros (x & [= -> ->] & Hx). apply list_elem_of_filter in Hx as [Hp Hx]. eauto.
  - intros (x & Hx & Hp & <- & <-). exists x. split; [done|]. by apply list_elem_of_filter.
Qed.

Lemma exists_same m p s t o :
  Exists (same_participant (mkParticipant p s t o)) (participant_map m) <-> (s, t) ∈ participants_of m p.
Proof.
  rewrite elem_of_participants_of, Exists_exists. unfold same_participant. cbn. split; intros (x & Hx & H); exists x; intuition congruence.
Qed.

Lemma elem_of_listed r s t :
  (s, t) ∈ listed r <->
  match t with helper => s = pr_helper r | application => pr_application r = Some s | prompt_provider => s ∈ pr_providers r end.
Proof.
  unfold listed. rewrite elem_of_cons, elem_of_app, list_elem_of_fmap. destruct t, (pr_application r); set_solver.
Qed.

(** All that matters of a step of the container for [implements]. *)
Lemma implements_lock m ps p s t :
  implements m ps -> (s, t) ∈ participants_of m p -> lock m s = Some s.
Proof.
  intros Him (x & Hx & _ & <- & _)%elem_of_participants_of. unfold lock. by rewrite bool_decide_true by by apply Him.
Qed.

Lemma last_of_type_foldl m (l : list (Z * ParticipantType)) t acc :
  (forall x, x ∈ l -> x.2 <> t) ->
  foldl (fun acc x => if bool_decide (x.2 = t) then lock m x.1 else acc) acc l = acc.
Proof.
  revert acc. induction l as [|x l IH]; intros acc Hl; [done|]. cbn. rewrite bool_decide_false by (apply Hl; set_solver).
  apply IH. set_solver.
Qed.

Lemma helper_of_listed m (l : list (Z * ParticipantType)) h :
  lock m h = Some h -> (forall x, x ∈ l -> x.2 <> helper) ->
  foldl (fun acc x => if bool_decide (x.2 = helper) then lock m x.1 else acc) None ((h, helper) :: l) = Some h.
Proof. intros Hl Hn. cbn [foldl]. rewrite bool_decide_true by done. cbn. rewrite last_of_type_foldl by done. done. Qed.

Lemma tail_not_helper (a : option Z) (l : list Z) x :
  x ∈ (match a with Some a => [(a, application)] | None => [] end) ++ ((fun s => (s, prompt_provider)) <$> l) -> x.2 <> helper.
Proof. destruct a; set_solver. Qed.

Lemma implements_helper m ps p : implements m ps -> helper_for m p = pr_helper <$> ps !! p.
Proof.
  intros Him. unfold helper_for, last_of_type. rewrite (imp_listed _ _ Him). destruct (ps !! p) as [r|] eqn:E; [|done].
  apply helper_of_listed; [|apply tail_not_helper].
  apply (implements_lock m ps p _ helper Him). rewrite (imp_listed _ _ Him), E. by apply elem_of_listed.
Qed.

Lemma implements_application m ps p : implements m ps -> application_for m p = ps !! p ≫= pr_application.
Proof.
  intros Him. unfold application_for, last_of_type. rewrite (imp_listed _ _ Him). destruct (ps !! p) as [r|] eqn:E; [|done].
  unfold listed. cbn. destruct (pr_application r) as [a|] eqn:Ea; cbn.
  - rewrite last_of_type_foldl by set_solver. apply (implements_lock m ps p _ application Him).
    rewrite (imp_listed _ _ Him), E. by apply elem_of_listed.
  - apply last_of_type_foldl. set_solver.
Qed.

Lemma implements_providers m ps p : implements m ps -> providers_in m p = match ps !! p with Some r => pr_providers r | None => [] end.
Proof.
  intros Him. unfold providers_in. rewrite (imp_listed _ _ Him). destruct (ps !! p) as [r|] eqn:E; [|done].
  change (listed r) with ([(pr_helper r, helper)] ++ (match pr_application r with Some a => [(a, application)] | None => [] end) ++
    ((fun s => (s, prompt_provider)) <$> pr_providers r)). rewrite !omap_app.
  assert (omap (fun x : Z * ParticipantType => if bool_decide (x.2 = prompt_provider) then lock m x.1 else None)
            (match pr_application r with Some a => [(a, application)] | None => [] end) = []) as ->.
  { destruct (pr_application r); [|done]. cbn. by rewrite bool_decide_false. }
  cbn [omap list_omap fst snd]. rewrite bool_decide_false by done.
  cbn [app]. assert (Hl : forall s, s ∈ pr_providers r -> lock m s = Some s).
  { intros s Hs. apply (implements_lock m ps p _ prompt_provider Him). rewrite (imp_listed _ _ Him), E. by apply elem_of_listed. }
  clear E. induction (pr_providers r) as [|s l IH]; [done|]. cbn. rewrite (Hl s) by set_solver. f_equal. apply IH. set_solver.
Qed.

(** *** Participants leave *)
Definition outside (m : PromptManager) : gset Z * Z := (live m, insertion_order m).

Lemma implements_fewer m m' ps ps' (Q : Participant -> Prop) `{!forall x, Decision (Q x)} :
  implements m ps -> participant_map m' = filter Q (participant_map m) -> live m' = live m -> insertion_order m' = insertion_order m ->
  prompt_sessions m' = dom ps' ->
  (forall p, participants_of m' p = match ps' !! p with Some r => listed r | None => [] end) ->
  (forall p, prompt_state m' p =
    match ps' !! p with
    | Some r => if pr_suspended r then mir_prompt_session_state_suspended else mir_prompt_session_state_started
    | None => mir_prompt_session_state_stopped
    end) ->
  (forall p r, ps' !! p = Some r -> NoDup (pr_providers r)) -> implements m' ps'.
Proof.
  intros Him Emap Elive Eord Hdom Hl Hst Hnd. split; [done..| | | | |done]; rewrite Emap.
  - intros x Hx. apply list_elem_of_filter in Hx as [_ Hx]. rewrite Elive. by apply Him.
  - apply StronglySorted_filtered, Him.
  - intros x Hx. apply list_elem_of_filter in Hx as [_ Hx]. rewrite Eord. by apply Him.
  - apply NoDup_key_filter, Him.
Qed.

(** [implements] with the participants of one prompt session replaced. *)
Lemma implements_alter m ps m' p r r' (Q : Participant -> Prop) `{!forall x, Decision (Q x)} :
  implements m ps -> ps !! p = Some r -> participant_map m' = filter Q (participant_map m) -> live m' = live m ->
  insertion_order m' = insertion_order m -> prompt_sessions m' = prompt_sessions m -> prompt_states m' = prompt_states m ->
  (forall q, participants_of m' q = if decide (q = p) then listed r' else participants_of m q) ->
  pr_suspended r' = pr_suspended r -> NoDup (pr_providers r') -> implements m' (<[p := r']> ps).
Proof.
  intros Him Hr Emap Elive Eord Eps Est Hl Hsusp Hnd. eapply (implements_fewer m m' ps); try done.
  - rewrite Eps, (imp_dom _ _ Him), dom_insert_L. symmetry. apply subseteq_union_1_L, singleton_subseteq_l, elem_of_dom. eauto.
  - intros q. rewrite Hl. case_decide as Hq; [subst; by rewrite lookup_insert_eq|]. rewrite lookup_insert_ne by done. apply Him.
  - intros q. unfold prompt_state. rewrite Est. fold (prompt_state m q). rewrite (imp_state _ _ Him).
    destruct (decide (q = p)) as [->|Hq]; [by rewrite lookup_insert_eq, Hr, Hsusp|by rewrite lookup_insert_ne].
  - intros q r0. destruct (decide (q = p)) as [->|Hq]; [rewrite lookup_insert_eq; by intros [= <-]|].
    rewrite lookup_insert_ne by done. apply Him.
Qed.

Lemma participants_of_removed m p s t o q :
  participants_of (m <| participant_map := filter (fun y => ~ same_participant (mkParticipant p s t o) y) (participant_map m) |>) q =
  if decide (q = p) then filter (fun k => k <> (s, t)) (participants_of m q) else participants_of m q.
Proof.
  unfold participants_of. cbn [participant_map assign]. induction (participant_map m) as [|x l IH]; [by destruct (decide (q = p))|].
  rewrite !filter_cons. destruct (decide (q = p)) as [->|Hq].
  - destruct (decide (~ same_participant _ x)) as [Hs|Hs], (decide (pt_prompt x = p)) as [Hp|Hp];
      rewrite ?filter_cons, ?decide_True, ?decide_False by done; cbn [fmap list_fmap]; rewrite ?filter_cons, ?IH; try done.
    + rewrite decide_True; [done|]. intros [= E1 E2]. apply Hs. by unfold same_participant.
    + rewrite decide_False; [done|]. intros Hne. apply Hs. intros (E1 & E2 & _). apply Hne. cbn in *. by rewrite E1, E2.
  - destruct (decide (~ same_participant _ x)) as [Hs|Hs], (decide (pt_prompt x = q)) as [Hp|Hp];
      rewrite ?filter_cons, ?decide_True, ?decide_False by done; cbn [fmap list_fmap]; rewrite ?IH; try done.
    exfalso. apply Hs. intros (_ & _ & E). cbn in E. congruence.
Qed.

Lemma filter_map_provider (l : list Z) s :
  filter (fun k => k <> (s, prompt_provider)) ((fun x => (x, prompt_provider)) <$> l) =
  (fun x => (x, prompt_provider)) <$> filter (fun x => x <> s) l.
Proof.
  induction l as [|x l IH]; [done|]. cbn [fmap list_fmap]. rewrite !filter_cons.
  destruct (decide (x = s)) as [->|Hx]; [rewrite !decide_False by naive_solver; exact IH|].
  rewrite !decide_True by naive_solver. cbn. f_equal. exact IH.
Qed.

Lemma listed_without_provider r s :
  filter (fun k => k <> (s, prompt_provider)) (listed r) = listed (r <| pr_providers := filter (fun x => x <> s) (pr_providers r) |>).
Proof.
  unfold listed. rewrite filter_cons_True, filter_app by done. cbn [pr_helper pr_application pr_providers assign].
  rewrite filter_map_provider. do 2 f_equal. destruct (pr_application r); [by rewrite filter_all by set_solver|done].
Qed.

Lemma listed_without_application r s :
  filter (fun k => k <> (s, application)) (listed r) =
  listed (r <| pr_application := if bool_decide (pr_application r = Some s) then None else pr_application r |>).
Proof.
  unfold listed. rewrite filter_cons_True, filter_app by done. cbn [pr_helper pr_application pr_providers assign].
  rewrite (filter_all (fun k => k <> (s, application)) ((fun x => (x, prompt_provider)) <$> pr_providers r)) by set_solver.
  do 2 f_equal. destruct (pr_application r) as [a|]; [|done]. destruct (decide (a = s)) as [->|Hne].
  - rewrite bool_decide_true by done. by rewrite filter_cons_False by naive_solver.
  - rewrite bool_decide_false by naive_solver. by rewrite filter_cons_True by naive_solver.
Qed.

Lemma remove_provider_implements m ps p s r :
  implements m ps -> ps !! p = Some r ->
  exists m', remove_participant m p s prompt_provider = (m', provides s r) /\
    implements m' (<[p := r <| pr_providers := filter (fun x => x <> s) (pr_providers r) |>]> ps) /\ outside m' = outside m.
Proof.
  intros Him Hr. unfold remove_participant, provides.
  rewrite (bool_decide_ext _ (s ∈ pr_providers r))
    by (rewrite exists_same, (imp_listed _ _ Him), Hr; apply (elem_of_listed r s prompt_provider)).
  case_bool_decide as Hs; eexists; (split; [done|]).
  - split; [|done]. eapply (implements_alter m ps _ p r); try done.
    + intros q. rewrite participants_of_removed. case_decide; [|done]. subst. rewrite (imp_listed _ _ Him), Hr. apply listed_without_provider.
    + cbn. apply NoDup_filter. by eapply (imp_providers _ _ Him).
  - rewrite filter_all by set_solver. split; [|done]. rewrite insert_id; [done|]. rewrite Hr. by destruct r.
Qed.

Lemma remove_application_implements m ps p s r :
  implements m ps -> ps !! p = Some r ->
  exists m' b, remove_participant m p s application = (m', b) /\
    implements m' (<[p := r <| pr_application := if bool_decide (pr_application r = Some s) then None else pr_application r |>]> ps) /\
    outside m' = outside m.
Proof.
  intros Him Hr. unfold remove_participant.
  rewrite (bool_decide_ext _ (pr_application r = Some s))
    by (rewrite exists_same, (imp_listed _ _ Him), Hr; apply (elem_of_listed r s application)).
  case_bool_decide as Hs; do 2 eexists; (split; [done|]); rewrite ?(bool_decide_true (pr_application r = Some s)), ?(bool_decide_false (pr_application r = Some s)) by done.
  - split; [|done]. eapply (implements_alter m ps _ p r); try done.
    + intros q. rewrite participants_of_removed. case_decide; [|done]. subst. rewrite (imp_listed _ _ Him), Hr.
      rewrite listed_without_application. by rewrite bool_decide_true.
    + cbn. by eapply (imp_providers _ _ Him).
  - split; [|done]. rewrite insert_id; [done|]. rewrite Hr. by destruct r.
Qed.

Lemma remove_absent m ps p s t : implements m ps -> ps !! p = None -> remove_participant m p s t = (m, false).
Proof.
  intros Him Hp. unfold remove_participant. rewrite bool_decide_false; [done|].
  rewrite exists_same, (imp_listed _ _ Him), Hp. apply not_elem_of_nil.
Qed.

Lemma remove_providers_implements m ps p r :
  implements m ps -> ps !! p = Some r ->
  exists m', remove_providers m p (pr_providers r) = (m', prompt_provider_removed p <$> pr_providers r) /\
    implements m' (<[p := r <| pr_providers := [] |>]> ps) /\ outside m' = outside m.
Proof.
  remember (pr_providers r) as l eqn:El. revert m ps r El. induction l as [|s l IH]; intros m ps r El Him Hr; cbn [remove_providers].
  { exists m. split; [done|]. split; [|done]. rewrite insert_id; [done|]. rewrite Hr. destruct r. by cbn in *; subst. }
  destruct (remove_provider_implements m ps p s r Him Hr) as (m1 & -> & Him1 & Hl1).
  pose proof (imp_providers _ _ Him p r Hr) as Hnd. rewrite <-El in Hnd. apply NoDup_cons in Hnd as [Hs _].
  assert (filter (fun x => x <> s) (pr_providers r) = l) as Ef.
  { rewrite <-El. rewrite filter_cons_False by naive_solver. apply filter_all. by intros x Hx ->. }
  rewrite Ef in Him1. destruct (IH m1 _ (r <| pr_providers := l |>) ltac:(by cbn) Him1) as (m2 & -> & Him2 & Hl2); [by rewrite lookup_insert_eq|].
  exists m2. unfold provides. rewrite bool_decide_true by (rewrite <-El; set_solver). split; [done|].
  rewrite insert_insert_eq in Him2. split; [done|by rewrite Hl2].
Qed.

Lemma prompt_state_set m p st q : prompt_state (set_prompt_state m p st) q = if decide (q = p) then st else prompt_state m q.
Proof. unfold prompt_state. cbn. case_decide; [subst; by rewrite lookup_insert_eq|by rewrite lookup_insert_ne]. Qed.

Lemma participants_of_prompt_removed m p q :
  participants_of (remove_prompt_session m p) q = if decide (q = p) then [] else participants_of m q.
Proof.
  unfold participants_of, remove_prompt_session. cbn [participant_map assign].
  destruct (decide (q = p)) as [->|Hq].
  - rewrite filter_none; [done|]. intros x Hx. by apply list_elem_of_filter in Hx as [? _].
  - f_equal. induction (participant_map m) as [|x l IH]; [done|]. rewrite !filter_cons.
    destruct (decide (pt_prompt x <> p)) as [Hp|Hp]; rewrite ?filter_cons, IH; [done|].
    apply dec_stable in Hp. by destruct (decide (pt_prompt x = q)); [congruence|].
Qed.

Lemma stop_implements m ps p :
  implements m ps ->
  exists m', stop_prompt_session m p = (m', snd (spec_stop ps p)) /\ implements m' (delete p ps) /\ outside m' = outside m.
Proof.
  intros Him. unfold stop_prompt_session, spec_stop. rewrite (implements_providers m ps p Him).
  destruct (ps !! p) as [r|] eqn:Hr.
  - destruct (remove_providers_implements m ps p r Him Hr) as (m1 & -> & Him1 & Hl1). rewrite (implements_helper m1 _ p Him1), lookup_insert_eq.
    cbn [fmap option_fmap option_map pr_helper assign]. unfold prompt_stop. rewrite (imp_state _ _ Him1), lookup_insert_eq.
    rewrite bool_decide_true by (cbn; by destruct (pr_suspended r)). eexists. split; [done|]. split; [|done].
    eapply (implements_fewer m1 _ _ _ (fun x => pt_prompt x <> p) Him1); try done.
    + cbn. rewrite (imp_dom _ _ Him1), dom_insert_L, dom_delete_L. set_solver.
    + intros q. rewrite participants_of_prompt_removed. case_decide as Hq; [subst; by rewrite lookup_delete_eq|]. rewrite lookup_delete_ne by done.
      pose proof (imp_listed _ _ Him1 q) as H1. by rewrite lookup_insert_ne in H1.
    + intros q. unfold remove_prompt_session, prompt_state at 1. cbn [prompt_states assign]. fold (prompt_state (set_prompt_state m1 p mir_prompt_session_state_stopped) q). rewrite prompt_state_set.
      case_decide as Hq; [subst; by rewrite lookup_delete_eq|]. rewrite lookup_delete_ne by done.
      pose proof (imp_state _ _ Him1 q) as H1. by rewrite lookup_insert_ne in H1.
    + intros q r0 [_ Hq]%lookup_delete_Some. by apply (imp_providers _ _ Him q).
  - unfold prompt_stop. cbn [remove_providers]. rewrite (imp_state _ _ Him), Hr, bool_decide_false by naive_solver.
    eexists. split; [done|]. split; [|done]. rewrite delete_id by done.
    eapply (implements_fewer m _ _ _ (fun x => pt_prompt x <> p) Him); [done..| | |apply (imp_state _ _ Him)|apply (imp_providers _ _ Him)].
    + cbn. rewrite (imp_dom _ _ Him). apply not_elem_of_dom in Hr. set_solver.
    + intros q. rewrite participants_of_prompt_removed. case_decide as Hq; [subst; by rewrite Hr|]. apply Him.
Qed.

Lemma set_state_implements m ps p r st (b : bool) :
  implements m ps -> ps !! p = Some r ->
  st = (if b then mir_prompt_session_state_suspended else mir_prompt_session_state_started) ->
  implements (set_prompt_state m p st) (<[p := r <| pr_suspended := b |>]> ps).
Proof.
  intros Him Hr ->. split; try apply Him.
  - cbn. rewrite (imp_dom _ _ Him), dom_insert_L. symmetry. apply subseteq_union_1_L, singleton_subseteq_l, elem_of_dom. eauto.
  - intros q. change (participants_of (set_prompt_state m p ?st) q) with (participants_of m q). rewrite (imp_listed _ _ Him).
    destruct (decide (q = p)) as [->|Hq]; [rewrite lookup_insert_eq, Hr; reflexivity|by rewrite lookup_insert_ne].
  - intros q. rewrite prompt_state_set. case_decide as Hq; [subst; by rewrite lookup_insert_eq|]. rewrite lookup_insert_ne by done. apply Him.
  - intros q r0. destruct (decide (q = p)) as [->|Hq]; [rewrite lookup_insert_eq; intros [= <-]; exact (imp_providers _ _ Him p r Hr)|].
    rewrite lookup_insert_ne by done. apply Him.
Qed.

Lemma suspend_implements m ps p :
  implements m ps ->
  exists m', suspend_prompt_session m p = (m', snd (spec_suspend ps p)) /\ implements m' (fst (spec_suspend ps p)) /\ outside m' = outside m.
Proof.
  intros Him. unfold suspend_prompt_session, spec_suspend, prompt_suspend. rewrite (implements_helper m ps p Him), (imp_state _ _ Him).
  destruct (ps !! p) as [r|] eqn:Hr; [|rewrite bool_decide_false by done; by eexists].
  destruct (pr_suspended r); [rewrite bool_decide_false by done; by eexists|]. rewrite bool_decide_true by done.
  eexists. split; [done|]. split; [|done]. by apply set_state_implements.
Qed.

Lemma resume_implements m ps p :
  implements m ps ->
  exists m', resume_prompt_session m p = (m', snd (spec_resume ps p)) /\ implements m' (fst (spec_resume ps p)) /\ outside m' = outside m.
Proof.
  intros Him. unfold resume_prompt_session, spec_resume, prompt_resume. rewrite (implements_helper m ps p Him), (imp_state _ _ Him).
  destruct (ps !! p) as [r|] eqn:Hr; [|rewrite bool_decide_false by done; by eexists].
  destruct (pr_suspended r); [|rewrite bool_decide_false by done; by eexists]. rewrite bool_decide_true by done.
  eexists. split; [done|]. split; [|done]. by apply set_state_implements.
Qed.

(** *** Participants come *)
Record container_ok (m : PromptManager) : Prop := {
  cont_live : forall x, x ∈ participant_map m -> pt_session x ∈ live m;
  cont_sorted : StronglySorted before (participant_map m);
  cont_order : forall x, x ∈ participant_map m -> insert_order x < insertion_order m;
  cont_unique : NoDup (key <$> participant_map m)
}.

Lemma insert_new m p s t :
  container_ok m -> p ∈ prompt_sessions m -> s ∈ live m -> (s, t) ∉ participants_of m p -> 0 <= insertion_order m < 2 ^ 32 - 1 ->
  exists l, insert_participant m p s t = (m <| insertion_order := insertion_order m + 1 |> <| participant_map := l |>, Ret true) /\
    container_ok (m <| insertion_order := insertion_order m + 1 |> <| participant_map := l |>) /\
    forall q, participants_of (m <| insertion_order := insertion_order m + 1 |> <| participant_map := l |>) q =
              participants_of m q ++ if decide (q = p) then [(s, t)] else [].
Proof.
  intros [Hl Hs Ho Hu] Hp Hlive Hnew Hio. set (x := mkParticipant p s t (insertion_order m)). exists (index_insert x (participant_map m)).
  assert (Hx : forall y, y ∈ participant_map m -> pt_prompt y = pt_prompt x -> insert_order y < insert_order x) by (intros y Hy _; by apply Ho).
  split; [|split].
  - unfold insert_participant. rewrite !bool_decide_true by done. rewrite bool_decide_false by by rewrite exists_same.
    unfold to_uint32. by rewrite Z.mod_small by lia.
  - split; cbn.
    + intros y. rewrite elem_of_index_insert. intros [->|Hy]; [done|by apply Hl].
    + by apply index_insert_sorted.
    + intros y. rewrite elem_of_index_insert. intros [->|Hy]; [cbn; lia|]. specialize (Ho y Hy). lia.
    + rewrite index_insert_Permutation. apply NoDup_cons. split; [|done]. intros (y & Ey & Hy)%list_elem_of_fmap.
      apply Hnew, elem_of_participants_of. exists y. unfold key in Ey. cbn in Ey. by simplify_eq.
  - intros q. unfold participants_of. cbn [participant_map assign]. rewrite filter_index_insert by done. rewrite fmap_app. f_equal.
    cbn [pt_prompt x]. destruct (decide (q = p)) as [->|Hq]; [by rewrite decide_True|by rewrite decide_False].
Qed.

Lemma implements_container m ps : implements m ps -> container_ok m.
Proof. intros Him. split; apply Him. Qed.

Lemma add_provider_implements m ps p s :
  implements m ps -> s ∈ live m -> 0 <= insertion_order m < 2 ^ 32 - 1 ->
  exists m', add_prompt_provider m p s = (m', snd (fst (spec_add_provider ps p s)), snd (spec_add_provider ps p s)) /\
    implements m' (fst (fst (spec_add_provider ps p s))) /\ live m' = live m /\
    insertion_order m <= insertion_order m' <= insertion_order m + 1.
Proof.
  intros Him Hlive Hio. unfold add_prompt_provider, spec_add_provider. destruct (ps !! p) as [r|] eqn:Hr.
  - assert (Hin : p ∈ prompt_sessions m) by (rewrite (imp_dom _ _ Him); apply elem_of_dom; eauto).
    assert (Hmem : (s, prompt_provider) ∈ participants_of m p <-> s ∈ pr_providers r)
      by (rewrite (imp_listed _ _ Him), Hr; apply (elem_of_listed r s prompt_provider)).
    case_bool_decide as Hs; cbn [fst snd].
    + unfold insert_participant. rewrite !bool_decide_true by (done || by rewrite exists_same, Hmem). eexists. split; [done|].
      split; [|split; [done|cbn; unfold to_uint32; rewrite Z.mod_small by lia; lia]].
      destruct Him as [H1 H2 H3 H4 H5 H6 H7 H8]. split; try done.
      intros x Hx. cbn. unfold to_uint32. rewrite Z.mod_small by lia. specialize (H6 x Hx). lia.
    + destruct (insert_new m p s prompt_provider (implements_container m ps Him) Hin Hlive) as (l & -> & [Hc1 Hc2 Hc3 Hc4] & Hparts);
        [by rewrite Hmem|done|].
      eexists. split; [done|]. split; [|split; [done|cbn; lia]]. split; try done.
      * cbn. rewrite (imp_dom _ _ Him), dom_insert_L. symmetry. apply subseteq_union_1_L, singleton_subseteq_l, elem_of_dom. eauto.
      * intros q. rewrite Hparts, (imp_listed _ _ Him). case_decide as Hq; [subst|by rewrite app_nil_r, lookup_insert_ne].
        rewrite lookup_insert_eq, Hr. unfold listed. cbn [pr_helper pr_application pr_providers assign].
        by rewrite fmap_app, <-app_comm_cons, <-app_assoc.
      * intros q. change (prompt_state m q = match <[p := r <| pr_providers := pr_providers r ++ [s] |>]> ps !! q with
          | Some r => if pr_suspended r then mir_prompt_session_state_suspended else mir_prompt_session_state_started
          | None => mir_prompt_session_state_stopped end). rewrite (imp_state _ _ Him).
        destruct (decide (q = p)) as [->|Hq]; [rewrite lookup_insert_eq, Hr; reflexivity|by rewrite lookup_insert_ne].
      * intros q r0. destruct (decide (q = p)) as [->|Hq]; [rewrite lookup_insert_eq; intros [= <-]|rewrite lookup_insert_ne by done; apply Him].
        cbn. apply NoDup_app. split; [exact (imp_providers _ _ Him p r Hr)|]. split; [set_solver|apply NoDup_singleton].
  - unfold insert_participant. rewrite bool_decide_false by (rewrite (imp_dom _ _ Him); by apply not_elem_of_dom).
    eexists. split; [done|]. split; [done|]. split; [done|lia].
Qed.

Definition spec_start (process_id : Z -> Z) (apps : list Z) (ps : Prompts) (p s pid : Z) : Prompts * list PromptCall * outcome Z :=
  match application_session process_id apps pid with
  | Some app => (<[p := mkPrompt s (Some app) [] false]> ps, [start_prompt s p; starting p], Ret p)
  | None => (ps, [], Throw (runtime_error "Could not identify application session"))
  end.

Lemma application_session_listed process_id apps pid a : application_session process_id apps pid = Some a -> a ∈ apps.
Proof.
  unfold application_session. assert (forall acc, foldl (fun acc s => if process_id s =? pid then Some s else acc) acc apps = Some a ->
    acc = Some a \/ a ∈ apps) as Hg.
  { induction apps as [|s apps IH]; intros acc; cbn; [by left|]. intros [E|E]%IH; [|set_solver].
    destruct (process_id s =? pid); [injection E as ->; set_solver|by left]. }
  intros [?|?]%Hg; done.
Qed.

Lemma start_implements process_id apps m ps p s pid :
  implements m ps -> p ∉ dom (prompt_states m) -> s ∈ live m -> (forall a, a ∈ apps -> a ∈ live m) -> 0 <= insertion_order m < 2 ^ 32 - 2 ->
  let '(ps', calls, o) := spec_start process_id apps ps p s pid in
  exists m', start_prompt_session_for process_id apps m p s pid = (m', calls, o) /\ implements m' ps' /\ live m' = live m /\
    insertion_order m <= insertion_order m' <= insertion_order m + 2.
Proof.
  intros Him Hfresh Hs Happs Hio. unfold start_prompt_session_for, spec_start.
  destruct (application_session process_id apps pid) as [app|] eqn:Eapp; [|exists m; split; [done|]; split; [done|]; split; [done|lia]].
  apply application_session_listed, Happs in Eapp.
  assert (Hst : prompt_state m p = mir_prompt_session_state_stopped) by (unfold prompt_state; by rewrite (proj1 (not_elem_of_dom _ _) Hfresh)).
  assert (Hp : ps !! p = None).
  { rewrite (imp_state _ _ Him) in Hst. destruct (ps !! p) as [r|]; [by destruct (pr_suspended r)|done]. }
  assert (Hnone : participants_of m p = []) by by rewrite (imp_listed _ _ Him), Hp.
  destruct (insert_new (insert_prompt_session m p) p s helper) as (l1 & -> & Hc1 & Hp1);
    [by destruct (implements_container m ps Him)|cbn; set_solver|done|by (change (participants_of (insert_prompt_session m p) p) with (participants_of m p); rewrite Hnone; apply not_elem_of_nil)|cbn; lia|].
  set (m1 := _ <| participant_map := l1 |>) in *. unfold prompt_start. change (prompt_state m1 p) with (prompt_state m p).
  rewrite bool_decide_true by done. cbn [tell].
  destruct (insert_new (set_prompt_state m1 p mir_prompt_session_state_started) p app application) as (l2 & -> & [Hl2 Hs2 Ho2 Hu2] & Hp2);
    [by destruct Hc1|cbn; set_solver|done| |cbn; lia|].
  { change (participants_of (set_prompt_state m1 p mir_prompt_session_state_started) p) with (participants_of m1 p).
    rewrite Hp1, decide_True by done. change (participants_of (insert_prompt_session m p) p) with (participants_of m p). rewrite Hnone. set_solver. }
  eexists. split; [done|]. split; [|split; [done|cbn; lia]]. split; try done.
  - cbn. by rewrite (imp_dom _ _ Him), dom_insert_L.
  - intros q. rewrite Hp2. change (participants_of (set_prompt_state m1 p mir_prompt_session_state_started) q) with (participants_of m1 q).
    rewrite Hp1. change (participants_of (insert_prompt_session m p) q) with (participants_of m q).
    case_decide as Hq; [subst; by rewrite Hnone, lookup_insert_eq|]. rewrite !app_nil_r, lookup_insert_ne by done. apply Him.
  - intros q. transitivity (prompt_state (set_prompt_state m p mir_prompt_session_state_started) q); [done|]. rewrite prompt_state_set.
    case_decide as Hq; [subst; by rewrite lookup_insert_eq|]. rewrite lookup_insert_ne by done. apply Him.
  - intros q r0. destruct (decide (q = p)) as [->|Hq]; [rewrite lookup_insert_eq; intros [= <-]; constructor|].
    rewrite lookup_insert_ne by done. apply Him.
Qed.

(** *** A session leaves *)
#[export] Instance role_le_trans : Transitive role_le.
Proof. intros a b c. unfold role_le. lia. Qed.
#[export] Instance role_le_total : Total role_le.
Proof. intros a b. unfold role_le. lia. Qed.
#[export] Instance role_le_antisymm : AntiSymm (=) role_le.
Proof.
  intros [t p] [t' p']. unfold role_le. cbn. intros H1 H2. assert (p = p') as -> by lia.
  assert (type_rank t = type_rank t') as E by lia. by destruct t, t'.
Qed.

Lemma elem_of_ordered_prompts ps P p : p ∈ ordered_prompts ps P <-> exists r, ps !! p = Some r /\ P r = true.
Proof.
  unfold ordered_prompts. rewrite merge_sort_Permutation, elem_of_elements, elem_of_dom. split.
  - intros [r Hr]. apply map_lookup_filter_Some in Hr as [? ?]. eauto.
  - intros (r & Hr & HP). exists r. by apply map_lookup_filter_Some.
Qed.

Lemma ordered_prompts_NoDup ps P : NoDup (ordered_prompts ps P).
Proof. unfold ordered_prompts. rewrite merge_sort_Permutation. apply NoDup_elements. Qed.

Lemma ordered_prompts_sorted ps P : StronglySorted Z.le (ordered_prompts ps P).
Proof. apply StronglySorted_merge_sort; apply _. Qed.

Definition applies (s : Z) (r : Prompt) : bool := bool_decide (pr_application r = Some s).

(** The roles of a session in the order of the index. *)
Definition spec_roles (ps : Prompts) (s : Z) : list (ParticipantType * Z) :=
  (pair helper <$> ordered_prompts ps (helps s)) ++ (pair application <$> ordered_prompts ps (applies s)) ++
  (pair prompt_provider <$> ordered_prompts ps (provides s)).

Lemma elem_of_spec_roles ps s t p :
  (t, p) ∈ spec_roles ps s <-> exists r, ps !! p = Some r /\ (s, t) ∈ listed r.
Proof.
  unfold spec_roles. rewrite !elem_of_app, !list_elem_of_fmap. setoid_rewrite elem_of_ordered_prompts. setoid_rewrite elem_of_listed.
  unfold helps, applies, provides. setoid_rewrite bool_decide_eq_true. setoid_rewrite Z.eqb_eq.
  split.
  - intros [(x & [= -> ->] & r & Hr & H)|[(x & [= -> ->] & r & Hr & H)|(x & [= -> ->] & r & Hr & H)]]; eauto.
  - intros (r & Hr & H). destruct t; [left|right; left|right; right]; exists p; eauto.
Qed.

Lemma spec_roles_NoDup ps s : NoDup (spec_roles ps s).
Proof.
  unfold spec_roles. rewrite !NoDup_app. setoid_rewrite elem_of_app. setoid_rewrite list_elem_of_fmap.
  split_and!; try (apply (NoDup_fmap_2 _ _), ordered_prompts_NoDup); naive_solver.
Qed.

Lemma spec_roles_sorted ps s : StronglySorted role_le (spec_roles ps s).
Proof.
  assert (forall t P, StronglySorted role_le (pair t <$> ordered_prompts ps P)).
  { intros t P. eapply StronglySorted_fmap; [|apply ordered_prompts_sorted]. intros x y Hxy. right. done. }
  unfold spec_roles. repeat apply StronglySorted_app_2; try done; intros x y.
  - rewrite elem_of_app, !list_elem_of_fmap. intros (p & -> & _) [(q & -> & _)|(q & -> & _)]; left; cbn; lia.
  - rewrite !list_elem_of_fmap. intros (p & -> & _) (q & -> & _). left; cbn; lia.
Qed.

Lemma NoDup_roles (l : list Participant) s :
  NoDup (key <$> l) -> NoDup ((fun x => (pt_type x, pt_prompt x)) <$> filter (fun x => pt_session x = s) l).
Proof.
  induction l as [|x l IH]; intros Hn; [constructor|]. cbn in Hn. apply NoDup_cons in Hn as [Hx Hn]. rewrite filter_cons.
  case_decide as Hs; [|by apply IH]. cbn. apply NoDup_cons. split; [|by apply IH].
  intros (y & Ey & Hy)%list_elem_of_fmap. apply list_elem_of_filter in Hy as [Hsy Hy]. apply Hx, list_elem_of_fmap.
  exists y. split; [|done]. unfold key. congruence.
Qed.

Lemma roles_of_implements m ps s : implements m ps -> roles_of m s = spec_roles ps s.
Proof.
  intros Him. unfold roles_of.
  assert (Hmem : forall t p, (t, p) ∈ (fun x => (pt_type x, pt_prompt x)) <$> filter (fun x => pt_session x = s) (participant_map m) <->
            (t, p) ∈ spec_roles ps s).
  { intros t p. rewrite elem_of_spec_roles, list_elem_of_fmap. setoid_rewrite list_elem_of_filter.
    transitivity ((s, t) ∈ participants_of m p).
    - rewrite elem_of_participants_of. split; [intros (x & [= -> ->] & Hs & Hx); eauto|]. intros (x & Hx & <- & Hs & <-). eauto.
    - rewrite (imp_listed _ _ Him). destruct (ps !! p); [naive_solver|]. split; [intros H; by apply not_elem_of_nil in H|naive_solver]. }
  assert (merge_sort role_le ((fun x => (pt_type x, pt_prompt x)) <$> filter (fun x => pt_session x = s) (participant_map m)) = spec_roles ps s) as ->.
  { apply (StronglySorted_unique role_le); [apply StronglySorted_merge_sort; apply _|apply spec_roles_sorted|].
    rewrite merge_sort_Permutation. apply NoDup_Permutation; [apply NoDup_roles, Him|apply spec_roles_NoDup|]. intros [t p]. apply Hmem. }
  apply filter_all. intros [t p] (r & Hr & _)%elem_of_spec_roles. cbn. rewrite (imp_dom _ _ Him). apply elem_of_dom. eauto.
Qed.

Lemma leave_all_app m s l1 l2 :
  leave_all m s (l1 ++ l2) =
  let '(m1, c1) := leave_all m s l1 in let '(m2, c2) := leave_all m1 s l2 in (m2, c1 ++ c2).
Proof.
  revert m. induction l1 as [|[t p] l1 IH]; intros m; [cbn; by destruct (leave_all m s l2)|].
  cbn [leave_all app]. destruct (if bool_decide (t = helper) then _ else _) as [m1 c1]. rewrite IH.
  destruct (leave_all m1 s l1) as [m2 c2], (leave_all m2 s l2) as [m3 c3]. by rewrite app_assoc.
Qed.

Lemma leave_helpers m ps s l :
  implements m ps -> NoDup l -> (forall p, p ∈ l -> is_Some (ps !! p)) ->
  exists m' ps', leave_all m s (pair helper <$> l) =
      (m', mjoin ((fun p => match ps !! p with Some r => stop_calls p r | None => [] end) <$> l)) /\
    implements m' ps' /\ outside m' = outside m /\ forall q, ps' !! q = if decide (q ∈ l) then None else ps !! q.
Proof.
  intros Him Hn. revert m ps Him. induction Hn as [|p l Hp Hn IH]; intros m ps Him Hl.
  { exists m, ps. split_and!; [done..|]. intros q. by rewrite decide_False by apply not_elem_of_nil. }
  cbn [fmap list_fmap leave_all]. rewrite bool_decide_true by done.
  destruct (stop_implements m ps p Him) as (m1 & -> & Him1 & Hl1).
  destruct (IH m1 _ Him1) as (m2 & ps2 & -> & Him2 & Hl2 & Hps2).
  { intros q Hq. rewrite lookup_delete_ne by (intros ->; done). apply Hl. set_solver. }
  destruct (Hl p) as [r Hr]; [set_solver|]. exists m2, ps2. split_and!; [|done|congruence|].
  - unfold spec_stop. rewrite Hr. cbn [snd]. change (mjoin (?x :: ?l)) with (x ++ mjoin l). rewrite ?Hr. do 3 f_equal. apply list_fmap_ext. intros i q Hq%list_elem_of_lookup_2.
    by rewrite lookup_delete_ne by (intros ->; done).
  - intros q. rewrite Hps2. destruct (decide (q = p)) as [->|Hq].
    + rewrite lookup_delete_eq, (decide_True (P := p ∈ p :: l)) by set_solver. by destruct (decide (p ∈ l)).
    + rewrite lookup_delete_ne by done. destruct (decide (q ∈ l)), (decide (q ∈ p :: l)); set_solver.
Qed.

Definition drop_application (s : Z) (r : Prompt) : Prompt :=
  r <| pr_application := if bool_decide (pr_application r = Some s) then None else pr_application r |>.
Definition drop_provider (s : Z) (r : Prompt) : Prompt := r <| pr_providers := filter (fun x => x <> s) (pr_providers r) |>.

Definition provides_in (ps : Prompts) (s p : Z) : bool := match ps !! p with Some r => provides s r | None => false end.

(** The part of the passes over the applications and the providers that is the same. *)
Lemma lookup_pass (ps ps' : Prompts) f p l q :
  p ∉ l -> (forall x, ps' !! x = if decide (x ∈ l) then f <$> alter f p ps !! x else alter f p ps !! x) ->
  ps' !! q = if decide (q ∈ p :: l) then f <$> ps !! q else ps !! q.
Proof.
  intros Hp Hps. rewrite Hps. destruct (decide (q = p)) as [->|Hq].
  - rewrite decide_False by done. by rewrite lookup_alter_eq, decide_True by set_solver.
  - rewrite lookup_alter_ne by done. destruct (decide (q ∈ l)), (decide (q ∈ p :: l)); set_solver.
Qed.

Lemma leave_applications m ps s l :
  implements m ps -> NoDup l ->
  exists m' ps', leave_all m s (pair application <$> l) = (m', []) /\ implements m' ps' /\ outside m' = outside m /\
    forall q, ps' !! q = if decide (q ∈ l) then drop_application s <$> ps !! q else ps !! q.
Proof.
  intros Him Hn. revert m ps Him. induction Hn as [|p l Hp Hn IH]; intros m ps Him.
  { exists m, ps. split_and!; [done..|]. intros q. by rewrite decide_False by apply not_elem_of_nil. }
  cbn [fmap list_fmap leave_all]. rewrite bool_decide_false by done.
  assert (exists m1 b, remove_participant m p s application = (m1, b) /\ implements m1 (alter (drop_application s) p ps) /\ outside m1 = outside m)
    as (m1 & b & -> & Him1 & Hl1).
  { destruct (ps !! p) as [r|] eqn:Hr.
    - destruct (remove_application_implements m ps p s r Him Hr) as (m1 & b & E & H1 & H2). exists m1, b. split_and!; try done.
      rewrite (alter_known (drop_application s) p ps r) by done. exact H1.
    - exists m, false. split_and!; [by eapply remove_absent| |done]. by rewrite alter_unknown. }
  destruct (IH m1 _ Him1) as (m2 & ps2 & -> & Him2 & Hl2 & Hps2). rewrite (bool_decide_false (application = prompt_provider)), andb_false_r by done.
  exists m2, ps2. split_and!; [done|done|congruence|]. intros q. by apply lookup_pass.
Qed.

Lemma leave_providers m ps s l :
  implements m ps -> NoDup l ->
  exists m' ps', leave_all m s (pair prompt_provider <$> l) =
      (m', (fun p => prompt_provider_removed p s) <$> filter (fun p => provides_in ps s p = true) l) /\
    implements m' ps' /\ outside m' = outside m /\
    forall q, ps' !! q = if decide (q ∈ l) then drop_provider s <$> ps !! q else ps !! q.
Proof.
  intros Him Hn. revert m ps Him. induction Hn as [|p l Hp Hn IH]; intros m ps Him.
  { exists m, ps. split_and!; [done..|]. intros q. by rewrite decide_False by apply not_elem_of_nil. }
  cbn [fmap list_fmap leave_all]. rewrite bool_decide_false by done.
  assert (exists m1 b, remove_participant m p s prompt_provider = (m1, b) /\ implements m1 (alter (drop_provider s) p ps) /\ outside m1 = outside m /\
            b = provides_in ps s p)
    as (m1 & b & -> & Him1 & Hl1 & ->).
  { unfold provides_in. destruct (ps !! p) as [r|] eqn:Hr.
    - destruct (remove_provider_implements m ps p s r Him Hr) as (m1 & E & H1 & H2). exists m1, (provides s r). split_and!; try done.
      rewrite (alter_known (drop_provider s) p ps r) by done. exact H1.
    - exists m, false. split_and!; [by eapply remove_absent| |done|done]. by rewrite alter_unknown. }
  destruct (IH m1 _ Him1) as (m2 & ps2 & -> & Him2 & Hl2 & Hps2). rewrite (bool_decide_true (prompt_provider = prompt_provider)), andb_true_r by done.
  exists m2, ps2. split_and!; [|done|congruence|intros q; by apply lookup_pass].
  rewrite filter_cons.
  assert (filter (fun q => provides_in (alter (drop_provider s) p ps) s q = true) l = filter (fun q => provides_in ps s q = true) l) as ->.
  { clear -Hp. induction l as [|x l IH]; [done|]. rewrite !filter_cons. rewrite IH by set_solver.
    assert (x <> p) by set_solver. unfold provides_in. by rewrite lookup_alter_ne. }
  by destruct (provides_in ps s p).
Qed.

Lemma sorted_unique_Z (l1 l2 : list Z) :
  StronglySorted Z.le l1 -> StronglySorted Z.le l2 -> NoDup l1 -> NoDup l2 -> (forall x, x ∈ l1 <-> x ∈ l2) -> l1 = l2.
Proof. intros. apply (StronglySorted_unique Z.le); try done. by apply NoDup_Permutation. Qed.

Lemma leave_not_helping (ps1 ps2 ps3 ps : Prompts) s :
  (forall q, ps1 !! q = if decide (q ∈ ordered_prompts ps (helps s)) then None else ps !! q) ->
  (forall q, ps2 !! q = if decide (q ∈ ordered_prompts ps (applies s)) then drop_application s <$> ps1 !! q else ps1 !! q) ->
  (forall q, ps3 !! q = if decide (q ∈ ordered_prompts ps (provides s)) then drop_provider s <$> ps2 !! q else ps2 !! q) ->
  ps3 = leave s <$> filter (fun kv : Z * Prompt => helps s kv.2 = false) ps.
Proof.
  intros H1 H2 H3. apply map_eq. intros q. rewrite lookup_fmap, map_lookup_filter, H3, H2, H1.
  destruct (ps !! q) as [r|] eqn:Hr.
  2: { cbn. repeat case_decide; done. }
  assert (Hmem : forall P, q ∈ ordered_prompts ps P <-> P r = true).
  { intros P. rewrite elem_of_ordered_prompts, Hr. naive_solver. }
  rewrite (decide_ext (q ∈ ordered_prompts ps (helps s)) (helps s r = true)) by apply Hmem. rewrite (decide_ext (q ∈ ordered_prompts ps (applies s)) (applies s r = true)) by apply Hmem.
  rewrite (decide_ext (q ∈ ordered_prompts ps (provides s)) (provides s r = true)) by apply Hmem. cbn [mbind option_bind].
  cbn [snd].
  destruct (helps s r) eqn:Eh; case_guard; try done; [by destruct (applies s r), (provides s r)|].
  assert (Happ : applies s r = false -> drop_application s r = r).
  { unfold applies, drop_application. intros Ha. rewrite Ha. by destruct r. }
  assert (Hprov : forall r', provides s r' = false -> drop_provider s r' = r').
  { unfold provides, drop_provider. intros r' Hp. breflect. rewrite filter_all by (by intros x Hx ->). by destruct r'. }
  assert (Hsame : provides s (drop_application s r) = provides s r) by done.
  transitivity (Some (drop_provider s (drop_application s r))); [|reflexivity].
  destruct (applies s r) eqn:Ea, (provides s r) eqn:Ep;
    repeat first [rewrite decide_True by done|rewrite decide_False by done]; cbn [fmap option_fmap option_map];
    rewrite ?Happ by done; rewrite ?Hprov by (done || congruence); done.
Qed.

Lemma remove_session_implements m ps s :
  implements m ps ->
  exists m', prompt_remove_session m s = (m', snd (spec_remove_session ps s)) /\
    implements m' (fst (spec_remove_session ps s)) /\ outside m' = outside m.
Proof.
  intros Him. unfold prompt_remove_session. rewrite (roles_of_implements m ps s Him). unfold spec_roles.
  destruct (leave_helpers m ps s (ordered_prompts ps (helps s)) Him) as (m1 & ps1 & E1 & Him1 & Hl1 & Hps1);
    [apply ordered_prompts_NoDup|intros p (r & Hr & _)%elem_of_ordered_prompts; eauto|].
  destruct (leave_applications m1 ps1 s (ordered_prompts ps (applies s)) Him1) as (m2 & ps2 & E2 & Him2 & Hl2 & Hps2);
    [apply ordered_prompts_NoDup|].
  destruct (leave_providers m2 ps2 s (ordered_prompts ps (provides s)) Him2) as (m3 & ps3 & E3 & Him3 & Hl3 & Hps3);
    [apply ordered_prompts_NoDup|].
  rewrite leave_all_app, E1. cbv beta iota. rewrite leave_all_app, E2. cbv beta iota. rewrite E3. exists m3. cbn [app]. unfold spec_remove_session. cbn [fst snd].
  rewrite <-(leave_not_helping ps1 ps2 ps3 ps s) by done. split; [|split; [done|congruence]]. do 3 f_equal.
  apply sorted_unique_Z; [apply StronglySorted_filtered, ordered_prompts_sorted|apply ordered_prompts_sorted
    |apply NoDup_filter, ordered_prompts_NoDup|apply ordered_prompts_NoDup|].
  intros p. rewrite list_elem_of_filter, !elem_of_ordered_prompts. unfold provides_in. rewrite Hps2, Hps1.
  destruct (ps !! p) as [r|] eqn:Hr; [|naive_solver].
  assert (Hmem : forall P, p ∈ ordered_prompts ps P <-> P r = true).
  { intros P. rewrite elem_of_ordered_prompts, Hr. naive_solver. }
  rewrite (decide_ext (p ∈ ordered_prompts ps (helps s)) (helps s r = true)) by apply Hmem. rewrite (decide_ext (p ∈ ordered_prompts ps (applies s)) (applies s r = true)) by apply Hmem.
  assert (Hex : forall P : Prompt -> bool, (exists r0, Some r = Some r0 /\ P r0 = true) <-> P r = true).
  { intros P. split; [by intros (r0 & [= <-] & HP)|eauto]. }
  rewrite !Hex. destruct (helps s r); [rewrite (decide_True (P := true = true)) by done|rewrite (decide_False (P := false = true)) by done].
  - destruct (decide (applies s r = true)); cbn; split; [by intros [? _]|done|by intros [? _]|done].
  - destruct (decide (applies s r = true)); cbn; split; [by intros [? _]|done|by intros [? _]|done].
Qed.

(** ** Runs *)
Section PromptRuns.
Context (process_id : Z -> Z).

Inductive PromptOp :=
| OpStartPrompt (p s pid : Z) (apps : list Z)
| OpStopPrompt (p : Z)
| OpSuspendPrompt (p : Z)
| OpResumePrompt (p : Z)
| OpAddProvider (p s : Z)
| OpRemoveSession (s : Z)
| OpConnect (s : Z)
| OpExpire (s : Z).

Definition prompt_step (m : PromptManager) (op : PromptOp) : PResult unit :=
  match op with
  | OpStartPrompt p s pid apps =>
      let '(m', calls, o) := start_prompt_session_for process_id apps m p s pid in (m', calls, (fun _ => tt) <$> o)
  | OpStopPrompt p => (stop_prompt_session m p, Ret tt)
  | OpSuspendPrompt p => (suspend_prompt_session m p, Ret tt)
  | OpResumePrompt p => (resume_prompt_session m p, Ret tt)
  | OpAddProvider p s => add_prompt_provider m p s
  | OpRemoveSession s => (prompt_remove_session m s, Ret tt)
  | OpConnect s => (m <| live := {[s]} ∪ live m |>, [], Ret tt)
  | OpExpire s => (m <| live := live m ∖ {[s]} |>, [], Ret tt)
  end.

(** A new prompt session has a new address, the sessions in a request exist,
    and a session is destroyed only after it was removed. *)
Definition prompt_enabled (m : PromptManager) (op : PromptOp) : Prop :=
  match op with
  | OpStartPrompt p s _ apps => p ∉ dom (prompt_states m) /\ s ∈ live m /\ forall a, a ∈ apps -> a ∈ live m
  | OpAddProvider _ s => s ∈ live m
  | OpExpire s => forall x, x ∈ participant_map m -> pt_session x <> s
  | _ => True
  end.

Definition spec_step (ps : Prompts) (op : PromptOp) : Prompts * list PromptCall * outcome unit :=
  match op with
  | OpStartPrompt p s pid apps =>
      let '(ps', calls, o) := spec_start process_id apps ps p s pid in (ps', calls, (fun _ => tt) <$> o)
  | OpStopPrompt p => (spec_stop ps p, Ret tt)
  | OpSuspendPrompt p => (spec_suspend ps p, Ret tt)
  | OpResumePrompt p => (spec_resume ps p, Ret tt)
  | OpAddProvider p s => spec_add_provider ps p s
  | OpRemoveSession s => (spec_remove_session ps s, Ret tt)
  | OpConnect _ | OpExpire _ => (ps, [], Ret tt)
  end.

(** The results of a list of operations, on both sides. *)
Fixpoint prompt_run (m : PromptManager) (ops : list PromptOp) : PromptManager * list (list PromptCall * outcome unit) :=
  match ops with
  | [] => (m, [])
  | op :: rest => let '(m1, calls, o) := prompt_step m op in let '(m2, log) := prompt_run m1 rest in (m2, (calls, o) :: log)
  end.

Fixpoint prompt_run_enabled (m : PromptManager) (ops : list PromptOp) : Prop :=
  match ops with
  | [] => True
  | op :: rest => prompt_enabled m op /\ prompt_run_enabled (prompt_step m op).1.1 rest
  end.

Fixpoint spec_run (ps : Prompts) (ops : list PromptOp) : Prompts * list (list PromptCall * outcome unit) :=
  match ops with
  | [] => (ps, [])
  | op :: rest => let '(ps1, calls, o) := spec_step ps op in let '(ps2, log) := spec_run ps1 rest in (ps2, (calls, o) :: log)
  end.

Definition no_prompts : PromptManager := mkPromptManager ∅ [] 0 ∅ ∅.

Lemma no_prompts_implements : implements no_prompts ∅.
Proof.
  split; try done; try (by rewrite dom_empty_L); try (intros x Hx; by apply not_elem_of_nil in Hx); constructor.
Qed.

Lemma implements_live m ps l :
  implements m ps -> (forall x, x ∈ participant_map m -> pt_session x ∈ l) -> implements (m <| live := l |>) ps.
Proof. intros [H1 H2 H3 H4 H5 H6 H7 H8] Hl. by split. Qed.

Lemma prompt_step_implements m ps op :
  implements m ps -> prompt_enabled m op -> 0 <= insertion_order m < 2 ^ 32 - 2 ->
  let '(ps', calls, o) := spec_step ps op in
  exists m', prompt_step m op = (m', calls, o) /\ implements m' ps' /\ insertion_order m <= insertion_order m' <= insertion_order m + 2.
Proof.
  intros Him He Hio.
  assert (Hquiet : forall ps' (calls : list PromptCall) r, (exists m', r = (m', calls) /\ implements m' ps' /\ outside m' = outside m) ->
    exists m', (r, Ret tt) = (m', calls, Ret tt) /\ implements m' ps' /\ insertion_order m <= insertion_order m' <= insertion_order m + 2).
  { intros ps' calls r (m' & -> & Hi & [= _ E]). exists m'. split; [done|]. split; [done|]. lia. }
  destruct op as [p s pid apps|p|p|p|p s|s|s|s]; cbn [spec_step prompt_step prompt_enabled] in *.
  - destruct He as (Hf & Hs & Happs). pose proof (start_implements process_id apps m ps p s pid Him Hf Hs Happs Hio) as H.
    destruct (spec_start process_id apps ps p s pid) as [[ps' calls] o]. destruct H as (m' & -> & Hi & _ & Ho). by exists m'.
  - pose proof (stop_implements m ps p Him) as H. unfold spec_stop in *.
    destruct (ps !! p) eqn:Hp; [|rewrite delete_id in H by done]; by apply Hquiet.
  - pose proof (suspend_implements m ps p Him) as H. destruct (spec_suspend ps p). by apply Hquiet.
  - pose proof (resume_implements m ps p Him) as H. destruct (spec_resume ps p). by apply Hquiet.
  - pose proof (add_provider_implements m ps p s Him He ltac:(lia)) as H. destruct (spec_add_provider ps p s) as [[ps' calls] o].
    destruct H as (m' & E & Hi & _ & Ho). exists m'. cbn in *. split; [done|]. split; [done|lia].
  - pose proof (remove_session_implements m ps s Him) as H. destruct (spec_remove_session ps s). by apply Hquiet.
  - eexists. split; [done|]. split; [|cbn; lia]. apply implements_live; [done|]. intros x Hx. pose proof (imp_live _ _ Him x Hx). set_solver.
  - eexists. split; [done|]. split; [|cbn; lia]. apply implements_live; [done|]. intros x Hx. pose proof (imp_live _ _ Him x Hx).
    specialize (He x Hx). set_solver.
Qed.

Lemma prompt_run_implements m ps ops :
  implements m ps -> prompt_run_enabled m ops -> 0 <= insertion_order m -> insertion_order m + 2 * Z.of_nat (length ops) < 2 ^ 32 ->
  let '(m', log) := prompt_run m ops in let '(ps', log') := spec_run ps ops in log = log' /\ implements m' ps'.
Proof.
  revert m ps. induction ops as [|op ops IH]; intros m ps Him He H0 Hio; [done|]. cbn [prompt_run spec_run prompt_run_enabled length] in *.
  destruct He as [He Hrest]. pose proof (prompt_step_implements m ps op Him He ltac:(lia)) as Hs.
  destruct (spec_step ps op) as [[ps1 calls] o]. destruct Hs as (m1 & E & Him1 & Ho). rewrite E in *. cbn [fst] in Hrest.
  specialize (IH m1 ps1 Him1 Hrest ltac:(lia) ltac:(lia)).
  destruct (prompt_run m1 ops) as [m2 log], (spec_run ps1 ops) as [ps2 log']. destruct IH as [-> Him2]. done.
Qed.

(** C9: The manager of prompt sessions behaves as a map from prompt sessions to their participants: whatever is
    asked of it, as long as fewer than [2^31] requests were made, it tells the helpers and the listener exactly
    what the abstract manager does, in the same order and with the same errors (also when a session leaves that
    is the helper, the application and a provider of several prompt sessions at once), and the helper, the
    application, the providers and the state that it has for a prompt session are those of the map. *)
Theorem prompt_manager_refines ops :
  prompt_run_enabled no_prompts ops -> Z.of_nat (length ops) < 2 ^ 31 ->
  let '(m, log) := prompt_run no_prompts ops in
  let '(ps, spec_log) := spec_run ∅ ops in
  log = spec_log /\
  forall p, helper_for m p = pr_helper <$> ps !! p /\
    application_for m p = ps !! p ≫= pr_application /\
    providers_in m p = match ps !! p with Some r => pr_providers r | None => [] end /\
    (prompt_state m p = mir_prompt_session_state_stopped <-> ps !! p = None).
Proof.
  intros He Hlen. pose proof (prompt_run_implements no_prompts ∅ ops no_prompts_implements He ltac:(cbn; lia) ltac:(cbn; lia)) as H.
  destruct (prompt_run no_prompts ops) as [m log], (spec_run ∅ ops) as [ps log']. destruct H as [-> Him]. split; [done|]. intros p.
  split; [by apply implements_helper|]. split; [by apply implements_application|]. split; [by apply implements_providers|].
  rewrite (imp_state _ _ Him). destruct (ps !! p) as [r|]; [|done]. by destruct (pr_suspended r).
Qed.
End PromptRuns.

(** A helper that is also a provider of another prompt session leaves. *)
Definition example_prompts : list PromptOp :=
  [OpConnect 1; OpConnect 2; OpConnect 3; OpStartPrompt 10 1 2 [1; 2]; OpStartPrompt 11 2 3 [2; 3]; OpAddProvider 10 3; OpAddProvider 11 1;
   OpSuspendPrompt 10; OpRemoveSession 1; OpExpire 1; OpStopPrompt 11].

Lemma example_prompts_enabled : prompt_run_enabled (fun s => s) no_prompts example_prompts.
Proof. vm_compute. split_and!; try done; try set_solver. Qed.

Lemma prompt_manager_refines_witness :
  snd (prompt_run (fun s => s) no_prompts example_prompts) = snd (spec_run (fun s => s) ∅ example_prompts).
Proof.
  pose proof (prompt_manager_refines (fun s => s) example_prompts example_prompts_enabled ltac:(cbn; lia)) as H.
  destruct (prompt_run (fun s => s) no_prompts example_prompts), (spec_run (fun s => s) ∅ example_prompts). exact (proj1 H).
Defined.

Example example_prompts_log :
  mjoin (fst <$> snd (prompt_run (fun s => s) no_prompts example_prompts)) =
    [start_prompt 1 10; starting 10; start_prompt 2 11; starting 11; prompt_provider_added 10 3; prompt_provider_added 11 1;
     suspend_prompt 1 10; suspending 10; prompt_provider_removed 10 3; stop_prompt 1 10; stopping 10; prompt_provider_removed 11 1;
     stop_prompt 2 11; stopping 11].
Proof. vm_compute. reflexivity. Qed.
