(* ===== verification/Framing.v ===== *)
(** * Messages on the socket between client and server

    Every message of the protocol is a header of two bytes, its length in big
    endian order, followed by the serialized body; file descriptors travel as
    ancillary data of a dummy byte after it.  Sending and receiving on both
    sides: [src/server/frontend/socket_messenger.cpp], [socket_connection.cpp],
    [src/client/rpc/stream_socket_transport.cpp], [mir_protobuf_rpc_channel.cpp]
    and [src/common/fd/fd_socket_transmission.cpp].

    The socket is the sequence of octets on the way, each with the descriptors
    attached to it.  How much a call of [recv] or [send] transfers, and which
    error it returns, is up to the operating system: it is an argument, the
    list of the results of the calls to come.  Serialization (protobuf) is a
    parameter. *)
From S2P Require Import Prelude.

Record Octet := mkOctet { byte : Z; fds : list Z }.
Definition plain (b : Z) : Octet := mkOctet b [].
Definition is_byte (b : Z) : Prop := 0 <= b < 256.

(** ** The operating system *)
Inductive SysResult :=
| Transferred (n : nat)   (* up to [S n] bytes *)
| Eof                     (* 0 *)
| Errno (transient again pipe : bool).   (* EINTR, EAGAIN, EPIPE *)

(** [recvmsg] with room for [requested] octets: what it returns stops before
    octets with other ancillary data and after octets that carry some. *)
Fixpoint plain_prefix (limit : nat) (stream : list Octet) : list Octet :=
  match limit, stream with
  | S l, o :: rest => match fds o with [] => o :: plain_prefix l rest | _ => [] end
  | _, _ => []
  end.
Definition chunk (requested n : nat) (stream : list Octet) : list Octet :=
  match stream with
  | o :: _ => match fds o with [] => plain_prefix (Nat.min requested (S n)) stream | _ => [o] end
  | [] => []
  end.

(** The result of a transfer: finished, waiting for the next system call to
    return, or an exception. *)
Inductive transfer (A : Type) :=
| Done (a : A)
| Blocked
| Failed (e : exn).
Arguments Done {A} a.
Arguments Blocked {A}.
Arguments Failed {A} e.

(** ** Headers *)
Definition header_bytes (length : Z) : list Z := [Z.land (Z.shiftr length 8) 255; Z.land (Z.shiftr length 0) 255].
Definition body_size (high_byte low_byte : Z) : Z := Z.shiftl high_byte 8 + low_byte.
(** [be16toh] of the two bytes read into a [uint16_t]. *)
Definition be16toh (b0 b1 : Z) : Z := b0 * 256 + b1.

(** ** fd_socket_transmission.cpp *)
Definition send_fds (descriptors : list Z) : list Octet :=
  match descriptors with [] => [] | _ => [mkOctet 77 descriptors] end.

(** The loop of [mir::receive_data]: [missing] bytes and [fds_missing]
    descriptors are still to come. *)
Fixpoint receive_fds_loop (results : list SysResult) (missing fds_missing : nat) (stream : list Octet)
    (bytes : list Z) (got : list Z) : transfer (list Z * list Z * list Octet * list SysResult) :=
  match missing with
  | O => if bool_decide (fds_missing <> O) then Failed (runtime_error "Received fewer fds than expected")
         else Done (bytes, got, stream, results)
  | _ =>
      match results with
      | [] => Blocked
      | Eof :: _ => Failed (runtime_error "Failed to read message from server: server has shutdown")
      | Errno transient again pipe :: rest =>
          if transient || again then receive_fds_loop rest missing fds_missing stream bytes got
          else Failed (runtime_error "Failed to read message from server")
      | Transferred n :: rest =>
          let c := chunk missing n stream in
          let arrived := c ≫= fds in
          if (fds_missing <? length arrived)%nat then Failed (runtime_error "Received more fds than expected")
          else if bool_decide (c = []) then Blocked
          else receive_fds_loop rest (missing - length c) (fds_missing - length arrived) (drop (length c) stream)
                 (bytes ++ (byte <$> c)) (got ++ arrived)
      end
  end.
Definition receive_data_fds (results : list SysResult) (requested nfds : nat) (stream : list Octet)
  : transfer (list Z * list Z * list Octet * list SysResult) :=
  if bool_decide (requested = O) then Failed (logic_error "Attempted to receive 0 bytes")
  else receive_fds_loop results requested nfds stream [] [].

(** ** stream_socket_transport.cpp *)
(** [receive_data] without descriptors. *)
Fixpoint receive_loop (results : list SysResult) (missing : nat) (stream : list Octet) (bytes : list Z)
  : transfer (list Z * list Octet * list SysResult) :=
  match missing with
  | O => Done (bytes, stream, results)
  | _ =>
      match results with
      | [] => Blocked
      | Eof :: _ => Failed (runtime_error "Failed to read message from server: server has shutdown")
      | Errno transient again pipe :: rest =>
          if transient then receive_loop rest missing stream bytes
          else Failed (runtime_error "Failed to read message from server")
      | Transferred n :: rest =>
          let c := chunk missing n stream in
          if bool_decide ((c ≫= fds) <> []) then Failed (runtime_error "Unexpectedly received fds")
          else if bool_decide (c = []) then Blocked
          else receive_loop rest (missing - length c) (drop (length c) stream) (bytes ++ (byte <$> c))
      end
  end.
Definition receive_data (results : list SysResult) (requested : nat) (stream : list Octet)
  : transfer (list Z * list Octet * list SysResult) :=
  if bool_decide (requested = O) then Failed (logic_error "Attempted to receive 0 bytes")
  else receive_loop results requested stream [].

(** The loop of [send_message]; what was written is at the end of the
    stream. *)
Fixpoint send_loop (results : list SysResult) (buffer : list Z) (stream : list Octet)
  : transfer (list Octet * list SysResult) :=
  match buffer with
  | [] => Done (stream, results)
  | _ =>
      match results with
      | [] => Blocked
      | Eof :: rest => send_loop rest buffer stream
      | Errno transient again pipe :: rest =>
          if transient then send_loop rest buffer stream else Failed (runtime_error "Failed to send message to server")
      | Transferred n :: rest =>
          send_loop rest (drop (S n) buffer) (stream ++ (plain <$> take (S n) buffer))
      end
  end.
Definition transport_send_message (results : list SysResult) (buffer : list Z) (descriptors : list Z)
    (stream : list Octet) : transfer (list Octet * list SysResult) :=
  match send_loop results buffer stream with
  | Done (stream', results') => Done (stream' ++ send_fds descriptors, results')
  | Blocked => Blocked
  | Failed e => Failed e
  end.

(** ** mir_protobuf_rpc_channel.cpp *)
Definition channel_send_message (results : list SysResult) (body : list Z) (descriptors : list Z)
    (stream : list Octet) : transfer (list Octet * list SysResult) :=
  transport_send_message results (header_bytes (Z.of_nat (length body)) ++ body) descriptors stream.

(** The reading part of [on_data_available]. *)
Definition receive_message (results : list SysResult) (stream : list Octet)
  : transfer (list Z * list Octet * list SysResult) :=
  match receive_data results 2 stream with
  | Done ([b0; b1], stream1, results1) => receive_data results1 (Z.to_nat (be16toh b0 b1)) stream1
  | Done _ | Blocked => Blocked
  | Failed e => Failed e
  end.

(** ** socket_messenger.cpp *)
(** [ba::write] writes all or throws. *)
Definition messenger_send (data : list Z) (fd_set : list (list Z)) (stream : list Octet) : list Octet :=
  stream ++ (plain <$> header_bytes (Z.of_nat (length data)) ++ data) ++ (fd_set ≫= send_fds).

(** ** socket_connection.cpp *)
(** What is needed of a parsed [wire::Invocation]. *)
Record Invocation := mkInvocation { protocol_version : option Z; side_channel_fds : nat }.

Inductive ReadState :=
| ReadingHeader
| ReadingBody (size : nat)
| Disconnected.

Section Connection.
Context (parse : list Z -> Invocation) (oldest next : Z).
Context (processor_dispatch : list Z -> list Z -> bool).

(** [async_read] with [transfer_exactly]: the handler runs once all the bytes
    are there. *)
Definition read_exactly (n : nat) (stream : list Octet) : option (list Z * list Octet) :=
  if (n <=? length stream)%nat then Some (byte <$> take n stream, drop n stream) else None.

Definition on_read_size (header : list Z) : ReadState :=
  match header with
  | [high_byte; low_byte] => ReadingBody (Z.to_nat (body_size high_byte low_byte))
  | _ => Disconnected
  end.

(** The handled message and the next state; a connection that is removed reads
    no more. *)
Definition on_new_message (results : list SysResult) (body : list Z) (stream : list Octet)
  : transfer (option (list Z * list Z) * ReadState * list Octet * list SysResult) :=
  let invocation := parse body in
  let v := default (-1) (protocol_version invocation) in
  if (v <? oldest) || (next <=? v) then Failed (runtime_error "Unsupported protocol version")
  else
    let continue descriptors stream' results' :=
      Done (Some (body, descriptors),
            if processor_dispatch body descriptors then ReadingHeader else Disconnected, stream', results') in
    match side_channel_fds invocation with
    | O => continue [] stream results
    | n =>
        match receive_data_fds results 1 n stream with
        | Done (_, got, stream', results') => continue got stream' results'
        | Blocked => Blocked
        | Failed e => Failed e
        end
    end.

(** A connection with what it has dispatched. *)
Definition connection_step (st : ReadState) (results : list SysResult) (stream : list Octet)
  : transfer (option (list Z * list Z) * ReadState * list Octet * list SysResult) :=
  match st with
  | ReadingHeader =>
      match read_exactly 2 stream with
      | Some (header, stream') => Done (None, on_read_size header, stream', results)
      | None => Blocked
      end
  | ReadingBody size =>
      match read_exactly size stream with
      | Some (body, stream') => on_new_message results body stream'
      | None => Blocked
      end
  | Disconnected => Blocked
  end.
End Connection.

(** ** Lemmas *)
Lemma header_value n : be16toh (Z.land (Z.shiftr n 8) 255) (Z.land (Z.shiftr n 0) 255) = n mod 65536.
Proof.
  unfold be16toh. change 255 with (Z.ones 8). rewrite !Z.land_ones, Z.shiftr_div_pow2, Z.shiftr_0_r by lia.
  change (2 ^ 8) with 256. Z.to_euclidean_division_equations. lia.
Qed.
Lemma body_size_be16toh b0 b1 : body_size b0 b1 = be16toh b0 b1.
Proof. unfold body_size, be16toh. rewrite Z.shiftl_mul_pow2 by lia. done. Qed.

(** The operating system delivers, interrupted calls apart. *)
Definition progress (r : SysResult) : bool := match r with Transferred _ => true | Errno transient _ _ => transient | Eof => false end.
Fixpoint transfers (results : list SysResult) : nat :=
  match results with
  | [] => 0
  | r :: rest => (match r with Transferred _ => 1 | _ => 0 end) + transfers rest
  end.
Definition delivers (results : list SysResult) (n : nat) : Prop :=
  Forall (fun r => progress r = true) results /\ (n <= transfers results)%nat.

Lemma delivers_weaken results n m : delivers results n -> (m <= n)%nat -> delivers results m.
Proof. intros [? ?] ?. split; [done|lia]. Qed.

Lemma plain_prefix_plain k l rest : (k <= length l)%nat -> plain_prefix k ((plain <$> l) ++ rest) = plain <$> take k l.
Proof.
  revert l. induction k as [|k IH]; intros [|b l] Hk; cbn in *; try done; [lia|]. rewrite IH by lia. done.
Qed.

Lemma chunk_plain n b l rest :
  chunk (length (b :: l)) n ((plain <$> b :: l) ++ rest) = plain <$> take (Nat.min (length (b :: l)) (S n)) (b :: l).
Proof. unfold chunk. cbn [fmap list_fmap app plain fds]. rewrite <-plain_prefix_plain with (rest := rest); [done|lia]. Qed.

Lemma plain_fds (l : list Z) : (plain <$> l) ≫= fds = [].
Proof. by induction l. Qed.
Lemma plain_bytes (l : list Z) : byte <$> (plain <$> l) = l.
Proof. induction l as [|b l IH]; [done|]. cbn. by rewrite IH. Qed.

(** Receiving plain bytes, in whatever pieces they come. *)
Lemma receive_loop_plain results l rest bytes n :
  delivers results (length l + n) ->
  exists results', receive_loop results (length l) ((plain <$> l) ++ rest) bytes = Done (bytes ++ l, rest, results') /\
    delivers results' n.
Proof.
  revert l bytes. induction results as [|r results IH]; intros l bytes [Hp Hn].
  { cbn in Hn. destruct l; cbn in Hn; [|lia]. cbn. exists []. rewrite app_nil_r. split; [done|].
    split; [done|lia]. }
  destruct l as [|b l].
  { cbn. exists (r :: results). rewrite app_nil_r. done. }
  apply Forall_cons in Hp as [Hr Hp]. cbn [transfers] in Hn.
  cbn [receive_loop length]. destruct r as [k| |transient again pipe]; [|done|].
  - change (S (length l)) with (length (b :: l)). rewrite chunk_plain.
    set (m := Nat.min (length (b :: l)) (S k)). rewrite plain_fds. cbn [bool_decide]. rewrite bool_decide_false by (by intros []).
    rewrite bool_decide_false by (unfold m; cbn; done).
    rewrite length_fmap, length_take, plain_bytes.
    replace (Nat.min m (length (b :: l))) with m by (unfold m; lia).
    replace (length (b :: l) - m)%nat with (length (drop m (b :: l))) by apply length_drop.
    replace (drop m ((plain <$> b :: l) ++ rest)) with ((plain <$> drop m (b :: l)) ++ rest)
      by (rewrite drop_app_le by (rewrite length_fmap; unfold m; lia); by rewrite fmap_drop).
    destruct (IH (drop m (b :: l)) (bytes ++ take m (b :: l))) as (results' & -> & Hd).
    { split; [done|]. rewrite length_drop. assert (1 <= m)%nat by (unfold m; cbn; lia). cbn in *. lia. }
    exists results'. by rewrite <-app_assoc, take_drop.
  - cbn in Hr. subst transient. apply (IH (b :: l)). split; [done|]. cbn in *. lia.
Qed.

Lemma receive_data_plain results l rest n :
  l <> [] -> delivers results (length l + n) ->
  exists results', receive_data results (length l) ((plain <$> l) ++ rest) = Done (l, rest, results') /\ delivers results' n.
Proof.
  intros Hl Hd. unfold receive_data. rewrite bool_decide_false by (by destruct l).
  destruct (receive_loop_plain results l rest [] n Hd) as (results' & -> & Hd'). by exists results'.
Qed.

(** Receiving the descriptors that were sent together. *)
Lemma receive_fds_sent results descriptors rest n :
  descriptors <> [] -> delivers results (1 + n) ->
  exists results', receive_data_fds results 1 (length descriptors) (send_fds descriptors ++ rest)
    = Done ([77], descriptors, rest, results') /\ delivers results' n.
Proof.
  intros Hne. unfold receive_data_fds. cbn [bool_decide].
  replace (send_fds descriptors) with [mkOctet 77 descriptors] by (by destruct descriptors).
  induction results as [|r results IH]; intros [Hp Hn]; [cbn in Hn; lia|].
  apply Forall_cons in Hp as [Hr Hp]. cbn [transfers] in Hn. cbn [receive_fds_loop app].
  destruct r as [k| |transient again pipe]; [|done|].
  - unfold chunk. cbn [fds]. destruct descriptors as [|d descriptors]; [done|]. cbn [mbind list_bind fds app].
    rewrite app_nil_r. rewrite (proj2 (Nat.ltb_ge _ _)) by lia. cbn [bool_decide].
    rewrite bool_decide_false by done. cbn [length Nat.sub]. rewrite Nat.sub_diag.
    destruct results; cbn; eexists; (split; [reflexivity|]); split; try done; cbn in *; lia.
  - cbn in Hr. subst transient. apply IH. split; [done|]. cbn in *. lia.
Qed.

(** Sending, in whatever pieces. *)
Lemma send_loop_all results buffer stream n :
  delivers results (length buffer + n) ->
  exists results', send_loop results buffer stream = Done (stream ++ (plain <$> buffer), results') /\ delivers results' n.
Proof.
  revert buffer stream. induction results as [|r results IH]; intros buffer stream [Hp Hn].
  { cbn in Hn. destruct buffer; [|cbn in Hn; lia]. exists []. cbn. rewrite app_nil_r. split; [done|]. split; [done|lia]. }
  destruct buffer as [|b buffer]; [exists (r :: results); cbn; by rewrite app_nil_r|].
  apply Forall_cons in Hp as [Hr Hp]. cbn [transfers] in Hn. cbn [send_loop].
  destruct r as [k| |transient again pipe]; [|done|].
  - destruct (IH (drop (S k) (b :: buffer)) (stream ++ (plain <$> take (S k) (b :: buffer)))) as (results' & -> & Hd).
    { split; [done|]. rewrite length_drop. cbn in *. lia. }
    exists results'. by rewrite <-app_assoc, <-fmap_app, take_drop.
  - cbn in Hr. subst transient. apply IH. split; [done|]. cbn in *. lia.
Qed.

(** ** Round trips *)
Definition fits (body : list Z) : Prop := Z.of_nat (length body) < 65536.

Definition octets (body : list Z) : list Octet := plain <$> header_bytes (Z.of_nat (length body)) ++ body.

Lemma receive_message_octets results body rest n :
  fits body -> body <> [] -> delivers results (length (octets body) + n) ->
  exists results', receive_message results (octets body ++ rest) = Done (body, rest, results') /\ delivers results' n.
Proof.
  intros Hf Hne Hd. unfold octets in *. rewrite length_fmap, length_app in Hd.
  unfold receive_message. rewrite fmap_app, <-app_assoc.
  destruct (receive_data_plain results (header_bytes (Z.of_nat (length body))) ((plain <$> body) ++ rest) (length body + n))
    as (results1 & E & Hd1); [done|eapply delivers_weaken; [done|lia]|].
  change (length (header_bytes (Z.of_nat (length body)))) with 2%nat in E. rewrite E. cbn [header_bytes].
  rewrite header_value, Z.mod_small, Nat2Z.id by (unfold fits in Hf; lia). by apply receive_data_plain.
Qed.

(** The client reads a message and then the descriptors that it announces, one
    set at a time ([receive_file_descriptors]). *)
Fixpoint receive_sets (results : list SysResult) (counts : list nat) (stream : list Octet)
  : transfer (list (list Z) * list Octet * list SysResult) :=
  match counts with
  | [] => Done ([], stream, results)
  | n :: counts =>
      match receive_data_fds results 1 n stream with
      | Done (_, got, stream', results') =>
          match receive_sets results' counts stream' with
          | Done (sets, stream'', results'') => Done (got :: sets, stream'', results'')
          | Blocked => Blocked
          | Failed e => Failed e
          end
      | Blocked => Blocked
      | Failed e => Failed e
      end
  end.
Fixpoint receive_messages (expected : list (list nat)) (results : list SysResult) (stream : list Octet)
  : transfer (list (list Z * list (list Z)) * list Octet * list SysResult) :=
  match expected with
  | [] => Done ([], stream, results)
  | counts :: expected =>
      match receive_message results stream with
      | Done (body, stream1, results1) =>
          match receive_sets results1 counts stream1 with
          | Done (sets, stream2, results2) =>
              match receive_messages expected results2 stream2 with
              | Done (msgs, stream3, results3) => Done ((body, sets) :: msgs, stream3, results3)
              | Blocked => Blocked
              | Failed e => Failed e
              end
          | Blocked => Blocked
          | Failed e => Failed e
          end
      | Blocked => Blocked
      | Failed e => Failed e
      end
  end.

Lemma receive_sets_sent results (sets : list (list Z)) rest n :
  Forall (fun s => s <> []) sets -> delivers results (length sets + n) ->
  exists results', receive_sets results (length <$> sets) ((sets ≫= send_fds) ++ rest) = Done (sets, rest, results') /\
    delivers results' n.
Proof.
  intros Hs. revert results. induction Hs as [|s sets Hne _ IH]; intros results Hd; cbn; [by exists results|].
  rewrite <-app_assoc. destruct (receive_fds_sent results s ((sets ≫= send_fds) ++ rest) (length sets + n)) as (r1 & -> & Hd1); [done|done|].
  destruct (IH r1 Hd1) as (r2 & -> & Hd2). by exists r2.
Qed.

(** What a message occupies on the socket. *)
Definition octets_with (msg : list Z * list (list Z)) : list Octet := octets msg.1 ++ (msg.2 ≫= send_fds).

(** The sizes of the sets of descriptors, which the body announces. *)
Definition announced (msg : list Z * list (list Z)) : list nat := length <$> msg.2.

Lemma octets_with_length msg : Forall (fun s => s <> []) msg.2 -> length (octets_with msg) = (length (octets msg.1) + length msg.2)%nat.
Proof.
  intros Hs. unfold octets_with. rewrite length_app. f_equal. induction Hs as [|s sets Hne _ IH]; [done|].
  cbn. rewrite length_app, IH. by destruct s.
Qed.

(** C32: what the server sends the client receives, for bodies of 1 to 65535 bytes
    and sets of at least one file descriptor.  Any sequence of such messages arrives
    complete, in order and with the descriptors of each message attached to it,
    however the socket cuts the stream into pieces and whichever calls are
    interrupted, as long as none meets the end of the stream or would block
    ([delivers]); the number of sets that follow a message is known from the
    message ([announced]).  For longer bodies see [long_message_truncated]. *)
Theorem server_to_client_roundtrip (msgs : list (list Z * list (list Z))) (results : list SysResult) :
  Forall (fun msg => fits msg.1 /\ msg.1 <> [] /\ Forall (fun s => s <> []) msg.2) msgs ->
  let stream := foldl (fun stream msg => messenger_send msg.1 msg.2 stream) [] msgs in
  delivers results (length stream) ->
  exists results', receive_messages (announced <$> msgs) results stream = Done (msgs, [], results').
Proof.
  intros Hm stream Hd.
  assert (Hstream : forall s, foldl (fun stream msg => messenger_send msg.1 msg.2 stream) s msgs = s ++ (msgs ≫= octets_with)).
  { clear. induction msgs as [|msg msgs IH]; intros s; cbn; [by rewrite app_nil_r|]. rewrite IH. unfold messenger_send, octets_with, octets.
    by rewrite <-!app_assoc. }
  unfold stream in *. rewrite Hstream in *. cbn [app] in *. clear stream Hstream. revert results Hd.
  induction Hm as [|[body sets] msgs (Hf & Hne & Hs) _ IH]; intros results Hd; cbn [fmap list_fmap receive_messages]; [by exists results|].
  cbn [mbind list_bind] in *. rewrite length_app, octets_with_length in Hd by done. cbn [fst snd] in *.
  unfold octets_with at 1. cbn [fst snd]. rewrite <-app_assoc.
  destruct (receive_message_octets results body ((sets ≫= send_fds) ++ (msgs ≫= octets_with)) (length sets + length (msgs ≫= octets_with)))
    as (r1 & -> & Hd1); [done|done|eapply delivers_weaken; [done|lia]|].
  destruct (receive_sets_sent r1 sets (msgs ≫= octets_with) (length (msgs ≫= octets_with))) as (r2 & E2 & Hd2); [done|done|].
  unfold announced at 1. cbn [snd]. rewrite E2. destruct (IH r2 Hd2) as (r3 & ->). by exists r3.
Qed.

(** ** From the client to the server *)
Section ToServer.
Context (parse : list Z -> Invocation) (oldest next : Z) (processor_dispatch : list Z -> list Z -> bool).

Fixpoint client_sends (results : list SysResult) (msgs : list (list Z * list Z)) (stream : list Octet)
  : transfer (list Octet * list SysResult) :=
  match msgs with
  | [] => Done (stream, results)
  | (body, descriptors) :: msgs =>
      match channel_send_message results body descriptors stream with
      | Done (stream', results') => client_sends results' msgs stream'
      | Blocked => Blocked
      | Failed e => Failed e
      end
  end.

(** The connection as long as it makes progress, at most [fuel] steps. *)
Fixpoint run_connection (fuel : nat) (st : ReadState) (results : list SysResult) (stream : list Octet)
  : list (list Z * list Z) * ReadState :=
  match fuel with
  | O => ([], st)
  | S f =>
      match connection_step parse oldest next processor_dispatch st results stream with
      | Done (handled, st', stream', results') =>
          let '(rest, st'') := run_connection f st' results' stream' in
          (match handled with Some msg => msg :: rest | None => rest end, st'')
      | Blocked => ([], st)
      | Failed _ => ([], Disconnected)
      end
  end.

(** A message the server accepts: it fits, its version is supported, and it
    announces its descriptors. *)
Definition acceptable (msg : list Z * list Z) : Prop :=
  fits msg.1 /\ (exists v, protocol_version (parse msg.1) = Some v /\ oldest <= v < next) /\
  side_channel_fds (parse msg.1) = length msg.2.

Definition request_octets (msg : list Z * list Z) : list Octet := octets msg.1 ++ send_fds msg.2.

Lemma client_sends_all msgs results stream :
  delivers results (length (msgs ≫= request_octets)) ->
  exists results', client_sends results msgs stream = Done (stream ++ (msgs ≫= request_octets), results').
Proof.
  revert results stream. induction msgs as [|[body d] msgs IH]; intros results stream Hd; cbn [client_sends].
  { exists results. cbn. by rewrite app_nil_r. }
  cbn [mbind list_bind] in *. rewrite length_app in Hd.
  assert (Hl : length (request_octets (body, d)) = (length (header_bytes (Z.of_nat (length body)) ++ body) + length (send_fds d))%nat)
    by (unfold request_octets, octets; cbn [fst snd]; by rewrite length_app, length_fmap).
  unfold channel_send_message, transport_send_message.
  destruct (send_loop_all results (header_bytes (Z.of_nat (length body)) ++ body) stream (length (msgs ≫= request_octets)))
    as (r1 & -> & Hd1).
  { eapply delivers_weaken; [done|]. lia. }
  destruct (IH r1 ((stream ++ (plain <$> header_bytes (Z.of_nat (length body)) ++ body)) ++ send_fds d) Hd1) as (r2 & ->).
  exists r2. do 2 f_equal. unfold request_octets at 2, octets. cbn [fst snd]. by rewrite <-!app_assoc.
Qed.

(** Two steps of the connection handle one message. *)
Lemma connection_handles msg rest results n f :
  acceptable msg -> processor_dispatch msg.1 msg.2 = true -> delivers results (1 + n) ->
  exists results', delivers results' n /\
    run_connection (S (S f)) ReadingHeader results (request_octets msg ++ rest)
    = let '(msgs, st) := run_connection f ReadingHeader results' rest in (msg :: msgs, st).
Proof.
  destruct msg as [body d]. intros (Hf & (v & Hv & Hrange) & Hn) Hproc Hd. cbn [fst snd] in *.
  remember (S f) as f1 eqn:Ef1. cbn [run_connection connection_step]. unfold request_octets, octets. cbn [fst snd].
  unfold read_exactly at 1. cbn [fmap list_fmap app header_bytes length Nat.leb take drop].
  cbn [on_read_size byte plain]. rewrite body_size_be16toh, header_value, Z.mod_small, Nat2Z.id by (unfold fits in Hf; lia).
  subst f1. rewrite take_0, drop_0. cbn [fmap list_fmap run_connection connection_step]. unfold read_exactly.
  rewrite <-app_assoc, (proj2 (Nat.leb_le _ _)) by (rewrite length_app, length_fmap; lia).
  rewrite take_app_length', drop_app_length' by (by rewrite length_fmap). rewrite plain_bytes.
  unfold on_new_message. rewrite Hv, Hn. cbn [default from_option id].
  rewrite (proj2 (Z.ltb_ge v oldest)), (proj2 (Z.leb_gt next v)) by lia. cbn [orb].
  destruct d as [|fd d].
  - cbn [length send_fds app]. rewrite Hproc. exists results. split; [eapply delivers_weaken; [done|lia]|].
    by destruct (run_connection f ReadingHeader results rest).
  - destruct (receive_fds_sent results (fd :: d) rest n) as (results' & E & Hd'); [done|done|]. cbn [length] in *.
    rewrite E, Hproc. exists results'. split; [done|]. by destruct (run_connection f ReadingHeader results' rest).
Qed.

(** what the client sends the server dispatches.  The requests of a client
    reach the message processor complete, in order and with their file
    descriptors, however the calls of [send] and [recv] cut them up, and the
    connection then waits for the next header; for bodies of at most 65535
    bytes with a supported protocol version. *)
Theorem client_to_server_roundtrip (msgs : list (list Z * list Z)) (sent received : list SysResult) :
  Forall acceptable msgs -> Forall (fun msg => processor_dispatch msg.1 msg.2 = true) msgs ->
  delivers sent (length (msgs ≫= request_octets)) -> delivers received (length msgs) ->
  exists stream sent', client_sends sent msgs [] = Done (stream, sent') /\
    forall fuel, (2 * length msgs <= fuel)%nat ->
      run_connection fuel ReadingHeader received stream = (msgs, ReadingHeader).
Proof.
  intros Hm Hp Hs Hr. destruct (client_sends_all msgs sent [] Hs) as (sent' & ->).
  exists (msgs ≫= request_octets), sent'. split; [done|]. clear sent sent' Hs. revert received Hp Hr.
  induction Hm as [|msg msgs Hmsg _ IH]; intros received Hp Hr fuel Hfuel.
  - destruct fuel; [done|]. done.
  - apply Forall_cons in Hp as [Hproc Hp]. destruct fuel as [|[|fuel]]; [cbn in Hfuel; lia|cbn in Hfuel; lia|].
    cbn [mbind list_bind].
    destruct (connection_handles msg (msgs ≫= request_octets) received (length msgs) fuel Hmsg Hproc Hr) as (r1 & Hr1 & ->).
    by rewrite (IH r1 Hp Hr1 fuel) by (cbn in Hfuel; lia).
Qed.
End ToServer.

(** ** Messages that are too long *)
(** a message of 65536 bytes or more breaks the stream.  Neither side checks
    the length, the header keeps its lowest 16 bits: the receiver takes the
    beginning of the body for the whole, and reads what is left of it as the
    following messages. *)
Theorem long_message_truncated (body : list Z) (results : list SysResult) :
  65536 <= Z.of_nat (length body) -> 0 < Z.of_nat (length body) mod 65536 ->
  delivers results (length (messenger_send body [] [])) ->
  let size := Z.to_nat (Z.of_nat (length body) mod 65536) in
  exists results', receive_message results (messenger_send body [] [])
    = Done (take size body, plain <$> drop size body, results') /\ (length (take size body) < length body)%nat.
Proof.
  intros Hlong Hmod Hd size. pose proof (Z.mod_pos_bound (Z.of_nat (length body)) 65536 ltac:(lia)) as Hb.
  assert (Hsize : (size < length body)%nat) by (unfold size; lia).
  unfold messenger_send in *. cbn [mbind list_bind] in *. rewrite app_nil_r in *. cbn [app] in *.
  rewrite length_fmap, length_app in Hd. unfold receive_message. rewrite fmap_app.
  destruct (receive_data_plain results (header_bytes (Z.of_nat (length body))) (plain <$> body) (length body))
    as (r1 & E & Hd1); [done|done|].
  change (length (header_bytes (Z.of_nat (length body)))) with 2%nat in E. rewrite E. cbn [header_bytes].
  rewrite header_value. fold size.
  replace (plain <$> body) with ((plain <$> take size body) ++ (plain <$> drop size body)) by (by rewrite <-fmap_app, take_drop).
  destruct (receive_data_plain r1 (take size body) (plain <$> drop size body) 0) as (r2 & E2 & _).
  - intros Hnil. apply (f_equal length) in Hnil. rewrite length_take in Hnil. cbn in Hnil. unfold size in *. lia.
  - eapply delivers_weaken; [done|]. rewrite length_take. lia.
  - rewrite length_take, Nat.min_l in E2 by lia. rewrite E2. exists r2. split; [done|]. rewrite length_take. lia.
Qed.

(** ** Witnesses *)
(** One byte at a time, with an interruption. *)
Definition trickle (n : nat) : list SysResult := Errno true false false :: replicate n (Transferred 0).

Lemma trickle_delivers n : delivers (trickle n) n.
Proof.
  split.
  - constructor; [done|]. by apply Forall_replicate.
  - cbn. induction n as [|n IH]; cbn; lia.
Qed.

Lemma server_to_client_roundtrip_witness :
  exists results', receive_messages [[1%nat]; []] (trickle 12)
    (messenger_send [9] [] (messenger_send [1; 2; 3] [[40]] [])) = Done ([([1; 2; 3], [[40]]); ([9], [])], [], results').
Proof.
  apply (server_to_client_roundtrip [([1; 2; 3], [[40]]); ([9], [])] (trickle 12)).
  - repeat constructor; done.
  - eapply delivers_weaken; [apply trickle_delivers|]. cbn. lia.
Defined.

Lemma client_to_server_roundtrip_witness :
  let parse := fun body : list Z => mkInvocation (Some 100) (length (filter (fun b => b = 7) body)) in
  exists stream sent', client_sends (trickle 12) [([7; 2], [40]); ([], [])] [] = Done (stream, sent') /\
    run_connection parse 1 200 (fun _ _ => true) 4 ReadingHeader (trickle 2) stream
    = ([([7; 2], [40]); ([], [])], ReadingHeader).
Proof.
  intros parse.
  destruct (client_to_server_roundtrip parse 1 200 (fun _ _ => true) [([7; 2], [40]); ([], [])] (trickle 12) (trickle 2))
    as (stream & sent' & E & H).
  - repeat constructor; try done; (exists 100; split; [reflexivity|lia]).
  - repeat constructor.
  - eapply delivers_weaken; [apply trickle_delivers|]. cbn. lia.
  - apply trickle_delivers.
  - exists stream, sent'. split; [exact E|]. apply (H 4%nat). cbn. lia.
Defined.

Lemma long_message_truncated_witness :
  let body := replicate (Z.to_nat 65537) 5 in
  exists results', receive_message (trickle (Z.to_nat 65539)) (messenger_send body [] [])
    = Done (take 1 body, plain <$> drop 1 body, results') /\ (length (take 1 body) < length body)%nat.
Proof.
  intros body. assert (Hl : Z.of_nat (length body) = 65537) by (unfold body; rewrite length_replicate; lia).
  destruct (long_message_truncated body (trickle (Z.to_nat 65539))) as (results' & E & Hlt).
  - rewrite Hl. lia.
  - rewrite Hl. vm_compute. reflexivity.
  - eapply delivers_weaken; [apply trickle_delivers|]. unfold messenger_send. cbn [mbind list_bind app].
    rewrite app_nil_r, length_fmap, length_app. cbn [header_bytes length]. lia.
  - rewrite Hl in E, Hlt. change (Z.to_nat (65537 mod 65536)) with 1%nat in E, Hlt. exists results'. split; [exact E|exact Hlt].
Defined.
