(* ===== verification/DisplayChanger.v ===== *)
(** * mir::scene::MediatingDisplayChanger

    Which configuration the display shows: the base configuration, the one of
    the session that has the focus, or a preview
    ([src/server/scene/mediating_display_changer.cpp]).  Requests and changes
    of focus become tasks of the server's action queue. *)
From S2P Require Import Prelude Sessions.

(** ** Data *)
(** A configuration is its outputs (with whether they are used) and whatever
    else it says. *)
Record DisplayConf := mkConf { conf_outputs : list (Z * bool); conf_rest : Z; conf_valid : bool }.
#[export] Instance DisplayConf_eq_dec : EqDecision DisplayConf.
Proof. solve_decision. Defined.

(** The closures that the changer puts into the queue. *)
Inductive Task :=
| task_configure (s : Session) (conf : DisplayConf)
| task_remove (s : Session)
| task_preview (s : Session) (conf : DisplayConf)
| task_revert (s : Session)
| task_hardware (conf : DisplayConf)
| task_focus (s : Session)
| task_no_focus
| task_stopping (s : Session)
| task_set_base (conf : DisplayConf).

(** The alarm of a preview: the session it was made for and whether it is
    still to go off. *)
Record PreviewAlarm := mkPreviewAlarm { alarm_session : Session; alarm_pending : bool }.

(** [shown] is the configuration of the display, [action_queue] the part of
    the server's queue that belongs to the changer, [alive] the sessions that
    exist. *)
Record Changer := mkChanger {
  shown : DisplayConf;
  config_map : gmap Session DisplayConf;
  ch_focused : option Session;
  base_configuration_ : DisplayConf;
  base_configuration_applied : bool;
  preview_configuration_timeout : option PreviewAlarm;
  currently_previewing_session : option Session;
  action_queue : list Task;
  alive : gset Session
}.
#[export] Instance Changer_eta : EtaExpansion Changer := fun m =>
  mkChanger (shown m) (config_map m) (ch_focused m) (base_configuration_ m) (base_configuration_applied m)
    (preview_configuration_timeout m) (currently_previewing_session m) (action_queue m) (alive m).

Inductive DisplayCall :=
| compositor_stop
| compositor_start
| configuration_applied (conf : DisplayConf)
| configuration_failed (conf : DisplayConf)
| catastrophic_configuration_error (conf : DisplayConf)
| session_configuration_applied (s : Session) (conf : DisplayConf)
| session_configuration_removed (s : Session)
| base_configuration_updated (conf : DisplayConf)
| configuration_updated_for_session (s : Session) (conf : DisplayConf)
| send_error (s : Session).

Definition DResult : Type := Changer * list DisplayCall * outcome unit.

Definition bad_display_config : exn := runtime_error "Invalid or inconsistent display configuration".
Definition configuration_in_progress : exn := runtime_error "Base display configuration already in progress".
Definition configuration_not_in_progress : exn := runtime_error "No base display configuration preview in progress".

Definition enqueue_task (t : Task) (m : Changer) : Changer := m <| action_queue := action_queue m ++ [t] |>.

Definition ch_lock (m : Changer) (s : option Session) : option Session :=
  match s with Some x => if bool_decide (x ∈ alive m) then Some x else None | None => None end.

Definition used_outputs (conf : DisplayConf) : list Z := omap (fun o : Z * bool => if o.2 then Some o.1 else None) (conf_outputs conf).
Definition configuration_has_new_outputs_enabled (existing updated : DisplayConf) : bool :=
  existsb (fun id => negb (bool_decide (id ∈ used_outputs existing))) (used_outputs updated).

(** Do [r], then [k] unless it throws; both leave what they have done. *)
Definition then_do (r : DResult) (k : Changer -> DResult) : DResult :=
  match r with
  | (m, c, Ret _) => let '(m', c', o) := k m in (m', c ++ c', o)
  | (m, c, Throw e) => (m, c, Throw e)
  end.
(** [try { r } catch (...) { handler }] *)
Definition catching (caught : exn -> bool) (r : DResult) (handler : Changer -> DResult) : DResult :=
  match r with
  | (m, c, Ret _) => r
  | (m, c, Throw e) => if caught e then let '(m', c', o) := handler m in (m', c ++ c', o) else r
  end.
Definition telling (m : Changer) (c : list DisplayCall) : DResult := (m, c, Ret tt).
Definition any_exception (e : exn) : bool := true.
Definition is_runtime_error (e : exn) : bool := match e with runtime_error _ => true | _ => false end.

Section Changing.
(** The display: whether a configuration can be applied without new display
    buffers (and then is), whether it accepts a configuration, what it is left
    with when it does not, and the exception it then throws; the policy for
    new hardware; the connected sessions. *)
Context (preserves : DisplayConf -> DisplayConf -> bool).
Context (accepts : DisplayConf -> bool).
Context (debris : DisplayConf -> DisplayConf -> DisplayConf).
Context (display_error : exn).
Context (policy_apply : DisplayConf -> DisplayConf).
Context (sessions : list Session).

(** [display->configure] with the compositor stopped. *)
Definition reconfigure (m : Changer) (conf : DisplayConf) : DResult :=
  if accepts conf then (m <| shown := conf |>, [compositor_stop; compositor_start], Ret tt)
  else (m <| shown := debris (shown m) conf |>, [compositor_stop; compositor_start], Throw display_error).

Definition apply_config (m : Changer) (conf : DisplayConf) : DResult :=
  let existing := shown m in
  let attempt :=
    if configuration_has_new_outputs_enabled existing conf || negb (preserves existing conf)
    then reconfigure m conf else telling (m <| shown := conf |>) [] in
  match then_do attempt (fun m1 => telling (m1 <| base_configuration_applied := false |>) [configuration_applied conf]) with
  | (m1, c1, Ret _) => (m1, c1, Ret tt)
  | (m1, c1, Throw e) =>
      match reconfigure m1 existing with
      | (m2, c2, Ret _) => (m2, c1 ++ c2 ++ [configuration_failed conf], Throw e)
      | (m2, c2, Throw e2) => (m2, c1 ++ c2 ++ [catastrophic_configuration_error existing], Throw e2)
      end
  end.

Definition apply_base_config (m : Changer) : DResult :=
  then_do (apply_config m (base_configuration_ m)) (fun m1 => telling (m1 <| base_configuration_applied := true |>) []).

Definition send_config_to_all_sessions (conf : DisplayConf) : list DisplayCall :=
  (fun s => configuration_updated_for_session s conf) <$> sessions.

(** ** Requests *)
Definition changer_configure (m : Changer) (s : Session) (conf : DisplayConf) : DResult :=
  if negb (conf_valid conf) then (m, [], Throw bad_display_config)
  else
    let m1 := m <| config_map := <[s := conf]> (config_map m) |> in
    let calls := [session_configuration_applied s conf] in
    if bool_decide (ch_lock m1 (ch_focused m1) = Some s) then telling (enqueue_task (task_configure s conf) m1) calls
    else telling m1 calls.

Definition remove_session_configuration (m : Changer) (s : Session) : DResult :=
  let '(m1, calls) :=
    match config_map m !! s with
    | Some _ => (m <| config_map := delete s (config_map m) |>, [session_configuration_removed s])
    | None => (m, [])
    end in
  if bool_decide (ch_lock m1 (ch_focused m1) = Some s) then telling (enqueue_task (task_remove s) m1) calls
  else telling m1 calls.

Definition preview_base_configuration (m : Changer) (s : Session) (conf : DisplayConf) : DResult :=
  if negb (conf_valid conf) then (m, [], Throw bad_display_config)
  else
    match preview_configuration_timeout m with
    | Some _ => (m, [], Throw configuration_in_progress)
    | None =>
        telling (enqueue_task (task_preview s conf)
                  (m <| preview_configuration_timeout := Some (mkPreviewAlarm s true) |> <| currently_previewing_session := Some s |>)) []
    end.

Definition set_base_configuration (m : Changer) (conf : DisplayConf) : DResult :=
  if negb (conf_valid conf) then (m, [], Throw bad_display_config)
  else telling (enqueue_task (task_set_base conf) m) [].

Definition confirm_base_configuration (m : Changer) (confirmed_conf : DisplayConf) : DResult :=
  set_base_configuration (m <| preview_configuration_timeout := None |> <| currently_previewing_session := None |>) confirmed_conf.

Definition cancel_base_configuration_preview (m : Changer) (s : Session) : DResult :=
  match preview_configuration_timeout m with
  | Some alarm =>
      if bool_decide (ch_lock m (currently_previewing_session m) = Some s) then
        let m1 := m <| preview_configuration_timeout := None |> <| currently_previewing_session := None |> in
        if alarm_pending alarm then telling (enqueue_task (task_revert s) m1) [] else telling m1 []
      else (m, [], Throw configuration_not_in_progress)
  | None => (m, [], Throw configuration_not_in_progress)
  end.

(** The alarm of the preview goes off. *)
Definition preview_timeout (m : Changer) : DResult :=
  match preview_configuration_timeout m with
  | Some (mkPreviewAlarm s true) =>
      let m1 := m <| preview_configuration_timeout := Some (mkPreviewAlarm s false) |> in
      match ch_lock m1 (Some s) with
      | Some _ => then_do (apply_base_config m1) (fun m2 => telling m2 [configuration_updated_for_session s (base_configuration_ m2)])
      | None => telling m1 []
      end
  | _ => telling m []
  end.

(** ** Tasks *)
Definition focus_change_handler (m : Changer) (s : Session) : DResult :=
  let m1 := m <| ch_focused := Some s |> in
  match config_map m1 !! s with
  | Some conf => catching any_exception (apply_config m1 conf) (fun m2 => telling m2 [send_error s])
  | None => if base_configuration_applied m1 then telling m1 [] else apply_base_config m1
  end.

Definition no_focus_handler (m : Changer) : DResult :=
  let m1 := m <| ch_focused := None |> in
  if base_configuration_applied m1 then telling m1 [] else apply_base_config m1.

Definition hardware_changed (m : Changer) (conf : DisplayConf) : DResult :=
  let existing := base_configuration_ m in
  let m1 := m <| base_configuration_ := policy_apply conf |> in
  let r :=
    if base_configuration_applied m1 then
      catching any_exception
        (then_do (apply_base_config m1) (fun m2 => telling m2 [base_configuration_updated (base_configuration_ m2)]))
        (fun m2 => telling (m2 <| base_configuration_ := existing |>) [])
    else telling m1 [] in
  then_do r (fun m2 => telling (m2 <| config_map := ∅ |>) (send_config_to_all_sessions (base_configuration_ m2))).

Definition if_alive (m : Changer) (s : Session) (k : DResult) : DResult := if bool_decide (s ∈ alive m) then k else telling m [].

Definition run_task (m : Changer) (t : Task) : DResult :=
  match t with
  | task_configure s conf =>
      if_alive m s
        (if bool_decide (ch_lock m (ch_focused m) = Some s)
         then catching any_exception (apply_config m conf) (fun m1 => telling m1 [send_error s])
         else telling m [])
  | task_remove s => if_alive m s (catching any_exception (apply_base_config m) (fun m1 => telling m1 [send_error s]))
  | task_preview s conf =>
      if_alive m s
        (catching is_runtime_error
           (then_do (apply_config m conf) (fun m1 => telling m1 [configuration_updated_for_session s conf]))
           (fun m1 => telling m1 [send_error s]))
  | task_revert s =>
      if_alive m s (then_do (apply_base_config m) (fun m1 => telling m1 [configuration_updated_for_session s (base_configuration_ m1)]))
  | task_hardware conf => hardware_changed m conf
  | task_focus s => if_alive m s (focus_change_handler m s)
  | task_no_focus => no_focus_handler m
  | task_stopping s => if_alive m s (telling (m <| config_map := delete s (config_map m) |>) [])
  | task_set_base conf =>
      let m1 := m <| base_configuration_ := conf |> in
      then_do (if base_configuration_applied m1 then apply_base_config m1 else telling m1 [])
        (fun m2 => telling m2 (base_configuration_updated conf :: send_config_to_all_sessions conf))
  end.

(** The server takes the next task. *)
Definition process_task (m : Changer) : DResult :=
  match action_queue m with
  | [] => telling m []
  | t :: rest => run_task (m <| action_queue := rest |>) t
  end.

(** ** Everything that happens to the changer *)
Inductive DisplayOp :=
| OpConfigure (s : Session) (conf : DisplayConf)
| OpRemove (s : Session)
| OpPreview (s : Session) (conf : DisplayConf)
| OpConfirm (conf : DisplayConf)
| OpCancel (s : Session)
| OpTimeout
| OpHardware (conf : DisplayConf)
| OpFocus (s : Session)
| OpNoFocus
| OpStopping (s : Session)
| OpSetBase (conf : DisplayConf)
| OpProcess
| OpSessionGone (s : Session).

Definition display_step (m : Changer) (op : DisplayOp) : DResult :=
  match op with
  | OpConfigure s conf => changer_configure m s conf
  | OpRemove s => remove_session_configuration m s
  | OpPreview s conf => preview_base_configuration m s conf
  | OpConfirm conf => confirm_base_configuration m conf
  | OpCancel s => cancel_base_configuration_preview m s
  | OpTimeout => preview_timeout m
  | OpHardware conf => telling (enqueue_task (task_hardware conf) m) []
  | OpFocus s => telling (enqueue_task (task_focus s) m) []
  | OpNoFocus => telling (enqueue_task task_no_focus m) []
  | OpStopping s => telling (enqueue_task (task_stopping s) m) []
  | OpSetBase conf => set_base_configuration m conf
  | OpProcess => process_task m
  | OpSessionGone s => telling (m <| alive := alive m ∖ {[s]} |>) []
  end.

Definition changer_init (conf : DisplayConf) (live : gset Session) : Changer := mkChanger conf ∅ None conf true None None [] live.

Definition display_run (m : Changer) (ops : list DisplayOp) : Changer := foldl (fun m op => (display_step m op).1.1) m ops.

(** ** Applying a configuration *)
Lemma reconfigure_accepted m conf : accepts conf = true ->
  reconfigure m conf = (m <| shown := conf |>, [compositor_stop; compositor_start], Ret tt).
Proof. unfold reconfigure. by intros ->. Qed.

Lemma apply_config_accepted m conf : accepts conf = true ->
  exists calls, apply_config m conf = (m <| shown := conf |> <| base_configuration_applied := false |>, calls, Ret tt).
Proof.
  intros Hok. unfold apply_config.
  destruct (_ || _); [rewrite (reconfigure_accepted _ _ Hok)|]; cbn; by eexists.
Qed.

Lemma apply_base_accepted m : accepts (base_configuration_ m) = true ->
  exists calls, apply_base_config m =
    (m <| shown := base_configuration_ m |> <| base_configuration_applied := true |>, calls, Ret tt).
Proof.
  intros Hok. unfold apply_base_config. destruct (apply_config_accepted m _ Hok) as [calls ->]. cbn. by eexists.
Qed.

(** The display refuses a configuration: it is given back the one that it had. *)
Lemma apply_config_refused m conf :
  accepts conf = false -> accepts (shown m) = true ->
  configuration_has_new_outputs_enabled (shown m) conf = true \/ preserves (shown m) conf = false ->
  apply_config m conf =
    (m, [compositor_stop; compositor_start; compositor_stop; compositor_start; configuration_failed conf], Throw display_error).
Proof.
  intros Hno Hold Hnew. unfold apply_config.
  replace (_ || _) with true by (destruct Hnew as [-> | ->]; [done|by destruct (configuration_has_new_outputs_enabled _ _)]).
  unfold reconfigure. rewrite Hno. cbn. rewrite Hold. by destruct m.
Qed.

(** ** What the display is to show *)
Definition wanted (m : Changer) : DisplayConf :=
  default (base_configuration_ m) (ch_focused m ≫= fun s => config_map m !! s).

(** The configuration that a task will give a session, if it is about it. *)
Definition own (s : Session) (t : Task) : option (option DisplayConf) :=
  match t with
  | task_configure s' c => if bool_decide (s = s') then Some (Some c) else None
  | task_remove s' => if bool_decide (s = s') then Some None else None
  | _ => None
  end.
Fixpoint intent (s : Session) (q : list Task) : option (option DisplayConf) :=
  match q with
  | [] => None
  | t :: q => match intent s q with Some x => Some x | None => own s t end
  end.
Definition moves_focus (t : Task) : bool := match t with task_focus _ | task_no_focus => true | _ => false end.
Definition removes (t : Task) : bool := match t with task_remove _ => true | _ => false end.

(** Nothing but configurations and changes of focus; a session's
    configuration is changed while it has the focus or after the tasks about
    it are done, and is not removed while a change of focus waits. *)
Definition orderly (m : Changer) (op : DisplayOp) : bool :=
  match op with
  | OpConfigure s conf =>
      bool_decide (s ∈ alive m) && accepts conf &&
      (bool_decide (ch_focused m = Some s) || bool_decide (intent s (action_queue m) = None))
  | OpRemove s =>
      bool_decide (s ∈ alive m) &&
      (if bool_decide (ch_focused m = Some s) then negb (existsb moves_focus (action_queue m))
       else bool_decide (intent s (action_queue m) = None))
  | OpFocus s => bool_decide (s ∈ alive m)
  | OpSetBase conf => accepts conf
  | OpNoFocus | OpProcess => true
  | _ => false
  end.
Fixpoint orderly_run (m : Changer) (ops : list DisplayOp) : bool :=
  match ops with
  | [] => true
  | op :: ops => orderly m op && orderly_run (display_step m op).1.1 ops
  end.

(** The tasks of an orderly run. *)
Definition sound_task (live : gset Session) (t : Task) : Prop :=
  match t with
  | task_configure s c => s ∈ live /\ accepts c = true
  | task_remove s | task_focus s => s ∈ live
  | task_set_base c => accepts c = true
  | task_no_focus => True
  | _ => False
  end.

(** The removals that wait are of the session that has the focus, and it
    keeps the focus until they are done. *)
Fixpoint removals_first (f : option Session) (q : list Task) : Prop :=
  match q with
  | [] => True
  | t :: q =>
      if moves_focus t then existsb removes q = false
      else match t with task_remove s => f = Some s | _ => True end /\ removals_first f q
  end.

(** What is wanted is shown, or a task about the focused session waits. *)
Definition on_the_way (m : Changer) : Prop :=
  (exists s, ch_focused m = Some s /\ intent s (action_queue m) <> None) \/
  match ch_focused m ≫= fun s => config_map m !! s with
  | Some c => shown m = c /\ base_configuration_applied m = false
  | None => base_configuration_applied m = true
  end.

Record ChangerInv (m : Changer) : Prop := {
  ci_tasks : Forall (sound_task (alive m)) (action_queue m);
  ci_base : accepts (base_configuration_ m) = true;
  ci_confs : map_Forall (fun _ c => accepts c = true) (config_map m);
  ci_focus : forall s, ch_focused m = Some s -> s ∈ alive m;
  ci_shown : base_configuration_applied m = true -> shown m = base_configuration_ m;
  ci_intent : forall s x, intent s (action_queue m) = Some x -> config_map m !! s = x;
  ci_removals : removals_first (ch_focused m) (action_queue m);
  ci_now : on_the_way m
}.

Lemma changer_init_inv conf live : accepts conf = true -> ChangerInv (changer_init conf live).
Proof. split; cbn; try done. by right. Qed.

Lemma inv_settled m : ChangerInv m -> action_queue m = [] -> shown m = wanted m.
Proof.
  intros [? ? ? ? Hs ? ? Hnow] Hq. unfold wanted. destruct Hnow as [[s [_ Hi]]|Hnow]; [by rewrite Hq in Hi|].
  destruct (ch_focused m ≫= _); [by destruct Hnow|]. by apply Hs.
Qed.

(** ** Requests keep the invariant *)
Lemma intent_snoc s q t : intent s (q ++ [t]) = match own s t with Some x => Some x | None => intent s q end.
Proof.
  induction q as [|t' q IH]; cbn; [by destruct (own s t)|]. rewrite IH. by destruct (own s t).
Qed.

Lemma removals_first_snoc f q t :
  removals_first f q ->
  (forall s, t = task_remove s -> f = Some s /\ existsb moves_focus q = false) ->
  removals_first f (q ++ [t]).
Proof.
  intros Hq Ht. induction q as [|t' q IH]; cbn in *.
  - destruct t; cbn; try done. by destruct (Ht _ eq_refl).
  - destruct (moves_focus t') eqn:Hm.
    + rewrite existsb_app, Hq. cbn. destruct t; try done. by destruct (Ht _ eq_refl).
    + destruct Hq as [Hh Hq]. split; [done|]. apply IH; [done|]. intros s ->. by destruct (Ht s eq_refl).
Qed.

Lemma sound_tasks_snoc m t :
  Forall (sound_task (alive m)) (action_queue m) -> sound_task (alive m) t -> Forall (sound_task (alive m)) (action_queue m ++ [t]).
Proof. intros. apply Forall_app. split; [done|]. by apply Forall_singleton. Qed.

(** A task that is about no session's configuration. *)
Lemma enqueue_inv m t :
  ChangerInv m -> sound_task (alive m) t -> (forall s, own s t = None) -> removes t = false -> ChangerInv (enqueue_task t m).
Proof.
  intros [? ? ? ? ? Hi Hr Hnow] Ht Hown Hnr. split; cbn; try done.
  - by apply sound_tasks_snoc.
  - intros s x. rewrite intent_snoc, Hown. apply Hi.
  - apply removals_first_snoc; [done|]. by intros s ->.
  - destruct Hnow as [[s [Hf Hs]]|Hnow]; [left|by right]. exists s. cbn. rewrite intent_snoc, Hown. done.
Qed.

(** A task about the session that has the focus, whose configuration becomes
    what the task will make it. *)
Lemma enqueue_own_inv m s t x :
  ChangerInv m -> ch_focused m = Some s -> sound_task (alive m) t ->
  (forall s', own s' t = if bool_decide (s' = s) then Some x else None) ->
  (removes t = true -> t = task_remove s /\ existsb moves_focus (action_queue m) = false) ->
  from_option (fun c => accepts c = true) True x ->
  ChangerInv (enqueue_task t (m <| config_map := partial_alter (fun _ => x) s (config_map m) |>)).
Proof.
  intros [? ? Hc ? ? Hi Hr Hnow] Hf Ht Hown Hrm Hx. split; cbn; try done.
  - by apply sound_tasks_snoc.
  - intros s' c. destruct (decide (s' = s)) as [->|Hne].
    + rewrite lookup_partial_alter_eq. intros ->. done.
    + rewrite lookup_partial_alter_ne by done. apply Hc.
  - intros s' y. rewrite intent_snoc, Hown. case_bool_decide as Hs.
    + intros [= <-]. subst. by rewrite lookup_partial_alter_eq.
    + rewrite lookup_partial_alter_ne by done. apply Hi.
  - apply removals_first_snoc; [done|]. intros s' ->. by destruct (Hrm eq_refl) as [[= ->] ?].
  - left. exists s. cbn. by rewrite intent_snoc, Hown, bool_decide_true.
Qed.

(** The configuration of another session, about which no task waits. *)
Lemma other_config_inv m s x :
  ChangerInv m -> ch_focused m <> Some s -> intent s (action_queue m) = None ->
  from_option (fun c => accepts c = true) True x ->
  ChangerInv (m <| config_map := partial_alter (fun _ => x) s (config_map m) |>).
Proof.
  intros [? ? Hc ? ? Hi ? Hnow] Hf Hnone Hx. split; cbn; try done.
  - intros s' c. destruct (decide (s' = s)) as [->|Hne].
    + rewrite lookup_partial_alter_eq. intros ->. done.
    + rewrite lookup_partial_alter_ne by done. apply Hc.
  - intros s' y Hy. rewrite lookup_partial_alter_ne by congruence. by apply Hi.
  - destruct Hnow as [Hw|Hnow]; [by left|right]. cbn. destruct (ch_focused m) as [f|]; [|done].
    cbn in *. by rewrite lookup_partial_alter_ne by congruence.
Qed.

Lemma lock_focused m s : s ∈ alive m -> ch_lock m (Some s) = Some s.
Proof. intros. cbn. by rewrite bool_decide_true. Qed.

Lemma focus_lock m : ChangerInv m -> ch_lock m (ch_focused m) = ch_focused m.
Proof. intros Hm. destruct (ch_focused m) as [s|] eqn:Hf; [|done]. apply lock_focused. by apply (ci_focus m Hm). Qed.

Lemma focus_lock_config m x : ChangerInv m ->
  ch_lock (m <| config_map := x |>) (ch_focused (m <| config_map := x |>)) = ch_focused m.
Proof. apply (focus_lock m). Qed.

Lemma changer_configure_inv m s conf :
  ChangerInv m -> s ∈ alive m -> accepts conf = true -> ch_focused m = Some s \/ intent s (action_queue m) = None ->
  ChangerInv (changer_configure m s conf).1.1.
Proof.
  intros Hm Hs Hok Hor. unfold changer_configure. destruct (conf_valid conf); [|done]. cbn [negb].
  cbv zeta. rewrite (focus_lock_config m _ Hm).
  case_bool_decide as Hf; cbn [fst].
  - apply (enqueue_own_inv m s _ (Some conf)); try done.
  - apply (other_config_inv m s (Some conf)); try done. by destruct Hor.
Qed.

Lemma remove_session_configuration_inv m s :
  ChangerInv m -> s ∈ alive m ->
  (if bool_decide (ch_focused m = Some s) then negb (existsb moves_focus (action_queue m))
   else bool_decide (intent s (action_queue m) = None)) = true ->
  ChangerInv (remove_session_configuration m s).1.1.
Proof.
  intros Hm Hs Hor. unfold remove_session_configuration.
  assert (Hsame : config_map m !! s = None -> m <| config_map := delete s (config_map m) |> = m).
  { intros. rewrite delete_id by done. by destruct m. }
  assert (HI : ChangerInv (if bool_decide (ch_focused m = Some s)
                           then enqueue_task (task_remove s) (m <| config_map := delete s (config_map m) |>)
                           else m <| config_map := delete s (config_map m) |>)).
  { case_bool_decide as Hf.
    - apply negb_true_iff in Hor. by apply (enqueue_own_inv m s _ None).
    - apply bool_decide_eq_true in Hor. by apply (other_config_inv m s None). }
  destruct (config_map m !! s) eqn:Hc.
  - rewrite (focus_lock_config m _ Hm). by destruct (bool_decide (ch_focused m = Some s)).
  - rewrite (Hsame eq_refl) in HI. rewrite (focus_lock m Hm). by destruct (bool_decide (ch_focused m = Some s)).
Qed.

(** ** Tasks keep the invariant *)
Definition show_conf (c : DisplayConf) (is_base : bool) (m : Changer) : Changer :=
  m <| shown := c |> <| base_configuration_applied := is_base |>.
Definition show_base (m : Changer) : Changer :=
  if base_configuration_applied m then m else show_conf (base_configuration_ m) true m.

(** What a task does when the display accepts the configuration. *)
Definition after_task (m : Changer) (t : Task) : Changer :=
  match t with
  | task_configure s c => if bool_decide (ch_focused m = Some s) then show_conf c false m else m
  | task_remove s => show_conf (base_configuration_ m) true m
  | task_focus s =>
      let m1 := m <| ch_focused := Some s |> in
      match config_map m !! s with Some c => show_conf c false m1 | None => show_base m1 end
  | task_no_focus => show_base (m <| ch_focused := None |>)
  | task_set_base c =>
      let m1 := m <| base_configuration_ := c |> in
      if base_configuration_applied m then show_conf c true m1 else m1
  | _ => m
  end.

Lemma show_base_accepted m : accepts (base_configuration_ m) = true ->
  exists calls, (if base_configuration_applied m then telling m [] else apply_base_config m) = (show_base m, calls, Ret tt).
Proof.
  intros Hok. unfold show_base. destruct (base_configuration_applied m); [by eexists|]. by apply apply_base_accepted.
Qed.

Lemma run_task_after m t :
  sound_task (alive m) t -> accepts (base_configuration_ m) = true ->
  map_Forall (fun _ c => accepts c = true) (config_map m) ->
  (forall s, ch_focused m = Some s -> s ∈ alive m) ->
  exists calls, run_task m t = (after_task m t, calls, Ret tt).
Proof.
  intros Ht Hb Hc Hf.
  assert (Hl : ch_lock m (ch_focused m) = ch_focused m).
  { destruct (ch_focused m) as [f|] eqn:E; [|done]. by apply lock_focused, Hf. }
  destruct t as [s c|s| | | |s| | |c]; cbn [run_task after_task]; try (by destruct Ht); unfold if_alive.
  - destruct Ht as [Hs Hok]. rewrite bool_decide_true, Hl by done. case_bool_decide; [|by eexists].
    destruct (apply_config_accepted m c Hok) as [calls ->]. cbn. by eexists.
  - rewrite bool_decide_true by done. destruct (apply_base_accepted m Hb) as [calls ->]. cbn. by eexists.
  - rewrite bool_decide_true by done. unfold focus_change_handler. cbv zeta.
    change (config_map (m <| ch_focused := _ |>)) with (config_map m).
    destruct (config_map m !! s) as [c|] eqn:E.
    + destruct (apply_config_accepted (m <| ch_focused := Some s |>) c (Hc s c E)) as [calls ->]. cbn. by eexists.
    + by apply (show_base_accepted (m <| ch_focused := Some s |>)).
  - by apply (show_base_accepted (m <| ch_focused := None |>)).
  - change (base_configuration_applied (m <| base_configuration_ := c |>)) with (base_configuration_applied m).
    destruct (base_configuration_applied m); [|by eexists].
    destruct (apply_base_accepted (m <| base_configuration_ := c |>)) as [calls ->]; [exact Ht|]. cbn. by eexists.
Qed.

(** The queue without its first task. *)
Lemma removals_first_tail f t q : removals_first f (t :: q) -> moves_focus t = false -> removals_first f q.
Proof. cbn. intros H Hm. rewrite Hm in H. by destruct H. Qed.
Lemma no_removals f q : existsb removes q = false -> removals_first f q.
Proof.
  induction q as [|t q IH]; cbn; [done|]. intros [Ht Hq]%orb_false_iff. case_match; [done|]. split; [by destruct t|by apply IH].
Qed.
Lemma removals_first_moved f f' t q : removals_first f (t :: q) -> moves_focus t = true -> removals_first f' q.
Proof. cbn. intros H Hm. rewrite Hm in H. by apply no_removals. Qed.

Lemma intent_tail s t q x : intent s q = Some x -> intent s (t :: q) = Some x.
Proof. cbn. by intros ->. Qed.

(** The first task is the last one about the session, or another one is left. *)
Lemma intent_cases s t q x : own s t = Some x -> intent s (t :: q) = Some x \/ intent s q <> None.
Proof. cbn. intros ->. destruct (intent s q); [by right|by left]. Qed.

(** A step that takes the first task and leaves the configurations of the
    sessions alone. *)
Lemma popped_inv m t q m' :
  ChangerInv m -> action_queue m = t :: q ->
  action_queue m' = q -> alive m' = alive m -> config_map m' = config_map m ->
  accepts (base_configuration_ m') = true ->
  (forall s, ch_focused m' = Some s -> s ∈ alive m) ->
  (base_configuration_applied m' = true -> shown m' = base_configuration_ m') ->
  ch_focused m' = ch_focused m \/ moves_focus t = true ->
  on_the_way m' -> ChangerInv m'.
Proof.
  intros [Htasks _ Hc _ _ Hi Hr _] Hq Hq' Ha Hcm Hb Hf Hs Hmove Hnow. rewrite Hq in *.
  apply Forall_cons in Htasks as [_ Htasks]. split; rewrite ?Hq', ?Ha, ?Hcm; try done.
  - intros s x Hx. by apply Hi, intent_tail.
  - destruct (moves_focus t) eqn:Hm; [by apply (removals_first_moved (ch_focused m) _ t)|].
    destruct Hmove as [->|]; [|done]. by apply (removals_first_tail _ t).
Qed.

(** A task about another session than the focused one. *)
Lemma on_the_way_tail m t q m' :
  on_the_way m -> action_queue m = t :: q -> action_queue m' = q ->
  (base_configuration_applied m = false -> shown m' = shown m) ->
  base_configuration_applied m' = base_configuration_applied m ->
  config_map m' = config_map m -> ch_focused m' = ch_focused m ->
  (forall s, ch_focused m = Some s -> own s t = None) -> on_the_way m'.
Proof.
  intros Hnow Hq Hq' Hs Ha Hc Hf Hown. unfold on_the_way. rewrite Hq', Ha, Hc, Hf.
  destruct Hnow as [[s [Hfs Hi]]|Hnow]; [left|right].
  2: { destruct (ch_focused m ≫= _); [|done]. destruct Hnow as [<- Hb]. by rewrite Hs. }
  exists s. split; [done|]. rewrite Hq in Hi. cbn in Hi. rewrite (Hown s Hfs) in Hi. by destruct (intent s q).
Qed.

(** A task about the focused session that shows what it asks for. *)
Lemma own_shown m s t q x m' :
  ChangerInv m -> action_queue m = t :: q -> own s t = Some x ->
  action_queue m' = q -> config_map m' = config_map m -> ch_focused m' = Some s ->
  match x with
  | Some c => shown m' = c /\ base_configuration_applied m' = false
  | None => base_configuration_applied m' = true
  end -> on_the_way m'.
Proof.
  intros Hm Hq Hown Hq' Hc Hf Hx. unfold on_the_way. rewrite Hq', Hc, Hf.
  destruct (intent_cases s t q x Hown) as [Hi|Hi]; [right|left; by exists s].
  rewrite <- Hq in Hi. cbn. by rewrite (ci_intent m Hm s x Hi).
Qed.

(** A change of the focus. *)
Lemma refocused_inv m t q f :
  ChangerInv m -> action_queue m = t :: q -> moves_focus t = true -> (forall s, f = Some s -> s ∈ alive m) ->
  let m1 := m <| action_queue := q |> <| ch_focused := f |> in
  ChangerInv (match f ≫= fun s => config_map m !! s with Some c => show_conf c false m1 | None => show_base m1 end).
Proof.
  intros Hm Hq Ht Hf m1. pose proof Hm as [_ Hb Hc _ Hs _ _ _].
  destruct (f ≫= _) as [c|] eqn:E.
  - apply (popped_inv m t q); try (done || exact Hf); [by right|]. right. cbn. by rewrite E.
  - unfold show_base. cbn. destruct (base_configuration_applied m) eqn:Ea.
    + apply (popped_inv m t q); try (done || exact Hf); [by intros _; apply Hs|by right|]. right. cbn. by rewrite E.
    + apply (popped_inv m t q); try (done || exact Hf); [by right|]. right. cbn. by rewrite E.
Qed.

Lemma after_inv m t q :
  ChangerInv m -> action_queue m = t :: q -> ChangerInv (after_task (m <| action_queue := q |>) t).
Proof.
  intros Hm Hq. pose proof Hm as [Htasks Hb Hc Hf Hs Hi Hr Hnow]. rewrite Hq in Htasks, Hr.
  apply Forall_cons in Htasks as [Ht _].
  destruct t as [s c|s| | | |s| | |c]; try (by destruct Ht); cbn [after_task].
  - cbn. case_bool_decide as Hfs.
    + apply (popped_inv m (task_configure s c) q); try (done || exact Hf || exact Hs); [by left|].
      apply (own_shown m s (task_configure s c) q (Some c)); try done. cbn. by rewrite bool_decide_true.
    + apply (popped_inv m (task_configure s c) q); try (done || exact Hf || exact Hs); [by left|].
      apply (on_the_way_tail m (task_configure s c) q); try done.
      intros s' Hs'. cbn. rewrite bool_decide_false by congruence. done.
  - destruct Hr as [Hfs _]. apply (popped_inv m (task_remove s) q); try (done || exact Hf || exact Hs); [by left|].
    apply (own_shown m s (task_remove s) q None); try done. cbn. by rewrite bool_decide_true.
  - apply (refocused_inv m (task_focus s) q (Some s)); try done. by intros ? [= <-].
  - by apply (refocused_inv m task_no_focus q None).
  - cbn. destruct (base_configuration_applied m) eqn:Ea.
    + apply (popped_inv m (task_set_base c) q); try (done || exact Hf); [by left|].
      by apply (on_the_way_tail m (task_set_base c) q); cbn; rewrite ?Ea.
    + apply (popped_inv m (task_set_base c) q); try (done || exact Hf); [by cbn; rewrite Ea|by left|].
      by apply (on_the_way_tail m (task_set_base c) q).
Qed.

Lemma process_inv m : ChangerInv m ->
  ChangerInv (process_task m).1.1 /\ (process_task m).2 = Ret tt /\ action_queue (process_task m).1.1 = tail (action_queue m).
Proof.
  intros Hm. unfold process_task. destruct (action_queue m) as [|t q] eqn:Hq; [done|].
  pose proof Hm as [Htasks Hb Hc Hf _ _ _ _]. rewrite Hq in Htasks. apply Forall_cons in Htasks as [Ht _].
  destruct (run_task_after (m <| action_queue := q |>) t) as [calls ->]; [done..|]. cbn [fst snd].
  split; [by apply after_inv|]. split; [done|].
  destruct t; cbn; unfold show_base; repeat case_match; done.
Qed.

Lemma display_step_inv m op : ChangerInv m -> orderly m op = true -> ChangerInv (display_step m op).1.1.
Proof.
  intros Hm Hop. destruct op as [s c|s| | | | | |s| | |c| |]; try done; cbn [display_step orderly] in *.
  - apply andb_true_iff in Hop as [[Hs%bool_decide_eq_true Hok]%andb_true_iff Hor%orb_true_iff].
    rewrite !bool_decide_eq_true in Hor. by apply changer_configure_inv.
  - apply andb_true_iff in Hop as [Hs%bool_decide_eq_true Hor]. by apply remove_session_configuration_inv.
  - apply bool_decide_eq_true in Hop. by apply enqueue_inv.
  - by apply enqueue_inv.
  - unfold set_base_configuration. destruct (conf_valid c); [|done]. by apply enqueue_inv.
  - by apply process_inv.
Qed.

Lemma orderly_run_inv ops m : ChangerInv m -> orderly_run m ops = true -> ChangerInv (display_run m ops).
Proof.
  revert m. induction ops as [|op ops IH]; intros m Hm Hrun; [done|]. apply andb_true_iff in Hrun as [Hop Hrun].
  apply IH; [|done]. by apply display_step_inv.
Qed.

(** The server works off the queue. *)
Lemma drained_inv m : ChangerInv m ->
  ChangerInv (display_run m (replicate (length (action_queue m)) OpProcess)) /\
  action_queue (display_run m (replicate (length (action_queue m)) OpProcess)) = [].
Proof.
  remember (action_queue m) as q eqn:Hq. revert m Hq.
  induction q as [|t q IH]; intros m Hq Hm; [done|]. destruct (process_inv m Hm) as (Hm' & _ & Hq').
  apply (IH (process_task m).1.1); [|done]. rewrite Hq', <- Hq. done.
Qed.

(** C11: (invariant) Sessions ask for configurations and give them up, the focus
    moves and the base configuration is replaced.  As long as these are the only
    requests, the sessions live, the display accepts every configuration asked
    for, a session that is not focused asks only while none of its own changes
    waits, and a focused one gives up its configuration only while no change of
    the focus waits ([orderly]): when the server has worked off its queue the
    display shows the configuration of the session that has the focus, or the
    base configuration when that session has none or none has the focus.  The
    examples at the end break one condition each. *)
Theorem display_follows_focus conf live ops :
  accepts conf = true -> orderly_run (changer_init conf live) ops = true ->
  let m := display_run (changer_init conf live) ops in
  let m' := display_run m (replicate (length (action_queue m)) OpProcess) in
  (process_task m).2 = Ret tt /\ action_queue m' = [] /\ shown m' = wanted m'.
Proof.
  intros Hok Hrun m m'. pose proof (orderly_run_inv ops _ (changer_init_inv conf live Hok) Hrun) as Hm. fold m in Hm.
  destruct (drained_inv m Hm) as [Hm' Hq]. fold m' in Hm', Hq.
  split; [by apply process_inv|]. split; [done|]. by apply inv_settled.
Qed.

(** ** Previews *)
(** The preview that [m] has is still there in [m']. *)
Definition same_preview (m m' : Changer) : Prop :=
  (is_Some (preview_configuration_timeout m) -> is_Some (preview_configuration_timeout m')) /\
  currently_previewing_session m' = currently_previewing_session m /\ alive m' ⊆ alive m.

#[local] Instance same_preview_preorder : PreOrder same_preview.
Proof.
  split; [by intros m; split|]. intros m1 m2 m3 (Ha & Hb & Hc) (Ha' & Hb' & Hc').
  split; [auto|]. split; [by rewrite Hb'|]. by transitivity (alive m2).
Qed.

Lemma then_do_frame m r k :
  same_preview m r.1.1 -> (forall m1, same_preview m m1 -> same_preview m (k m1).1.1) -> same_preview m (then_do r k).1.1.
Proof. destruct r as [[m1 c] [[]|e]]; cbn; [|done]. intros H Hk. specialize (Hk m1 H). by destruct (k m1) as [[? ?] ?]. Qed.

Lemma catching_frame m e r h :
  same_preview m r.1.1 -> (forall m1, same_preview m m1 -> same_preview m (h m1).1.1) -> same_preview m (catching e r h).1.1.
Proof.
  destruct r as [[m1 c] [[]|x]]; cbn; [done|]. intros H Hh. destruct (e x); [|done].
  specialize (Hh m1 H). by destruct (h m1) as [[? ?] ?].
Qed.

Lemma reconfigure_frame m conf : same_preview m (reconfigure m conf).1.1.
Proof. unfold reconfigure. by destruct (accepts conf). Qed.

Lemma apply_config_frame m conf : same_preview m (apply_config m conf).1.1.
Proof.
  unfold apply_config.
  assert (H : same_preview m (then_do
    (if configuration_has_new_outputs_enabled (shown m) conf || negb (preserves (shown m) conf)
     then reconfigure m conf else telling (m <| shown := conf |>) [])
    (fun m1 => telling (m1 <| base_configuration_applied := false |>) [configuration_applied conf])).1.1).
  { apply then_do_frame; [|done]. destruct (_ || _); [apply reconfigure_frame|done]. }
  cbv zeta. destruct (then_do _ _) as [[m1 c1] [[]|e]]; [done|].
  pose proof (reconfigure_frame m1 (shown m)) as H2. destruct (reconfigure m1 (shown m)) as [[m2 c2] [[]|e2]]; by transitivity m1.
Qed.

Lemma apply_base_frame m : same_preview m (apply_base_config m).1.1.
Proof. apply then_do_frame; [apply apply_config_frame|done]. Qed.

Lemma apply_config_frame' m m1 conf : same_preview m m1 -> same_preview m (apply_config m1 conf).1.1.
Proof. intros H. transitivity m1; [done|apply apply_config_frame]. Qed.
Lemma apply_base_frame' m m1 : same_preview m m1 -> same_preview m (apply_base_config m1).1.1.
Proof. intros H. transitivity m1; [done|apply apply_base_frame]. Qed.

Lemma run_task_frame m t : same_preview m (run_task m t).1.1.
Proof.
  destruct t; cbn [run_task]; unfold if_alive, hardware_changed, focus_change_handler, no_focus_handler; cbv zeta;
  repeat first [apply then_do_frame | apply catching_frame | apply apply_config_frame' | apply apply_base_frame'
               | done | case_match | intros ? ?].
Qed.

(** Neither a confirmation nor a cancellation by the session of the preview. *)
Definition leaves_preview (p : Session) (op : DisplayOp) : bool :=
  match op with OpConfirm _ => false | OpCancel s => negb (bool_decide (s = p)) | _ => true end.

Lemma step_frame m p op :
  is_Some (preview_configuration_timeout m) -> currently_previewing_session m = Some p ->
  leaves_preview p op = true -> same_preview m (display_step m op).1.1.
Proof.
  intros [a Ha] Hp Hop. destruct op; cbn [display_step]; try done.
  - unfold changer_configure. by repeat case_match.
  - unfold remove_session_configuration. by destruct (config_map m !! s); repeat case_match.
  - unfold preview_base_configuration. rewrite Ha. by case_match.
  - unfold cancel_base_configuration_preview. rewrite Ha, Hp. cbn in Hop.
    rewrite bool_decide_false; [done|]. case_bool_decide; [done|]. cbn. case_match; congruence.
  - unfold preview_timeout. rewrite Ha. destruct a as [s [|]]; [|done]. case_match; [|done].
    apply then_do_frame; [|done]. by apply apply_base_frame'.
  - unfold set_base_configuration. by case_match.
  - unfold process_task. destruct (action_queue m); [done|].
    etransitivity; [|apply run_task_frame]. done.
  - split; [done|]. split; [done|]. cbn. set_solver.
Qed.

Lemma run_frame m p ops :
  is_Some (preview_configuration_timeout m) -> currently_previewing_session m = Some p ->
  forallb (leaves_preview p) ops = true ->
  is_Some (preview_configuration_timeout (display_run m ops)) /\
  currently_previewing_session (display_run m ops) = Some p /\ alive (display_run m ops) ⊆ alive m.
Proof.
  revert m. induction ops as [|op ops IH]; intros m Ha Hp Hops; [done|].
  cbn in Hops. apply andb_true_iff in Hops as [Hop Hops].
  destruct (step_frame m p op Ha Hp Hop) as (Ha' & Hp' & Hl).
  destruct (IH (display_step m op).1.1) as (? & ? & ?); [by apply Ha'|by rewrite Hp'|done|].
  split; [done|]. split; [done|]. by transitivity (alive (display_step m op).1.1).
Qed.

Lemma cancel_refused m p s : currently_previewing_session m = Some p -> p ∉ alive m \/ s <> p ->
  cancel_base_configuration_preview m s = (m, [], Throw configuration_not_in_progress).
Proof.
  intros Hp Hs. unfold cancel_base_configuration_preview. rewrite Hp. destruct (preview_configuration_timeout m); [|done].
  rewrite bool_decide_false; [done|]. cbn. case_bool_decide; [|done]. intros [= ->]. by destruct Hs.
Qed.

Lemma run_preview m s conf : s ∈ alive m -> accepts conf = true ->
  (run_task m (task_preview s conf)).1.1 = show_conf conf false m.
Proof.
  intros Hs Hok. cbn [run_task]. unfold if_alive. rewrite bool_decide_true by done.
  by destruct (apply_config_accepted m conf Hok) as [calls ->].
Qed.

Lemma run_timeout m s : preview_configuration_timeout m = Some (mkPreviewAlarm s true) ->
  s ∈ alive m -> accepts (base_configuration_ m) = true ->
  (preview_timeout m).1.1 = show_conf (base_configuration_ m) true (m <| preview_configuration_timeout := Some (mkPreviewAlarm s false) |>).
Proof.
  intros Ha Hs Hok. unfold preview_timeout. rewrite Ha. cbv zeta. cbn [ch_lock]. cbn.
  rewrite bool_decide_true by done.
  by destruct (apply_base_accepted (m <| preview_configuration_timeout := Some (mkPreviewAlarm s false) |>)) as [calls ->].
Qed.

(** The previewed configuration is shown, and base again after the timeout. *)
Lemma preview_then_timeout m s conf :
  preview_configuration_timeout m = None -> action_queue m = [] -> s ∈ alive m ->
  conf_valid conf = true -> accepts conf = true -> accepts (base_configuration_ m) = true ->
  let m1 := display_run m [OpPreview s conf; OpProcess] in
  let m2 := display_run m1 [OpTimeout] in
  shown m1 = conf /\ shown m2 = base_configuration_ m /\ base_configuration_applied m2 = true /\
  preview_configuration_timeout m2 = Some (mkPreviewAlarm s false) /\ currently_previewing_session m2 = Some s /\
  alive m2 = alive m.
Proof.
  intros Hn Hq Hs Hv Hok Hb m1 m2.
  set (m0 := m <| preview_configuration_timeout := Some (mkPreviewAlarm s true) |> <| currently_previewing_session := Some s |>).
  assert (H1 : m1 = show_conf conf false (m0 <| action_queue := [] |>)).
  { change m1 with (process_task (preview_base_configuration m s conf).1.1).1.1.
    assert (E : (preview_base_configuration m s conf).1.1 = enqueue_task (task_preview s conf) m0).
    { unfold preview_base_configuration. by rewrite Hv, Hn. }
    rewrite E. unfold process_task. replace (action_queue (enqueue_task _ m0)) with [task_preview s conf] by (cbn; by rewrite Hq).
    by rewrite run_preview. }
  split; [by rewrite H1|].
  assert (H2 : m2 = (preview_timeout m1).1.1) by done. rewrite H2, (run_timeout m1 s); by rewrite H1.
Qed.

(** (error) A preview shows its configuration and, when it is not confirmed
    in time, the base configuration again; but the changer goes on considering
    it in progress.  Unless a configuration is confirmed or the very session
    cancels the preview that is long over, every later preview, of whichever
    session, fails, and when that session has ended nobody can cancel it. *)
Theorem preview_never_ends m s conf ops :
  preview_configuration_timeout m = None -> action_queue m = [] -> s ∈ alive m ->
  conf_valid conf = true -> accepts conf = true -> accepts (base_configuration_ m) = true ->
  forallb (leaves_preview s) ops = true ->
  let m1 := display_run m [OpPreview s conf; OpProcess] in
  let m2 := display_run m1 [OpTimeout] in
  let m3 := display_run m2 ops in
  shown m1 = conf /\ shown m2 = base_configuration_ m /\ base_configuration_applied m2 = true /\
  (forall s' conf', conf_valid conf' = true ->
    preview_base_configuration m3 s' conf' = (m3, [], Throw configuration_in_progress)) /\
  (s ∉ alive m3 -> forall s', cancel_base_configuration_preview m3 s' = (m3, [], Throw configuration_not_in_progress)).
Proof.
  intros Hn Hq Hs Hv Hok Hb Hops m1 m2 m3.
  destruct (preview_then_timeout m s conf) as (H1 & H2 & H3 & H4 & H5 & _); [done..|]. fold m1 in H1. fold m1 m2 in H2, H3, H4, H5.
  destruct (run_frame m2 s ops) as ([a Ha] & Hp & _); [by rewrite H4|done|done|]. fold m3 in Ha, Hp.
  do 3 (split; [done|]). split.
  - intros s' conf' Hv'. unfold preview_base_configuration. by rewrite Hv', Ha.
  - intros Hdead s'. apply (cancel_refused m3 s); [done|by left].
Qed.
End Changing.

(** ** Examples *)
Definition example_conf (n : Z) : DisplayConf := mkConf [(1, true)] n true.
Definition example_run : Changer -> list DisplayOp -> Changer :=
  display_run (fun _ _ => false) conf_valid (fun _ c => c) (runtime_error "rejected") (fun c => c) [1; 2].
Definition example_init : Changer := changer_init (example_conf 0) {[1; 2]}.

Definition example_ops : list DisplayOp :=
  [OpFocus 1; OpConfigure 2 (example_conf 2); OpProcess; OpConfigure 1 (example_conf 1); OpProcess;
   OpRemove 1; OpSetBase (example_conf 3); OpProcess; OpFocus 2; OpProcess].

Lemma display_follows_focus_witness :
  let m := example_run example_init example_ops in
  let m' := example_run m (replicate (length (action_queue m)) OpProcess) in
  wanted m' = example_conf 2 /\ action_queue m' = [] /\ shown m' = wanted m'.
Proof.
  split; [by vm_compute|].
  apply (display_follows_focus (fun _ _ => false) conf_valid (fun _ c => c) (runtime_error "rejected") (fun c => c) [1; 2]
    (example_conf 0) {[1; 2]} example_ops); [reflexivity|by vm_compute].
Defined.

Lemma preview_never_ends_witness :
  let m1 := example_run example_init [OpPreview 1 (example_conf 5); OpProcess] in
  let m3 := example_run (example_run m1 [OpTimeout]) [OpSessionGone 1] in
  shown m1 = example_conf 5 /\
  preview_base_configuration m3 2 (example_conf 6) = (m3, [], Throw configuration_in_progress).
Proof.
  intros m1 m3.
  pose proof (preview_never_ends (fun _ _ => false) conf_valid (fun _ c => c) (runtime_error "rejected") (fun c => c) [1; 2]
    example_init 1 (example_conf 5) [OpSessionGone 1] eq_refl eq_refl
    (bool_decide_eq_true_1 _ (eq_refl : bool_decide (1 ∈ alive example_init) = true)) eq_refl eq_refl eq_refl eq_refl)
    as (H1 & _ & _ & H & _).
  split; [exact H1|]. exact (H 2 (example_conf 6) eq_refl).
Defined.

(** Each condition of [orderly] is needed.  A session that removes its
    configuration while a change of focus waits takes the new session's
    configuration from the screen. *)
Example removal_overrides_focus :
  let m := example_run example_init
    [OpConfigure 2 (example_conf 2); OpFocus 1; OpProcess; OpFocus 2; OpRemove 1; OpProcess; OpProcess] in
  action_queue m = [] /\ ch_focused m = Some 2 /\ wanted m = example_conf 2 /\ shown m = example_conf 0.
Proof. by vm_compute. Qed.

(** A configuration that a session asked for before it lost and regained the
    focus is applied over the newer one that it asked for in between. *)
Example stale_configuration_applied :
  let m := example_run example_init
    [OpFocus 1; OpProcess; OpFocus 2; OpFocus 1; OpConfigure 1 (example_conf 1); OpProcess;
     OpConfigure 1 (example_conf 9); OpProcess; OpProcess] in
  action_queue m = [] /\ ch_focused m = Some 1 /\ wanted m = example_conf 9 /\ shown m = example_conf 1.
Proof. by vm_compute. Qed.

(** The hardware changes while a session's own configuration is shown: the
    configurations of the sessions are dropped, but it stays on the screen. *)
Example hardware_change_keeps_session_configuration :
  let m := example_run example_init
    [OpConfigure 1 (example_conf 1); OpFocus 1; OpProcess; OpHardware (example_conf 7); OpProcess] in
  action_queue m = [] /\ config_map m = ∅ /\ wanted m = example_conf 7 /\ shown m = example_conf 1.
Proof. by vm_compute. Qed.

(** A session that ends during its preview leaves the preview on the screen. *)
Example preview_of_dead_session_stays :
  let m := example_run example_init [OpPreview 1 (example_conf 5); OpProcess; OpSessionGone 1; OpTimeout] in
  shown m = example_conf 5 /\ base_configuration_ m = example_conf 0.
Proof. by vm_compute. Qed.
