(* ===== verification/SurfaceSpec.v ===== *)
(** * Specifications of surfaces

    What a client asks for a surface, in the three forms that it takes on its
    way: [shell::SurfaceSpecification], [scene::SurfaceCreationParameters] and
    [miral::WindowSpecification], with the merging of and the conversions
    between them ([src/server/shell/surface_specification.cpp],
    [src/server/scene/surface_creation_parameters.cpp],
    [src/miral/window_specification.cpp]). *)
From S2P Require Import Prelude Geometry WindowInfo.

(** ** Data *)
Inductive MirEdgeAttachment := mir_edge_attachment_vertical | mir_edge_attachment_horizontal | mir_edge_attachment_any.
#[export] Instance MirEdgeAttachment_eq_dec : EqDecision MirEdgeAttachment.
Proof. solve_decision. Defined.
#[export] Instance StreamSpecification_eq_dec : EqDecision StreamSpecification.
Proof. solve_decision. Defined.
Definition mir_placement_hints_flip_any : Z := Z.lor mir_placement_hints_flip_x mir_placement_hints_flip_y.

Record StreamCursor := mkStreamCursor { sc_stream : option Z; sc_hotspot : Displacement }.

(** [shell::SurfaceSpecification]: everything is optional. *)
Record SurfaceSpecification := mkSurfaceSpec {
  ss_top_left : option Point;
  ss_width : option Z;
  ss_height : option Z;
  ss_pixel_format : option Z;
  ss_buffer_usage : option Z;
  ss_name : option string;
  ss_output_id : option Z;
  ss_type : option MirWindowType;
  ss_state : option MirWindowState;
  ss_preferred_orientation : option Z;
  ss_parent_id : option Z;
  ss_aux_rect : option Rectangle;
  ss_edge_attachment : option MirEdgeAttachment;
  ss_placement_hints : option MirPlacementHints;
  ss_surface_placement_gravity : option MirPlacementGravity;
  ss_aux_rect_placement_gravity : option MirPlacementGravity;
  ss_aux_rect_placement_offset_x : option Z;
  ss_aux_rect_placement_offset_y : option Z;
  ss_min_width : option Z;
  ss_min_height : option Z;
  ss_max_width : option Z;
  ss_max_height : option Z;
  ss_width_inc : option Z;
  ss_height_inc : option Z;
  ss_min_aspect : option AspectRatio;
  ss_max_aspect : option AspectRatio;
  ss_streams : option (list StreamSpecification);
  ss_parent : option (option Window);
  ss_input_shape : option (list Rectangle);
  ss_shell_chrome : option Z;
  ss_confine_pointer : option Z;
  ss_cursor_image : option Z;
  ss_stream_cursor : option StreamCursor;
  ss_depth_layer : option MirDepthLayer;
  ss_attached_edges : option MirPlacementGravity;
  ss_exclusive_rect : option (option Rectangle);
  ss_application_id : option string
}.
#[export] Instance SurfaceSpecification_eta : EtaExpansion SurfaceSpecification := fun s =>
  mkSurfaceSpec
    (ss_top_left s) (ss_width s) (ss_height s) (ss_pixel_format s) (ss_buffer_usage s) (ss_name s)
    (ss_output_id s) (ss_type s) (ss_state s) (ss_preferred_orientation s) (ss_parent_id s) (ss_aux_rect s)
    (ss_edge_attachment s) (ss_placement_hints s) (ss_surface_placement_gravity s)
    (ss_aux_rect_placement_gravity s) (ss_aux_rect_placement_offset_x s) (ss_aux_rect_placement_offset_y s)
    (ss_min_width s) (ss_min_height s) (ss_max_width s) (ss_max_height s) (ss_width_inc s) (ss_height_inc s)
    (ss_min_aspect s) (ss_max_aspect s) (ss_streams s) (ss_parent s) (ss_input_shape s) (ss_shell_chrome s)
    (ss_confine_pointer s) (ss_cursor_image s) (ss_stream_cursor s) (ss_depth_layer s) (ss_attached_edges s)
    (ss_exclusive_rect s) (ss_application_id s).
Definition surface_spec_empty : SurfaceSpecification :=
  mkSurfaceSpec
    None None None None None None None None None None None None None None None None None None None None None
    None None None None None None None None None None None None None None None None.

(** [scene::SurfaceCreationParameters]; [cp_content] and [cp_parent] are weak
    pointers. *)
Record SurfaceCreationParameters := mkParams {
  cp_name : string;
  cp_size : Size;
  cp_top_left : Point;
  cp_buffer_usage : Z;
  cp_pixel_format : Z;
  cp_input_mode : Z;
  cp_output_id : Z;
  cp_state : option MirWindowState;
  cp_type : option MirWindowType;
  cp_preferred_orientation : option Z;
  cp_parent_id : option Z;
  cp_content : option Z;
  cp_aux_rect : option Rectangle;
  cp_edge_attachment : option MirEdgeAttachment;
  cp_placement_hints : option MirPlacementHints;
  cp_surface_placement_gravity : option MirPlacementGravity;
  cp_aux_rect_placement_gravity : option MirPlacementGravity;
  cp_aux_rect_placement_offset_x : option Z;
  cp_aux_rect_placement_offset_y : option Z;
  cp_parent : option Window;
  cp_min_width : option Z;
  cp_min_height : option Z;
  cp_max_width : option Z;
  cp_max_height : option Z;
  cp_width_inc : option Z;
  cp_height_inc : option Z;
  cp_min_aspect : option AspectRatio;
  cp_max_aspect : option AspectRatio;
  cp_input_shape : option (list Rectangle);
  cp_shell_chrome : option Z;
  cp_streams : option (list StreamSpecification);
  cp_confine_pointer : option Z;
  cp_depth_layer : option MirDepthLayer;
  cp_attached_edges : option MirPlacementGravity;
  cp_exclusive_rect : option Rectangle;
  cp_application_id : option string;
  cp_server_side_decorated : option bool
}.
#[export] Instance SurfaceCreationParameters_eta : EtaExpansion SurfaceCreationParameters := fun p =>
  mkParams
    (cp_name p) (cp_size p) (cp_top_left p) (cp_buffer_usage p) (cp_pixel_format p) (cp_input_mode p)
    (cp_output_id p) (cp_state p) (cp_type p) (cp_preferred_orientation p) (cp_parent_id p) (cp_content p)
    (cp_aux_rect p) (cp_edge_attachment p) (cp_placement_hints p) (cp_surface_placement_gravity p)
    (cp_aux_rect_placement_gravity p) (cp_aux_rect_placement_offset_x p) (cp_aux_rect_placement_offset_y p)
    (cp_parent p) (cp_min_width p) (cp_min_height p) (cp_max_width p) (cp_max_height p) (cp_width_inc p)
    (cp_height_inc p) (cp_min_aspect p) (cp_max_aspect p) (cp_input_shape p) (cp_shell_chrome p)
    (cp_streams p) (cp_confine_pointer p) (cp_depth_layer p) (cp_attached_edges p) (cp_exclusive_rect p)
    (cp_application_id p) (cp_server_side_decorated p).

(** ** Merging *)
Definition or_keep {A} (new old : option A) : option A := match new with Some x => Some x | None => old end.

(** [SurfaceSpecification::update_from] *)
Definition spec_update_from (self that : SurfaceSpecification) : SurfaceSpecification :=
  mkSurfaceSpec
    (or_keep (ss_top_left that) (ss_top_left self)) (or_keep (ss_width that) (ss_width self))
    (or_keep (ss_height that) (ss_height self)) (or_keep (ss_pixel_format that) (ss_pixel_format self))
    (or_keep (ss_buffer_usage that) (ss_buffer_usage self)) (or_keep (ss_name that) (ss_name self))
    (or_keep (ss_output_id that) (ss_output_id self)) (or_keep (ss_type that) (ss_type self))
    (or_keep (ss_state that) (ss_state self))
    (or_keep (ss_preferred_orientation that) (ss_preferred_orientation self))
    (or_keep (ss_parent_id that) (ss_parent_id self)) (or_keep (ss_aux_rect that) (ss_aux_rect self))
    (or_keep (ss_edge_attachment that) (ss_edge_attachment self))
    (or_keep (ss_placement_hints that) (ss_placement_hints self))
    (or_keep (ss_surface_placement_gravity that) (ss_surface_placement_gravity self))
    (or_keep (ss_aux_rect_placement_gravity that) (ss_aux_rect_placement_gravity self))
    (or_keep (ss_aux_rect_placement_offset_x that) (ss_aux_rect_placement_offset_x self))
    (or_keep (ss_aux_rect_placement_offset_y that) (ss_aux_rect_placement_offset_y self))
    (or_keep (ss_min_width that) (ss_min_width self)) (or_keep (ss_min_height that) (ss_min_height self))
    (or_keep (ss_max_width that) (ss_max_width self)) (or_keep (ss_max_height that) (ss_max_height self))
    (or_keep (ss_width_inc that) (ss_width_inc self)) (or_keep (ss_height_inc that) (ss_height_inc self))
    (or_keep (ss_min_aspect that) (ss_min_aspect self)) (or_keep (ss_max_aspect that) (ss_max_aspect self))
    (or_keep (ss_streams that) (ss_streams self)) (or_keep (ss_parent that) (ss_parent self))
    (or_keep (ss_input_shape that) (ss_input_shape self))
    (or_keep (ss_shell_chrome that) (ss_shell_chrome self))
    (or_keep (ss_confine_pointer that) (ss_confine_pointer self))
    (or_keep (ss_cursor_image that) (ss_cursor_image self))
    (or_keep (ss_stream_cursor that) (ss_stream_cursor self))
    (or_keep (ss_depth_layer that) (ss_depth_layer self))
    (or_keep (ss_attached_edges that) (ss_attached_edges self))
    (or_keep (ss_exclusive_rect that) (ss_exclusive_rect self))
    (or_keep (ss_application_id that) (ss_application_id self)).

Definition unset {A} (o : option A) : bool := match o with Some _ => false | None => true end.

(** [SurfaceSpecification::is_empty]: eight fields are not looked at. *)
Definition spec_is_empty (s : SurfaceSpecification) : bool :=
  unset (ss_top_left s) &&
  unset (ss_width s) &&
  unset (ss_height s) &&
  unset (ss_pixel_format s) &&
  unset (ss_buffer_usage s) &&
  unset (ss_name s) &&
  unset (ss_output_id s) &&
  unset (ss_type s) &&
  unset (ss_state s) &&
  unset (ss_preferred_orientation s) &&
  unset (ss_parent_id s) &&
  unset (ss_aux_rect s) &&
  unset (ss_edge_attachment s) &&
  unset (ss_min_width s) &&
  unset (ss_min_height s) &&
  unset (ss_max_width s) &&
  unset (ss_max_height s) &&
  unset (ss_width_inc s) &&
  unset (ss_height_inc s) &&
  unset (ss_min_aspect s) &&
  unset (ss_max_aspect s) &&
  unset (ss_streams s) &&
  unset (ss_parent s) &&
  unset (ss_input_shape s) &&
  unset (ss_shell_chrome s) &&
  unset (ss_depth_layer s) &&
  unset (ss_attached_edges s) &&
  unset (ss_exclusive_rect s) &&
  unset (ss_application_id s).

(** [SurfaceCreationParameters::update_from]: the size changes only when both
    of its parts are set. *)
Definition params_update_from (self : SurfaceCreationParameters) (that : SurfaceSpecification) : SurfaceCreationParameters :=
  mkParams
    (default (cp_name self) (ss_name that))
    (match ss_width that, ss_height that with Some w, Some h => mkSize w h | _, _ => cp_size self end)
    (default (cp_top_left self) (ss_top_left that)) (default (cp_buffer_usage self) (ss_buffer_usage that))
    (default (cp_pixel_format self) (ss_pixel_format that)) (cp_input_mode self)
    (default (cp_output_id self) (ss_output_id that)) (or_keep (ss_state that) (cp_state self))
    (or_keep (ss_type that) (cp_type self))
    (or_keep (ss_preferred_orientation that) (cp_preferred_orientation self))
    (or_keep (ss_parent_id that) (cp_parent_id self)) (cp_content self)
    (or_keep (ss_aux_rect that) (cp_aux_rect self))
    (or_keep (ss_edge_attachment that) (cp_edge_attachment self))
    (or_keep (ss_placement_hints that) (cp_placement_hints self))
    (or_keep (ss_surface_placement_gravity that) (cp_surface_placement_gravity self))
    (or_keep (ss_aux_rect_placement_gravity that) (cp_aux_rect_placement_gravity self))
    (or_keep (ss_aux_rect_placement_offset_x that) (cp_aux_rect_placement_offset_x self))
    (or_keep (ss_aux_rect_placement_offset_y that) (cp_aux_rect_placement_offset_y self))
    (default (cp_parent self) (ss_parent that)) (or_keep (ss_min_width that) (cp_min_width self))
    (or_keep (ss_min_height that) (cp_min_height self)) (or_keep (ss_max_width that) (cp_max_width self))
    (or_keep (ss_max_height that) (cp_max_height self)) (or_keep (ss_width_inc that) (cp_width_inc self))
    (or_keep (ss_height_inc that) (cp_height_inc self)) (or_keep (ss_min_aspect that) (cp_min_aspect self))
    (or_keep (ss_max_aspect that) (cp_max_aspect self)) (or_keep (ss_input_shape that) (cp_input_shape self))
    (or_keep (ss_shell_chrome that) (cp_shell_chrome self)) (or_keep (ss_streams that) (cp_streams self))
    (or_keep (ss_confine_pointer that) (cp_confine_pointer self))
    (or_keep (ss_depth_layer that) (cp_depth_layer self))
    (or_keep (ss_attached_edges that) (cp_attached_edges self))
    (default (cp_exclusive_rect self) (ss_exclusive_rect that))
    (or_keep (ss_application_id that) (cp_application_id self)) (cp_server_side_decorated self).

(** ** miral::WindowSpecification *)
(** An old style of placement, made explicit; [any] are the hints for an
    attachment to any edge. *)
Definition attach_to_edge (any : MirPlacementHints) (edge : option MirEdgeAttachment) (spec : WindowSpecification) : WindowSpecification :=
  match edge, sp_placement_hints spec with
  | Some e, None =>
      let '(gravity, hints) :=
        match e with
        | mir_edge_attachment_vertical => (mir_placement_gravity_northeast, mir_placement_hints_flip_x)
        | mir_edge_attachment_horizontal => (mir_placement_gravity_southwest, mir_placement_hints_flip_y)
        | mir_edge_attachment_any => (mir_placement_gravity_northeast, any)
        end in
      spec <| sp_window_placement_gravity := Some mir_placement_gravity_northwest |>
           <| sp_aux_rect_placement_gravity := Some gravity |>
           <| sp_placement_hints := Some hints |>
  | _, _ => spec
  end.

Definition both_offsets (x y : option Z) : option Displacement :=
  match x, y with Some x, Some y => Some (mkDisplacement x y) | _, _ => None end.

(** The constructor from a [SurfaceSpecification]. *)
Definition window_spec_of (spec : SurfaceSpecification) : WindowSpecification :=
  attach_to_edge (Z.lor mir_placement_hints_flip_any mir_placement_hints_antipodes) (ss_edge_attachment spec)
    (mkSpec
       (ss_top_left spec)
       (match ss_width spec, ss_height spec with Some w, Some h => Some (mkSize w h) | _, _ => None end)
       (ss_name spec) (ss_output_id spec) (ss_type spec) (ss_state spec) (ss_preferred_orientation spec)
       (ss_aux_rect spec) (ss_placement_hints spec) (ss_surface_placement_gravity spec)
       (ss_aux_rect_placement_gravity spec)
       (both_offsets (ss_aux_rect_placement_offset_x spec) (ss_aux_rect_placement_offset_y spec))
       (ss_min_width spec) (ss_min_height spec) (ss_max_width spec) (ss_max_height spec) (ss_width_inc spec)
       (ss_height_inc spec) (ss_min_aspect spec) (ss_max_aspect spec) (ss_parent spec) (ss_input_shape spec)
       (ss_shell_chrome spec) (ss_confine_pointer spec) (ss_depth_layer spec) (ss_attached_edges spec)
       (ss_exclusive_rect spec) (ss_application_id spec) None (ss_pixel_format spec) (ss_buffer_usage spec)
       None (ss_streams spec) None).

(** The constructor from [SurfaceCreationParameters]; the exclusive rectangle
    is always set, perhaps to none. *)
Definition window_spec_of_params (params : SurfaceCreationParameters) : WindowSpecification :=
  attach_to_edge mir_placement_hints_flip_any (cp_edge_attachment params)
    (mkSpec
       (Some (cp_top_left params)) (Some (cp_size params)) (Some (cp_name params))
       (Some (cp_output_id params)) (cp_type params) (cp_state params) (cp_preferred_orientation params)
       (cp_aux_rect params) (cp_placement_hints params) (cp_surface_placement_gravity params)
       (cp_aux_rect_placement_gravity params)
       (both_offsets (cp_aux_rect_placement_offset_x params) (cp_aux_rect_placement_offset_y params))
       (cp_min_width params) (cp_min_height params) (cp_max_width params) (cp_max_height params)
       (cp_width_inc params) (cp_height_inc params) (cp_min_aspect params) (cp_max_aspect params)
       (Some (cp_parent params)) (cp_input_shape params) (cp_shell_chrome params) (cp_confine_pointer params)
       (cp_depth_layer params) (cp_attached_edges params) (Some (cp_exclusive_rect params))
       (cp_application_id params) None (Some (cp_pixel_format params)) (Some (cp_buffer_usage params))
       (cp_content params) (cp_streams params) (Some (cp_input_mode params))).

(** [update]: what is set goes into the parameters.  [exclusive_rect.value()]
    is read also when it is not set, which is fatal. *)
Definition spec_write (spec : WindowSpecification) (params : SurfaceCreationParameters) : outcome SurfaceCreationParameters :=
  match sp_exclusive_rect spec with
  | None => Throw fatal_error
  | Some exclusive_rect =>
      Ret (mkParams
        (default (cp_name params) (sp_name spec)) (default (cp_size params) (sp_size spec))
        (default (cp_top_left params) (sp_top_left spec))
        (default (cp_buffer_usage params) (sp_buffer_usage spec))
        (default (cp_pixel_format params) (sp_pixel_format spec))
        (default (cp_input_mode params) (sp_input_mode spec))
        (default (cp_output_id params) (sp_output_id spec)) (or_keep (sp_state spec) (cp_state params))
        (or_keep (sp_type spec) (cp_type params))
        (or_keep (sp_preferred_orientation spec) (cp_preferred_orientation params)) (cp_parent_id params)
        (or_keep (sp_content spec) (cp_content params)) (or_keep (sp_aux_rect spec) (cp_aux_rect params))
        (cp_edge_attachment params) (or_keep (sp_placement_hints spec) (cp_placement_hints params))
        (or_keep (sp_window_placement_gravity spec) (cp_surface_placement_gravity params))
        (or_keep (sp_aux_rect_placement_gravity spec) (cp_aux_rect_placement_gravity params))
        (or_keep (dx <$> sp_aux_rect_placement_offset spec) (cp_aux_rect_placement_offset_x params))
        (or_keep (dy <$> sp_aux_rect_placement_offset spec) (cp_aux_rect_placement_offset_y params))
        (default (cp_parent params) (sp_parent spec)) (or_keep (sp_min_width spec) (cp_min_width params))
        (or_keep (sp_min_height spec) (cp_min_height params))
        (or_keep (sp_max_width spec) (cp_max_width params))
        (or_keep (sp_max_height spec) (cp_max_height params))
        (or_keep (sp_width_inc spec) (cp_width_inc params))
        (or_keep (sp_height_inc spec) (cp_height_inc params))
        (or_keep (sp_min_aspect spec) (cp_min_aspect params))
        (or_keep (sp_max_aspect spec) (cp_max_aspect params))
        (or_keep (sp_input_shape spec) (cp_input_shape params))
        (or_keep (sp_shell_chrome spec) (cp_shell_chrome params))
        (or_keep (sp_streams spec) (cp_streams params))
        (or_keep (sp_confine_pointer spec) (cp_confine_pointer params))
        (or_keep (sp_depth_layer spec) (cp_depth_layer params))
        (or_keep (sp_attached_edges spec) (cp_attached_edges params))
        (or_keep exclusive_rect (cp_exclusive_rect params))
        (or_keep (sp_application_id spec) (cp_application_id params)) (cp_server_side_decorated params))
  end.

(** ** Merging is associative *)
Lemma or_keep_assoc {A} (a b c : option A) : or_keep (or_keep a b) c = or_keep a (or_keep b c).
Proof. by destruct a. Qed.
Lemma or_keep_none {A} (a : option A) : or_keep a None = a.
Proof. by destruct a. Qed.
Lemma or_keep_same {A} (a : option A) : or_keep a a = a.
Proof. by destruct a. Qed.
Lemma or_keep_default {A} (a b : option A) (x : A) : default (default x b) a = default x (or_keep a b).
Proof. by destruct a. Qed.

Lemma spec_update_assoc a b c : spec_update_from (spec_update_from a b) c = spec_update_from a (spec_update_from b c).
Proof. unfold spec_update_from. cbn. by rewrite !or_keep_assoc. Qed.
Lemma spec_update_empty_r a : spec_update_from a surface_spec_empty = a.
Proof. by destruct a. Qed.
Lemma spec_update_empty_l a : spec_update_from surface_spec_empty a = a.
Proof. destruct a. unfold spec_update_from. cbn. by rewrite !or_keep_none. Qed.

(** Both parts of the size or none. *)
Definition whole_size (s : SurfaceSpecification) : Prop := is_Some (ss_width s) <-> is_Some (ss_height s).

(** Requests that arrive before the surface exists may be merged. *)
Lemma params_update_merged p a b : whole_size a -> whole_size b ->
  params_update_from (params_update_from p a) b = params_update_from p (spec_update_from a b).
Proof.
  intros Ha Hb. unfold params_update_from, spec_update_from. cbn. rewrite !or_keep_assoc, !or_keep_default. f_equal.
  unfold whole_size in *. destruct (ss_width a), (ss_height a), (ss_width b), (ss_height b); cbn; try done;
    exfalso; (destruct Ha as [H1 H2] || destruct Hb as [H1 H2]); naive_solver (eauto using mk_is_Some).
Qed.

(** ** Round trips *)
(** The parameters [q] with everything that [p] sets. *)
Definition overlay (p q : SurfaceCreationParameters) : SurfaceCreationParameters :=
  mkParams
    (cp_name p) (cp_size p) (cp_top_left p) (cp_buffer_usage p) (cp_pixel_format p) (cp_input_mode p)
    (cp_output_id p) (or_keep (cp_state p) (cp_state q)) (or_keep (cp_type p) (cp_type q))
    (or_keep (cp_preferred_orientation p) (cp_preferred_orientation q)) (cp_parent_id q)
    (or_keep (cp_content p) (cp_content q)) (or_keep (cp_aux_rect p) (cp_aux_rect q)) (cp_edge_attachment q)
    (or_keep (cp_placement_hints p) (cp_placement_hints q))
    (or_keep (cp_surface_placement_gravity p) (cp_surface_placement_gravity q))
    (or_keep (cp_aux_rect_placement_gravity p) (cp_aux_rect_placement_gravity q))
    (or_keep (cp_aux_rect_placement_offset_x p) (cp_aux_rect_placement_offset_x q))
    (or_keep (cp_aux_rect_placement_offset_y p) (cp_aux_rect_placement_offset_y q)) (cp_parent p)
    (or_keep (cp_min_width p) (cp_min_width q)) (or_keep (cp_min_height p) (cp_min_height q))
    (or_keep (cp_max_width p) (cp_max_width q)) (or_keep (cp_max_height p) (cp_max_height q))
    (or_keep (cp_width_inc p) (cp_width_inc q)) (or_keep (cp_height_inc p) (cp_height_inc q))
    (or_keep (cp_min_aspect p) (cp_min_aspect q)) (or_keep (cp_max_aspect p) (cp_max_aspect q))
    (or_keep (cp_input_shape p) (cp_input_shape q)) (or_keep (cp_shell_chrome p) (cp_shell_chrome q))
    (or_keep (cp_streams p) (cp_streams q)) (or_keep (cp_confine_pointer p) (cp_confine_pointer q))
    (or_keep (cp_depth_layer p) (cp_depth_layer q)) (or_keep (cp_attached_edges p) (cp_attached_edges q))
    (or_keep (cp_exclusive_rect p) (cp_exclusive_rect q))
    (or_keep (cp_application_id p) (cp_application_id q)) (cp_server_side_decorated q).

(** (roundtrip) A window specification made from creation parameters and
    written to other parameters carries everything that the first set, field
    by field, and touches nothing else; written back to the same parameters it
    changes nothing. *)
Theorem window_spec_roundtrip p q :
  cp_edge_attachment p = None \/ is_Some (cp_placement_hints p) ->
  is_Some (cp_aux_rect_placement_offset_x p) <-> is_Some (cp_aux_rect_placement_offset_y p) ->
  spec_write (window_spec_of_params p) q = Ret (overlay p q) /\
  spec_write (window_spec_of_params p) p = Ret p.
Proof.
  intros Hedge Hoff.
  assert (Hany : forall q, spec_write (window_spec_of_params p) q = Ret (overlay p q)).
  { clear q. intros q. unfold window_spec_of_params, attach_to_edge. cbn [sp_placement_hints].
    assert (Hm : forall A (a b : A), match cp_edge_attachment p, cp_placement_hints p with Some _, None => a | _, _ => b end = b).
    { intros A a b. destruct Hedge as [->|[h ->]]; [done|]. by destruct (cp_edge_attachment p). }
    destruct (cp_edge_attachment p), (cp_placement_hints p) eqn:Eh; cbn;
      try (by specialize (Hm _ true false)); unfold overlay; rewrite ?Eh; f_equal; f_equal;
      destruct (cp_aux_rect_placement_offset_x p), (cp_aux_rect_placement_offset_y p); cbn; try done;
      exfalso; destruct Hoff; naive_solver (eauto using mk_is_Some). }
  split; [done|]. rewrite Hany. f_equal. destruct p. unfold overlay. cbn. by rewrite !or_keep_same.
Qed.

Definition example_creation : SurfaceCreationParameters :=
  mkParams "window" (mkSize 640 480) (mkPoint 10 20) 0 1 0 7 (Some mir_window_state_restored) (Some mir_window_type_normal)
    None None (Some 5) None (Some mir_edge_attachment_any) (Some mir_placement_hints_flip_x) None None (Some 3) (Some 4) None
    (Some 100) None (Some 1000) None None None None (Some (mkAspectRatio 4 3)) None None None None None None
    (Some (mkRectangle point_zero (mkSize 640 30))) (Some "app") (Some true).

Lemma window_spec_roundtrip_witness :
  spec_write (window_spec_of_params example_creation) example_creation = Ret example_creation.
Proof.
  apply (window_spec_roundtrip example_creation example_creation); [right; by eexists|].
  by split; intros _; eexists.
Defined.

(** ** What gets lost *)
(** [is_empty] holds also of specifications that ask for something. *)
Lemma spec_is_empty_misses (hints : MirPlacementHints) (confine : Z) :
  spec_is_empty (surface_spec_empty <| ss_placement_hints := Some hints |> <| ss_confine_pointer := Some confine |>) = true.
Proof. done. Qed.

(** A request for a new width alone does not reach the window manager. *)
Lemma width_alone_is_dropped (w : Z) :
  window_spec_of (surface_spec_empty <| ss_width := Some w |>) = window_spec_of surface_spec_empty.
Proof. done. Qed.

(** A specification that a policy makes itself cannot be written to the
    parameters of a new window unless it sets the exclusive rectangle. *)
Lemma fresh_spec_is_fatal params : spec_write spec_empty params = Throw fatal_error.
Proof. done. Qed.

(** The same attachment means different hints for a new window and for one
    that is modified. *)
Lemma edge_attachment_differs p :
  cp_edge_attachment p = Some mir_edge_attachment_any -> cp_placement_hints p = None ->
  sp_placement_hints (window_spec_of_params p) <>
  sp_placement_hints (window_spec_of (surface_spec_empty <| ss_edge_attachment := Some mir_edge_attachment_any |>)).
Proof. intros He Hh. unfold window_spec_of_params, attach_to_edge. cbn. by rewrite He, Hh. Qed.
