(* ===== verification/WlSurfaces.v ===== *)
(** * Wayland surfaces and subsurfaces

    [WlSurface] and [WlSubsurface] ([src/server/frontend_wayland/wl_surface.cpp],
    [wl_subcompositor.cpp]): the state a client prepares and commits, the
    trees that subsurfaces form, the state that a synchronized subsurface
    keeps until its parent commits, and what a tree of surfaces looks like to
    the shell and to the pointer. *)
From S2P Require Import Prelude Geometry.

(** ** Data *)
(** A [wl_buffer] resource: the buffer it stands for and its size. *)
Record WlBuffer := mkWlBuffer { wb_id : Z; wb_size : Size }.

(** [struct WlSurfaceState].  A [Some None] for the buffer is the null buffer,
    for the input shape the null region. *)
Record WlSurfaceState := mkWlSurfaceState {
  st_buffer : option (option WlBuffer);
  st_offset : option Displacement;
  st_input_shape : option (option (list Rectangle));
  st_frame_callbacks : list Z;
  surface_data_invalidated : bool
}.
#[export] Instance WlSurfaceState_eta : EtaExpansion WlSurfaceState := fun m =>
  mkWlSurfaceState (st_buffer m) (st_offset m) (st_input_shape m) (st_frame_callbacks m) (surface_data_invalidated m).

Definition new_state : WlSurfaceState := mkWlSurfaceState None None None [] false.

(** What the pointer [role] of a surface points to; the role of a cursor is
    another [NullWlSurfaceRole]. *)
Inductive WlRole := null_role | subsurface_role | window_role | cursor_role.
#[export] Instance WlRole_eq_dec : EqDecision WlRole.
Proof. solve_decision. Defined.

(** [wl_children] holds the surfaces of the child subsurfaces, from bottom to
    top.  (A [WlSubsurface] is the role of one surface and has its identity.) *)
Record WlSurface := mkWlSurface {
  wl_role : WlRole;
  wl_children : list Z;
  pending : WlSurfaceState;
  offset_ : Displacement;
  buffer_size_ : option Size;
  frame_callbacks : list Z;
  wl_input_shape : option (list Rectangle)
}.
#[export] Instance WlSurface_eta : EtaExpansion WlSurface := fun m =>
  mkWlSurface (wl_role m) (wl_children m) (pending m) (offset_ m) (buffer_size_ m) (frame_callbacks m) (wl_input_shape m).

(** [sub_parent] may be the identity of a surface that has been destroyed. *)
Record WlSubsurface := mkWlSubsurface {
  sub_parent : Z;
  synchronized_ : bool;
  cached_state : option WlSurfaceState
}.
#[export] Instance WlSubsurface_eta : EtaExpansion WlSubsurface := fun m =>
  mkWlSubsurface (sub_parent m) (synchronized_ m) (cached_state m).

(** The surfaces and subsurfaces that exist, and the frame callbacks that have
    been destroyed. *)
Record WlObjects := mkWlObjects {
  wl_surfaces : gmap Z WlSurface;
  wl_subsurfaces : gmap Z WlSubsurface;
  gone_callbacks : gset Z
}.
#[export] Instance WlObjects_eta : EtaExpansion WlObjects := fun m =>
  mkWlObjects (wl_surfaces m) (wl_subsurfaces m) (gone_callbacks m).

(** The streams of a tree with their displacements, and its input shape. *)
Record SurfaceData := mkSurfaceData { sd_streams : list (Z * Displacement); sd_input_shape : list Rectangle }.
#[export] Instance SurfaceData_eq_dec : EqDecision SurfaceData.
Proof. solve_decision. Defined.

(** What the surfaces tell others: a buffer for their stream, a frame event
    for the client, a warning in the log; and what they ask of the window at
    the root of their tree. *)
Inductive WlCall :=
| stream_submit (s : Z) (b : WlBuffer)
| send_done_event (callback : Z)
| warning (what : string)
| refresh_surface_data (window : Z) (data : SurfaceData).

Definition WlResult : Type := WlObjects * list WlCall.

(** ** WlSurfaceState *)
Definition or_else {A} (a b : option A) : option A := match a with Some x => Some x | None => b end.
Definition update_from (self source : WlSurfaceState) : WlSurfaceState :=
  mkWlSurfaceState
    (or_else (st_buffer source) (st_buffer self))
    (or_else (st_offset source) (st_offset self))
    (or_else (st_input_shape source) (st_input_shape self))
    (st_frame_callbacks self ++ st_frame_callbacks source)
    (surface_data_invalidated source || surface_data_invalidated self).

Definition invalidate_surface_data (st : WlSurfaceState) : WlSurfaceState := st <| surface_data_invalidated := true |>.

Definition surface_data_needs_refresh (st : WlSurfaceState) : bool :=
  bool_decide (is_Some (st_offset st)) || bool_decide (is_Some (st_input_shape st)) || surface_data_invalidated st.

(** ** WlSurface *)
Definition new_surface : WlSurface := mkWlSurface null_role [] new_state displacement_zero None [] None.

Definition alter_surface (s : Z) (f : WlSurface -> WlSurface) (w : WlObjects) : WlObjects :=
  w <| wl_surfaces := alter f s (wl_surfaces w) |>.
Definition alter_subsurface (s : Z) (f : WlSubsurface -> WlSubsurface) (w : WlObjects) : WlObjects :=
  w <| wl_subsurfaces := alter f s (wl_subsurfaces w) |>.

(** [role->synchronized()]; a subsurface asks the surface it took for its
    parent, also when that surface has been destroyed. *)
Fixpoint synchronized (fuel : nat) (w : WlObjects) (s : Z) : outcome bool :=
  match fuel with
  | O => Throw out_of_fuel
  | S f =>
      match wl_surfaces w !! s with
      | None => Throw use_after_free
      | Some su =>
          match wl_role su, wl_subsurfaces w !! s with
          | subsurface_role, Some sub =>
              if synchronized_ sub then Ret true
              else if bool_decide (is_Some (wl_surfaces w !! sub_parent sub)) then synchronized f w (sub_parent sub)
              else Throw use_after_free
          | subsurface_role, None => Throw use_after_free
          | _, _ => Ret false
          end
      end
  end.

Record Position := mkPosition { position : Point; pos_surface : Z; is_in_input_region : bool }.

Definition surface_size (su : WlSurface) : Size := default (mkSize 0 0) (buffer_size_ su).

(** The first of the children that accepts the point. *)
Fixpoint first_hit (hit : Z -> outcome Position) (children : list Z) : outcome (option Position) :=
  match children with
  | [] => Ret None
  | c :: rest => r ← hit c; if is_in_input_region r then Ret (Some r) else first_hit hit rest
  end.

Fixpoint transform_point (fuel : nat) (w : WlObjects) (s : Z) (point : Point) : outcome Position :=
  match fuel with
  | O => Throw out_of_fuel
  | S f =>
      match wl_surfaces w !! s with
      | None => Throw use_after_free
      | Some su =>
          let point := point_sub_disp point (offset_ su) in
          child ← first_hit (fun c => transform_point f w c point) (reverse (wl_children su));
          match child with
          | Some result => Ret result
          | None =>
              let surface_rect := mkRectangle point_zero (surface_size su) in
              Ret (mkPosition point s
                    (existsb (fun rect => contains_point (intersection_with rect surface_rect) point)
                             (default [surface_rect] (wl_input_shape su))))
          end
      end
  end.

(** *** Surface data *)
Definition data_append (a b : SurfaceData) : SurfaceData :=
  mkSurfaceData (sd_streams a ++ sd_streams b) (sd_input_shape a ++ sd_input_shape b).

Definition moved_by (d : Displacement) (r : Rectangle) : Rectangle := mkRectangle (point_add (top_left r) d) (r_size r).

(** A surface without its children. *)
Definition own_data (s : Z) (su : WlSurface) (offset : Displacement) : SurfaceData :=
  let surface_rect := mkRectangle (point_add point_zero offset) (surface_size su) in
  mkSurfaceData [(s, offset)]
    (match wl_input_shape su with
     | Some rects => (fun rect => intersection_with (moved_by offset rect) surface_rect) <$> rects
     | None => [surface_rect]
     end).

Fixpoint append_each (data : Z -> outcome SurfaceData) (acc : SurfaceData) (children : list Z) : outcome SurfaceData :=
  match children with
  | [] => Ret acc
  | c :: rest => d ← data c; append_each data (data_append acc d) rest
  end.

Fixpoint populate_surface_data (fuel : nat) (w : WlObjects) (s : Z) (parent_offset : Displacement) : outcome SurfaceData :=
  match fuel with
  | O => Throw out_of_fuel
  | S f =>
      match wl_surfaces w !! s with
      | None => Throw use_after_free
      | Some su =>
          let offset := displacement_add parent_offset (offset_ su) in
          append_each (fun c => populate_surface_data f w c offset) (own_data s su offset) (wl_children su)
      end
  end.

(** *** Frame callbacks *)
Definition done_events (w : WlObjects) (callbacks : list Z) : list WlCall :=
  send_done_event <$> filter (fun c => c ∉ gone_callbacks w) callbacks.

Definition send_frame_callbacks (w : WlObjects) (s : Z) : WlResult :=
  match wl_surfaces w !! s with
  | None => (w, [])
  | Some su =>
      (w <| wl_surfaces := <[s := su <| frame_callbacks := [] |>]> (wl_surfaces w) |>
         <| gone_callbacks := gone_callbacks w ∪ list_to_set (frame_callbacks su) |>,
       done_events w (frame_callbacks su))
  end.

(** *** Commits *)
(** The surface takes over the committed state; a buffer is submitted, and
    without one the frame callbacks are sent at once. *)
Definition take_state (su : WlSurface) (st : WlSurfaceState) : WlSurface :=
  su <| frame_callbacks := frame_callbacks su ++ st_frame_callbacks st |>
     <| offset_ := default (offset_ su) (st_offset st) |>
     <| wl_input_shape := default (wl_input_shape su) (st_input_shape st) |>
     <| buffer_size_ := match st_buffer st with Some b => wb_size <$> b | None => buffer_size_ su end |>.

(** The input shape has to be recalculated for a new size. *)
Definition invalidates (su : WlSurface) (st : WlSurfaceState) : bool :=
  match st_buffer st with
  | Some (Some b) =>
      bool_decide (default (wl_input_shape su) (st_input_shape st) = None) &&
      negb (bool_decide (buffer_size_ su = Some (wb_size b)))
  | _ => false
  end.

Definition commit_own (w : WlObjects) (s : Z) (su : WlSurface) (st : WlSurfaceState) : WlResult :=
  let w1 := w <| wl_surfaces := <[s := take_state su st]> (wl_surfaces w) |> in
  match st_buffer st with
  | Some (Some b) => (w1, [stream_submit s b])
  | _ => send_frame_callbacks w1 s
  end.

Fixpoint each_child (step : WlObjects -> Z -> outcome WlResult) (w : WlObjects) (children : list Z) : outcome WlResult :=
  match children with
  | [] => Ret (w, [])
  | c :: rest =>
      r ← step w c;
      r' ← each_child step r.1 rest;
      Ret (r'.1, r.2 ++ r'.2)
  end.

(** [WlSubsurface::parent_has_committed], with [WlSurface::commit(state)] of
    its surface. *)
Definition parent_has_committed (fuel : nat) (commit : WlObjects -> Z -> WlSurfaceState -> outcome WlResult)
    (w : WlObjects) (c : Z) : outcome WlResult :=
  match wl_subsurfaces w !! c with
  | None => Throw use_after_free
  | Some sub =>
      match cached_state sub with
      | None => Ret (w, [])
      | Some st =>
          sync ← synchronized fuel w c;
          if sync : bool then
            r ← commit w c st;
            Ret (alter_subsurface c (fun sub => sub <| cached_state := None |>) r.1, r.2)
          else Ret (w, [])
      end
  end.

(** [WlSurface::commit(state)].  That it may set [surface_data_invalidated] of
    the state is [invalidates]. *)
Fixpoint surface_commit (fuel : nat) (depth : nat) (w : WlObjects) (s : Z) (st : WlSurfaceState) : outcome WlResult :=
  match depth with
  | O => Throw out_of_fuel
  | S d =>
      match wl_surfaces w !! s with
      | None => Throw use_after_free
      | Some su =>
          let '(w1, calls) := commit_own w s su st in
          r ← each_child (parent_has_committed fuel (surface_commit fuel d)) w1 (wl_children su);
          Ret (r.1, calls ++ r.2)
      end
  end.

(** The part of the request [commit] before the role is told: what has not
    changed is taken out of the pending state, which starts anew. *)
Definition take_pending (su : WlSurface) : WlSurface * WlSurfaceState :=
  let p := pending su in
  let p1 := if bool_decide (st_offset p = Some (offset_ su)) then p <| st_offset := None |> else p in
  let p2 := if bool_decide (st_input_shape p1 = Some (wl_input_shape su)) then p1 <| st_input_shape := None |> else p1 in
  (su <| pending := new_state |>, p2).

(** *** Refreshing the surface data of the window at the root *)
Fixpoint refresh_root (fuel : nat) (w : WlObjects) (s : Z) : outcome (option Z) :=
  match fuel with
  | O => Throw out_of_fuel
  | S f =>
      match wl_surfaces w !! s with
      | None => Throw use_after_free
      | Some su =>
          match wl_role su, wl_subsurfaces w !! s with
          | null_role, _ | cursor_role, _ => Ret None
          | window_role, _ => Ret (Some s)
          | subsurface_role, Some sub =>
              if bool_decide (is_Some (wl_surfaces w !! sub_parent sub)) then refresh_root f w (sub_parent sub) else Ret None
          | subsurface_role, None => Throw use_after_free
          end
      end
  end.

Definition refresh_surface_data_now (fuel : nat) (w : WlObjects) (s : Z) : outcome (list WlCall) :=
  root ← refresh_root fuel w s;
  match root with
  | None => Ret []
  | Some window => data ← populate_surface_data fuel w window displacement_zero; Ret [refresh_surface_data window data]
  end.

(** *** Roles *)
Definition already_has_a_role : exn := runtime_error "Surface already has a role".
Definition set_role (w : WlObjects) (s : Z) (role : WlRole) : outcome WlObjects :=
  match wl_surfaces w !! s with
  | None => Throw use_after_free
  | Some su =>
      if bool_decide (wl_role su = null_role) then Ret (alter_surface s (fun su => su <| wl_role := role |>) w)
      else Throw already_has_a_role
  end.
Definition clear_role (w : WlObjects) (s : Z) : WlObjects := alter_surface s (fun su => su <| wl_role := null_role |>) w.

(** ** WlSubsurface *)

(** The constructor.  When the surface has a role the new subsurface is taken
    out of the parent's children again. *)
Definition get_subsurface (w : WlObjects) (s parent : Z) : outcome WlResult :=
  match wl_surfaces w !! s, wl_surfaces w !! parent with
  | Some su, Some _ =>
      if bool_decide (wl_role su = null_role) then
        Ret (alter_surface s (fun su => su <| wl_role := subsurface_role |> <| pending := invalidate_surface_data (pending su) |>)
               (alter_surface parent (fun pa => pa <| wl_children := wl_children pa ++ [s] |>) w)
             <| wl_subsurfaces := <[s := mkWlSubsurface parent true None]> (wl_subsurfaces w) |>, [])
      else Throw already_has_a_role
  | _, _ => Throw use_after_free
  end.

(** The destructor: the surface data is refreshed before the subsurface leaves
    the parent's list of children. *)
Definition destroy_subsurface (fuel : nat) (w : WlObjects) (s : Z) : outcome WlResult :=
  match wl_subsurfaces w !! s with
  | None => Ret (w, [])
  | Some sub =>
      let parent := sub_parent sub in
      let w1 := clear_role w s in
      calls ← (if bool_decide (is_Some (wl_surfaces w1 !! parent)) then refresh_surface_data_now fuel w1 parent else Ret []);
      Ret (alter_surface parent (fun pa => pa <| wl_children := erase_all s (wl_children pa) |>) w1
             <| wl_subsurfaces := delete s (wl_subsurfaces w1) |>, calls)
  end.

(** [commit(state)] of the role. *)
Definition subsurface_commit (fuel : nat) (w : WlObjects) (s : Z) (st : WlSurfaceState) : outcome WlResult :=
  match wl_surfaces w !! s, wl_subsurfaces w !! s with
  | Some su, Some sub =>
      let cached := update_from (default new_state (cached_state sub)) st in
      let w1 := alter_subsurface s (fun sub => sub <| cached_state := Some cached |>) w in
      sync ← synchronized fuel w1 s;
      if sync : bool then
        Ret (if surface_data_needs_refresh cached
             then alter_surface (sub_parent sub) (fun pa => pa <| pending := invalidate_surface_data (pending pa) |>) w1
             else w1, [])
      else
        r ← surface_commit fuel fuel w1 s cached;
        calls ← (if surface_data_needs_refresh cached || invalidates su cached
                 then (if bool_decide (is_Some (wl_surfaces r.1 !! sub_parent sub))
                       then refresh_surface_data_now fuel r.1 (sub_parent sub) else Ret [])
                 else Ret []);
        Ret (alter_subsurface s (fun sub => sub <| cached_state := None |>) r.1, r.2 ++ calls)
  | _, _ => Throw use_after_free
  end.

(** *** The order of the children *)
Fixpoint insert_above (sibling child : Z) (children : list Z) : list Z :=
  match children with
  | [] => []
  | c :: rest => if bool_decide (c = sibling) then c :: child :: rest else c :: insert_above sibling child rest
  end.

(** The loop steps back before it inserts, unless the sibling is the first. *)
Fixpoint insert_below (sibling child : Z) (children : list Z) : list Z :=
  match children with
  | [] => []
  | c :: rest =>
      if bool_decide (c = sibling) then child :: c :: rest
      else match rest with
           | c2 :: _ => if bool_decide (c2 = sibling) then child :: c :: rest else c :: insert_below sibling child rest
           | [] => c :: rest
           end
  end.

Definition place_child (what : string) (insert : Z -> Z -> list Z -> list Z) (w : WlObjects) (s sibling : Z) : outcome WlResult :=
  match wl_subsurfaces w !! s, wl_subsurfaces w !! sibling with
  | Some sub, Some _ =>
      match wl_surfaces w !! sub_parent sub with
      | None => Throw use_after_free
      | Some parent =>
          if negb (bool_decide (s ∈ wl_children parent)) then Ret (w, [warning "Child subsurface not found among children"])
          else if negb (bool_decide (sibling ∈ wl_children parent)) then Ret (w, [warning "Sibling subsurface not found among children"])
          else Ret (w <| wl_surfaces :=
                       <[sub_parent sub := parent <| wl_children := insert sibling s (erase_first s (wl_children parent)) |>]>
                         (wl_surfaces w) |>, [])
      end
  | _, _ => Ret (w, [warning what])
  end.
Definition place_above := place_child "Invalid surface data provided for move_above" insert_above.
Definition place_below := place_child "Invalid surface data provided for move_below" insert_below.

(** ** The forest of surfaces *)
Definition wl_child (w : WlObjects) (p c : Z) : Prop := exists su, wl_surfaces w !! p = Some su /\ c ∈ wl_children su.

Record WlInv (w : WlObjects) : Prop := {
  wi_children : forall p c, wl_child w p c ->
    exists cu sub, wl_surfaces w !! c = Some cu /\ wl_role cu = subsurface_role /\
      wl_subsurfaces w !! c = Some sub /\ sub_parent sub = p;
  wi_nodup : forall p su, wl_surfaces w !! p = Some su -> NoDup (wl_children su);
  wi_subs : forall c sub, wl_subsurfaces w !! c = Some sub ->
    (exists cu, wl_surfaces w !! c = Some cu /\ wl_role cu = subsurface_role) /\
    (is_Some (wl_surfaces w !! sub_parent sub) -> wl_child w (sub_parent sub) c);
  wi_roles : forall c cu, wl_surfaces w !! c = Some cu -> wl_role cu = subsurface_role -> is_Some (wl_subsurfaces w !! c);
  wi_rank : exists rank : Z -> nat, forall p c, wl_child w p c -> (rank p < rank c)%nat
}.

Lemma wl_child_known w p c : WlInv w -> wl_child w p c -> is_Some (wl_surfaces w !! c).
Proof. intros Hw Hc. destruct (wi_children w Hw p c Hc) as (cu & _ & -> & _). done. Qed.

Lemma wl_child_parent w p c sub : WlInv w -> wl_child w p c -> wl_subsurfaces w !! c = Some sub -> sub_parent sub = p.
Proof. intros Hw Hc Hs. destruct (wi_children w Hw p c Hc) as (cu & sub' & _ & _ & Hs' & <-). congruence. Qed.

Lemma below_rank w (rank : Z -> nat) x y :
  (forall p c, wl_child w p c -> (rank p < rank c)%nat) -> rtc (wl_child w) x y -> (rank x <= rank y)%nat.
Proof. intros Hr. induction 1 as [|x y z Hxy _ IH]; [done|]. specialize (Hr _ _ Hxy). lia. Qed.

(** Recursion into the children of a surface ends: [P fuel s] is what a
    function that recurses on children shows. *)
Lemma tree_induction w (P : nat -> Z -> Prop) : WlInv w ->
  (forall f s su, wl_surfaces w !! s = Some su -> (forall c, c ∈ wl_children su -> P f c) -> P (S f) s) ->
  forall fuel s, is_Some (wl_surfaces w !! s) -> (size (wl_surfaces w) <= fuel)%nat -> P fuel s.
Proof.
  intros Hw Hstep. destruct (wi_rank w Hw) as [rank Hr].
  assert (Hgen : forall fuel (below : gset Z) s, is_Some (wl_surfaces w !! s) ->
            (forall x, rtc (wl_child w) s x -> x ∈ below) -> (size below <= fuel)%nat -> P fuel s).
  { induction fuel as [|f IH]; intros below s Hs Hb Hf.
    - assert (s ∈ below) by (apply Hb; constructor). assert (size below = 0%nat) as E by lia.
      apply size_empty_inv in E. set_solver.
    - destruct Hs as [su Hsu]. apply (Hstep f s su Hsu). intros c Hc.
      assert (Hch : wl_child w s c) by (by exists su).
      apply (IH (below ∖ {[s]})); [by apply (wl_child_known w s)| |].
      + intros x Hx. apply elem_of_difference. split; [apply Hb; by eapply rtc_l|].
        apply not_elem_of_singleton. intros ->. pose proof (below_rank w rank _ _ Hr Hx). specialize (Hr _ _ Hch). lia.
      + rewrite size_difference by (apply singleton_subseteq_l, Hb; constructor). rewrite size_singleton. lia. }
  intros fuel s Hs Hf. apply (Hgen fuel (dom (wl_surfaces w))); [done| |by rewrite size_dom].
  intros x Hx. apply elem_of_dom. clear Hf. revert Hs. induction Hx as [|x y z Hxy _ IH]; intros Hs; [done|].
  apply IH. by apply (wl_child_known w x).
Qed.

(** So does recursion to the parent, as long as parents exist. *)
Lemma chain_induction w (P : nat -> Z -> Prop) : WlInv w ->
  (forall f s su, wl_surfaces w !! s = Some su -> (forall p, wl_child w p s -> P f p) -> P (S f) s) ->
  forall fuel s, is_Some (wl_surfaces w !! s) -> (size (wl_surfaces w) <= fuel)%nat -> P fuel s.
Proof.
  intros Hw Hstep. destruct (wi_rank w Hw) as [rank Hr].
  assert (Hgen : forall fuel (above : gset Z) s, is_Some (wl_surfaces w !! s) ->
            (forall x, rtc (wl_child w) x s -> x ∈ above) -> (size above <= fuel)%nat -> P fuel s).
  { induction fuel as [|f IH]; intros above s Hs Hb Hf.
    - assert (s ∈ above) by (apply Hb; constructor). assert (size above = 0%nat) as E by lia.
      apply size_empty_inv in E. set_solver.
    - destruct Hs as [su Hsu]. apply (Hstep f s su Hsu). intros p Hp.
      apply (IH (above ∖ {[s]})); [by destruct Hp as (pu & -> & _)| |].
      + intros x Hx. apply elem_of_difference. split; [apply Hb; by eapply rtc_r|].
        apply not_elem_of_singleton. intros ->. pose proof (below_rank w rank _ _ Hr Hx). specialize (Hr _ _ Hp). lia.
      + rewrite size_difference by (apply singleton_subseteq_l, Hb; constructor). rewrite size_singleton. lia. }
  intros fuel s Hs Hf. apply (Hgen fuel (dom (wl_surfaces w))); [done| |by rewrite size_dom].
  intros x Hx. apply elem_of_dom. inversion Hx as [|? y ? Hxy _]; subst; [done|].
  by destruct Hxy as (xu & -> & _).
Qed.

(** ** Hit testing *)
(** Whether the surface of a stream accepts input at a point of the window. *)
Definition entry_shape (w : WlObjects) (e : Z * Displacement) : list Rectangle :=
  match wl_surfaces w !! e.1 with Some su => sd_input_shape (own_data e.1 su e.2) | None => [] end.
Definition entry_accepts (w : WlObjects) (p : Point) (e : Z * Displacement) : bool :=
  existsb (fun r => contains_point r p) (entry_shape w e).

(** The last of the streams, in drawing order, that accepts the point. *)
Definition topmost (w : WlObjects) (p : Point) (streams : list (Z * Displacement)) : option (Z * Displacement) :=
  last (filter (fun e => entry_accepts w p e = true) streams).

Lemma topmost_app w p a b : topmost w p (a ++ b) = or_else (topmost w p b) (topmost w p a).
Proof.
  unfold topmost. rewrite filter_app. generalize (filter (fun e => entry_accepts w p e = true) a) as l.
  intros l. destruct (filter _ b) as [|x l'] using rev_ind; [by rewrite app_nil_r|].
  by rewrite app_assoc, !last_snoc.
Qed.

Lemma bool_eq_iff (a b : bool) : (a = true <-> b = true) -> a = b.
Proof. destruct a, b; intuition. Qed.

Lemma moved_intersection d r1 r2 p :
  contains_point (intersection_with (moved_by d r1) (moved_by d r2)) p =
  contains_point (intersection_with r1 r2) (point_sub_disp p d).
Proof.
  apply bool_eq_iff. rewrite !contains_point_covers, !intersection_covers. unfold moved_by. destruct d. geom_solve.
Qed.

Lemma own_accepts s su offset p :
  existsb (fun rect => contains_point (intersection_with rect (mkRectangle point_zero (surface_size su))) (point_sub_disp p offset))
    (default [mkRectangle point_zero (surface_size su)] (wl_input_shape su)) =
  existsb (fun r => contains_point r p) (sd_input_shape (own_data s su offset)).
Proof.
  unfold own_data. cbn [sd_input_shape]. set (sr := mkRectangle point_zero (surface_size su)).
  change (mkRectangle (point_add point_zero offset) (surface_size su)) with (moved_by offset sr).
  destruct (wl_input_shape su) as [rects|]; cbn [default].
  - unfold default, id in *. induction rects as [|r rects IH]; [done|]. cbn. by rewrite <- IH, moved_intersection.
  - cbn. rewrite !orb_false_r, <- moved_intersection. apply bool_eq_iff.
    rewrite !contains_point_covers, intersection_covers. tauto.
Qed.

(** What the two recursions compute for a surface [s] whose parent is at
    [parent_offset]. *)
Definition agrees (w : WlObjects) (p : Point) (fuel : nat) (s : Z) : Prop :=
  forall parent_offset, exists data su,
    wl_surfaces w !! s = Some su /\
    populate_surface_data fuel w s parent_offset = Ret data /\
    sd_input_shape data = mjoin (entry_shape w <$> sd_streams data) /\
    transform_point fuel w s (point_sub_disp p parent_offset) =
      Ret (match topmost w p (sd_streams data) with
           | Some (t, offset) => mkPosition (point_sub_disp p offset) t true
           | None => mkPosition (point_sub_disp p (displacement_add parent_offset (offset_ su))) s false
           end).

Lemma point_sub_add p a b : point_sub_disp (point_sub_disp p a) b = point_sub_disp p (displacement_add a b).
Proof. destruct p, a, b. unfold point_sub_disp, displacement_add. cbn. f_equal; lia. Qed.

Lemma children_agree w p f offset acc children :
  (forall c, c ∈ children -> agrees w p f c) ->
  exists below,
    append_each (fun c => populate_surface_data f w c offset) acc children = Ret (data_append acc below) /\
    sd_input_shape below = mjoin (entry_shape w <$> sd_streams below) /\
    first_hit (fun c => transform_point f w c (point_sub_disp p offset)) (reverse children) =
      Ret ((fun e : Z * Displacement => mkPosition (point_sub_disp p e.2) e.1 true) <$> topmost w p (sd_streams below)).
Proof.
  revert acc. induction children as [|c children IH]; intros acc Hc.
  - exists (mkSurfaceData [] []). cbn. unfold data_append. cbn. rewrite !app_nil_r. by destruct acc.
  - destruct (Hc c ltac:(set_solver) offset) as (d & su & _ & Hd & Hshape & Hhit).
    destruct (IH (data_append acc d)) as (below & Hb & Hbs & Hbh); [set_solver|].
    exists (data_append d below). cbn [append_each]. rewrite Hd. cbn [mbind outcome_bind]. rewrite Hb. split; [|split].
    + unfold data_append. cbn. by rewrite !app_assoc.
    + cbn. by rewrite fmap_app, join_app, Hshape, Hbs.
    + rewrite reverse_cons. cbn [data_append sd_streams]. rewrite topmost_app.
      assert (Happ : forall h l, first_hit h (l ++ [c]) =
                r ← first_hit h l; match r with Some x => Ret (Some x) | None => first_hit h [c] end).
      { intros h l. induction l as [|x l IHl]; [done|]. cbn [first_hit app]. destruct (h x); cbn; [|done].
        destruct (is_in_input_region a); [done|]. apply IHl. }
      rewrite Happ, Hbh. cbn [mbind outcome_bind].
      destruct (topmost w p (sd_streams below)) as [[t o]|]; cbn [fmap option_fmap option_map or_else]; [done|].
      cbn [first_hit]. rewrite Hhit. cbn [mbind outcome_bind]. by destruct (topmost w p (sd_streams d)) as [[t o]|].
Qed.

Lemma surface_agrees w p f s su :
  wl_surfaces w !! s = Some su -> (forall c, c ∈ wl_children su -> agrees w p f c) -> agrees w p (S f) s.
Proof.
  intros Hs Hc parent_offset. set (offset := displacement_add parent_offset (offset_ su)).
  destruct (children_agree w p f offset (own_data s su offset) (wl_children su) Hc) as (below & Hb & Hbs & Hbh).
  exists (data_append (own_data s su offset) below), su. split; [done|].
  cbn [populate_surface_data transform_point]. rewrite Hs. cbv zeta. fold offset. split; [done|].
  assert (Hown : entry_shape w (s, offset) = sd_input_shape (own_data s su offset)) by (unfold entry_shape; cbn [fst snd]; by rewrite Hs).
  split.
  - cbn [data_append sd_input_shape sd_streams own_data]. rewrite fmap_app, join_app, <- Hbs.
    cbn [fmap list_fmap mjoin list_join]. by rewrite Hown, app_nil_r.
  - rewrite point_sub_add. fold offset. rewrite Hbh. cbn [mbind outcome_bind].
    rewrite (own_accepts s). cbn [data_append sd_streams]. rewrite topmost_app.
    destruct (topmost w p (sd_streams below)) as [[t o]|]; cbn [fmap option_fmap option_map or_else]; [done|].
    unfold topmost. cbn [own_data sd_streams]. unfold entry_accepts at 1. cbn [filter list_filter].
    unfold entry_accepts. rewrite Hown. by case_decide as E; [rewrite E|apply not_true_is_false in E; rewrite E].
Qed.

Lemma topmost_shape w p streams :
  is_Some (topmost w p streams) <-> exists r, r ∈ mjoin (entry_shape w <$> streams) /\ contains_point r p = true.
Proof.
  assert (Hone : forall e, entry_accepts w p e = true <-> exists r, r ∈ entry_shape w e /\ contains_point r p = true).
  { intros e. unfold entry_accepts. rewrite existsb_exists. by setoid_rewrite list_elem_of_In. }
  induction streams as [|e streams IH]; cbn [fmap list_fmap mjoin list_join].
  - split; [by intros [? [=]]|]. by intros (r & Hr%not_elem_of_nil & _).
  - change (e :: streams) with ([e] ++ streams). rewrite topmost_app. setoid_rewrite elem_of_app.
    destruct (topmost w p streams) eqn:E; cbn [or_else].
    + split; [|done]. intros _. destruct (proj1 IH ltac:(done)) as (r & Hr & Hp). exists r. split; [by right|done].
    + unfold topmost. cbn [filter list_filter]. case_decide as Ha.
      * split; [|done]. intros _. apply Hone in Ha as (r & Hr & Hp). exists r. split; [by left|done].
      * split; [by intros [? [=]]|]. intros (r & [Hr|Hr] & Hp).
        -- destruct Ha. apply Hone. by exists r.
        -- apply IH. by exists r.
Qed.

(** C13: (equivalence) What the pointer finds agrees with what the shell is told
    about a tree of surfaces: a point is in an input region exactly when it is
    in a rectangle of the input shape given to the shell, the surface found is
    the last one in drawing order that accepts the point, and the position is
    relative to the place where its stream is drawn. *)
Theorem hit_test_agrees w root p fuel :
  WlInv w -> is_Some (wl_surfaces w !! root) -> (size (wl_surfaces w) <= fuel)%nat ->
  exists data pos,
    populate_surface_data fuel w root displacement_zero = Ret data /\ transform_point fuel w root p = Ret pos /\
    (is_in_input_region pos = true <-> exists r, r ∈ sd_input_shape data /\ contains_point r p = true) /\
    (is_in_input_region pos = true -> exists offset,
       topmost w p (sd_streams data) = Some (pos_surface pos, offset) /\ position pos = point_sub_disp p offset).
Proof.
  intros Hw Hroot Hfuel.
  destruct (tree_induction w (agrees w p) Hw (surface_agrees w p) fuel root Hroot Hfuel displacement_zero)
    as (data & su & _ & Hd & Hshape & Ht).
  replace (point_sub_disp p displacement_zero) with p in Ht by (destruct p; unfold point_sub_disp; cbn; f_equal; lia).
  exists data, (match topmost w p (sd_streams data) with
           | Some (t, offset) => mkPosition (point_sub_disp p offset) t true
           | None => mkPosition (point_sub_disp p (displacement_add displacement_zero (offset_ su))) root false
           end).
  do 2 (split; [done|]). split.
  - rewrite Hshape. rewrite <- topmost_shape. by destruct (topmost w p (sd_streams data)) as [[t o]|].
  - destruct (topmost w p (sd_streams data)) as [[t o]|]; [|done]. intros _. by exists o.
Qed.

(** ** Commits of trees *)
(** Roles, children, parents and modes are the same; current, pending and
    cached states may differ. *)
Definition frame_of (su : WlSurface) : WlRole * list Z := (wl_role su, wl_children su).
Definition mode_of (sub : WlSubsurface) : Z * bool := (sub_parent sub, synchronized_ sub).
Definition same_tree (w w' : WlObjects) : Prop :=
  frame_of <$> wl_surfaces w' = frame_of <$> wl_surfaces w /\ mode_of <$> wl_subsurfaces w' = mode_of <$> wl_subsurfaces w.

#[export] Instance same_tree_equivalence : Equivalence same_tree.
Proof.
  split; [by intros w; split|by intros w w' [H1 H2]; split|].
  intros w1 w2 w3 [H1 H2] [H3 H4]. split; congruence.
Qed.

(** Roles, children and parents are the same. *)
Definition same_forest (w w' : WlObjects) : Prop :=
  frame_of <$> wl_surfaces w' = frame_of <$> wl_surfaces w /\ sub_parent <$> wl_subsurfaces w' = sub_parent <$> wl_subsurfaces w.

#[export] Instance same_forest_equivalence : Equivalence same_forest.
Proof.
  split; [by intros w; split|by intros w w' [H1 H2]; split|].
  intros w1 w2 w3 [H1 H2] [H3 H4]. split; congruence.
Qed.

Lemma same_tree_forest w w' : same_tree w w' -> same_forest w w'.
Proof.
  intros [H1 H2]. split; [done|]. apply (f_equal (fmap (M := gmap Z) fst)) in H2. by rewrite <- !map_fmap_compose in H2.
Qed.

Lemma forest_surface w w' s su : same_forest w w' -> wl_surfaces w !! s = Some su ->
  exists su', wl_surfaces w' !! s = Some su' /\ wl_role su' = wl_role su /\ wl_children su' = wl_children su.
Proof.
  intros [H _] Hs. apply (f_equal (.!! s)) in H. rewrite !lookup_fmap, Hs in H.
  destruct (wl_surfaces w' !! s) as [su'|]; [|done]. injection H as H1 H2. by exists su'.
Qed.

Lemma forest_sub w w' s sub : same_forest w w' -> wl_subsurfaces w !! s = Some sub ->
  exists sub', wl_subsurfaces w' !! s = Some sub' /\ sub_parent sub' = sub_parent sub.
Proof.
  intros [_ H] Hs. apply (f_equal (.!! s)) in H. rewrite !lookup_fmap, Hs in H.
  destruct (wl_subsurfaces w' !! s) as [sub'|]; [|done]. injection H as H. by exists sub'.
Qed.

Lemma forest_child w w' p c : same_forest w w' -> wl_child w p c -> wl_child w' p c.
Proof.
  intros Ht (su & Hs & Hc). destruct (forest_surface w w' p su Ht Hs) as (su' & Hs' & _ & E).
  exists su'. by rewrite E.
Qed.

Lemma forest_known w w' s : same_forest w w' -> is_Some (wl_surfaces w' !! s) <-> is_Some (wl_surfaces w !! s).
Proof.
  intros Ht. split; intros [su Hs].
  - symmetry in Ht. destruct (forest_surface _ _ _ _ Ht Hs) as (? & -> & _). done.
  - destruct (forest_surface _ _ _ _ Ht Hs) as (? & -> & _). done.
Qed.

Lemma forest_inv w w' : same_forest w w' -> WlInv w -> WlInv w'.
Proof.
  intros Ht Hw. assert (Ht' : same_forest w' w) by done. split.
  - intros p c Hc%(forest_child _ _ _ _ Ht'). destruct (wi_children w Hw p c Hc) as (cu & sub & H1 & H2 & H3 & H4).
    destruct (forest_surface _ _ _ _ Ht H1) as (cu' & H1' & E1 & _). destruct (forest_sub _ _ _ _ Ht H3) as (sub' & H3' & E2).
    exists cu', sub'. by rewrite E1, E2.
  - intros p su Hp. destruct (forest_surface _ _ _ _ Ht' Hp) as (su' & Hp' & _ & <-). by apply (wi_nodup w Hw p).
  - intros c sub Hc. destruct (forest_sub _ _ _ _ Ht' Hc) as (sub' & Hc' & Ep).
    destruct (wi_subs w Hw c sub' Hc') as [(cu & H1 & H2) H3]. split.
    + destruct (forest_surface _ _ _ _ Ht H1) as (cu' & H1' & E1 & _). exists cu'. by rewrite E1.
    + rewrite (forest_known w w' (sub_parent sub) Ht), <- Ep. intros H%H3. by apply (forest_child w).
  - intros c cu Hc Hr. destruct (forest_surface _ _ _ _ Ht' Hc) as (cu' & Hc' & E & _). rewrite <- E in Hr.
    destruct (wi_roles w Hw c cu' Hc' Hr) as [sub Hsub]. destruct (forest_sub _ _ _ _ Ht Hsub) as (? & -> & _). done.
  - destruct (wi_rank w Hw) as [rank Hr]. exists rank. intros p c Hc%(forest_child _ _ _ _ Ht'). by apply Hr.
Qed.

Lemma same_tree_surface w w' s su : same_tree w w' -> wl_surfaces w !! s = Some su ->
  exists su', wl_surfaces w' !! s = Some su' /\ wl_role su' = wl_role su /\ wl_children su' = wl_children su.
Proof. intros Ht. by apply forest_surface, same_tree_forest. Qed.

Lemma same_tree_sub w w' s sub : same_tree w w' -> wl_subsurfaces w !! s = Some sub ->
  exists sub', wl_subsurfaces w' !! s = Some sub' /\ sub_parent sub' = sub_parent sub /\ synchronized_ sub' = synchronized_ sub.
Proof.
  intros [_ H] Hs. apply (f_equal (.!! s)) in H. rewrite !lookup_fmap, Hs in H.
  destruct (wl_subsurfaces w' !! s) as [sub'|]; [|done]. injection H as H1 H2. by exists sub'.
Qed.

Lemma same_tree_child w w' p c : same_tree w w' -> wl_child w p c -> wl_child w' p c.
Proof. intros Ht. by apply forest_child, same_tree_forest. Qed.

Lemma same_tree_known w w' s : same_tree w w' -> is_Some (wl_surfaces w' !! s) <-> is_Some (wl_surfaces w !! s).
Proof. intros Ht. by apply forest_known, same_tree_forest. Qed.

Lemma same_tree_inv w w' : same_tree w w' -> WlInv w -> WlInv w'.
Proof. intros Ht. by apply forest_inv, same_tree_forest. Qed.

Lemma same_tree_size w w' : same_tree w w' -> size (wl_surfaces w') = size (wl_surfaces w).
Proof. intros [H _]. apply (f_equal size) in H. by rewrite !map_size_fmap in H. Qed.

Lemma same_tree_synchronized w w' f s : same_tree w w' -> synchronized f w' s = synchronized f w s.
Proof.
  intros Ht. revert s. induction f as [|f IH]; intros s; [done|]. cbn [synchronized].
  destruct (wl_surfaces w !! s) as [su|] eqn:Hs.
  - destruct (same_tree_surface w w' s su Ht Hs) as (su' & -> & -> & _).
    destruct (wl_role su); try done.
    destruct (wl_subsurfaces w !! s) as [sub|] eqn:Hsub.
    + destruct (same_tree_sub w w' s sub Ht Hsub) as (sub' & -> & -> & ->). rewrite IH.
      destruct (synchronized_ sub); [done|].
      by rewrite (bool_decide_ext _ _ (same_tree_known w w' (sub_parent sub) Ht)).
    + destruct (wl_subsurfaces w' !! s) as [sub'|] eqn:Hsub'; [|done]. symmetry in Ht.
      destruct (same_tree_sub _ _ _ _ Ht Hsub') as (? & E & _). congruence.
  - destruct (wl_surfaces w' !! s) eqn:Hs'; [|done]. symmetry in Ht.
    destruct (same_tree_surface _ _ _ _ Ht Hs') as (? & E & _). congruence.
Qed.

(** *** Fuel for [synchronized] *)
Lemma synchronized_stable w : WlInv w -> forall fuel s, is_Some (wl_surfaces w !! s) -> (size (wl_surfaces w) <= fuel)%nat ->
  forall k, synchronized (fuel + k) w s = synchronized fuel w s.
Proof.
  intros Hw. apply (chain_induction w (fun fuel s => forall k, synchronized (fuel + k) w s = synchronized fuel w s) Hw).
  intros f s su Hs Hp k. cbn [synchronized Nat.add]. rewrite Hs. destruct (wl_role su); try done.
  destruct (wl_subsurfaces w !! s) as [sub|] eqn:Hsub; [|done]. destruct (synchronized_ sub); [done|].
  case_bool_decide as Hk; [|done]. apply Hp. by apply (wi_subs w Hw s sub Hsub).
Qed.

Lemma synchronized_child w s c sub b fuel :
  WlInv w -> wl_child w s c -> wl_subsurfaces w !! c = Some sub -> (size (wl_surfaces w) < fuel)%nat ->
  synchronized fuel w s = Ret b -> synchronized fuel w c = Ret (synchronized_ sub || b).
Proof.
  intros Hw Hc Hsub Hf Hs. destruct (wi_children w Hw s c Hc) as (cu & sub' & Hcu & Hrole & Hsub' & Hp).
  rewrite Hsub in Hsub'. injection Hsub' as <-. destruct fuel as [|f]; [lia|]. cbn [synchronized].
  rewrite Hcu, Hrole, Hsub, Hp. destruct (synchronized_ sub); [done|].
  assert (Hk : is_Some (wl_surfaces w !! s)) by (destruct Hc as (su & -> & _); done). rewrite bool_decide_true by done.
  cbn [orb]. rewrite <- Hs. replace (S f) with (f + 1)%nat by lia. symmetry. apply synchronized_stable; [done..|lia].
Qed.

(** *** Which surfaces a commit reaches *)
(** The subsurface [c] has a state that waits for its parent. *)
Definition waiting (fuel : nat) (w : WlObjects) (c : Z) (st : WlSurfaceState) : Prop :=
  (cached_state <$> wl_subsurfaces w !! c) = Some (Some st) /\ synchronized fuel w c = Ret true.

(** Committing [st] to [s] commits [std] to [d]. *)
Inductive reaches (fuel : nat) (w : WlObjects) (s : Z) (st : WlSurfaceState) : Z -> WlSurfaceState -> Prop :=
| reaches_self : reaches fuel w s st s st
| reaches_child p stp c stc :
    reaches fuel w s st p stp -> wl_child w p c -> waiting fuel w c stc -> reaches fuel w s st c stc.

(** A surface after a commit of its own. *)
Definition committed (su : WlSurface) (st : WlSurfaceState) : WlSurface :=
  match st_buffer st with
  | Some (Some _) => take_state su st
  | _ => (take_state su st) <| frame_callbacks := [] |>
  end.

Definition uncached (sub : WlSubsurface) : WlSubsurface := sub <| cached_state := None |>.

Lemma reaches_below fuel w s st d std : reaches fuel w s st d std -> rtc (wl_child w) s d.
Proof. induction 1 as [|p stp c stc _ IH Hc _]; [done|]. by eapply rtc_r. Qed.

(** From the side of the child. *)
Lemma reaches_first fuel w s st c stc d std :
  wl_child w s c -> waiting fuel w c stc -> reaches fuel w c stc d std -> reaches fuel w s st d std.
Proof.
  intros Hc Hw. induction 1 as [|p stp c' stc' _ IH Hc' Hw']; [by eapply reaches_child; [apply reaches_self|..]|].
  by eapply reaches_child.
Qed.

Lemma reaches_inv fuel w s st d std : reaches fuel w s st d std ->
  (d = s /\ std = st) \/ exists c stc, wl_child w s c /\ waiting fuel w c stc /\ reaches fuel w c stc d std.
Proof.
  induction 1 as [|p stp c stc Hp IH Hc Hw]; [by left|right].
  destruct IH as [[-> ->]|(c0 & stc0 & H1 & H2 & H3)].
  - exists c, stc. split; [done|]. split; [done|]. constructor.
  - exists c0, stc0. split; [done|]. split; [done|]. by eapply reaches_child.
Qed.

Lemma reaches_waiting fuel w s st d std : reaches fuel w s st d std -> (d = s /\ std = st) \/ waiting fuel w d std.
Proof. intros []; [by left|by right]. Qed.

(** *** Different children have nothing in common below them *)
Lemma parent_unique w p1 p2 c : WlInv w -> wl_child w p1 c -> wl_child w p2 c -> p1 = p2.
Proof.
  intros Hw H1 H2. destruct (wi_children w Hw p1 c H1) as (? & sub & _ & _ & Hs & <-).
  by apply (wl_child_parent w p2 c).
Qed.

Lemma rtc_comparable w x y d : WlInv w -> rtc (wl_child w) x d -> rtc (wl_child w) y d ->
  rtc (wl_child w) x y \/ rtc (wl_child w) y x.
Proof.
  intros Hw Hx. revert y. induction Hx as [d|x x' d Hxx' Hx' IH]; intros y Hy; [by right|].
  destruct (IH y Hy) as [H|H]; [left; by eapply rtc_l|].
  apply rtc_inv_r in H as [->|(p & Hp & Hpx)].
  - left. by apply rtc_once.
  - right. rewrite (parent_unique w x p x' Hw); done.
Qed.

Lemma subtrees_disjoint w s c1 c2 d : WlInv w -> wl_child w s c1 -> wl_child w s c2 -> c1 <> c2 ->
  rtc (wl_child w) c1 d -> rtc (wl_child w) c2 d -> False.
Proof.
  intros Hw H1 H2 Hne Hd1 Hd2. destruct (wi_rank w Hw) as [rank Hr].
  assert (Hno : forall a b, wl_child w s a -> wl_child w s b -> a <> b -> ~ rtc (wl_child w) a b).
  { intros a b Ha Hb Hab Hrtc. apply rtc_inv_r in Hrtc as [->|(p & Hp & Hpb)]; [done|].
    rewrite <- (parent_unique w s p b Hw Hb Hpb) in Hp.
    pose proof (below_rank w rank _ _ Hr Hp). specialize (Hr _ _ Ha). lia. }
  destruct (rtc_comparable w c1 c2 d Hw Hd1 Hd2) as [H|H]; [by apply (Hno c1 c2)|by apply (Hno c2 c1)].
Qed.

(** *** What a commit does to every surface and subsurface *)
Definition commits (reached : Z -> WlSurfaceState -> Prop) (w w' : WlObjects) : Prop :=
  (forall d std, reached d std -> exists su, wl_surfaces w !! d = Some su /\ wl_surfaces w' !! d = Some (committed su std)) /\
  (forall d, (forall std, ~ reached d std) -> wl_surfaces w' !! d = wl_surfaces w !! d).
Definition clears (reached : Z -> Prop) (w w' : WlObjects) : Prop :=
  (forall d, reached d -> wl_subsurfaces w' !! d = uncached <$> wl_subsurfaces w !! d) /\
  (forall d, ~ reached d -> wl_subsurfaces w' !! d = wl_subsurfaces w !! d).

(** Reached through the child [c]. *)
Definition through (fuel : nat) (w : WlObjects) (c d : Z) (std : WlSurfaceState) : Prop :=
  exists stc, waiting fuel w c stc /\ reaches fuel w c stc d std.

Lemma commit_own_result w s su st : wl_surfaces w !! s = Some su ->
  wl_surfaces (commit_own w s su st).1 = <[s := committed su st]> (wl_surfaces w) /\
  wl_subsurfaces (commit_own w s su st).1 = wl_subsurfaces w.
Proof.
  intros Hs. unfold commit_own, committed. destruct (st_buffer st) as [[b|]|]; [done|..];
    unfold send_frame_callbacks; cbn; rewrite lookup_insert_eq; cbn; by rewrite insert_insert_eq.
Qed.

Lemma committed_frame su st : frame_of (committed su st) = frame_of su.
Proof. unfold committed. by destruct (st_buffer st) as [[b|]|]. Qed.

Lemma commit_own_same_tree w s su st : wl_surfaces w !! s = Some su -> same_tree w (commit_own w s su st).1.
Proof.
  intros Hs. destruct (commit_own_result w s su st Hs) as [E1 E2]. split; [|by rewrite E2].
  rewrite E1, fmap_insert, committed_frame. apply insert_id. by rewrite lookup_fmap, Hs.
Qed.


(** Only what is cached below a surface matters for what it reaches. *)
Lemma reaches_same fuel w w' s st d std :
  same_tree w w' -> (forall x, rtc (wl_child w) s x -> x <> s -> wl_subsurfaces w' !! x = wl_subsurfaces w !! x) ->
  WlInv w -> reaches fuel w s st d std -> reaches fuel w' s st d std.
Proof.
  intros Ht Hsub Hw. induction 1 as [|p stp c stc Hp IH Hc [Hc1 Hc2]]; [constructor|].
  eapply reaches_child; [done|by apply (same_tree_child w)|].
  assert (Hsc : rtc (wl_child w) s c) by (eapply rtc_r; [by eapply reaches_below|done]).
  assert (Hne : c <> s).
  { intros ->. destruct (wi_rank w Hw) as [rank Hr]. pose proof (below_rank w rank _ _ Hr (reaches_below _ _ _ _ _ _ Hp)).
    specialize (Hr _ _ Hc). lia. }
  split; [by rewrite Hsub|by rewrite (same_tree_synchronized w)].
Qed.

Definition submits (reached : Z -> WlSurfaceState -> Prop) (calls : list WlCall) : Prop :=
  forall d b, stream_submit d b ∈ calls <-> exists std, reached d std /\ st_buffer std = Some (Some b).

(** A step that commits exactly what [reached] says. *)
Record commit_step (reached : Z -> WlSurfaceState -> Prop) (cleared : Z -> Prop) (w w' : WlObjects) (calls : list WlCall) : Prop := {
  cs_tree : same_tree w w';
  cs_commits : commits reached w w';
  cs_clears : clears cleared w w';
  cs_submits : submits reached calls
}.

Definition commit_ok (fuel : nat) (w0 : WlObjects) (depth : nat) (s : Z) : Prop :=
  forall w st b, same_tree w0 w -> is_Some (wl_surfaces w !! s) -> synchronized fuel w s = Ret b ->
  exists w' calls, surface_commit fuel depth w s st = Ret (w', calls) /\
    commit_step (reaches fuel w s st) (fun d => d <> s /\ exists std, reaches fuel w s st d std) w w' calls.

Lemma commit_step_none reached cleared w :
  (forall d std, ~ reached d std) -> (forall d, ~ cleared d) -> commit_step reached cleared w w [].
Proof.
  intros Hr Hc. split; [done|by split; [intros d std H; destruct (Hr d std H)|]|by split; [intros d H; destruct (Hc d H)|]|].
  intros d b. split; [by intros ?%not_elem_of_nil|]. intros (std & H & _). destruct (Hr d std H).
Qed.

Lemma waiting_fun fuel w c st st' : waiting fuel w c st -> waiting fuel w c st' -> st = st'.
Proof. intros [H1 _] [H2 _]. congruence. Qed.

Lemma parent_commit_ok fuel w0 depth w s c b :
  WlInv w0 -> (size (wl_surfaces w0) < fuel)%nat -> commit_ok fuel w0 depth c ->
  same_tree w0 w -> wl_child w s c -> synchronized fuel w s = Ret b ->
  exists w' calls, parent_has_committed fuel (surface_commit fuel depth) w c = Ret (w', calls) /\
    commit_step (through fuel w c) (fun d => exists std, through fuel w c d std) w w' calls.
Proof.
  intros Hw0 Hf Hok Ht Hc Hb. pose proof (same_tree_inv w0 w Ht Hw0) as Hw.
  destruct (wi_children w Hw s c Hc) as (cu & sub & Hcu & _ & Hsub & _).
  assert (Hsync : synchronized fuel w c = Ret (synchronized_ sub || b)).
  { apply (synchronized_child w s); [done..| |done]. by rewrite (same_tree_size w0). }
  unfold parent_has_committed. rewrite Hsub. destruct (cached_state sub) as [stc|] eqn:Hcache.
  2: { exists w, []. split; [done|]. apply commit_step_none.
       - intros d std (stc & [H _] & _). rewrite Hsub in H. cbn in H. congruence.
       - intros d (std & stc & [H _] & _). rewrite Hsub in H. cbn in H. congruence. }
  rewrite Hsync. cbn [mbind outcome_bind]. destruct (synchronized_ sub || b) eqn:E.
  2: { exists w, []. split; [done|]. apply commit_step_none; [intros d std (? & [_ H] & _)|intros d (std & ? & [_ H] & _)]; congruence. }
  destruct (Hok w stc true Ht ltac:(done) Hsync) as (w1 & calls & -> & [Ht1 Hco [Hcl1 Hcl2] Hsu]). cbn [mbind outcome_bind fst snd].
  assert (Hwait : waiting fuel w c stc) by (split; [by rewrite Hsub; cbn; rewrite Hcache|done]).
  assert (Hthr : forall d std, through fuel w c d std <-> reaches fuel w c stc d std).
  { intros d std. split; [|by exists stc]. intros (stc' & Hw' & Hr). by rewrite (waiting_fun _ _ _ _ _ Hwait Hw'). }
  eexists _, calls. split; [reflexivity|]. unfold alter_subsurface.
  assert (Hc1 : wl_subsurfaces w1 !! c = Some sub) by (rewrite Hcl2; [done|naive_solver]).
  split; cbn.
  - transitivity w1; [done|]. split; [done|]. cbn. apply map_eq. intros d. rewrite !lookup_fmap.
    destruct (decide (d = c)) as [->|]; [by rewrite lookup_alter_eq, Hc1|by rewrite lookup_alter_ne].
  - destruct Hco as [Hco1 Hco2]. split; [by intros d std Hd%Hthr; apply Hco1|].
    intros d Hd. apply Hco2. intros std Hr%Hthr. by apply (Hd std).
  - split; cbn.
    + intros d (std & Hd%Hthr). destruct (decide (d = c)) as [->|].
      * by rewrite lookup_alter_eq, Hc1, Hsub.
      * rewrite lookup_alter_ne by done. apply Hcl1. split; [done|]. by exists std.
    + intros d Hd. assert (d <> c) by (intros ->; apply Hd; exists stc; apply Hthr; constructor).
      rewrite lookup_alter_ne by done. apply Hcl2. intros [_ [std Hr%Hthr]]. apply Hd. by exists std.
  - intros d bu. rewrite (Hsu d bu). by setoid_rewrite Hthr.
Qed.

Lemma through_below fuel w c d std : through fuel w c d std -> rtc (wl_child w) c d.
Proof. intros (stc & _ & Hr). by eapply reaches_below. Qed.

Lemma through_same fuel w w' c d std :
  WlInv w -> same_tree w w' -> (forall x, rtc (wl_child w) c x -> wl_subsurfaces w' !! x = wl_subsurfaces w !! x) ->
  through fuel w c d std <-> through fuel w' c d std.
Proof.
  intros Hw Ht Hsub. assert (Ht' : same_tree w' w) by done. pose proof (same_tree_inv w w' Ht Hw) as Hw'.
  assert (Hsub' : forall x, rtc (wl_child w') c x -> wl_subsurfaces w !! x = wl_subsurfaces w' !! x).
  { intros x Hx. symmetry. apply Hsub. eapply rtc_subrel; [|done]. intros a b'. by apply same_tree_child. }
  split; intros (stc & [H1 H2] & Hr); exists stc.
  - split; [split; [by rewrite Hsub|by rewrite (same_tree_synchronized w)]|]. apply (reaches_same fuel w); auto.
  - split; [split; [by rewrite Hsub'|by rewrite (same_tree_synchronized w')]|]. apply (reaches_same fuel w'); auto.
Qed.

(** First some surfaces, then others. *)
Lemma commit_step_seq (first others : Z -> WlSurfaceState -> Prop) (cleared cleared' : Z -> Prop) w w1 w2 calls1 calls2 :
  commit_step first cleared w w1 calls1 -> commit_step others cleared' w1 w2 calls2 ->
  (forall d std std', first d std -> ~ others d std') -> (forall d, cleared d -> ~ cleared' d) ->
  commit_step (fun d std => first d std \/ others d std) (fun d => cleared d \/ cleared' d) w w2 (calls1 ++ calls2).
Proof.
  intros [Ht1 [Ha1 Hb1] [Hc1 Hd1] Hs1] [Ht2 [Ha2 Hb2] [Hc2 Hd2] Hs2] Hdis Hdis'. split.
  - by transitivity w1.
  - split.
    + intros d std [Hd|Hd].
      * destruct (Ha1 d std Hd) as (su & E1 & E2). exists su. split; [done|]. rewrite Hb2; [done|]. intros std'. by apply (Hdis d std).
      * destruct (Ha2 d std Hd) as (su & E1 & E2). exists su. split; [|done]. rewrite <- Hb1; [done|]. intros std' H. by apply (Hdis d std' std).
    + intros d Hd. rewrite Hb2, Hb1; [done|..]; intros std H; apply (Hd std); [by left|by right].
  - split.
    + intros d [Hd|Hd]; [rewrite Hd2; [by apply Hc1|by apply Hdis']|].
      rewrite Hc2 by done. rewrite Hd1; [done|]. intros H. by apply (Hdis' d).
    + intros d Hd. rewrite Hd2, Hd1; [done|..]; intros H; apply Hd; [by left|by right].
  - intros d b. rewrite elem_of_app, (Hs1 d b), (Hs2 d b). naive_solver.
Qed.

Lemma commit_step_ext reached reached' cleared cleared' w w' calls :
  (forall d std, reached d std <-> reached' d std) -> (forall d, cleared d <-> cleared' d) ->
  commit_step reached cleared w w' calls -> commit_step reached' cleared' w w' calls.
Proof.
  intros He He' [Ht [Ha Hb] [Hc Hd] Hs]. split; [done|split|split|].
  - intros d std H%He. by apply Ha.
  - intros d H. apply Hb. intros std H'%He. by apply (H std).
  - intros d H%He'. by apply Hc.
  - intros d H. apply Hd. by rewrite He'.
  - intros d b. rewrite (Hs d b). by setoid_rewrite He.
Qed.

Lemma each_commit_ok fuel w0 depth s cs : forall w b,
  WlInv w0 -> (size (wl_surfaces w0) < fuel)%nat -> (forall c, c ∈ cs -> commit_ok fuel w0 depth c) ->
  same_tree w0 w -> (forall c, c ∈ cs -> wl_child w s c) -> NoDup cs -> synchronized fuel w s = Ret b ->
  exists w' calls, each_child (parent_has_committed fuel (surface_commit fuel depth)) w cs = Ret (w', calls) /\
    commit_step (fun d std => exists c, c ∈ cs /\ through fuel w c d std)
                (fun d => exists std c, c ∈ cs /\ through fuel w c d std) w w' calls.
Proof.
  induction cs as [|c cs IH]; intros w b Hw0 Hf Hok Ht Hch Hnd Hb.
  { exists w, []. split; [done|]. apply commit_step_none; [intros d std (c & ?%not_elem_of_nil & _)|intros d (std & c & ?%not_elem_of_nil & _)]; done. }
  pose proof (same_tree_inv w0 w Ht Hw0) as Hw. apply NoDup_cons in Hnd as [Hnin Hnd].
  destruct (parent_commit_ok fuel w0 depth w s c b) as (w1 & calls1 & E1 & Hstep1); [done|done|apply Hok; set_solver|done|apply Hch; set_solver|done|].
  pose proof Hstep1 as [Ht1 _ [_ Hd1] _].
  destruct (IH w1 b) as (w2 & calls2 & E2 & Hstep2); try done.
  { intros c' Hc'. apply Hok. set_solver. }
  { by transitivity w. }
  { intros c' Hc'. apply (same_tree_child w); [done|]. apply Hch. set_solver. }
  { by rewrite (same_tree_synchronized w). }
  cbn [each_child]. rewrite E1. cbn [mbind outcome_bind fst snd]. rewrite E2. cbn [mbind outcome_bind fst snd].
  eexists _, _. split; [reflexivity|].
  assert (Hdis : forall c' d, c' ∈ cs -> rtc (wl_child w) c d -> rtc (wl_child w) c' d -> False).
  { intros c' d Hc'. apply (subtrees_disjoint w s); [done|apply Hch; set_solver|apply Hch; set_solver|]. intros ->. done. }
  assert (Hsame : forall c' d std, c' ∈ cs -> through fuel w c' d std <-> through fuel w1 c' d std).
  { intros c' d std Hc'. apply through_same; [done..|]. intros x Hx. apply Hd1. intros (std' & H%through_below). by apply (Hdis c' x). }
  set (others := fun d std => exists c', c' ∈ cs /\ through fuel w c' d std).
  assert (Hstep2' : commit_step others (fun d => exists std, others d std) w1 w2 calls2).
  { eapply commit_step_ext; [..|exact Hstep2]; unfold others; [intros d std|intros d]; naive_solver. }
  eapply commit_step_ext; [..|apply (commit_step_seq _ _ _ _ w w1 w2 calls1 calls2 Hstep1 Hstep2')]; unfold others.
  - intros d std. setoid_rewrite elem_of_cons. naive_solver.
  - intros d. setoid_rewrite elem_of_cons. naive_solver.
  - intros d std std' H1%through_below (c' & Hc' & H2%through_below). by apply (Hdis c' d).
  - intros d (std & H1%through_below) (std' & c' & Hc' & H2%through_below). by apply (Hdis c' d).
Qed.

Lemma commit_own_step w s su st : wl_surfaces w !! s = Some su ->
  commit_step (fun d std => d = s /\ std = st) (fun _ => False) w (commit_own w s su st).1 (commit_own w s su st).2.
Proof.
  intros Hs. destruct (commit_own_result w s su st Hs) as [E1 E2]. split.
  - by apply commit_own_same_tree.
  - split.
    + intros d std [-> ->]. exists su. by rewrite E1, lookup_insert_eq.
    + intros d Hd. rewrite E1, lookup_insert_ne; [done|]. intros <-. by apply (Hd st).
  - split; [done|]. intros d _. by rewrite E2.
  - intros d b. unfold commit_own. destruct (st_buffer st) as [[b'|]|] eqn:E; cbn [snd].
    + rewrite list_elem_of_singleton. naive_solver.
    + split; [|naive_solver]. unfold send_frame_callbacks. case_match; cbn; [|by intros ?%not_elem_of_nil].
      by intros (c & [=] & _)%list_elem_of_fmap.
    + split; [|naive_solver]. unfold send_frame_callbacks. case_match; cbn; [|by intros ?%not_elem_of_nil].
      by intros (c & [=] & _)%list_elem_of_fmap.
Qed.

Lemma commit_ok_step fuel w0 depth s su :
  WlInv w0 -> (size (wl_surfaces w0) < fuel)%nat -> wl_surfaces w0 !! s = Some su ->
  (forall c, c ∈ wl_children su -> commit_ok fuel w0 depth c) -> commit_ok fuel w0 (S depth) s.
Proof.
  intros Hw0 Hf Hs0 Hok w st b Ht _ Hb. pose proof (same_tree_inv w0 w Ht Hw0) as Hw.
  destruct (same_tree_surface w0 w s su Ht Hs0) as (su' & Hs & _ & Hch). cbn [surface_commit]. rewrite Hs.
  destruct (commit_own w s su' st) as [w1 calls1] eqn:Eown.
  destruct (commit_own_result w s su' st Hs) as [Es1 Es2]. pose proof (commit_own_same_tree w s su' st Hs) as Ht1.
  pose proof (commit_own_step w s su' st Hs) as Hown. rewrite Eown in Es1, Es2, Ht1, Hown. cbn [fst snd] in *.
  destruct (each_commit_ok fuel w0 depth s (wl_children su') w1 b) as (w2 & calls2 & -> & Hstep).
  { done. } { done. } { by rewrite Hch. } { by transitivity w. }
  { intros c Hc. apply (same_tree_child w); [done|]. by exists su'. }
  { by apply (wi_nodup w Hw s). }
  { by rewrite (same_tree_synchronized w). }
  cbn [mbind outcome_bind fst snd]. eexists _, _. split; [reflexivity|].
  assert (Hthr : forall c d std, c ∈ wl_children su' -> through fuel w1 c d std <-> through fuel w c d std).
  { intros c d std _. symmetry. apply through_same; [done..|]. intros x _. by rewrite Es2. }
  assert (Hreach : forall d std, reaches fuel w s st d std <->
            (d = s /\ std = st) \/ exists c, c ∈ wl_children su' /\ through fuel w c d std).
  { intros d std. split.
    - intros [H|(c & stc & (su2 & H0 & H1) & H2 & H3)]%reaches_inv; [by left|right]. rewrite Hs in H0. injection H0 as <-.
      exists c. split; [done|]. by exists stc.
    - intros [[-> ->]|(c & Hc & stc & H1 & H2)]; [constructor|]. eapply reaches_first; [|done..]. by exists su'. }
  assert (Hnot : forall c std, c ∈ wl_children su' -> ~ through fuel w c s std).
  { intros c std Hc H%through_below. destruct (wi_rank w Hw) as [rank Hr]. pose proof (below_rank w rank _ _ Hr H).
    assert (Hsc : wl_child w s c) by (by exists su'). specialize (Hr _ _ Hsc). lia. }
  eapply commit_step_ext; [..|apply (commit_step_seq _ _ _ _ w w1 w2 calls1 calls2 Hown Hstep)].
  - intros d std. rewrite Hreach. naive_solver.
  - intros d. cbn. setoid_rewrite Hreach. split; [naive_solver|]. intros (Hne & std & [[-> _]|(c & Hc & H)]); [done|]. naive_solver.
  - intros d std std' [-> ->] (c & Hc & H). apply Hthr in H; [|done]. by apply (Hnot c std').
  - done.
Qed.

(** A commit of a tree ends. *)
Lemma surface_commit_ok w s st fuel b :
  WlInv w -> is_Some (wl_surfaces w !! s) -> (size (wl_surfaces w) < fuel)%nat -> synchronized fuel w s = Ret b ->
  exists w' calls, surface_commit fuel fuel w s st = Ret (w', calls) /\
    commit_step (reaches fuel w s st) (fun d => d <> s /\ exists std, reaches fuel w s st d std) w w' calls.
Proof.
  intros Hw Hs Hf Hb.
  apply (tree_induction w (commit_ok fuel w) Hw (fun f s su => commit_ok_step fuel w f s su Hw Hf) fuel s Hs ltac:(lia) w st b); done.
Qed.

(** ** Synchronized subsurfaces *)
(** A sequence of commits to a subsurface. *)
Fixpoint commit_each (fuel : nat) (w : WlObjects) (s : Z) (sts : list WlSurfaceState) : outcome WlResult :=
  match sts with
  | [] => Ret (w, [])
  | st :: sts => r ← subsurface_commit fuel w s st; r' ← commit_each fuel r.1 s sts; Ret (r'.1, r.2 ++ r'.2)
  end.

(** Everything of a surface that is on the screen or takes input. *)
Definition current (su : WlSurface) : Displacement * option Size * option (list Rectangle) * list Z :=
  (offset_ su, buffer_size_ su, wl_input_shape su, frame_callbacks su).

Lemma take_merged su st st' : take_state su (update_from st st') = take_state (take_state su st) st'.
Proof.
  destruct su, st as [b o i f v], st' as [b' o' i' f' v']. unfold take_state, update_from. cbn.
  rewrite app_assoc. by destruct o', b', i'.
Qed.

Lemma take_all_merged su st sts : take_state su (foldl update_from st sts) = foldl take_state (take_state su st) sts.
Proof. revert st. induction sts as [|st' sts IH]; intros st; [done|]. cbn. by rewrite IH, take_merged. Qed.

Lemma take_new su : take_state su new_state = su.
Proof. destruct su. unfold take_state. cbn. by rewrite app_nil_r. Qed.

(** A commit to a synchronized subsurface. *)
Lemma subsurface_commit_waits fuel w s su sub st :
  wl_surfaces w !! s = Some su -> wl_subsurfaces w !! s = Some sub -> synchronized fuel w s = Ret true -> sub_parent sub <> s ->
  exists w', subsurface_commit fuel w s st = Ret (w', []) /\ same_tree w w' /\
    wl_subsurfaces w' = <[s := sub <| cached_state := Some (update_from (default new_state (cached_state sub)) st) |>]> (wl_subsurfaces w) /\
    wl_surfaces w' !! s = Some su /\ current <$> wl_surfaces w' = current <$> wl_surfaces w.
Proof.
  intros Hs Hsub Hsync Hne. unfold subsurface_commit. rewrite Hs, Hsub. cbv zeta.
  set (cached := update_from _ st).
  set (w1 := alter_subsurface s _ w).
  assert (E1 : wl_subsurfaces w1 = <[s := sub <| cached_state := Some cached |>]> (wl_subsurfaces w)) by (by apply alter_known).
  assert (Ht1 : same_tree w w1).
  { split; [done|]. rewrite E1, fmap_insert. apply insert_id. by rewrite lookup_fmap, Hsub. }
  rewrite (same_tree_synchronized w) by done. rewrite Hsync. cbn [mbind outcome_bind].
  destruct (surface_data_needs_refresh cached); [|by exists w1].
  eexists. split; [reflexivity|]. split; [|split; [done|split]].
  - transitivity w1; [done|]. split; [|done]. cbn. apply map_eq. intros d. rewrite !lookup_fmap.
    destruct (decide (d = sub_parent sub)) as [->|]; [rewrite lookup_alter_eq|by rewrite lookup_alter_ne].
    by destruct (wl_surfaces w !! sub_parent sub).
  - cbn. by rewrite lookup_alter_ne.
  - cbn. apply map_eq. intros d. rewrite !lookup_fmap.
    destruct (decide (d = sub_parent sub)) as [->|]; [rewrite lookup_alter_eq|by rewrite lookup_alter_ne].
    by destruct (wl_surfaces w !! sub_parent sub).
Qed.

Lemma commit_each_waits fuel s sts : forall w su sub,
  wl_surfaces w !! s = Some su -> wl_subsurfaces w !! s = Some sub -> synchronized fuel w s = Ret true -> sub_parent sub <> s ->
  sts <> [] ->
  exists w', commit_each fuel w s sts = Ret (w', []) /\ same_tree w w' /\
    wl_subsurfaces w' !! s = Some (sub <| cached_state := Some (foldl update_from (default new_state (cached_state sub)) sts) |>) /\
    wl_surfaces w' !! s = Some su /\ current <$> wl_surfaces w' = current <$> wl_surfaces w.
Proof.
  induction sts as [|st sts IH]; intros w su sub Hs Hsub Hsync Hne Hnil; [done|].
  destruct (subsurface_commit_waits fuel w s su sub st Hs Hsub Hsync Hne) as (w1 & E & Ht & E1 & Hs1 & Hc1).
  cbn [commit_each]. rewrite E. cbn [mbind outcome_bind fst snd].
  assert (Hsub1 : wl_subsurfaces w1 !! s = Some (sub <| cached_state := Some (update_from (default new_state (cached_state sub)) st) |>)).
  { by rewrite E1, lookup_insert_eq. }
  destruct sts as [|st' sts]; [by exists w1|].
  destruct (IH w1 su _ Hs1 Hsub1) as (w2 & -> & Ht2 & E2 & Hs2 & Hc2); [by rewrite (same_tree_synchronized w)|done..|].
  exists w2. split; [done|]. split; [by transitivity w1|]. split; [done|]. split; [done|]. by rewrite Hc2.
Qed.

(** The last buffer of a sequence of states. *)
Definition last_buffer (sts : list WlSurfaceState) : option (option WlBuffer) :=
  foldl (fun b st => or_else (st_buffer st) b) None sts.
Lemma merged_buffer st sts : st_buffer (foldl update_from st sts) = foldl (fun b st => or_else (st_buffer st) b) (st_buffer st) sts.
Proof. revert st. induction sts as [|st' sts IH]; intros st; [done|]. cbn. by rewrite IH. Qed.

(** C12: (equivalence) While a subsurface is synchronized its commits change
    nothing of any surface and submit no buffer, however many there are; the
    next commit of its parent then brings the subsurface at once to the state
    in which the commits one after another would have left it, and submits the
    last of their buffers only. *)
Theorem synchronized_commits_atomic w s p su sub sts stp fuel b :
  WlInv w -> (size (wl_surfaces w) < fuel)%nat -> wl_child w p s -> wl_surfaces w !! s = Some su ->
  wl_subsurfaces w !! s = Some sub -> synchronized_ sub = true -> cached_state sub = None -> sts <> [] ->
  synchronized fuel w p = Ret b ->
  exists w1 w2 calls su2,
    commit_each fuel w s sts = Ret (w1, []) /\ current <$> wl_surfaces w1 = current <$> wl_surfaces w /\
    surface_commit fuel fuel w1 p stp = Ret (w2, calls) /\ wl_surfaces w2 !! s = Some su2 /\
    su2 <| frame_callbacks := [] |> = (foldl take_state su sts) <| frame_callbacks := [] |> /\
    forall buf, stream_submit s buf ∈ calls <-> last_buffer sts = Some (Some buf).
Proof.
  intros Hw Hf Hc Hs Hsub Hsy Hcache Hnil Hb.
  assert (Hpar : sub_parent sub = p) by (by apply (wl_child_parent w p s)).
  assert (Hps : p <> s) by (intros ->; destruct (wi_rank w Hw) as [rank Hr]; specialize (Hr _ _ Hc); lia).
  assert (Hsync : synchronized fuel w s = Ret true).
  { rewrite (synchronized_child w p s sub b); [by rewrite Hsy|done..]. }
  destruct (commit_each_waits fuel s sts w su sub Hs Hsub Hsync) as (w1 & E1 & Ht & Esub & Hs1 & Hcur); [by rewrite Hpar|done|].
  rewrite Hcache in Esub. cbn [default] in Esub. set (st := foldl update_from new_state sts) in *.
  destruct (surface_commit_ok w1 p stp fuel b) as (w2 & calls & E2 & [_ [Hco _] _ Hsu]).
  { by apply (same_tree_inv w). } { apply (same_tree_known w); [done|]. by destruct Hc as (pu & -> & _). }
  { by rewrite (same_tree_size w). } { by rewrite (same_tree_synchronized w). }
  assert (Hr : reaches fuel w1 p stp s st).
  { eapply reaches_child; [constructor|by apply (same_tree_child w)|]. split; [by rewrite Esub|by rewrite (same_tree_synchronized w)]. }
  destruct (Hco s st Hr) as (su1 & Hsu1 & Hsu2). rewrite Hs1 in Hsu1. injection Hsu1 as <-.
  exists w1, w2, calls, (committed su st). do 4 (split; [done|]). split.
  - unfold committed, st. rewrite take_all_merged, take_new. by destruct (st_buffer _) as [[?|]|].
  - intros buf. rewrite (Hsu s buf). unfold last_buffer. change None with (st_buffer new_state). rewrite <- merged_buffer. fold st.
    split; [|by exists st]. intros (std & Hstd & E). rewrite <- E. f_equal.
    apply reaches_waiting in Hstd as [[-> _]|Hwait]; [done|]. apply reaches_waiting in Hr as [[-> _]|Hwait']; [done|].
    by rewrite (waiting_fun fuel w1 s std st).
Qed.
