(* ===== verification/WlWindows.v ===== *)
(** * Wayland windows

    [WindowWlSurfaceRole] ([src/server/frontend_wayland/window_wl_surface_role.cpp]),
    the role of a Wayland surface that is a window of the shell: what the
    client asks for is collected until the surface commits and then told to
    the shell; together with the surfaces and subsurfaces of [WlSurfaces]. *)
From S2P Require Import Prelude Geometry WindowInfo SurfaceSpec WlSurfaces.

(** ** Data *)
(** [has_scene_surface]: [weak_scene_surface] points to a surface that exists.  Once
    created it is taken to exist as long as the window does: that the shell
    destroys it earlier, after which the window would ask for another, is left out.
    [client_size] is what the observer was told by [latest_client_size]. *)
Record WlWindow := mkWlWindow {
  has_scene_surface : bool;
  win_params : SurfaceCreationParameters;
  pending_explicit_width : option Z;
  pending_explicit_height : option Z;
  committed_width_set_explicitly : bool;
  committed_height_set_explicitly : bool;
  committed_size : option Size;
  committed_min_size : Size;
  committed_max_size : Size;
  win_pending_changes : option SurfaceSpecification;
  client_size : Size
}.
#[export] Instance WlWindow_eta : EtaExpansion WlWindow := fun m =>
  mkWlWindow (has_scene_surface m) (win_params m) (pending_explicit_width m) (pending_explicit_height m)
    (committed_width_set_explicitly m) (committed_height_set_explicitly m) (committed_size m) (committed_min_size m)
    (committed_max_size m) (win_pending_changes m) (client_size m).

(** What a window asks of the shell. *)
Inductive ShellCall :=
| create_surface (params : SurfaceCreationParameters)
| modify_surface (spec : SurfaceSpecification)
| destroy_surface
| content_resized_to (size : Size)
| role_warning (what : string).

Definition max_possible_size : Size := mkSize INT_MAX INT_MAX.

(** The constructor; [params] are those of a freestyle window. *)
Definition new_window (params : SurfaceCreationParameters) : WlWindow :=
  mkWlWindow false params None None false false None (mkSize 0 0) max_possible_size None (mkSize 0 0).

(** ** Requests *)
(** [spec()] *)
Definition spec (w : WlWindow) : SurfaceSpecification := default surface_spec_empty (win_pending_changes w).
Definition in_spec (f : SurfaceSpecification -> SurfaceSpecification) (w : WlWindow) : WlWindow :=
  w <| win_pending_changes := Some (f (spec w)) |>.
Definition in_params (f : SurfaceCreationParameters -> SurfaceCreationParameters) (w : WlWindow) : WlWindow :=
  w <| win_params := f (win_params w) |>.
(** [if (weak_scene_surface.lock())] *)
Definition ask (f : SurfaceSpecification -> SurfaceSpecification) (g : SurfaceCreationParameters -> SurfaceCreationParameters)
    (w : WlWindow) : WlWindow :=
  if has_scene_surface w then in_spec f w else in_params g w.

Definition apply_spec (new_spec : SurfaceSpecification) (w : WlWindow) : WlWindow :=
  let w1 := w <| pending_explicit_width := or_keep (ss_width new_spec) (pending_explicit_width w) |>
              <| pending_explicit_height := or_keep (ss_height new_spec) (pending_explicit_height w) |> in
  ask (fun s => spec_update_from s new_spec) (fun p => params_update_from p new_spec) w1.

Definition set_pending_width (width : option Z) (w : WlWindow) : WlWindow := w <| pending_explicit_width := width |>.
Definition set_pending_height (height : option Z) (w : WlWindow) : WlWindow := w <| pending_explicit_height := height |>.

Definition set_title (title : string) : WlWindow -> WlWindow :=
  ask (fun s => s <| ss_name := Some title |>) (fun p => p <| cp_name := title |>).
Definition set_wl_application_id (id : string) : WlWindow -> WlWindow :=
  ask (fun s => s <| ss_application_id := Some id |>) (fun p => p <| cp_application_id := Some id |>).

(** A parent that is to be removed is only taken out of the changes that have
    not been told to the shell. *)
Definition set_parent (parent : option Window) : WlWindow -> WlWindow :=
  ask (fun s => s <| ss_parent := match parent with Some p => Some (Some p) | None => None end |>)
      (fun p => p <| cp_parent := parent |>).

Definition unlimited (max v : Z) : Z := if v =? 0 then max else v.
Definition set_max_size (width height : Z) : WlWindow -> WlWindow :=
  ask (fun s => s <| ss_max_width := Some (unlimited INT_MAX width) |> <| ss_max_height := Some (unlimited INT_MAX height) |>)
      (fun p => p <| cp_max_width := if width =? 0 then None else Some width |>
                  <| cp_max_height := if height =? 0 then None else Some height |>).
Definition set_min_size (width height : Z) : WlWindow -> WlWindow :=
  ask (fun s => s <| ss_min_width := Some width |> <| ss_min_height := Some height |>)
      (fun p => p <| cp_min_width := Some width |> <| cp_min_height := Some height |>).

Definition set_server_side_decorated (decorated : bool) (w : WlWindow) : WlWindow * list ShellCall :=
  if has_scene_surface w
  then (w, [role_warning "Changing server_side_decorated property after surface created not yet possible"])
  else (in_params (fun p => p <| cp_server_side_decorated := Some decorated |>) w, []).

(** ** Sizes *)
Definition current_size (w : WlWindow) (buffer_size : option Size) : Size :=
  let size := default (mkSize 640 480) (committed_size w) in
  match buffer_size with
  | Some b =>
      mkSize (if committed_width_set_explicitly w then width size else width b)
             (if committed_height_set_explicitly w then height size else height b)
  | None => size
  end.

Definition pending_size (w : WlWindow) (buffer_size : option Size) : Size :=
  let size := current_size w buffer_size in
  mkSize (default (width size) (pending_explicit_width w)) (default (height size) (pending_explicit_height w)).

(** ** The scene surface *)
Definition stream_specs (data : SurfaceData) : list StreamSpecification :=
  (fun e : Z * Displacement => mkStreamSpec (Some e.1) e.2 None) <$> sd_streams data.

Definition limits_of (old : Size) (lw lh : option Z) : Size :=
  mkSize (default (width old) lw) (default (height old) lh).

Section Windows.
(** The size that the shell gives a new window. *)
Context (placed_size : SurfaceCreationParameters -> Size).

Definition create_scene_surface (w : WlWindow) (buffer_size : option Size) (data : SurfaceData) : WlWindow * list ShellCall :=
  if has_scene_surface w then (w, [])
  else
    let params := (win_params w) <| cp_size := pending_size w buffer_size |>
                    <| cp_streams := Some (stream_specs data) |> <| cp_input_shape := Some (sd_input_shape data) |> in
    let content_size := placed_size params in
    (w <| win_params := params |> <| has_scene_surface := true |>
       <| committed_min_size := limits_of (committed_min_size w) (cp_min_width params) (cp_min_height params) |>
       <| committed_max_size := limits_of (committed_max_size w) (cp_max_width params) (cp_max_height params) |>,
     create_surface params :: (if bool_decide (content_size = cp_size params) then [] else [content_resized_to content_size])).

(** These two requests do not wait for a commit. *)
Definition set_state_now (st : MirWindowState) (output : option Z) (buffer_size : option Size) (data : SurfaceData)
    (w : WlWindow) : WlWindow * list ShellCall :=
  if has_scene_surface w
  then (w, [modify_surface (surface_spec_empty <| ss_state := Some st |> <| ss_output_id := output |>)])
  else create_scene_surface
         (in_params (fun p => p <| cp_state := Some st |> <| cp_output_id := default (cp_output_id p) output |>) w) buffer_size data.
Definition set_fullscreen := set_state_now mir_window_state_fullscreen.

(** [clear_pending_if_unchanged]: what is left of the change, and the cache. *)
Definition clear_pending_if_unchanged (pending : option Z) (cache : Z) : option Z * Z :=
  match pending with
  | Some v => if v =? cache then (None, cache) else (Some v, v)
  | None => (None, cache)
  end.

Definition clear_unchanged (s : SurfaceSpecification) (w : WlWindow) : SurfaceSpecification * WlWindow :=
  let '(min_w, cmin_w) := clear_pending_if_unchanged (ss_min_width s) (width (committed_min_size w)) in
  let '(min_h, cmin_h) := clear_pending_if_unchanged (ss_min_height s) (height (committed_min_size w)) in
  let '(max_w, cmax_w) := clear_pending_if_unchanged (ss_max_width s) (width (committed_max_size w)) in
  let '(max_h, cmax_h) := clear_pending_if_unchanged (ss_max_height s) (height (committed_max_size w)) in
  (s <| ss_min_width := min_w |> <| ss_min_height := min_h |> <| ss_max_width := max_w |> <| ss_max_height := max_h |>,
   w <| committed_min_size := mkSize cmin_w cmin_h |> <| committed_max_size := mkSize cmax_w cmax_h |>).

(** What [commit] tells the shell about a window that it has; [refresh] is
    whether the surface data changed. *)
Definition tell_shell (w : WlWindow) (size : Size) (refresh : bool) (data : SurfaceData) : WlWindow * list ShellCall :=
  let w1 := if bool_decide (committed_size w = Some size) then w
            else in_spec (fun s => s <| ss_width := Some (width size) |> <| ss_height := Some (height size) |>) w in
  let w2 := if refresh
            then in_spec (fun s => s <| ss_streams := Some (stream_specs data) |> <| ss_input_shape := Some (sd_input_shape data) |>) w1
            else w1 in
  match win_pending_changes w2 with
  | None => (w2, [])
  | Some s =>
      let '(s', w3) := clear_unchanged s w2 in
      (w3 <| win_pending_changes := None |>, if spec_is_empty s' then [] else [modify_surface s'])
  end.

(** The part of [commit] that follows the commit of the surface.  (The hook
    [handle_commit] does nothing in the XDG and in the old shell; the layer
    shell makes some of the requests above in it.) *)
Definition window_commit (w : WlWindow) (buffer_size : option Size) (refresh : bool) (data : SurfaceData) : WlWindow * list ShellCall :=
  let size := pending_size w buffer_size in
  let w2 := w <| client_size := size |> in
  let '(w3, calls) := if has_scene_surface w2 then tell_shell w2 size refresh data else create_scene_surface w2 buffer_size data in
  (w3 <| committed_size := Some size |>
      <| committed_width_set_explicitly := committed_width_set_explicitly w3 || negb (unset (pending_explicit_width w3)) |>
      <| committed_height_set_explicitly := committed_height_set_explicitly w3 || negb (unset (pending_explicit_height w3)) |>
      <| pending_explicit_width := None |> <| pending_explicit_height := None |>, calls).

(** [visiblity]: whether the scene surface is visible, and its state. *)
Definition window_set_visible (visible scene_visible : bool) (state : MirWindowState) (w : WlWindow) : WlWindow :=
  if negb (has_scene_surface w) then w
  else if Bool.eqb scene_visible visible then w
  else if visible then
    (if bool_decide (state = mir_window_state_hidden) then in_spec (fun s => s <| ss_state := Some mir_window_state_restored |>) w else w)
  else
    (if bool_decide (state = mir_window_state_hidden) then w else in_spec (fun s => s <| ss_state := Some mir_window_state_hidden |>) w).

(** [refresh_surface_data_now] *)
Definition window_refresh (w : WlWindow) (data : SurfaceData) : list ShellCall :=
  if has_scene_surface w
  then [modify_surface (surface_spec_empty <| ss_streams := Some (stream_specs data) |> <| ss_input_shape := Some (sd_input_shape data) |>)]
  else [].

(** ** What the shell knows of the window *)
Definition shell_sees (view : option SurfaceCreationParameters) (c : ShellCall) : option SurfaceCreationParameters :=
  match c with
  | create_surface p => Some p
  | modify_surface s => (fun p => params_update_from p s) <$> view
  | destroy_surface => None
  | _ => view
  end.

Inductive WinOp :=
| WTitle (title : string)
| WAppId (id : string)
| WMin (w h : Z)
| WMax (w h : Z)
| WParent (parent : option Window)
| WWidth (width : option Z)
| WHeight (height : option Z)
| WSpec (s : SurfaceSpecification)
| WDecorated (d : bool)
| WVisible (visible scene_visible : bool) (state : MirWindowState)
| WState (st : MirWindowState) (output : option Z) (buffer_size : option Size) (data : SurfaceData)
| WRefresh (data : SurfaceData)
| WCommit (buffer_size : option Size) (refresh : bool) (data : SurfaceData).

Definition win_step (w : WlWindow) (op : WinOp) : WlWindow * list ShellCall :=
  match op with
  | WTitle t => (set_title t w, [])
  | WAppId i => (set_wl_application_id i w, [])
  | WMin a b => (set_min_size a b w, [])
  | WMax a b => (set_max_size a b w, [])
  | WParent p => (set_parent p w, [])
  | WWidth o => (set_pending_width o w, [])
  | WHeight o => (set_pending_height o w, [])
  | WSpec s => (apply_spec s w, [])
  | WDecorated d => set_server_side_decorated d w
  | WVisible v sv st => (window_set_visible v sv st w, [])
  | WState st o b d => set_state_now st o b d w
  | WRefresh d => (w, window_refresh w d)
  | WCommit b r d => window_commit w b r d
  end.

(** The window and what the shell knows of it. *)
Definition win_run (ops : list WinOp) (s : WlWindow * option SurfaceCreationParameters) : WlWindow * option SurfaceCreationParameters :=
  foldl (fun s op => let '(w, calls) := win_step s.1 op in (w, foldl shell_sees s.2 calls)) s ops.

(** ** What the client asks for *)
Record Wish := mkWish { wish_name : string; wish_app : option string; wish_min : Size; wish_max : Size }.

(** No minimum is 0, no maximum the largest integer. *)
Definition wish_of (p : SurfaceCreationParameters) : Wish :=
  mkWish (cp_name p) (cp_application_id p)
    (mkSize (default 0 (cp_min_width p)) (default 0 (cp_min_height p)))
    (mkSize (default INT_MAX (cp_max_width p)) (default INT_MAX (cp_max_height p))).

Definition wish_spec (w : Wish) (s : SurfaceSpecification) : Wish :=
  mkWish (default (wish_name w) (ss_name s)) (or_keep (ss_application_id s) (wish_app w))
    (mkSize (default (width (wish_min w)) (ss_min_width s)) (default (height (wish_min w)) (ss_min_height s)))
    (mkSize (default (width (wish_max w)) (ss_max_width s)) (default (height (wish_max w)) (ss_max_height s))).

Definition wish_step (w : Wish) (op : WinOp) : Wish :=
  match op with
  | WTitle t => mkWish t (wish_app w) (wish_min w) (wish_max w)
  | WAppId i => mkWish (wish_name w) (Some i) (wish_min w) (wish_max w)
  | WMin a b => mkWish (wish_name w) (wish_app w) (mkSize a b) (wish_max w)
  | WMax a b => mkWish (wish_name w) (wish_app w) (wish_min w) (mkSize (unlimited INT_MAX a) (unlimited INT_MAX b))
  | WSpec s => wish_spec w s
  | _ => w
  end.

(** ** What waits plus what is told is what is asked for *)
Record WinInv (w : WlWindow) (view : option SurfaceCreationParameters) (wish : Wish) : Prop := {
  wv_scene : has_scene_surface w = true -> exists p, view = Some p /\ wish = wish_spec (wish_of p) (spec w) /\
    committed_min_size w = wish_min (wish_of p) /\ committed_max_size w = wish_max (wish_of p);
  wv_none : has_scene_surface w = false -> view = None /\ wish = wish_of (win_params w) /\
    committed_min_size w = mkSize 0 0 /\ committed_max_size w = max_possible_size /\ win_pending_changes w = None
}.

Lemma wish_update p s : wish_of (params_update_from p s) = wish_spec (wish_of p) s.
Proof.
  unfold wish_of, wish_spec. cbn.
  by destruct (ss_application_id s), (ss_min_width s), (ss_min_height s), (ss_max_width s), (ss_max_height s).
Qed.

Lemma wish_spec_update w a b : wish_spec w (spec_update_from a b) = wish_spec (wish_spec w a) b.
Proof. unfold wish_spec, spec_update_from. cbn. by rewrite !or_keep_assoc, !or_keep_default. Qed.

(** A request that goes into the parameters or into the pending changes. *)
Lemma ask_inv f g upd w view wish :
  (forall p s, wish_spec (wish_of p) (f s) = upd (wish_spec (wish_of p) s)) -> (forall p, wish_of (g p) = upd (wish_of p)) ->
  WinInv w view wish -> WinInv (ask f g w) view (upd wish).
Proof.
  intros Hf Hg [Hs Hn]. unfold ask. destruct (has_scene_surface w) eqn:E; split; cbn; rewrite E; try done; intros _.
  - destruct (Hs eq_refl) as (p & Hv & -> & Hmin & Hmax). exists p. split; [done|]. split; [by cbn; rewrite <- Hf|done].
  - destruct (Hn eq_refl) as (Hv & -> & Hmin & Hmax & Hp). split; [done|]. split; [by rewrite Hg|done].
Qed.

(** Changes that say nothing about what the client asks for. *)
Lemma silent_inv w w' view wish :
  WinInv w view wish -> has_scene_surface w' = has_scene_surface w -> win_params w' = win_params w ->
  committed_min_size w' = committed_min_size w -> committed_max_size w' = committed_max_size w ->
  (forall x, wish_spec x (spec w') = wish_spec x (spec w)) ->
  (has_scene_surface w = false -> win_pending_changes w' = win_pending_changes w) -> WinInv w' view wish.
Proof.
  intros [Hs Hn] E1 E2 E3 E4 E5 E6. split; rewrite E1.
  - intros (p & Hv & Hw & H1 & H2)%Hs. exists p. by rewrite E3, E4, E5.
  - intros E. destruct (Hn E) as (Hv & Hw & H1 & H2 & H3). by rewrite E2, E3, E4, E6.
Qed.

Lemma create_scene_surface_inv w view wish buffer_size data :
  WinInv w view wish -> has_scene_surface w = false ->
  WinInv (create_scene_surface w buffer_size data).1 (foldl shell_sees view (create_scene_surface w buffer_size data).2) wish.
Proof.
  intros [_ Hn] E. destruct (Hn E) as (-> & -> & H1 & H2 & Hp). unfold create_scene_surface. rewrite E.
  set (params := (win_params w) <| cp_size := _ |> <| cp_streams := _ |> <| cp_input_shape := _ |>).
  assert (Hv : foldl shell_sees None (create_surface params ::
            (if bool_decide (placed_size params = cp_size params) then [] else [content_resized_to (placed_size params)])) = Some params).
  { by case_bool_decide. }
  cbn [fst snd]. rewrite Hv. split; cbn; [|done]. intros _. exists params. split; [done|].
  unfold spec. cbn. rewrite Hp. cbn. split; [by unfold wish_of, wish_spec|]. by rewrite H1, H2.
Qed.

Lemma clear_pending_spec pending cache :
  default cache (clear_pending_if_unchanged pending cache).1 = default cache pending /\
  (clear_pending_if_unchanged pending cache).2 = default cache pending.
Proof. unfold clear_pending_if_unchanged. destruct pending as [v|]; [|done]. by destruct (Z.eqb_spec v cache) as [->|]. Qed.

Lemma clear_unchanged_spec s w told :
  committed_min_size w = wish_min told -> committed_max_size w = wish_max told ->
  wish_spec told (clear_unchanged s w).1 = wish_spec told s /\
  committed_min_size (clear_unchanged s w).2 = wish_min (wish_spec told s) /\
  committed_max_size (clear_unchanged s w).2 = wish_max (wish_spec told s).
Proof.
  intros Hmin Hmax. unfold clear_unchanged. rewrite Hmin, Hmax.
  destruct (clear_pending_spec (ss_min_width s) (width (wish_min told))) as [A1 B1].
  destruct (clear_pending_spec (ss_min_height s) (height (wish_min told))) as [A2 B2].
  destruct (clear_pending_spec (ss_max_width s) (width (wish_max told))) as [A3 B3].
  destruct (clear_pending_spec (ss_max_height s) (height (wish_max told))) as [A4 B4].
  repeat destruct (clear_pending_if_unchanged _ _). cbn in *. unfold wish_spec. cbn. by rewrite A1, A2, A3, A4, B1, B2, B3, B4.
Qed.

Lemma clear_unchanged_scene s w : has_scene_surface (clear_unchanged s w).2 = has_scene_surface w.
Proof. unfold clear_unchanged. by repeat destruct (clear_pending_if_unchanged _ _). Qed.

Lemma empty_spec_wish s w : spec_is_empty s = true -> wish_spec w s = w.
Proof.
  unfold spec_is_empty. rewrite !andb_true_iff. intros H. destruct_and! H. unfold wish_spec.
  destruct (ss_name s), (ss_application_id s), (ss_min_width s), (ss_min_height s), (ss_max_width s), (ss_max_height s);
    try done. by destruct w as [? ? [? ?] [? ?]].
Qed.

Lemma tell_shell_inv w view wish size refresh data :
  WinInv w view wish -> has_scene_surface w = true ->
  let r := tell_shell w size refresh data in
  WinInv r.1 (foldl shell_sees view r.2) wish /\ win_pending_changes r.1 = None /\ has_scene_surface r.1 = true.
Proof.
  intros Hw Hsc. unfold tell_shell.
  set (w1 := if bool_decide (committed_size w = Some size) then w else _).
  set (w2 := if refresh then _ else w1).
  assert (Hw2 : WinInv w2 view wish /\ has_scene_surface w2 = true).
  { unfold w2, w1. destruct refresh, (bool_decide _); split; try done; apply (silent_inv w); try done; by rewrite Hsc. }
  destruct Hw2 as [Hw2 Hsc2]. clearbody w2. clear w1 Hw Hsc.
  destruct (win_pending_changes w2) as [s|] eqn:Hp; [|done].
  destruct (wv_scene _ _ _ Hw2 Hsc2) as (p & -> & -> & Hmin & Hmax). assert (Hs : spec w2 = s) by (unfold spec; by rewrite Hp).
  rewrite Hs. destruct (clear_unchanged_spec s w2 (wish_of p) Hmin Hmax) as (E1 & E2 & E3).
  pose proof (clear_unchanged_scene s w2) as E4. rewrite Hsc2 in E4.
  destruct (clear_unchanged s w2) as [s' w3]. cbn [fst snd] in *. split; [|done].
  split; [|cbn; by rewrite E4]. intros _.
  exists (if spec_is_empty s' then p else params_update_from p s').
  assert (Hwish : wish_of (if spec_is_empty s' then p else params_update_from p s') = wish_spec (wish_of p) s).
  { rewrite <- E1. destruct (spec_is_empty s') eqn:Ee; [by rewrite empty_spec_wish|apply wish_update]. }
  split; [by destruct (spec_is_empty s')|]. rewrite Hwish. split; [|by split].
  unfold spec. cbn [win_pending_changes default]. by destruct (wish_spec (wish_of p) s) as [? ? [? ?] [? ?]].
Qed.

Lemma set_visible_inv v sv st w view wish : WinInv w view wish -> WinInv (window_set_visible v sv st w) view wish.
Proof.
  intros Hw. unfold window_set_visible. destruct (has_scene_surface w) eqn:E; [|done]. cbn [negb].
  repeat case_match; try done; (apply (silent_inv w); try done; by rewrite E).
Qed.

Lemma window_commit_inv w view wish buffer_size refresh data :
  WinInv w view wish ->
  let r := window_commit w buffer_size refresh data in
  WinInv r.1 (foldl shell_sees view r.2) wish /\ win_pending_changes r.1 = None /\ has_scene_surface r.1 = true.
Proof.
  intros Hw. unfold window_commit. set (size := pending_size w buffer_size).
  assert (Hw2 : WinInv (w <| client_size := size |>) view wish) by (by apply (silent_inv w)).
  assert (Hr : let r := if has_scene_surface (w <| client_size := size |>)
                 then tell_shell (w <| client_size := size |>) size refresh data
                 else create_scene_surface (w <| client_size := size |>) buffer_size data in
               WinInv r.1 (foldl shell_sees view r.2) wish /\ win_pending_changes r.1 = None /\ has_scene_surface r.1 = true).
  { destruct (has_scene_surface (w <| client_size := size |>)) eqn:E; [by apply tell_shell_inv|].
    split; [by apply create_scene_surface_inv|]. unfold create_scene_surface. rewrite E. cbn.
    split; [|done]. by destruct (wv_none _ _ _ Hw E) as (_ & _ & _ & _ & ?). }
  cbv zeta in Hr |- *. destruct (if has_scene_surface (w <| client_size := size |>) then _ else _) as [w3 calls].
  cbn [fst snd] in *. destruct Hr as (H1 & H2 & H3). split; [|done]. by apply (silent_inv w3).
Qed.

Lemma set_state_now_inv w view wish st output buffer_size data :
  WinInv w view wish ->
  let r := set_state_now st output buffer_size data w in WinInv r.1 (foldl shell_sees view r.2) wish.
Proof.
  intros Hw. unfold set_state_now. destruct (has_scene_surface w) eqn:E.
  - destruct (wv_scene _ _ _ Hw E) as (p & -> & Hwish & Hmin & Hmax). split; cbn; rewrite E; [|done]. intros _.
    eexists. split; [reflexivity|]. by rewrite Hwish.
  - apply create_scene_surface_inv; [|done]. destruct (wv_none _ _ _ Hw E) as (? & ? & ? & ? & ?).
    split; cbn; rewrite E; [done|]. intros _. by split_and!.
Qed.

Lemma win_step_inv w view wish op : WinInv w view wish ->
  WinInv (win_step w op).1 (foldl shell_sees view (win_step w op).2) (wish_step wish op).
Proof.
  intros Hw. destruct op; cbn [win_step wish_step].
  - by apply (ask_inv _ _ (fun w => mkWish title (wish_app w) (wish_min w) (wish_max w))).
  - by apply (ask_inv _ _ (fun w => mkWish (wish_name w) (Some id) (wish_min w) (wish_max w))).
  - by apply (ask_inv _ _ (fun x => mkWish (wish_name x) (wish_app x) (mkSize w0 h) (wish_max x))).
  - apply (ask_inv _ _ (fun x => mkWish (wish_name x) (wish_app x) (wish_min x) (mkSize (unlimited INT_MAX w0) (unlimited INT_MAX h)))); try done.
    intros p. unfold wish_of, unlimited. cbn. by destruct (w0 =? 0), (h =? 0).
  - by apply (ask_inv _ _ (fun x => x)).
  - by apply (silent_inv w).
  - by apply (silent_inv w).
  - apply (ask_inv _ _ (fun x => wish_spec x s)).
    + intros p s0. apply wish_spec_update.
    + intros p. apply wish_update.
    + by apply (silent_inv w).
  - unfold set_server_side_decorated. destruct (has_scene_surface w) eqn:E; [done|].
    destruct (wv_none _ _ _ Hw E) as (? & ? & ? & ? & ?). split; cbn; rewrite E; [done|]. intros _. by split_and!.
  - by apply set_visible_inv.
  - by apply set_state_now_inv.
  - unfold window_refresh. destruct (has_scene_surface w) eqn:E; [|done].
    destruct (wv_scene _ _ _ Hw E) as (p & -> & Hwish & Hmin & Hmax). split; cbn [fst snd]; rewrite E; [|done]. intros _.
    eexists. split; [reflexivity|]. by rewrite Hwish.
  - by apply window_commit_inv.
Qed.

Lemma win_run_inv ops w view wish : WinInv w view wish ->
  WinInv (win_run ops (w, view)).1 (win_run ops (w, view)).2 (foldl wish_step wish ops).
Proof.
  revert w view wish. induction ops as [|op ops IH]; intros w view wish Hw; [done|]. cbn.
  pose proof (win_step_inv w view wish op Hw) as H. destruct (win_step w op) as [w' calls]. by apply IH.
Qed.

Lemma new_window_inv params : WinInv (new_window params) None (wish_of params).
Proof. by split. Qed.

(** ** Sizes *)
(** The size that the client set last, if it did, and the last committed one. *)
Record SizeWish := mkSizeWish { sw_width : option Z; sw_height : option Z; sw_last : Size }.
Definition wished_size (sw : SizeWish) (buffer_size : option Size) : Size :=
  let base := default (sw_last sw) buffer_size in
  mkSize (default (width base) (sw_width sw)) (default (height base) (sw_height sw)).
Definition size_step (sw : SizeWish) (op : WinOp) : SizeWish :=
  match op with
  | WWidth o => mkSizeWish (or_keep o (sw_width sw)) (sw_height sw) (sw_last sw)
  | WHeight o => mkSizeWish (sw_width sw) (or_keep o (sw_height sw)) (sw_last sw)
  | WCommit b _ _ => mkSizeWish (sw_width sw) (sw_height sw) (wished_size sw b)
  | _ => sw
  end.
(** The size is set by [set_pending_width] and [set_pending_height] only. *)
Definition plain_size (op : WinOp) : bool :=
  match op with
  | WWidth None | WHeight None => false
  | WSpec s => unset (ss_width s) && unset (ss_height s)
  | _ => true
  end.

Definition explicit_inv (asked pending : option Z) (explicitly : bool) (last : Z) : Prop :=
  match asked with
  | None => pending = None /\ explicitly = false
  | Some x => pending = Some x \/ (pending = None /\ explicitly = true /\ last = x)
  end.

Record SizeInv (w : WlWindow) (view : option SurfaceCreationParameters) (sw : SizeWish) : Prop := {
  sv_last : sw_last sw = default (mkSize 640 480) (committed_size w);
  sv_width : explicit_inv (sw_width sw) (pending_explicit_width w) (committed_width_set_explicitly w) (width (sw_last sw));
  sv_height : explicit_inv (sw_height sw) (pending_explicit_height w) (committed_height_set_explicitly w) (height (sw_last sw));
  sv_told : has_scene_surface w = true -> exists p, view = Some p /\ (committed_size w = None \/ committed_size w = Some (cp_size p));
  sv_spec : ss_width (spec w) = None /\ ss_height (spec w) = None;
  sv_none : has_scene_surface w = false -> win_pending_changes w = None /\ committed_size w = None
}.

Lemma pending_size_wished w view sw b : SizeInv w view sw -> pending_size w b = wished_size sw b.
Proof.
  intros [Hl Hw Hh _ _ _]. unfold pending_size, wished_size, current_size. rewrite <- Hl.
  unfold explicit_inv in *. f_equal; destruct b as [[bw bh]|]; cbn.
  1-2: destruct (sw_width sw) as [x|]; [destruct Hw as [->|(-> & E & <-)]|destruct Hw as [-> E]]; by rewrite ?E.
  1-2: destruct (sw_height sw) as [x|]; [destruct Hh as [->|(-> & E & <-)]|destruct Hh as [-> E]]; by rewrite ?E.
Qed.

(** Changes that say nothing about sizes. *)
Lemma size_silent w w' view view' sw :
  SizeInv w view sw -> has_scene_surface w' = has_scene_surface w ->
  pending_explicit_width w' = pending_explicit_width w -> pending_explicit_height w' = pending_explicit_height w ->
  committed_width_set_explicitly w' = committed_width_set_explicitly w ->
  committed_height_set_explicitly w' = committed_height_set_explicitly w ->
  committed_size w' = committed_size w -> ss_width (spec w') = None /\ ss_height (spec w') = None ->
  (has_scene_surface w = false -> win_pending_changes w' = None) ->
  cp_size <$> view' = cp_size <$> view -> SizeInv w' view' sw.
Proof.
  intros [Hl Hw Hh Ht Hs Hn] E1 E2 E3 E4 E5 E6 E7 E8 E9. split; rewrite ?E1, ?E2, ?E3, ?E4, ?E5, ?E6; try done.
  2: { intros E. split; [by apply E8|by apply Hn]. }
  intros (p & -> & Hp)%Ht. destruct view' as [p'|]; [|done]. injection E9 as E9. exists p'. by rewrite E9.
Qed.

Lemma explicit_committed asked pending explicitly last base :
  explicit_inv asked pending explicitly last ->
  explicit_inv asked None (explicitly || negb (unset pending)) (default base asked).
Proof.
  unfold explicit_inv. destruct asked as [x|]; [|by intros [-> ->]].
  intros [->|(-> & -> & _)]; right; cbn; [by rewrite orb_true_r|done].
Qed.

Lemma clear_unchanged_rest s w :
  let r := clear_unchanged s w in
  ss_width r.1 = ss_width s /\ ss_height r.1 = ss_height s /\
  has_scene_surface r.2 = has_scene_surface w /\ pending_explicit_width r.2 = pending_explicit_width w /\
  pending_explicit_height r.2 = pending_explicit_height w /\
  committed_width_set_explicitly r.2 = committed_width_set_explicitly w /\
  committed_height_set_explicitly r.2 = committed_height_set_explicitly w.
Proof. unfold clear_unchanged. by repeat destruct (clear_pending_if_unchanged _ _). Qed.

Lemma told_size p s size :
  (ss_width s = Some (width size) /\ ss_height s = Some (height size)) \/
  (ss_width s = None /\ ss_height s = None /\ cp_size p = size) ->
  exists p', foldl shell_sees (Some p) (if spec_is_empty s then [] else [modify_surface s]) = Some p' /\ cp_size p' = size.
Proof.
  intros [[E1 E2]|(E1 & E2 & E3)].
  - assert (spec_is_empty s = false) as -> by (unfold spec_is_empty; rewrite E1; by rewrite andb_false_r).
    eexists. split; [reflexivity|]. cbn. rewrite E1, E2. by destruct size.
  - destruct (spec_is_empty s); [by exists p|]. eexists. split; [reflexivity|]. cbn. by rewrite E1.
Qed.

(** What the scene surface is told at a commit. *)
Lemma tell_shell_size w view sw size refresh data :
  SizeInv w view sw -> has_scene_surface w = true ->
  let r := tell_shell w size refresh data in
  (exists p, foldl shell_sees view r.2 = Some p /\ cp_size p = size) /\ win_pending_changes r.1 = None /\
  has_scene_surface r.1 = true /\ pending_explicit_width r.1 = pending_explicit_width w /\
  pending_explicit_height r.1 = pending_explicit_height w /\
  committed_width_set_explicitly r.1 = committed_width_set_explicitly w /\
  committed_height_set_explicitly r.1 = committed_height_set_explicitly w.
Proof.
  intros Hw Hsc. destruct (sv_told _ _ _ Hw Hsc) as (p & -> & Hp). destruct (sv_spec _ _ _ Hw) as [Hs1 Hs2].
  unfold tell_shell.
  set (w1 := if bool_decide (committed_size w = Some size) then w else _).
  set (w2 := if refresh then _ else w1).
  assert (H2 : ((ss_width (spec w2) = Some (width size) /\ ss_height (spec w2) = Some (height size)) \/
                (ss_width (spec w2) = None /\ ss_height (spec w2) = None /\ cp_size p = size)) /\
               has_scene_surface w2 = true /\ pending_explicit_width w2 = pending_explicit_width w /\
               pending_explicit_height w2 = pending_explicit_height w /\
               committed_width_set_explicitly w2 = committed_width_set_explicitly w /\
               committed_height_set_explicitly w2 = committed_height_set_explicitly w).
  { assert (H1 : committed_size w = Some size -> cp_size p = size) by (destruct Hp; congruence).
    unfold w2, w1. case_bool_decide; destruct refresh; (split; [|done]); first [by left|right; auto]. }
  destruct H2 as (Hsize & E1 & E2 & E3 & E4 & E5). clearbody w2. clear w1.
  destruct (win_pending_changes w2) as [s|] eqn:Hpc.
  - assert (Hsp : spec w2 = s) by (unfold spec; by rewrite Hpc). rewrite Hsp in Hsize.
    pose proof (clear_unchanged_rest s w2) as Hr. destruct (clear_unchanged s w2) as [s' w3]. cbn [fst snd] in *.
    destruct Hr as (A1 & A2 & A3 & A4 & A5 & A6 & A7). rewrite <- A1, <- A2 in Hsize.
    split; [by apply told_size|]. cbn. by rewrite A3, A4, A5, A6, A7.
  - split; [|done]. destruct Hsize as [[H _]|(_ & _ & H)]; [unfold spec in H; by rewrite Hpc in H|]. by exists p.
Qed.

Lemma window_commit_size w view sw b refresh data : SizeInv w view sw ->
  let r := window_commit w b refresh data in
  SizeInv r.1 (foldl shell_sees view r.2) (size_step sw (WCommit b refresh data)) /\
  exists p, foldl shell_sees view r.2 = Some p /\ cp_size p = wished_size sw b.
Proof.
  intros Hw. unfold window_commit. rewrite (pending_size_wished w view sw b Hw). set (size := wished_size sw b).
  set (w2 := w <| client_size := size |>).
  assert (Hw2 : SizeInv w2 view sw) by (destruct Hw; by split).
  assert (Hr : let r := if has_scene_surface w2 then tell_shell w2 size refresh data else create_scene_surface w2 b data in
    (exists p, foldl shell_sees view r.2 = Some p /\ cp_size p = size) /\ win_pending_changes r.1 = None /\
    has_scene_surface r.1 = true /\ pending_explicit_width r.1 = pending_explicit_width w /\
    pending_explicit_height r.1 = pending_explicit_height w /\
    committed_width_set_explicitly r.1 = committed_width_set_explicitly w /\
    committed_height_set_explicitly r.1 = committed_height_set_explicitly w).
  { destruct (has_scene_surface w2) eqn:E; [by apply (tell_shell_size w2 view sw)|].
    unfold create_scene_surface. rewrite E. cbn [fst snd]. split; [|split; [by destruct (sv_none _ _ _ Hw2 E)|done]].
    rewrite (pending_size_wished w2 view sw b Hw2).
    set (params := (win_params w2) <| cp_size := _ |> <| cp_streams := _ |> <| cp_input_shape := _ |>). exists params.
    split; [by case_bool_decide|done]. }
  cbv zeta in Hr |- *. destruct (if has_scene_surface w2 then _ else _) as [w3 calls]. cbn [fst snd] in *.
  destruct Hr as ((p & Hv & Hp) & H1 & H2 & H3 & H4 & H5 & H6). split; [|by exists p].
  destruct Hw as [Hl Hww Hwh _ _ _]. split; cbn; rewrite ?H3, ?H4, ?H5, ?H6; try done.
  - by apply (explicit_committed _ _ _ (width (sw_last sw))).
  - by apply (explicit_committed _ _ _ (height (sw_last sw))).
  - intros _. exists p. rewrite Hp. split; [done|by right].
  - unfold spec. cbn. by rewrite H1.
  - by rewrite H2.
Qed.

Lemma ask_size f g w view sw :
  (forall s, ss_width (f s) = ss_width s /\ ss_height (f s) = ss_height s) -> SizeInv w view sw -> SizeInv (ask f g w) view sw.
Proof.
  intros Hf Hw. unfold ask. destruct (has_scene_surface w) eqn:E; apply (size_silent w _ view); try done.
  - cbn. destruct (Hf (spec w)) as [-> ->]. by apply (sv_spec _ _ _ Hw).
  - by rewrite E.
  - by apply (sv_spec _ _ _ Hw).
  - by apply (sv_none _ _ _ Hw).
Qed.

Lemma set_visible_size v sv st w view sw : SizeInv w view sw -> SizeInv (window_set_visible v sv st w) view sw.
Proof.
  intros Hw. unfold window_set_visible. destruct (has_scene_surface w) eqn:E; [|done]. cbn [negb].
  pose proof (sv_spec _ _ _ Hw). repeat case_match; try done; (apply (size_silent w _ view); try done; by rewrite E).
Qed.

Lemma create_size w view sw b data : SizeInv w view sw -> has_scene_surface w = false ->
  SizeInv (create_scene_surface w b data).1 (foldl shell_sees view (create_scene_surface w b data).2) sw.
Proof.
  intros [Hl Hw Hh Ht Hs Hn] E. destruct (Hn E) as [_ Ec].
  unfold create_scene_surface. rewrite E. cbn [fst snd].
  set (params := (win_params w) <| cp_size := _ |> <| cp_streams := _ |> <| cp_input_shape := _ |>).
  split; cbn; rewrite ?Ec in *; try done. intros _. exists params. split; [by case_bool_decide|by left].
Qed.

Lemma win_step_size w view sw op : SizeInv w view sw -> plain_size op = true ->
  SizeInv (win_step w op).1 (foldl shell_sees view (win_step w op).2) (size_step sw op).
Proof.
  intros Hw Hop. destruct op as [| | | | |ow|oh|s| | | | |]; cbn [win_step]; try (by apply ask_size); cbn [fst snd foldl].
  - destruct ow as [x|]; [|done]. destruct Hw. split; try done. by left.
  - destruct oh as [x|]; [|done]. destruct Hw. split; try done. by left.
  - cbn in Hop. apply andb_true_iff in Hop as [H1 H2]. destruct (ss_width s) eqn:E1, (ss_height s) eqn:E2; try done.
    apply ask_size; [|destruct Hw; split; cbn; rewrite ?E1, ?E2; done]. intros s0. cbn. by rewrite E1, E2.
  - unfold set_server_side_decorated. destruct (has_scene_surface w) eqn:E; [done|]. destruct Hw. by split.
  - by apply set_visible_size.
  - unfold set_state_now. destruct (has_scene_surface w) eqn:E; [|apply create_size; [destruct Hw; by split|done]].
    destruct (sv_told _ _ _ Hw E) as (p & -> & Hp). pose proof (sv_spec _ _ _ Hw). by apply (size_silent w _ (Some p)); try done; rewrite E.
  - unfold window_refresh. destruct (has_scene_surface w) eqn:E; [|done].
    destruct (sv_told _ _ _ Hw E) as (p & -> & Hp). pose proof (sv_spec _ _ _ Hw). by apply (size_silent w _ (Some p)); try done; rewrite E.
  - by apply window_commit_size.
Qed.

Lemma win_run_size ops w view sw : SizeInv w view sw -> forallb plain_size ops = true ->
  SizeInv (win_run ops (w, view)).1 (win_run ops (w, view)).2 (foldl size_step sw ops).
Proof.
  revert w view sw. induction ops as [|op ops IH]; intros w view sw Hw Hops; [done|]. cbn in *.
  apply andb_true_iff in Hops as [Hop Hops].
  pose proof (win_step_size w view sw op Hw Hop) as H. destruct (win_step w op) as [w' calls]. by apply IH.
Qed.

Lemma win_run_snoc ops op s : win_run (ops ++ [op]) s =
  ((win_step (win_run ops s).1 op).1, foldl shell_sees (win_run ops s).2 (win_step (win_run ops s).1 op).2).
Proof. unfold win_run. rewrite foldl_app. cbn. by destruct (win_step _ op). Qed.

(** C15: (refinement) Whatever a client asks for a window, in whichever order and
    before or after the window exists, at each commit the shell is brought to
    what the client asked for last: the name, the application, the limits of
    the size and, when the size is set by the requests for it alone, the size:
    the one set last or else that of the buffer, or else the old one. *)
Theorem window_commit_tells params ops b refresh data :
  let s := win_run (ops ++ [WCommit b refresh data]) (new_window params, None) in
  exists p, s.2 = Some p /\ has_scene_surface s.1 = true /\ wish_of p = foldl wish_step (wish_of params) ops /\
    (forallb plain_size ops = true ->
     cp_size p = wished_size (foldl size_step (mkSizeWish None None (mkSize 640 480)) ops) b /\
     committed_size s.1 = Some (cp_size p)).
Proof.
  cbv zeta. rewrite win_run_snoc. cbn [win_step fst snd].
  pose proof (win_run_inv ops _ _ _ (new_window_inv params)) as Hw.
  assert (H0 : SizeInv (new_window params) None (mkSizeWish None None (mkSize 640 480))) by (by split).
  pose proof (win_run_size ops _ _ _ H0) as Hsize.
  set (r := win_run ops (new_window params, None)) in *.
  destruct (window_commit_inv r.1 r.2 _ b refresh data Hw) as (Hinv & Hp & Hsc).
  destruct (wv_scene _ _ _ Hinv Hsc) as (p & Hv & Hwish & _). unfold spec in Hwish. rewrite Hp in Hwish. cbn [default] in Hwish.
  exists p. do 2 (split; [done|]). split; [by rewrite Hwish; destruct p|].
  intros Hops. destruct (window_commit_size r.1 r.2 _ b refresh data (Hsize Hops)) as [_ (p' & Hv' & Hp')].
  rewrite Hv in Hv'. injection Hv' as <-. split; [done|]. rewrite Hp'.
  unfold window_commit. rewrite (pending_size_wished _ _ _ b (Hsize Hops)). by destruct (if has_scene_surface _ then _ else _).
Qed.
End Windows.

(** A title and limits before and after the first commit, and a limit set back. *)
Lemma window_commit_tells_witness :
  let data := mkSurfaceData [] [] in
  let ops := [WTitle "a"; WMin 10 10; WCommit None true data; WMin 20 20; WMax 0 50; WWidth (Some 300); WCommit None false data; WMin 10 10] in
  forallb plain_size ops = true /\
  exists p, (win_run cp_size (ops ++ [WCommit (Some (mkSize 5 6)) false data]) (new_window example_creation, None)).2 = Some p /\
    wish_of p = foldl wish_step (wish_of example_creation) ops /\ cp_size p = mkSize 300 6.
Proof.
  cbv zeta. split; [done|].
  destruct (window_commit_tells cp_size example_creation
    [WTitle "a"; WMin 10 10; WCommit None true (mkSurfaceData [] []); WMin 20 20; WMax 0 50; WWidth (Some 300);
     WCommit None false (mkSurfaceData [] []); WMin 10 10] (Some (mkSize 5 6)) false (mkSurfaceData [] [])) as (p & Hp & _ & Hw & Hs).
  exists p. split; [exact Hp|]. split; [exact Hw|]. destruct Hs as [Hs _]; [done|]. rewrite Hs. by vm_compute.
Defined.

(** ** What does not reach the shell *)
(** A parent that the shell has been told of is not removed again. *)
Example parent_is_not_removed :
  let data := mkSurfaceData [] [] in
  cp_parent <$> (win_run cp_size
    [WCommit None true data; WParent (Some 7); WCommit None false data; WParent None; WCommit None false data]
    (new_window example_creation, None)).2 = Some (Some 7).
Proof. by vm_compute. Qed.
