(* ===== verification/WlClient.v ===== *)
(** * The requests of a Wayland client

    The requests for [wl_surface], [wl_subsurface] and windows put together:
    which role answers a request, how surfaces and subsurfaces come and go,
    and when everything that a client asks for is served
    ([src/server/frontend_wayland/wl_surface.cpp], [wl_subcompositor.cpp],
    [window_wl_surface_role.cpp]). *)
From S2P Require Import Prelude Geometry WindowInfo SurfaceSpec WlSurfaces WlWindows.

(** ** Data *)
Record WlWorld := mkWlWorld { objects : WlObjects; windows : gmap Z WlWindow }.
#[export] Instance WlWorld_eta : EtaExpansion WlWorld := fun m => mkWlWorld (objects m) (windows m).

(** What a client asks of a window. *)
Inductive WindowRequest :=
| RTitle (title : string)
| RAppId (id : string)
| RMin (w h : Z)
| RMax (w h : Z)
| RParent (parent : option Window)
| RWidth (width : option Z)
| RHeight (height : option Z)
| RSpec (s : SurfaceSpecification)
| RDecorated (decorated : bool)
| RState (st : MirWindowState) (output : option Z).

(** What is told to the client, the streams and the log, and to the shell
    about a window. *)
Definition WlEvents : Type := list WlCall * list (Z * ShellCall).
Definition no_events : WlEvents := ([], []).
Definition for_window (s : Z) (calls : list ShellCall) : list (Z * ShellCall) := (fun c => (s, c)) <$> calls.

Inductive WlRequest :=
| CreateSurface (s : Z)
| DestroySurface (s : Z)
| Attach (s : Z) (buffer : option WlBuffer)
| Frame (s : Z) (callback : Z)
| SetInputRegion (s : Z) (region : option (list Rectangle))
| Commit (s : Z)
| GetSubsurface (s parent : Z)
| DestroySubsurface (s : Z)
| SetPosition (s : Z) (x y : Z)
| PlaceAbove (s sibling : Z)
| PlaceBelow (s sibling : Z)
| SetSync (s : Z) (sync : bool)
| BufferConsumed (s : Z)
| CallbackGone (callback : Z)
| GetWindow (s : Z)
| DestroyWindow (s : Z)
| AskWindow (s : Z) (request : WindowRequest)
| TakeCursor (s : Z)
| DropCursor (s : Z).

Section Client.
(** The shell: the size that it gives a new window, and whether a window is
    visible and in which state; the parameters of a new window. *)
Context (placed_size : SurfaceCreationParameters -> Size).
Context (scene_visible : Z -> bool) (scene_state : Z -> MirWindowState).
Context (default_params : SurfaceCreationParameters).

(** As many calls as there are surfaces, and one more, may nest. *)
Definition wl_fuel (o : WlObjects) : nat := S (size (wl_surfaces o)).

(** The window at the root refreshes its surface data. *)
Definition window_calls (ws : gmap Z WlWindow) (calls : list WlCall) : list (Z * ShellCall) :=
  mjoin ((fun c => match c with
                   | refresh_surface_data s data =>
                       match ws !! s with Some w => for_window s (window_refresh w data) | None => [] end
                   | _ => []
                   end) <$> calls).

Definition serve (m : WlWorld) (r : outcome WlResult) : outcome (WlWorld * WlEvents) :=
  x ← r; Ret (m <| objects := x.1 |>, (x.2, window_calls (windows m) x.2)).

Definition wl_alter (m : WlWorld) (s : Z) (f : WlSurface -> WlSurface) : outcome (WlWorld * WlEvents) :=
  Ret (m <| objects := alter_surface s f (objects m) |>, no_events).

Definition in_pending (f : WlSurfaceState -> WlSurfaceState) (su : WlSurface) : WlSurface := su <| pending := f (pending su) |>.

(** [WlSurface::attach]; the role is told first. *)
Definition wl_attach (m : WlWorld) (s : Z) (buffer : option WlBuffer) : outcome (WlWorld * WlEvents) :=
  let o := alter_surface s (in_pending (fun st => st <| st_buffer := Some buffer |>)) (objects m) in
  let visible := bool_decide (is_Some buffer) in
  match wl_role <$> wl_surfaces (objects m) !! s with
  | Some subsurface_role => Ret (m <| objects := o |>, ([warning "TODO: wl_subsurface.visiblity not implemented"], []))
  | Some window_role =>
      Ret (m <| objects := o |>
             <| windows := alter (window_set_visible visible (scene_visible s) (scene_state s)) s (windows m) |>, no_events)
  | _ => Ret (m <| objects := o |>, no_events)
  end.

(** [WindowWlSurfaceRole::commit] *)
Definition commit_window (m : WlWorld) (o : WlObjects) (s : Z) (su : WlSurface) (w : WlWindow) (st : WlSurfaceState) :
    outcome (WlWorld * WlEvents) :=
  r ← surface_commit (wl_fuel o) (wl_fuel o) o s st;
  let refresh := surface_data_needs_refresh st || invalidates su st in
  data ← (if refresh || negb (has_scene_surface w) then populate_surface_data (wl_fuel o) r.1 s displacement_zero
          else Ret (mkSurfaceData [] []));
  let '(w', calls) := window_commit placed_size w (wl_surfaces r.1 !! s ≫= buffer_size_) refresh data in
  Ret (m <| objects := r.1 |> <| windows := <[s := w']> (windows m) |>, (r.2, for_window s calls)).

(** [WlSurface::commit()] *)
Definition commit (m : WlWorld) (s : Z) : outcome (WlWorld * WlEvents) :=
  match wl_surfaces (objects m) !! s with
  | None => Throw use_after_free
  | Some su =>
      let '(su', st) := take_pending su in
      let o := (objects m) <| wl_surfaces := <[s := su']> (wl_surfaces (objects m)) |> in
      match wl_role su, windows m !! s with
      | null_role, _ | cursor_role, _ => serve m (surface_commit (wl_fuel o) (wl_fuel o) o s st)
      | subsurface_role, _ => serve m (subsurface_commit (wl_fuel o) o s st)
      | window_role, Some w => commit_window m o s su' w st
      | window_role, None => Throw use_after_free
      end
  end.

(** The constructor and the destructor of [WindowWlSurfaceRole]. *)
Definition get_window (m : WlWorld) (s : Z) : outcome (WlWorld * WlEvents) :=
  o ← set_role (objects m) s window_role;
  Ret (m <| objects := o |> <| windows := <[s := new_window default_params]> (windows m) |>, no_events).
Definition destroy_window (m : WlWorld) (s : Z) : WlWorld * WlEvents :=
  match windows m !! s with
  | None => (m, no_events)
  | Some w =>
      (m <| objects := clear_role (objects m) s |>
         <| windows := delete s (windows m) |>,
       ([], for_window s (if has_scene_surface w then [destroy_surface] else [])))
  end.

(** The destructor of [WlSurface]: its role goes with it. *)
Definition destroy_wl_surface (m : WlWorld) (s : Z) : outcome (WlWorld * WlEvents) :=
  match wl_role <$> wl_surfaces (objects m) !! s with
  | None => Throw use_after_free
  | Some r =>
      x ← match r with
          | subsurface_role => serve m (destroy_subsurface (wl_fuel (objects m)) (objects m) s)
          | window_role => Ret (destroy_window m s)
          | null_role | cursor_role => Ret (m, no_events)
          end;
      Ret (x.1 <| objects := (objects x.1) <| wl_surfaces := delete s (wl_surfaces (objects x.1)) |> |>, x.2)
  end.

(** The requests for a window; a window that shows at once needs the surface data. *)
Definition window_request (request : WindowRequest) (buffer_size : option Size) (data : SurfaceData) : WinOp :=
  match request with
  | RTitle t => WTitle t
  | RAppId i => WAppId i
  | RMin a b => WMin a b
  | RMax a b => WMax a b
  | RParent p => WParent p
  | RWidth o => WWidth o
  | RHeight o => WHeight o
  | RSpec s => WSpec s
  | RDecorated d => WDecorated d
  | RState st o => WState st o buffer_size data
  end.
Definition ask_window (m : WlWorld) (s : Z) (request : WindowRequest) : outcome (WlWorld * WlEvents) :=
  match windows m !! s with
  | None => Ret (m, no_events)
  | Some w =>
      let o := objects m in
      data ← match request with
             | RState _ _ => if has_scene_surface w then Ret (mkSurfaceData [] []) else populate_surface_data (wl_fuel o) o s displacement_zero
             | _ => Ret (mkSurfaceData [] [])
             end;
      let '(w', calls) := win_step placed_size w (window_request request (wl_surfaces o !! s ≫= buffer_size_) data) in
      Ret (m <| windows := <[s := w']> (windows m) |>, ([], for_window s calls))
  end.

Definition wl_step (m : WlWorld) (req : WlRequest) : outcome (WlWorld * WlEvents) :=
  let o := objects m in
  match req with
  | CreateSurface s => Ret (m <| objects := o <| wl_surfaces := <[s := new_surface]> (wl_surfaces o) |> |>, no_events)
  | DestroySurface s => destroy_wl_surface m s
  | Attach s buffer => wl_attach m s buffer
  | Frame s callback => wl_alter m s (in_pending (fun st => st <| st_frame_callbacks := st_frame_callbacks st ++ [callback] |>))
  | SetInputRegion s region => wl_alter m s (in_pending (fun st => st <| st_input_shape := Some region |>))
  | Commit s => commit m s
  | GetSubsurface s parent => serve m (get_subsurface o s parent)
  | DestroySubsurface s => serve m (destroy_subsurface (wl_fuel o) o s)
  | SetPosition s x y => wl_alter m s (in_pending (fun st => st <| st_offset := Some (mkDisplacement x y) |>))
  | PlaceAbove s sibling => serve m (place_above o s sibling)
  | PlaceBelow s sibling => serve m (place_below o s sibling)
  | SetSync s sync => Ret (m <| objects := alter_subsurface s (fun sub => sub <| synchronized_ := sync |>) o |>, no_events)
  | BufferConsumed s => serve m (Ret (send_frame_callbacks o s))
  | CallbackGone callback => Ret (m <| objects := o <| gone_callbacks := {[callback]} ∪ gone_callbacks o |> |>, no_events)
  | GetWindow s => get_window m s
  | DestroyWindow s => Ret (destroy_window m s)
  | AskWindow s request => ask_window m s request
  | TakeCursor s => o' ← set_role o s cursor_role; Ret (m <| objects := o' |>, no_events)
  | DropCursor s =>
      Ret (if bool_decide ((wl_role <$> wl_surfaces o !! s) = Some cursor_role) then m <| objects := clear_role o s |> else m, no_events)
  end.
End Client.

(** ** Requests that leave the forest alone *)
Lemma alter_frame_forest s f o : (forall su, frame_of (f su) = frame_of su) -> same_forest o (alter_surface s f o).
Proof.
  intros Hf. split; [|done]. cbn. apply map_eq. intros d. rewrite !lookup_fmap.
  destruct (decide (d = s)) as [->|]; [rewrite lookup_alter_eq|by rewrite lookup_alter_ne].
  destruct (wl_surfaces o !! s); [|done]. cbn. by rewrite Hf.
Qed.

Lemma alter_sub_forest s f o : (forall sub, sub_parent (f sub) = sub_parent sub) -> same_forest o (alter_subsurface s f o).
Proof.
  intros Hf. split; [done|]. cbn. apply map_eq. intros d. rewrite !lookup_fmap.
  destruct (decide (d = s)) as [->|]; [rewrite lookup_alter_eq|by rewrite lookup_alter_ne].
  destruct (wl_subsurfaces o !! s); [|done]. cbn. by rewrite Hf.
Qed.

Lemma send_frame_callbacks_forest o s : same_forest o (send_frame_callbacks o s).1.
Proof.
  unfold send_frame_callbacks. destruct (wl_surfaces o !! s) as [su|] eqn:Hs; [|done]. split; [|done]. cbn. rewrite fmap_insert. apply insert_id. by rewrite lookup_fmap, Hs.
Qed.

(** Surfaces stay, windows and cursors stay what they are, and no others come;
    surfaces may come and be subsurfaces or not. *)
Definition role_of (o : WlObjects) (s : Z) : option WlRole := wl_role <$> wl_surfaces o !! s.
Definition is_window (o : WlObjects) (s : Z) : Prop := role_of o s = Some window_role.
Definition is_cursor (o : WlObjects) (s : Z) : Prop := role_of o s = Some cursor_role.
Definition same_windows (o o' : WlObjects) : Prop := forall s,
  role_of o' s = role_of o s \/
  (role_of o s <> Some window_role /\ role_of o s <> Some cursor_role /\
   (role_of o' s = Some null_role \/ role_of o' s = Some subsurface_role)).

Lemma same_windows_is o o' s : same_windows o o' -> is_window o' s <-> is_window o s.
Proof. intros H. unfold is_window. destruct (H s) as [E|(H1 & H2 & [E|E])]; rewrite E; naive_solver. Qed.
Lemma role_known o s : is_Some (role_of o s) <-> is_Some (wl_surfaces o !! s).
Proof. unfold role_of. by rewrite fmap_is_Some. Qed.

Lemma forest_windows o o' : same_forest o o' -> same_windows o o'.
Proof.
  intros [H _] s. left. apply (f_equal (.!! s)) in H. rewrite !lookup_fmap in H. unfold role_of.
  destruct (wl_surfaces o' !! s), (wl_surfaces o !! s); cbn in *; try done. by injection H as -> _.
Qed.

(** ** The role of a surface *)
Lemma set_role_inv s r o : WlInv o -> (wl_role <$> wl_surfaces o !! s) <> Some subsurface_role -> r <> subsurface_role ->
  WlInv (alter_surface s (fun su => su <| wl_role := r |>) o).
Proof.
  intros Ho Hold Hnew.
  assert (Hl : forall d, wl_surfaces (alter_surface s (fun su => su <| wl_role := r |>) o) !! d =
     (if decide (d = s) then (fun su => su <| wl_role := r |>) <$> wl_surfaces o !! s else wl_surfaces o !! d)).
  { intros d. cbn. case_decide as E; [by rewrite E, lookup_alter_eq|by rewrite lookup_alter_ne]. }
  assert (Hch : forall p c, wl_child (alter_surface s (fun su => su <| wl_role := r |>) o) p c <-> wl_child o p c).
  { intros p c. unfold wl_child. rewrite Hl. case_decide as E; [subst p|done]. destruct (wl_surfaces o !! s) as [su|]; [|naive_solver].
    cbn. split; intros (su' & [= <-] & H); eauto. }
  split.
  - intros p c Hc%Hch. destruct (wi_children o Ho p c Hc) as (cu & sub & H1 & H2 & H3 & H4).
    exists cu, sub. rewrite Hl, decide_False; [done|]. intros ->. apply Hold. by rewrite H1, <- H2.
  - intros p su. rewrite Hl. case_decide as E; [subst p|by apply wi_nodup].
    destruct (wl_surfaces o !! s) as [su2|] eqn:E; [|done]. intros [= <-]. by apply (wi_nodup o Ho s su2).
  - intros c sub Hc. destruct (wi_subs o Ho c sub Hc) as [(cu & H1 & H2) H3]. split.
    + exists cu. rewrite Hl, decide_False; [done|]. intros ->. apply Hold. by rewrite H1, <- H2.
    + rewrite Hch. intros H. apply H3. rewrite Hl in H. case_decide as E; [|done]. rewrite E. by destruct (wl_surfaces o !! s).
  - intros c cu. rewrite Hl. case_decide as E; [|by apply wi_roles].
    destruct (wl_surfaces o !! s); [|done]. by intros [= <-].
  - destruct (wi_rank o Ho) as [rank Hr]. exists rank. intros p c Hc%Hch. by apply Hr.
Qed.

(** ** The order of children *)
Lemma insert_above_Permutation x y l : x ∈ l -> insert_above x y l ≡ₚ y :: l.
Proof.
  induction l as [|c l IH]; [by intros ?%not_elem_of_nil|]. intros Hx. cbn. case_bool_decide as E.
  - apply Permutation_swap.
  - apply elem_of_cons in Hx as [->|Hx]; [done|]. rewrite (IH Hx). apply Permutation_swap.
Qed.

Lemma insert_below_Permutation x y l : x ∈ l -> insert_below x y l ≡ₚ y :: l.
Proof.
  induction l as [|c l IH]; [by intros ?%not_elem_of_nil|]. intros Hx. cbn [insert_below]. case_bool_decide as E; [done|].
  apply elem_of_cons in Hx as [->|Hx]; [done|]. destruct l as [|c2 l]; [by apply not_elem_of_nil in Hx|].
  case_bool_decide; [done|]. rewrite (IH Hx). apply Permutation_swap.
Qed.

(** Children in another order. *)
Lemma reorder_inv o p pu l : WlInv o -> wl_surfaces o !! p = Some pu -> l ≡ₚ wl_children pu ->
  WlInv (o <| wl_surfaces := <[p := pu <| wl_children := l |>]> (wl_surfaces o) |>).
Proof.
  intros Ho Hp Hl. set (o' := o <| wl_surfaces := _ |>).
  assert (Hk : forall d du, wl_surfaces o !! d = Some du -> exists du', wl_surfaces o' !! d = Some du' /\ wl_role du' = wl_role du).
  { intros d du Hd. cbn. destruct (decide (d = p)) as [->|]; [|rewrite lookup_insert_ne by done; by exists du].
    rewrite lookup_insert_eq. eexists. split; [done|]. cbn. congruence. }
  assert (Hk' : forall d du', wl_surfaces o' !! d = Some du' ->
            exists du, wl_surfaces o !! d = Some du /\ wl_role du' = wl_role du /\ wl_children du' ≡ₚ wl_children du).
  { intros d du'. cbn. destruct (decide (d = p)) as [->|]; [|rewrite lookup_insert_ne by done; by exists du'].
    rewrite lookup_insert_eq. intros [= <-]. by exists pu. }
  assert (Hch : forall q c, wl_child o' q c <-> wl_child o q c).
  { intros q c. split; intros (su & H1 & H2).
    - destruct (Hk' q su H1) as (du & Hd & _ & Hperm). exists du. by rewrite <- Hperm.
    - destruct (decide (q = p)) as [->|Hne].
      + exists (pu <| wl_children := l |>). cbn. rewrite lookup_insert_eq. split; [done|]. rewrite Hl. congruence.
      + exists su. cbn. by rewrite lookup_insert_ne. }
  split.
  - intros q c Hc%Hch. destruct (wi_children o Ho q c Hc) as (cu & sub & H1 & H2 & H3 & H4).
    destruct (Hk c cu H1) as (cu' & H1' & E). exists cu', sub. by rewrite E.
  - intros q su Hq. destruct (Hk' q su Hq) as (du & Hd & _ & ->). by apply (wi_nodup o Ho q).
  - intros c sub Hc. destruct (wi_subs o Ho c sub Hc) as [(cu & H1 & H2) H3]. split.
    + destruct (Hk c cu H1) as (cu' & H1' & E). exists cu'. by rewrite E.
    + rewrite Hch. intros [du' Hd]. apply H3. destruct (Hk' _ _ Hd) as (du & -> & _). done.
  - intros c cu Hc Hr. destruct (Hk' c cu Hc) as (du & Hd & E & _). apply (wi_roles o Ho c du Hd). congruence.
  - destruct (wi_rank o Ho) as [rank Hr]. exists rank. intros q c Hc%Hch. by apply Hr.
Qed.

Lemma place_child_inv what insert o s sibling :
  (forall x y l, x ∈ l -> insert x y l ≡ₚ y :: l) -> WlInv o -> s <> sibling ->
  (forall sub, wl_subsurfaces o !! s = Some sub -> is_Some (wl_surfaces o !! sub_parent sub)) ->
  exists o' calls, place_child what insert o s sibling = Ret (o', calls) /\ WlInv o' /\ same_windows o o'.
Proof.
  intros Hins Ho Hne Hpar. unfold place_child.
  assert (Hsame : same_windows o o) by (by left).
  destruct (wl_subsurfaces o !! s) as [sub|] eqn:Hs; [|by eexists _, _].
  destruct (wl_subsurfaces o !! sibling) as [sib|]; [|by eexists _, _]. destruct (Hpar sub eq_refl) as [pu Hp]. rewrite Hp.
  case_bool_decide as H1; cbn [negb]; [|by eexists _, _]. case_bool_decide as H2; cbn [negb]; [|by eexists _, _].
  eexists _, _. split; [done|]. split.
  2: { intros d. left. unfold role_of. cbn. destruct (decide (d = sub_parent sub)) as [->|]; [|by rewrite lookup_insert_ne].
       by rewrite lookup_insert_eq, Hp. }
  apply reorder_inv; [done..|].
  rewrite Hins by (apply elem_of_erase_first; [by apply (wi_nodup o Ho (sub_parent sub))|done]).
  symmetry. by apply erase_first_Permutation.
Qed.

(** ** Subsurfaces come and go *)
(** A surface and the surfaces that it is below of. *)
Fixpoint ancestors (fuel : nat) (o : WlObjects) (s : Z) : list Z :=
  match fuel with
  | O => []
  | S f =>
      s :: match wl_subsurfaces o !! s with
           | Some sub => if bool_decide (is_Some (wl_surfaces o !! sub_parent sub)) then ancestors f o (sub_parent sub) else []
           | None => []
           end
  end.

Lemma ancestors_spec o : WlInv o -> forall fuel s, is_Some (wl_surfaces o !! s) -> (size (wl_surfaces o) <= fuel)%nat ->
  forall x, x ∈ ancestors fuel o s <-> rtc (wl_child o) x s.
Proof.
  intros Ho. apply (chain_induction o (fun fuel s => forall x, x ∈ ancestors fuel o s <-> rtc (wl_child o) x s) Ho).
  intros f s su Hs IH x. cbn [ancestors]. rewrite elem_of_cons. split.
  - intros [->|Hx]; [done|]. destruct (wl_subsurfaces o !! s) as [sub|] eqn:Hsub; [|by apply not_elem_of_nil in Hx].
    case_bool_decide as Hp; [|by apply not_elem_of_nil in Hx]. pose proof (proj2 (wi_subs o Ho s sub Hsub) Hp) as Hc.
    eapply rtc_r; [by apply IH|done].
  - intros [->|(p & Hxp & Hps)]%rtc_inv_r; [by left|right].
    destruct (wi_children o Ho p s Hps) as (_ & sub & _ & _ & -> & ->).
    rewrite bool_decide_true by (destruct Hps as (pu & -> & _); done). by apply IH.
Qed.

Section Linking.
(** [s] becomes the last child of [parent]. *)
Context (o : WlObjects) (s parent : Z) (su pa : WlSurface).
Context (Ho : WlInv o) (Hs : wl_surfaces o !! s = Some su) (Hp : wl_surfaces o !! parent = Some pa).
Context (Hr : wl_role su = null_role) (Hnot : ~ rtc (wl_child o) s parent).

Let o' : WlObjects :=
  alter_surface s (fun su => su <| wl_role := subsurface_role |> <| pending := invalidate_surface_data (pending su) |>)
    (alter_surface parent (fun pa => pa <| wl_children := wl_children pa ++ [s] |>) o)
  <| wl_subsurfaces := <[s := mkWlSubsurface parent true None]> (wl_subsurfaces o) |>.

Lemma linked_ne : s <> parent.
Proof. intros E. apply Hnot. by rewrite E. Qed.

Lemma linked_surface d : wl_surfaces o' !! d =
  if decide (d = s) then Some (su <| wl_role := subsurface_role |> <| pending := invalidate_surface_data (pending su) |>)
  else if decide (d = parent) then Some (pa <| wl_children := wl_children pa ++ [s] |>) else wl_surfaces o !! d.
Proof.
  pose proof linked_ne as Hne. cbn. case_decide as E1; [subst d; by rewrite lookup_alter_eq, lookup_alter_ne, Hs|].
  case_decide as E2; [subst d; by rewrite lookup_alter_ne, lookup_alter_eq, Hp|]. by rewrite !lookup_alter_ne.
Qed.

Lemma linked_sub d : wl_subsurfaces o' !! d =
  if decide (d = s) then Some (mkWlSubsurface parent true None) else wl_subsurfaces o !! d.
Proof. cbn. case_decide as E; [by rewrite E, lookup_insert_eq|by rewrite lookup_insert_ne]. Qed.

Lemma linked_free : wl_subsurfaces o !! s = None.
Proof.
  destruct (wl_subsurfaces o !! s) as [sub|] eqn:E; [|done]. destruct (wi_subs o Ho s sub E) as [(cu & H1 & H2) _]. congruence.
Qed.

Lemma linked_orphan q : ~ wl_child o q s.
Proof. intros Hq. destruct (wi_children o Ho q s Hq) as (_ & sub & _ & _ & H & _). pose proof linked_free. congruence. Qed.

Lemma linked_child q c : wl_child o' q c <-> wl_child o q c \/ (q = parent /\ c = s).
Proof.
  pose proof linked_ne as Hne. unfold wl_child. rewrite linked_surface. case_decide as E1; [|case_decide as E2; [|naive_solver]]; subst q.
  - rewrite Hs. split; [intros (? & [= <-] & H); left; eauto|]. intros [(? & [= <-] & H)|[? _]]; [eauto|done].
  - rewrite Hp. split.
    + intros (? & [= <-] & H). cbn in H. apply elem_of_app in H as [H|H%list_elem_of_singleton]; [left; eauto|by right].
    + intros [(? & [= <-] & H)|[_ ->]]; (eexists; split; [done|]; cbn; apply elem_of_app); [by left|right; by apply list_elem_of_singleton].
Qed.

Lemma linked_known d : is_Some (wl_surfaces o' !! d) <-> is_Some (wl_surfaces o !! d).
Proof. rewrite linked_surface. case_decide; [subst d; by rewrite Hs|]. case_decide; [subst d; by rewrite Hp|done]. Qed.

Lemma linked_role d du : wl_surfaces o !! d = Some du -> wl_role du = subsurface_role ->
  exists du', wl_surfaces o' !! d = Some du' /\ wl_role du' = subsurface_role.
Proof.
  intros Hd Hdr. rewrite linked_surface. case_decide; [by eexists|]. case_decide as E; [|by exists du].
  eexists. split; [done|]. cbn. subst d. congruence.
Qed.

Lemma linked_rank : exists rank : Z -> nat, forall q c, wl_child o' q c -> (rank q < rank c)%nat.
Proof.
  destruct (wi_rank o Ho) as [rank Hrk].
  exists (fun x => if bool_decide (s ∈ ancestors (size (wl_surfaces o)) o x) then (rank x + S (rank parent))%nat else rank x).
  assert (Hanc : forall x, is_Some (wl_surfaces o !! x) -> s ∈ ancestors (size (wl_surfaces o)) o x <-> rtc (wl_child o) s x).
  { intros x Hx. by apply ancestors_spec. }
  intros q c [Hc|[-> ->]]%linked_child.
  - pose proof (Hrk _ _ Hc). assert (Hq : is_Some (wl_surfaces o !! q)) by (destruct Hc as (qu & -> & _); done).
    pose proof (wl_child_known o q c Ho Hc) as Hkc.
    case_bool_decide as H1; case_bool_decide as H2; try lia. destruct H2. apply (Hanc c Hkc). eapply rtc_r; [by apply (Hanc q Hq)|done].
  - rewrite (bool_decide_false (s ∈ ancestors _ o parent)) by (rewrite Hanc; [done|by exists pa]).
    rewrite bool_decide_true by (apply Hanc; [by exists su|done]). lia.
Qed.

Lemma linked_inv : WlInv o'.
Proof.
  split; [| | | |apply linked_rank].
  - intros q c [Hc|[-> ->]]%linked_child; [|by eexists _, _; rewrite linked_surface, linked_sub, !decide_True by done].
    destruct (wi_children o Ho q c Hc) as (cu & sub & H1 & H2 & H3 & H4). destruct (linked_role c cu H1 H2) as (cu' & H1' & H2').
    exists cu', sub. rewrite linked_sub, decide_False; [done|]. intros ->. pose proof linked_free. congruence.
  - intros q qu. rewrite linked_surface. case_decide; [|case_decide]; [| |by apply wi_nodup]; intros [= <-].
    + by apply (wi_nodup o Ho s su).
    + cbn. apply NoDup_app. split; [by apply (wi_nodup o Ho parent)|]. split; [|apply NoDup_singleton].
      intros x Hx E%list_elem_of_singleton. apply (linked_orphan parent). exists pa. by rewrite <- E.
  - intros c sub. rewrite linked_sub, linked_known. case_decide as E.
    + intros [= <-]. subst c. split; [eexists; by rewrite linked_surface, decide_True|]. intros _. apply linked_child. by right.
    + intros Hc. destruct (wi_subs o Ho c sub Hc) as [(cu & H1 & H2) H3]. split; [by apply (linked_role c cu)|].
      intros H. apply linked_child. left. by apply H3.
  - intros c cu. rewrite linked_surface, linked_sub. case_decide; [done|]. case_decide as E; [|by apply wi_roles].
    subst c. intros [= <-]. by apply (wi_roles o Ho parent pa).
Qed.
End Linking.

Lemma get_subsurface_inv o s parent :
  WlInv o -> (is_Some (wl_surfaces o !! s) /\ is_Some (wl_surfaces o !! parent)) -> ~ rtc (wl_child o) s parent ->
  match get_subsurface o s parent with
  | Ret (o', _) => WlInv o' /\ same_windows o o'
  | Throw e => e = already_has_a_role
  end.
Proof.
  intros Ho [[su Hs] [pa Hp]] Hnot. unfold get_subsurface. rewrite Hs, Hp. case_bool_decide as Hr; [|done].
  split; [by apply (linked_inv o s parent su pa)|]. intros d.
  pose proof (f_equal (fmap wl_role) (linked_surface o s parent su pa Hs Hp Hnot d)) as E. unfold role_of in *. cbn in *.
  case_decide; [subst d; right; rewrite Hs; cbn; rewrite Hr; split; [done|]; split; [done|]; right; exact E|left].
  etrans; [exact E|]. case_decide; [|done]. subst d. by rewrite Hp.
Qed.

(** *** A subsurface leaves *)
Definition roleless (s : Z) (o : WlObjects) : WlObjects := clear_role o s.

Lemma roleless_surface s o d : wl_surfaces (roleless s o) !! d =
  if decide (d = s) then (fun su => su <| wl_role := null_role |>) <$> wl_surfaces o !! s else wl_surfaces o !! d.
Proof. cbn. case_decide as E; [by rewrite E, lookup_alter_eq|by rewrite lookup_alter_ne]. Qed.

Lemma append_each_ext f g acc l : (forall c, f c = g c) -> append_each f acc l = append_each g acc l.
Proof.
  intros H. revert acc. induction l as [|c l IH]; intros acc; [done|]. cbn. rewrite H. destruct (g c); [apply IH|done].
Qed.

Lemma populate_roleless f s o d off : populate_surface_data f (roleless s o) d off = populate_surface_data f o d off.
Proof.
  revert d off. induction f as [|f IH]; intros d off; [done|]. cbn [populate_surface_data]. rewrite roleless_surface.
  case_decide as E; [subst d|].
  - destruct (wl_surfaces o !! s) as [su|]; [|done]. cbn. apply append_each_ext. intros c. apply IH.
  - destruct (wl_surfaces o !! d) as [su|]; [|done]. apply append_each_ext. intros c. apply IH.
Qed.

Lemma populate_total o fuel s off : WlInv o -> is_Some (wl_surfaces o !! s) -> (size (wl_surfaces o) <= fuel)%nat ->
  exists data, populate_surface_data fuel o s off = Ret data.
Proof.
  intros Ho Hs Hf.
  destruct (tree_induction o (agrees o point_zero) Ho (surface_agrees o point_zero) fuel s Hs Hf off) as (d & _ & _ & H & _). by exists d.
Qed.

Lemma refresh_root_total o (w : WlObjects) : WlInv o ->
  (forall d su, wl_surfaces o !! d = Some su -> exists su', wl_surfaces w !! d = Some su' /\ (wl_role su' = wl_role su \/ wl_role su' = null_role)) ->
  wl_subsurfaces w = wl_subsurfaces o -> (forall d, is_Some (wl_surfaces w !! d) -> is_Some (wl_surfaces o !! d)) ->
  forall fuel s, is_Some (wl_surfaces o !! s) -> (size (wl_surfaces o) <= fuel)%nat ->
  exists r, refresh_root fuel w s = Ret r /\ forall root, r = Some root -> is_Some (wl_surfaces o !! root).
Proof.
  intros Ho Hw Hsub Hk.
  apply (chain_induction o (fun fuel s => exists r, refresh_root fuel w s = Ret r /\ forall root, r = Some root -> is_Some (wl_surfaces o !! root)) Ho).
  intros f s su Hs IH. cbn [refresh_root]. destruct (Hw s su Hs) as (su' & -> & Hrole). rewrite Hsub.
  destruct (wl_role su') eqn:E.
  - by exists None.
  - destruct Hrole as [Hrole|]; [|done]. destruct (wi_roles o Ho s su Hs) as [sub Hsu]; [done|]. rewrite Hsu.
    case_bool_decide as Hp; [|by exists None]. apply IH. apply (wi_subs o Ho s sub Hsu). by apply Hk.
  - exists (Some s). split; [done|]. intros root [= <-]. by exists su.
  - by exists None.
Qed.

Lemma refresh_total o fuel s r0 : WlInv o -> is_Some (wl_surfaces o !! s) -> (size (wl_surfaces o) <= fuel)%nat ->
  returns (refresh_surface_data_now fuel (roleless r0 o) s).
Proof.
  intros Ho Hs Hf. unfold refresh_surface_data_now.
  destruct (refresh_root_total o (roleless r0 o) Ho) with (fuel := fuel) (s := s) as (r & -> & Hr); [|done| |done..|].
  - intros d su Hd. rewrite roleless_surface. case_decide as E; [subst d; rewrite Hd; eexists; split; [done|by right]|].
    exists su. split; [done|by left].
  - intros d. rewrite roleless_surface. case_decide as E; [subst d|done]. by destruct (wl_surfaces o !! r0).
  - cbn. destruct r as [root|]; [|by eexists]. rewrite populate_roleless.
    destruct (populate_total o fuel root displacement_zero Ho (Hr root eq_refl) Hf) as [data ->]. by eexists.
Qed.

Lemma refresh_now_total o fuel s : WlInv o -> is_Some (wl_surfaces o !! s) -> (size (wl_surfaces o) <= fuel)%nat ->
  returns (refresh_surface_data_now fuel o s).
Proof.
  intros Ho Hs Hf. unfold refresh_surface_data_now.
  destruct (refresh_root_total o o Ho) with (fuel := fuel) (s := s) as (r & -> & Hr); [|done..|].
  - intros d su Hd. exists su. split; [done|by left].
  - cbn [mbind outcome_bind]. destruct r as [root|]; [|by eexists].
    destruct (populate_total o fuel root displacement_zero Ho (Hr root eq_refl) Hf) as [data ->]. by eexists.
Qed.

Section Unlinking.
Context (o : WlObjects) (s : Z) (sub : WlSubsurface) (Ho : WlInv o) (Hs : wl_subsurfaces o !! s = Some sub).

Let o' : WlObjects :=
  alter_surface (sub_parent sub) (fun pa => pa <| wl_children := erase_all s (wl_children pa) |>) (roleless s o)
  <| wl_subsurfaces := delete s (wl_subsurfaces o) |>.

Lemma unlinked_ne : sub_parent sub <> s.
Proof.
  intros E. destruct (wi_subs o Ho s sub Hs) as [(su & Hsu & _) Hc]. destruct (wi_rank o Ho) as [rank Hr].
  rewrite E in Hc. specialize (Hr s s (Hc ltac:(by exists su))). lia.
Qed.

Lemma unlinked_surface d : wl_surfaces o' !! d =
  if decide (d = s) then (fun su => su <| wl_role := null_role |>) <$> wl_surfaces o !! s
  else if decide (d = sub_parent sub) then (fun pa => pa <| wl_children := erase_all s (wl_children pa) |>) <$> wl_surfaces o !! d
  else wl_surfaces o !! d.
Proof.
  pose proof unlinked_ne as Hne. unfold o', alter_surface. cbn -[roleless]. destruct (decide (d = sub_parent sub)) as [->|E].
  - rewrite lookup_alter_eq, roleless_surface, decide_False by done. by rewrite decide_False.
  - rewrite lookup_alter_ne by done. apply roleless_surface.
Qed.

Lemma unlinked_child q c : wl_child o' q c <-> wl_child o q c /\ c <> s.
Proof.
  assert (Honly : forall q, wl_child o q s -> q = sub_parent sub).
  { intros q' Hq. symmetry. by apply (wl_child_parent o q' s). }
  pose proof unlinked_ne as Hne. unfold wl_child. rewrite unlinked_surface. case_decide as E1; [|case_decide as E2].
  - subst q. split.
    + intros (su & (su0 & Hsu0 & ->)%fmap_Some & Hc). split; [by exists su0|]. intros ->. apply Hne. symmetry. apply Honly. by exists su0.
    + intros [(su & -> & Hc) _]. by eexists.
  - split.
    + intros (su & (su0 & Hsu0 & ->)%fmap_Some & Hc). cbn in Hc. apply elem_of_erase_all in Hc as [Hc ?]. split; [by exists su0|done].
    + intros [(su & -> & Hc) ?]. eexists. split; [done|]. cbn. by apply elem_of_erase_all.
  - split; [|naive_solver]. intros (su & Hq & Hc). split; [by exists su|]. intros ->. apply E2. apply Honly. by exists su.
Qed.

Lemma unlinked_known d : is_Some (wl_surfaces o' !! d) <-> is_Some (wl_surfaces o !! d).
Proof. rewrite unlinked_surface. case_decide as E1; [subst d|case_decide]; try done; by rewrite fmap_is_Some. Qed.

Lemma unlinked_role d du : d <> s -> wl_surfaces o !! d = Some du -> exists du', wl_surfaces o' !! d = Some du' /\ wl_role du' = wl_role du.
Proof. intros Hd Hdu. rewrite unlinked_surface, decide_False by done. case_decide; rewrite Hdu; by eexists. Qed.

Lemma unlinked_inv : WlInv o'.
Proof.
  assert (Hsub : forall d, wl_subsurfaces o' !! d = if decide (d = s) then None else wl_subsurfaces o !! d).
  { intros d. cbn. case_decide as E; [by rewrite E, lookup_delete_eq|by rewrite lookup_delete_ne]. }
  split.
  - intros q c [Hc Hne]%unlinked_child. destruct (wi_children o Ho q c Hc) as (cu & csub & H1 & H2 & H3 & H4).
    destruct (unlinked_role c cu Hne H1) as (cu' & H1' & E). exists cu', csub. by rewrite E, Hsub, decide_False.
  - intros q qu. rewrite unlinked_surface. case_decide; [|case_decide]; [| |by apply wi_nodup]; intros (su & Hq & ->)%fmap_Some.
    + by apply (wi_nodup o Ho s su).
    + cbn. apply erase_all_NoDup. by apply (wi_nodup o Ho q).
  - intros c csub. rewrite Hsub, unlinked_known. case_decide as E; [done|]. intros Hc.
    destruct (wi_subs o Ho c csub Hc) as [(cu & H1 & H2) H3]. split.
    + destruct (unlinked_role c cu E H1) as (cu' & H1' & E'). exists cu'. by rewrite E'.
    + intros H. apply unlinked_child. split; [by apply H3|done].
  - intros c cu Hc Hr. rewrite Hsub. case_decide as E.
    + subst c. rewrite unlinked_surface, decide_True in Hc by done. apply fmap_Some in Hc as (su & _ & ->). done.
    + rewrite unlinked_surface, decide_False in Hc by done. case_decide; [|by apply (wi_roles o Ho c cu)].
      apply fmap_Some in Hc as (su & Hc & ->). by apply (wi_roles o Ho c su).
  - destruct (wi_rank o Ho) as [rank Hrk]. exists rank. intros q c [Hc _]%unlinked_child. by apply Hrk.
Qed.
End Unlinking.

Lemma destroy_subsurface_ok o s fuel : WlInv o -> (size (wl_surfaces o) <= fuel)%nat ->
  exists o' calls, destroy_subsurface fuel o s = Ret (o', calls) /\ WlInv o' /\
    (wl_role <$> wl_surfaces o' !! s) <> Some subsurface_role /\ same_windows o o'.
Proof.
  intros Ho Hf. unfold destroy_subsurface. destruct (wl_subsurfaces o !! s) as [sub|] eqn:Hs.
  2: { exists o, []. split; [done|]. split; [done|]. split; [|by left]. intros (su & Hsu & Hr)%fmap_Some.
       destruct (wi_roles o Ho s su Hsu) as [? ?]; congruence. }
  assert (Hc : returns (if bool_decide (is_Some (wl_surfaces (roleless s o) !! sub_parent sub))
                        then refresh_surface_data_now fuel (roleless s o) (sub_parent sub) else Ret [])).
  { case_bool_decide as Hp; [|by eexists]. apply refresh_total; [done| |done]. rewrite roleless_surface in Hp.
    case_decide as E; [|done]. rewrite E. by destruct (wl_surfaces o !! s). }
  destruct Hc as [calls Hc]. fold (roleless s o). cbv zeta. rewrite Hc. cbn [mbind outcome_bind].
  eexists _, calls. split; [reflexivity|]. split; [exact (unlinked_inv o s sub Ho Hs)|].
  split.
  2: { intros d. pose proof (f_equal (fmap wl_role) (unlinked_surface o s sub Ho Hs d)) as E. unfold role_of in *. cbn in *.
       destruct (wi_subs o Ho s sub Hs) as [(su & Hsu & Hr) _].
       case_decide; [subst d; right; rewrite Hsu in *; cbn in *; rewrite Hr; split; [done|]; split; [done|]; left; exact E|left].
       etrans; [exact E|]. case_decide; [|done]. by destruct (wl_surfaces o !! d). }
  pose proof (unlinked_surface o s sub Ho Hs s) as E. rewrite decide_True in E by done.
  apply (f_equal (fmap wl_role)) in E. intros G. pose proof (eq_trans (eq_sym E) G) as F. by destruct (wl_surfaces o !! s).
Qed.

(** *** A surface is deleted *)
Lemma delete_surface_inv o s : WlInv o -> (wl_role <$> wl_surfaces o !! s) <> Some subsurface_role ->
  WlInv (o <| wl_surfaces := delete s (wl_surfaces o) |>).
Proof.
  intros Ho Hr. set (o' := o <| wl_surfaces := _ |>).
  assert (Hl : forall d, wl_surfaces o' !! d = if decide (d = s) then None else wl_surfaces o !! d).
  { intros d. cbn. case_decide as E; [by rewrite E, lookup_delete_eq|by rewrite lookup_delete_ne]. }
  assert (Hch : forall q c, wl_child o' q c <-> wl_child o q c /\ q <> s).
  { intros q c. unfold wl_child. rewrite Hl. case_decide; naive_solver. }
  assert (Hrole : forall d du, wl_surfaces o !! d = Some du -> wl_role du = subsurface_role -> wl_surfaces o' !! d = Some du).
  { intros d du Hd Hdr. rewrite Hl, decide_False; [done|]. intros ->. apply Hr. by rewrite Hd, <- Hdr. }
  split.
  - intros q c [Hc _]%Hch. destruct (wi_children o Ho q c Hc) as (cu & sub & H1 & H2 & H3 & H4). exists cu, sub. by rewrite (Hrole c cu).
  - intros q su. rewrite Hl. case_decide; [done|]. by apply wi_nodup.
  - intros c sub Hc. destruct (wi_subs o Ho c sub Hc) as [(cu & H1 & H2) H3]. split; [exists cu; by rewrite (Hrole c cu)|].
    rewrite Hl. case_decide as E; [by intros [? ?]|]. intros H. apply Hch. split; [by apply H3|done].
  - intros c cu. rewrite Hl. case_decide; [done|]. by apply wi_roles.
  - destruct (wi_rank o Ho) as [rank Hrk]. exists rank. intros q c [Hc _]%Hch. by apply Hrk.
Qed.

Lemma create_surface_inv o s : WlInv o -> wl_surfaces o !! s = None ->
  (forall c sub, wl_subsurfaces o !! c = Some sub -> sub_parent sub <> s) ->
  WlInv (o <| wl_surfaces := <[s := new_surface]> (wl_surfaces o) |>).
Proof.
  intros Ho Hs Hfree. set (o' := o <| wl_surfaces := _ |>).
  assert (Hl : forall d, wl_surfaces o' !! d = if decide (d = s) then Some new_surface else wl_surfaces o !! d).
  { intros d. cbn. case_decide as E; [by rewrite E, lookup_insert_eq|by rewrite lookup_insert_ne]. }
  assert (Hkeep : forall d du, wl_surfaces o !! d = Some du -> wl_surfaces o' !! d = Some du).
  { intros d du Hd. rewrite Hl, decide_False; [done|]. congruence. }
  assert (Hch : forall q c, wl_child o' q c <-> wl_child o q c).
  { intros q c. unfold wl_child. rewrite Hl. case_decide as E; [subst q; rewrite Hs|done].
    split; [intros (su & [= <-] & H%not_elem_of_nil); done|naive_solver]. }
  split.
  - intros q c Hc%Hch. destruct (wi_children o Ho q c Hc) as (cu & sub & H1 & H2 & H3 & H4). exists cu, sub. by rewrite (Hkeep c cu).
  - intros q su. rewrite Hl. case_decide; [intros [= <-]; apply NoDup_nil_2|by apply wi_nodup].
  - intros c sub Hc. destruct (wi_subs o Ho c sub Hc) as [(cu & H1 & H2) H3]. split; [exists cu; by rewrite (Hkeep c cu)|].
    rewrite Hch, Hl, decide_False by (by apply (Hfree c)). done.
  - intros c cu. rewrite Hl. case_decide; [by intros [= <-]|by apply wi_roles].
  - destruct (wi_rank o Ho) as [rank Hrk]. exists rank. intros q c Hc%Hch. by apply Hrk.
Qed.

(** ** Commits *)
Lemma subsurface_commit_ok o s st su b : WlInv o -> wl_surfaces o !! s = Some su -> wl_role su = subsurface_role ->
  synchronized (wl_fuel o) o s = Ret b ->
  exists o' calls, subsurface_commit (wl_fuel o) o s st = Ret (o', calls) /\ same_forest o o'.
Proof.
  intros Ho Hs Hr Hb. destruct (wi_roles o Ho s su Hs Hr) as [sub Hsub]. unfold subsurface_commit. rewrite Hs, Hsub. cbv zeta.
  set (cached := update_from _ st). set (o1 := alter_subsurface s _ o).
  assert (Ht : same_tree o o1).
  { split; [done|]. apply map_eq. intros d. rewrite !lookup_fmap. cbn.
    destruct (decide (d = s)) as [->|]; [rewrite lookup_alter_eq|by rewrite lookup_alter_ne]. by destruct (wl_subsurfaces o !! s). }
  pose proof (same_tree_inv o o1 Ht Ho) as Ho1. pose proof (same_tree_size o o1 Ht) as Hsz.
  rewrite (same_tree_synchronized o o1), Hb by done. cbn [mbind outcome_bind]. destruct b.
  - eexists _, _. split; [reflexivity|]. apply same_tree_forest in Ht. destruct (surface_data_needs_refresh cached); [|done].
    transitivity o1; [done|]. by apply alter_frame_forest.
  - destruct (surface_commit_ok o1 s cached (wl_fuel o) false) as (o2 & calls & -> & [Ht2 _ _ _]); [done| |unfold wl_fuel; lia| |].
    { by apply (same_tree_known o). } { by rewrite (same_tree_synchronized o). }
    cbn [mbind outcome_bind fst snd]. pose proof (same_tree_inv o1 o2 Ht2 Ho1) as Ho2.
    assert (Hc : returns (if surface_data_needs_refresh cached || invalidates su cached
        then (if bool_decide (is_Some (wl_surfaces o2 !! sub_parent sub)) then refresh_surface_data_now (wl_fuel o) o2 (sub_parent sub) else Ret [])
        else Ret [])).
    { destruct (_ || _); [|by eexists]. case_bool_decide as Hp; [|by eexists].
      apply refresh_now_total; [done..|]. rewrite (same_tree_size o1), Hsz by done. unfold wl_fuel. lia. }
    destruct Hc as [more ->]. cbn [mbind outcome_bind]. eexists _, _. split; [reflexivity|].
    transitivity o2; [apply same_tree_forest; by transitivity o1|]. by apply alter_sub_forest.
Qed.

(** ** All requests *)
Record WorldInv (m : WlWorld) : Prop := {
  wd_objects : WlInv (objects m);
  wd_windows : forall s, is_Some (windows m !! s) <-> is_window (objects m) s
}.

Lemma world_keep m o :
  WorldInv m -> WlInv o -> same_windows (objects m) o -> WorldInv (m <| objects := o |>).
Proof. intros [_ Hw] Ho H. split; [done|]. intros s. change (windows (m <| objects := o |>)) with (windows m). by rewrite Hw, (same_windows_is _ _ s H). Qed.

Lemma world_forest m o : WorldInv m -> same_forest (objects m) o -> WorldInv (m <| objects := o |>).
Proof.
  intros Hm Hf. apply world_keep; [done|by apply (forest_inv (objects m)), Hm|by apply forest_windows].
Qed.

(** Requests that the protocol leaves to the good sense of the client: a new
    surface is new, the surfaces that a request names exist, subsurfaces do not
    form cycles, a subsurface is not placed next to itself, and a surface is not
    destroyed while it has subsurfaces.  (The code does not survive the last one:
    [dangling_parent_is_used].) *)
Definition tame (m : WlWorld) (req : WlRequest) : bool :=
  let o := objects m in
  let known s := bool_decide (is_Some (wl_surfaces o !! s)) in
  match req with
  | CreateSurface s => negb (known s)
  | DestroySurface s => known s && bool_decide (map_Forall (fun _ sub => sub_parent sub <> s) (wl_subsurfaces o))
  | GetWindow s | TakeCursor s | Commit s => known s
  | GetSubsurface s parent => known s && known parent && negb (bool_decide (s ∈ ancestors (wl_fuel o) o parent))
  | PlaceAbove s sibling | PlaceBelow s sibling => negb (bool_decide (s = sibling))
  | _ => true
  end.

(** What a request needs: no parent that it follows has been destroyed. *)
Definition servable (m : WlWorld) (req : WlRequest) : bool :=
  let o := objects m in
  let known s := bool_decide (is_Some (wl_surfaces o !! s)) in
  match req with
  | CreateSurface s => negb (known s) && bool_decide (map_Forall (fun _ sub => sub_parent sub <> s) (wl_subsurfaces o))
  | DestroySurface s | GetWindow s | TakeCursor s => known s
  | Commit s => known s && match synchronized (wl_fuel o) o s with Ret _ => true | Throw _ => false end
  | GetSubsurface s parent => known s && known parent && negb (bool_decide (s ∈ ancestors (wl_fuel o) o parent))
  | PlaceAbove s sibling | PlaceBelow s sibling =>
      negb (bool_decide (s = sibling)) && match wl_subsurfaces o !! s with Some sub => known (sub_parent sub) | None => true end
  | _ => true
  end.

Section Served.
Context (placed_size : SurfaceCreationParameters -> Size).
Context (scene_visible : Z -> bool) (scene_state : Z -> MirWindowState).
Context (default_params : SurfaceCreationParameters).
Local Abbreviation step := (wl_step placed_size scene_visible scene_state default_params).

(** What a request may lead to. *)
Definition keeps (gone : option Z) (o o' : WlObjects) : Prop := forall d, gone <> Some d ->
  (is_cursor o d -> is_cursor o' d) /\ (is_Some (wl_surfaces o !! d) -> is_Some (wl_surfaces o' !! d)).
Definition request_served (gone : option Z) (m : WlWorld) (r : outcome (WlWorld * WlEvents)) : Prop :=
  match r with
  | Ret (m', _) => WorldInv m' /\ keeps gone (objects m) (objects m')
  | Throw e => e = already_has_a_role
  end.

Lemma same_windows_keeps gone o o' : same_windows o o' -> keeps gone o o'.
Proof.
  intros H d _. unfold is_cursor. rewrite <- !role_known. destruct (H d) as [E|(H1 & H2 & [E|E])]; rewrite E; naive_solver eauto.
Qed.
Lemma keep_served gone m o e : WorldInv m -> WlInv o -> same_windows (objects m) o -> request_served gone m (Ret (m <| objects := o |>, e)).
Proof. intros. split; [by apply world_keep|by apply same_windows_keeps]. Qed.
Lemma forest_served gone m o e : WorldInv m -> same_forest (objects m) o -> request_served gone m (Ret (m <| objects := o |>, e)).
Proof. intros. apply keep_served; [done|by apply (forest_inv (objects m)), H|by apply forest_windows]. Qed.

(** A change of the windows only. *)
Lemma windows_served gone m o ws e : WorldInv m -> same_forest (objects m) o -> (forall d, is_Some (ws !! d) <-> is_Some (windows m !! d)) ->
  request_served gone m (Ret (m <| objects := o |> <| windows := ws |>, e)).
Proof.
  intros Hm Hf Hws. destruct (forest_served gone m o e Hm Hf) as [[H1 H2] Hk]. split; [|done]. split; [done|]. intros d. cbn. by rewrite Hws, <- (H2 d).
Qed.

Lemma attach_served gone m s b : WorldInv m -> request_served gone m (wl_attach scene_visible scene_state m s b).
Proof.
  intros Hm. unfold wl_attach. set (o := alter_surface s _ (objects m)).
  assert (Hf : same_forest (objects m) o) by (by apply alter_frame_forest).
  destruct (wl_role <$> wl_surfaces (objects m) !! s) as [[]|]; try by apply forest_served.
  apply windows_served; [done..|]. intros d. apply lookup_alter_is_Some.
Qed.

Lemma take_pending_frame su : frame_of (take_pending su).1 = frame_of su.
Proof. done. Qed.

Lemma commit_forest m s : WorldInv m -> servable m (Commit s) = true ->
  exists o ws e, commit placed_size m s = Ret (m <| objects := o |> <| windows := ws |>, e) /\ same_forest (objects m) o /\
    forall d, is_Some (ws !! d) <-> is_Some (windows m !! d).
Proof.
  intros Hm Ht. unfold servable in Ht. cbv zeta in Ht. apply andb_true_iff in Ht as [[su Hs]%bool_decide_eq_true Hsync]. unfold commit. rewrite Hs.
  destruct (take_pending su) as [su' st] eqn:Et. pose proof (take_pending_frame su) as Hfr. rewrite Et in Hfr. cbn in Hfr.
  set (o := (objects m) <| wl_surfaces := _ |>).
  assert (Htree : same_tree (objects m) o).
  { split; [|done]. cbn. rewrite fmap_insert, Hfr. apply insert_id. by rewrite lookup_fmap, Hs. }
  assert (Hm' : WorldInv (m <| objects := o |>)) by (by apply world_forest, same_tree_forest).
  pose proof (wd_objects _ Hm') as Ho. change (objects (m <| objects := o |>)) with o in Ho.
  assert (Hso : wl_surfaces o !! s = Some su') by (cbn; by rewrite lookup_insert_eq).
  assert (Hrole : wl_role su' = wl_role su) by (by injection Hfr).
  assert (Hfu : wl_fuel o = wl_fuel (objects m)) by (unfold wl_fuel; by rewrite (same_tree_size (objects m))).
  destruct (synchronized (wl_fuel (objects m)) (objects m) s) as [b|] eqn:Eb; [|done].
  assert (Hb : synchronized (wl_fuel o) o s = Ret b) by (by rewrite Hfu, (same_tree_synchronized (objects m))).
  destruct (surface_commit_ok o s st (wl_fuel o) b Ho ltac:(by exists su') ltac:(unfold wl_fuel; lia) Hb) as (o2 & calls & E & [Ht2 _ _ _]).
  assert (Hf2 : same_forest (objects m) o2) by (etrans; by apply same_tree_forest).
  assert (Hm2 : WorldInv (m <| objects := o2 |>)) by (by apply world_forest).
  destruct (wl_role su) eqn:Er.
  - unfold serve. rewrite E. exists o2, (windows m). eexists. split; [by destruct m|done].
  - destruct (subsurface_commit_ok o s st su' b Ho Hso Hrole Hb) as (o3 & calls3 & E3 & Ho3). unfold serve. rewrite E3.
    exists o3, (windows m). eexists. split; [by destruct m|]. split; [|done]. etrans; [by apply same_tree_forest|done].
  - destruct (proj2 (wd_windows m Hm s)) as [w Hw]; [unfold is_window, role_of; rewrite Hs; cbn; by rewrite Er|]. rewrite Hw. unfold commit_window. rewrite E. cbn [mbind outcome_bind fst snd].
    assert (Hd : returns (if (surface_data_needs_refresh st || invalidates su' st) || negb (has_scene_surface w)
                          then populate_surface_data (wl_fuel o) o2 s displacement_zero else Ret (mkSurfaceData [] []))).
    { case_match; [|by eexists]. apply populate_total; [apply (wd_objects _ Hm2)|by apply (same_tree_known o); [|exists su']|].
      rewrite (same_tree_size o) by done. unfold wl_fuel. lia. }
    destruct Hd as [data ->]. cbn [mbind outcome_bind]. destruct (window_commit _ w _ _ data) as [w' shell].
    do 3 eexists. split; [reflexivity|]. split; [done|]. intros d. destruct (decide (d = s)) as [->|]; [by rewrite lookup_insert_eq, Hw|].
    by rewrite lookup_insert_ne.
  - unfold serve. rewrite E. exists o2, (windows m). eexists. split; [by destruct m|done].
Qed.
Lemma commit_served gone m s : WorldInv m -> servable m (Commit s) = true -> request_served gone m (commit placed_size m s).
Proof. intros Hm Ht. destruct (commit_forest m s Hm Ht) as (o & ws & e & -> & Hf & Hw). by apply windows_served. Qed.

Lemma destroy_window_keeps gone m s : WorldInv m -> keeps gone (objects m) (objects (destroy_window m s).1).
Proof.
  intros Hm d _. unfold destroy_window, is_cursor, role_of. destruct (windows m !! s) as [w|] eqn:E; [|done]. cbn.
  destruct (decide (d = s)) as [->|]; [|by rewrite lookup_alter_ne]. rewrite lookup_alter_eq, fmap_is_Some.
  assert (Hw : is_window (objects m) s) by (apply (wd_windows m Hm); by exists w). unfold is_window, role_of in Hw. by rewrite Hw.
Qed.

Lemma destroy_window_served m s : WorldInv m -> (wl_role <$> wl_surfaces (objects m) !! s) <> Some subsurface_role ->
  WorldInv (destroy_window m s).1 /\ (wl_role <$> wl_surfaces (objects (destroy_window m s).1) !! s) <> Some subsurface_role.
Proof.
  intros [Ho Hw] Hr. unfold destroy_window. destruct (windows m !! s) as [w|] eqn:E; [|done]. cbn [fst]. split.
  - split; [by apply set_role_inv|]. intros d. unfold is_window, role_of. cbn. destruct (decide (d = s)) as [->|].
    + rewrite lookup_alter_eq, lookup_delete_eq. split; [by intros [? ?]|]. by destruct (wl_surfaces (objects m) !! s).
    + rewrite lookup_alter_ne, lookup_delete_ne by done. apply Hw.
  - cbn. rewrite lookup_alter_eq. by destruct (wl_surfaces (objects m) !! s).
Qed.

Lemma destroy_surface_served m s : WorldInv m -> is_Some (wl_surfaces (objects m) !! s) ->
  request_served (Some s) m (destroy_wl_surface m s).
Proof.
  intros Hm [su Hs]. unfold destroy_wl_surface. rewrite Hs. cbn [fmap option_fmap option_map].
  set (r := match wl_role su with null_role => _ | _ => _ end).
  assert (Hr : exists m' e, r = Ret (m', e) /\ WorldInv m' /\ (wl_role <$> wl_surfaces (objects m') !! s) <> Some subsurface_role /\
                 ~ is_window (objects m') s /\ keeps (Some s) (objects m) (objects m')).
  { assert (Hnone : wl_role su <> subsurface_role -> wl_role su <> window_role -> exists m' e, Ret (m, no_events) = Ret (m', e) /\
      WorldInv m' /\ (wl_role <$> wl_surfaces (objects m') !! s) <> Some subsurface_role /\ ~ is_window (objects m') s /\
      keeps (Some s) (objects m) (objects m')).
    { intros H1 H2. exists m, no_events. unfold is_window, role_of. rewrite Hs. cbn. do 2 (split; [naive_solver|]). split; [naive_solver|]. split; [naive_solver|]. by intros d. }
    unfold r. destruct (wl_role su) eqn:Er; [by apply Hnone| | |by apply Hnone].
    - destruct (destroy_subsurface_ok (objects m) s (wl_fuel (objects m))) as (o' & calls & -> & Ho' & Hrole & Hk); [apply Hm|unfold wl_fuel; lia|].
      eexists _, _. split; [done|]. split; [by apply world_keep|]. split; [done|]. split; [|by apply same_windows_keeps].
      intros Hwin%(same_windows_is _ _ s Hk). unfold is_window, role_of in Hwin. rewrite Hs in Hwin. cbn in Hwin. congruence.
    - destruct (destroy_window m s) as [m' e] eqn:Ed. pose proof (destroy_window_served m s Hm) as H.
      pose proof (destroy_window_keeps (Some s) m s Hm) as Hkeep. rewrite Ed in H, Hkeep.
      exists m', e. split; [done|]. destruct H as [H1 H2]; [rewrite Hs; cbn; by rewrite Er|]. do 2 (split; [done|]). split; [|done].
      unfold destroy_window in Ed. destruct (windows m !! s) eqn:Ew; injection Ed as <- _; unfold is_window, role_of.
      + cbn. rewrite lookup_alter_eq. by rewrite Hs.
      + destruct (proj2 (wd_windows m Hm s)) as [? ?]; [unfold is_window, role_of; rewrite Hs; cbn; by rewrite Er|congruence]. }
  destruct Hr as (m' & e & -> & [Ho' Hw'] & Hrole & Hwin & Hkeep). cbn. split; [split; [by apply delete_surface_inv|]|].
  - intros d. unfold is_window, role_of. cbn. destruct (decide (d = s)) as [->|].
    + rewrite lookup_delete_eq, Hw'. done.
    + rewrite lookup_delete_ne by done. apply Hw'.
  - intros d Hd. unfold is_cursor, role_of. cbn. rewrite lookup_delete_ne by congruence. by apply Hkeep.
Qed.

(** Taking a role other than that of a subsurface. *)
Lemma set_role_served gone o s r : WlInv o -> is_Some (wl_surfaces o !! s) -> r <> subsurface_role ->
  match set_role o s r with
  | Ret o' => WlInv o' /\ role_of o s = Some null_role /\ keeps gone o o' /\
      forall d, role_of o' d = if decide (d = s) then Some r else role_of o d
  | Throw e => e = already_has_a_role
  end.
Proof.
  intros Ho [su Hs] Hr. unfold set_role. rewrite Hs. case_bool_decide as Hn; [|done].
  assert (Hl : forall d, role_of (alter_surface s (fun su => su <| wl_role := r |>) o) d = if decide (d = s) then Some r else role_of o d).
  { intros d. unfold role_of. cbn. case_decide as E; [subst d; by rewrite lookup_alter_eq, Hs|by rewrite lookup_alter_ne]. }
  assert (Hrole : role_of o s = Some null_role) by (unfold role_of; rewrite Hs; cbn; by rewrite Hn).
  split; [|split; [done|split; [|done]]].
  - apply set_role_inv; [done|by rewrite Hs; cbn; rewrite Hn|done].
  - intros d _. unfold is_cursor. rewrite <- !role_known, Hl. case_decide as E; [subst d; rewrite Hrole; naive_solver|done].
Qed.

Lemma get_window_served gone m s : WorldInv m -> is_Some (wl_surfaces (objects m) !! s) -> request_served gone m (get_window default_params m s).
Proof.
  intros [Ho Hw] Hs. unfold get_window. pose proof (set_role_served gone _ s window_role Ho Hs ltac:(done)) as H.
  destruct (set_role (objects m) s window_role) as [o|e]; [|done]. destruct H as (Hi & _ & Hk & Hl). split; [split; [done|]|done]. cbn.
  intros d. unfold is_window in *. rewrite Hl. case_decide as E; [by subst; rewrite lookup_insert_eq|by rewrite lookup_insert_ne].
Qed.

Lemma cursor_served gone m s : WorldInv m -> is_Some (wl_surfaces (objects m) !! s) ->
  request_served gone m (o' ← set_role (objects m) s cursor_role; Ret (m <| objects := o' |>, no_events)).
Proof.
  intros [Ho Hw] Hs. pose proof (set_role_served gone _ s cursor_role Ho Hs ltac:(done)) as H.
  destruct (set_role (objects m) s cursor_role) as [o|e]; [|done]. destruct H as (Hi & Hn & Hk & Hl).
  split; [split; [done|]|done]. cbn. intros d. rewrite Hw. unfold is_window. rewrite Hl. case_decide as E; [subst d; rewrite Hn; naive_solver|done].
Qed.

Lemma drop_cursor_served m s : WorldInv m -> is_cursor (objects m) s ->
  WorldInv (m <| objects := clear_role (objects m) s |>) /\ keeps (Some s) (objects m) (clear_role (objects m) s).
Proof.
  intros Hm Hc. unfold is_cursor, role_of in Hc. split.
  - destruct Hm as [Ho Hw]. split; [apply set_role_inv; [done|by rewrite Hc|done]|]. intros d. cbn. rewrite Hw. unfold is_window, role_of. cbn.
    destruct (decide (d = s)) as [->|]; [|by rewrite lookup_alter_ne]. rewrite lookup_alter_eq, Hc. by destruct (wl_surfaces (objects m) !! s).
  - intros d Hd. unfold is_cursor, role_of. cbn. by rewrite lookup_alter_ne by congruence.
Qed.

Lemma ask_window_served gone m s request : WorldInv m -> request_served gone m (ask_window placed_size m s request).
Proof.
  intros Hm. unfold ask_window. destruct (windows m !! s) as [w|] eqn:Ew; [|split; [done|by intros d]].
  assert (Hd : returns (match request with
             | RState _ _ => if has_scene_surface w then Ret (mkSurfaceData [] [])
                             else populate_surface_data (wl_fuel (objects m)) (objects m) s displacement_zero
             | _ => Ret (mkSurfaceData [] [])
             end)).
  { assert (Hp : returns (populate_surface_data (wl_fuel (objects m)) (objects m) s displacement_zero)).
    { apply populate_total; [apply Hm| |unfold wl_fuel; lia].
      assert (Hwin : is_window (objects m) s) by (apply (wd_windows m Hm); by exists w).
      apply role_known. rewrite Hwin. done. }
    destruct request; try by eexists. by destruct (has_scene_surface w); [eexists|]. }
  destruct Hd as [data ->]. cbn [mbind outcome_bind]. destruct (win_step _ w _) as [w' calls]. destruct Hm as [H1 H2].
  split; [split; [done|]|by intros d]. intros d. rewrite <- (H2 d). cbn. destruct (decide (d = s)) as [->|]; [by rewrite lookup_insert_eq, Ew|].
  by rewrite lookup_insert_ne.
Qed.

(** The surface that a request destroys or whose cursor it takes away. *)
Definition gone_of (req : WlRequest) : option Z := match req with DestroySurface s | DropCursor s => Some s | _ => None end.

Lemma wl_step_served m req : WorldInv m -> servable m req = true -> request_served (gone_of req) m (step m req).
Proof.
  intros Hm Ht. pose proof (wd_objects m Hm) as Ho. destruct req; cbn [wl_step gone_of]; unfold wl_alter, serve; cbn [mbind outcome_bind].
  - apply andb_true_iff in Ht as [Hs%negb_true_iff%bool_decide_eq_false Hp%bool_decide_eq_true].
    assert (Hn : wl_surfaces (objects m) !! s = None) by (by apply eq_None_not_Some).
    apply keep_served; [done|by apply create_surface_inv|].
    intros d. unfold role_of. cbn. destruct (decide (d = s)) as [->|]; [right|left; by rewrite lookup_insert_ne].
    rewrite lookup_insert_eq, Hn. cbn. auto.
  - apply destroy_surface_served; [done|]. by apply bool_decide_eq_true in Ht.
  - by apply attach_served.
  - apply forest_served; [done|]. by apply alter_frame_forest.
  - apply forest_served; [done|]. by apply alter_frame_forest.
  - by apply commit_served.
  - apply andb_true_iff in Ht as [[H1%bool_decide_eq_true H2%bool_decide_eq_true]%andb_true_iff H3%negb_true_iff%bool_decide_eq_false].
    rewrite ancestors_spec in H3 by (done || unfold wl_fuel; lia). pose proof (get_subsurface_inv (objects m) s parent Ho (conj H1 H2) H3) as H.
    destruct (get_subsurface (objects m) s parent) as [[o' c]|e]; cbn [mbind outcome_bind]; [|done]. destruct H. by apply keep_served.
  - destruct (destroy_subsurface_ok (objects m) s (wl_fuel (objects m))) as (o' & calls & -> & Ho' & _ & Hk); [done|unfold wl_fuel; lia|].
    by apply keep_served.
  - apply forest_served; [done|]. by apply alter_frame_forest.
  - apply andb_true_iff in Ht as [H1%negb_true_iff%bool_decide_eq_false H2].
    destruct (place_child_inv "Invalid surface data provided for move_above" insert_above (objects m) s sibling insert_above_Permutation)
      as (o' & c & E & H3 & H4); [done..| |]; [intros sub Hsub; rewrite Hsub in H2; by apply bool_decide_eq_true in H2|].
    unfold place_above. rewrite E. by apply keep_served.
  - apply andb_true_iff in Ht as [H1%negb_true_iff%bool_decide_eq_false H2].
    destruct (place_child_inv "Invalid surface data provided for move_below" insert_below (objects m) s sibling insert_below_Permutation)
      as (o' & c & E & H3 & H4); [done..| |]; [intros sub Hsub; rewrite Hsub in H2; by apply bool_decide_eq_true in H2|].
    unfold place_below. rewrite E. by apply keep_served.
  - apply forest_served; [done|]. by apply alter_sub_forest.
  - apply forest_served; [done|]. apply send_frame_callbacks_forest.
  - by apply forest_served.
  - apply bool_decide_eq_true in Ht. by apply get_window_served.
  - pose proof (destroy_window_served m s Hm) as H. pose proof (destroy_window_keeps None m s Hm) as Hk.
    destruct (windows m !! s) as [w|] eqn:E; [|unfold destroy_window; rewrite E; split; [done|by intros d]].
    assert (Hwin : is_window (objects m) s) by (apply (wd_windows m Hm); by exists w). unfold is_window, role_of in Hwin.
    destruct (destroy_window m s) as [m' e]. split; [|done]. apply H. by rewrite Hwin.
  - by apply ask_window_served.
  - apply bool_decide_eq_true in Ht. by apply cursor_served.
  - case_bool_decide as Hc; [by apply drop_cursor_served|split; [done|by intros d]].
Qed.

(** A sequence of requests; a surface that already has a role keeps it. *)
Fixpoint wl_run (m : WlWorld) (reqs : list WlRequest) : outcome WlWorld :=
  match reqs with
  | [] => Ret m
  | req :: reqs =>
      match step m req with
      | Ret (m', _) => wl_run m' reqs
      | Throw e => if bool_decide (e = already_has_a_role) then wl_run m reqs else Throw e
      end
  end.
Fixpoint tame_run (m : WlWorld) (reqs : list WlRequest) : bool :=
  match reqs with
  | [] => true
  | req :: reqs => tame m req && tame_run (match step m req with Ret (m', _) => m' | Throw _ => m end) reqs
  end.

(** Every subsurface has a parent that exists. *)
Definition anchored (o : WlObjects) : Prop := forall c sub, wl_subsurfaces o !! c = Some sub -> is_Some (wl_surfaces o !! sub_parent sub).

Lemma anchored_synchronized o : WlInv o -> anchored o -> forall fuel s, is_Some (wl_surfaces o !! s) -> (size (wl_surfaces o) <= fuel)%nat -> returns (synchronized fuel o s).
Proof.
  intros Ho Ha. apply (chain_induction o (fun fuel s => returns (synchronized fuel o s)) Ho). intros f s su Hs Hp. cbn [synchronized]. rewrite Hs.
  destruct (wl_role su) eqn:Er; try by eexists. destruct (wi_roles o Ho s su Hs Er) as [sub Hsub]. rewrite Hsub. destruct (synchronized_ sub); [by eexists|].
  rewrite bool_decide_true by by apply (Ha s). apply Hp. apply (wi_subs o Ho s sub Hsub). by apply (Ha s).
Qed.
Lemma tame_servable m req : WorldInv m -> anchored (objects m) -> tame m req = true -> servable m req = true.
Proof.
  intros Hm Ha Ht. destruct req; try done; unfold tame, servable in *; cbv zeta in *.
  - apply andb_true_iff. split; [done|]. apply bool_decide_eq_true. intros c sub Hsub E. apply negb_true_iff, bool_decide_eq_false in Ht. apply Ht. rewrite <- E. by apply (Ha c).
  - by apply andb_true_iff in Ht as [? _].
  - apply andb_true_iff. split; [done|]. apply bool_decide_eq_true in Ht.
    destruct (anchored_synchronized (objects m) (wd_objects m Hm) Ha (wl_fuel (objects m)) s Ht) as [b ->]; [unfold wl_fuel; lia|done].
  - apply andb_true_iff. split; [done|]. destruct (wl_subsurfaces (objects m) !! s) eqn:E; [|done]. apply bool_decide_eq_true. by apply (Ha s).
  - apply andb_true_iff. split; [done|]. destruct (wl_subsurfaces (objects m) !! s) eqn:E; [|done]. apply bool_decide_eq_true. by apply (Ha s).
Qed.

(** A subsurface keeps its parent, or has a new one that exists. *)
Definition parented (gone : option Z) (o o' : WlObjects) : Prop := forall c sub', wl_subsurfaces o' !! c = Some sub' ->
  (exists sub, wl_subsurfaces o !! c = Some sub /\ sub_parent sub = sub_parent sub') \/
  (gone = None /\ is_Some (wl_surfaces o !! sub_parent sub')).
Lemma parented_same gone o o' : wl_subsurfaces o' = wl_subsurfaces o -> parented gone o o'.
Proof. intros E c sub'. rewrite E. eauto. Qed.
Lemma parented_forest gone o o' : same_forest o o' -> parented gone o o'.
Proof.
  intros [_ H] c sub' Hc. left. assert (E : (sub_parent <$> wl_subsurfaces o') !! c = Some (sub_parent sub')) by (by rewrite lookup_fmap, Hc).
  rewrite H, lookup_fmap in E. apply fmap_Some in E as (sub & Hs & ->). eauto.
Qed.
Lemma parented_destroy gone fuel o s o' calls : destroy_subsurface fuel o s = Ret (o', calls) -> parented gone o o'.
Proof.
  unfold destroy_subsurface. destruct (wl_subsurfaces o !! s); [|intros [= <- _]; by apply parented_same].
  intros (more & _ & E)%outcome_bind_Ret; injection E as <- _; intros c sub' Hc; cbn in Hc; apply lookup_delete_Some in Hc as [_ Hc]; eauto.
Qed.
Lemma set_role_subsurfaces o s r o' : set_role o s r = Ret o' -> wl_subsurfaces o' = wl_subsurfaces o.
Proof. unfold set_role. destruct (wl_surfaces o !! s); [|done]. case_bool_decide; [|done]. by intros [= <-]. Qed.
Lemma place_child_subsurfaces what insert o s sibling o' calls :
  place_child what insert o s sibling = Ret (o', calls) -> wl_subsurfaces o' = wl_subsurfaces o.
Proof. unfold place_child. intros E. repeat case_match; simplify_eq; done. Qed.
Lemma destroy_window_subsurfaces m s : wl_subsurfaces (objects (destroy_window m s).1) = wl_subsurfaces (objects m).
Proof. unfold destroy_window. by case_match. Qed.
Lemma destroy_surface_parented gone m s m' e : destroy_wl_surface m s = Ret (m', e) -> parented gone (objects m) (objects m').
Proof.
  unfold destroy_wl_surface. destruct (wl_role <$> wl_surfaces (objects m) !! s) as [r|]; [|done].
  intros ([m1 e1] & E1 & E)%outcome_bind_Ret. injection E as <- _.
  assert (H1 : parented gone (objects m) (objects m1)); [|exact H1].
  destruct r; [injection E1 as <- _; by apply parented_same| | |injection E1 as <- _; by apply parented_same].
  - apply outcome_bind_Ret in E1 as ([o' c] & E1 & E). injection E as <- _. by eapply parented_destroy.
  - injection E1 as E1. apply parented_same. by rewrite <- (destroy_window_subsurfaces m s), E1.
Qed.
Lemma step_parented m req m' e : WorldInv m -> servable m req = true -> step m req = Ret (m', e) -> parented (gone_of req) (objects m) (objects m').
Proof.
  intros Hm Ht E. destruct req; cbn [wl_step gone_of] in *; unfold wl_alter, serve in E; cbn [mbind outcome_bind] in E.
  - injection E as <- _. by apply parented_same.
  - by eapply destroy_surface_parented.
  - unfold wl_attach in E. repeat case_match; simplify_eq; by apply parented_same.
  - injection E as <- _. by apply parented_same.
  - injection E as <- _. by apply parented_same.
  - destruct (commit_forest m s Hm Ht) as (o & ws & e' & E' & Hf & _). rewrite E' in E. injection E as <- _. by apply parented_forest.
  - apply outcome_bind_Ret in E as ([o' c] & E1 & E). injection E as <- _. unfold get_subsurface in E1.
    destruct (wl_surfaces (objects m) !! s) as [su|]; [|done]. destruct (wl_surfaces (objects m) !! parent) eqn:Hp; [|done].
    case_bool_decide; [|done]. injection E1 as <- _. intros d sub'. cbn. destruct (decide (d = s)) as [->|].
    + rewrite lookup_insert_eq. intros [= <-]. right. cbn. by rewrite Hp.
    + rewrite lookup_insert_ne by done. eauto.
  - apply outcome_bind_Ret in E as ([o' c] & E1 & E). injection E as <- _. by eapply parented_destroy.
  - injection E as <- _. by apply parented_same.
  - apply outcome_bind_Ret in E as ([o' c] & E1 & E). injection E as <- _. by eapply parented_same, place_child_subsurfaces.
  - apply outcome_bind_Ret in E as ([o' c] & E1 & E). injection E as <- _. by eapply parented_same, place_child_subsurfaces.
  - injection E as <- _. apply parented_forest. by apply alter_sub_forest.
  - injection E as <- _. apply parented_forest, send_frame_callbacks_forest.
  - injection E as <- _. by apply parented_same.
  - apply outcome_bind_Ret in E as (o' & E1 & E). injection E as <- _. by eapply parented_same, set_role_subsurfaces.
  - injection E as E. apply parented_same. by rewrite <- (destroy_window_subsurfaces m s), E.
  - unfold ask_window in E. destruct (windows m !! s); [|injection E as <- _; by apply parented_same].
    apply outcome_bind_Ret in E as (data & _ & E). destruct (win_step _ _ _). injection E as <- _. by apply parented_same.
  - apply outcome_bind_Ret in E as (o' & E1 & E). injection E as <- _. by eapply parented_same, set_role_subsurfaces.
  - injection E as <- _. by case_bool_decide; apply parented_same.
Qed.

(** Tame requests keep the parents of the subsurfaces. *)
Lemma step_anchored m req m' e : WorldInv m -> anchored (objects m) -> tame m req = true -> step m req = Ret (m', e) -> anchored (objects m').
Proof.
  intros Hm Ha Ht E c sub' Hc. pose proof (tame_servable m req Hm Ha Ht) as Hv. pose proof (wl_step_served m req Hm Hv) as Hs. rewrite E in Hs. destruct Hs as [_ Hk].
  assert (Hp : is_Some (wl_surfaces (objects m) !! sub_parent sub') /\ (forall s, req = DestroySurface s -> s <> sub_parent sub')).
  { destruct (step_parented m req m' e Hm Hv E c sub' Hc) as [(sub & H1 & <-)|[Hn H1]].
    - split; [by apply (Ha c)|]. intros s ->. apply andb_true_iff in Ht as [_ Ht%bool_decide_eq_true]. intros ->. by apply (Ht c sub H1).
    - split; [done|]. by intros s ->. }
  destruct Hp as [Hp Hd]. destruct (gone_of req) as [g|] eqn:Eg; [|by apply (Hk (sub_parent sub') ltac:(done))].
  destruct (decide (g = sub_parent sub')) as [->|]; [|apply Hk; [congruence|done]].
  destruct req; try done; injection Eg as ->; [by destruct (Hd _ eq_refl)|]. injection E as <- _.
  case_bool_decide; [|done]. cbn. rewrite lookup_alter_eq. by rewrite fmap_is_Some.
Qed.

Lemma wl_run_served reqs m : WorldInv m -> anchored (objects m) -> tame_run m reqs = true -> exists m', wl_run m reqs = Ret m' /\ WorldInv m'.
Proof.
  revert m. induction reqs as [|req reqs IH]; intros m Hm Ha Ht; [by exists m|]. cbn in *. apply andb_true_iff in Ht as [Hreq Ht].
  pose proof (wl_step_served m req Hm (tame_servable m req Hm Ha Hreq)) as H. destruct (step m req) as [[m' e]|e] eqn:E.
  - apply IH; [apply H|by eapply step_anchored|done].
  - cbn in H. rewrite bool_decide_true by done. by apply IH.
Qed.

Definition empty_world : WlWorld := mkWlWorld (mkWlObjects ∅ ∅ ∅) ∅.
Lemma empty_world_inv : WorldInv empty_world.
Proof.
  split; [split|]; cbn.
  - intros p c (su & H & _). cbn in H. by rewrite lookup_empty in H.
  - intros p su. by rewrite lookup_empty.
  - intros c sub. by rewrite lookup_empty.
  - intros c cu. by rewrite lookup_empty.
  - exists (fun _ => 0%nat). intros p c (su & H & _). cbn in H. by rewrite lookup_empty in H.
  - intros s. unfold is_window, role_of. cbn. by rewrite !lookup_empty; split; [intros [? ?]|].
Qed.

Lemma empty_world_anchored : anchored (objects empty_world).
Proof. intros c sub H. cbn in H. by rewrite lookup_empty in H. Qed.

(** C14: (safety) Whatever a client requests, as long as it names surfaces that
    exist, makes no cycle of subsurfaces, places no subsurface next to itself and
    destroys no surface that still has subsurfaces ([tame]),
    every request is served: no recursion over a tree of surfaces runs on, no
    surface that has been destroyed is used, the only error is that a surface
    already has a role; and parents, children, roles and windows stay
    consistent with each other. *)
Theorem client_never_fails reqs : tame_run empty_world reqs = true ->
  exists m, wl_run empty_world reqs = Ret m /\ WorldInv m.
Proof. apply wl_run_served; [apply empty_world_inv|apply empty_world_anchored]. Qed.
End Served.

(** ** Examples *)
Definition client_step : WlWorld -> WlRequest -> outcome (WlWorld * WlEvents) :=
  wl_step cp_size (fun _ => true) (fun _ => mir_window_state_restored) example_creation.
Definition client_world (reqs : list WlRequest) : WlWorld :=
  match wl_run cp_size (fun _ => true) (fun _ => mir_window_state_restored) example_creation empty_world reqs with
  | Ret m => m
  | Throw _ => empty_world
  end.
Definition sized_buffer (id w h : Z) : option WlBuffer := Some (mkWlBuffer id (mkSize w h)).

(** A window of 100 by 100 with a subsurface of 10 by 10 on it. *)
Definition example_tree : list WlRequest :=
  [CreateSurface 1; CreateSurface 2; GetWindow 1; GetSubsurface 2 1; SetPosition 2 5 5;
   Attach 2 (sized_buffer 20 10 10); Commit 2; Attach 1 (sized_buffer 10 100 100); Frame 1 77; Commit 1].

Lemma client_never_fails_witness : exists m,
  wl_run cp_size (fun _ => true) (fun _ => mir_window_state_restored) example_creation empty_world
    (example_tree ++ [GetWindow 2; PlaceAbove 2 1; SetSync 2 false; Commit 2; AskWindow 1 (RMin 50 50);
      AskWindow 1 (RState mir_window_state_maximized None); DestroySurface 2; Commit 1]) = Ret m /\ WorldInv m.
Proof. apply client_never_fails. by vm_compute. Defined.

(** The two desynchronized subsurfaces of the following examples are asked
    whether they are synchronized. *)
Example own_parent_never_answers fuel :
  synchronized fuel (objects (client_world [CreateSurface 1; GetSubsurface 1 1; SetSync 1 false])) 1 = Throw out_of_fuel.
Proof. induction fuel as [|f IH]; [done|]. exact IH. Qed.

Example dangling_parent_is_used :
  client_step (client_world [CreateSurface 1; CreateSurface 2; GetSubsurface 2 1; SetSync 2 false; DestroySurface 1]) (Commit 2) =
  Throw use_after_free.
Proof. by vm_compute. Qed.

(** A subsurface that is placed next to itself is no child any longer. *)
Example placed_above_itself :
  (wl_children <$> wl_surfaces (objects (client_world [CreateSurface 1; CreateSurface 2; GetSubsurface 2 1; PlaceAbove 2 2])) !! 1)
  = Some [].
Proof. by vm_compute. Qed.

(** A subsurface is placed one place too low. *)
Example placed_too_low :
  (wl_children <$> wl_surfaces (objects (client_world
     [CreateSurface 1; CreateSurface 2; CreateSurface 3; CreateSurface 4; GetSubsurface 2 1; GetSubsurface 3 1; GetSubsurface 4 1;
      PlaceBelow 4 3])) !! 1) = Some [4; 2; 3].
Proof. by vm_compute. Qed.

(** What a request changes of the children and the buffer sizes, and what it tells. *)
Definition shown (r : outcome (WlWorld * WlEvents)) : option (list (option (list Z * option Size)) * list WlCall) :=
  match r with
  | Ret (m, (calls, _)) => Some ((fun s => (fun su => (wl_children su, buffer_size_ su)) <$> wl_surfaces (objects m) !! s) <$> [1; 2], calls)
  | Throw _ => None
  end.

(** The shell is told about a subsurface when it is destroyed, not that it is gone. *)
Example destroyed_subsurface_still_shown :
  shown (client_step (client_world example_tree) (DestroySubsurface 2)) =
  Some ([Some ([], Some (mkSize 100 100)); Some ([], Some (mkSize 10 10))],
    [refresh_surface_data 1 (mkSurfaceData [(1, displacement_zero); (2, mkDisplacement 5 5)]
       [mkRectangle point_zero (mkSize 100 100); mkRectangle (mkPoint 5 5) (mkSize 10 10)])]).
Proof. by vm_compute. Qed.

(** A synchronized subsurface without an input region of its own gets a
    larger buffer: neither its commit nor its parent's tells the shell. *)
Example resized_subsurface_not_told :
  shown (client_step (client_world (example_tree ++ [Attach 2 (sized_buffer 21 50 50); Commit 2])) (Commit 1)) =
  Some ([Some ([2], Some (mkSize 100 100)); Some ([], Some (mkSize 50 50))],
    [send_done_event 77; stream_submit 2 (mkWlBuffer 21 (mkSize 50 50))]).
Proof. by vm_compute. Qed.

(** ** Hit tests and synchronized commits of the example *)
Lemma example_world_inv reqs :
  tame_run cp_size (fun _ => true) (fun _ => mir_window_state_restored) example_creation empty_world reqs = true ->
  WlInv (objects (client_world reqs)).
Proof.
  intros Ht. destruct (wl_run_served cp_size (fun _ => true) (fun _ => mir_window_state_restored) example_creation
    reqs empty_world empty_world_inv empty_world_anchored Ht) as (m & Hm & Hi).
  unfold client_world. rewrite Hm. apply Hi.
Qed.

Lemma hit_test_agrees_witness : exists data pos,
  populate_surface_data 3 (objects (client_world example_tree)) 1 displacement_zero = Ret data /\
  transform_point 3 (objects (client_world example_tree)) 1 (mkPoint 7 8) = Ret pos /\
  (is_in_input_region pos = true <-> exists r, r ∈ sd_input_shape data /\ contains_point r (mkPoint 7 8) = true) /\
  (is_in_input_region pos = true -> exists offset,
     topmost (objects (client_world example_tree)) (mkPoint 7 8) (sd_streams data) = Some (pos_surface pos, offset) /\
     position pos = point_sub_disp (mkPoint 7 8) offset).
Proof.
  apply hit_test_agrees.
  - apply example_world_inv. by vm_compute.
  - vm_compute. by eexists.
  - vm_compute. lia.
Defined.

Definition example_states : list WlSurfaceState :=
  [mkWlSurfaceState (Some (sized_buffer 21 10 10)) None None [1] false;
   mkWlSurfaceState (Some (sized_buffer 22 30 30)) (Some (mkDisplacement 1 2)) None [2] false].
Definition example_child : WlSurface := default new_surface (wl_surfaces (objects (client_world example_tree)) !! 2).

Lemma synchronized_commits_atomic_witness : exists w1 w2 calls su2,
  commit_each 3 (objects (client_world example_tree)) 2 example_states = Ret (w1, []) /\
  current <$> wl_surfaces w1 = current <$> wl_surfaces (objects (client_world example_tree)) /\
  surface_commit 3 3 w1 1 new_state = Ret (w2, calls) /\ wl_surfaces w2 !! 2 = Some su2 /\
  su2 <| frame_callbacks := [] |> = (foldl take_state example_child example_states) <| frame_callbacks := [] |> /\
  forall buf, stream_submit 2 buf ∈ calls <-> last_buffer example_states = Some (Some buf).
Proof.
  apply (synchronized_commits_atomic _ 2 1 example_child (mkWlSubsurface 1 true None) example_states new_state 3 false).
  - apply example_world_inv. by vm_compute.
  - vm_compute. lia.
  - eexists. split; [by vm_compute|]. apply list_elem_of_singleton. done.
  - by vm_compute.
  - by vm_compute.
  - done.
  - done.
  - done.
  - by vm_compute.
Defined.
