(* ===== verification/WlKeyboards.v ===== *)
(** * Wayland keyboards

    [WlKeyboard] ([src/server/frontend_wayland/wl_keyboard.cpp]): what a client
    that has bound a keyboard is told about the focus, about keys and about the
    modifiers, which the keyboard derives from a state of its own of the keys
    that are down. *)
From S2P Require Import Prelude.

(** ** Data *)
(** [mir::input::Keymap] *)
Record Keymap := mkKeymap { km_model : string; km_layout : string; km_variant : string; km_options : string }.
#[export] Instance Keymap_eq_dec : EqDecision Keymap.
Proof. solve_decision. Defined.
Definition default_keymap : Keymap := mkKeymap "pc105+inet" "us" "" "".

Record Modifiers := mkModifiers { mods_depressed : Z; mods_latched : Z; mods_locked : Z; mods_group : Z }.
#[export] Instance Modifiers_eq_dec : EqDecision Modifiers.
Proof. solve_decision. Defined.
Definition no_modifiers : Modifiers := mkModifiers 0 0 0 0.

(** What is sent to the client, and the warning in the log. *)
Inductive KeyCall :=
| send_keymap (keymap : Keymap)
| send_repeat_info (rate delay : Z)
| send_keyboard_enter (s : Z) (keys : list Z)
| send_keyboard_leave (s : Z)
| send_key (ms scancode : Z) (down : bool)
| send_modifiers (mods : Modifiers)
| unfocused_key_warning (s : Z).

(** [focused_surface] is none when the flag [focused_surface_destroyed] is set. *)
Record WlKeyboard {XkbState : Type} := mkWlKeyboard {
  kb_client : Z;
  kb_keymap : Keymap;
  kb_state : XkbState;
  focused_surface : option Z;
  kb_mods : Modifiers
}.
Arguments WlKeyboard XkbState : clear implicits.
Arguments mkWlKeyboard {XkbState} kb_client kb_keymap kb_state focused_surface kb_mods.
#[export] Instance WlKeyboard_eta {X} : EtaExpansion (WlKeyboard X) := fun k =>
  mkWlKeyboard (kb_client k) (kb_keymap k) (kb_state k) (focused_surface k) (kb_mods k).

Section Keyboard.
(** libxkbcommon: the state without any key of a keymap, the state after a key
    goes down or up, and its modifiers and layout group. *)
Context {XkbState : Type}.
Context (xkb_state_new : Keymap -> XkbState).
Context (xkb_state_update_key : XkbState -> Z -> bool -> XkbState).
Context (xkb_serialize : XkbState -> Modifiers).
Implicit Types kb : WlKeyboard XkbState.

(** ** Operations *)
Definition update_modifier_state kb : WlKeyboard XkbState * list KeyCall :=
  let new_mods := xkb_serialize (kb_state kb) in
  if bool_decide (new_mods = kb_mods kb) then (kb, [])
  else (kb <| kb_mods := new_mods |>, [send_modifiers new_mods]).

Definition update_keyboard_state (keyboard_state : list Z) kb : WlKeyboard XkbState * list KeyCall :=
  update_modifier_state
    (kb <| kb_state := foldl (fun st scancode => xkb_state_update_key st (scancode + 8) true) (xkb_state_new (kb_keymap kb)) keyboard_state |>).

Definition set_keymap (new_keymap : Keymap) kb : WlKeyboard XkbState * list KeyCall :=
  (kb <| kb_keymap := new_keymap |> <| kb_state := xkb_state_new new_keymap |>, [send_keymap new_keymap]).

(** The constructor; [repeat_info] is whether the client's version has that event. *)
Definition new_keyboard (client : Z) (initial_keymap : Keymap) (repeat_info : bool) : WlKeyboard XkbState * list KeyCall :=
  let '(kb, calls) := set_keymap initial_keymap (mkWlKeyboard client initial_keymap (xkb_state_new initial_keymap) None no_modifiers) in
  (kb, calls ++ if repeat_info then [send_repeat_info 30 200] else []).

(** [acquired] are the keys that [acquire_current_keyboard_state] gives. *)
Definition focussed (s : Z) (should_be_focused : bool) (acquired : list Z) kb : WlKeyboard XkbState * list KeyCall :=
  let is_currently_focused := bool_decide (focused_surface kb = Some s) in
  if Bool.eqb should_be_focused is_currently_focused then (kb, [])
  else
    let left := match focused_surface kb with Some old => [send_keyboard_leave old] | None => [] end in
    if should_be_focused then
      let '(kb1, calls) := update_keyboard_state acquired kb in
      (kb1 <| focused_surface := Some s |>, left ++ calls ++ [send_keyboard_enter s acquired])
    else (kb <| focused_surface := None |>, left).

Definition keyboard_key (ms s scancode : Z) (down : bool) (acquired : list Z) kb : WlKeyboard XkbState * list KeyCall :=
  let '(kb1, calls1) :=
    if bool_decide (focused_surface kb = Some s) then (kb, [])
    else let '(kb1, calls) := focussed s true acquired kb in (kb1, unfocused_key_warning s :: calls) in
  let kb2 := kb1 <| kb_state := xkb_state_update_key (kb_state kb1) (scancode + 8) down |> in
  let '(kb3, calls3) := update_modifier_state kb2 in
  (kb3, calls1 ++ [send_key ms scancode down] ++ calls3).

Definition resync_keyboard (acquired : list Z) kb : WlKeyboard XkbState * list KeyCall := update_keyboard_state acquired kb.

(** The surface is destroyed and sets its flag. *)
Definition keyboard_surface_gone (s : Z) kb : WlKeyboard XkbState :=
  if bool_decide (focused_surface kb = Some s) then kb <| focused_surface := None |> else kb.

(** ** Sequences of operations *)
Inductive KeyboardOp :=
| KKey (ms s scancode : Z) (down : bool) (acquired : list Z)
| KFocus (s : Z) (should_be_focused : bool) (acquired : list Z)
| KKeymap (keymap : Keymap)
| KResync (acquired : list Z)
| KGone (s : Z).

Definition keyboard_step kb (op : KeyboardOp) : WlKeyboard XkbState * list KeyCall :=
  match op with
  | KKey ms s scancode down acquired => keyboard_key ms s scancode down acquired kb
  | KFocus s b acquired => focussed s b acquired kb
  | KKeymap k => set_keymap k kb
  | KResync acquired => resync_keyboard acquired kb
  | KGone s => (keyboard_surface_gone s kb, [])
  end.

(** ** What the client knows *)
(** The surface that has the focus, the keymap, the keys that went down or up
    since the keys were told, how many of them before the keymap was, the
    modifiers, and whether these have been told since the keymap was. *)
Record KeyView := mkKeyView {
  kv_focus : option Z;
  kv_keymap : Keymap;
  kv_keys : list (Z * bool);
  kv_carried : nat;
  kv_mods : Modifiers;
  kv_synced : bool
}.
#[export] Instance KeyView_eta : EtaExpansion KeyView := fun v =>
  mkKeyView (kv_focus v) (kv_keymap v) (kv_keys v) (kv_carried v) (kv_mods v) (kv_synced v).

Definition all_down (keys : list Z) : list (Z * bool) := (fun k => (k, true)) <$> keys.

(** How the client takes an event; none if it is out of order: an enter while
    a surface has the focus, a leave of another surface, or a key that is not
    for the surface that has the focus ([target]). *)
Definition client_takes (target : option Z) (v : KeyView) (c : KeyCall) : option KeyView :=
  match c with
  | send_keymap k => Some (v <| kv_keymap := k |> <| kv_carried := length (kv_keys v) |> <| kv_synced := false |>)
  | send_keyboard_enter s keys =>
      if bool_decide (kv_focus v = None)
      then Some (v <| kv_focus := Some s |> <| kv_keys := all_down keys |> <| kv_carried := 0%nat |> <| kv_synced := true |>) else None
  | send_keyboard_leave s => if bool_decide (kv_focus v = Some s) then Some (v <| kv_focus := None |>) else None
  | send_key _ code down =>
      if bool_decide (kv_focus v = target /\ target <> None)
      then Some (v <| kv_keys := kv_keys v ++ [(code, down)] |> <| kv_synced := true |>) else None
  | send_modifiers m => Some (v <| kv_mods := m |>)
  | send_repeat_info _ _ | unfocused_key_warning _ => Some v
  end.
Fixpoint client_takes_all (target : option Z) (v : KeyView) (calls : list KeyCall) : option KeyView :=
  match calls with
  | [] => Some v
  | c :: calls => v' ← client_takes target v c; client_takes_all target v' calls
  end.

(** A destroyed surface loses the focus without an event; after a restart the
    server asks for the keys anew, and tells the client only the modifiers. *)
Definition beforehand (v : KeyView) (op : KeyboardOp) : KeyView :=
  match op with
  | KGone s => if bool_decide (kv_focus v = Some s) then v <| kv_focus := None |> else v
  | KResync acquired => v <| kv_keys := all_down acquired |> <| kv_carried := 0%nat |> <| kv_synced := true |>
  | _ => v
  end.
Definition target_of (op : KeyboardOp) : option Z := match op with KKey _ s _ _ _ => Some s | _ => None end.

Fixpoint keyboard_run kb (v : KeyView) (ops : list KeyboardOp) : option (WlKeyboard XkbState * KeyView) :=
  match ops with
  | [] => Some (kb, v)
  | op :: ops =>
      let '(kb', calls) := keyboard_step kb op in
      v' ← client_takes_all (target_of op) (beforehand v op) calls;
      keyboard_run kb' v' ops
  end.

Definition pressed (keymap : Keymap) (keys : list (Z * bool)) : XkbState :=
  foldl (fun st (k : Z * bool) => xkb_state_update_key st (k.1 + 8) k.2) (xkb_state_new keymap) keys.

Record KeyboardInv kb (v : KeyView) : Prop := {
  ki_focus : kv_focus v = focused_surface kb;
  ki_keymap : kv_keymap v = kb_keymap kb;
  ki_carried : (kv_carried v <= length (kv_keys v))%nat;
  ki_state : kb_state kb = pressed (kb_keymap kb) (drop (kv_carried v) (kv_keys v));
  ki_mods : kv_mods v = kb_mods kb;
  ki_synced : kv_synced v = true -> kb_mods kb = xkb_serialize (kb_state kb)
}.

Lemma client_takes_app target v a b :
  client_takes_all target v (a ++ b) = v' ← client_takes_all target v a; client_takes_all target v' b.
Proof. revert v. induction a as [|c a IH]; intros v; [done|]. cbn. destruct (client_takes target v c); [apply IH|done]. Qed.

Lemma pressed_down keymap keys :
  foldl (fun st scancode => xkb_state_update_key st (scancode + 8) true) (xkb_state_new keymap) keys = pressed keymap (all_down keys).
Proof. unfold pressed, all_down. generalize (xkb_state_new keymap). induction keys as [|k keys IH]; intros st; [done|]. apply IH. Qed.

(** The modifiers are brought up to date; nothing else changes. *)
Lemma update_modifier_spec target kb v :
  kv_mods v = kb_mods kb ->
  exists kb' calls m, update_modifier_state kb = (kb', calls) /\ client_takes_all target v calls = Some (v <| kv_mods := m |>) /\
    kb' = kb <| kb_mods := m |> /\ m = xkb_serialize (kb_state kb).
Proof.
  intros Hm. unfold update_modifier_state. case_bool_decide as E.
  - exists kb, [], (kb_mods kb). split; [done|]. split; [rewrite <- Hm; by destruct v|]. split; [by destruct kb|done].
  - eexists _, _, _. split; [done|]. by cbn.
Qed.

Lemma update_keyboard_spec target keys kb v :
  kv_mods v = kb_mods kb ->
  exists kb' calls m, update_keyboard_state keys kb = (kb', calls) /\ client_takes_all target v calls = Some (v <| kv_mods := m |>) /\
    kb' = kb <| kb_state := pressed (kb_keymap kb) (all_down keys) |> <| kb_mods := m |> /\
    m = xkb_serialize (pressed (kb_keymap kb) (all_down keys)).
Proof.
  intros Hm. unfold update_keyboard_state. rewrite pressed_down.
  destruct (update_modifier_spec target (kb <| kb_state := pressed (kb_keymap kb) (all_down keys) |>) v) as (kb' & calls & m & H1 & H2 & H3 & H4); [exact Hm|].
  exists kb', calls, m. split; [exact H1|]. split; [exact H2|]. split; [exact H3|exact H4].
Qed.

Lemma focussed_spec target s b keys kb v : KeyboardInv kb v ->
  exists v', client_takes_all target v (focussed s b keys kb).2 = Some v' /\ KeyboardInv (focussed s b keys kb).1 v' /\
    (b = true -> focused_surface (focussed s b keys kb).1 = Some s).
Proof.
  intros Hi. pose proof Hi as [Hf Hk Hl Hs Hm Hy]. unfold focussed. destruct (Bool.eqb b (bool_decide (focused_surface kb = Some s))) eqn:E.
  { exists v. apply eqb_prop in E. split; [done|]. split; [done|]. intros ->. symmetry in E. by apply bool_decide_eq_true in E. }
  set (v0 := v <| kv_focus := None |>).
  assert (Hleft : client_takes_all target v (match focused_surface kb with Some old => [send_keyboard_leave old] | None => [] end) = Some v0).
  { unfold v0. destruct (focused_surface kb) as [old|]; cbn; [by rewrite bool_decide_true by done|]. destruct v. cbn in *. by subst. }
  destruct b.
  - destruct (update_keyboard_spec target keys kb v0 Hm) as (kb' & calls & m & -> & Hc & -> & ->). cbn [fst snd].
    eexists. rewrite client_takes_app, Hleft. cbn [mbind option_bind]. rewrite client_takes_app, Hc. cbn. split; [done|]. split; [split; cbn; (done || lia)|done].
  - cbn [fst snd]. eexists. split; [exact Hleft|]. split; [by split|done].
Qed.

Lemma keyboard_step_spec kb v op : KeyboardInv kb v ->
  exists v', client_takes_all (target_of op) (beforehand v op) (keyboard_step kb op).2 = Some v' /\ KeyboardInv (keyboard_step kb op).1 v'.
Proof.
  intros Hi. destruct op as [ms s code down keys|s b keys|k|keys|s]; cbn [target_of beforehand keyboard_step].
  - assert (H : exists kb1 calls1 v1,
      (if bool_decide (focused_surface kb = Some s) then (kb, [])
       else let '(kb1, calls) := focussed s true keys kb in (kb1, unfocused_key_warning s :: calls)) = (kb1, calls1) /\
      client_takes_all (Some s) v calls1 = Some v1 /\ KeyboardInv kb1 v1 /\ focused_surface kb1 = Some s).
    { case_bool_decide as E; [by exists kb, [], v|].
      destruct (focussed_spec (Some s) s true keys kb v Hi) as (v1 & H1 & H2 & H3). destruct (focussed s true keys kb) as [kb1 calls].
      exists kb1, (unfocused_key_warning s :: calls), v1. cbn. auto. }
    unfold keyboard_key. destruct H as (kb1 & calls1 & v1 & -> & H1 & [Hf Hk Hl Hs Hm Hy] & Hfoc).
    set (v2 := v1 <| kv_keys := kv_keys v1 ++ [(code, down)] |> <| kv_synced := true |>).
    destruct (update_modifier_spec (Some s) (kb1 <| kb_state := xkb_state_update_key (kb_state kb1) (code + 8) down |>) v2)
      as (kb3 & calls3 & m & -> & H3 & -> & ->); [exact Hm|].
    cbn [fst snd]. eexists. rewrite client_takes_app, H1. cbn [mbind option_bind app client_takes_all client_takes].
    rewrite bool_decide_true by (split; [by rewrite Hf|done]). cbn [mbind option_bind]. split; [exact H3|].
    split; cbn; [done|done|rewrite length_app; lia| |done|done]. rewrite drop_app_le by done. unfold pressed. rewrite foldl_app. cbn. by rewrite Hs.
  - destruct (focussed_spec None s b keys kb v Hi) as (v' & H1 & H2 & _). eauto.
  - destruct Hi as [Hf Hk Hl Hs Hm Hy]. eexists. split; [done|]. split; cbn; try done. by rewrite drop_all.
  - destruct Hi as [Hf Hk Hl Hs Hm Hy]. set (v0 := v <| kv_keys := all_down keys |> <| kv_carried := 0%nat |> <| kv_synced := true |>).
    destruct (update_keyboard_spec None keys kb v0 Hm) as (kb' & calls & m & E & Hc & -> & ->). unfold resync_keyboard. rewrite E. cbn [fst snd].
    eexists. split; [exact Hc|]. split; cbn; (done || lia).
  - destruct Hi as [Hf Hk Hl Hs Hm Hy]. unfold keyboard_surface_gone. cbn [fst snd client_takes_all]. rewrite Hf.
    eexists. split; [done|]. case_bool_decide; by split.
Qed.

Lemma new_keyboard_inv client keymap repeat_info :
  KeyboardInv (new_keyboard client keymap repeat_info).1 (mkKeyView None keymap [] 0 no_modifiers false).
Proof. by split. Qed.

(** C17: (safety) Whatever happens to a keyboard, the client is told so that it
    can follow: surfaces get and lose the focus in turn, every key comes while
    the surface it is for has the focus, and from the first key or focus after
    a keymap on the modifiers told are those that the keymap gives the keys told
    since the focus came, in order (after a restart, the keys that were down then
    and those told since), unless keys had been told before the keymap and not
    again since ([kv_carried]; the server forgets those: [keymap_forgets_keys]). *)
Theorem keyboard_told client keymap repeat_info ops :
  exists kb v, keyboard_run (new_keyboard client keymap repeat_info).1 (mkKeyView None keymap [] 0 no_modifiers false) ops = Some (kb, v) /\
    kv_focus v = focused_surface kb /\ kv_keymap v = kb_keymap kb /\
    (kv_synced v = true -> kv_carried v = 0%nat -> kv_mods v = xkb_serialize (pressed (kv_keymap v) (kv_keys v))).
Proof.
  cut (forall kb v, KeyboardInv kb v -> exists kb' v', keyboard_run kb v ops = Some (kb', v') /\ KeyboardInv kb' v').
  { intros H. destruct (H _ _ (new_keyboard_inv client keymap repeat_info)) as (kb & v & -> & [Hf Hk Hl Hs Hm Hy]).
    exists kb, v. do 3 (split; [done|]). intros Hv Hc. rewrite Hc in Hs. by rewrite Hm, Hk, Hy, Hs. }
  induction ops as [|op ops IH]; intros kb v Hi; [by exists kb, v|]. cbn [keyboard_run].
  destruct (keyboard_step_spec kb v op Hi) as (v' & Hc & Hi'). destruct (keyboard_step kb op) as [kb' calls].
  cbn [fst snd] in *. rewrite Hc. cbn [mbind option_bind]. by apply IH.
Qed.
End Keyboard.

(** ** An example *)
(** A keyboard whose only modifier is the key 42, which
    libxkbcommon knows as 50. *)
Definition shift_only (st : gset Z) : Modifiers := mkModifiers (if bool_decide (50 ∈ st) then 1 else 0) 0 0 0.
Definition hold (st : gset Z) (key : Z) (down : bool) : gset Z := if down then {[key]} ∪ st else st ∖ {[key]}.

(** The modifiers come before the enter that they belong to. *)
Example modifiers_before_enter :
  (focussed (fun _ => ∅ : gset Z) hold shift_only 7 true [42] (new_keyboard (fun _ => ∅ : gset Z) 1 default_keymap true).1).2 =
  [send_modifiers (mkModifiers 1 0 0 0); send_keyboard_enter 7 [42]].
Proof. by vm_compute. Qed.
(** A new keymap forgets the keys that are down: the shift key is still held. *)
Example keymap_forgets_keys :
  let kb := (focussed (fun _ => ∅ : gset Z) hold shift_only 7 true [42] (new_keyboard (fun _ => ∅ : gset Z) 1 default_keymap true).1).1 in
  (keyboard_key (fun _ => ∅ : gset Z) hold shift_only 0 7 30 true [42; 30] (set_keymap (fun _ => ∅ : gset Z) default_keymap kb).1).2 =
  [send_key 0 30 true; send_modifiers no_modifiers].
Proof. by vm_compute. Qed.
