(* ===== verification/WlInput.v ===== *)
(** * Input for Wayland clients

    [WlPointer], [WlTouch], [WlSeat] and [WaylandInputDispatcher]
    ([src/server/frontend_wayland/wl_pointer.cpp], [wl_touch.cpp], [wl_seat.cpp],
    [wayland_input_dispatcher.cpp]): how an event that the scene delivers to a
    window reaches the pointers, touch screens and keyboards that its client has
    bound, which surface of the window's tree it is for, and what becomes of the
    focus and the cursor when surfaces go. *)
From S2P Require Import Prelude Geometry InputEvents WindowInfo SurfaceSpec WlSurfaces WlWindows WlClient WlKeyboards.

(** ** Data *)
(** The cursor of a pointer.  [cs_alive] is false once the flag
    [surface_destroyed] is set; [cs_over] is the window whose scene surface
    shows the cursor. *)
Inductive Cursor :=
| NullCursor
| WlHiddenCursor
| WlSurfaceCursor (cs_surface : Z) (cs_alive : bool) (cs_hotspot : Displacement) (cs_over : option Z).

(** [wp_cursor] is none when the [unique_ptr] is empty; [wp_frames] is
    [version_supports_frame()]. *)
Record WlPointer := mkWlPointer {
  wp_client : Z;
  wp_frames : bool;
  can_send_frame : bool;
  surface_under_cursor : option Z;
  wp_cursor : option Cursor
}.
#[export] Instance WlPointer_eta : EtaExpansion WlPointer := fun p =>
  mkWlPointer (wp_client p) (wp_frames p) (can_send_frame p) (surface_under_cursor p) (wp_cursor p).

Record WlTouch := mkWlTouch { wt_client : Z; focused_surface_for_ids : gmap Z Z; wt_can_send_frame : bool }.
#[export] Instance WlTouch_eta : EtaExpansion WlTouch := fun t =>
  mkWlTouch (wt_client t) (focused_surface_for_ids t) (wt_can_send_frame t).

(** [WaylandInputDispatcher], one for each window. *)
Record WaylandInputDispatcher := mkDispatcher {
  wd_timestamp : Z;
  last_pointer_buttons : Z;
  last_pointer_position : option Point
}.
#[export] Instance WaylandInputDispatcher_eta : EtaExpansion WaylandInputDispatcher := fun d =>
  mkDispatcher (wd_timestamp d) (last_pointer_buttons d) (last_pointer_position d).
Definition new_dispatcher : WaylandInputDispatcher := mkDispatcher 0 0 None.

(** What the client receives, and the image that a window's scene surface gets
    for a cursor.  [pointer_bound] and [pointer_gone] tell when a pointer comes
    and goes, [surface_gone] that a surface has been destroyed. *)
Inductive InputCall :=
| pointer_bound (p : Z)
| pointer_gone (p : Z)
| send_enter (p s : Z) (position : Point)
| send_leave (p s : Z)
| send_motion (p ms : Z) (position : Point)
| send_button (p ms button : Z) (pressed : bool)
| send_axis (p ms : Z) (vertical : bool) (amount : Z)
| send_frame (p : Z)
| send_touch_down (t ms s id : Z) (position : Point)
| send_touch_motion (t ms id : Z) (position : Point)
| send_touch_up (t ms id : Z)
| send_touch_frame (t : Z)
| keyboard_call (k : Z) (c : KeyCall)
| set_cursor_image (window : Z) (image : option (WlBuffer * Displacement))
| focus_on (client : Z)
| surface_gone (s : Z)
| request_events (ev : WlEvents)
| input_warning (what : string).

(** What the input code takes from elsewhere: libxkbcommon, as in [WlKeyboards];
    the shell, as in [WlClient]; the client of a surface; and whether the pixels
    of a buffer can be read. *)
Class InputEnv := {
  XkbState : Type;
  xkb_state_new : Keymap -> XkbState;
  xkb_state_update_key : XkbState -> Z -> bool -> XkbState;
  xkb_serialize : XkbState -> Modifiers;
  placed_size : SurfaceCreationParameters -> Size;
  scene_visible : Z -> bool;
  scene_state : Z -> MirWindowState;
  default_params : SurfaceCreationParameters;
  client_of : Z -> Z;
  readable : WlBuffer -> bool
}.

Section Input.
Context {env : InputEnv}.

(** [in_posted] is the last buffer that was submitted for a surface;
    [acquired_keys] the keys that are down on the seat. *)
Record InputWorld := mkInputWorld {
  in_wl : WlWorld;
  in_pointers : gmap Z WlPointer;
  in_touches : gmap Z WlTouch;
  in_keyboards : gmap Z (WlKeyboard XkbState);
  pointer_listeners : gmap Z (list Z);
  touch_listeners : gmap Z (list Z);
  keyboard_listeners : gmap Z (list Z);
  destroy_listeners : gmap Z (list Z);
  dispatchers : gmap Z WaylandInputDispatcher;
  in_posted : gmap Z WlBuffer;
  acquired_keys : list Z;
  focused_client : option Z;
  seat_keymap : Keymap;
  pending_keymap : Keymap
}.
#[global] Instance InputWorld_eta : EtaExpansion InputWorld := fun w =>
  mkInputWorld (in_wl w) (in_pointers w) (in_touches w) (in_keyboards w) (pointer_listeners w) (touch_listeners w)
    (keyboard_listeners w) (destroy_listeners w) (dispatchers w) (in_posted w) (acquired_keys w) (focused_client w)
    (seat_keymap w) (pending_keymap w).

(** ** Actions: they change the world and make calls, and what they have done
    stays when they throw *)
Definition Act (A : Type) : Type := InputWorld -> InputWorld * list InputCall * outcome A.
#[global] Instance Act_ret : MRet Act := fun A a w => (w, [], Ret a).
#[global] Instance Act_bind : MBind Act := fun A B f x w =>
  match x w with
  | (w1, c1, Ret a) => let '(w2, c2, r) := f a w1 in (w2, c1 ++ c2, r)
  | (w1, c1, Throw e) => (w1, c1, Throw e)
  end.
Definition read {A} (f : InputWorld -> A) : Act A := fun w => (w, [], Ret (f w)).
Definition change (f : InputWorld -> InputWorld) : Act unit := fun w => (f w, [], Ret tt).
Definition tell (c : InputCall) : Act unit := fun w => (w, [c], Ret tt).
Definition lifted {A} (f : InputWorld -> outcome A) : Act A := fun w => (w, [], f w).
Fixpoint each {A} (xs : list A) (f : A -> Act unit) : Act unit :=
  match xs with [] => mret tt | x :: xs => f x;; each xs f end.

Definition in_objects (w : InputWorld) : WlObjects := objects (in_wl w).
Definition deref {A} (o : option A) : outcome A := match o with Some a => Ret a | None => Throw use_after_free end.
Definition the_pointer (p : Z) : Act WlPointer := lifted (fun w => deref (in_pointers w !! p)).
Definition on_pointer (p : Z) (f : WlPointer -> WlPointer) : Act unit := change (fun w => w <| in_pointers := alter f p (in_pointers w) |>).

(** [parent_surface->transform_point(position)] *)
Definition hit (s : Z) (position : Point) : Act Position :=
  lifted (fun w => transform_point (wl_fuel (in_objects w)) (in_objects w) s position).

(** [surface->scene_surface()]: the window whose scene surface it is.  A
    subsurface asks the surface it took for its parent. *)
Fixpoint scene_surface (fuel : nat) (m : WlWorld) (s : Z) : outcome (option Z) :=
  match fuel with
  | O => Throw out_of_fuel
  | S f =>
      match wl_surfaces (objects m) !! s with
      | None => Throw use_after_free
      | Some su =>
          match wl_role su with
          | null_role | cursor_role => Ret None
          | window_role => Ret (match windows m !! s with Some win => if has_scene_surface win then Some s else None | None => None end)
          | subsurface_role =>
              match wl_subsurfaces (objects m) !! s with
              | Some sub => scene_surface f m (sub_parent sub)
              | None => Throw use_after_free
              end
          end
      end
  end.
Definition scene_of (s : Z) : Act (option Z) := lifted (fun w => scene_surface (wl_fuel (in_objects w)) (in_wl w) s).

(** The weak pointer to the scene surface of a window. *)
Definition scene_alive (w : InputWorld) (window : Z) : bool :=
  match windows (in_wl w) !! window with Some win => has_scene_surface win | None => false end.

(** ** The cursor *)
Definition unreadable_cursor : exn := logic_error "Could not read cursor image data from buffer".

(** [WlSurfaceCursor::apply_latest_buffer] *)
Definition apply_latest_buffer (surface : Z) (hotspot : Displacement) (over : option Z) : Act unit :=
  match over with
  | None => mret tt
  | Some window =>
      alive ← read (fun w => scene_alive w window);
      if alive : bool then
        posted ← read (fun w => in_posted w !! surface);
        match posted with
        | Some b => if readable b then tell (set_cursor_image window (Some (b, hotspot))) else lifted (fun _ => Throw unreadable_cursor)
        | None => tell (set_cursor_image window None)
        end
      else mret tt
  end.

(** [cursor->apply_to(surface)] for the cursor of the pointer [p]. *)
Definition cursor_apply_to (p s : Z) : Act unit :=
  q ← the_pointer p;
  match wp_cursor q with
  | None => lifted (fun _ => Throw null_dereference)
  | Some NullCursor => mret tt
  | Some WlHiddenCursor =>
      over ← scene_of s;
      match over with Some window => tell (set_cursor_image window None) | None => mret tt end
  | Some (WlSurfaceCursor surface alive hotspot _) =>
      over ← scene_of s;
      on_pointer p (fun q => q <| wp_cursor := Some (WlSurfaceCursor surface alive hotspot over) |>);;
      apply_latest_buffer surface hotspot over
  end.

(** ** WlPointer *)
Definition listen (s p : Z) : Act unit :=
  change (fun w => w <| destroy_listeners := <[s := p :: erase_all p (default [] (destroy_listeners w !! s))]> (destroy_listeners w) |>).
Definition unlisten (s p : Z) : Act unit :=
  change (fun w => w <| destroy_listeners := alter (erase_all p) s (destroy_listeners w) |>).

Definition pointer_enter (p parent_surface : Z) (position_on_parent : Point) : Act unit :=
  final ← hit parent_surface position_on_parent;
  cursor_apply_to p (pos_surface final);;
  tell (send_enter p (pos_surface final) (position final));;
  on_pointer p (fun q => q <| can_send_frame := true |>);;
  listen (pos_surface final) p;;
  on_pointer p (fun q => q <| surface_under_cursor := Some (pos_surface final) |>).

Definition pointer_leave (p : Z) : Act unit :=
  q ← the_pointer p;
  match surface_under_cursor q with
  | None => mret tt
  | Some s =>
      lifted (fun w => deref (wl_surfaces (in_objects w) !! s));;
      unlisten s p;;
      tell (send_leave p s);;
      on_pointer p (fun q => q <| can_send_frame := true |> <| surface_under_cursor := None |>)
  end.

Definition pointer_button (p ms button : Z) (pressed : bool) : Act unit :=
  tell (send_button p ms button pressed);;
  on_pointer p (fun q => q <| can_send_frame := true |>).

Definition pointer_motion (p ms parent_surface : Z) (position_on_parent : Point) : Act unit :=
  final ← hit parent_surface position_on_parent;
  q ← the_pointer p;
  if bool_decide (surface_under_cursor q = Some (pos_surface final)) then
    tell (send_motion p ms (position final));;
    on_pointer p (fun q => q <| can_send_frame := true |>)
  else
    pointer_leave p;;
    pointer_enter p (pos_surface final) (position final).

Definition pointer_axis (p ms : Z) (scroll : Displacement) : Act unit :=
  (if bool_decide (dx scroll <> 0)
   then tell (send_axis p ms false (dx scroll));; on_pointer p (fun q => q <| can_send_frame := true |>) else mret tt);;
  (if bool_decide (dy scroll <> 0)
   then tell (send_axis p ms true (dy scroll));; on_pointer p (fun q => q <| can_send_frame := true |>) else mret tt).

Definition pointer_frame (p : Z) : Act unit :=
  q ← the_pointer p;
  (if can_send_frame q && wp_frames q then tell (send_frame p) else mret tt);;
  on_pointer p (fun q => q <| can_send_frame := false |>).

(** The destructor of a cursor gives the role of its surface back. *)
Definition drop_cursor (c : option Cursor) : Act unit :=
  match c with
  | Some (WlSurfaceCursor surface true _ _) =>
      change (fun w => w <| in_wl := (in_wl w) <| objects := clear_role (in_objects w) surface |> |>)
  | _ => mret tt
  end.

Definition cursor_surface (c : Cursor) : option Z := match c with WlSurfaceCursor surface true _ _ => Some surface | _ => None end.

(** The request [set_cursor].  [cursor.reset()] comes before the new cursor
    takes its role, which may throw. *)
Definition set_cursor (p : Z) (surface : option Z) (hotspot : Displacement) : Act unit :=
  q ← the_pointer p;
  match surface, wp_cursor q with
  | Some wl_surface, None => lifted (fun _ => Throw null_dereference)
  | Some wl_surface, Some c =>
      if bool_decide (cursor_surface c = Some wl_surface) then
        match c with
        | WlSurfaceCursor own alive _ over =>
            on_pointer p (fun q => q <| wp_cursor := Some (WlSurfaceCursor own alive hotspot over) |>);;
            apply_latest_buffer own hotspot over
        | _ => mret tt
        end
      else
        on_pointer p (fun q => q <| wp_cursor := None |>);;
        drop_cursor (Some c);;
        o ← lifted (fun w => set_role (in_objects w) wl_surface cursor_role);
        change (fun w => w <| in_wl := (in_wl w) <| objects := o |> |>);;
        on_pointer p (fun q => q <| wp_cursor := Some (WlSurfaceCursor wl_surface true hotspot None) |>);;
        match surface_under_cursor q with Some s => cursor_apply_to p s | None => mret tt end
  | None, c =>
      on_pointer p (fun q => q <| wp_cursor := Some WlHiddenCursor |>);;
      drop_cursor c;;
      match surface_under_cursor q with Some s => cursor_apply_to p s | None => mret tt end
  end.

(** The destructor of a pointer. *)
Definition release_pointer (p : Z) : Act unit :=
  q ← the_pointer p;
  match surface_under_cursor q with
  | Some s => lifted (fun w => deref (wl_surfaces (in_objects w) !! s));; unlisten s p
  | None => mret tt
  end;;
  change (fun w => w <| pointer_listeners := alter (erase_all p) (wp_client q) (pointer_listeners w) |>);;
  drop_cursor (wp_cursor q);;
  change (fun w => w <| in_pointers := delete p (in_pointers w) |>);;
  tell (pointer_gone p).

(** ** WlTouch *)
Definition the_touch (t : Z) : Act WlTouch := lifted (fun w => deref (in_touches w !! t)).
Definition on_touch (t : Z) (f : WlTouch -> WlTouch) : Act unit := change (fun w => w <| in_touches := alter f t (in_touches w) |>).

(** [WlSurface::total_offset] *)
Fixpoint total_offset (fuel : nat) (o : WlObjects) (s : Z) : outcome Displacement :=
  match fuel with
  | O => Throw out_of_fuel
  | S f =>
      match wl_surfaces o !! s with
      | None => Throw use_after_free
      | Some su =>
          match wl_role su with
          | subsurface_role =>
              match wl_subsurfaces o !! s with
              | Some sub => d ← total_offset f o (sub_parent sub); Ret (displacement_add (offset_ su) d)
              | None => Throw use_after_free
              end
          | _ => Ret (displacement_add (offset_ su) displacement_zero)
          end
      end
  end.

Definition touch_down (t ms id parent : Z) (position_on_parent : Point) : Act unit :=
  final ← hit parent position_on_parent;
  on_touch t (fun x => x <| focused_surface_for_ids := <[id := pos_surface final]> (focused_surface_for_ids x) |>);;
  tell (send_touch_down t ms (pos_surface final) id (position final));;
  on_touch t (fun x => x <| wt_can_send_frame := true |>).

Definition touch_motion (t ms id : Z) (position_on_parent : Point) : Act unit :=
  x ← the_touch t;
  match focused_surface_for_ids x !! id with
  | None => tell (input_warning "WlTouch::motion() called with invalid ID")
  | Some s =>
      d ← lifted (fun w => total_offset (wl_fuel (in_objects w)) (in_objects w) s);
      tell (send_touch_motion t ms id (point_sub_disp position_on_parent d));;
      on_touch t (fun x => x <| wt_can_send_frame := true |>)
  end.

Definition touch_up (t ms id : Z) : Act unit :=
  on_touch t (fun x => x <| focused_surface_for_ids := delete id (focused_surface_for_ids x) |>);;
  tell (send_touch_up t ms id);;
  on_touch t (fun x => x <| wt_can_send_frame := true |>).

Definition touch_frame (t : Z) : Act unit :=
  x ← the_touch t;
  (if wt_can_send_frame x then tell (send_touch_frame t) else mret tt);;
  on_touch t (fun x => x <| wt_can_send_frame := false |>).

(** ** WlSeat *)
Definition pointers_of (client : Z) : Act (list Z) := read (fun w => default [] (pointer_listeners w !! client)).
Definition touches_of (client : Z) : Act (list Z) := read (fun w => default [] (touch_listeners w !! client)).
Definition keyboards_of (client : Z) : Act (list Z) := read (fun w => default [] (keyboard_listeners w !! client)).

Definition each_pointer (client : Z) (f : Z -> Act unit) : Act unit := ps ← pointers_of client; each ps f.
Definition each_touch (client : Z) (f : Z -> Act unit) : Act unit := ts ← touches_of client; each ts f.

(** An operation on a keyboard and what it sends. *)
Definition on_keyboard (f : WlKeyboard XkbState -> WlKeyboard XkbState * list KeyCall) (k : Z) : Act unit :=
  kb ← lifted (fun w => deref (in_keyboards w !! k));
  let '(kb', calls) := f kb in
  change (fun w => w <| in_keyboards := <[k := kb']> (in_keyboards w) |>);;
  each calls (fun c => tell (keyboard_call k c)).
Definition each_keyboard (client : Z) (f : list Z -> WlKeyboard XkbState -> WlKeyboard XkbState * list KeyCall) : Act unit :=
  ks ← keyboards_of client;
  acquired ← read acquired_keys;
  each ks (on_keyboard (f acquired)).

Definition notify_focus (client : Z) : Act unit :=
  c ← read focused_client;
  if bool_decide (c = Some client) then mret tt
  else change (fun w => w <| focused_client := Some client |>);; tell (focus_on client).

Definition server_restart : Act unit :=
  c ← read focused_client;
  match c with
  | Some client => each_keyboard client (fun acquired => resync_keyboard xkb_state_new xkb_state_update_key xkb_serialize acquired)
  | None => mret tt
  end.

Definition register {A} (k : Z) (x : A) (client : Z) (m : gmap Z A) (l : gmap Z (list Z)) : gmap Z A * gmap Z (list Z) :=
  (<[k := x]> m, <[client := default [] (l !! client) ++ [k]]> l).
Definition get_pointer (client p : Z) (frames : bool) : Act unit :=
  change (fun w => let '(m, l) := register p (mkWlPointer client frames false None (Some NullCursor)) client (in_pointers w) (pointer_listeners w) in
                   w <| in_pointers := m |> <| pointer_listeners := l |>);;
  tell (pointer_bound p).
Definition get_touch (client t : Z) : Act unit :=
  change (fun w => let '(m, l) := register t (mkWlTouch client ∅ false) client (in_touches w) (touch_listeners w) in
                   w <| in_touches := m |> <| touch_listeners := l |>).
Definition release_touch (t : Z) : Act unit :=
  x ← the_touch t;
  change (fun w => w <| in_touches := delete t (in_touches w) |>
                     <| touch_listeners := alter (erase_all t) (wt_client x) (touch_listeners w) |>).
Definition get_keyboard (client k : Z) (repeat_info : bool) : Act unit :=
  keymap ← read seat_keymap;
  let '(kb, calls) := new_keyboard xkb_state_new client keymap repeat_info in
  each calls (fun c => tell (keyboard_call k c));;
  change (fun w => let '(m, l) := register k kb client (in_keyboards w) (keyboard_listeners w) in
                   w <| in_keyboards := m |> <| keyboard_listeners := l |>).
Definition release_keyboard (k : Z) : Act unit :=
  kb ← lifted (fun w => deref (in_keyboards w !! k));
  change (fun w => w <| in_keyboards := delete k (in_keyboards w) |>
                     <| keyboard_listeners := alter (erase_all k) (kb_client kb) (keyboard_listeners w) |>).

(** [ConfigObserver]: a device with a keyboard was added or changed, and the
    changes are complete. *)
Definition device_keymap (keymap : Keymap) : Act unit :=
  change (fun w => if bool_decide (keymap = seat_keymap w) then w else w <| pending_keymap := keymap |>).
Definition changes_complete : Act unit := change (fun w => w <| seat_keymap := pending_keymap w |>).

(** ** WaylandInputDispatcher *)
Definition BTN_LEFT : Z := 272.
Definition BTN_RIGHT : Z := 273.
Definition BTN_MIDDLE : Z := 274.
Definition BTN_SIDE : Z := 275.
Definition BTN_EXTRA : Z := 276.
Definition BTN_FORWARD : Z := 277.
Definition BTN_BACK : Z := 278.
Definition BTN_TASK : Z := 279.

(** The flags of [MirPointerButtons] with the codes that clients know. *)
Definition button_mapping : list (Z * Z) :=
  [(1, BTN_LEFT); (2, BTN_RIGHT); (4, BTN_MIDDLE); (8, BTN_BACK); (16, BTN_FORWARD); (32, BTN_SIDE); (128, BTN_TASK); (64, BTN_EXTRA)].
Definition changed_buttons (last event_buttons : Z) : list (Z * bool) :=
  omap (fun mapping : Z * Z =>
          if has_flag (Z.lxor event_buttons last) mapping.1 then Some (mapping.2, has_flag event_buttons mapping.1) else None)
       button_mapping.

Definition on_dispatcher (s : Z) (f : WaylandInputDispatcher -> WaylandInputDispatcher) : Act unit :=
  change (fun w => w <| dispatchers := alter f s (dispatchers w) |>).
Definition the_dispatcher (s : Z) : Act WaylandInputDispatcher := lifted (fun w => deref (dispatchers w !! s)).

Definition handle_keyboard_event (s ms : Z) (e : MirKeyboardEvent) : Act unit :=
  match k_action e with
  | mir_keyboard_action_repeat => mret tt
  | action =>
      each_keyboard (client_of s) (fun acquired =>
        keyboard_key xkb_state_new xkb_state_update_key xkb_serialize ms s (scan_code e) (bool_decide (action = mir_keyboard_action_down)) acquired)
  end.

Definition handle_pointer_button_event (s ms : Z) (e : MirPointerEvent) : Act unit :=
  d ← the_dispatcher s;
  let buttons := changed_buttons (last_pointer_buttons d) (p_buttons e) in
  (if bool_decide (buttons = []) then mret tt
   else each_pointer (client_of s) (fun p =>
          each buttons (fun b : Z * bool => pointer_button p ms b.1 b.2);;
          pointer_frame p));;
  on_dispatcher s (fun d => d <| last_pointer_buttons := p_buttons e |>).

(** The scroll distances are multiplied as [float]s. *)
Definition scroll_of (e : MirPointerEvent) : Displacement :=
  mkDisplacement (int_of_float (SFmul 24 128 (axis_hscroll e) (float_of_int 10)))
                 (int_of_float (SFmul 24 128 (axis_vscroll e) (float_of_int 10))).
Definition position_of (e : MirPointerEvent) : Point := point_of_floats (axis_x e) (axis_y e).

Definition handle_pointer_motion_event (s ms : Z) (e : MirPointerEvent) : Act unit :=
  d ← the_dispatcher s;
  let position := position_of e in
  let axis_motion := scroll_of e in
  let send_motion := negb (bool_decide (last_pointer_position d = Some position)) in
  let send_axis := negb (bool_decide (axis_motion = displacement_zero)) in
  on_dispatcher s (fun d => d <| last_pointer_position := Some position |>);;
  if send_motion || send_axis then
    each_pointer (client_of s) (fun p =>
      (if send_motion then pointer_motion p ms s position else mret tt);;
      (if send_axis then pointer_axis p ms axis_motion else mret tt);;
      pointer_frame p)
  else mret tt.

Definition handle_pointer_event (s ms : Z) (e : MirPointerEvent) : Act unit :=
  match p_action e with
  | mir_pointer_action_button_down | mir_pointer_action_button_up => handle_pointer_button_event s ms e
  | mir_pointer_action_enter =>
      each_pointer (client_of s) (fun p => pointer_enter p s (position_of e);; pointer_frame p)
  | mir_pointer_action_leave => each_pointer (client_of s) (fun p => pointer_leave p;; pointer_frame p)
  | mir_pointer_action_motion => handle_pointer_motion_event s ms e
  end.

Definition handle_contact (s ms : Z) (c : ContactState) : Act unit :=
  let position := point_of_floats (c_x c) (c_y c) in
  each_touch (client_of s) (fun t =>
    match action c with
    | mir_touch_action_down => touch_down t ms (touch_id c) s position
    | mir_touch_action_up => touch_up t ms (touch_id c)
    | mir_touch_action_change => touch_motion t ms (touch_id c) position
    end).
Definition wl_handle_touch_event (s ms : Z) (e : MirTouchEvent) : Act unit :=
  each (contacts e) (handle_contact s ms);;
  each_touch (client_of s) touch_frame.

(** [mir_input_event_has_cookie] and the time of an input event. *)
Definition has_cookie (ev : MirEvent) : bool :=
  match ev with
  | KeyEvent _ => true
  | PointerEvent e => bool_decide (p_action e = mir_pointer_action_button_up) || bool_decide (p_action e = mir_pointer_action_button_down)
  | TouchEvent e => existsb (fun c => bool_decide (action c <> mir_touch_action_change)) (contacts e)
  | NonInputEvent _ => false
  end.
Definition time_of (ev : MirEvent) : Z :=
  match ev with
  | KeyEvent e => event_time (k_header e)
  | PointerEvent e => event_time (p_header e)
  | TouchEvent e => event_time (t_header e)
  | NonInputEvent _ => 0
  end.

(** [handle_event] with [handle_input_event]; milliseconds are sent as 32 bits. *)
Definition handle_event (s : Z) (ev : MirEvent) : Act unit :=
  let ms := to_uint32 (Z.quot (time_of ev) 1000000) in
  (if has_cookie ev then on_dispatcher s (fun d => d <| wd_timestamp := time_of ev |>) else mret tt);;
  match ev with
  | KeyEvent e => handle_keyboard_event s ms e
  | PointerEvent e => handle_pointer_event s ms e
  | TouchEvent e => wl_handle_touch_event s ms e
  | NonInputEvent _ => tell (input_warning "WaylandInputDispatcher::input_consumed() got non-input event type")
  end.

Definition set_focus (s : Z) (has_focus : bool) : Act unit :=
  (if has_focus then notify_focus (client_of s) else mret tt);;
  each_keyboard (client_of s) (fun acquired => focussed xkb_state_new xkb_state_update_key xkb_serialize s has_focus acquired).

Definition dispatcher_set_keymap (s : Z) (keymap : Keymap) : Act unit :=
  each_keyboard (client_of s) (fun _ => set_keymap xkb_state_new keymap).

(** ** The requests of clients *)
(** [~WlSurface]: the flags of whoever holds one, then the destroy listeners. *)
Definition flag_cursor (s : Z) (q : WlPointer) : WlPointer :=
  match wp_cursor q with
  | Some (WlSurfaceCursor surface alive hotspot over) =>
      q <| wp_cursor := Some (WlSurfaceCursor surface (alive && negb (bool_decide (surface = s))) hotspot over) |>
  | _ => q
  end.
Definition surface_destroyed (s : Z) : Act unit :=
  change (fun w => w <| in_keyboards := keyboard_surface_gone s <$> in_keyboards w |> <| in_pointers := flag_cursor s <$> in_pointers w |>);;
  tell (surface_gone s);;
  listeners ← read (fun w => default [] (destroy_listeners w !! s));
  change (fun w => w <| destroy_listeners := delete s (destroy_listeners w) |>);;
  each listeners pointer_leave.

(** A buffer was submitted for a surface: a cursor made of it shows it. *)
Definition frame_posted (sb : Z * WlBuffer) : Act unit :=
  change (fun w => w <| in_posted := <[sb.1 := sb.2]> (in_posted w) |>);;
  pointers ← read in_pointers;
  each (map_to_list pointers).*2 (fun q =>
    match wp_cursor q with
    | Some (WlSurfaceCursor surface _ hotspot over) => if bool_decide (surface = sb.1) then apply_latest_buffer surface hotspot over else mret tt
    | _ => mret tt
    end).
Definition buffers_submitted (ev : WlEvents) : list (Z * WlBuffer) :=
  omap (fun c => match c with stream_submit s b => Some (s, b) | _ => None end) ev.1.

(** A window has its dispatcher as long as it exists. *)
Definition dispatchers_for (m : WlWorld) (ds : gmap Z WaylandInputDispatcher) : gmap Z WaylandInputDispatcher :=
  map_imap (fun s _ => Some (default new_dispatcher (ds !! s))) (windows m).

Definition client_request (req : WlRequest) : Act unit :=
  match req with
  | DestroySurface s => surface_destroyed s
  | _ => mret tt
  end;;
  r ← lifted (fun w => wl_step placed_size scene_visible scene_state default_params (in_wl w) req);
  change (fun w => w <| in_wl := r.1 |> <| dispatchers := dispatchers_for r.1 (dispatchers w) |>);;
  tell (request_events r.2);;
  each (buffers_submitted r.2) frame_posted.

(** ** Steps *)
Inductive InputStep :=
| IEvent (s : Z) (ev : MirEvent)
| IFocus (s : Z) (has_focus : bool)
| IKeymap (s : Z) (keymap : Keymap)
| IRequest (req : WlRequest)
| IGetPointer (client p : Z) (frames : bool)
| IReleasePointer (p : Z)
| ISetCursor (p : Z) (surface : option Z) (hotspot : Displacement)
| IGetTouch (client t : Z)
| IReleaseTouch (t : Z)
| IGetKeyboard (client k : Z) (repeat_info : bool)
| IReleaseKeyboard (k : Z)
| IKeys (keys : list Z)
| IDeviceKeymap (keymap : Keymap)
| IChangesComplete
| IRestart.

(** What the scene tells a window that has gone is dropped. *)
Definition unless_gone (s : Z) (a : Act unit) : Act unit :=
  known ← read (fun w => bool_decide (is_Some (windows (in_wl w) !! s)));
  if known : bool then a else mret tt.

Definition input_step (st : InputStep) : Act unit :=
  match st with
  | IEvent s ev => unless_gone s (handle_event s ev)
  | IFocus s b => unless_gone s (set_focus s b)
  | IKeymap s k => unless_gone s (dispatcher_set_keymap s k)
  | IRequest req => client_request req
  | IGetPointer client p frames => get_pointer client p frames
  | IReleasePointer p => release_pointer p
  | ISetCursor p surface hotspot => set_cursor p surface hotspot
  | IGetTouch client t => get_touch client t
  | IReleaseTouch t => release_touch t
  | IGetKeyboard client k b => get_keyboard client k b
  | IReleaseKeyboard k => release_keyboard k
  | IKeys keys => change (fun w => w <| acquired_keys := keys |>)
  | IDeviceKeymap k => device_keymap k
  | IChangesComplete => changes_complete
  | IRestart => server_restart
  end.

(** A sequence of steps.  That a surface already has a role is told to the
    client, which goes on. *)
Fixpoint input_run (steps : list InputStep) : Act unit :=
  match steps with
  | [] => mret tt
  | st :: steps => fun w =>
      match input_step st w with
      | (w1, c1, Throw e) => if bool_decide (e = already_has_a_role) then let '(w2, c2, r) := input_run steps w1 in (w2, c1 ++ c2, r) else (w1, c1, Throw e)
      | (w1, c1, Ret _) => let '(w2, c2, r) := input_run steps w1 in (w2, c1 ++ c2, r)
      end
  end.
Definition empty_input : InputWorld := mkInputWorld empty_world ∅ ∅ ∅ ∅ ∅ ∅ ∅ ∅ ∅ [] None default_keymap default_keymap.
End Input.
