(* ===== verification/WlPointers.v ===== *)
(** * Pointers of Wayland clients

    What a client is told about its pointers by the input code of [WlInput]: the
    invariant that ties the pointers, the surfaces and windows, the listeners and
    the cursors together, every operation preserving it without a failure, and
    the client's view of each pointer agreeing with the server's. *)
From S2P Require Import Prelude Geometry InputEvents WindowInfo SurfaceSpec WlSurfaces WlWindows WlClient WlKeyboards WlInput.

Section Pointers.
Context {env : InputEnv}.

(** ** What a client sees of a pointer *)
(** None before the pointer is bound and after it is gone; then the surface
    that it is on and whether something was sent since the last frame. *)
Definition PointerView : Type := option (option Z * bool).

(** How the client takes a call; none if it is out of order: an enter while the
    pointer is on a surface, a leave of another surface, a motion on no
    surface, or a frame of nothing. *)
Definition pointer_takes (p : Z) (v : PointerView) (c : InputCall) : option PointerView :=
  match c with
  | pointer_bound p' =>
      if decide (p' = p) then match v with None => Some (Some (None, false)) | Some _ => None end else Some v
  | pointer_gone p' => if decide (p' = p) then match v with Some _ => Some None | None => None end else Some v
  | send_enter p' s _ =>
      if decide (p' = p) then match v with Some (None, _) => Some (Some (Some s, true)) | _ => None end else Some v
  | send_leave p' s =>
      if decide (p' = p)
      then match v with Some (Some s', _) => if decide (s' = s) then Some (Some (None, true)) else None | _ => None end else Some v
  | send_motion p' _ _ =>
      if decide (p' = p) then match v with Some (Some s, _) => Some (Some (Some s, true)) | _ => None end else Some v
  | send_button p' _ _ _ | send_axis p' _ _ _ =>
      if decide (p' = p) then match v with Some (f, _) => Some (Some (f, true)) | _ => None end else Some v
  | send_frame p' => if decide (p' = p) then match v with Some (f, true) => Some (Some (f, false)) | _ => None end else Some v
  | _ => Some v
  end.
Fixpoint pointer_takes_all (p : Z) (v : PointerView) (calls : list InputCall) : option PointerView :=
  match calls with
  | [] => Some v
  | c :: calls => v' ← pointer_takes p v c; pointer_takes_all p v' calls
  end.

(** The view agrees with the pointer. *)
Definition shows (q : option WlPointer) (v : PointerView) : Prop :=
  match q, v with
  | None, None => True
  | Some q, Some (f, pending) => f = surface_under_cursor q /\ (can_send_frame q = true -> pending = true)
  | _, _ => False
  end.
Definition told (w : InputWorld) (calls : list InputCall) (w' : InputWorld) : Prop :=
  forall p v, shows (in_pointers w !! p) v -> exists v', pointer_takes_all p v calls = Some v' /\ shows (in_pointers w' !! p) v'.

Lemma pointer_takes_app p v a b : pointer_takes_all p v (a ++ b) = v' ← pointer_takes_all p v a; pointer_takes_all p v' b.
Proof. revert v. induction a as [|c a IH]; intros v; [done|]. cbn. destruct (pointer_takes p v c); [apply IH|done]. Qed.
Lemma told_trans w w1 w2 a b : told w a w1 -> told w1 b w2 -> told w (a ++ b) w2.
Proof.
  intros H1 H2 p v Hv. destruct (H1 p v Hv) as (v1 & E1 & Hv1). destruct (H2 p v1 Hv1) as (v2 & E2 & Hv2).
  exists v2. split; [|done]. by rewrite pointer_takes_app, E1.
Qed.
Lemma told_same w w' : in_pointers w' = in_pointers w -> told w [] w'.
Proof. intros E p v Hv. exists v. by rewrite E. Qed.

(** ** Actions that succeed *)
Definition ok {A} (a : Act A) (w : InputWorld) (Q : A -> InputWorld -> Prop) : Prop :=
  exists x w' calls, a w = (w', calls, Ret x) /\ told w calls w' /\ Q x w'.

Lemma ok_bind {A B} (a : Act A) (f : A -> Act B) w Q : ok a w (fun x w1 => ok (f x) w1 Q) -> ok (a ≫= f) w Q.
Proof.
  intros (x & w1 & c1 & E1 & T1 & y & w2 & c2 & E2 & T2 & H). exists y, w2, (c1 ++ c2).
  unfold mbind, Act_bind. rewrite E1, E2. split; [done|]. split; [by eapply told_trans|done].
Qed.
Lemma ok_mono {A} (a : Act A) w (P Q : A -> InputWorld -> Prop) : ok a w P -> (forall x w', P x w' -> Q x w') -> ok a w Q.
Proof. intros (x & w' & c & H1 & H2 & H3) H. exists x, w', c. auto. Qed.
Lemma ok_ret {A} (x : A) w (Q : A -> InputWorld -> Prop) : Q x w -> ok (mret x) w Q.
Proof. intros H. exists x, w, []. split; [done|]. split; [by apply told_same|done]. Qed.
Lemma ok_read {A} (f : InputWorld -> A) w (Q : A -> InputWorld -> Prop) : Q (f w) w -> ok (read f) w Q.
Proof. intros H. exists (f w), w, []. split; [done|]. split; [by apply told_same|done]. Qed.
Lemma ok_lifted {A} (f : InputWorld -> outcome A) x w (Q : A -> InputWorld -> Prop) : f w = Ret x -> Q x w -> ok (lifted f) w Q.
Proof. intros E H. exists x, w, []. unfold lifted. rewrite E. split; [done|]. split; [by apply told_same|done]. Qed.
Lemma ok_change f w (Q : unit -> InputWorld -> Prop) : told w [] (f w) -> Q tt (f w) -> ok (change f) w Q.
Proof. intros H1 H2. by exists tt, (f w), []. Qed.
Lemma ok_tell c w (Q : unit -> InputWorld -> Prop) : told w [c] w -> Q tt w -> ok (tell c) w Q.
Proof. intros H1 H2. by exists tt, w, [c]. Qed.
Lemma ok_each {A} (xs : list A) (f : A -> Act unit) (P : InputWorld -> Prop) w :
  (forall x w, x ∈ xs -> P w -> ok (f x) w (fun _ => P)) -> P w -> ok (each xs f) w (fun _ => P).
Proof.
  revert w. induction xs as [|x xs IH]; intros w H HP; cbn [each]; [by apply ok_ret|].
  apply ok_bind. eapply ok_mono; [apply H; [by left|done]|]. intros [] w' HP'. apply IH; [|done]. intros y w'' Hy. apply H. by right.
Qed.

(** Calls that say nothing of pointers. *)
Definition silent (c : InputCall) : Prop := forall p v, pointer_takes p v c = Some v.
Lemma told_silent w c : silent c -> told w [c] w.
Proof. intros H p v Hv. exists v. cbn. by rewrite H. Qed.

(** A call about the pointer [p], which changes from [q] to [q']. *)
Lemma told_at w c w' p q q' :
  in_pointers w !! p = Some q -> in_pointers w' !! p = Some q' -> (forall d, d <> p -> in_pointers w' !! d = in_pointers w !! d) ->
  (forall d v, d <> p -> pointer_takes d v c = Some v) ->
  (forall v, shows (Some q) v -> exists v', pointer_takes p v c = Some v' /\ shows (Some q') v') ->
  told w [c] w'.
Proof.
  intros Hq Hq' Hsame Hother Hp d v Hv. cbn. destruct (decide (d = p)) as [->|Hd].
  - rewrite Hq in Hv. destruct (Hp v Hv) as (v' & E & Hv'). exists v'. rewrite E, Hq'. done.
  - exists v. by rewrite Hother, Hsame.
Qed.

(** ** Surfaces whose ancestors all exist *)
Inductive grounded (o : WlObjects) : Z -> Prop :=
| grounded_root s su : wl_surfaces o !! s = Some su -> wl_role su <> subsurface_role -> grounded o s
| grounded_below s su sub : wl_surfaces o !! s = Some su -> wl_role su = subsurface_role -> wl_subsurfaces o !! s = Some sub ->
    grounded o (sub_parent sub) -> grounded o s.

Lemma grounded_known o s : grounded o s -> is_Some (wl_surfaces o !! s).
Proof. intros [? su E _|? su ? E _ _ _]; by exists su. Qed.
Lemma grounded_child o p c : WlInv o -> wl_child o p c -> grounded o p -> grounded o c.
Proof. intros Ho Hc Hp. destruct (wi_children o Ho p c Hc) as (cu & sub & H1 & H2 & H3 & <-). by eapply grounded_below. Qed.
Lemma grounded_tree o p c : WlInv o -> rtc (wl_child o) p c -> grounded o p -> grounded o c.
Proof. intros Ho. induction 1 as [|p d c Hd _ IH]; [done|]. intros Hp. by eapply IH, grounded_child. Qed.
Lemma grounded_window o s : is_window o s -> grounded o s.
Proof. intros (su & Hs & Hr)%fmap_Some. eapply grounded_root; [done|]. by rewrite <- Hr. Qed.

(** Every surface, when every parent exists. *)
Lemma anchored_grounded o s : WlInv o -> anchored o -> is_Some (wl_surfaces o !! s) -> grounded o s.
Proof.
  intros Ho Ha Hs. apply (chain_induction o (fun _ s => grounded o s) Ho) with (fuel := size (wl_surfaces o)); [|done|done].
  intros _ d su Hd Hp. destruct (decide (wl_role su = subsurface_role)) as [Hr|]; [|by eapply grounded_root].
  destruct (wi_roles o Ho d su Hd Hr) as [sub Hsub]. eapply grounded_below; [done..|]. apply Hp. by apply (wi_subs o Ho d sub Hsub), (Ha d).
Qed.

Lemma grounded_up o (P : nat -> Z -> Prop) : WlInv o ->
  (forall f s su, wl_surfaces o !! s = Some su -> wl_role su <> subsurface_role -> P (S f) s) ->
  (forall f s su sub, wl_surfaces o !! s = Some su -> wl_role su = subsurface_role -> wl_subsurfaces o !! s = Some sub ->
     P f (sub_parent sub) -> P (S f) s) ->
  forall s, grounded o s -> P (wl_fuel o) s.
Proof.
  intros Ho Hroot Hsub s Hg. cut (forall fuel s, is_Some (wl_surfaces o !! s) -> (size (wl_surfaces o) <= fuel)%nat -> grounded o s -> P fuel s).
  { intros H. apply H; [by apply grounded_known|unfold wl_fuel; lia|done]. }
  apply (chain_induction o (fun f s => grounded o s -> P f s) Ho). clear s Hg. intros f s su Hs IH Hg.
  destruct Hg as [s su' Hs' Hr|s su' sub Hs' Hr Hsu Hp]; [by eapply Hroot|].
  eapply Hsub; [done..|]. apply IH; [|done]. apply (wi_subs o Ho s sub Hsu). by apply grounded_known.
Qed.

Lemma grounded_scene m s : WlInv (objects m) -> grounded (objects m) s -> returns (scene_surface (wl_fuel (objects m)) m s).
Proof.
  intros Ho. apply (grounded_up (objects m) (fun f s => returns (scene_surface f m s)) Ho).
  - intros f d su Hs Hr. cbn [scene_surface]. rewrite Hs. destruct (wl_role su); done || by eexists.
  - intros f d su sub Hs Hr Hsu H. cbn [scene_surface]. by rewrite Hs, Hr, Hsu.
Qed.
Lemma grounded_offset o s : WlInv o -> grounded o s -> returns (total_offset (wl_fuel o) o s).
Proof.
  intros Ho. apply (grounded_up o (fun f s => returns (total_offset f o s)) Ho).
  - intros f d su Hs Hr. cbn [total_offset]. rewrite Hs. destruct (wl_role su); done || by eexists.
  - intros f d su sub Hs Hr Hsu [x H]. cbn [total_offset]. rewrite Hs, Hr, Hsu, H. by eexists.
Qed.

(** A hit test finds a surface of the tree. *)
Lemma hit_below o s pt : WlInv o -> is_Some (wl_surfaces o !! s) ->
  exists f, transform_point (wl_fuel o) o s pt = Ret f /\ rtc (wl_child o) s (pos_surface f).
Proof.
  intros Ho Hs. revert pt. apply (tree_induction o (fun fuel s => forall pt, exists f, transform_point fuel o s pt = Ret f /\
    rtc (wl_child o) s (pos_surface f)) Ho); [|done|unfold wl_fuel; lia].
  intros fuel d su Hd IH pt. cbn [transform_point]. rewrite Hd. cbv zeta.
  assert (H : exists r, first_hit (fun c => transform_point fuel o c (point_sub_disp pt (offset_ su))) (reverse (wl_children su)) = Ret r /\
     forall f, r = Some f -> rtc (wl_child o) d (pos_surface f)).
  { assert (Hc : forall c, c ∈ reverse (wl_children su) -> c ∈ wl_children su) by (intros c; by rewrite elem_of_reverse).
    induction (reverse (wl_children su)) as [|c cs IHc]; [by exists None|]. cbn [first_hit].
    destruct (IH c (Hc c ltac:(set_solver)) (point_sub_disp pt (offset_ su))) as (f & -> & Hf). cbn [mbind outcome_bind].
    destruct (is_in_input_region f); [|apply IHc; set_solver]. exists (Some f). split; [done|]. intros ? [= <-].
    eapply rtc_l; [|exact Hf]. exists su. split; [done|]. apply Hc. set_solver. }
  destruct H as (r & -> & Hr). cbn [mbind outcome_bind]. destruct r as [f|]; [by exists f; auto|]. by eexists.
Qed.

(** ** The invariant *)
Definition cursor_core (c : Cursor) : option (Z * bool) := match c with WlSurfaceCursor s a _ _ => Some (s, a) | _ => None end.
Definition pointer_core (q : WlPointer) : Z * option Z * option (option (Z * bool)) :=
  (wp_client q, surface_under_cursor q, cursor_core <$> wp_cursor q).
Definition listeners (l : gmap Z (list Z)) (k : Z) : list Z := default [] (l !! k).

(** The pointers know where they are and are told when the surface goes, except
    those on the surface [but], which is being destroyed; every device that is
    listed exists; each cursor has its surface for itself. *)
Record InputInv (but : option Z) (w : InputWorld) : Prop := {
  iv_wl : WorldInv (in_wl w);
  iv_under : forall p q s, in_pointers w !! p = Some q -> surface_under_cursor q = Some s ->
    is_Some (wl_surfaces (in_objects w) !! s) /\ (but = Some s \/ p ∈ listeners (destroy_listeners w) s);
  iv_listen : forall s p, p ∈ listeners (destroy_listeners w) s -> exists q, in_pointers w !! p = Some q /\ surface_under_cursor q = Some s;
  iv_pointers : forall c p, p ∈ listeners (pointer_listeners w) c -> exists q, in_pointers w !! p = Some q /\ wp_client q = c;
  iv_touches : forall c t, t ∈ listeners (touch_listeners w) c -> (wt_client <$> in_touches w !! t) = Some c;
  iv_keyboards : forall c k, k ∈ listeners (keyboard_listeners w) c -> (kb_client <$> in_keyboards w !! k) = Some c;
  iv_cursor : forall p q, in_pointers w !! p = Some q -> is_Some (wp_cursor q);
  iv_role : forall p q s, in_pointers w !! p = Some q -> (cursor_core <$> wp_cursor q) = Some (Some (s, true)) -> is_cursor (in_objects w) s;
  iv_unique : forall p p' q q' s, in_pointers w !! p = Some q -> in_pointers w !! p' = Some q' ->
    (cursor_core <$> wp_cursor q) = Some (Some (s, true)) -> (cursor_core <$> wp_cursor q') = Some (Some (s, true)) -> p = p';
  iv_posted : forall p q s a b, in_pointers w !! p = Some q -> (cursor_core <$> wp_cursor q) = Some (Some (s, a)) ->
    in_posted w !! s = Some b -> readable b = true;
  iv_dispatchers : forall s, is_Some (windows (in_wl w) !! s) -> is_Some (dispatchers w !! s);
  iv_nodup : forall c, NoDup (listeners (pointer_listeners w) c);
  iv_anchored : anchored (in_objects w)
}.

(** Changes that do not matter for it. *)
Record alike (w w' : InputWorld) : Prop := {
  al_wl : in_wl w' = in_wl w;
  al_pointers : pointer_core <$> in_pointers w' = pointer_core <$> in_pointers w;
  al_destroy : destroy_listeners w' = destroy_listeners w;
  al_pointer_listeners : pointer_listeners w' = pointer_listeners w;
  al_touch_listeners : touch_listeners w' = touch_listeners w;
  al_keyboard_listeners : keyboard_listeners w' = keyboard_listeners w;
  al_touches : forall t, (wt_client <$> in_touches w' !! t) = (wt_client <$> in_touches w !! t);
  al_keyboards : forall k, (kb_client <$> in_keyboards w' !! k) = (kb_client <$> in_keyboards w !! k);
  al_posted : in_posted w' = in_posted w;
  al_dispatchers : forall s, is_Some (dispatchers w' !! s) <-> is_Some (dispatchers w !! s)
}.
#[global] Instance alike_refl : Reflexive alike.
Proof. by intros w; split. Qed.
#[global] Instance alike_trans : Transitive alike.
Proof.
  intros w1 w2 w3 [] []. split; try (by etrans); intros; etrans; eauto.
Qed.

Lemma alike_pointer w w' p q' : alike w w' -> in_pointers w' !! p = Some q' ->
  exists q, in_pointers w !! p = Some q /\ wp_client q = wp_client q' /\ surface_under_cursor q = surface_under_cursor q' /\
    (cursor_core <$> wp_cursor q) = (cursor_core <$> wp_cursor q').
Proof.
  intros [_ H _ _ _ _ _ _ _ _] Hq. apply (f_equal (.!! p)) in H. rewrite !lookup_fmap, Hq in H. cbn in H.
  destruct (in_pointers w !! p) as [q|]; [|done]. exists q. split; [done|]. injection H as H1 H2 H3. done.
Qed.
Lemma alike_known w w' p : alike w w' -> is_Some (in_pointers w' !! p) <-> is_Some (in_pointers w !! p).
Proof.
  intros [_ H _ _ _ _ _ _ _ _]. apply (f_equal (.!! p)) in H. rewrite !lookup_fmap in H.
  destruct (in_pointers w' !! p), (in_pointers w !! p); cbn in H; try done; split; eauto.
Qed.
Lemma alike_pointer_back w w' p q : alike w w' -> in_pointers w !! p = Some q ->
  exists q', in_pointers w' !! p = Some q' /\ wp_client q' = wp_client q /\ surface_under_cursor q' = surface_under_cursor q /\ (cursor_core <$> wp_cursor q') = (cursor_core <$> wp_cursor q).
Proof.
  intros Ha Hq. destruct (proj2 (alike_known w w' p Ha)) as [q' Hq']; [by exists q|]. exists q'. split; [done|].
  destruct (alike_pointer w w' p q' Ha Hq') as (q0 & H0 & H1 & H2 & H3). rewrite Hq in H0. by injection H0 as <-.
Qed.

Lemma alike_inv but w w' : alike w w' -> InputInv but w -> InputInv but w'.
Proof.
  intros Ha [H1 H2 H3 H4 H5 H6 H7 H8 H9 H10 H11 H12 H13]. pose proof Ha as [A1 A2 A3 A4 A5 A6 A7 A8 A9 A10]. unfold in_objects in *.
  split; unfold in_objects; rewrite ?A1, ?A3, ?A4, ?A5, ?A6, ?A9.
  - done.
  - intros p q' s Hq Hs. destruct (alike_pointer w w' p q' Ha Hq) as (q & Hq0 & _ & E & _). eapply H2; [done|congruence].
  - intros s p Hp. destruct (H3 s p Hp) as (q & Hq & Hs). destruct (alike_pointer_back w w' p q Ha Hq) as (q' & ? & _ & ? & _).
    exists q'. split; [done|congruence].
  - intros c p Hp. destruct (H4 c p Hp) as (q & Hq & Hcl). destruct (alike_pointer_back w w' p q Ha Hq) as (q' & ? & ? & _).
    exists q'. split; [done|congruence].
  - intros c t Ht. rewrite A7. eauto.
  - intros c k Hk. rewrite A8. eauto.
  - intros p q' Hq. destruct (alike_pointer w w' p q' Ha Hq) as (q & Hq0 & _ & _ & E). destruct (H7 p q Hq0) as [c Hc].
    rewrite Hc in E. destruct (wp_cursor q'); [by eexists|done].
  - intros p q' s Hq Hc. destruct (alike_pointer w w' p q' Ha Hq) as (q & Hq0 & _ & _ & E). eapply H8; [done|by rewrite E].
  - intros p p' q' q'' s Hq Hq' Hc Hc'. destruct (alike_pointer w w' p q' Ha Hq) as (q & Hq0 & _ & _ & E).
    destruct (alike_pointer w w' p' q'' Ha Hq') as (q1 & Hq1 & _ & _ & E'). eapply H9; [exact Hq0|exact Hq1|by rewrite E|by rewrite E'].
  - intros p q' s a b Hq Hc. destruct (alike_pointer w w' p q' Ha Hq) as (q & Hq0 & _ & _ & E). eapply H10; [done|by rewrite E].
  - intros s Hs. apply A10. auto.
  - done.
  - done.
Qed.

(** ** Operations that leave the pointers where they are *)
Lemma core_alter f p (ps : gmap Z WlPointer) :
  (forall q, pointer_core (f q) = pointer_core q) -> pointer_core <$> alter f p ps = pointer_core <$> ps.
Proof.
  intros Hf. apply map_eq. intros d. rewrite !lookup_fmap. destruct (decide (d = p)) as [->|]; [|by rewrite lookup_alter_ne].
  rewrite lookup_alter_eq. destruct (ps !! p); [cbn; by rewrite Hf|done].
Qed.
Lemma on_pointer_alike f p w : (forall q, pointer_core (f q) = pointer_core q) -> alike w (w <| in_pointers := alter f p (in_pointers w) |>).
Proof. intros Hf. split; try done. by apply core_alter. Qed.

(** The view of a pointer does not change. *)
Definition quiet (f : WlPointer -> WlPointer) : Prop :=
  forall q, surface_under_cursor (f q) = surface_under_cursor q /\ can_send_frame (f q) = can_send_frame q.
Lemma told_quiet (w w' : InputWorld) f p : in_pointers w' = alter f p (in_pointers w) -> quiet f -> told w [] w'.
Proof.
  intros E Hf d v Hv. exists v. split; [done|]. rewrite E. destruct (decide (d = p)) as [->|]; [|by rewrite lookup_alter_ne].
  rewrite lookup_alter_eq. destruct (in_pointers w !! p) as [q|]; [|done]. destruct (Hf q) as [H1 H2]. cbn in *.
  destruct v as [[]|]; [|done]. by rewrite H1, H2.
Qed.
Lemma ok_on_pointer f p w (Q : unit -> InputWorld -> Prop) : quiet f -> Q tt (w <| in_pointers := alter f p (in_pointers w) |>) -> ok (on_pointer p f) w Q.
Proof. intros Hf HQ. apply ok_change; [|done]. by eapply told_quiet. Qed.

(** Something is sent on the pointer [p], and the frame will follow. *)
Lemma send_ok c p w q f :
  in_pointers w !! p = Some q -> (forall d v, d <> p -> pointer_takes d v c = Some v) ->
  (forall v, shows (Some q) v -> exists v', pointer_takes p v c = Some v' /\ shows (Some (f q)) v') ->
  (forall q, pointer_core (f q) = pointer_core q) ->
  ok (tell c;; on_pointer p f) w (fun _ w' => alike w w').
Proof.
  intros Hq Hother Hp Hf. exists tt, (w <| in_pointers := alter f p (in_pointers w) |>), [c]. split; [done|]. split.
  - eapply told_at; [exact Hq| | |exact Hother|exact Hp]; cbn; [by rewrite lookup_alter_eq, Hq|]. intros d Hd. by rewrite lookup_alter_ne.
  - by apply on_pointer_alike.
Qed.
Ltac others := let d := fresh in let v := fresh in let H := fresh in intros d v H; cbn; rewrite decide_False by congruence; reflexivity.

Lemma pointer_button_ok p ms b x w : is_Some (in_pointers w !! p) -> ok (pointer_button p ms b x) w (fun _ w' => alike w w').
Proof.
  intros [q Hq]. apply (send_ok _ p w q); [done|others| |done]. intros [[f pend]|] Hv; [|done]. eexists. cbn. rewrite decide_True by done.
  split; [done|]. cbn in *. naive_solver.
Qed.
Lemma pointer_axis_ok p ms d w : is_Some (in_pointers w !! p) -> ok (pointer_axis p ms d) w (fun _ w' => alike w w').
Proof.
  intros Hq. unfold pointer_axis.
  assert (H : forall w c (P : Prop) (HP : Decision P), is_Some (in_pointers w !! p) -> (forall v, pointer_takes p v c =
      match v with Some (f, _) => Some (Some (f, true)) | _ => None end) -> (forall d v, d <> p -> pointer_takes d v c = Some v) ->
    ok (if bool_decide P then tell c;; on_pointer p (fun q => q <| can_send_frame := true |>) else mret tt) w (fun _ w' => alike w w')).
  { intros w0 c P HP [q Hq0] Hc Ho. case_bool_decide; [|by apply ok_ret]. apply (send_ok _ p w0 q); [done|done| |done].
    intros [[f pend]|] Hv; [|done]. eexists. rewrite Hc. split; [done|]. cbn in *. naive_solver. }
  apply ok_bind. eapply ok_mono; [apply H; [done| |others]|].
  { intros v. cbn. by rewrite decide_True. }
  intros [] w1 H1. eapply ok_mono; [apply H; [by apply (alike_known w)| |others]|].
  { intros v. cbn. by rewrite decide_True. }
  intros [] w2 H2. by etrans.
Qed.
Lemma pointer_frame_ok p w : is_Some (in_pointers w !! p) -> ok (pointer_frame p) w (fun _ w' => alike w w').
Proof.
  intros [q Hq]. unfold pointer_frame. apply ok_bind. eapply ok_lifted; [unfold deref; by rewrite Hq|].
  destruct (can_send_frame q && wp_frames q) eqn:E.
  - apply andb_true_iff in E as [E _]. apply (send_ok _ p w q); [done|others| |done]. intros [[f pend]|] Hv; [|done]. cbn in Hv.
    destruct Hv as [-> Hv]. rewrite (Hv E). eexists. cbn. rewrite decide_True by done. by split.
  - apply ok_bind, ok_ret. apply ok_change; [|by apply on_pointer_alike]. intros d v Hv. exists v. split; [done|]. cbn.
    destruct (decide (d = p)) as [->|]; [|by rewrite lookup_alter_ne]. rewrite lookup_alter_eq, Hq. rewrite Hq in Hv.
    destruct v as [[]|]; cbn in *; naive_solver.
Qed.

(** *** The cursor *)
Lemma apply_latest_buffer_ok surface hotspot over w :
  (forall b, in_posted w !! surface = Some b -> readable b = true) -> ok (apply_latest_buffer surface hotspot over) w (fun _ w' => w' = w).
Proof.
  intros Hb. unfold apply_latest_buffer. destruct over as [window|]; [|by apply ok_ret]. apply ok_bind, ok_read.
  destruct (scene_alive w window); [|by apply ok_ret]. apply ok_bind, ok_read.
  destruct (in_posted w !! surface) as [b|]; [rewrite (Hb b eq_refl)|]; (apply ok_tell; [by apply told_silent|done]).
Qed.

Lemma the_pointer_ok p q w (Q : WlPointer -> InputWorld -> Prop) : in_pointers w !! p = Some q -> Q q w -> ok (the_pointer p) w Q.
Proof. intros Hq. apply ok_lifted. by rewrite Hq. Qed.

Lemma scene_of_ok s w (Q : option Z -> InputWorld -> Prop) :
  returns (scene_surface (wl_fuel (in_objects w)) (in_wl w) s) -> (forall x, Q x w) -> ok (scene_of s) w Q.
Proof. intros [x E] H. by eapply ok_lifted. Qed.

Lemma cursor_apply_to_ok but p s w : InputInv but w -> is_Some (in_pointers w !! p) ->
  returns (scene_surface (wl_fuel (in_objects w)) (in_wl w) s) -> ok (cursor_apply_to p s) w (fun _ w' => alike w w').
Proof.
  intros Hi [q Hq] Hs. unfold cursor_apply_to. apply ok_bind. apply (the_pointer_ok p q); [done|].
  destruct (iv_cursor but w Hi p q Hq) as [c Hc]. rewrite Hc. destruct c as [| |surface alive hotspot over0]; [by apply ok_ret| |].
  - apply ok_bind, scene_of_ok; [done|]. intros [window|]; [|by apply ok_ret]. apply ok_tell; [by apply told_silent|done].
  - apply ok_bind, scene_of_ok; [done|]. intros over. apply ok_bind.
    set (f := fun q : WlPointer => q <| wp_cursor := Some (WlSurfaceCursor surface alive hotspot over) |>).
    assert (Ha : alike w (w <| in_pointers := alter f p (in_pointers w) |>)).
    { split; try done. cbn. apply map_eq. intros d. rewrite !lookup_fmap. destruct (decide (d = p)) as [->|]; [|by rewrite lookup_alter_ne].
      rewrite lookup_alter_eq, Hq. cbn. unfold pointer_core. by rewrite Hc. }
    apply ok_on_pointer; [done|]. eapply ok_mono; [apply apply_latest_buffer_ok|by intros [] w' ->].
    intros b Hb. apply (iv_posted but w Hi p q surface alive b Hq); [by rewrite Hc|done].
Qed.

(** ** Pointers move *)
(** What is left alone when pointers enter and leave. *)
Record stays (w w' : InputWorld) : Prop := {
  sy_wl : in_wl w' = in_wl w;
  sy_pointers : forall p, is_Some (in_pointers w' !! p) <-> is_Some (in_pointers w !! p);
  sy_listeners : pointer_listeners w' = pointer_listeners w;
  sy_dispatchers : forall s, is_Some (dispatchers w' !! s) <-> is_Some (dispatchers w !! s);
  sy_cursors : forall p, (cursor_core ∘ default NullCursor ∘ wp_cursor <$> in_pointers w' !! p) = (cursor_core ∘ default NullCursor ∘ wp_cursor <$> in_pointers w !! p);
  sy_posted : in_posted w' = in_posted w
}.
#[global] Instance stays_refl : Reflexive stays.
Proof. by intros w; split. Qed.
#[global] Instance stays_trans : Transitive stays.
Proof. intros w1 w2 w3 [] []. split; try (by etrans); intros; etrans; eauto. Qed.
Lemma alike_stays w w' : alike w w' -> stays w w'.
Proof.
  intros Ha. split; [apply Ha|by intros p; apply alike_known|apply Ha|apply Ha| |apply Ha]. intros p.
  pose proof (alike_known w w' p Ha) as Hk. destruct (in_pointers w' !! p) as [q'|] eqn:E.
  - destruct (alike_pointer w w' p q' Ha E) as (q & -> & _ & _ & Hc). cbn. destruct (wp_cursor q), (wp_cursor q'); cbn in *; congruence.
  - destruct (in_pointers w !! p); [|done]. destruct (proj2 Hk) as [? ?]; [by eexists|done].
Qed.

(** The pointer [p] changes its place and nothing else. *)
Definition placed (p : Z) (place : option Z) (w w' : InputWorld) : Prop :=
  (exists q', in_pointers w' !! p = Some q' /\ surface_under_cursor q' = place) /\
  forall d, d <> p -> in_pointers w' !! d = in_pointers w !! d.

Lemma elem_of_listeners_insert l s s' (x : list Z) p : p ∈ listeners (<[s := x]> l) s' <-> if decide (s' = s) then p ∈ x else p ∈ listeners l s'.
Proof.
  unfold listeners. case_decide as E; [subst; by rewrite lookup_insert_eq|by rewrite lookup_insert_ne].
Qed.
Lemma elem_of_listeners_erase l s s' p x : x ∈ listeners (alter (erase_all p) s l) s' <-> x ∈ listeners l s' /\ ~ (s' = s /\ x = p).
Proof.
  unfold listeners. destruct (decide (s' = s)) as [->|]; [|rewrite lookup_alter_ne by done; naive_solver].
  rewrite lookup_alter_eq. destruct (l !! s) as [xs|]; cbn; [rewrite elem_of_erase_all; naive_solver|].
  split; [intros H; by apply not_elem_of_nil in H|intros [H _]; by apply not_elem_of_nil in H].
Qed.

(** The pointer [p] is put on a surface or taken off, with its listener. *)
Lemma place_inv but w p q q' dl place :
  InputInv but w -> in_pointers w !! p = Some q -> (cursor_core <$> wp_cursor q') = (cursor_core <$> wp_cursor q) ->
  wp_client q' = wp_client q -> surface_under_cursor q' = place ->
  (forall s, place = Some s -> is_Some (wl_surfaces (in_objects w) !! s)) ->
  (forall s x, x ∈ listeners dl s <-> if decide (x = p) then place = Some s else x ∈ listeners (destroy_listeners w) s) ->
  InputInv but (w <| in_pointers := <[p := q']> (in_pointers w) |> <| destroy_listeners := dl |>).
Proof.
  intros Hi Hq Hc Hcl Hpl Hs Hdl. pose proof Hi as [H1 H2 H3 H4 H5 H6 H7 H8 H9 H10 H11 H12 H13].
  assert (Hlook : forall d x, (<[p := q']> (in_pointers w)) !! d = Some x -> (d = p /\ x = q') \/ (d <> p /\ in_pointers w !! d = Some x)).
  { intros d x. destruct (decide (d = p)) as [->|]; [rewrite lookup_insert_eq|rewrite lookup_insert_ne by done]; naive_solver. }
  assert (Hcore : forall d x, (<[p := q']> (in_pointers w)) !! d = Some x ->
    exists y, in_pointers w !! d = Some y /\ (cursor_core <$> wp_cursor x) = (cursor_core <$> wp_cursor y)).
  { intros d x [[-> ->]|[_ Hx]]%Hlook; eauto. }
  split; cbn; unfold in_objects in *; cbn; try done.
  - intros d x s [[-> ->]|[Hd Hx]]%Hlook Hu.
    + rewrite Hpl in Hu. split; [by apply Hs|]. right. apply Hdl. by rewrite decide_True.
    + destruct (H2 d x s Hx Hu) as [Ha [Hb|Hb]]; split; [done|by left|done|right]. apply Hdl. by rewrite decide_False.
  - intros s x Hx. apply Hdl in Hx. case_decide as E; [subst x; exists q'; by rewrite lookup_insert_eq, Hpl|].
    rewrite lookup_insert_ne by done. by apply H3.
  - intros c x Hx. destruct (decide (x = p)) as [->|]; [rewrite lookup_insert_eq|rewrite lookup_insert_ne by done; eauto].
    destruct (H4 c p Hx) as (q0 & Hq0 & <-). rewrite Hq in Hq0. injection Hq0 as <-. eauto.
  - intros d x Hx. destruct (Hcore d x Hx) as (y & Hy & E). destruct (H7 d y Hy) as [c Hcy]. rewrite Hcy in E. destruct (wp_cursor x); [by eexists|done].
  - intros d x s Hx Hcx. destruct (Hcore d x Hx) as (y & Hy & E). eapply H8; [done|by rewrite <- E].
  - intros d d' x x' s Hx Hx' Hcx Hcx'. destruct (Hcore d x Hx) as (y & Hy & E). destruct (Hcore d' x' Hx') as (y' & Hy' & E').
    eapply H9; [exact Hy|exact Hy'|by rewrite <- E|by rewrite <- E'].
  - intros d x s a b Hx Hcx. destruct (Hcore d x Hx) as (y & Hy & E). eapply H10; [done|by rewrite <- E].
Qed.

Lemma stays_insert w p q q' dl : in_pointers w !! p = Some q -> (cursor_core <$> wp_cursor q') = (cursor_core <$> wp_cursor q) ->
  stays w (w <| in_pointers := <[p := q']> (in_pointers w) |> <| destroy_listeners := dl |>).
Proof.
  intros Hq Hc. split; try done; cbn; intros d.
  - destruct (decide (d = p)) as [->|]; [rewrite lookup_insert_eq, Hq; split; eauto|by rewrite lookup_insert_ne].
  - destruct (decide (d = p)) as [->|]; [|by rewrite lookup_insert_ne]. rewrite lookup_insert_eq, Hq. cbn.
    destruct (wp_cursor q), (wp_cursor q'); cbn in *; congruence.
Qed.

Lemma pointer_leave_ok but p w : InputInv but w -> is_Some (in_pointers w !! p) ->
  ok (pointer_leave p) w (fun _ w' => InputInv but w' /\ stays w w' /\ placed p None w w').
Proof.
  intros Hi [q Hq]. unfold pointer_leave. apply ok_bind. apply (the_pointer_ok p q); [done|].
  destruct (surface_under_cursor q) as [s|] eqn:Eu; [|apply ok_ret; split; [done|]; split; [done|]; split; [by exists q|done]].
  destruct (iv_under but w Hi p q s Hq Eu) as [[su Hs] _]. apply ok_bind. eapply ok_lifted; [by rewrite Hs|].
  set (f := fun q : WlPointer => q <| can_send_frame := true |> <| surface_under_cursor := None |>).
  set (dl := alter (erase_all p) s (destroy_listeners w)).
  exists tt, (w <| in_pointers := <[p := f q]> (in_pointers w) |> <| destroy_listeners := dl |>), [send_leave p s]. split; [|split].
  - unfold unlisten, on_pointer, change, tell, mbind, Act_bind. cbn. by rewrite (alter_known f p _ q Hq).
  - eapply (told_at _ _ _ p q (f q)); [done|cbn; by rewrite lookup_insert_eq| |others|].
    + intros d Hd. cbn. by rewrite lookup_insert_ne.
    + intros [[g pend]|] Hv; [|done]. destruct Hv as [-> Hv]. cbn. rewrite decide_True, Eu, decide_True by done. eexists. split; [done|]. by cbn.
  - split; [|split; [by apply (stays_insert w p q)|]].
    + apply (place_inv but w p q (f q) dl None); [done..|]. intros s' x. unfold dl. rewrite elem_of_listeners_erase.
      case_decide as E; [|naive_solver]. subst x. split; [|done]. intros [Hx Hn].
      destruct (iv_listen but w Hi s' p Hx) as (q0 & Hq0 & Hu0). exfalso. apply Hn. split; [congruence|done].
    + split; [exists (f q); cbn; by rewrite lookup_insert_eq|]. intros d Hd. cbn. by rewrite lookup_insert_ne.
Qed.

Lemma hit_ok s pt w (Q : Position -> InputWorld -> Prop) : WlInv (in_objects w) -> grounded (in_objects w) s ->
  (forall f, transform_point (wl_fuel (in_objects w)) (in_objects w) s pt = Ret f -> grounded (in_objects w) (pos_surface f) -> Q f w) ->
  ok (hit s pt) w Q.
Proof.
  intros Ho Hg HQ. destruct (hit_below (in_objects w) s pt Ho (grounded_known _ _ Hg)) as (f & E & Hf). eapply ok_lifted; [exact E|].
  apply HQ; [done|]. by eapply grounded_tree.
Qed.

(** The pointer is on no surface and enters one of the tree of [s]. *)
Lemma pointer_enter_ok p s pt w q : InputInv None w -> in_pointers w !! p = Some q -> surface_under_cursor q = None ->
  grounded (in_objects w) s ->
  ok (pointer_enter p s pt) w (fun _ w' => InputInv None w' /\ stays w w' /\ forall d, d <> p -> (surface_under_cursor <$> in_pointers w' !! d) = (surface_under_cursor <$> in_pointers w !! d)).
Proof.
  intros Hi Hq Hu Hg. pose proof (wd_objects _ (iv_wl _ _ Hi)) as Ho. unfold pointer_enter. apply ok_bind, hit_ok; [done..|]. intros final _ Hf.
  apply ok_bind. eapply ok_mono; [apply (cursor_apply_to_ok None); [done|by exists q|by apply grounded_scene]|].
  intros [] w1 Ha. pose proof (alike_inv None w w1 Ha Hi) as Hi1. destruct (alike_pointer_back w w1 p q Ha Hq) as (q1 & Hq1 & _ & Hu1 & _).
  rewrite Hu in Hu1. set (s' := pos_surface final) in *.
  set (q2 := q1 <| can_send_frame := true |> <| surface_under_cursor := Some s' |>).
  set (dl := <[s' := p :: erase_all p (listeners (destroy_listeners w1) s')]> (destroy_listeners w1)).
  exists tt, (w1 <| in_pointers := <[p := q2]> (in_pointers w1) |> <| destroy_listeners := dl |>), [send_enter p s' (position final)].
  split; [|split].
  - unfold listen, on_pointer, change, tell, mbind, Act_bind. cbn. f_equal. f_equal. f_equal.
    rewrite (alter_known _ p (in_pointers w1) q1 Hq1). rewrite (alter_known _ p _ (q1 <| can_send_frame := true |>)) by (by rewrite lookup_insert_eq).
    by rewrite insert_insert_eq.
  - eapply (told_at _ _ _ p q1 q2); [done|cbn; by rewrite lookup_insert_eq| |others|].
    + intros d Hd. cbn. by rewrite lookup_insert_ne.
    + intros [[g pend]|] Hv; [|done]. destruct Hv as [-> Hv]. cbn. rewrite decide_True, Hu1 by done. eexists. split; [done|]. by cbn.
  - split; [|split].
    + apply (place_inv None w1 p q1 q2 dl (Some s')); [done..| |].
      * intros x [= <-]. unfold in_objects in *. rewrite (al_wl _ _ Ha). by apply grounded_known.
      * intros x d. unfold dl. rewrite elem_of_listeners_insert. case_decide as E1; case_decide as E2.
        -- subst. split; [done|by left].
        -- subst. rewrite elem_of_cons, elem_of_erase_all. naive_solver.
        -- subst d. split; [|congruence]. intros Hx. destruct (iv_listen None w1 Hi1 x p Hx) as (? & ? & ?). congruence.
        -- done.
    + etrans; [by apply alike_stays|]. by apply (stays_insert w1 p q1).
    + intros d Hd. cbn. rewrite lookup_insert_ne by done. pose proof (alike_known w w1 d Ha) as Hk.
      destruct (in_pointers w1 !! d) as [qd|] eqn:E; [destruct (alike_pointer w w1 d qd Ha E) as (q0 & E0 & _ & E1 & _); rewrite E0; cbn; by rewrite E1|].
      destruct (in_pointers w !! d); [|done]. destruct (proj2 Hk) as [? ?]; [by eexists|done].
Qed.

Lemma pointer_motion_ok p ms s pt w : InputInv None w -> is_Some (in_pointers w !! p) -> grounded (in_objects w) s ->
  ok (pointer_motion p ms s pt) w (fun _ w' => InputInv None w' /\ stays w w').
Proof.
  intros Hi [q Hq] Hg. pose proof (wd_objects _ (iv_wl _ _ Hi)) as Ho. unfold pointer_motion. apply ok_bind, hit_ok; [done..|]. intros final _ Hf.
  apply ok_bind. apply (the_pointer_ok p q); [done|]. case_bool_decide as E.
  - eapply ok_mono; [apply (send_ok _ p w q); [done|others| |done]|].
    + intros [[g pend]|] Hv; [|done]. destruct Hv as [-> Hv]. cbn. rewrite decide_True, E by done. eexists. split; [done|]. by cbn.
    + intros [] w1 Ha. split; [by apply (alike_inv None w)|by apply alike_stays].
  - apply ok_bind. eapply ok_mono; [apply (pointer_leave_ok None); [done|by exists q]|].
    intros [] w1 (Hi1 & Hst & (q1 & Hq1 & Hu1) & _). eapply ok_mono; [apply (pointer_enter_ok p _ _ w1 q1 Hi1 Hq1 Hu1)|].
    + unfold in_objects. by rewrite (sy_wl _ _ Hst).
    + intros [] w2 (Hi2 & Hst2 & _). split; [done|by etrans].
Qed.

(** ** Keyboards and touch screens *)
Definition same_client (f : WlKeyboard XkbState -> WlKeyboard XkbState * list KeyCall) : Prop := forall kb, kb_client (f kb).1 = kb_client kb.
Lemma modifier_client : same_client (update_modifier_state xkb_serialize).
Proof. intros kb. unfold update_modifier_state. by case_bool_decide. Qed.
Lemma resync_client acquired : same_client (update_keyboard_state xkb_state_new xkb_state_update_key xkb_serialize acquired).
Proof. intros kb. unfold update_keyboard_state. by rewrite modifier_client. Qed.
Lemma focussed_client s b acquired : same_client (focussed xkb_state_new xkb_state_update_key xkb_serialize s b acquired).
Proof.
  intros kb. unfold focussed. destruct (Bool.eqb _ _); [done|]. destruct b; [|done].
  pose proof (resync_client acquired kb) as E. by destruct (update_keyboard_state _ _ _ acquired kb).
Qed.
Lemma key_client ms s code down acquired : same_client (keyboard_key xkb_state_new xkb_state_update_key xkb_serialize ms s code down acquired).
Proof.
  intros kb. unfold keyboard_key. pose proof (focussed_client s true acquired kb) as E. destruct (focussed _ _ _ s true acquired kb) as [kb0 calls].
  cbn in E. case_bool_decide; match goal with |- context [update_modifier_state _ ?k] =>
    pose proof (modifier_client k) as E2; destruct (update_modifier_state xkb_serialize k); cbn in *; congruence end.
Qed.
Lemma keyboard_alike k kb kb' w : in_keyboards w !! k = Some kb' -> kb_client kb = kb_client kb' -> alike w (w <| in_keyboards := <[k := kb]> (in_keyboards w) |>).
Proof.
  intros Hk Hc. split; try done. intros d. cbn. destruct (decide (d = k)) as [->|]; [|by rewrite lookup_insert_ne].
  rewrite lookup_insert_eq, Hk. cbn. by rewrite Hc.
Qed.
Lemma on_keyboard_ok f k w : same_client f -> is_Some (in_keyboards w !! k) -> ok (on_keyboard f k) w (fun _ w' => alike w w').
Proof.
  intros Hf [kb Hk]. unfold on_keyboard. apply ok_bind. eapply ok_lifted; [by rewrite Hk|]. pose proof (Hf kb) as Hc. destruct (f kb) as [kb' calls].
  apply ok_bind, ok_change; [by apply told_same|].
  eapply (ok_each _ _ (fun w' => alike w w')); [|by apply (keyboard_alike k kb' kb)].
  intros c w1 _ Ha. by apply ok_tell; [apply told_silent|].
Qed.
Lemma each_keyboard_ok but c f w : (forall acquired, same_client (f acquired)) -> InputInv but w -> ok (each_keyboard c f) w (fun _ w' => alike w w').
Proof.
  intros Hf Hi. unfold each_keyboard. apply ok_bind, ok_read. apply ok_bind, ok_read. apply (ok_each _ _ (fun w' => alike w w')); [|done].
  intros k w1 Hk Ha. eapply ok_mono; [apply on_keyboard_ok; [done|]|].
  { pose proof (iv_keyboards but w Hi c k Hk) as E. rewrite <- (al_keyboards _ _ Ha k) in E. by apply fmap_Some in E as (kb & ? & _); eexists. }
  intros [] w2 H2. by etrans.
Qed.
Lemma wl_notify_focus_ok c w : ok (notify_focus c) w (fun _ w' => alike w w').
Proof.
  unfold notify_focus. apply ok_bind, ok_read. case_bool_decide; [by apply ok_ret|].
  apply ok_bind, ok_change; [by apply told_same|]. apply ok_tell; [by apply told_silent|]. by split.
Qed.

Lemma on_touch_alike t f w : (forall x, wt_client (f x) = wt_client x) -> alike w (w <| in_touches := alter f t (in_touches w) |>).
Proof.
  intros Hf. split; try done. intros d. cbn. destruct (decide (d = t)) as [->|]; [|by rewrite lookup_alter_ne].
  rewrite lookup_alter_eq. destruct (in_touches w !! t); [|done]. cbn. by rewrite Hf.
Qed.
Lemma ok_on_touch t f w (Q : unit -> InputWorld -> Prop) : Q tt (w <| in_touches := alter f t (in_touches w) |>) -> ok (on_touch t f) w Q.
Proof. intros H. apply ok_change; [by apply told_same|done]. Qed.
Lemma touch_frame_ok t w : is_Some (in_touches w !! t) -> ok (touch_frame t) w (fun _ w' => alike w w').
Proof.
  intros [x Hx]. unfold touch_frame. apply ok_bind. eapply ok_lifted; [by rewrite Hx|]. apply ok_bind.
  assert (H : ok (if wt_can_send_frame x then tell (send_touch_frame t) else mret tt) w (fun _ w' => w' = w)).
  { destruct (wt_can_send_frame x); [apply ok_tell; [by apply told_silent|done]|by apply ok_ret]. }
  eapply ok_mono; [exact H|]. intros [] w' ->. by apply ok_on_touch, on_touch_alike.
Qed.

(** The surfaces of the touches [ids] have their ancestors. *)
Definition touches_grounded (ids : list Z) (w : InputWorld) : Prop :=
  forall t x id s, in_touches w !! t = Some x -> focused_surface_for_ids x !! id = Some s -> id ∈ ids ->
  returns (total_offset (wl_fuel (in_objects w)) (in_objects w) s).

Lemma contact_ok s ms ids c w : InputInv None w -> grounded (in_objects w) s -> touches_grounded ids w ->
  (action c = mir_touch_action_change -> touch_id c ∈ ids) ->
  ok (handle_contact s ms c) w (fun _ w' => alike w w' /\ touches_grounded ids w').
Proof.
  intros Hi Hg Ht Hid. unfold handle_contact, each_touch. apply ok_bind, ok_read.
  apply (ok_each _ _ (fun w' => alike w w' /\ touches_grounded ids w')); [|done]. intros t w1 Hin [Ha Ht1].
  assert (Hw : in_objects w1 = in_objects w) by (unfold in_objects; by rewrite (al_wl _ _ Ha)).
  assert (Ho : WlInv (in_objects w1)) by (rewrite Hw; apply (wd_objects _ (iv_wl _ _ Hi))).
  pose proof (iv_touches None w Hi (client_of s) t Hin) as Hcl. rewrite <- (al_touches _ _ Ha t) in Hcl. apply fmap_Some in Hcl as (x & Hx & _).
  assert (Hset : forall (w1 : InputWorld) f, alike w w1 -> touches_grounded ids w1 ->
    (forall x, wt_client (f x) = wt_client x) ->
    (forall y id d, in_touches w1 !! t = Some y -> focused_surface_for_ids (f y) !! id = Some d -> focused_surface_for_ids y !! id = Some d \/
       returns (total_offset (wl_fuel (in_objects w1)) (in_objects w1) d)) ->
    alike w (w1 <| in_touches := alter f t (in_touches w1) |>) /\ touches_grounded ids (w1 <| in_touches := alter f t (in_touches w1) |>)).
  { intros w2 f Ha2 Ht2 Hcf Hf. split; [etrans; [exact Ha2|by apply on_touch_alike]|]. intros t' y id d Hy Hd Hid'. unfold in_objects in *. cbn in *.
    destruct (decide (t' = t)) as [->|]; [|rewrite lookup_alter_ne in Hy by done; by apply (Ht2 t' y id)].
    rewrite lookup_alter_eq in Hy. destruct (in_touches w2 !! t) as [y0|] eqn:E0; [|done]. injection Hy as <-.
    destruct (Hf y0 id d eq_refl Hd) as [H|H]; [by apply (Ht2 t y0 id)|done]. }
  destruct (action c) eqn:Eact.
  - unfold touch_up. apply ok_bind, ok_on_touch. edestruct (Hset w1) as [Ha2 Ht2]; [done|done| | |].
    3: { apply ok_bind, ok_tell; [by apply told_silent|]. apply ok_on_touch. apply Hset; [exact Ha2|exact Ht2|done|]. by left. }
    { done. }
    intros y id d _ Hd. cbn in Hd. left. by apply lookup_delete_Some in Hd as [_ Hd].
  - unfold touch_down. apply ok_bind, hit_ok; [done|by rewrite Hw|]. intros f _ Hf. apply ok_bind, ok_on_touch.
    edestruct (Hset w1) as [Ha2 Ht2]; [done|done| | |].
    3: { apply ok_bind, ok_tell; [by apply told_silent|]. apply ok_on_touch. apply Hset; [exact Ha2|exact Ht2|done|]. by left. }
    { done. }
    intros y id d _ Hd. cbn in Hd. apply lookup_insert_Some in Hd as [[_ <-]|[_ Hd]]; [right; by apply grounded_offset|by left].
  - unfold touch_motion. apply ok_bind. eapply ok_lifted; [by rewrite Hx|].
    destruct (focused_surface_for_ids x !! touch_id c) as [d|] eqn:Ed; [|apply ok_tell; [by apply told_silent|done]].
    destruct (Ht1 t x (touch_id c) d Hx Ed (Hid eq_refl)) as [off Hoff]. apply ok_bind. eapply ok_lifted; [exact Hoff|].
    apply ok_bind, ok_tell; [by apply told_silent|]. apply ok_on_touch. apply Hset; [done..|]. by left.
Qed.

Lemma wl_handle_touch_event_ok s ms e w : InputInv None w -> grounded (in_objects w) s ->
  touches_grounded (touch_id <$> filter (fun c => action c = mir_touch_action_change) (contacts e)) w ->
  ok (wl_handle_touch_event s ms e) w (fun _ w' => alike w w').
Proof.
  intros Hi Hg Ht. unfold wl_handle_touch_event. apply ok_bind. set (ids := touch_id <$> _) in *.
  eapply ok_mono; [apply (ok_each _ _ (fun w' => alike w w' /\ touches_grounded ids w'))|].
  - intros c w1 Hc [Ha Ht1]. eapply ok_mono; [apply (contact_ok s ms ids)|].
    + by apply (alike_inv None w).
    + unfold in_objects. by rewrite (al_wl _ _ Ha).
    + done.
    + intros Hact. unfold ids. apply list_elem_of_fmap. exists c. split; [done|]. by apply list_elem_of_filter.
    + intros [] w2 [Ha2 Ht2]. split; [by etrans|done].
  - done.
  - intros [] w1 [Ha _]. unfold each_touch. apply ok_bind, ok_read. apply (ok_each _ _ (fun w' => alike w w')); [|done].
    intros t w2 Hin Ha2. eapply ok_mono; [apply touch_frame_ok|].
    + rewrite (al_touch_listeners _ _ Ha) in Hin. pose proof (iv_touches None w Hi (client_of s) t Hin) as E.
      rewrite <- (al_touches _ _ Ha2 t) in E. by apply fmap_Some in E as (x & ? & _); eexists.
    + intros [] w3 Ha3. by etrans.
Qed.

(** ** The dispatcher *)
Lemma dispatcher_alike s f w : alike w (w <| dispatchers := alter f s (dispatchers w) |>).
Proof. split; try done. intros d. cbn. apply lookup_alter_is_Some. Qed.
Lemma ok_on_dispatcher s f w (Q : unit -> InputWorld -> Prop) : Q tt (w <| dispatchers := alter f s (dispatchers w) |>) -> ok (on_dispatcher s f) w Q.
Proof. intros H. apply ok_change; [by apply told_same|done]. Qed.

(** Every pointer of a client in turn. *)
Lemma each_pointer_ok c f w : InputInv None w ->
  (forall p w', stays w w' -> InputInv None w' -> is_Some (in_pointers w' !! p) -> ok (f p) w' (fun _ w'' => InputInv None w'' /\ stays w' w'')) ->
  ok (each_pointer c f) w (fun _ w' => InputInv None w' /\ stays w w').
Proof.
  intros Hi Hf. unfold each_pointer. apply ok_bind, ok_read.
  apply (ok_each _ _ (fun w' => InputInv None w' /\ stays w w')); [|done].
  intros p w1 Hp [Hi1 Hst]. eapply ok_mono; [apply Hf; [done|done|]|].
  - apply (sy_pointers _ _ Hst). destruct (iv_pointers None w Hi c p Hp) as (q & Hq & _). by exists q.
  - intros [] w2 [Hi2 Hst2]. split; [done|by etrans].
Qed.

Lemma alike_ok {A} (a : Act A) w : InputInv None w -> ok a w (fun _ w' => alike w w') -> ok a w (fun _ w' => InputInv None w' /\ stays w w').
Proof. intros Hi H. eapply ok_mono; [exact H|]. intros x w' Ha. split; [by apply (alike_inv None w)|by apply alike_stays]. Qed.

(** The frame that ends what was sent on a pointer. *)
Lemma then_frame_ok p (a : Act unit) w : InputInv None w -> is_Some (in_pointers w !! p) ->
  ok a w (fun _ w' => InputInv None w' /\ stays w w') -> ok (a;; pointer_frame p) w (fun _ w' => InputInv None w' /\ stays w w').
Proof.
  intros Hi Hp Ha. apply ok_bind. eapply ok_mono; [exact Ha|]. intros [] w1 [Hi1 Hst].
  eapply ok_mono; [apply alike_ok; [done|apply pointer_frame_ok; by apply (sy_pointers _ _ Hst)]|].
  intros [] w2 [Hi2 Hst2]. split; [done|by etrans].
Qed.

Lemma enter_each s pt ps w : InputInv None w -> grounded (in_objects w) s -> NoDup ps ->
  (forall p, p ∈ ps -> exists q, in_pointers w !! p = Some q /\ surface_under_cursor q = None) ->
  ok (each ps (fun p => pointer_enter p s pt;; pointer_frame p)) w (fun _ w' => InputInv None w').
Proof.
  intros Hi Hg Hnd Hps. revert w Hi Hg Hps. induction Hnd as [|p ps Hp Hnd IH]; intros w Hi Hg Hps; [by apply ok_ret|].
  cbn [each]. destruct (Hps p ltac:(by left)) as (q & Hq & Hu). do 2 apply ok_bind. eapply ok_mono; [by apply (pointer_enter_ok p s pt w q)|].
  intros [] w1 (Hi1 & Hst & Hother). eapply ok_mono; [apply pointer_frame_ok, (sy_pointers _ _ Hst); by exists q|].
  intros [] w2 Ha. apply IH.
  - by apply (alike_inv None w1).
  - unfold in_objects. by rewrite (al_wl _ _ Ha), (sy_wl _ _ Hst).
  - intros p' Hp'. destruct (Hps p' ltac:(by right)) as (q' & Hq' & Hu'). specialize (Hother p' ltac:(intros ->; done)). rewrite Hq' in Hother.
    destruct (in_pointers w1 !! p') as [q1|] eqn:E1; [|done]. injection Hother as Hother.
    destruct (alike_pointer_back w1 w2 p' q1 Ha E1) as (q2 & E2 & _ & Hu2 & _). exists q2. split; [done|congruence].
Qed.

(** When a pointer may enter a window: none of the client's pointers is on a surface. *)
Definition pointers_free (w : InputWorld) (s : Z) : bool :=
  forallb (fun p => match in_pointers w !! p with Some q => bool_decide (surface_under_cursor q = None) | None => true end)
          (listeners (pointer_listeners w) (client_of s)).

Lemma handle_pointer_event_ok s ms e w : InputInv None w -> is_window (in_objects w) s ->
  (p_action e = mir_pointer_action_enter -> pointers_free w s = true) ->
  ok (handle_pointer_event s ms e) w (fun _ w' => InputInv None w').
Proof.
  intros Hi Hwin Hfree. pose proof (grounded_window _ _ Hwin) as Hg.
  assert (Hd : is_Some (dispatchers w !! s)) by (apply (iv_dispatchers None w Hi); by apply (wd_windows _ (iv_wl _ _ Hi))).
  assert (Hgw : forall w', stays w w' -> grounded (in_objects w') s) by (intros w' Hst; unfold in_objects; by rewrite (sy_wl _ _ Hst)).
  assert (Hbutton : ok (handle_pointer_button_event s ms e) w (fun _ w' => InputInv None w')).
  { unfold handle_pointer_button_event. destruct Hd as [d Hd]. apply ok_bind. eapply ok_lifted; [by rewrite Hd|].
    apply ok_bind. eapply (ok_mono _ _ (fun _ w' => InputInv None w' /\ stays w w')).
    - case_bool_decide; [by apply ok_ret|]. apply each_pointer_ok; [done|]. intros p w1 _ Hi1 Hp. apply then_frame_ok; [done..|].
      apply (ok_each _ _ (fun w' => InputInv None w' /\ stays w1 w')); [|done]. intros b w2 _ [Hi2 Hst2].
      eapply ok_mono; [apply alike_ok; [done|apply pointer_button_ok; by apply (sy_pointers _ _ Hst2)]|].
      intros [] w3 [Hi3 Hst3]. split; [done|by etrans].
    - intros [] w1 [Hi1 _]. apply ok_on_dispatcher. eapply alike_inv; [apply dispatcher_alike|done]. }
  unfold handle_pointer_event. destruct (p_action e) eqn:Eact; [exact Hbutton|exact Hbutton| | |].
  - unfold each_pointer. apply ok_bind, ok_read. apply enter_each; [done|done|apply (iv_nodup None w Hi)|].
    intros p Hp. destruct (iv_pointers None w Hi _ p Hp) as (q & Hq & _). exists q. split; [done|]. specialize (Hfree eq_refl).
    unfold pointers_free in Hfree. rewrite forallb_forall in Hfree. specialize (Hfree p (proj1 (list_elem_of_In _ _) Hp)). rewrite Hq in Hfree.
    by apply bool_decide_eq_true in Hfree.
  - eapply ok_mono; [apply each_pointer_ok; [done|]|by intros [] w1 [H _]].
    intros p w1 _ Hi1 Hp. apply then_frame_ok; [done..|]. eapply ok_mono; [by apply (pointer_leave_ok None)|]. intros [] w2 (H1 & H2 & _). done.
  - unfold handle_pointer_motion_event. destruct Hd as [d Hd]. apply ok_bind. eapply ok_lifted; [by rewrite Hd|]. cbv zeta.
    apply ok_bind, ok_on_dispatcher. set (w0 := w <| dispatchers := _ |>).
    assert (Ha0 : alike w w0) by apply dispatcher_alike. pose proof (alike_inv None w w0 Ha0 Hi) as Hi0.
    match goal with |- ok (if ?c then _ else _) _ _ => destruct c; [|by apply ok_ret] end.
    eapply ok_mono; [apply each_pointer_ok; [done|]|by intros [] w1 [H _]].
    intros p w1 Hst1 Hi1 Hp. apply ok_bind. eapply (ok_mono _ _ (fun _ w' => InputInv None w' /\ stays w1 w')).
    { match goal with |- ok (if ?c then _ else _) _ _ => destruct c; [|by apply ok_ret] end. apply pointer_motion_ok; [done..|].
      apply Hgw. etrans; [by apply alike_stays|done]. }
    intros [] w2 [Hi2 Hst2]. assert (Hp2 : is_Some (in_pointers w2 !! p)) by (by apply (sy_pointers _ _ Hst2)).
    eapply ok_mono; [apply then_frame_ok; [done..|]|].
    { match goal with |- ok (if ?c then _ else _) _ _ => destruct c; [|by apply ok_ret] end. apply alike_ok; [done|]. by apply pointer_axis_ok. }
    intros [] w3 [Hi3 Hst3]. split; [done|by etrans].
Qed.

(** When the touches of an event may move: their surfaces exist. *)
Definition touches_free (w : InputWorld) (e : MirTouchEvent) : bool :=
  forallb (fun c => bool_decide (action c <> mir_touch_action_change) ||
    forallb (fun x : Z * WlTouch => match focused_surface_for_ids x.2 !! touch_id c with
                     | Some s => bool_decide (is_Some (wl_surfaces (in_objects w) !! s))
                     | None => true
                     end) (map_to_list (in_touches w))) (contacts e).

Lemma touches_free_grounded but w e : InputInv but w -> touches_free w e = true ->
  touches_grounded (touch_id <$> filter (fun c => action c = mir_touch_action_change) (contacts e)) w.
Proof.
  unfold touches_free. intros Hi. rewrite forallb_forall. intros H t x id s Hx Hs (c & -> & [Hact Hc]%list_elem_of_filter)%list_elem_of_fmap.
  specialize (H c (proj1 (list_elem_of_In _ _) Hc)). rewrite bool_decide_false in H by (intros Hn; by apply Hn). cbn [orb] in H.
  rewrite forallb_forall in H. assert (Hin : In (t, x) (map_to_list (in_touches w))) by (by apply list_elem_of_In, elem_of_map_to_list).
  specialize (H (t, x) Hin). cbn [snd] in H. rewrite Hs in H. apply bool_decide_eq_true in H.
  pose proof (wd_objects _ (iv_wl _ _ Hi)) as Ho. apply grounded_offset; [done|]. apply anchored_grounded; [done|apply Hi|done].
Qed.

Definition event_free (w : InputWorld) (s : Z) (ev : MirEvent) : bool :=
  match ev with
  | PointerEvent e => negb (bool_decide (p_action e = mir_pointer_action_enter)) || pointers_free w s
  | TouchEvent e => touches_free w e
  | _ => true
  end.

Lemma handle_event_ok s ev w : InputInv None w -> is_window (in_objects w) s -> event_free w s ev = true ->
  ok (handle_event s ev) w (fun _ w' => InputInv None w').
Proof.
  intros Hi Hwin Hfree. unfold handle_event. apply ok_bind. eapply (ok_mono _ _ (fun _ w' => alike w w' /\ in_pointers w' = in_pointers w /\ in_touches w' = in_touches w)).
  { destruct (has_cookie ev); [|by apply ok_ret]. apply ok_on_dispatcher. split; [apply dispatcher_alike|done]. }
  intros [] w1 (Ha & Ep & Et). pose proof (alike_inv None w w1 Ha Hi) as Hi1.
  assert (Hwin1 : is_window (in_objects w1) s) by (unfold in_objects; by rewrite (al_wl _ _ Ha)).
  destruct ev as [e|e|e|ty]; cbn in Hfree.
  - unfold handle_keyboard_event. destruct (k_action e); try by apply ok_ret.
    all: eapply ok_mono; [apply (each_keyboard_ok None); [intros; apply key_client|done]|]; intros [] w2 Ha2; by apply (alike_inv None w1).
  - eapply ok_mono; [apply wl_handle_touch_event_ok; [done|by apply grounded_window|]|intros [] w2 Ha2; by apply (alike_inv None w1)].
    pose proof (touches_free_grounded None w e Hi Hfree) as H. unfold touches_grounded, in_objects in *. by rewrite Et, (al_wl _ _ Ha).
  - apply handle_pointer_event_ok; [done..|]. intros E. rewrite bool_decide_true in Hfree by done. cbn in Hfree.
    unfold pointers_free in *. by rewrite Ep, (al_pointer_listeners _ _ Ha).
  - apply ok_tell; [by apply told_silent|done].
Qed.

(** ** Surfaces are destroyed *)
Lemma leave_each but s l w : InputInv but w -> (forall p, p ∈ l -> is_Some (in_pointers w !! p)) ->
  ok (each l pointer_leave) w (fun _ w' => InputInv but w' /\ stays w w' /\
    forall p q', in_pointers w' !! p = Some q' -> surface_under_cursor q' = Some s ->
      p ∉ l /\ exists q, in_pointers w !! p = Some q /\ surface_under_cursor q = Some s).
Proof.
  revert w. induction l as [|p l IH]; intros w Hi Hl; cbn [each].
  { apply ok_ret. split; [done|]. split; [done|]. intros p q' Hq Hu. split; [apply not_elem_of_nil|by exists q']. }
  apply ok_bind. eapply ok_mono; [apply (pointer_leave_ok but p w Hi), Hl; by left|]. intros [] w1 (Hi1 & Hst & (q1 & Hq1 & Hu1) & Hother).
  eapply ok_mono; [apply (IH w1 Hi1); intros d Hd; apply (sy_pointers _ _ Hst), Hl; by right|].
  intros [] w2 (Hi2 & Hst2 & H2). split; [done|]. split; [by etrans|]. intros d q' Hq Hu. destruct (H2 d q' Hq Hu) as (Hd & q0 & Hq0 & Hu0).
  destruct (decide (d = p)) as [->|Hne]; [congruence|]. rewrite Hother in Hq0 by done. split; [|by exists q0]. apply not_elem_of_cons. done.
Qed.

Lemma input_inv_settled s w : InputInv (Some s) w -> (forall p q, in_pointers w !! p = Some q -> surface_under_cursor q <> Some s) -> InputInv None w.
Proof.
  intros [H1 H2 H3 H4 H5 H6 H7 H8 H9 H10 H11 H12 H13] Hs. split; try done. intros p q d Hq Hu. destruct (H2 p q d Hq Hu) as [Hk [[= ->]|Hl]].
  - by destruct (Hs p q Hq).
  - split; [done|by right].
Qed.

Lemma flag_core s q d a : (cursor_core <$> wp_cursor (flag_cursor s q)) = Some (Some (d, a)) ->
  exists a', (cursor_core <$> wp_cursor q) = Some (Some (d, a')) /\ (a = true -> a' = true /\ d <> s).
Proof.
  unfold flag_cursor. destruct (wp_cursor q) as [[| |x b h o]|] eqn:E; cbn; rewrite ?E; cbn; try done.
  intros [= <- <-]. exists b. split; [done|]. intros [-> Hb]%andb_true_iff. split; [done|]. by case_bool_decide.
Qed.
Lemma flag_rest s q : surface_under_cursor (flag_cursor s q) = surface_under_cursor q /\ can_send_frame (flag_cursor s q) = can_send_frame q /\
  (is_Some (wp_cursor q) -> is_Some (wp_cursor (flag_cursor s q))).
Proof. unfold flag_cursor. destruct (wp_cursor q) as [[| |x b h o]|] eqn:E; cbn; rewrite ?E; split; try done; split; try done; eauto. Qed.

Lemma surface_destroyed_ok s w : InputInv None w ->
  ok (surface_destroyed s) w (fun _ w' => InputInv None w' /\ in_wl w' = in_wl w /\ in_posted w' = in_posted w /\
    (forall p q, in_pointers w' !! p = Some q -> surface_under_cursor q <> Some s) /\
    (forall p q, in_pointers w' !! p = Some q -> (cursor_core <$> wp_cursor q) <> Some (Some (s, true))) /\
    (forall p q' d a, in_pointers w' !! p = Some q' -> (cursor_core <$> wp_cursor q') = Some (Some (d, a)) ->
       exists q a', in_pointers w !! p = Some q /\ (cursor_core <$> wp_cursor q) = Some (Some (d, a')))).
Proof.
  intros Hi. unfold surface_destroyed. apply ok_bind. 
  set (w1 := w <| in_keyboards := keyboard_surface_gone s <$> in_keyboards w |> <| in_pointers := flag_cursor s <$> in_pointers w |>).
  assert (Hl1 : forall p q', in_pointers w1 !! p = Some q' -> exists q, in_pointers w !! p = Some q /\ q' = flag_cursor s q).
  { intros p q'. cbn. rewrite lookup_fmap. destruct (in_pointers w !! p) as [q|]; [|done]. intros [= <-]. by exists q. }
  assert (Hi1 : InputInv None w1).
  { destruct Hi as [H1 H2 H3 H4 H5 H6 H7 H8 H9 H10 H11 H12 H13]. split; try done.
    - intros p q' d (q & Hq & ->)%Hl1. rewrite (proj1 (flag_rest s q)). by apply H2.
    - intros d p Hp. destruct (H3 d p Hp) as (q & Hq & Hu). exists (flag_cursor s q). cbn. rewrite lookup_fmap, Hq.
      split; [done|]. by rewrite (proj1 (flag_rest s q)).
    - intros c p Hp. cbn. rewrite lookup_fmap. destruct (H4 c p Hp) as (q & -> & Hcl). eexists. split; [done|].
      rewrite <- Hcl. unfold flag_cursor. by destruct (wp_cursor q) as [[]|].
    - intros c k Hk. cbn. rewrite lookup_fmap, <- (H6 c k Hk). destruct (in_keyboards w !! k) as [kb|]; [|done]. cbn.
      unfold keyboard_surface_gone. by case_bool_decide.
    - intros p q' (q & Hq & ->)%Hl1. apply flag_rest. eauto.
    - intros p q' d (q & Hq & ->)%Hl1 (a & Hc & Ha)%flag_core. destruct (Ha eq_refl) as [-> _]. eauto.
    - intros p p' q' q'' d (q & Hq & ->)%Hl1 (q0 & Hq0 & ->)%Hl1 (a & Hc & Ha)%flag_core (a0 & Hc0 & Ha0)%flag_core.
      destruct (Ha eq_refl) as [-> _]. destruct (Ha0 eq_refl) as [-> _]. eauto.
    - intros p q' d a b (q & Hq & ->)%Hl1 (a' & Hc & _)%flag_core. eauto. }
  apply ok_change.
  { intros p v Hv. exists v. split; [done|]. cbn. rewrite lookup_fmap. destruct (in_pointers w !! p) as [q|]; [|done]. cbn in *.
    destruct v as [[]|]; [|done]. destruct (flag_rest s q) as (-> & -> & _). done. }
  apply ok_bind, ok_tell; [by apply told_silent|]. apply ok_bind, ok_read. fold (listeners (destroy_listeners w1) s).
  apply ok_bind, ok_change; [by apply told_same|]. set (w2 := w1 <| destroy_listeners := delete s (destroy_listeners w1) |>).
  assert (Hdel : forall d p, p ∈ listeners (destroy_listeners w2) d <-> d <> s /\ p ∈ listeners (destroy_listeners w1) d).
  { intros d p. unfold listeners. cbn. destruct (decide (d = s)) as [->|]; [rewrite lookup_delete_eq|by rewrite lookup_delete_ne; naive_solver].
    split; [intros H; by apply not_elem_of_nil in H|naive_solver]. }
  assert (Hi2 : InputInv (Some s) w2).
  { destruct Hi1 as [H1 H2 H3 H4 H5 H6 H7 H8 H9 H10 H11 H12 H13]. split; try done.
    - intros p q d Hq Hu. destruct (H2 p q d Hq Hu) as [Hk [[=]|Hp]]. split; [done|]. rewrite Hdel. destruct (decide (d = s)); naive_solver.
    - intros d p [_ Hp]%Hdel. eauto. }
  eapply ok_mono; [apply (leave_each (Some s) s _ w2 Hi2)|].
  { intros p Hp. destruct (iv_listen None w1 Hi1 s p Hp) as (q & Hq & _). by exists q. }
  intros [] w3 (Hi3 & Hst & H3).
  assert (Hnone : forall p q, in_pointers w3 !! p = Some q -> surface_under_cursor q <> Some s).
  { intros p q Hq Hu. destruct (H3 p q Hq Hu) as (Hnot & q0 & Hq0 & Hu0). destruct (iv_under None w1 Hi1 p q0 s Hq0 Hu0) as [_ [[=]|Hp]]. done. }
  assert (Hback : forall p q', in_pointers w3 !! p = Some q' -> exists q1, in_pointers w1 !! p = Some q1 /\ (cursor_core <$> wp_cursor q') = (cursor_core <$> wp_cursor q1)).
  { intros p q' Hq. pose proof (sy_cursors _ _ Hst p) as E. rewrite Hq in E. change (in_pointers w2) with (in_pointers w1) in E.
    destruct (in_pointers w1 !! p) as [q1|] eqn:E1; [|done]. exists q1. split; [done|]. injection E as E.
    destruct (iv_cursor _ _ Hi3 p q' Hq) as [c Hc]. destruct (iv_cursor _ _ Hi1 p q1 E1) as [c1 Hc1]. cbn in E. rewrite Hc, Hc1 in *. cbn in *. by rewrite E. }
  split; [by eapply input_inv_settled|]. split; [exact (sy_wl _ _ Hst)|]. split; [exact (sy_posted _ _ Hst)|]. split; [done|]. split.
  - intros p q Hq Hc. destruct (Hback p q Hq) as (q1 & Hq1 & E). rewrite E in Hc. destruct (Hl1 p q1 Hq1) as (q0 & _ & ->).
    apply flag_core in Hc as (a & _ & Ha). by destruct (Ha eq_refl).
  - intros p q' d a Hq Hc. destruct (Hback p q' Hq) as (q1 & Hq1 & E). rewrite E in Hc. destruct (Hl1 p q1 Hq1) as (q0 & Hq0 & ->).
    apply flag_core in Hc as (a' & Hc & _). by exists q0, a'.
Qed.

(** ** Requests *)
Definition fine (a : Act unit) (w : InputWorld) : Prop :=
  exists w' calls r, a w = (w', calls, r) /\ told w calls w' /\ InputInv None w' /\ (r = Ret tt \/ r = Throw already_has_a_role).
Lemma ok_fine a w : ok a w (fun _ w' => InputInv None w') -> fine a w.
Proof. intros ([] & w' & calls & E & Ht & Hi). exists w', calls, (Ret tt). auto. Qed.
Lemma ok_then_fine' {A} (a : Act A) (b : A -> Act unit) w : ok a w (fun x w' => fine (b x) w') -> fine (a ≫= b) w.
Proof.
  intros (x & w1 & c1 & E1 & T1 & w2 & c2 & r & E2 & T2 & Hi & Hr). exists w2, (c1 ++ c2), r.
  unfold mbind, Act_bind. rewrite E1, E2. split; [done|]. split; [by eapply told_trans|done].
Qed.
Lemma ok_then_fine (a b : Act unit) w (Q : InputWorld -> Prop) : ok a w (fun _ w' => Q w') -> (forall w', Q w' -> fine b w') -> fine (a;; b) w.
Proof. intros Ha Hb. apply ok_then_fine'. eapply ok_mono; [exact Ha|]. intros [] w'. apply Hb. Qed.
Lemma lifted_ret {A} (f : InputWorld -> outcome A) (g : A -> Act unit) w x : f w = Ret x -> fine (g x) w -> fine (lifted f ≫= g) w.
Proof.
  intros E (w' & calls & r & Eg & H). exists w', calls, r. unfold mbind, Act_bind, lifted. by rewrite E, Eg.
Qed.
Lemma lifted_throw {A} (f : InputWorld -> outcome A) (g : A -> Act unit) w : InputInv None w -> f w = Throw already_has_a_role -> fine (lifted f ≫= g) w.
Proof.
  intros Hi E. exists w, [], (Throw already_has_a_role). unfold mbind, Act_bind, lifted. rewrite E. split; [done|]. split; [by apply told_same|]. auto.
Qed.

Definition cursor_on (w : InputWorld) (s : Z) : bool :=
  existsb (fun x : Z * WlPointer => match wp_cursor x.2 with Some (WlSurfaceCursor s' _ _ _) => s' =? s | _ => false end) (map_to_list (in_pointers w)).
Lemma cursor_on_spec w p q s a : in_pointers w !! p = Some q -> (cursor_core <$> wp_cursor q) = Some (Some (s, a)) -> cursor_on w s = true.
Proof.
  intros Hq Hc. apply existsb_exists. exists (p, q). split; [by apply list_elem_of_In, elem_of_map_to_list|]. cbn.
  destruct (wp_cursor q) as [[| |x b h o]|]; cbn in Hc; try done. injection Hc as -> _. apply Z.eqb_refl.
Qed.

Lemma frame_posted_ok sb w : InputInv None w -> (cursor_on w sb.1 = true -> readable sb.2 = true) ->
  ok (frame_posted sb) w (fun _ w' => InputInv None w' /\ in_pointers w' = in_pointers w).
Proof.
  intros Hi Hr. unfold frame_posted. apply ok_bind, ok_change; [by apply told_same|]. set (w1 := w <| in_posted := <[sb.1 := sb.2]> (in_posted w) |>).
  assert (Hi1 : InputInv None w1).
  { destruct Hi as [H1 H2 H3 H4 H5 H6 H7 H8 H9 H10 H11 H12 H13]. split; try done. intros p q s a b Hq Hc. cbn.
    destruct (decide (s = sb.1)) as [->|]; [rewrite lookup_insert_eq|rewrite lookup_insert_ne by done; eauto].
    intros [= <-]. apply Hr. by eapply cursor_on_spec. }
  apply ok_bind, ok_read. apply (ok_each _ _ (fun w' => InputInv None w' /\ in_pointers w' = in_pointers w)); [|done].
  intros q w2 (p & Hp)%list_elem_of_fmap [Hi2 E2]. destruct p as [p q0], Hp as [-> Hp%elem_of_map_to_list]. cbn in Hp |- *.
  destruct (wp_cursor q0) as [[| |s a h o]|] eqn:Ec; try by apply ok_ret. case_bool_decide; [|by apply ok_ret].
  eapply ok_mono; [apply apply_latest_buffer_ok|by intros [] w' ->]. intros b Hb. rewrite <- E2 in Hp.
  apply (iv_posted None w2 Hi2 p q0 s a b Hp); [by rewrite Ec|done].
Qed.

(** A client's request is free to be made: it is tame, the role of a cursor is
    left to [set_cursor], identities are not used again, and a cursor's buffers
    can be read. *)
Definition request_free (w : InputWorld) (req : WlRequest) : bool :=
  tame (in_wl w) req &&
  match req with
  | TakeCursor _ | DropCursor _ => false
  | CreateSurface s => bool_decide (in_posted w !! s = None)
  | _ => true
  end &&
  match wl_step placed_size scene_visible scene_state default_params (in_wl w) req with
  | Ret (_, ev) => forallb (fun sb => negb (cursor_on w sb.1) || readable sb.2) (buffers_submitted ev)
  | Throw _ => true
  end.

Lemma dispatchers_for_known m ds s : is_Some (dispatchers_for m ds !! s) <-> is_Some (windows m !! s).
Proof. unfold dispatchers_for. rewrite map_lookup_imap. destruct (windows m !! s); cbn; [split; by eexists|done]. Qed.

(** The part that follows the destruction of a surface. *)
Lemma request_rest_ok req (w w0 : InputWorld) : InputInv None w -> in_wl w = in_wl w0 -> request_free w0 req = true ->
  (forall s, cursor_on w s = true -> cursor_on w0 s = true) ->
  (forall s p q, gone_of req = Some s -> in_pointers w !! p = Some q -> surface_under_cursor q <> Some s /\ (cursor_core <$> wp_cursor q) <> Some (Some (s, true))) ->
  fine (r ← lifted (fun w => wl_step placed_size scene_visible scene_state default_params (in_wl w) req);
        change (fun w => w <| in_wl := r.1 |> <| dispatchers := dispatchers_for r.1 (dispatchers w) |>);;
        tell (request_events r.2);;
        each (buffers_submitted r.2) frame_posted) w.
Proof.
  intros Hi Ew Hfree Hcur Hgone. unfold request_free in Hfree. apply andb_true_iff in Hfree as [[Ht _]%andb_true_iff Hread]. rewrite <- Ew in Ht, Hread.
  pose proof (tame_servable (in_wl w) req (iv_wl _ _ Hi) (iv_anchored _ _ Hi) Ht) as Hv.
  pose proof (wl_step_served placed_size scene_visible scene_state default_params (in_wl w) req (iv_wl _ _ Hi) Hv) as Hs.
  destruct (wl_step placed_size scene_visible scene_state default_params (in_wl w) req) as [[m ev]|e] eqn:Es.
  2: { cbn in Hs. subst e. by apply lifted_throw. }
  destruct Hs as [Hm Hk]. eapply lifted_ret; [exact Es|]. cbn [fst snd].
  assert (Hi1 : InputInv None (w <| in_wl := m |> <| dispatchers := dispatchers_for m (dispatchers w) |>)).
  { destruct Hi as [H1 H2 H3 H4 H5 H6 H7 H8 H9 H10 H11 H12 H13]. split; try done.
    - intros p q s Hq Hu. destruct (H2 p q s Hq Hu) as [Hks Hl]. split; [|done]. apply (Hk s); [|done]. intros E. by destruct (Hgone s p q E Hq).
    - intros p q s Hq Hc. apply (Hk s); [|eauto]. intros E. by destruct (Hgone s p q E Hq).
    - intros s Hs. by apply dispatchers_for_known.
    - exact (step_anchored placed_size scene_visible scene_state default_params (in_wl w) req m ev H1 H13 Ht Es). }
  apply ok_fine.
  apply ok_bind, ok_change; [by apply told_same|]. apply ok_bind, ok_tell; [by apply told_silent|].
  eapply ok_mono; [apply (ok_each _ _ (fun w' => InputInv None w' /\ in_pointers w' = in_pointers w))|by intros [] w' [H _]]; [|done].
  intros sb w2 Hsb [Hi2 E2]. eapply ok_mono; [apply (frame_posted_ok sb w2 Hi2)|by intros [] w' [H ->]].
  intros Hc. rewrite forallb_forall in Hread. specialize (Hread sb (proj1 (list_elem_of_In _ _) Hsb)).
  assert (Hc0 : cursor_on w0 sb.1 = true) by (apply Hcur; unfold cursor_on in *; by rewrite E2 in Hc). by rewrite Hc0 in Hread.
Qed.

Lemma client_request_fine req w : InputInv None w -> request_free w req = true -> fine (client_request req) w.
Proof.
  intros Hi Hfree. unfold client_request.
  assert (Hsimple : gone_of req = None -> fine (mret tt;; r ← lifted (fun w => wl_step placed_size scene_visible scene_state default_params (in_wl w) req);
        change (fun w => w <| in_wl := r.1 |> <| dispatchers := dispatchers_for r.1 (dispatchers w) |>);;
        tell (request_events r.2);; each (buffers_submitted r.2) frame_posted) w).
  { intros Hg. eapply (ok_then_fine _ _ w (eq w)); [by apply ok_ret|]. intros w' <-. apply (request_rest_ok req w w); [done..|]. by rewrite Hg. }
  destruct req; try (by apply Hsimple).
  eapply ok_then_fine; [by apply surface_destroyed_ok|]. intros w1 (Hi1 & Ew & Ep & Hu & Hc & Hback).
  apply (request_rest_ok (DestroySurface s) w1 w); [done..| |].
  - intros d Hd. apply existsb_exists in Hd as ([p q] & Hin%list_elem_of_In%elem_of_map_to_list & Hm). cbn in Hm.
    destruct (wp_cursor q) as [[| |d' a h o]|] eqn:Ec; try done. apply Z.eqb_eq in Hm as ->.
    destruct (Hback p q d a Hin) as (q0 & a0 & Hq0 & Hc0); [by rewrite Ec|]. by eapply cursor_on_spec.
  - intros d p q [= <-] Hq. split; eauto.
Qed.

(** ** Cursors change *)
(** Surfaces without a role become cursors, or cursors give their role back. *)
Definition idle_role (r : option WlRole) : Prop := r = Some null_role \/ r = Some cursor_role.
Record recast (o o' : WlObjects) : Prop := {
  rc_roles : forall d, role_of o' d = role_of o d \/ (idle_role (role_of o d) /\ idle_role (role_of o' d));
  rc_subs : wl_subsurfaces o' = wl_subsurfaces o;
  rc_size : size (wl_surfaces o') = size (wl_surfaces o)
}.
#[global] Instance recast_refl : Reflexive recast.
Proof. intros o. split; [by left|done|done]. Qed.
#[global] Instance recast_trans : Transitive recast.
Proof.
  intros o1 o2 o3 [R1 S1 Z1] [R2 S2 Z2]. split; [|congruence|congruence]. intros d.
  destruct (R2 d) as [E2|[I2 J2]], (R1 d) as [E1|[I1 J1]]; rewrite ?E2, ?E1 in *; auto.
Qed.

Lemma recast_set o s r r' : role_of o s = Some r -> idle_role (Some r) -> idle_role (Some r') ->
  recast o (alter_surface s (fun su => su <| wl_role := r' |>) o).
Proof.
  intros Hr Hi Hi'. split; [|done|].
  - intros d. unfold role_of in *. cbn. destruct (decide (d = s)) as [->|]; [right|left; by rewrite lookup_alter_ne].
    rewrite lookup_alter_eq, Hr. split; [done|]. by destruct (wl_surfaces o !! s).
  - cbn. rewrite <- !(size_dom (D := gset Z)). by rewrite dom_alter_L.
Qed.

Lemma recast_known o o' s : recast o o' -> is_Some (wl_surfaces o !! s) -> is_Some (wl_surfaces o' !! s).
Proof. intros [Hr _ _]. rewrite <- !role_known. destruct (Hr s) as [->|[_ [->| ->]]]; done. Qed.
Lemma recast_anchored o o' : recast o o' -> anchored o -> anchored o'.
Proof. intros Hr Ha c sub. rewrite (rc_subs _ _ Hr). intros Hc. by eapply recast_known, (Ha c). Qed.

Lemma recast_scene m o' f s : recast (objects m) o' -> returns (scene_surface f m s) -> returns (scene_surface f (m <| objects := o' |>) s).
Proof.
  intros [HR HS _]. revert s. induction f as [|f IH]; intros s; [by intros [? ?]|]. cbn [scene_surface].
  change (objects (m <| objects := o' |>)) with o'. change (windows (m <| objects := o' |>)) with (windows m). rewrite HS.
  specialize (HR s). unfold role_of, idle_role in HR.
  destruct (wl_surfaces (objects m) !! s) as [su|]; [|by intros [? ?]]. destruct (wl_surfaces o' !! s) as [su'|]; cbn in HR; [|naive_solver].
  destruct HR as [[= ->]|[_ [[= ->]|[= ->]]]]; [|by eexists..].
  destruct (wl_role su); try (by intros _; eexists). destruct (wl_subsurfaces (objects m) !! s); [apply IH|done].
Qed.

(** The pointer [p] gets the cursor [c], for which the roles have changed. *)
Lemma recursor_inv w p q c o' :
  InputInv None w -> in_pointers w !! p = Some q -> WorldInv ((in_wl w) <| objects := o' |>) -> recast (in_objects w) o' ->
  (forall d, is_cursor (in_objects w) d -> (cursor_core <$> wp_cursor q) <> Some (Some (d, true)) -> is_cursor o' d) ->
  (forall s a, cursor_core c = Some (s, a) -> (a = true -> is_cursor o' s /\ ~ is_cursor (in_objects w) s) /\
     forall b, in_posted w !! s = Some b -> readable b = true) ->
  InputInv None (w <| in_pointers := <[p := q <| wp_cursor := Some c |>]> (in_pointers w) |> <| in_wl := (in_wl w) <| objects := o' |> |>).
Proof.
  intros [H1 H2 H3 H4 H5 H6 H7 H8 H9 H10 H11 H12 H13] Hq Hm Hrc Hcur Hc.
  assert (Hlook : forall d x, (<[p := q <| wp_cursor := Some c |>]> (in_pointers w)) !! d = Some x ->
    (d = p /\ x = q <| wp_cursor := Some c |>) \/ (d <> p /\ in_pointers w !! d = Some x)).
  { intros d x. destruct (decide (d = p)) as [->|]; [rewrite lookup_insert_eq|rewrite lookup_insert_ne by done]; naive_solver. }
  assert (Hold : forall d x s, d <> p -> in_pointers w !! d = Some x -> (cursor_core <$> wp_cursor x) = Some (Some (s, true)) -> is_cursor o' s).
  { intros d x s Hd Hx Hs. apply Hcur; [eauto|]. intros Hqs. apply Hd. eapply H9; eauto. }
  split; try done; unfold in_objects in *; cbn.
  - intros d x s [[-> ->]|[Hd Hx]]%Hlook Hu; cbn in Hu.
    + destruct (H2 p q s Hq Hu) as [Hk Hl]. split; [|done]. by eapply recast_known.
    + destruct (H2 d x s Hx Hu) as [Hk Hl]. split; [|done]. by eapply recast_known.
  - intros s x Hx. destruct (H3 s x Hx) as (y & Hy & Hu). destruct (decide (x = p)) as [->|].
    + rewrite Hq in Hy. injection Hy as <-. eexists. rewrite lookup_insert_eq. by split.
    + exists y. by rewrite lookup_insert_ne.
  - intros k x Hx. destruct (decide (x = p)) as [->|]; [rewrite lookup_insert_eq|rewrite lookup_insert_ne by done; eauto].
    destruct (H4 k p Hx) as (q0 & Hq0 & <-). rewrite Hq in Hq0. injection Hq0 as <-. eauto.
  - intros d x [[-> ->]|[Hd Hx]]%Hlook; [by eexists|eauto].
  - intros d x s [[-> ->]|[Hd Hx]]%Hlook Hs; [|by eapply Hold]. cbn in Hs. injection Hs as Hs. by destruct (Hc s true Hs) as [[? ?] _].
  - intros d d' x x' s [[-> ->]|[Hd Hx]]%Hlook [[-> ->]|[Hd' Hx']]%Hlook Hs Hs'; [done| | |eauto].
    + cbn in Hs. injection Hs as Hs. destruct (Hc s true Hs) as [[_ Hn] _]; [done|]. destruct Hn. eauto.
    + cbn in Hs'. injection Hs' as Hs'. destruct (Hc s true Hs') as [[_ Hn] _]; [done|]. destruct Hn. eauto.
  - intros d x s a b [[-> ->]|[Hd Hx]]%Hlook Hs; [|eauto]. cbn in Hs. injection Hs as Hs. by apply (Hc s a Hs).
  - by apply (recast_anchored (objects (in_wl w))).
Qed.

(** What giving the role of the old cursor back does. *)
Definition dropped (c : option Cursor) (o : WlObjects) : WlObjects :=
  match c with Some (WlSurfaceCursor s true _ _) => clear_role o s | _ => o end.
Lemma drop_cursor_eq c w : drop_cursor c w = (w <| in_wl := (in_wl w) <| objects := dropped c (in_objects w) |> |>, [], Ret tt).
Proof.
  unfold drop_cursor, dropped, in_objects. destruct c as [[| |s [] h o]|]; try done; unfold mret, Act_ret; by destruct w as [[]].
Qed.
Lemma dropped_ok w p q : InputInv None w -> in_pointers w !! p = Some q ->
  WorldInv ((in_wl w) <| objects := dropped (wp_cursor q) (in_objects w) |>) /\ recast (in_objects w) (dropped (wp_cursor q) (in_objects w)) /\
  (forall d, is_cursor (in_objects w) d -> (cursor_core <$> wp_cursor q) <> Some (Some (d, true)) -> is_cursor (dropped (wp_cursor q) (in_objects w)) d).
Proof.
  intros Hi Hq. unfold dropped, in_objects. assert (Hsame : (in_wl w) <| objects := objects (in_wl w) |> = in_wl w) by (by destruct (in_wl w)).
  destruct (wp_cursor q) as [[| |s [] h o]|] eqn:Ec; try (by rewrite Hsame; split; [apply Hi|]).
  assert (Hs : is_cursor (objects (in_wl w)) s) by (apply (iv_role None w Hi p q s Hq); by rewrite Ec).
  destruct (drop_cursor_served (in_wl w) s (iv_wl _ _ Hi) Hs) as [H1 H2]. split; [done|]. split.
  - by eapply recast_set; [exact Hs|right|left].
  - intros d Hd Hne. apply (H2 d); [|done]. cbn in Hne. congruence.
Qed.

Lemma dropped_null c o s : role_of o s = Some null_role -> role_of (dropped c o) s = Some null_role.
Proof.
  intros H. unfold dropped. destruct c as [[| |x [] h ov]|]; try done. unfold role_of, clear_role in *. cbn.
  destruct (decide (s = x)) as [->|]; [rewrite lookup_alter_eq; by destruct (wl_surfaces o !! x)|by rewrite lookup_alter_ne].
Qed.

(** A surface without a role becomes a cursor. *)
Lemma take_cursor_role m s : WorldInv m -> role_of (objects m) s = Some null_role ->
  exists o, set_role (objects m) s cursor_role = Ret o /\ WorldInv (m <| objects := o |>) /\ recast (objects m) o /\
    forall d, role_of o d = if decide (d = s) then Some cursor_role else role_of (objects m) d.
Proof.
  intros Hm Hn. assert (Hs : is_Some (wl_surfaces (objects m) !! s)) by (apply role_known; by rewrite Hn).
  pose proof (set_role_served placed_size scene_visible scene_state default_params None (objects m) s cursor_role (wd_objects _ Hm) Hs ltac:(done)) as H.
  assert (E : set_role (objects m) s cursor_role = Ret (alter_surface s (fun su => su <| wl_role := cursor_role |>) (objects m))).
  { unfold set_role. unfold role_of in Hn. destruct (wl_surfaces (objects m) !! s) as [su|]; [|done]. injection Hn as Hn. by rewrite bool_decide_true. }
  rewrite E in H. eexists. split; [exact E|]. destruct H as (Ho & _ & _ & Hr). split; [|split; [by eapply recast_set; [exact Hn|left|right]|done]].
  split; [done|]. intros d. cbn. rewrite (wd_windows _ Hm d). unfold is_window. rewrite (Hr d). destruct (decide (d = s)) as [->|]; [rewrite Hn; naive_solver|done].
Qed.

Definition cursor_free (w : InputWorld) (p : Z) (surface : option Z) : bool :=
  match in_pointers w !! p with
  | None => false
  | Some q =>
      match surface with
      | None => true
      | Some s =>
          bool_decide ((cursor_core <$> wp_cursor q) = Some (Some (s, true))) ||
          bool_decide (role_of (in_objects w) s = Some null_role) && match in_posted w !! s with Some b => readable b | None => true end
      end
  end.

(** The new cursor shows on the surface that the pointer is on. *)
Lemma new_cursor_ok w p q c o' : InputInv None w -> in_pointers w !! p = Some q ->
  (forall s, surface_under_cursor q = Some s -> returns (scene_surface (wl_fuel (in_objects w)) (in_wl w) s)) ->
  recast (in_objects w) o' ->
  let w' := w <| in_pointers := <[p := q <| wp_cursor := Some c |>]> (in_pointers w) |> <| in_wl := (in_wl w) <| objects := o' |> |> in
  InputInv None w' ->
  ok (match surface_under_cursor q with Some s => cursor_apply_to p s | None => mret tt end) w' (fun _ w'' => InputInv None w'').
Proof.
  intros Hi Hq Hs Hrc w' Hi'. destruct (surface_under_cursor q) as [s|]; [|by apply ok_ret].
  eapply ok_mono; [apply (cursor_apply_to_ok None); [done|cbn; rewrite lookup_insert_eq; by eexists|]|intros [] w2 Ha; by apply (alike_inv None w')].
  change (in_objects w') with o'. change (in_wl w') with ((in_wl w) <| objects := o' |>).
  assert (Ef : wl_fuel o' = wl_fuel (in_objects w)) by (unfold wl_fuel; by rewrite (rc_size _ _ Hrc)).
  rewrite Ef. apply recast_scene; [done|]. by apply Hs.
Qed.

(** The pointers keep their place. *)
Lemma told_cursor w w' p q c : in_pointers w !! p = Some q -> in_pointers w' = <[p := q <| wp_cursor := c |>]> (in_pointers w) -> told w [] w'.
Proof.
  intros Hq E d v Hv. exists v. split; [done|]. rewrite E. destruct (decide (d = p)) as [->|]; [|by rewrite lookup_insert_ne].
  rewrite lookup_insert_eq. by rewrite Hq in Hv.
Qed.

Lemma set_cursor_ok p surface hotspot w : InputInv None w -> cursor_free w p surface = true ->
  ok (set_cursor p surface hotspot) w (fun _ w' => InputInv None w').
Proof.
  intros Hi Hfree. unfold cursor_free in Hfree. destruct (in_pointers w !! p) as [q|] eqn:Hq; [|done].
  rename Hfree into Hsurf.
  assert (Hret : forall s, surface_under_cursor q = Some s -> returns (scene_surface (wl_fuel (in_objects w)) (in_wl w) s)).
  { intros s Hs. pose proof (wd_objects _ (iv_wl _ _ Hi)) as Ho. apply grounded_scene; [done|]. apply anchored_grounded; [done|apply Hi|].
    by apply (iv_under None w Hi p q s). }
  destruct (dropped_ok w p q Hi Hq) as (Hwd & Hrd & Hcd). unfold set_cursor. apply ok_bind, (the_pointer_ok p q); [done|].
  set (o1 := dropped (wp_cursor q) (in_objects w)) in *.
  destruct (iv_cursor None w Hi p q Hq) as [c Hc]. destruct surface as [s|].
  - rewrite Hc. destruct (decide (cursor_surface c = Some s)) as [Eown|Eown]; [rewrite bool_decide_true by done|rewrite bool_decide_false by done].
    + destruct c as [| |own alive h over]; try (by apply ok_ret). apply ok_bind, ok_on_pointer; [done|].
      set (w1 := w <| in_pointers := _ |>).
      assert (Ha : alike w w1).
      { split; try done. cbn. apply map_eq. intros d. rewrite !lookup_fmap. destruct (decide (d = p)) as [->|]; [|by rewrite lookup_alter_ne].
        rewrite lookup_alter_eq, Hq. cbn. unfold pointer_core. by rewrite Hc. }
      eapply ok_mono; [apply apply_latest_buffer_ok|intros [] w2 ->; by apply (alike_inv None w)].
      intros b Hb. apply (iv_posted None w Hi p q own alive b Hq); [by rewrite Hc|done].
    + assert (Hnew : role_of (in_objects w) s = Some null_role /\ forall b, in_posted w !! s = Some b -> readable b = true).
      { apply orb_true_iff in Hsurf as [Hs%bool_decide_eq_true|[Hs%bool_decide_eq_true Hb]%andb_true_iff].
        - rewrite Hc in Hs. destruct c as [| |x [] h o]; cbn in *; congruence.
        - split; [done|]. intros b E. by rewrite E in Hb. }
      destruct Hnew as [Hnull Hread].
      destruct (take_cursor_role _ s Hwd (dropped_null _ _ s Hnull)) as (o2 & E2 & Hw2 & Hrc2 & Hr2). change (objects _) with o1 in E2, Hrc2, Hr2.
      pose proof (recast_trans _ _ _ Hrd Hrc2) as Hrc.
      set (c2 := WlSurfaceCursor s true hotspot None).
      set (w2 := w <| in_pointers := <[p := q <| wp_cursor := Some c2 |>]> (in_pointers w) |> <| in_wl := (in_wl w) <| objects := o2 |> |>).
      assert (Hi2 : InputInv None w2).
      { apply recursor_inv; [done..| |].
        - intros d Hd Hne. destruct (decide (d = s)) as [->|]; [unfold is_cursor in Hd; congruence|]. unfold is_cursor. rewrite Hr2, decide_False by done. by apply Hcd.
        - intros d a [= <- <-]. split; [|done]. intros _. split; [unfold is_cursor; by rewrite Hr2, decide_True|]. unfold is_cursor. congruence. }
      eapply (ok_bind (on_pointer p _)). apply ok_on_pointer; [done|]. eapply (ok_bind (drop_cursor _)).
      set (w1 := w <| in_pointers := alter _ p (in_pointers w) |>).
      exists tt, (w1 <| in_wl := (in_wl w1) <| objects := dropped (Some c) (in_objects w1) |> |>), []. split; [apply drop_cursor_eq|].
      split; [by apply told_same|]. rewrite <- Hc. change (in_objects w1) with (in_objects w). change (in_wl w1) with (in_wl w). fold o1.
      apply ok_bind. eapply ok_lifted; [exact E2|]. apply ok_bind, ok_change; [by apply told_same|]. apply ok_bind, ok_on_pointer; [done|].
      match goal with |- ok _ ?x _ => replace x with w2; [by apply new_cursor_ok|] end.
      unfold w2, w1. cbn. destruct w; cbn in *. f_equal. rewrite (alter_known _ p _ q Hq).
      rewrite (alter_known _ p _ (q <| wp_cursor := None |>)) by (by rewrite lookup_insert_eq). by rewrite insert_insert_eq.
  - set (w2 := w <| in_pointers := <[p := q <| wp_cursor := Some WlHiddenCursor |>]> (in_pointers w) |> <| in_wl := (in_wl w) <| objects := o1 |> |>).
    assert (Hi2 : InputInv None w2) by (by apply recursor_inv).
    eapply (ok_bind (on_pointer p _)). apply ok_on_pointer; [done|]. eapply (ok_bind (drop_cursor _)). rewrite (alter_known _ p (in_pointers w) q Hq).
    exists tt, w2, []. split; [exact (drop_cursor_eq (wp_cursor q) (w <| in_pointers := <[p := q <| wp_cursor := Some WlHiddenCursor |>]> (in_pointers w) |>))|].
    split; [by apply told_same|]. by apply new_cursor_ok.
Qed.

(** ** Devices come and go *)
Lemma release_inv w p q o' dl pl : InputInv None w -> in_pointers w !! p = Some q ->
  WorldInv ((in_wl w) <| objects := o' |>) -> recast (in_objects w) o' ->
  (forall d, is_cursor (in_objects w) d -> (cursor_core <$> wp_cursor q) <> Some (Some (d, true)) -> is_cursor o' d) ->
  (forall s x, x ∈ listeners dl s <-> x ∈ listeners (destroy_listeners w) s /\ x <> p) ->
  (forall c x, x ∈ listeners pl c -> x ∈ listeners (pointer_listeners w) c /\ x <> p) -> (forall c, NoDup (listeners pl c)) ->
  InputInv None (w <| destroy_listeners := dl |> <| pointer_listeners := pl |> <| in_wl := (in_wl w) <| objects := o' |> |>
                   <| in_pointers := delete p (in_pointers w) |>).
Proof.
  intros [H1 H2 H3 H4 H5 H6 H7 H8 H9 H10 H11 H12 H13] Hq Hm Hrc Hcur Hdl Hpl Hnd.
  assert (Hlook : forall d x, delete p (in_pointers w) !! d = Some x -> d <> p /\ in_pointers w !! d = Some x).
  { intros d x [? ?]%lookup_delete_Some. done. }
  split; try done; unfold in_objects in *; cbn.
  - intros d x s [Hd Hx]%Hlook Hu. destruct (H2 d x s Hx Hu) as [Hk [[=]|Hl]]. split; [|right; by apply Hdl].
    by eapply recast_known.
  - intros s x [Hx Hne]%Hdl. rewrite lookup_delete_ne by done. by apply H3.
  - intros c x [Hx Hne]%Hpl. rewrite lookup_delete_ne by done. by apply H4.
  - intros d x [_ Hx]%Hlook. eauto.
  - intros d x s [Hd Hx]%Hlook Hs. apply Hcur; [eauto|]. intros E. apply Hd. eapply H9; eauto.
  - intros d d' x x' s [_ Hx]%Hlook [_ Hx']%Hlook. eauto.
  - intros d x s a b [_ Hx]%Hlook. eauto.
  - by apply (recast_anchored (objects (in_wl w))).
Qed.

Lemma release_pointer_ok p w : InputInv None w -> is_Some (in_pointers w !! p) -> ok (release_pointer p) w (fun _ w' => InputInv None w').
Proof.
  intros Hi [q Hq]. unfold release_pointer. apply ok_bind, (the_pointer_ok p q); [done|]. destruct (dropped_ok w p q Hi Hq) as (Hwd & Hrd & Hcd).
  set (o1 := dropped (wp_cursor q) (in_objects w)) in *.
  set (dl := match surface_under_cursor q with Some s => alter (erase_all p) s (destroy_listeners w) | None => destroy_listeners w end).
  set (pl := alter (erase_all p) (wp_client q) (pointer_listeners w)).
  apply ok_bind. eapply (ok_mono _ _ (fun _ w' => w' = w <| destroy_listeners := dl |>)).
  { unfold dl. destruct (surface_under_cursor q) as [s|] eqn:Eu; [|apply ok_ret; by destruct w].
    destruct (iv_under None w Hi p q s Hq Eu) as [[su Hs] _]. apply ok_bind. eapply ok_lifted; [by rewrite Hs|].
    apply ok_change; [by apply told_same|done]. }
  intros [] w1 ->. apply ok_bind, ok_change; [by apply told_same|]. apply ok_bind.
  eexists tt, _, []. split; [apply drop_cursor_eq|]. split; [by apply told_same|].
  set (w2 := w <| destroy_listeners := dl |> <| pointer_listeners := pl |> <| in_wl := (in_wl w) <| objects := o1 |> |> <| in_pointers := delete p (in_pointers w) |>).
  exists tt, w2, [pointer_gone p]. split; [done|]. split.
  - intros d v Hv. cbn. destruct (decide (d = p)) as [->|Hd].
    + rewrite decide_True, lookup_delete_eq by done. cbn in Hv. rewrite Hq in Hv. destruct v as [[]|]; [by exists None|done].
    + rewrite decide_False, lookup_delete_ne by done. by exists v.
  - apply (release_inv w p q); [done..| | |].
    + intros s x. unfold dl. destruct (surface_under_cursor q) as [u|] eqn:Eu; [rewrite elem_of_listeners_erase|].
      * split; intros [Hx Hne]; (split; [done|]); [|naive_solver]. intros ->. destruct (iv_listen None w Hi s p Hx) as (q0 & Hq0 & Hu0).
        apply Hne. split; [congruence|done].
      * split; [|by intros [? _]]. intros Hx. split; [done|]. intros ->. destruct (iv_listen None w Hi s p Hx) as (q0 & Hq0 & Hu0). congruence.
    + intros c x Hx. unfold pl in Hx. apply elem_of_listeners_erase in Hx as [Hx Hne]. split; [done|]. intros ->.
      destruct (iv_pointers None w Hi c p Hx) as (q0 & Hq0 & <-). apply Hne. split; [congruence|done].
    + intros c. unfold pl, listeners. pose proof (iv_nodup None w Hi c) as Hnd. unfold listeners in Hnd.
      destruct (decide (c = wp_client q)) as [->|]; [rewrite lookup_alter_eq|by rewrite lookup_alter_ne].
      destruct (pointer_listeners w !! wp_client q); [by apply erase_all_NoDup|constructor].
Qed.

Lemma elem_of_listeners_push l c c' k x : x ∈ listeners (<[c := default [] (l !! c) ++ [k]]> l) c' <-> x ∈ listeners l c' \/ (c' = c /\ x = k).
Proof.
  rewrite elem_of_listeners_insert. case_decide as E; [subst|naive_solver]. rewrite elem_of_app, list_elem_of_singleton. unfold listeners. naive_solver.
Qed.

Lemma get_pointer_ok client p frames w : InputInv None w -> in_pointers w !! p = None -> ok (get_pointer client p frames) w (fun _ w' => InputInv None w').
Proof.
  intros Hi Hn. set (q := mkWlPointer client frames false None (Some NullCursor)).
  set (w1 := w <| in_pointers := <[p := q]> (in_pointers w) |> <| pointer_listeners := <[client := default [] (pointer_listeners w !! client) ++ [p]]> (pointer_listeners w) |>).
  exists tt, w1, [pointer_bound p]. split; [done|]. split.
  - intros d v Hv. cbn. destruct (decide (d = p)) as [->|Hd].
    + rewrite decide_True, lookup_insert_eq by done. rewrite Hn in Hv. destruct v; [done|]. eexists. split; [done|]. by cbn.
    + rewrite decide_False, lookup_insert_ne by done. by exists v.
  - destruct Hi as [H1 H2 H3 H4 H5 H6 H7 H8 H9 H10 H11 H12 H13].
    assert (Hlook : forall d x, <[p := q]> (in_pointers w) !! d = Some x -> (d = p /\ x = q) \/ in_pointers w !! d = Some x).
    { intros d x [[-> <-]|[_ Hx]]%lookup_insert_Some; auto. }
    assert (Hback : forall d x, in_pointers w !! d = Some x -> <[p := q]> (in_pointers w) !! d = Some x) by (intros d x Hx; by rewrite lookup_insert_ne by congruence).
    split; try done; unfold in_objects; cbn.
    + intros d x s [[-> ->]|Hx]%Hlook; [done|]. by apply H2.
    + intros s x Hx. destruct (H3 s x Hx) as (y & Hy & Hu). eauto.
    + intros c x [Hx|[-> ->]]%elem_of_listeners_push; [destruct (H4 c x Hx) as (y & Hy & Hc); eauto|]. exists q. by rewrite lookup_insert_eq.
    + intros d x [[-> ->]|Hx]%Hlook; [by eexists|eauto].
    + intros d x s [[-> ->]|Hx]%Hlook; [done|eauto].
    + intros d d' x x' s [[-> ->]|Hx]%Hlook [[-> ->]|Hx']%Hlook; try done. eauto.
    + intros d x s a b [[-> ->]|Hx]%Hlook; [done|eauto].
    + intros c. unfold listeners. destruct (decide (c = client)) as [->|]; [|rewrite lookup_insert_ne by done; apply H12].
      rewrite lookup_insert_eq. cbn. apply NoDup_app. split; [apply H12|]. split; [|apply NoDup_singleton]. intros x Hx ->%list_elem_of_singleton.
      destruct (H4 client p Hx) as (y & Hy & _). congruence.
Qed.

Lemma inv_touches w tm tl : InputInv None w -> (forall c t, t ∈ listeners tl c -> (wt_client <$> tm !! t) = Some c) ->
  InputInv None (w <| in_touches := tm |> <| touch_listeners := tl |>).
Proof. intros [] H. by split. Qed.
Lemma inv_keyboards w km kl : InputInv None w -> (forall c k, k ∈ listeners kl c -> (kb_client <$> km !! k) = Some c) ->
  InputInv None (w <| in_keyboards := km |> <| keyboard_listeners := kl |>).
Proof. intros [] H. by split. Qed.
Lemma register_known {A} (owner : A -> Z) k (x : A) (m : gmap Z A) l c d :
  (forall c d, d ∈ listeners l c -> (owner <$> m !! d) = Some c) -> m !! k = None ->
  d ∈ listeners (register k x (owner x) m l).2 c -> (owner <$> (register k x (owner x) m l).1 !! d) = Some c.
Proof.
  intros H Hn. cbn. intros [Hd|[-> ->]]%elem_of_listeners_push; [|by rewrite lookup_insert_eq].
  specialize (H c d Hd). rewrite lookup_insert_ne; [done|]. intros ->. by rewrite Hn in H.
Qed.
Lemma unregister_known {A} (owner : A -> Z) k (x : A) (m : gmap Z A) l c d :
  (forall c d, d ∈ listeners l c -> (owner <$> m !! d) = Some c) -> m !! k = Some x ->
  d ∈ listeners (alter (erase_all k) (owner x) l) c -> (owner <$> delete k m !! d) = Some c.
Proof.
  intros H Hk [Hd Hne]%elem_of_listeners_erase. specialize (H c d Hd). rewrite lookup_delete_ne; [done|]. intros ->.
  rewrite Hk in H. injection H as <-. by destruct Hne.
Qed.

(** ** Everything together *)
(** What the parts of the server outside promise: a pointer enters a window
    when it is on no surface, touches move while their surfaces exist; and what
    a client has to keep to: identities are fresh, and requests are free. *)
Definition step_free (w : InputWorld) (st : InputStep) : bool :=
  match st with
  | IEvent s ev => event_free w s ev
  | IRequest req => request_free w req
  | IGetPointer _ p _ => bool_decide (in_pointers w !! p = None)
  | IReleasePointer p => bool_decide (is_Some (in_pointers w !! p))
  | ISetCursor p surface _ => cursor_free w p surface
  | IGetTouch _ t => bool_decide (in_touches w !! t = None)
  | IReleaseTouch t => bool_decide (is_Some (in_touches w !! t))
  | IGetKeyboard _ k _ => bool_decide (in_keyboards w !! k = None)
  | IReleaseKeyboard k => bool_decide (is_Some (in_keyboards w !! k))
  | _ => true
  end.
Fixpoint run_free (w : InputWorld) (steps : list InputStep) : bool :=
  match steps with
  | [] => true
  | st :: steps => step_free w st && run_free (input_step st w).1.1 steps
  end.

Lemma alike_fine a w : InputInv None w -> ok a w (fun _ w' => alike w w') -> fine a w.
Proof. intros Hi H. apply ok_fine. eapply ok_mono; [exact H|]. intros [] w' Ha. by apply (alike_inv None w). Qed.
Lemma unless_gone_fine s a w : InputInv None w -> (is_window (in_objects w) s -> fine a w) -> fine (unless_gone s a) w.
Proof.
  intros Hi Ha. unfold unless_gone. apply ok_then_fine', ok_read.
  case_bool_decide as Hk; [|by apply ok_fine, ok_ret]. apply Ha. by apply (wd_windows _ (iv_wl _ _ Hi)).
Qed.

Lemma input_step_fine st w : InputInv None w -> step_free w st = true -> fine (input_step st) w.
Proof.
  intros Hi Hfree. destruct st as [s ev|s b|s k|req|c p fr|p|p sf h|c t|t|c k r|k|keys|k| |]; cbn [input_step step_free] in *.
  - apply unless_gone_fine; [done|]. intros Hw. apply ok_fine. by apply handle_event_ok.
  - apply unless_gone_fine; [done|]. intros Hw. apply alike_fine; [done|]. unfold set_focus. apply ok_bind.
    eapply (ok_mono _ _ (fun _ w' => alike w w')); [destruct b; [apply wl_notify_focus_ok|by apply ok_ret]|].
    intros [] w1 Ha. eapply ok_mono; [apply (each_keyboard_ok None); [intros; apply focussed_client|by apply (alike_inv None w)]|].
    intros [] w2 Ha2. by etrans.
  - apply unless_gone_fine; [done|]. intros Hw. apply alike_fine; [done|]. by apply (each_keyboard_ok None).
  - by apply client_request_fine.
  - apply bool_decide_eq_true in Hfree. apply ok_fine. by apply get_pointer_ok.
  - apply bool_decide_eq_true in Hfree. apply ok_fine. by apply release_pointer_ok.
  - apply ok_fine. by apply set_cursor_ok.
  - apply bool_decide_eq_true in Hfree. apply ok_fine, ok_change; [by apply told_same|].
    apply inv_touches; [done|]. intros c' t'. apply (register_known wt_client t (mkWlTouch c ∅ false)); [apply (iv_touches None w Hi)|done].
  - apply bool_decide_eq_true in Hfree as [x Hx]. apply ok_fine. unfold release_touch. apply ok_bind. eapply ok_lifted; [by rewrite Hx|].
    apply ok_change; [by apply told_same|].
    apply (inv_touches w (delete t (in_touches w)) (alter (erase_all t) (wt_client x) (touch_listeners w)) Hi).
    intros c' t'. apply unregister_known; [apply (iv_touches None w Hi)|done].
  - apply bool_decide_eq_true in Hfree. apply ok_fine. unfold get_keyboard. apply ok_bind, ok_read.
    assert (Hc : kb_client (new_keyboard xkb_state_new c (seat_keymap w) r).1 = c) by done.
    destruct (new_keyboard xkb_state_new c (seat_keymap w) r) as [kb calls]. cbn in Hc. subst c. apply ok_bind.
    eapply ok_mono; [apply (ok_each _ _ (fun w' => w' = w)); [intros c' w' _ ->; apply ok_tell; [by apply told_silent|done]|done]|].
    intros [] w1 ->. apply ok_change; [by apply told_same|]. apply inv_keyboards; [done|]. intros c' k'.
    apply (register_known kb_client k kb); [apply (iv_keyboards None w Hi)|done].
  - apply bool_decide_eq_true in Hfree as [x Hx]. apply ok_fine. unfold release_keyboard. apply ok_bind. eapply ok_lifted; [by rewrite Hx|].
    apply ok_change; [by apply told_same|].
    apply (inv_keyboards w (delete k (in_keyboards w)) (alter (erase_all k) (kb_client x) (keyboard_listeners w)) Hi).
    intros c' k'. apply unregister_known; [apply (iv_keyboards None w Hi)|done].
  - apply alike_fine; [done|]. by apply ok_change; [apply told_same|split].
  - apply alike_fine; [done|]. unfold device_keymap. apply ok_change; case_bool_decide; [by apply told_same..|done|by split].
  - apply alike_fine; [done|]. by apply ok_change; [apply told_same|split].
  - apply alike_fine; [done|]. unfold server_restart. apply ok_bind, ok_read. destruct (focused_client w) as [c|]; [|by apply ok_ret].
    apply (each_keyboard_ok None); [|done]. intros acquired. apply resync_client.
Qed.

Lemma empty_input_inv : InputInv None empty_input.
Proof.
  split; cbn; try done; unfold listeners, in_objects; cbn.
  - apply empty_world_inv.
  - intros s p. rewrite lookup_empty. intros H. by apply not_elem_of_nil in H.
  - intros s p. rewrite lookup_empty. intros H. by apply not_elem_of_nil in H.
  - intros s p. rewrite lookup_empty. intros H. by apply not_elem_of_nil in H.
  - intros s p. rewrite lookup_empty. intros H. by apply not_elem_of_nil in H.
  - intros s. rewrite lookup_empty. by intros [? ?].
  - intros c. rewrite lookup_empty. constructor.
Qed.

Lemma input_run_fine steps w : InputInv None w -> run_free w steps = true ->
  exists w' calls, input_run steps w = (w', calls, Ret tt) /\ told w calls w' /\ InputInv None w'.
Proof.
  revert w. induction steps as [|st steps IH]; intros w Hi Hf; [exists w, []; split; [done|]; split; [by apply told_same|done]|].
  cbn [run_free] in Hf. apply andb_true_iff in Hf as [Hst Hf]. destruct (input_step_fine st w Hi Hst) as (w1 & c1 & r & E & T1 & Hi1 & Hr).
  rewrite E in Hf. cbn in Hf. destruct (IH w1 Hi1 Hf) as (w2 & c2 & E2 & T2 & Hi2). exists w2, (c1 ++ c2). cbn [input_run]. rewrite E.
  split; [|split; [by eapply told_trans|done]]. destruct Hr as [->| ->]; [|rewrite bool_decide_true by done]; by rewrite E2.
Qed.

(** C16: (safety) Clients make [tame] requests with identities of their own; a
    window is entered only while none of its client's pointers is on a surface, a
    touch moves only on a surface that exists, and a new cursor has no other role
    and readable buffers ([run_free]).  Then input is delivered without a failure,
    and every client can follow which surface each of its pointers is on: the
    pointer crosses to another surface of a tree by a leave and an enter, leaves
    a surface that is destroyed, moves only on the surface it has entered, and no
    frame is sent for nothing; and the surface that the client has been told last
    is the one that the server has recorded.  Positions are another matter:
    [crossing_displaced]. *)
Theorem pointers_told steps : run_free empty_input steps = true ->
  exists w calls, input_run steps empty_input = (w, calls, Ret tt) /\
    forall p, exists v, pointer_takes_all p None calls = Some v /\ shows (in_pointers w !! p) v.
Proof.
  intros Hf. destruct (input_run_fine steps empty_input empty_input_inv Hf) as (w & calls & E & Ht & _). exists w, calls. split; [done|].
  intros p. by apply (Ht p None).
Qed.
End Pointers.
