(* ===== verification/WlTold.v ===== *)
(** * Buttons, positions and touches of Wayland clients

    What a client learns from the presses and releases of buttons and from the
    positions it is told, by the input code of [WlInput], and examples of what
    goes wrong. *)
From S2P Require Import Prelude Geometry InputEvents WindowInfo SurfaceSpec WlSurfaces WlWindows WlClient WlKeyboards WlInput WlPointers.

Section Told.
Context {env : InputEnv}.

(** ** Buttons *)
(** The buttons of [buttons] as the client knows them. *)
Definition held_buttons (buttons : Z) : list Z :=
  omap (fun mapping : Z * Z => if has_flag buttons mapping.1 then Some mapping.2 else None) button_mapping.

(** How a client takes presses and releases; none if a button that is down is
    pressed or one that is up is released. *)
Fixpoint buttons_take (down : gset Z) (changes : list (Z * bool)) : option (gset Z) :=
  match changes with
  | [] => Some down
  | (b, pressed) :: changes =>
      if bool_decide (b ∈ down) then (if pressed : bool then None else buttons_take (down ∖ {[b]}) changes)
      else (if pressed : bool then buttons_take ({[b]} ∪ down) changes else None)
  end.
Definition buttons_of (p : Z) (calls : list InputCall) : list (Z * bool) :=
  omap (fun c => match c with send_button p' _ b pressed => if decide (p' = p) then Some (b, pressed) else None | _ => None end) calls.

Lemma has_flag_bit v k : 0 <= k -> has_flag v (2 ^ k) = Z.testbit v k.
Proof.
  intros Hk. unfold has_flag. destruct (Z.testbit v k) eqn:E.
  - apply negb_true_iff, Z.eqb_neq. intros H. apply (f_equal (fun z => Z.testbit z k)) in H.
    rewrite Z.land_spec, Z.pow2_bits_true, E, Z.bits_0 in H by done. done.
  - apply negb_false_iff, Z.eqb_eq. apply Z.bits_inj_0. intros n. rewrite Z.land_spec. destruct (decide (n = k)) as [->|Hn]; [by rewrite E|].
    rewrite Z.pow2_bits_false by done. apply andb_false_r.
Qed.

(** The changes bring the buttons of any part of the mapping from those of
    [last] to those of [now]. *)
Lemma changes_take (mapping : list (Z * Z)) last now (down : gset Z) :
  NoDup mapping.*2 -> (forall m, m ∈ mapping -> exists k, 0 <= k /\ m.1 = 2 ^ k) ->
  (forall m, m ∈ mapping -> m.2 ∈ down <-> has_flag last m.1 = true) ->
  exists down', buttons_take down (omap (fun m : Z * Z => if has_flag (Z.lxor now last) m.1 then Some (m.2, has_flag now m.1) else None) mapping) = Some down' /\
    (forall m, m ∈ mapping -> m.2 ∈ down' <-> has_flag now m.1 = true) /\ (forall b, b ∉ mapping.*2 -> b ∈ down' <-> b ∈ down).
Proof.
  revert down. induction mapping as [|[flag b] mapping IH]; intros down Hnd Hbit Hdown; [exists down; split; [done|]; split; [|done]; intros m Hm; by apply not_elem_of_nil in Hm|].
  cbn in Hnd. apply NoDup_cons in Hnd as [Hb Hnd]. destruct (Hbit (flag, b)) as (k & Hk & Ef); [by left|]. cbn in Ef. subst flag.
  pose proof (Hdown (2 ^ k, b) ltac:(by left)) as Hd. cbn in Hd. cbn [omap list_omap fst snd].
  assert (Hx : has_flag (Z.lxor now last) (2 ^ k) = xorb (has_flag now (2 ^ k)) (has_flag last (2 ^ k))).
  { rewrite !has_flag_bit by done. apply Z.lxor_spec. }
  set (down1 := if has_flag now (2 ^ k) then {[b]} ∪ down else down ∖ {[b]}).
  assert (Hother : forall x, x <> b -> x ∈ down1 <-> x ∈ down) by (intros x Hxb; unfold down1; destruct (has_flag now _); set_solver).
  assert (Hself : b ∈ down1 <-> has_flag now (2 ^ k) = true) by (unfold down1; destruct (has_flag now (2 ^ k)); set_solver).
  destruct (IH down1) as (down' & Et & Hin & Hout); [done|intros m Hm; apply Hbit; by right| |].
  { intros m Hm. rewrite Hother; [apply Hdown; by right|]. intros E. apply Hb. rewrite <- E. by apply (list_elem_of_fmap_2 snd). }
  exists down'. split; [|split].
  - rewrite Hx. destruct (has_flag now (2 ^ k)) eqn:E1, (has_flag last (2 ^ k)) eqn:E2; cbn [xorb].
    + replace down with down1; [done|]. unfold down1. apply set_eq. intros x. destruct (decide (x = b)) as [->|]; set_solver.
    + cbn [buttons_take]. rewrite bool_decide_false by (intros H; by apply Hd in H). exact Et.
    + cbn [buttons_take]. rewrite bool_decide_true by (by apply Hd). exact Et.
    + replace down with down1; [done|]. unfold down1. apply set_eq. intros x. destruct (decide (x = b)) as [->|]; [|set_solver].
      split; [set_solver|]. intros H. by apply Hd in H.
  - intros m [->|Hm]%elem_of_cons; [|by apply Hin]. cbn. by rewrite (Hout b Hb).
  - intros x Hxm. cbn in Hxm. apply not_elem_of_cons in Hxm as [Hxb Hxm]. rewrite Hout by done. by apply Hother.
Qed.

Lemma mapping_bits m : m ∈ button_mapping -> exists k, 0 <= k /\ m.1 = 2 ^ k.
Proof.
  intros Hm. unfold button_mapping in Hm. rewrite !elem_of_cons in Hm.
  destruct Hm as [->|[->|[->|[->|[->|[->|[->|[->|Hm]]]]]]]]; [exists 0|exists 1|exists 2|exists 3|exists 4|exists 5|exists 7|exists 6|by apply not_elem_of_nil in Hm]; done.
Qed.

Lemma held_buttons_take last now :
  buttons_take (list_to_set (held_buttons last)) (changed_buttons last now) = Some (list_to_set (held_buttons now)).
Proof.
  assert (Hheld : forall v m, m ∈ button_mapping -> m.2 ∈ (list_to_set (held_buttons v) : gset Z) <-> has_flag v m.1 = true).
  { intros v m Hm. rewrite elem_of_list_to_set. unfold held_buttons. rewrite list_elem_of_omap. split.
    - intros (m' & Hm' & E). destruct (has_flag v m'.1) eqn:Ef; [|done]. injection E as E.
      replace m with m'; [done|]. clear Ef. unfold button_mapping in *. rewrite !elem_of_cons in Hm, Hm'.
      destruct_or! Hm; destruct_or! Hm'; subst; try done; by apply not_elem_of_nil in Hm || apply not_elem_of_nil in Hm'.
    - intros E. exists m. split; [done|]. by rewrite E. }
  destruct (changes_take button_mapping last now (list_to_set (held_buttons last))) as (down' & E & Hin & Hout).
  - by apply (bool_decide_unpack _); vm_compute.
  - apply mapping_bits.
  - apply Hheld.
  - unfold changed_buttons. rewrite E. f_equal. apply set_eq. intros b. destruct (decide (b ∈ button_mapping.*2)) as [Hb|Hb].
    + apply list_elem_of_fmap in Hb as (m & -> & Hm). by rewrite Hin, Hheld.
    + rewrite Hout by done. rewrite !elem_of_list_to_set. unfold held_buttons. rewrite !list_elem_of_omap.
      split; intros (m & Hm & Ef); exfalso; apply Hb; apply list_elem_of_fmap; exists m; (split; [|done]).
      * destruct (has_flag last m.1); congruence.
      * destruct (has_flag now m.1); congruence.
Qed.

(** What a button event leaves alone. *)
Record unmoved (w w' : InputWorld) : Prop := {
  un_dispatchers : dispatchers w' = dispatchers w;
  un_listeners : pointer_listeners w' = pointer_listeners w;
  un_world : in_wl w' = in_wl w;
  un_pointers : dom (in_pointers w') = dom (in_pointers w)
}.
#[global] Instance unmoved_preorder : PreOrder unmoved.
Proof. split; [by split|]. intros a b c [] []. split; congruence. Qed.
Lemma unmoved_pointer f p w : unmoved w (w <| in_pointers := alter f p (in_pointers w) |>).
Proof. split; try done. cbn. by rewrite dom_alter_L. Qed.
Lemma unmoved_known p w w' : unmoved w w' -> is_Some (in_pointers w !! p) -> is_Some (in_pointers w' !! p).
Proof. intros [_ _ _ H]. by rewrite <- !elem_of_dom, H. Qed.
Lemma bind_ret {A B} (a : Act A) (f : A -> Act B) w w1 c1 x w2 c2 r :
  a w = (w1, c1, Ret x) -> f x w1 = (w2, c2, r) -> (a ≫= f) w = (w2, c1 ++ c2, r).
Proof. unfold mbind, Act_bind. intros -> ->. done. Qed.
Lemma buttons_of_app p a b : buttons_of p (a ++ b) = buttons_of p a ++ buttons_of p b.
Proof. apply omap_app. Qed.

(** [a] sends the pointer [p] the changes [bs] of buttons, and nobody else any. *)
Definition sends_buttons (to : list Z) (bs : list (Z * bool)) (a : Act unit) (w : InputWorld) : Prop :=
  exists w' calls, a w = (w', calls, Ret tt) /\ unmoved w w' /\ forall x, buttons_of x calls = if decide (x ∈ to) then bs else [].

Lemma buttons_sent p ms bs w : sends_buttons [p] bs (each bs (fun b : Z * bool => pointer_button p ms b.1 b.2)) w.
Proof.
  revert w. induction bs as [|[b pressed] bs IH]; intros w; [exists w, []; split; [done|]; split; [done|]; intros x; by case_decide|].
  destruct (IH (w <| in_pointers := alter (fun q => q <| can_send_frame := true |>) p (in_pointers w) |>)) as (w' & calls & E & Hu & Hc).
  exists w', ([send_button p ms b pressed] ++ calls). cbn [each]. split; [eapply bind_ret; [done|exact E]|].
  split; [etrans; [apply unmoved_pointer|done]|]. intros x. rewrite buttons_of_app, Hc. unfold buttons_of. cbn [omap list_omap].
  destruct (decide (p = x)) as [->|Hne]; [rewrite !decide_True by (by apply list_elem_of_singleton); done|].
  rewrite !decide_False by (by intros ->%list_elem_of_singleton). done.
Qed.
Lemma buttons_framed p ms bs w : is_Some (in_pointers w !! p) ->
  sends_buttons [p] bs (each bs (fun b : Z * bool => pointer_button p ms b.1 b.2);; pointer_frame p) w.
Proof.
  intros Hp. destruct (buttons_sent p ms bs w) as (w1 & c1 & E1 & Hu & Hc). destruct (unmoved_known p w w1 Hu Hp) as [q Hq].
  unfold sends_buttons, mbind, Act_bind. rewrite E1. unfold pointer_frame, the_pointer, lifted, mbind, Act_bind. cbn. rewrite Hq. cbn.
  destruct (can_send_frame q && wp_frames q); cbn; eexists _, _; (split; [done|]); (split; [etrans; [done|apply unmoved_pointer]|]);
    intros x; by rewrite buttons_of_app, Hc, app_nil_r.
Qed.
Lemma buttons_to_all ms bs ps w : NoDup ps -> (forall p, p ∈ ps -> is_Some (in_pointers w !! p)) ->
  sends_buttons ps bs (each ps (fun p => each bs (fun b : Z * bool => pointer_button p ms b.1 b.2);; pointer_frame p)) w.
Proof.
  revert w. induction ps as [|p ps IH]; intros w Hnd Hps; [by exists w, []|]. apply NoDup_cons in Hnd as [Hp Hnd].
  destruct (buttons_framed p ms bs w) as (w1 & c1 & E1 & Hu1 & Hc1); [apply Hps; by left|].
  destruct (IH w1 Hnd) as (w2 & c2 & E2 & Hu2 & Hc2); [intros x Hx; apply (unmoved_known x w w1 Hu1), Hps; by right|].
  exists w2, (c1 ++ c2). cbn [each]. unfold mbind at 1, Act_bind at 1. rewrite E1, E2. split; [done|]. split; [by etrans|].
  intros x. rewrite buttons_of_app, Hc1, Hc2. destruct (decide (x = p)) as [->|Hx].
  - rewrite (decide_True (P := p ∈ [p])), (decide_False (P := p ∈ ps)), (decide_True (P := p ∈ p :: ps)) by (done || by left).
    apply app_nil_r.
  - rewrite (decide_False (P := x ∈ [p])) by (by intros ->%list_elem_of_singleton). cbn [app]. apply decide_ext. rewrite elem_of_cons. naive_solver.
Qed.

(** The buttons that the window [s] was last told of. *)
Definition buttons_at (s : Z) (w : InputWorld) : Z := default 0 (last_pointer_buttons <$> dispatchers w !! s).
Definition is_button_event (e : MirPointerEvent) : bool :=
  match p_action e with mir_pointer_action_button_down | mir_pointer_action_button_up => true | _ => false end.

(** A window whose client's pointers all exist. *)
Definition window_served (s : Z) (w : InputWorld) : Prop :=
  let ps := listeners (pointer_listeners w) (client_of s) in
  is_Some (windows (in_wl w) !! s) /\ is_Some (dispatchers w !! s) /\ NoDup ps /\ forall p, p ∈ ps -> is_Some (in_pointers w !! p).
Lemma served_unmoved s w w' : unmoved w w' -> window_served s w -> window_served s w'.
Proof. intros [E1 E2 E3 E4] (H1 & H2 & H3 & H4). unfold window_served. rewrite E1, E2, E3. split_and!; try done. intros p Hp. rewrite <- elem_of_dom, E4, elem_of_dom. by apply H4. Qed.
Lemma served_dispatcher s f w : window_served s w -> window_served s (w <| dispatchers := alter f s (dispatchers w) |>).
Proof. intros (H1 & [d Hd] & H3 & H4). split; [done|]. split; [|done]. cbn. rewrite lookup_alter_eq, Hd. by eexists. Qed.

Lemma button_event_sent s ms e w : window_served s w -> exists w' calls,
  handle_pointer_button_event s ms e w = (w', calls, Ret tt) /\ window_served s w' /\ buttons_at s w' = p_buttons e /\
  pointer_listeners w' = pointer_listeners w /\
  forall p, p ∈ listeners (pointer_listeners w) (client_of s) -> buttons_of p calls = changed_buttons (buttons_at s w) (p_buttons e).
Proof.
  intros Hs. destruct (id Hs) as (Hw & [d Hd] & Hnd & Hps). set (bs := changed_buttons (last_pointer_buttons d) (p_buttons e)).
  assert (Hsend : exists w1 calls,
    (if bool_decide (bs = []) then mret tt else each_pointer (client_of s) (fun p => each bs (fun b : Z * bool => pointer_button p ms b.1 b.2);; pointer_frame p)) w = (w1, calls, Ret tt) /\
    unmoved w w1 /\ forall p, p ∈ listeners (pointer_listeners w) (client_of s) -> buttons_of p calls = bs).
  { case_bool_decide as Hb; [exists w, []; split; [done|]; split; [done|]; by rewrite Hb|].
    destruct (buttons_to_all ms bs _ w Hnd Hps) as (w1 & calls & E & Hu & Hc). exists w1, ([] ++ calls).
    split; [eapply bind_ret; [done|exact E]|]. split; [done|]. intros p Hp. by rewrite Hc, decide_True. }
  destruct Hsend as (w1 & calls & E & Hu & Hc).
  assert (Hs1 := served_unmoved s w w1 Hu Hs). destruct (id Hs1) as (_ & [d1 Hd1] & _).
  exists (w1 <| dispatchers := alter (fun d => d <| last_pointer_buttons := p_buttons e |>) s (dispatchers w1) |>), calls.
  split_and!; [|by apply served_dispatcher| |apply (un_listeners w w1 Hu)|].
  - rewrite <- (app_nil_r calls), <- (app_nil_l (calls ++ [])). unfold handle_pointer_button_event. eapply bind_ret; [unfold the_dispatcher, lifted; by rewrite Hd|].
    eapply bind_ret; [exact E|done].
  - unfold buttons_at. cbn. by rewrite lookup_alter_eq, Hd1.
  - intros p Hp. unfold buttons_at. rewrite Hd. by apply Hc.
Qed.
Lemma event_sent s e w : window_served s w -> is_button_event e = true -> exists w' calls,
  input_step (IEvent s (PointerEvent e)) w = (w', calls, Ret tt) /\ window_served s w' /\ buttons_at s w' = p_buttons e /\
  pointer_listeners w' = pointer_listeners w /\
  forall p, p ∈ listeners (pointer_listeners w) (client_of s) -> buttons_of p calls = changed_buttons (buttons_at s w) (p_buttons e).
Proof.
  intros Hs He. destruct (id Hs) as (Hw & [d Hd] & _). set (w0 := w <| dispatchers := alter (fun d => d <| wd_timestamp := time_of (PointerEvent e) |>) s (dispatchers w) |>).
  destruct (button_event_sent s (to_uint32 (Z.quot (time_of (PointerEvent e)) 1000000)) e w0) as (w' & calls & E & H); [by apply served_dispatcher|].
  exists w', calls. replace (buttons_at s w) with (buttons_at s w0); [split; [|done]|unfold buttons_at, w0; cbn; by rewrite lookup_alter_eq, Hd].
  assert (Hc : has_cookie (PointerEvent e) = true) by (unfold is_button_event in He; unfold has_cookie; by destruct (p_action e)).
  cbn [input_step]. rewrite <- (app_nil_l calls). eapply bind_ret; [done|]. rewrite bool_decide_true by done.
  unfold handle_event. rewrite Hc, <- (app_nil_l calls). eapply bind_ret; [done|]. fold w0. unfold handle_pointer_event.
  unfold is_button_event in He. by destruct (p_action e); try done; rewrite E.
Qed.

Lemma input_run_app a b w w1 c1 : input_run a w = (w1, c1, Ret tt) ->
  input_run (a ++ b) w = (let '(w2, c2, r) := input_run b w1 in (w2, c1 ++ c2, r)).
Proof.
  revert w c1. induction a as [|st a IH]; intros w c1; [intros [= -> <-]; cbn; by destruct (input_run b w1) as [[] ]|]. cbn [input_run app].
  destruct (input_step st w) as [[w0 c0] [[]|e]].
  - destruct (input_run a w0) as [[w2 c2] r] eqn:E. intros [= -> <- ->]. rewrite (IH w0 c2 E). destruct (input_run b w1) as [[] ]. by rewrite app_assoc.
  - case_bool_decide; [|done]. destruct (input_run a w0) as [[w2 c2] r] eqn:E. intros [= -> <- ->]. rewrite (IH w0 c2 E).
    destruct (input_run b w1) as [[] ]. by rewrite app_assoc.
Qed.
Lemma buttons_take_app down a b : buttons_take down (a ++ b) = down' ← buttons_take down a; buttons_take down' b.
Proof. revert down. induction a as [|[x []] a IH]; intros down; cbn; [done|..]; case_bool_decide; (done || apply IH). Qed.

Lemma last_from {A} (x : A) l d : List.last (x :: l) d = List.last l x.
Proof. revert x d. induction l as [|y l IH]; intros x d; [done|]. change (List.last (y :: l) d = List.last (y :: l) x). by rewrite !IH. Qed.

Lemma events_sent s p events w : window_served s w -> p ∈ listeners (pointer_listeners w) (client_of s) -> forallb is_button_event events = true ->
  exists w' calls, input_run ((fun e => IEvent s (PointerEvent e)) <$> events) w = (w', calls, Ret tt) /\
    buttons_at s w' = List.last (p_buttons <$> events) (buttons_at s w) /\
    buttons_take (list_to_set (held_buttons (buttons_at s w))) (buttons_of p calls) = Some (list_to_set (held_buttons (buttons_at s w'))).
Proof.
  revert w. induction events as [|e events IH]; intros w Hs Hp He; [by exists w, []|].
  cbn in He. apply andb_true_iff in He as [He Hes]. destruct (event_sent s e w Hs He) as (w1 & c1 & E1 & Hs1 & Hb1 & Hl1 & Hc1).
  destruct (IH w1 Hs1) as (w2 & c2 & E2 & Hb2 & Hc2); [by rewrite Hl1|done|]. exists w2, (c1 ++ c2). rewrite fmap_cons. cbn [input_run]. rewrite E1, E2. split; [done|]. split.
  - rewrite Hb2, Hb1. symmetry. apply last_from.
  - rewrite buttons_of_app, buttons_take_app, Hc1 by done. rewrite <- Hb1, held_buttons_take. cbn. done.
Qed.

(** (functional) A client that has followed the presses and releases of
    buttons knows which are held: from any state, however the buttons of the
    events change, no button is pressed twice or released without being held, and
    at the end the buttons that the client takes to be held are those of the last
    event. *)
Theorem buttons_told steps s p events :
  run_free empty_input steps = true ->
  let w := (input_run steps empty_input).1.1 in
  is_Some (windows (in_wl w) !! s) -> p ∈ default [] (pointer_listeners w !! client_of s) -> forallb is_button_event events = true ->
  exists w' calls, input_run ((fun e => IEvent s (PointerEvent e)) <$> events) w = (w', calls, Ret tt) /\
    buttons_take (list_to_set (held_buttons (buttons_at s w))) (buttons_of p calls) =
      Some (list_to_set (held_buttons (List.last (p_buttons <$> events) (buttons_at s w)))).
Proof.
  intros Hf w Hw Hp He. destruct (input_run_fine steps empty_input empty_input_inv Hf) as (w1 & c1 & E & _ & Hi). unfold w in *. rewrite E in *. cbn in Hw, Hp |- *.
  destruct (events_sent s p events w1) as (w' & calls & E' & Hb & Ht); [|done|done|exists w', calls; by rewrite <- Hb].
  split_and!; [done|by apply (iv_dispatchers None w1 Hi)|apply (iv_nodup None w1 Hi)|].
  intros x Hx. destruct (iv_pointers None w1 Hi _ x Hx) as (q & Hq & _). by eexists.
Qed.

(** ** Positions *)
Lemma bind_inv {A B} (a : Act A) (f : A -> Act B) w w2 c y : (a ≫= f) w = (w2, c, Ret y) ->
  exists w1 c1 x c2, a w = (w1, c1, Ret x) /\ f x w1 = (w2, c2, Ret y) /\ c = c1 ++ c2.
Proof.
  unfold mbind, Act_bind. destruct (a w) as [[w1 c1] [x|e]]; [|done]. destruct (f x w1) as [[w3 c2] r] eqn:E.
  intros [= -> <- ->]. by exists w1, c1, x, c2.
Qed.
Definition enters (calls : list InputCall) : list (Z * Z * Point) :=
  omap (fun c => match c with send_enter p s pt => Some (p, s, pt) | _ => None end) calls.
Lemma enters_app a b : enters (a ++ b) = enters a ++ enters b.
Proof. apply omap_app. Qed.

(** The action moves no surface and makes no pointer enter one. *)
Definition no_enter {A} (a : Act A) : Prop := forall w w' c x, a w = (w', c, Ret x) -> in_wl w' = in_wl w /\ enters c = [].
Lemma no_enter_bind {A B} (a : Act A) (f : A -> Act B) : no_enter a -> (forall x, no_enter (f x)) -> no_enter (a ≫= f).
Proof.
  intros Ha Hf w w' c x (w1 & c1 & y & c2 & E1 & E2 & ->)%bind_inv. destruct (Ha _ _ _ _ E1) as [H1 H2], (Hf y _ _ _ _ E2) as [H3 H4].
  rewrite enters_app, H2, H4. split; [congruence|done].
Qed.
Lemma no_enter_pure {A} (a : Act A) : (forall w, in_wl (a w).1.1 = in_wl w /\ enters (a w).1.2 = []) -> no_enter a.
Proof. intros H w w' c x E. specialize (H w). by rewrite E in H. Qed.
Ltac no_enter_tac :=
  repeat first [apply no_enter_bind; [|intros ?]
               |match goal with |- no_enter (match ?x with _ => _ end) => destruct x end
               |by apply no_enter_pure].
Lemma cursor_no_enter p s : no_enter (cursor_apply_to p s).
Proof. unfold cursor_apply_to, scene_of, apply_latest_buffer. no_enter_tac. Qed.
Lemma leave_no_enter p : no_enter (pointer_leave p).
Proof. unfold pointer_leave. no_enter_tac. Qed.

(** A surface without children, asked for a place, takes its offset off. *)
Lemma transform_leaf f o s su pt : wl_surfaces o !! s = Some su -> wl_children su = [] ->
  exists inside, transform_point (S f) o s pt = Ret (mkPosition (point_sub_disp pt (offset_ su)) s inside).
Proof. intros Hs Hc. cbn [transform_point]. rewrite Hs, Hc. by eexists. Qed.

Lemma enter_leaf_told p s su pt w w' calls : wl_surfaces (in_objects w) !! s = Some su -> wl_children su = [] ->
  pointer_enter p s pt w = (w', calls, Ret tt) -> enters calls = [(p, s, point_sub_disp pt (offset_ su))].
Proof.
  intros Hs Hc (w1 & c1 & final & c2 & E1 & E2 & ->)%bind_inv. unfold hit, lifted in E1.
  destruct (transform_leaf (size (wl_surfaces (in_objects w))) (in_objects w) s su pt Hs Hc) as [inside Et]. unfold wl_fuel in E1. rewrite Et in E1.
  injection E1 as <- <- <-. apply bind_inv in E2 as (w2 & c3 & [] & c4 & E3 & E4 & ->). apply cursor_no_enter in E3 as [_ H3].
  apply bind_inv in E4 as (w3 & c5 & [] & c6 & E5 & E6 & ->). injection E5 as <- <-.
  assert (H6 : enters c6 = []) by (revert E6; apply (no_enter_pure (on_pointer p _;; _)); by intros). by rewrite !enters_app, H3, H6.
Qed.

(** (error) A pointer that crosses to another surface of the window's tree,
    one without subsurfaces of its own, is told a place there that is off by that
    surface's offset: the place that [transform_point] has found is transformed
    once more by [enter]. *)
Theorem crossing_displaced steps p q s ms pt pos t inside su :
  run_free empty_input steps = true ->
  let w := (input_run steps empty_input).1.1 in
  is_Some (windows (in_wl w) !! s) -> in_pointers w !! p = Some q -> surface_under_cursor q <> Some t ->
  transform_point (wl_fuel (in_objects w)) (in_objects w) s pt = Ret (mkPosition pos t inside) ->
  wl_surfaces (in_objects w) !! t = Some su -> wl_children su = [] ->
  exists w' calls, pointer_motion p ms s pt w = (w', calls, Ret tt) /\ enters calls = [(p, t, point_sub_disp pos (offset_ su))].
Proof.
  intros Hf w Hw Hq Hu Ht Hsu Hc. destruct (input_run_fine steps empty_input empty_input_inv Hf) as (w1 & c1 & E & _ & Hi).
  assert (Ew : w = w1) by (unfold w; by rewrite E). clearbody w. subst w1.
  assert (Hg : grounded (in_objects w) s) by (apply grounded_window; by apply (wd_windows _ (iv_wl _ _ Hi))).
  destruct (pointer_motion_ok p ms s pt w Hi) as ([] & w' & calls & Em & _); [by exists q|done|]. exists w', calls. split; [done|].
  apply bind_inv in Em as (w2 & d1 & final & d2 & E1 & E2 & ->). unfold hit, lifted in E1. rewrite Ht in E1. injection E1 as <- <- <-.
  apply bind_inv in E2 as (w2 & d3 & q' & d4 & E3 & E4 & ->). unfold the_pointer, lifted in E3. rewrite Hq in E3. injection E3 as <- <- <-.
  cbn [pos_surface position] in E4. rewrite bool_decide_false in E4 by done.
  apply bind_inv in E4 as (w3 & d5 & [] & d6 & E5 & E6 & ->). apply leave_no_enter in E5 as [H5 H6].
  rewrite !enters_app, H6. apply (enter_leaf_told p t su pos w3 w'); [|done|done]. unfold in_objects. by rewrite H5.
Qed.

(** *** Touches *)
Lemma total_offset_more f f' o s d : total_offset f o s = Ret d -> (f <= f')%nat -> total_offset f' o s = Ret d.
Proof.
  revert f' s d. induction f as [|f IH]; intros f' s d H Hle; [done|]. destruct f' as [|f']; [lia|]. cbn [total_offset] in *.
  destruct (wl_surfaces o !! s) as [su|]; [|done]. destruct (wl_role su); try done. destruct (wl_subsurfaces o !! s) as [sub|]; [|done].
  destruct (total_offset f o (sub_parent sub)) as [d'|] eqn:E; [|done]. rewrite (IH f' _ d' E) by lia. done.
Qed.
Lemma total_offset_same f f' o s d d' : total_offset f o s = Ret d -> total_offset f' o s = Ret d' -> d = d'.
Proof.
  intros H H'. destruct (Nat.le_gt_cases f f') as [Hle|Hgt].
  - rewrite (total_offset_more f f' o s d H Hle) in H'. congruence.
  - rewrite (total_offset_more f' f o s d' H' ltac:(lia)) in H. congruence.
Qed.

Lemma first_hit_in (h : Z -> outcome Position) l r : first_hit h l = Ret (Some r) -> exists c, c ∈ l /\ h c = Ret r.
Proof.
  induction l as [|c l IH]; cbn [first_hit]; [done|]. destruct (h c) as [x|] eqn:E; cbn [mbind outcome_bind]; [|done].
  destruct (is_in_input_region x); [intros [= <-]; exists c; split; [by left|done]|]. intros H. destruct (IH H) as (d & Hd & Hh). exists d. split; [by right|done].
Qed.

(** The place that [transform_point] finds is the place in the window less the
    offset of the surface there, up to what is above the surface it starts from. *)
Lemma transform_offset f o s su base pt pos : WlInv o -> wl_surfaces o !! s = Some su ->
  (exists f1, total_offset f1 o s = Ret (displacement_add (offset_ su) base)) ->
  transform_point f o s pt = Ret pos ->
  exists f2 d, total_offset f2 o (pos_surface pos) = Ret (displacement_add d base) /\ position pos = point_sub_disp pt d.
Proof.
  intros Ho. revert s su base pt pos. induction f as [|f IH]; intros s su base pt pos Hsu [f1 H1] Ht; [done|].
  cbn [transform_point] in Ht. rewrite Hsu in Ht.
  destruct (first_hit _ (reverse (wl_children su))) as [[r|]|] eqn:Eh; cbn [mbind outcome_bind] in Ht; [| |done].
  - injection Ht as <-. apply first_hit_in in Eh as (c & Hc & Hhit). rewrite elem_of_reverse in Hc.
    assert (Hchild : wl_child o s c) by (exists su; split; assumption).
    destruct (wi_children o Ho s c Hchild) as (cu & sub & Hcu & Hrole & Hsub & Hpar).
    destruct (IH c cu (displacement_add (offset_ su) base) (point_sub_disp pt (offset_ su)) r Hcu) as (f2 & d & H2 & Hp); [|done|].
    + exists (S f1). cbn [total_offset]. rewrite Hcu, Hrole, Hsub, Hpar, H1. done.
    + exists f2, (displacement_add (offset_ su) d). rewrite H2, Hp. split; [|by rewrite point_sub_add].
      f_equal. destruct d, base, (offset_ su). unfold displacement_add. cbn. f_equal; lia.
  - injection Ht as <-. exists f1, (offset_ su). done.
Qed.

(** (functional) A touch is told in one frame of reference: a finger that has
    gone down on a window and does not move is told the place where it went down,
    relative to the same surface, however deep in the window's tree it is. *)
Theorem touch_in_place steps s t ms ms' id pt :
  run_free empty_input steps = true ->
  let w := (input_run steps empty_input).1.1 in
  is_Some (windows (in_wl w) !! s) -> is_Some (in_touches w !! t) ->
  exists w1 w2 surface pos,
    touch_down t ms id s pt w = (w1, [send_touch_down t ms surface id pos], Ret tt) /\
    touch_motion t ms' id pt w1 = (w2, [send_touch_motion t ms' id pos], Ret tt).
Proof.
  intros Hf w Hw [x Hx]. destruct (input_run_fine steps empty_input empty_input_inv Hf) as (w0 & c0 & E & _ & Hi).
  assert (Ew : w = w0) by (unfold w; by rewrite E). clearbody w. subst w0. pose proof (wd_objects _ (iv_wl _ _ Hi)) as Ho.
  assert (Hwin : is_window (in_objects w) s) by (by apply (wd_windows _ (iv_wl _ _ Hi))). unfold is_window, role_of in Hwin.
  destruct (wl_surfaces (in_objects w) !! s) as [su|] eqn:Hsu; [|done]. injection Hwin as Hrole.
  destruct (hit_below (in_objects w) s pt Ho) as (pos & Hhit & Hbelow); [by exists su|].
  destruct (transform_offset (wl_fuel (in_objects w)) (in_objects w) s su displacement_zero pt pos Ho Hsu) as (f2 & d & Hd & Hp); [|done|].
  { exists 1%nat. cbn [total_offset]. by rewrite Hsu, Hrole. }
  destruct (grounded_offset (in_objects w) (pos_surface pos) Ho) as [d' Hd'].
  { apply (grounded_tree _ s); [done|done|]. apply grounded_window. unfold is_window, role_of, in_objects in *. by rewrite Hsu, <- Hrole. }
  assert (Edd : d' = d). { rewrite (total_offset_same _ _ _ _ _ _ Hd' Hd). destruct d. unfold displacement_add. cbn. f_equal; lia. } subst d'.
  eexists _, _, (pos_surface pos), (position pos). split.
  - unfold touch_down, hit, lifted. unfold mbind at 1, Act_bind at 1. rewrite Hhit. done.
  - unfold touch_motion, the_touch, lifted, mbind, Act_bind. cbn -[total_offset wl_fuel]. rewrite !lookup_alter_eq, Hx. cbn -[total_offset wl_fuel]. rewrite lookup_insert_eq. cbn -[total_offset wl_fuel].
    unfold in_objects in *. cbn -[total_offset wl_fuel]. rewrite Hd', Hp. done.
Qed.
End Told.

(** ** Examples *)
#[export] Instance example_env : InputEnv := {|
  XkbState := gset Z;
  xkb_state_new := fun _ => ∅;
  xkb_state_update_key := hold;
  xkb_serialize := shift_only;
  placed_size := cp_size;
  scene_visible := fun _ => true;
  scene_state := fun _ => mir_window_state_restored;
  default_params := example_creation;
  client_of := fun _ => 1;
  readable := fun b => bool_decide (0 < wb_id b)
|}.
Definition wl_input_run : list InputStep -> InputWorld * list InputCall * outcome unit :=
  fun steps => input_run steps empty_input.
(** The end of a run: what the client is told last, and whether it fails. *)
Definition told_last (n : nat) (steps : list InputStep) : list InputCall * outcome unit :=
  let '(_, calls, r) := wl_input_run steps in
  let calls := List.filter (fun c => match c with request_events _ => false | _ => true end) calls in (drop (length calls - n) calls, r).

Definition pointer_at (a : MirPointerAction) (buttons x y : Z) : MirPointerEvent :=
  let f0 := float_of_int 0 in mkPointerEvent (mkHeader 7 0 [] 0) a buttons (float_of_int x) (float_of_int y) f0 f0 f0 f0.
Definition pointer_on (s : Z) (a : MirPointerAction) (x y : Z) : InputStep := IEvent s (PointerEvent (pointer_at a 0 x y)).
Definition touch_at (id : Z) (a : MirTouchAction) (x y : Z) : MirEvent :=
  let f0 := float_of_int 0 in TouchEvent (mkTouchEvent (mkHeader 7 0 [] 0) [mkContact id a 0 (float_of_int x) (float_of_int y) f0 f0 f0 f0]).

(** A window of 100 by 100 with a subsurface of 10 by 10 at (5, 5), and a
    client with a pointer and a touch screen. *)
Definition seated_tree : list InputStep := (IRequest <$> example_tree) ++ [IGetPointer 1 11 true; IGetTouch 1 12; IGetKeyboard 1 13 true].

(** The pointer moves from (50, 50) to (7, 8) of the window, which is (2, 3) of
    the subsurface; the client is told (-3, -2). *)
Example crossed_by_motion :
  told_last 3 (seated_tree ++ [pointer_on 1 mir_pointer_action_enter 50 50; pointer_on 1 mir_pointer_action_motion 7 8]) =
  ([send_leave 11 1; send_enter 11 2 (mkPoint (-3) (-2)); send_frame 11], Ret tt).
Proof. by vm_compute. Qed.
(** Entering the window there, it is told (2, 3). *)
Example entered_there :
  told_last 2 (seated_tree ++ [pointer_on 1 mir_pointer_action_enter 7 8]) = ([send_enter 11 2 (mkPoint 2 3); send_frame 11], Ret tt).
Proof. by vm_compute. Qed.

(** Two mice enter the window one after the other, at two surfaces of its
    tree.  When the first surface is destroyed, the pointer leaves the second; and
    once the pointer has been released, destroying the first calls into it. *)
Definition two_mice : list InputStep :=
  seated_tree ++ [pointer_on 1 mir_pointer_action_enter 7 8; pointer_on 1 mir_pointer_action_enter 50 50].
Example leaves_another_surface :
  told_last 2 (two_mice ++ [IRequest (DestroySurface 2)]) = ([surface_gone 2; send_leave 11 1], Ret tt).
Proof. by vm_compute. Qed.
Example released_after_two_enters :
  told_last 3 (two_mice ++ [pointer_on 1 mir_pointer_action_leave 50 50; IReleasePointer 11; IRequest (DestroySurface 2)]) =
  ([send_frame 11; pointer_gone 11; surface_gone 2], Throw use_after_free).
Proof. by vm_compute. Qed.

(** A surface that has a role is no cursor, but the old cursor is gone by then:
    the next enter finds none. *)
Example cursor_lost :
  told_last 0 (seated_tree ++ [ISetCursor 11 (Some 2) displacement_zero; pointer_on 1 mir_pointer_action_enter 50 50]) = ([], Throw null_dereference).
Proof. by vm_compute. Qed.

(** The pointer is on a subsurface whose parent is destroyed; it asks for a cursor. *)
Example cursor_below_destroyed_parent :
  told_last 0 (seated_tree ++ [pointer_on 1 mir_pointer_action_enter 7 8; IRequest (DestroySurface 1); ISetCursor 11 None displacement_zero]) =
  ([], Throw use_after_free).
Proof. by vm_compute. Qed.

(** A touch goes on after its surface has been destroyed. *)
Example touch_outlives_surface :
  told_last 2 (seated_tree ++ [IEvent 1 (touch_at 0 mir_touch_action_down 7 8); IRequest (DestroySurface 2);
    IEvent 1 (touch_at 0 mir_touch_action_change 8 8)]) = ([send_touch_frame 12; surface_gone 2], Throw use_after_free).
Proof. by vm_compute. Qed.

(** The pointer leaves the window and enters it at another place: a motion to
    where it was before it left is not told. *)
Example motion_after_enter_lost :
  told_last 2 (seated_tree ++ [pointer_on 1 mir_pointer_action_enter 50 50; pointer_on 1 mir_pointer_action_motion 60 60;
    pointer_on 1 mir_pointer_action_leave 0 0; pointer_on 1 mir_pointer_action_enter 40 40; pointer_on 1 mir_pointer_action_motion 60 60]) =
  ([send_enter 11 1 (mkPoint 40 40); send_frame 11], Ret tt).
Proof. by vm_compute. Qed.

(** A cursor whose buffer cannot be read makes the delivery of an event fail. *)
Example unreadable_cursor_throws :
  told_last 0 (seated_tree ++ (IRequest <$> [CreateSurface 3; Attach 3 (sized_buffer 0 8 8); Commit 3]) ++
    [ISetCursor 11 (Some 3) displacement_zero; pointer_on 1 mir_pointer_action_enter 50 50]) = ([], Throw unreadable_cursor).
Proof. by vm_compute. Qed.

(** A device gets another keymap and, before the changes are complete, the
    keymap of the seat again: the seat takes the other. *)
Example keymap_in_between :
  let other := mkKeymap "pc105" "de" "" "" in
  seat_keymap (wl_input_run [IDeviceKeymap other; IDeviceKeymap default_keymap; IChangesComplete]).1.1 = other.
Proof. by vm_compute. Qed.

(** ** Witnesses *)
Definition pointer_session : list InputStep :=
  seated_tree ++
  [pointer_on 1 mir_pointer_action_enter 50 50; pointer_on 1 mir_pointer_action_motion 7 8; IFocus 1 true;
   IEvent 1 (PointerEvent (pointer_at mir_pointer_action_button_down 1 7 8)); IRequest (CreateSurface 3);
   ISetCursor 11 (Some 3) displacement_zero; IRequest (DestroySurface 2); pointer_on 1 mir_pointer_action_motion 60 60;
   IEvent 1 (touch_at 0 mir_touch_action_down 50 50); ISetCursor 11 None displacement_zero].

Lemma pointers_told_witness : exists w calls, wl_input_run pointer_session = (w, calls, Ret tt) /\
  forall p, exists v, pointer_takes_all p None calls = Some v /\ shows (in_pointers w !! p) v.
Proof. apply pointers_told. by vm_compute. Defined.

(** Two buttons go down and one of them up, in three events. *)
Definition presses : list MirPointerEvent :=
  [pointer_at mir_pointer_action_button_down 3 7 8; pointer_at mir_pointer_action_button_up 2 7 8; pointer_at mir_pointer_action_button_down 6 7 8].
Definition wl_run_from (w : InputWorld) (steps : list InputStep) : InputWorld * list InputCall * outcome unit :=
  input_run steps w.
Lemma buttons_told_witness : exists w' calls,
  wl_run_from (wl_input_run pointer_session).1.1 ((fun e => IEvent 1 (PointerEvent e)) <$> presses) = (w', calls, Ret tt) /\
  buttons_take (list_to_set (held_buttons (buttons_at 1 (wl_input_run pointer_session).1.1))) (buttons_of 11 calls) =
    Some (list_to_set (held_buttons (List.last (p_buttons <$> presses) (buttons_at 1 (wl_input_run pointer_session).1.1)))).
Proof.
  unfold wl_run_from, wl_input_run. apply (buttons_told pointer_session 1 11 presses).
  - by vm_compute.
  - vm_compute. by eexists.
  - apply list_elem_of_In. vm_compute. by left.
  - done.
Defined.

(** The pointer is at (50, 50) of the window and moves to (7, 8). *)
Definition before_crossing : list InputStep := seated_tree ++ [pointer_on 1 mir_pointer_action_enter 50 50].
Definition crossing (w : InputWorld) : InputWorld * list InputCall * outcome unit :=
  pointer_motion 11 0 1 (mkPoint 7 8) w.
Lemma crossing_displaced_witness : exists w' calls,
  crossing (wl_input_run before_crossing).1.1 = (w', calls, Ret tt) /\ enters calls = [(11, 2, mkPoint (-3) (-2))].
Proof.
  assert (E : mkPoint (-3) (-2) = point_sub_disp (mkPoint 2 3) (offset_ (default new_surface (wl_surfaces (in_objects (wl_input_run before_crossing).1.1) !! 2)))) by (by vm_compute).
  rewrite E. unfold crossing. apply (crossing_displaced before_crossing 11
    (mkWlPointer 1 true false (Some 1) (Some NullCursor)) 1 0 (mkPoint 7 8) (mkPoint 2 3) 2 true
    (default new_surface (wl_surfaces (in_objects (wl_input_run before_crossing).1.1) !! 2))).
  - by vm_compute.
  - vm_compute. by eexists.
  - by vm_compute.
  - done.
  - by vm_compute.
  - by vm_compute.
  - by vm_compute.
Defined.

Lemma touch_in_place_witness : exists w1 w2 surface pos,
  touch_down 12 5 0 1 (mkPoint 7 8) (wl_input_run pointer_session).1.1 = (w1, [send_touch_down 12 5 surface 0 pos], Ret tt) /\
  touch_motion 12 6 0 (mkPoint 7 8) w1 = (w2, [send_touch_motion 12 6 0 pos], Ret tt).
Proof.
  apply (touch_in_place pointer_session 1 12 5 6 0 (mkPoint 7 8)).
  - by vm_compute.
  - vm_compute. by eexists.
  - vm_compute. by eexists.
Defined.
