(* ===== verification/DecorWindow.v ===== *)
(** * The geometry of window decorations

    [WindowState] of [src/server/shell/decoration/window.cpp]: which decoration
    a window has, where its titlebar, its borders and its buttons are, and that
    with the margins they leave the content of the window they tile it. *)
From S2P Require Import Prelude Geometry InputEvents WindowInfo Surface.

(** ** Data *)
Inductive BorderType := BorderFull | BorderTitlebar | BorderNone.
#[export] Instance BorderType_eq_dec : EqDecision BorderType.
Proof. solve_decision. Defined.

Record StaticGeometry := mkStaticGeometry {
  sg_titlebar_height : Z;
  sg_side_border_width : Z;
  sg_bottom_border_height : Z;
  resize_corner_input_size : Size;
  button_width : Z;
  padding_between_buttons : Z;
  title_font_height : Z;
  title_font_top_left : Point;
  icon_padding : Displacement;
  icon_line_width : Z
}.
Definition default_geometry : StaticGeometry :=
  mkStaticGeometry 24 6 6 (mkSize 16 16) 24 6 14 (mkPoint 8 2) (mkDisplacement 5 5) 1.

(** [border_type_for] *)
Definition border_type_for (type : MirWindowType) (state : MirWindowState) : BorderType :=
  match type with
  | mir_window_type_gloss | mir_window_type_menu | mir_window_type_inputmethod | mir_window_type_tip | mir_window_type_decoration => BorderNone
  | _ =>
      match state with
      | mir_window_state_unknown | mir_window_state_restored => BorderFull
      | mir_window_state_maximized | mir_window_state_vertmaximized | mir_window_state_horizmaximized => BorderTitlebar
      | _ => BorderNone
      end
  end.

(** [WindowState]; the static geometry is shared by all. *)
Record WindowState := mkWindowState {
  window_size : Size;
  border_type : BorderType;
  focused_state : MirWindowFocusState;
  window_name : string
}.
#[export] Instance WindowState_eq_dec : EqDecision WindowState.
Proof. solve_decision. Defined.
Definition new_window_state (s : Surface) : WindowState :=
  mkWindowState (r_size (sf_rect s)) (border_type_for (sf_type s) (sf_state s)) (sf_focus s) (sf_name s).

Section Geometry.
Context (sg : StaticGeometry).
Implicit Types ws : WindowState.

Definition titlebar_width ws : Z := match border_type ws with BorderFull | BorderTitlebar => width (window_size ws) | BorderNone => 0 end.
Definition titlebar_height ws : Z := match border_type ws with BorderFull | BorderTitlebar => sg_titlebar_height sg | BorderNone => 0 end.
Definition side_border_width ws : Z := match border_type ws with BorderFull => sg_side_border_width sg | _ => 0 end.
Definition bottom_border_width ws : Z := titlebar_width ws.
Definition bottom_border_height ws : Z := match border_type ws with BorderFull => sg_bottom_border_height sg | _ => 0 end.
Definition side_border_height ws : Z :=
  match border_type ws with BorderFull => height (window_size ws) - titlebar_height ws - bottom_border_height ws | _ => 0 end.

Definition titlebar_rect ws : Rectangle := mkRectangle point_zero (mkSize (titlebar_width ws) (titlebar_height ws)).
Definition left_border_rect ws : Rectangle :=
  mkRectangle (mkPoint 0 (titlebar_height ws)) (mkSize (side_border_width ws) (side_border_height ws)).
Definition right_border_rect ws : Rectangle :=
  mkRectangle (mkPoint (width (window_size ws) - side_border_width ws) (titlebar_height ws)) (mkSize (side_border_width ws) (side_border_height ws)).
Definition bottom_border_rect ws : Rectangle :=
  mkRectangle (mkPoint 0 (height (window_size ws) - bottom_border_height ws)) (mkSize (bottom_border_width ws) (bottom_border_height ws)).

Definition button_rect ws (n : Z) : Rectangle :=
  let titlebar := titlebar_rect ws in
  let x := right titlebar - side_border_width ws - n * (button_width sg + padding_between_buttons sg) - button_width sg in
  mkRectangle (mkPoint x (top titlebar)) (mkSize (button_width sg) (height (r_size titlebar))).

(** The margins that the decoration asks for its window, and the window with them. *)
Definition decorated (s : Surface) : Surface :=
  let ws := new_window_state s in
  (set_window_margins s (titlebar_height ws) (side_border_width ws) (bottom_border_height ws) (side_border_width ws)).1.
Definition decoration_rects ws : list Rectangle := [titlebar_rect ws; left_border_rect ws; right_border_rect ws; bottom_border_rect ws].

(** ** Tiling *)
Definition geometry_ok : Prop :=
  0 <= sg_titlebar_height sg /\ 0 <= sg_side_border_width sg /\ 0 <= sg_bottom_border_height sg.
#[global] Instance geometry_ok_dec : Decision geometry_ok.
Proof. unfold geometry_ok. apply _. Defined.
(** The borders leave room for some content. *)
Definition roomy (s : Surface) : Prop :=
  2 * side_border_width (new_window_state s) < width (r_size (sf_rect s)) /\
  titlebar_height (new_window_state s) + bottom_border_height (new_window_state s) < height (r_size (sf_rect s)).
#[global] Instance roomy_dec s : Decision (roomy s).
Proof. unfold roomy. apply _. Defined.

(** The content of a window as a part of the window. *)
Definition content_rect (s : Surface) : Rectangle := mkRectangle (point_add point_zero (content_offset s)) (content_size s).
(** How many of the rectangles cover a pixel. *)
Definition cover_count (rs : list Rectangle) (p : Point) : nat := length (filter (fun r => contains_point r p = true) rs).

Lemma decorated_margins s : geometry_ok ->
  let ws := new_window_state s in
  sf_margins (decorated s) = mkMargins (titlebar_height ws) (side_border_width ws) (bottom_border_height ws) (side_border_width ws) /\
  sf_rect (decorated s) = sf_rect s.
Proof.
  intros (Ht & Hs & Hb) ws. unfold decorated, set_window_margins. fold ws.
  assert (0 <= titlebar_height ws /\ 0 <= side_border_width ws /\ 0 <= bottom_border_height ws) as (H1 & H2 & H3)
    by (unfold titlebar_height, side_border_width, bottom_border_height; destruct (border_type ws); lia).
  rewrite !Z.max_l by lia. case_bool_decide as E; done.
Qed.

Lemma cover_count_cons r rs p : cover_count (r :: rs) p = ((if contains_point r p then 1 else 0) + cover_count rs p)%nat.
Proof. unfold cover_count. rewrite filter_cons. destruct (contains_point r p); cbn; [by rewrite decide_True|by rewrite decide_False]. Qed.

Lemma contains_point_decide r p : contains_point r p = bool_decide (covers r p).
Proof. symmetry. destruct (contains_point r p) eqn:E; [apply bool_decide_true|apply bool_decide_false]; rewrite <- contains_point_covers; congruence. Qed.

(** C22: (functional) The titlebar, the borders and the content that the margins
    leave tile the window: every pixel of the window is in exactly one of them,
    and no other pixel is in any, whatever the type and state of the window. *)
Theorem decoration_tiles s p : geometry_ok -> roomy s ->
  cover_count (content_rect (decorated s) :: decoration_rects (new_window_state s)) p =
    if contains_point (mkRectangle point_zero (r_size (sf_rect s))) p then 1%nat else 0%nat.
Proof.
  intros Hg [Hw Hh]. destruct (decorated_margins s Hg) as [Hm Hr]. destruct Hg as (Ht & Hs & Hb).
  unfold content_rect, content_offset, content_size. rewrite Hm, Hr. cbn [m_top m_left m_bottom m_right].
  unfold decoration_rects, titlebar_rect, left_border_rect, right_border_rect, bottom_border_rect, bottom_border_width, titlebar_width,
    side_border_height. unfold titlebar_height, side_border_width, bottom_border_height in *.
  cbn [new_window_state window_size border_type] in *. destruct (r_size (sf_rect s)) as [w h], p as [x y]. cbn [width height] in *.
  rewrite !cover_count_cons, !contains_point_decide. unfold cover_count. geom.
  destruct (border_type_for (sf_type s) (sf_state s)); repeat (case_bool_decide; try lia); done.
Qed.
End Geometry.

Lemma decoration_tiles_witness :
  cover_count (content_rect (decorated default_geometry example_surface) :: decoration_rects default_geometry (new_window_state example_surface)) (mkPoint 3 40) =
    if contains_point (mkRectangle point_zero (r_size (sf_rect example_surface))) (mkPoint 3 40) then 1%nat else 0%nat.
Proof. apply (decoration_tiles default_geometry example_surface (mkPoint 3 40)); apply (bool_decide_unpack _); vm_compute; exact I. Defined.
