(* ===== verification/DecorInput.v ===== *)
(** * The input of window decorations

    [InputManager] of [src/server/shell/decoration/input.cpp]: the buttons, the
    edges and the titlebar of a decoration as widgets, and what pointers and
    touches on them make the decoration ask for.  What it asks for is put on the
    queue of the decoration's executor as tasks. *)
From S2P Require Import Prelude Geometry InputEvents WindowInfo Surface DecorWindow.

(** ** Data *)
Inductive ButtonState := ButtonUp | ButtonHovered | ButtonDown.
#[export] Instance ButtonState_eq_dec : EqDecision ButtonState.
Proof. solve_decision. Defined.
Inductive ButtonFunction := ButtonClose | ButtonMaximize | ButtonMinimize.
#[export] Instance ButtonFunction_eq_dec : EqDecision ButtonFunction.
Proof. solve_decision. Defined.
Record ButtonInfo := mkButtonInfo { bi_function : ButtonFunction; bi_state : ButtonState; bi_rect : Rectangle }.
#[export] Instance ButtonInfo_eq_dec : EqDecision ButtonInfo.
Proof. solve_decision. Defined.

(** [MirResizeEdge] *)
Inductive ResizeEdge :=
| edge_none | edge_west | edge_east | edge_north | edge_south | edge_northwest | edge_northeast | edge_southwest | edge_southeast.
#[export] Instance ResizeEdge_eq_dec : EqDecision ResizeEdge.
Proof. solve_decision. Defined.

(** A [Widget] is a button or an edge; the edge [edge_none] is the titlebar,
    which moves the window. *)
Inductive WidgetKind := WButton (f : ButtonFunction) | WEdge (e : ResizeEdge).
#[export] Instance WidgetKind_eq_dec : EqDecision WidgetKind.
Proof. solve_decision. Defined.
Record Widget := mkWidget { w_kind : WidgetKind; w_rect : Rectangle; w_state : ButtonState }.
#[export] Instance Widget_eta : EtaExpansion Widget := fun w => mkWidget (w_kind w) (w_rect w) (w_state w).

(** A pointer or a touch; [active_widget] is shared with the list of widgets. *)
Record Device := mkDevice { d_location : Point; d_pressed : bool; active_widget : option nat }.
#[export] Instance Device_eta : EtaExpansion Device := fun d => mkDevice (d_location d) (d_pressed d) (active_widget d).

(** What is spawned on the decoration. *)
Inductive DecorTask :=
| task_window_state_updated
| task_input_state_updated
| task_request_move (timestamp : Z)
| task_request_resize (timestamp : Z) (edge : ResizeEdge)
| task_request_toggle_maximize
| task_request_minimize
| task_request_close
| task_set_cursor (name : string).
#[export] Instance DecorTask_eq_dec : EqDecision DecorTask.
Proof. solve_decision. Defined.

Record InputManager := mkInputManager {
  widgets : list Widget;
  im_input_shape : list Rectangle;
  event_timestamp : Z;
  previous_up_timestamp : Z;
  current_cursor_name : string;
  im_pointer : option Device;
  im_touches : gmap Z Device
}.
#[export] Instance InputManager_eta : EtaExpansion InputManager := fun m =>
  mkInputManager (widgets m) (im_input_shape m) (event_timestamp m) (previous_up_timestamp m) (current_cursor_name m) (im_pointer m) (im_touches m).

(** ** Operations that spawn tasks *)
Definition Spawning (A : Type) : Type := InputManager -> InputManager * list DecorTask * A.
#[export] Instance Spawning_ret : MRet Spawning := fun A a m => (m, [], a).
#[export] Instance Spawning_bind : MBind Spawning := fun A B f x m =>
  let '(m1, t1, a) := x m in let '(m2, t2, b) := f a m1 in (m2, t1 ++ t2, b).
Definition spawn (t : DecorTask) : Spawning unit := fun m => (m, [t], tt).
Definition im_get {A} (f : InputManager -> A) : Spawning A := fun m => (m, [], f m).
Definition im_change (f : InputManager -> InputManager) : Spawning unit := fun m => (f m, [], tt).
Definition the_widget (i : nat) : Spawning Widget :=
  im_get (fun m => default (mkWidget (WEdge edge_none) rectangle_default ButtonUp) (widgets m !! i)).
Definition set_widget_state (i : nat) (st : ButtonState) : Spawning unit :=
  im_change (fun m => m <| widgets := alter (fun w => w <| w_state := st |>) i (widgets m) |>).

Definition double_click_threshold : Z := 250000000.
Definition cursor_name_for (e : ResizeEdge) : string :=
  match e with
  | edge_north | edge_south => "ns-resize"
  | edge_east | edge_west => "ew-resize"
  | edge_northeast | edge_southwest => "ne-resize"
  | edge_northwest | edge_southeast => "se-resize"
  | edge_none => "default"
  end.
Definition decor_set_cursor (e : ResizeEdge) : Spawning unit :=
  current ← im_get current_cursor_name;
  if bool_decide (cursor_name_for e = current) then mret tt
  else im_change (fun m => m <| current_cursor_name := cursor_name_for e |>);; spawn (task_set_cursor (cursor_name_for e)).

(** *** Widgets *)
Definition widget_at (location : Point) : Spawning (option nat) :=
  im_get (fun m => fst <$> list_find (fun w => contains_point (w_rect w) location = true) (widgets m)).

Definition widget_enter (i : nat) : Spawning unit :=
  set_widget_state i ButtonHovered;;
  w ← the_widget i;
  match w_kind w with WEdge e => decor_set_cursor e | WButton _ => mret tt end;;
  spawn task_input_state_updated.
Definition widget_leave (i : nat) : Spawning unit :=
  set_widget_state i ButtonUp;;
  decor_set_cursor edge_none;;
  spawn task_input_state_updated.
Definition widget_down (i : nat) : Spawning unit :=
  set_widget_state i ButtonDown;;
  spawn task_input_state_updated.
Definition widget_up (i : nat) : Spawning unit :=
  w ← the_widget i;
  (if bool_decide (w_state w = ButtonDown) then
     previous ← im_get previous_up_timestamp;
     now ← im_get event_timestamp;
     (if (0 <? previous) && (now - previous <=? double_click_threshold) && bool_decide (w_kind w = WEdge edge_none)
      then spawn task_request_toggle_maximize else mret tt);;
     match w_kind w with
     | WButton ButtonClose => spawn task_request_close
     | WButton ButtonMaximize => spawn task_request_toggle_maximize
     | WButton ButtonMinimize => spawn task_request_minimize
     | WEdge _ => mret tt
     end
   else mret tt);;
  set_widget_state i ButtonHovered;;
  spawn task_input_state_updated.
Definition widget_drag (i : nat) : Spawning unit :=
  w ← the_widget i;
  (if bool_decide (w_state w = ButtonDown) then
     now ← im_get event_timestamp;
     match w_kind w with
     | WEdge edge_none => spawn (task_request_move now)
     | WEdge e => spawn (task_request_resize now e)
     | WButton _ => spawn (task_request_move now)
     end;;
     set_widget_state i ButtonUp
   else mret tt);;
  spawn task_input_state_updated.

(** *** Devices: each operation returns the device as it leaves it *)
Definition on_active (d : Device) (f : nat -> Spawning unit) : Spawning unit :=
  match active_widget d with Some i => f i | None => mret tt end.

Definition process_enter (d : Device) : Spawning Device :=
  new_widget ← widget_at (d_location d);
  let d := d <| active_widget := new_widget |> in
  on_active d widget_enter;; mret d.
Definition process_leave (d : Device) : Spawning Device :=
  on_active d widget_leave;; mret (d <| active_widget := None |>).
Definition process_down (d : Device) : Spawning unit := on_active d widget_down.
Definition process_up (d : Device) : Spawning unit :=
  on_active d widget_up;;
  im_change (fun m => m <| previous_up_timestamp := event_timestamp m |>).
Definition process_move (d : Device) : Spawning Device :=
  new_widget ← widget_at (d_location d);
  if bool_decide (new_widget = active_widget d) then mret d
  else
    on_active d widget_leave;;
    let d := d <| active_widget := new_widget |> in
    on_active d widget_enter;; mret d.
Definition process_drag (d : Device) : Spawning Device :=
  new_widget ← widget_at (d_location d);
  on_active d (fun i => widget_drag i;; if bool_decide (new_widget = Some i) then mret tt else widget_leave i);;
  let enter := bool_decide (is_Some new_widget) && negb (bool_decide (active_widget d = new_widget)) in
  let d := d <| active_widget := new_widget |> in
  (if enter then on_active d widget_enter else mret tt);; mret d.

(** *** Events *)
Definition pointer_event (timestamp : Z) (location : Point) (pressed : bool) : Spawning unit :=
  im_change (fun m => m <| event_timestamp := timestamp |>);;
  p ← im_get im_pointer;
  d ← match p with Some d => mret d | None => process_enter (mkDevice location pressed None) end;
  d ← (if bool_decide (d_location d <> location) then
         let d := d <| d_location := location |> in
         if d_pressed d then process_drag d else process_move d
       else mret d);
  d ← (if bool_decide (d_pressed d <> pressed) then
         let d := d <| d_pressed := pressed |> in
         (if pressed then process_down d else process_up d);; mret d
       else mret d);
  im_change (fun m => m <| im_pointer := Some d |>).
Definition decor_pointer_leave (timestamp : Z) : Spawning unit :=
  im_change (fun m => m <| event_timestamp := timestamp |>);;
  p ← im_get im_pointer;
  match p with Some d => process_leave d;; mret tt | None => mret tt end;;
  im_change (fun m => m <| im_pointer := None |>).
Definition touch_event (id timestamp : Z) (location : Point) : Spawning unit :=
  im_change (fun m => m <| event_timestamp := timestamp |>);;
  t ← im_get (fun m => im_touches m !! id);
  d ← match t with
      | Some d => mret d
      | None =>
          d ← process_enter (mkDevice location false None);
          let d := d <| d_pressed := true |> in
          process_down d;; mret d
      end;
  d ← (if bool_decide (d_location d <> location) then process_drag (d <| d_location := location |>) else mret d);
  im_change (fun m => m <| im_touches := <[id := d]> (im_touches m) |>).
Definition decor_touch_up (id timestamp : Z) : Spawning unit :=
  im_change (fun m => m <| event_timestamp := timestamp |>);;
  t ← im_get (fun m => im_touches m !! id);
  match t with
  | Some d => process_up d;; process_leave d;; im_change (fun m => m <| im_touches := delete id (im_touches m) |>)
  | None => mret tt
  end.

(** [Observer::input_consumed] *)
Definition decor_contact (timestamp : Z) (c : ContactState) : Spawning unit :=
  match action c with
  | mir_touch_action_down | mir_touch_action_change => touch_event (touch_id c) timestamp (point_of_floats (c_x c) (c_y c))
  | mir_touch_action_up => decor_touch_up (touch_id c) timestamp
  end.
Fixpoint decor_contacts (timestamp : Z) (cs : list ContactState) : Spawning unit :=
  match cs with [] => mret tt | c :: cs => decor_contact timestamp c;; decor_contacts timestamp cs end.
Definition input_consumed (ev : MirEvent) : Spawning unit :=
  match ev with
  | PointerEvent e =>
      match p_action e with
      | mir_pointer_action_leave => decor_pointer_leave (event_time (p_header e))
      | _ => pointer_event (event_time (p_header e)) (point_of_floats (axis_x e) (axis_y e)) (has_flag (p_buttons e) 1)
      end
  | TouchEvent e => decor_contacts (event_time (t_header e)) (contacts e)
  | _ => mret tt
  end.

(** *** The state of the window *)
Section Window.
Context (sg : StaticGeometry).

Definition resize_edge_rect (ws : WindowState) (e : ResizeEdge) : Rectangle :=
  let corner := resize_corner_input_size sg in
  match e with
  | edge_none => titlebar_rect sg ws
  | edge_north => mkRectangle (top_left (titlebar_rect sg ws)) (mkSize (width (r_size (titlebar_rect sg ws))) (bottom_border_height sg ws))
  | edge_south => bottom_border_rect sg ws
  | edge_west => left_border_rect sg ws
  | edge_east => right_border_rect sg ws
  | edge_northwest => mkRectangle point_zero corner
  | edge_northeast => mkRectangle (mkPoint (width (window_size ws) - width corner) 0) corner
  | edge_southwest => mkRectangle (mkPoint 0 (height (window_size ws) - height corner)) corner
  | edge_southeast =>
      mkRectangle (mkPoint (width (window_size ws) - width corner) (height (window_size ws) - height corner)) corner
  end.

(** The rectangles of the widgets; the buttons are counted. *)
Fixpoint place_widgets (ws : WindowState) (button_index : Z) (l : list Widget) : list Widget :=
  match l with
  | [] => []
  | w :: l =>
      match w_kind w with
      | WButton _ => w <| w_rect := button_rect sg ws button_index |> :: place_widgets ws (button_index + 1) l
      | WEdge e => w <| w_rect := resize_edge_rect ws e |> :: place_widgets ws button_index l
      end
  end.
Definition shape_for (ws : WindowState) : list Rectangle :=
  match border_type ws with
  | BorderFull => [titlebar_rect sg ws; left_border_rect sg ws; right_border_rect sg ws; bottom_border_rect sg ws]
  | BorderTitlebar => [titlebar_rect sg ws]
  | BorderNone => [rectangle_default]
  end.
Definition update_window_state (ws : WindowState) (m : InputManager) : InputManager :=
  m <| widgets := place_widgets ws 0 (widgets m) |> <| im_input_shape := shape_for ws |>.

Definition widget_kinds : list WidgetKind :=
  [WButton ButtonClose; WButton ButtonMaximize; WButton ButtonMinimize; WEdge edge_northwest; WEdge edge_northeast;
   WEdge edge_southwest; WEdge edge_southeast; WEdge edge_north; WEdge edge_south; WEdge edge_west; WEdge edge_east; WEdge edge_none].
Definition new_input_manager (ws : WindowState) : InputManager * list DecorTask :=
  let m := mkInputManager ((fun k => mkWidget k rectangle_default ButtonUp) <$> widget_kinds) [] 0 0 "" None ∅ in
  let '(m, tasks, _) := decor_set_cursor edge_none m in
  (update_window_state ws m, tasks).

(** [state()] *)
Definition button_infos (m : InputManager) : list ButtonInfo :=
  omap (fun w => match w_kind w with WButton f => Some (mkButtonInfo f (w_state w) (w_rect w)) | WEdge _ => None end) (widgets m).
Record InputState := mkInputState { is_buttons : list ButtonInfo; is_input_shape : list Rectangle }.
Definition input_state_of (m : InputManager) : InputState := mkInputState (button_infos m) (im_input_shape m).
End Window.

(** ** Requests answer to presses *)
(** Which widgets ask for what. *)
Definition asks (k : WidgetKind) (t : DecorTask) : bool :=
  match k, t with
  | WButton ButtonClose, task_request_close | WButton ButtonMaximize, task_request_toggle_maximize
  | WButton ButtonMinimize, task_request_minimize | WButton _, task_request_move _
  | WEdge edge_none, task_request_toggle_maximize | WEdge edge_none, task_request_move _ => true
  | WEdge e, task_request_resize _ e' => bool_decide (e = e' /\ e <> edge_none)
  | _, _ => false
  end.
Definition is_request (t : DecorTask) : bool :=
  match t with task_window_state_updated | task_input_state_updated | task_set_cursor _ => false | _ => true end.

(** A device is down on the widget. *)
Definition on_widget (i : nat) (d : Device) : bool := d_pressed d && bool_decide (active_widget d = Some i).
Definition held_by_pointer (m : InputManager) (i : nat) : Prop := exists d, im_pointer m = Some d /\ on_widget i d = true.
Definition held_by_touch (P : Z -> Prop) (m : InputManager) (i : nat) : Prop :=
  exists id d, P id /\ im_touches m !! id = Some d /\ on_widget i d = true.
Definition widget_held (m : InputManager) (i : nat) : Prop := held_by_pointer m i \/ held_by_touch (fun _ => True) m i.

(** Every widget that is down is one of [H]. *)
Definition down_within (H : nat -> Prop) (m : InputManager) : Prop :=
  forall i w, widgets m !! i = Some w -> w_state w = ButtonDown -> H i.
Definition kind_at (m : InputManager) (i : nat) : option WidgetKind := w_kind <$> widgets m !! i.
Record frame (m m' : InputManager) : Prop := {
  fr_pointer : im_pointer m' = im_pointer m;
  fr_touches : im_touches m' = im_touches m;
  fr_kinds : forall i, kind_at m' i = kind_at m i
}.
#[export] Instance frame_preorder : PreOrder frame.
Proof. split; [by split|]. intros a b c [? ? H1] [? ? H2]. split; [congruence..|]. intros i. by rewrite H2, H1. Qed.

Definition answers_press (H : nat -> Prop) (m : InputManager) (t : DecorTask) : Prop :=
  is_request t = true -> exists i k, kind_at m i = Some k /\ H i /\ asks k t = true.
(** From a state in which only widgets of [H] are down the operation leads to
    one in which only those of [H'] are, asking only for what widgets of [H]
    ask for, and keeps the devices. *)
Definition does {A} (H : nat -> Prop) (a : Spawning A) (H' : A -> nat -> Prop) : Prop :=
  forall m, down_within H m -> let '(m', ts, x) := a m in
    down_within (H' x) m' /\ frame m m' /\ forall t, t ∈ ts -> answers_press H m t.

Lemma down_mono (H H' : nat -> Prop) m : (forall i, H i -> H' i) -> down_within H m -> down_within H' m.
Proof. intros HH Hd i w Hw Hs. by eapply HH, Hd. Qed.
Lemma does_bind {A B} H (a : Spawning A) (f : A -> Spawning B) H1 H2 :
  does H a H1 -> (forall x, does (H1 x) (f x) H2) -> (forall x i, H1 x i -> H i) -> does H (a ≫= f) H2.
Proof.
  intros Ha Hf Hsub m Hm. unfold mbind, Spawning_bind. specialize (Ha m Hm). destruct (a m) as [[m1 t1] x]. destruct Ha as (Hm1 & F1 & A1).
  specialize (Hf x m1 Hm1). destruct (f x m1) as [[m2 t2] y]. destruct Hf as (Hm2 & F2 & A2). split; [done|]. split; [by etrans|].
  intros t [Ht|Ht]%elem_of_app; [by apply A1|]. intros Hr. destruct (A2 t Ht Hr) as (i & k & Hk & Hi & Ht').
  exists i, k. rewrite <- (fr_kinds m m1 F1 i). eauto.
Qed.
Lemma does_weaken {A} (G H : nat -> Prop) (a : Spawning A) (H' G' : A -> nat -> Prop) :
  does H a H' -> (forall i, H i <-> G i) -> (forall x i, H' x i -> G' x i) -> does G a G'.
Proof.
  intros Ha HG HG' m Hm. assert (Hm' : down_within H m) by (eapply down_mono; [|exact Hm]; intros i; apply HG).
  specialize (Ha m Hm'). destruct (a m) as [[m1 t1] x]. destruct Ha as (H1 & H2 & H3). split; [eapply down_mono; [apply HG'|done]|]. split; [done|].
  intros t Ht Hr. destruct (H3 t Ht Hr) as (i & k & ? & ? & ?). exists i, k. by rewrite <- HG.
Qed.
Lemma does_post {A} (H : nat -> Prop) (a : Spawning A) (H' G' : A -> nat -> Prop) :
  does H a H' -> (forall x i, H' x i -> G' x i) -> does H a G'.
Proof. intros Ha HG. by apply (does_weaken H H a H' G'). Qed.
Lemma does_ret {A} H (x : A) : does H (mret x) (fun _ => H).
Proof. intros m Hm. cbn. split; [done|]. split; [done|]. intros t Ht. by apply not_elem_of_nil in Ht. Qed.
Lemma does_spawn H t : is_request t = false -> does H (spawn t) (fun _ => H).
Proof. intros Hr m Hm. cbn. split; [done|]. split; [done|]. intros t' ->%list_elem_of_singleton Hr'. congruence. Qed.
Lemma does_get {A} H (f : InputManager -> A) : does H (im_get f) (fun _ => H).
Proof. intros m Hm. cbn. split; [done|]. split; [done|]. intros t Ht. by apply not_elem_of_nil in Ht. Qed.
Lemma does_change H f : (forall m, widgets (f m) = widgets m /\ im_pointer (f m) = im_pointer m /\ im_touches (f m) = im_touches m) ->
  does H (im_change f) (fun _ => H).
Proof.
  intros Hf m Hm. cbn. destruct (Hf m) as (H1 & H2 & H3). split; [intros i w; rewrite H1; apply Hm|]. split; [split; [done|done|]; intros i; unfold kind_at; by rewrite H1|].
  intros t Ht. by apply not_elem_of_nil in Ht.
Qed.

Lemma lookup_state i j st m w : widgets (m <| widgets := alter (fun w => w <| w_state := st |>) i (widgets m) |>) !! j = Some w ->
  exists w0, widgets m !! j = Some w0 /\ w_kind w = w_kind w0 /\ w_state w = if decide (j = i) then st else w_state w0.
Proof.
  cbn. destruct (decide (j = i)) as [->|Hj]; [rewrite list_lookup_alter_eq|rewrite list_lookup_alter_ne by done; by exists w].
  destruct (widgets m !! i) as [w0|]; [|done]. intros [= <-]. by exists w0.
Qed.
Lemma does_set_state (H : nat -> Prop) i st :
  does H (set_widget_state i st) (fun _ j => (H j /\ j <> i) \/ (j = i /\ st = ButtonDown)).
Proof.
  intros m Hm. cbn. split; [|split; [split; [done|done|]|intros t Ht; by apply not_elem_of_nil in Ht]].
  - intros j w Hw Hs. destruct (lookup_state i j st m w Hw) as (w0 & Hw0 & _ & E). rewrite E in Hs. case_decide as Hj; [right; auto|].
    left. split; [by eapply Hm|done].
  - intros j. unfold kind_at. cbn. destruct (decide (j = i)) as [->|]; [rewrite list_lookup_alter_eq|by rewrite list_lookup_alter_ne]. by destruct (widgets m !! i).
Qed.

Definition without (H : nat -> Prop) (i : nat) : nat -> Prop := fun j => H j /\ j <> i.
Definition plus (H : nat -> Prop) (i : nat) : nat -> Prop := fun j => H j \/ j = i.
Lemma does_release H i st : st <> ButtonDown -> does H (set_widget_state i st) (fun _ => without H i).
Proof. intros Hst. eapply does_post; [apply does_set_state|]. intros _ j [?|[_ ?]]; [done|]. by destruct Hst. Qed.
Lemma does_then {B} H (a : Spawning unit) (b : Spawning B) H1 H2 :
  does H a (fun _ => H1) -> does H1 b H2 -> (forall i, H1 i -> H i) -> does H (a;; b) H2.
Proof. intros Ha Hb Hs. eapply does_bind; [exact Ha|done|done]. Qed.
Lemma does_keep {A B} H (a : Spawning A) (f : A -> Spawning B) H2 :
  does H a (fun _ => H) -> (forall x, does H (f x) H2) -> does H (a ≫= f) H2.
Proof. intros Ha Hf. eapply does_bind; [exact Ha|exact Hf|done]. Qed.

Lemma cursor_does H e : does H (decor_set_cursor e) (fun _ => H).
Proof. apply does_keep; [apply does_get|]. intros c. case_bool_decide; [apply does_ret|]. apply does_keep; [by apply does_change|]. intros []. by apply does_spawn. Qed.
Lemma enter_does H i : does H (widget_enter i) (fun _ => without H i).
Proof.
  eapply does_then; [by apply does_release| |by intros j [? _]]. apply does_keep; [apply does_get|]. intros w.
  apply does_keep; [destruct (w_kind w); [apply does_ret|apply cursor_does]|]. intros []. by apply does_spawn.
Qed.
Lemma leave_does H i : does H (widget_leave i) (fun _ => without H i).
Proof.
  eapply does_then; [by apply does_release| |by intros j [? _]]. apply does_keep; [apply cursor_does|]. intros []. by apply does_spawn.
Qed.
Lemma down_does H i : does H (widget_down i) (fun _ => plus H i).
Proof.
  intros m Hm. pose proof (does_set_state H i ButtonDown m Hm) as (H1 & H2 & _). cbn. split; [|split; [done|]].
  - eapply down_mono; [|exact H1]. intros j [[? ?]|[-> _]]; [by left|by right].
  - intros t ->%list_elem_of_singleton. by intros [=].
Qed.

Lemma answers_down H m i w (ts : list DecorTask) : down_within H m -> widgets m !! i = Some w -> w_state w = ButtonDown ->
  (forall t, t ∈ ts -> is_request t = true -> asks (w_kind w) t = true) -> forall t, t ∈ ts -> answers_press H m t.
Proof. intros Hm Hw Hs Ha t Ht Hr. exists i, (w_kind w). unfold kind_at. rewrite Hw. split; [done|]. split; [by eapply Hm|by apply Ha]. Qed.
Lemma answers_none H m (ts : list DecorTask) : (forall t, t ∈ ts -> is_request t = false) -> forall t, t ∈ ts -> answers_press H m t.
Proof. intros Hn t Ht Hr. specialize (Hn t Ht). congruence. Qed.
Ltac each_task :=
  let t := fresh "t" in let Ht := fresh "Ht" in intros t Ht; cbn in Ht; rewrite ?elem_of_cons in Ht; destruct_or? Ht; subst; try done; try by apply not_elem_of_nil in Ht.

Lemma up_does H i : does H (widget_up i) (fun _ => without H i).
Proof.
  intros m Hm. destruct (does_release H i ButtonHovered ltac:(done) m Hm) as (H1 & H2 & _).
  unfold widget_up, the_widget, im_get, mbind, Spawning_bind. cbn. destruct (widgets m !! i) as [w|] eqn:Hw; cbn.
  - case_bool_decide as Hd; cbn; [|split; [exact H1|split; [exact H2|apply answers_none; each_task]]].
    destruct (_ && bool_decide (w_kind w = WEdge edge_none)) eqn:Ek; cbn.
    + apply andb_true_iff in Ek as [_ Ek%bool_decide_eq_true]. rewrite Ek. cbn. split; [exact H1|]. split; [exact H2|].
      apply (answers_down H m i w); [done..|]. rewrite Ek. each_task.
    + destruct (w_kind w) as [[| |]|e] eqn:E; cbn; (split; [exact H1|]); (split; [exact H2|]);
        apply (answers_down H m i w); try done; rewrite E; each_task.
  - split; [exact H1|split; [exact H2|apply answers_none; each_task]].
Qed.
Lemma drag_does H i : does H (widget_drag i) (fun _ => without H i).
Proof.
  intros m Hm. destruct (does_release H i ButtonUp ltac:(done) m Hm) as (H1 & H2 & _).
  assert (Hn : (forall w, widgets m !! i = Some w -> w_state w <> ButtonDown) -> down_within (without H i) m).
  { intros Hno j w Hw Hs. split; [by eapply Hm|]. intros ->. by apply (Hno w). }
  unfold widget_drag, the_widget, im_get, mbind, Spawning_bind. cbn. destruct (widgets m !! i) as [w|] eqn:Hw; cbn.
  - case_bool_decide as Hd; cbn.
    + destruct (w_kind w) as [f|[]] eqn:E; cbn; (split; [exact H1|]); (split; [exact H2|]);
        apply (answers_down H m i w); try done; rewrite E; each_task; by destruct f.
    + split; [apply Hn; by intros w' [= <-]|]. split; [done|apply answers_none; each_task].
  - split; [by apply Hn|]. split; [done|apply answers_none; each_task].
Qed.

(** *** Devices *)
Definition not_active (H : nat -> Prop) (d : Device) : nat -> Prop := fun j => H j /\ active_widget d <> Some j.
Lemma active_does H d (f : nat -> Spawning unit) : (forall i, does H (f i) (fun _ => without H i)) -> does H (on_active d f) (fun _ => not_active H d).
Proof.
  intros Hf. unfold on_active, not_active. destruct (active_widget d) as [i|].
  - eapply does_post; [apply Hf|]. intros [] j [? ?]. split; [done|congruence].
  - eapply does_post; [apply does_ret|]. by intros [] j ?.
Qed.
(** A device that enters is on a widget that is not down. *)
Lemma does_return {A} H (x : A) (H' : A -> nat -> Prop) : (forall j, H j -> H' x j) -> does H (mret x) H'.
Proof. intros HH m Hm. cbn. split; [eapply down_mono; [exact HH|done]|]. split; [done|]. intros t Ht. by apply not_elem_of_nil in Ht. Qed.
Lemma process_enter_does H d : does H (process_enter d) (fun d' j => H j /\ active_widget d' <> Some j).
Proof.
  apply does_keep; [apply does_get|]. intros n. eapply does_then; [apply active_does; intros; apply enter_does| |by intros j [? _]].
  apply does_return. by intros j [? ?].
Qed.
Lemma process_leave_does H d : does H (process_leave d) (fun _ => not_active H d).
Proof. eapply does_then; [apply active_does; intros; apply leave_does| |by intros j [? _]]. by apply does_return. Qed.
Lemma process_up_does H d : does H (process_up d) (fun _ => not_active H d).
Proof. eapply does_then; [apply active_does; intros; apply up_does| |by intros j [? _]]. by apply does_change. Qed.
Lemma process_down_does H d : does H (process_down d) (fun _ j => H j \/ active_widget d = Some j).
Proof.
  unfold process_down, on_active. destruct (active_widget d) as [i|]; [eapply does_post; [apply down_does|]|eapply does_post; [apply does_ret|]].
  - intros [] j [?| ->]; auto.
  - intros [] j ?. by left.
Qed.
Lemma process_move_does H d : does H (process_move d) (fun _ => H).
Proof.
  apply does_keep; [apply does_get|]. intros n. case_bool_decide; [apply does_ret|].
  eapply does_then; [apply active_does; intros; apply leave_does| |by intros j [? _]].
  eapply does_then; [apply active_does; intros; apply enter_does| |by intros j [? _]]. apply does_return. by intros j [[? _] _].
Qed.
Lemma process_drag_does H d : does H (process_drag d) (fun _ => not_active H d).
Proof.
  apply does_keep; [apply does_get|]. intros n.
  eapply (does_then _ _ _ (not_active H d)); [apply active_does; intros i| |by intros j [? _]].
  - eapply does_then; [apply drag_does| |by intros j [? _]]. case_bool_decide; [apply does_ret|].
    eapply does_post; [apply leave_does|]. by intros [] j [? _].
  - cbv zeta. apply (does_then _ _ _ (not_active H d)); [|by apply does_return|done]. destruct (_ && _); [|apply does_ret].
    eapply does_post; [apply active_does; intros; apply enter_does|]. by intros [] j [? _].
Qed.

(** *** Events *)
(** The widgets that are down are held by a device. *)
Definition ManagerInv (m : InputManager) : Prop := down_within (widget_held m) m.

(** What an event does: the invariant again, and requests only from widgets
    that were held before it. *)
Definition event_ok (a : Spawning unit) (m : InputManager) : Prop :=
  let '(m', ts, _) := a m in ManagerInv m' /\ (forall i, kind_at m' i = kind_at m i) /\ forall t, t ∈ ts -> answers_press (widget_held m) m t.

(** An event whose work [a] keeps the devices and ends by storing its device. *)
Lemma event_by {A} (a : Spawning A) (store : A -> InputManager -> InputManager) (H : nat -> Prop) (H' : A -> nat -> Prop) m :
  ManagerInv m -> (forall i, widget_held m i <-> H i) -> does H a H' ->
  (forall x m', widgets (store x m') = widgets m') ->
  (forall x m' i, frame m m' -> H' x i -> widget_held (store x m') i) ->
  event_ok (x ← a; im_change (store x)) m.
Proof.
  intros Hi HH Ha Hw Hh. unfold event_ok, mbind, Spawning_bind. specialize (Ha m).
  assert (Hm : down_within H m) by (eapply down_mono; [|exact Hi]; intros i; apply HH).
  specialize (Ha Hm). destruct (a m) as [[m1 ts] x]. destruct Ha as (H1 & F & Ht). cbn. split; [|split].
  - intros i w Hiw Hs. rewrite Hw in Hiw. apply (Hh x m1 i F). by eapply H1.
  - intros i. unfold kind_at. rewrite Hw. apply (fr_kinds m m1 F).
  - rewrite app_nil_r. intros t Htt Hr. destruct (Ht t Htt Hr) as (i & k & ? & ? & ?). exists i, k. by rewrite HH.
Qed.

Lemma on_widget_active d i : on_widget i d = true <-> d_pressed d = true /\ active_widget d = Some i.
Proof. unfold on_widget. by rewrite andb_true_iff, bool_decide_eq_true. Qed.

(** The widgets of one device and those of the others. *)
Definition with_device (d : option Device) (others : nat -> Prop) : nat -> Prop :=
  fun i => (exists d', d = Some d' /\ on_widget i d' = true) \/ others i.
Lemma not_active_rest d others i : not_active (with_device (Some d) others) d i -> others i.
Proof. intros [[(d' & [= <-] & [_ Ha]%on_widget_active)|?] Hn]; [by destruct Hn|done]. Qed.
Lemma idle_rest d others i : d_pressed d = false -> with_device (Some d) others i -> others i.
Proof. intros Hp [(d' & [= <-] & [Ha _]%on_widget_active)|?]; [congruence|done]. Qed.

(** Moving a device, and pressing or releasing it, from states in which it is
    down on at most its widget. *)
Lemma moved_does (H others : nat -> Prop) d location : (forall i, H i -> with_device (Some d) others i) ->
  does H
    (if bool_decide (d_location d <> location) then
       let d := d <| d_location := location |> in if d_pressed d then process_drag d else process_move d
     else mret d) (fun d' i => others i \/ (d' = d /\ H i)).
Proof.
  intros HH. case_bool_decide; [|apply does_return; auto]. cbv zeta. destruct (d_pressed (d <| d_location := location |>)) eqn:Ep.
  - eapply does_post; [apply process_drag_does|]. intros d' i [Hi Hn]. left. apply (not_active_rest d). split; [by apply HH|done].
  - eapply does_post; [apply process_move_does|]. intros d' i Hi. left. apply (idle_rest d); [done|by apply HH].
Qed.
Lemma pressed_does (H others : nat -> Prop) d pressed : (forall i, others i -> H i) -> (forall i, H i -> with_device (Some d) others i) ->
  does H
    (if bool_decide (d_pressed d <> pressed) then
       let d := d <| d_pressed := pressed |> in (if pressed then process_down d else process_up d);; mret d
     else mret d) (fun d' => with_device (Some d') others).
Proof.
  intros HO HH. case_bool_decide as Hp; [|by apply does_return]. cbv zeta. destruct pressed.
  - assert (Hidle : d_pressed d = false) by (by destruct (d_pressed d)). intros m Hm.
    pose proof (process_down_does H (d <| d_pressed := true |>) m Hm) as Hd. unfold mbind, Spawning_bind.
    destruct (process_down (d <| d_pressed := true |>) m) as [[m1 t1] []]. cbn. rewrite app_nil_r. destruct Hd as (H1 & H2 & H3).
    split; [|done]. eapply down_mono; [|exact H1]. intros i [Hi|Hi]; [right; by apply (idle_rest d); [|apply HH]|left].
    eexists. split; [done|]. by apply on_widget_active.
  - eapply (does_then _ _ _ others); [|apply does_return; by right|done].
    eapply does_post; [apply process_up_does|]. intros [] i [Hi Hn]. apply (not_active_rest d). split; [by apply HH|done].
Qed.

(** The timestamp changes first; it matters to nothing here. *)
Lemma stamped_ok t (a : Spawning unit) m :
  event_ok a (m <| event_timestamp := t |>) -> event_ok (im_change (fun m => m <| event_timestamp := t |>);; a) m.
Proof. unfold event_ok, mbind, Spawning_bind. cbn. by destruct (a _) as [[? ?] ?]. Qed.
Lemma get_ok {A} (f : InputManager -> A) (g : A -> Spawning unit) m : event_ok (g (f m)) m -> event_ok (im_get f ≫= g) m.
Proof. unfold event_ok, mbind, Spawning_bind. cbn. by destruct (g (f m) m) as [[? ?] ?]. Qed.
Lemma bind_assoc_ok {A B} (a : Spawning A) (f : A -> Spawning B) (g : B -> Spawning unit) m :
  event_ok ((a ≫= f) ≫= g) m -> event_ok (x ← a; f x ≫= g) m.
Proof.
  unfold event_ok, mbind, Spawning_bind. destruct (a m) as [[m1 t1] x]. destruct (f x m1) as [[m2 t2] y]. destruct (g y m2) as [[m3 t3] z].
  by rewrite <- app_assoc.
Qed.

(** The pointer, and touches other than [id]. *)
Definition others_of_touch (id : Z) (m : InputManager) : nat -> Prop :=
  fun i => held_by_pointer m i \/ held_by_touch (fun id' => id' <> id) m i.
Lemma held_split_pointer m i : widget_held m i <-> with_device (im_pointer m) (held_by_touch (fun _ => True) m) i.
Proof. done. Qed.
Lemma held_split_touch id m i : widget_held m i <-> with_device (im_touches m !! id) (others_of_touch id m) i.
Proof.
  unfold widget_held, with_device, others_of_touch, held_by_touch. split.
  - intros [?|(id' & d & _ & Hd & Ho)]; [by right; left|]. destruct (decide (id' = id)) as [->|]; [left; eauto|right; right; eauto 10].
  - intros [(d & Hd & Ho)|[?|(id' & d & _ & Hd & Ho)]]; [right; eauto|by left|right; eauto 10].
Qed.

(** The device of an event is the known one or enters. *)
Lemma known_or_entered others p location pressed :
  does (with_device p others) (match p with Some d => mret d | None => process_enter (mkDevice location pressed None) end)
    (fun d i => others i \/ (p = Some d /\ with_device p others i)).
Proof.
  destruct p as [d|]; [apply does_return; auto|]. eapply does_post; [apply process_enter_does|].
  intros d i [[(d' & [=] & _)|Hi] _]. by left.
Qed.

Lemma device_does others p location pressed :
  does (with_device p others)
    (d ← (d ← match p with Some d => mret d | None => process_enter (mkDevice location pressed None) end;
          if bool_decide (d_location d <> location) then
            let d := d <| d_location := location |> in if d_pressed d then process_drag d else process_move d
          else mret d);
     if bool_decide (d_pressed d <> pressed) then
       let d := d <| d_pressed := pressed |> in (if pressed then process_down d else process_up d);; mret d
     else mret d) (fun d => with_device (Some d) others).
Proof.
  set (W := with_device p others).
  eapply (does_bind _ _ _ (fun d i => others i \/ (p = Some d /\ W i))); [eapply does_bind; [apply known_or_entered| |]| |].
  - intros d. eapply does_post; [apply (moved_does _ others)|].
    + intros i [Hi|[-> Hi]]; [by right|done].
    + intros d' i [Hi|[-> [Hi|Hi]]]; auto.
  - intros d i [Hi|[_ Hi]]; [by right|done].
  - intros d. apply pressed_does; [by left|]. intros i [Hi|[-> Hi]]; [by right|done].
  - intros d i [Hi|[_ Hi]]; [by right|done].
Qed.

Lemma pointer_event_ok t location pressed m : ManagerInv m -> event_ok (pointer_event t location pressed) m.
Proof.
  intros Hi. apply stamped_ok, get_ok. set (m0 := m <| event_timestamp := t |>). assert (Hi0 : ManagerInv m0) by exact Hi.
  set (others := held_by_touch (fun _ => True) m0). set (p := im_pointer m0).
  do 2 apply bind_assoc_ok.
  apply (event_by _ (fun d m => m <| im_pointer := Some d |>) (with_device p others) (fun d => with_device (Some d) others)); [done|done| |done|].
  - apply (device_does others p).
  - intros d m1 i F [(d' & [= <-] & Hd)|Ht]; [left; by exists d|]. right. destruct Ht as (id & d' & ? & Hid & Ho). exists id, d'. cbn.
    by rewrite (fr_touches _ _ F).
Qed.

Lemma decor_pointer_leave_ok t m : ManagerInv m -> event_ok (decor_pointer_leave t) m.
Proof.
  intros Hi. apply stamped_ok, get_ok. set (m0 := m <| event_timestamp := t |>). assert (Hi0 : ManagerInv m0) by exact Hi.
  apply (event_by _ (fun _ m => m <| im_pointer := None |>) (widget_held m0) (fun _ => held_by_touch (fun _ => True) m0)); [done|done| |done|].
  - destruct (im_pointer m0) as [d|] eqn:Ep.
    + eapply (does_bind _ _ _ (fun _ => held_by_touch (fun _ => True) m0)); [eapply does_post; [apply process_leave_does|]|intros x; by apply does_return|by intros d' i Hh; right].
      intros d' i [[(d0 & Hd0 & Ho%on_widget_active)|Ht] Hn]; [|done]. rewrite Ep in Hd0. injection Hd0 as <-. by destruct Hn, Ho.
    + apply does_return. intros i [(d0 & Hd0 & _)|Ht]; [by rewrite Ep in Hd0|done].
  - intros [] m1 i F (id & d' & ? & Hid & Ho). right. exists id, d'. cbn. by rewrite (fr_touches _ _ F).
Qed.

(** A touch that is new goes down where it enters, which asks for nothing. *)
Lemma touch_held id d m m1 i : frame m m1 -> with_device (Some d) (others_of_touch id m) i ->
  widget_held (m1 <| im_touches := <[id := d]> (im_touches m1) |>) i.
Proof.
  intros F [(d' & [= <-] & Ho)|[(d' & Hd & Ho)|(id' & d' & Hne & Hid & Ho)]].
  - right. exists id, d. cbn. by rewrite lookup_insert_eq.
  - left. exists d'. cbn. by rewrite (fr_pointer _ _ F).
  - right. exists id', d'. cbn. by rewrite lookup_insert_ne, (fr_touches _ _ F).
Qed.
Lemma process_enter_place d m : d_location (process_enter d m).2 = d_location d.
Proof. unfold process_enter, widget_at, im_get, mbind, Spawning_bind. cbn. by destruct (on_active _ widget_enter m) as [[? ?] []]. Qed.
Lemma new_touch_does others location :
  does others (d ← process_enter (mkDevice location false None); let d := d <| d_pressed := true |> in process_down d;; mret d)
    (fun d' => with_device (Some d') others).
Proof.
  eapply does_bind; [apply process_enter_does| |by intros d i [? _]]. intros d m Hm. cbv zeta.
  pose proof (process_down_does _ (d <| d_pressed := true |>) m Hm) as Hd. unfold mbind, Spawning_bind.
  destruct (process_down (d <| d_pressed := true |>) m) as [[m1 t1] []]. cbn. rewrite app_nil_r. destruct Hd as (H1 & H2 & H3).
  split; [|done]. eapply down_mono; [|exact H1]. intros i [[Hi _]|Hi]; [by right|left]. eexists. split; [done|]. by apply on_widget_active.
Qed.
Definition new_touch (location : Point) : Spawning Device :=
  d ← process_enter (mkDevice location false None); let d := d <| d_pressed := true |> in process_down d;; mret d.
Definition touch_moved (location : Point) (d : Device) : Spawning Device :=
  if bool_decide (d_location d <> location) then process_drag (d <| d_location := location |>) else mret d.
Lemma new_touch_stays location m : (new_touch location ≫= touch_moved location) m = new_touch location m.
Proof.
  unfold new_touch, mbind, Spawning_bind. pose proof (process_enter_place (mkDevice location false None) m) as Hp.
  destruct (process_enter (mkDevice location false None) m) as [[m1 t1] d]. cbn in Hp.
  destruct (process_down (d <| d_pressed := true |>) m1) as [[m2 t2] []]. cbn. unfold touch_moved. cbn.
  rewrite bool_decide_false by (intros H; by apply H). cbn. by rewrite !app_nil_r.
Qed.
Lemma touch_does others p location :
  does (with_device p others) (match p with Some d => mret d | None => new_touch location end ≫= touch_moved location)
    (fun d => with_device (Some d) others).
Proof.
  destruct p as [d|].
  - intros m Hm. change (mret d ≫= touch_moved location) with (fun m => (mret d ≫= touch_moved location) m).
    assert (Hd : does (with_device (Some d) others) (touch_moved location d) (fun d' => with_device (Some d') others)).
    { unfold touch_moved. case_bool_decide; [|by apply does_return]. eapply does_post; [apply process_drag_does|].
      intros d' i Hi. right. by apply (not_active_rest d). }
    specialize (Hd m Hm). unfold mbind, Spawning_bind. cbn. by destruct (touch_moved location d m) as [[? ?] ?].
  - intros m Hm. rewrite new_touch_stays. revert m Hm. eapply (does_weaken _ others); [apply new_touch_does| |done].
    intros i. split; [by right|]. by intros [(d & [=] & _)|Hi].
Qed.
Lemma touch_event_ok id t location m : ManagerInv m -> event_ok (touch_event id t location) m.
Proof.
  intros Hi. apply stamped_ok, get_ok. set (m0 := m <| event_timestamp := t |>). assert (Hi0 : ManagerInv m0) by exact Hi.
  apply bind_assoc_ok.
  apply (event_by _ (fun d m => m <| im_touches := <[id := d]> (im_touches m) |>) (with_device (im_touches m0 !! id) (others_of_touch id m0))
    (fun d => with_device (Some d) (others_of_touch id m0))); [done|apply held_split_touch|apply touch_does|done|].
  intros d m1 i F. by apply touch_held.
Qed.

Lemma touch_up_ok id t m : ManagerInv m -> event_ok (decor_touch_up id t) m.
Proof.
  intros Hi. apply stamped_ok, get_ok. set (m0 := m <| event_timestamp := t |>). assert (Hi0 : ManagerInv m0) by exact Hi.
  destruct (im_touches m0 !! id) as [d|] eqn:Et; [|split; [done|]; split; [done|]; intros t' Ht; by apply not_elem_of_nil in Ht].
  set (others := others_of_touch id m0). apply bind_assoc_ok.
  assert (Hd : does (widget_held m0) (process_up d) (fun _ => others)).
  { eapply (does_weaken _ (with_device (Some d) others)); [apply process_up_does| |].
    - intros i. rewrite (held_split_touch id m0 i), Et. done.
    - intros [] i. apply not_active_rest. }
  apply (event_by (process_up d;; process_leave d) (fun _ m => m <| im_touches := delete id (im_touches m) |>) (widget_held m0) (fun _ => others));
    [done|done| |done|].
  - eapply does_then; [exact Hd| |]; [eapply does_post; [apply process_leave_does|]; by intros d' i [? _]|].
    intros i Hi1. apply (held_split_touch id m0 i). by right.
  - intros d' m1 i F [(p & Hp & Ho)|(id' & d1 & Hne & Hid & Ho)]; [left; exists p; cbn; by rewrite (fr_pointer _ _ F)|].
    right. exists id', d1. cbn. by rewrite lookup_delete_ne, (fr_touches _ _ F).
Qed.

(** *** Sequences of events *)
Inductive DecorInputStep :=
| SPointer (timestamp : Z) (location : Point) (pressed : bool)
| SPointerLeave (timestamp : Z)
| STouch (id timestamp : Z) (location : Point)
| STouchUp (id timestamp : Z)
| SWindow (ws : WindowState).

Section Sequences.
Context (sg : StaticGeometry).

Definition decor_input_step (st : DecorInputStep) : Spawning unit :=
  match st with
  | SPointer t l p => pointer_event t l p
  | SPointerLeave t => decor_pointer_leave t
  | STouch id t l => touch_event id t l
  | STouchUp id t => decor_touch_up id t
  | SWindow ws => im_change (update_window_state sg ws)
  end.
Fixpoint decor_input_run (steps : list DecorInputStep) : Spawning unit :=
  match steps with [] => mret tt | st :: steps => decor_input_step st;; decor_input_run steps end.

(** An event as steps: every contact of a touch event is one. *)
Definition steps_of_event (ev : MirEvent) : list DecorInputStep :=
  match ev with
  | PointerEvent e =>
      match p_action e with
      | mir_pointer_action_leave => [SPointerLeave (event_time (p_header e))]
      | _ => [SPointer (event_time (p_header e)) (point_of_floats (axis_x e) (axis_y e)) (has_flag (p_buttons e) 1)]
      end
  | TouchEvent e =>
      (fun c => match action c with
                | mir_touch_action_up => STouchUp (touch_id c) (event_time (t_header e))
                | _ => STouch (touch_id c) (event_time (t_header e)) (point_of_floats (c_x c) (c_y c))
                end) <$> contacts e
  | _ => []
  end.
Lemma spawning_then_ret (a : Spawning unit) m : (a;; mret tt) m = a m.
Proof. unfold mbind, Spawning_bind, mret, Spawning_ret. destruct (a m) as [[? ?] []]. by rewrite app_nil_r. Qed.
Lemma input_consumed_steps ev m : input_consumed ev m = decor_input_run (steps_of_event ev) m.
Proof.
  destruct ev as [e|e|e|ty]; cbn [input_consumed steps_of_event]; [done| | |done].
  - revert m. induction (contacts e) as [|c cs IH]; intros m; [done|]. rewrite fmap_cons. cbn [decor_contacts decor_input_run].
    unfold mbind, Spawning_bind, decor_contact. destruct (action c); cbn [decor_input_step];
      [destruct (decor_touch_up _ _ m) as [[m1 ?] []]|destruct (touch_event _ _ _ m) as [[m1 ?] []]|destruct (touch_event _ _ _ m) as [[m1 ?] []]]; by rewrite IH.
  - destruct (p_action e); cbn [decor_input_run decor_input_step]; by rewrite spawning_then_ret.
Qed.

Lemma place_widgets_lookup ws n l i w : place_widgets sg ws n l !! i = Some w ->
  exists w0, l !! i = Some w0 /\ w_kind w = w_kind w0 /\ w_state w = w_state w0.
Proof.
  revert n i. induction l as [|w0 l IH]; intros n [|i]; cbn; [done|done| |]; destruct (w_kind w0) eqn:E; cbn; try apply IH;
    intros [= <-]; exists w0; by rewrite E.
Qed.
Lemma place_widgets_kinds ws n l : w_kind <$> place_widgets sg ws n l = w_kind <$> l.
Proof. revert n. induction l as [|w l IH]; intros n; [done|]. cbn. destruct (w_kind w) eqn:E; cbn; rewrite E; f_equal; apply IH. Qed.

Lemma kind_at_fmap m i : kind_at m i = (w_kind <$> widgets m) !! i.
Proof. unfold kind_at. by rewrite list_lookup_fmap. Qed.
Lemma decor_input_step_ok st m : ManagerInv m -> event_ok (decor_input_step st) m.
Proof.
  intros Hi. destruct st; cbn [decor_input_step]; [by apply pointer_event_ok|by apply decor_pointer_leave_ok|by apply touch_event_ok|by apply touch_up_ok|].
  split; [|split; [|intros t Ht; by apply not_elem_of_nil in Ht]].
  - intros i w Hw Hs. cbn in Hw. apply place_widgets_lookup in Hw as (w0 & Hw0 & _ & E). eapply (Hi i w0 Hw0). congruence.
  - intros i. rewrite !kind_at_fmap. cbn. by rewrite place_widgets_kinds.
Qed.

Definition known_kinds (m : InputManager) : Prop := forall i, kind_at m i = widget_kinds !! i.
Lemma decor_input_run_ok steps m : ManagerInv m -> known_kinds m ->
  ManagerInv (decor_input_run steps m).1.1 /\ known_kinds (decor_input_run steps m).1.1.
Proof.
  revert m. induction steps as [|st steps IH]; intros m Hi Hk; [done|]. cbn [decor_input_run]. unfold mbind, Spawning_bind.
  pose proof (decor_input_step_ok st m Hi) as Hst. unfold event_ok in Hst. destruct (decor_input_step st m) as [[m1 t1] []]. destruct Hst as (H1 & H2 & _).
  destruct (IH m1 H1) as [H3 H4]; [intros i; by rewrite H2|]. by destruct (decor_input_run steps m1) as [[m2 t2] []].
Qed.
Lemma new_manager_ok ws : ManagerInv (new_input_manager sg ws).1 /\ known_kinds (new_input_manager sg ws).1.
Proof.
  assert (E : widgets (new_input_manager sg ws).1 = place_widgets sg ws 0 ((fun k => mkWidget k rectangle_default ButtonUp) <$> widget_kinds)) by done.
  split.
  - intros i w Hw Hs. rewrite E in Hw. apply place_widgets_lookup in Hw as (w0 & Hw0 & _ & Es). rewrite list_lookup_fmap in Hw0.
    destruct (widget_kinds !! i); [|done]. injection Hw0 as <-. cbn in Es. congruence.
  - intros i. rewrite kind_at_fmap, E, place_widgets_kinds, <- list_fmap_compose. by rewrite list_fmap_id.
Qed.

(** C20: (safety) Whatever pointers and touches do on a decoration and however the
    window changes meanwhile, the decoration asks for something only while some
    pointer or touch is down on a widget, and only for what that widget is for:
    closing, maximizing and minimizing from their buttons, resizing at an edge or
    corner from that edge or corner, moving from the titlebar or a button.  A
    widget that has been left is never taken for pressed. *)
Theorem requests_answer_presses ws steps st t :
  let m := (decor_input_run steps (new_input_manager sg ws).1).1.1 in
  t ∈ (decor_input_step st m).1.2 -> is_request t = true ->
  exists i k, widget_kinds !! i = Some k /\ widget_held m i /\ asks k t = true.
Proof.
  intros m Ht Hr. destruct (new_manager_ok ws) as [Hi Hk]. destruct (decor_input_run_ok steps _ Hi Hk) as [Hi' Hk']. fold m in Hi', Hk'.
  pose proof (decor_input_step_ok st m Hi') as Hst. unfold event_ok in Hst. destruct (decor_input_step st m) as [[m1 ts] []]. destruct Hst as (_ & _ & Ha).
  destruct (Ha t Ht Hr) as (i & k & Hik & Hh & Hask). exists i, k. by rewrite <- Hk'.
Qed.

(** A click: a pointer that hovers over a widget is pressed and released in
    place, and the decoration asks once for what the widget is for. *)
Definition click_requests (k : WidgetKind) (double : bool) : list DecorTask :=
  match k with
  | WButton ButtonClose => [task_request_close]
  | WButton ButtonMaximize => [task_request_toggle_maximize]
  | WButton ButtonMinimize => [task_request_minimize]
  | WEdge edge_none => if double then [task_request_toggle_maximize] else []
  | WEdge _ => []
  end.
Definition is_double_click (m : InputManager) (t : Z) : bool :=
  (0 <? previous_up_timestamp m) && (t - previous_up_timestamp m <=? double_click_threshold).
Lemma spawn_bind {A B} (a : Spawning A) (f : A -> Spawning B) m m1 t1 x m2 t2 y :
  a m = (m1, t1, x) -> f x m1 = (m2, t2, y) -> (a ≫= f) m = (m2, t1 ++ t2, y).
Proof. unfold mbind, Spawning_bind. intros -> ->. done. Qed.
Lemma press_in_place t p d m m1 ts : im_pointer m = Some d -> d_pressed d = negb p ->
  (if p then process_down (d <| d_pressed := p |>) else process_up (d <| d_pressed := p |>)) (m <| event_timestamp := t |>) = (m1, ts, tt) ->
  pointer_event t (d_location d) p m = (m1 <| im_pointer := Some (d <| d_pressed := p |>) |>, ts, tt).
Proof.
  intros Hp Hd E. assert (Hp0 : im_pointer (m <| event_timestamp := t |>) = Some d) by exact Hp.
  rewrite <- (app_nil_l ts). eapply spawn_bind; [done|]. rewrite <- (app_nil_l ts). eapply spawn_bind; [done|].
  rewrite <- (app_nil_l ts). eapply spawn_bind; [by rewrite Hp0|]. rewrite <- (app_nil_l ts).
  eapply spawn_bind; [by rewrite (bool_decide_false (d_location d <> d_location d)) by (intros H; by apply H)|].
  rewrite <- (app_nil_r ts). eapply spawn_bind; [|done]. rewrite (bool_decide_true (d_pressed d <> p)) by (rewrite Hd; by destruct p).
  rewrite <- (app_nil_r ts). eapply spawn_bind; [exact E|done].
Qed.
Lemma up_tasks i w m : widgets m !! i = Some w -> w_state w = ButtonDown ->
  List.filter is_request (widget_up i m).1.2 = click_requests (w_kind w) (is_double_click m (event_timestamp m)).
Proof.
  intros Hw Hs. unfold widget_up, the_widget, is_double_click, im_get, mbind, Spawning_bind. cbn. rewrite Hw. cbn. rewrite bool_decide_true by done. cbn.
  destruct (w_kind w) as [[]|[]]; cbn; rewrite ?andb_false_r, ?andb_true_r; try done. by destruct ((_ <? _) && _).
Qed.
Lemma click_asks m d i k t t' : im_pointer m = Some d -> d_pressed d = false -> active_widget d = Some i -> kind_at m i = Some k ->
  List.filter is_request (decor_input_run [SPointer t (d_location d) true; SPointer t' (d_location d) false] m).1.2 = click_requests k (is_double_click m t').
Proof.
  intros Hp Hd Ha Hk. unfold kind_at in Hk. destruct (widgets m !! i) as [w|] eqn:Hw; [|done]. injection Hk as Hk.
  destruct d as [l p a]. cbn in Hd, Ha. subst p a. set (d1 := mkDevice l true (Some i)).
  set (m1 := m <| event_timestamp := t |> <| widgets := alter (fun w => w <| w_state := ButtonDown |>) i (widgets m) |> <| im_pointer := Some d1 |>).
  assert (E1 : pointer_event t l true m = (m1, [task_input_state_updated], tt)) by (by apply (press_in_place t true (mkDevice l false (Some i)))).
  set (m2 := m1 <| event_timestamp := t' |>).
  assert (Ew : widgets m2 !! i = Some (w <| w_state := ButtonDown |>)) by (cbn; by rewrite list_lookup_alter_eq, Hw).
  pose proof (up_tasks i _ m2 Ew eq_refl) as Eu. destruct (widget_up i m2) as [[m3 ts] []] eqn:E3.
  assert (E2 : exists m4, pointer_event t' l false m1 = (m4, ts, tt)).
  { eexists. apply (press_in_place t' false d1); [done..|]. rewrite <- (app_nil_r ts). eapply spawn_bind; [exact E3|done]. }
  destruct E2 as [m4 E2]. cbn [decor_input_run decor_input_step d_location]. unfold mbind, Spawning_bind. rewrite E1, E2. cbn -[List.filter].
  rewrite app_nil_r. cbn. rewrite <- Hk. exact Eu.
Qed.
End Sequences.

(** ** Concrete inputs *)
Definition example_window (b : BorderType) : WindowState := mkWindowState (mkSize 400 300) b mir_window_focus_state_focused "a".
Definition example_manager (b : BorderType) : InputManager := (new_input_manager default_geometry (example_window b)).1.
(** The pointer is pressed in the titlebar. *)
Definition titlebar_press : list DecorInputStep := [SPointer 1 (mkPoint 100 12) false; SPointer 2 (mkPoint 100 12) true].

Lemma requests_answer_presses_witness :
  let m := (decor_input_run default_geometry titlebar_press (new_input_manager default_geometry (example_window BorderFull)).1).1.1 in
  exists i k, widget_kinds !! i = Some k /\ widget_held m i /\ asks k (task_request_move 3) = true.
Proof.
  apply (requests_answer_presses default_geometry (example_window BorderFull) titlebar_press (SPointer 3 (mkPoint 110 12) true) (task_request_move 3)).
  - apply (bool_decide_unpack _). vm_compute. exact I.
  - reflexivity.
Defined.

(** What the inputs of a list ask for. *)
Definition requests_of (b : BorderType) (steps : list DecorInputStep) : list DecorTask :=
  List.filter is_request (decor_input_run default_geometry steps (example_manager b)).1.2.
(** The corners resize a maximized window too, which has no borders. *)
Example corner_of_maximized :
  requests_of BorderTitlebar [SPointer 1 (mkPoint 5 5) false; SPointer 2 (mkPoint 5 5) true; SPointer 3 (mkPoint 6 6) true] = [task_request_resize 3 edge_northwest].
Proof. vm_compute. reflexivity. Qed.
(** A click on the minimize button and one on the titlebar soon after it are
    taken for a double click on the titlebar. *)
Example double_click_elsewhere :
  requests_of BorderFull [SPointer 1 (mkPoint 320 12) false; SPointer 2 (mkPoint 320 12) true; SPointer 3 (mkPoint 320 12) false;
    SPointer 4 (mkPoint 100 12) false; SPointer 5 (mkPoint 100 12) true; SPointer 6 (mkPoint 100 12) false] = [task_request_minimize; task_request_toggle_maximize].
Proof. vm_compute. reflexivity. Qed.
(** A window that grows moves the close button away from under the pointer, yet
    the next click closes the window. *)
Example click_after_resize :
  requests_of BorderFull [SPointer 1 (mkPoint 375 12) false; SWindow (mkWindowState (mkSize 800 300) BorderFull mir_window_focus_state_focused "a");
    SPointer 2 (mkPoint 375 12) true; SPointer 3 (mkPoint 375 12) false] = [task_request_close].
Proof. vm_compute. reflexivity. Qed.
