(* ===== verification/DecorRenderer.v ===== *)
(** * Drawing window decorations

    [Renderer] of [src/server/shell/decoration/renderer.cpp]: the pixels of the
    titlebar and the borders, which are drawn again only as far as they have
    changed.  Pixel memory is a function from addresses to pixels.  FreeType is a
    parameter: the bitmap of a glyph and how far it advances. *)
From S2P Require Import Prelude Geometry InputEvents WindowInfo Surface DecorWindow DecorInput.

(** ** Pixels *)
Notation Pixel := Z (only parsing).
Notation Pixels := (Z -> Z) (only parsing).

Definition rgba (r g b a : Z) : Pixel := Z.lor (Z.lor (Z.lor (Z.shiftl b 0) (Z.shiftl g 8)) (Z.shiftl r 16)) (Z.shiftl a 24).
Definition area (size : Size) : Z := if (0 <? width size) && (0 <? height size) then width size * height size else 0.

(** Write a pixel at an address. *)
Definition store (address : Z) (color : Pixel) (data : Pixels) : Pixels := fun i => if i =? address then color else data i.
(** Write [color] from index [start] up to [stop]. *)
Definition fill (start stop : Z) (color : Pixel) (data : Pixels) : Pixels :=
  fun i => if (start <=? i) && (i <? stop) then color else data i.

Definition render_row (buf_size : Size) (left_end : Point) (length : Z) (color : Pixel) (data : Pixels) : Pixels :=
  if (py left_end <? 0) || (height buf_size <=? py left_end) then data
  else
    let right_end := Z.min (px left_end + length) (width buf_size) in
    let x := Z.max (px left_end) 0 in
    let start := py left_end * width buf_size + x in
    fill start (start + right_end - x) color data.

(** A loop over the rows (or columns) from [y] on, [n] of them. *)
Fixpoint rows (n : nat) (y : Z) (row : Z -> Pixels -> Pixels) (data : Pixels) : Pixels :=
  match n with O => data | S n => rows n (y + 1) row (row y data) end.
Definition for_rows (from to_ : Z) (row : Z -> Pixels -> Pixels) (data : Pixels) : Pixels := rows (Z.to_nat (to_ - from)) from row data.

(** *** Icons.  Products with [float]s and [double]s drop the fraction. *)
Definition double_of_int (z : Z) : spec_float := binary_normalize 53 1024 z 0 false.
Definition times_quarter (z : Z) : Z := int_of_float (SFmul 53 1024 (binary_normalize 53 1024 1 (-2) false) (double_of_int z)).
(** The [double] nearest to 0.6. *)
Definition six_tenths : spec_float := binary_normalize 53 1024 5404319552844595 (-53) false.
Definition times_six_tenths (z : Z) : Z := int_of_float (SFmul 53 1024 six_tenths (double_of_int z)).

Definition render_close_icon (buf_size : Size) (box : Rectangle) (line_width : Z) (color : Pixel) : Pixels -> Pixels :=
  for_rows (top box) (bottom box) (fun y data =>
    let h := SFdiv 24 128 (float_of_int (y - top box)) (float_of_int (height (r_size box))) in
    let across := int_of_float (SFmul 24 128 h (float_of_int (width (r_size box)))) in
    let left_line_left := left box + across in
    let right_line_left := right box - across - line_width in
    render_row buf_size (mkPoint right_line_left y) line_width color (render_row buf_size (mkPoint left_line_left y) line_width color data)).
Definition render_maximize_icon (buf_size : Size) (box : Rectangle) (line_width : Z) (color : Pixel) (data : Pixels) : Pixels :=
  let mini_titlebar_bottom := top box + times_quarter (height (r_size box)) in
  let mini_bottom_border_top := bottom box - line_width in
  let data := for_rows (top box) mini_titlebar_bottom (fun y => render_row buf_size (mkPoint (left box) y) (width (r_size box)) color) data in
  let data := for_rows mini_titlebar_bottom mini_bottom_border_top (fun y data =>
                render_row buf_size (mkPoint (right box - line_width) y) line_width color
                  (render_row buf_size (mkPoint (left box) y) line_width color data)) data in
  for_rows mini_bottom_border_top (bottom box) (fun y => render_row buf_size (mkPoint (left box) y) (width (r_size box)) color) data.
Definition render_minimize_icon (buf_size : Size) (box : Rectangle) (color : Pixel) : Pixels -> Pixels :=
  let mini_taskbar_top := bottom box - times_quarter (height (r_size box)) in
  let mini_taskbar_size := times_six_tenths (width (r_size box)) in
  for_rows mini_taskbar_top (bottom box) (fun y => render_row buf_size (mkPoint (left box) y) mini_taskbar_size color).

(** *** Themes and button colours *)
Record Theme := mkTheme { background_color : Pixel; text_color : Pixel }.
#[export] Instance Theme_eq_dec : EqDecision Theme.
Proof. solve_decision. Defined.
Definition focused_theme : Theme := mkTheme (rgba 50 50 50 255) (rgba 255 255 255 255).
Definition unfocused_theme : Theme := mkTheme (rgba 128 128 128 255) (rgba 160 160 160 255).
Definition theme_for (f : MirWindowFocusState) : Theme :=
  if bool_decide (f = mir_window_focus_state_focused) then focused_theme else unfocused_theme.

Definition default_button_icon : Pixel := rgba 255 255 255 255.
Definition normal_color (f : ButtonFunction) : Pixel := match f with ButtonClose => rgba 160 32 32 255 | _ => rgba 96 96 96 255 end.
Definition active_color (f : ButtonFunction) : Pixel := match f with ButtonClose => rgba 192 96 96 255 | _ => rgba 160 160 160 255 end.
Definition render_icon (f : ButtonFunction) (buf_size : Size) (box : Rectangle) (line_width : Z) (color : Pixel) : Pixels -> Pixels :=
  match f with
  | ButtonClose => render_close_icon buf_size box line_width color
  | ButtonMaximize => render_maximize_icon buf_size box line_width color
  | ButtonMinimize => render_minimize_icon buf_size box color
  end.

(** *** Text *)
(** The bitmap of a glyph: [g_alpha row column] is its coverage. *)
Record Glyph := mkGlyph {
  g_width : Z; g_rows : Z; g_alpha : Z -> Z -> Z; bitmap_left : Z; bitmap_top : Z; advance_x : Z; advance_y : Z
}.

Definition channel (p : Pixel) (n : Z) : Z := Z.land (Z.shiftr p (8 * n)) 255.
Definition with_channels (c0 c1 c2 c3 : Z) : Pixel := Z.lor (Z.lor (Z.lor c0 (Z.shiftl c1 8)) (Z.shiftl c2 16)) (Z.shiftl c3 24).
(** Blend the colour over a pixel; the alpha of the pixel stays. *)
Definition blend (old color : Pixel) (glyph_alpha : Z) : Pixel :=
  let mix n := Z.land (Z.quot (channel old n * (255 - glyph_alpha)) 255 + Z.quot (channel color n * glyph_alpha) 255) 255 in
  with_channels (mix 0) (mix 1) (mix 2) (channel old 3).

Definition render_glyph (buf_size : Size) (g : Glyph) (top_left_ : Point) (color : Pixel) (data : Pixels) : Pixels :=
  let buffer_left := Z.max (px top_left_) 0 in
  let buffer_right := Z.min (px top_left_ + g_width g) (width buf_size) in
  let buffer_top := Z.max (py top_left_) 0 in
  let buffer_bottom := Z.min (py top_left_ + g_rows g) (height buf_size) in
  for_rows buffer_top buffer_bottom (fun buffer_y =>
    let buffer_row := buffer_y * width buf_size in
    for_rows buffer_left buffer_right (fun buffer_x data =>
      let glyph_alpha := Z.quot (g_alpha g (buffer_y - py top_left_) (buffer_x - px top_left_) * channel color 3) 255 in
      store (buffer_row + buffer_x) (blend (data (buffer_row + buffer_x)) color glyph_alpha) data)) data.

Section Drawing.
Context (sg : StaticGeometry).
(** FreeType: whether a font of a height could be had, and the glyph of a
    character; [wstring_convert::from_bytes], which fails on what is not UTF-8;
    memory that has just been allocated; and whether the software buffers of the
    allocator are pixel sources. *)
Context (set_char_size : Z -> bool) (rasterize_glyph : Z -> Z -> option Glyph).
Context (from_bytes : string -> option (list Z)) (uninitialized : Pixels) (pixel_source : bool).

Definition isprint (c : Z) : bool := (32 <=? c) && (c <=? 126).
Fixpoint ascii_to_utf32 (text : string) : list Z :=
  match text with
  | EmptyString => []
  | String c text => let z := Z.of_N (Ascii.N_of_ascii c) in (if isprint z then z else 65533) :: ascii_to_utf32 text
  end.
Definition utf8_to_utf32 (text : string) : list Z :=
  match from_bytes text with Some l => l | None => ascii_to_utf32 text end.

Fixpoint render_glyphs (buf_size : Size) (glyphs : list Z) (top_left_ : Point) (height_pixels : Z) (color : Pixel) (data : Pixels) : Pixels :=
  match glyphs with
  | [] => data
  | c :: glyphs =>
      match rasterize_glyph height_pixels c with
      | None => render_glyphs buf_size glyphs top_left_ height_pixels color data
      | Some g =>
          let glyph_top_left := point_add top_left_ (mkDisplacement (bitmap_left g) (height_pixels - bitmap_top g)) in
          render_glyphs buf_size glyphs (point_add top_left_ (mkDisplacement (Z.quot (advance_x g) 64) (Z.quot (advance_y g) 64)))
            height_pixels color (render_glyph buf_size g glyph_top_left color data)
      end
  end.
Definition text_render (buf_size : Size) (text : string) (top_left_ : Point) (height_pixels : Z) (color : Pixel) (data : Pixels) : Pixels :=
  if (area buf_size =? 0) || (height_pixels <=? 0) then data
  else if set_char_size height_pixels then render_glyphs buf_size (utf8_to_utf32 text) top_left_ height_pixels color data
  else data.

(** ** The renderer *)
(** [current_theme] is none when the pointer is null; the pixels are none when
    nothing is allocated. *)
Record Renderer := mkRenderer {
  current_theme : option Theme;
  needs_solid_color_redraw : bool;
  left_border_size : Size;
  right_border_size : Size;
  bottom_border_size : Size;
  solid_color_pixels_length : Z;
  solid_color_pixels : option Pixels;
  titlebar_size : Size;
  titlebar_pixels : option Pixels;
  needs_titlebar_redraw : bool;
  needs_titlebar_buttons_redraw : bool;
  r_name : string;
  r_buttons : list ButtonInfo
}.
#[global] Instance Renderer_eta : EtaExpansion Renderer := fun r =>
  mkRenderer (current_theme r) (needs_solid_color_redraw r) (left_border_size r) (right_border_size r) (bottom_border_size r)
    (solid_color_pixels_length r) (solid_color_pixels r) (titlebar_size r) (titlebar_pixels r) (needs_titlebar_redraw r)
    (needs_titlebar_buttons_redraw r) (r_name r) (r_buttons r).
Definition new_renderer : Renderer :=
  mkRenderer None true (mkSize 0 0) (mkSize 0 0) (mkSize 0 0) 0 None (mkSize 0 0) None true true EmptyString [].

(** A buffer that is submitted: its size and its pixels. *)
Record DrawnBuffer := mkDrawn { db_size : Size; db_pixels : Pixels }.

(** [update_state], in the order of its parts. *)
Definition update_borders (ws : WindowState) (r : Renderer) : Renderer :=
  let r := r <| left_border_size := r_size (left_border_rect sg ws) |>
             <| right_border_size := r_size (right_border_rect sg ws) |>
             <| bottom_border_size := r_size (bottom_border_rect sg ws) |> in
  let longest := Z.max (Z.max (Z.max 0 (area (left_border_size r))) (area (right_border_size r))) (area (bottom_border_size r)) in
  if bool_decide (longest <> solid_color_pixels_length r)
  then r <| solid_color_pixels_length := longest |> <| solid_color_pixels := None |> else r.
Definition update_titlebar_size (ws : WindowState) (r : Renderer) : Renderer :=
  if bool_decide (r_size (titlebar_rect sg ws) <> titlebar_size r)
  then r <| titlebar_size := r_size (titlebar_rect sg ws) |> <| titlebar_pixels := None |> else r.
Definition update_theme (ws : WindowState) (r : Renderer) : Renderer :=
  let new_theme := theme_for (focused_state ws) in
  if bool_decide (Some new_theme <> current_theme r)
  then r <| current_theme := Some new_theme |> <| needs_titlebar_redraw := true |> <| needs_solid_color_redraw := true |> else r.
Definition update_name (ws : WindowState) (r : Renderer) : Renderer :=
  if bool_decide (window_name ws <> r_name r) then r <| r_name := window_name ws |> <| needs_titlebar_redraw := true |> else r.
Definition update_buttons (ins : InputState) (r : Renderer) : Renderer :=
  if bool_decide (is_buttons ins <> r_buttons r) then
    let moved := if bool_decide (length (is_buttons ins) <> length (r_buttons r)) then true
                 else existsb (fun b : ButtonInfo * ButtonInfo => bool_decide (bi_rect b.1 <> bi_rect b.2)) (zip (is_buttons ins) (r_buttons r)) in
    r <| needs_titlebar_redraw := needs_titlebar_redraw r || moved |> <| r_buttons := is_buttons ins |> <| needs_titlebar_buttons_redraw := true |>
  else r.
Definition renderer_update_state (ws : WindowState) (ins : InputState) (r : Renderer) : Renderer :=
  update_buttons ins (update_name ws (update_theme ws (update_titlebar_size ws (update_borders ws r)))).

Definition alloc_pixels (size : Size) : option Pixels := if area size * 4 =? 0 then None else Some uninitialized.
Definition make_buffer (pixels : option Pixels) (size : Size) : outcome (option DrawnBuffer) :=
  if area size =? 0 then Ret None
  else if negb pixel_source then Ret None
  else match pixels with Some p => Ret (Some (mkDrawn size p)) | None => Throw null_dereference end.

(** The background with the title. *)
Definition render_title (size : Size) (theme : Theme) (name : string) (data : Pixels) : Pixels :=
  text_render size name (title_font_top_left sg) (title_font_height sg) (text_color theme)
    (for_rows 0 (height size) (fun y => render_row size (mkPoint 0 y) (width size) (background_color theme)) data).
Definition button_color (b : ButtonInfo) : Pixel :=
  if bool_decide (bi_state b = ButtonHovered) then active_color (bi_function b) else normal_color (bi_function b).
Definition render_button (size : Size) (b : ButtonInfo) (data : Pixels) : Pixels :=
  let rect := bi_rect b in
  let data := for_rows (top rect) (bottom rect) (fun y => render_row size (mkPoint (left rect) y) (width (r_size rect)) (button_color b)) data in
  let icon_rect := mkRectangle (point_add (top_left rect) (icon_padding sg))
                     (mkSize (width (r_size rect) - 2 * dx (icon_padding sg)) (height (r_size rect) - 2 * dy (icon_padding sg))) in
  render_icon (bi_function b) size icon_rect (icon_line_width sg) default_button_icon data.
Definition render_buttons (size : Size) (bs : list ButtonInfo) (data : Pixels) : Pixels := foldl (fun data b => render_button size b data) data bs.

Definition render_titlebar (r : Renderer) : outcome (Renderer * option DrawnBuffer) :=
  if area (titlebar_size r) =? 0 then Ret (r, None)
  else
    let r := match titlebar_pixels r with
             | None => r <| titlebar_pixels := alloc_pixels (titlebar_size r) |> <| needs_titlebar_redraw := true |>
             | Some _ => r
             end in
    r ← (if needs_titlebar_redraw r then
           match current_theme r with
           | Some theme => Ret (r <| titlebar_pixels := render_title (titlebar_size r) theme (r_name r) <$> titlebar_pixels r |>)
           | None => Throw null_dereference
           end
         else Ret r);
    let r := if needs_titlebar_redraw r || needs_titlebar_buttons_redraw r
             then r <| titlebar_pixels := render_buttons (titlebar_size r) (r_buttons r) <$> titlebar_pixels r |> else r in
    let r := r <| needs_titlebar_redraw := false |> <| needs_titlebar_buttons_redraw := false |> in
    b ← make_buffer (titlebar_pixels r) (titlebar_size r);
    Ret (r, b).

Definition update_solid_color_pixels (r : Renderer) : outcome Renderer :=
  let line := mkSize (solid_color_pixels_length r) 1 in
  let r := match solid_color_pixels r with
           | None => r <| solid_color_pixels := alloc_pixels line |> <| needs_solid_color_redraw := true |>
           | Some _ => r
           end in
  r ← (if needs_solid_color_redraw r then
         match current_theme r with
         | Some theme => Ret (r <| solid_color_pixels := render_row line point_zero (solid_color_pixels_length r) (background_color theme) <$> solid_color_pixels r |>)
         | None => Throw null_dereference
         end
       else Ret r);
  Ret (r <| needs_solid_color_redraw := false |>).
Definition render_border (size : Size) (r : Renderer) : outcome (Renderer * option DrawnBuffer) :=
  if area size =? 0 then Ret (r, None)
  else
    r ← update_solid_color_pixels r;
    b ← make_buffer (solid_color_pixels r) size;
    Ret (r, b).
Definition render_left_border (r : Renderer) := render_border (left_border_size r) r.
Definition render_right_border (r : Renderer) := render_border (right_border_size r) r.
Definition render_bottom_border (r : Renderer) := render_border (bottom_border_size r) r.

(** ** Drawing is local and overwrites *)
Definition local (f : Pixels -> Pixels) : Prop := forall a b i, a i = b i -> f a i = f b i.
(** [f] sets the pixels of [cov] to values of its own and leaves the others. *)
Definition writes (cov : Z -> bool) (f : Pixels -> Pixels) : Prop := exists val, forall data i, f data i = if cov i then val i else data i.
(** What is written does not depend on the colour, only what to. *)
Definition painter (f : Pixel -> Pixels -> Pixels) : Prop := exists cov, forall color, writes cov (f color).
(** Nothing outside a buffer of the size is written. *)
Definition inside (size : Size) (f : Pixels -> Pixels) : Prop := forall data i, i < 0 \/ area size <= i -> f data i = data i.

Lemma writes_local cov f : writes cov f -> local f.
Proof. intros [val H] a b i E. rewrite !H. by destruct (cov i). Qed.
Lemma writes_compose c1 c2 f g : writes c1 f -> writes c2 g -> writes (fun i => c2 i || c1 i) (fun data => g (f data)).
Proof. intros [v1 H1] [v2 H2]. exists (fun i => if c2 i then v2 i else v1 i). intros data i. rewrite H2, H1. by destruct (c2 i), (c1 i). Qed.
Lemma writes_id : writes (fun _ => false) (fun data => data).
Proof. by exists (fun _ => 0). Qed.
Lemma painter_compose f g : painter f -> painter g -> painter (fun color data => g color (f color data)).
Proof. intros [c1 H1] [c2 H2]. eexists. intros color. by apply writes_compose. Qed.
Lemma painter_fixed f : (exists cov, writes cov f) -> painter (fun _ => f).
Proof. intros [cov H]. by exists cov. Qed.
Lemma painter_at f color : painter f -> exists cov, writes cov (f color).
Proof. intros [cov H]. by exists cov. Qed.
Lemma row_painter size p len : painter (render_row size p len).
Proof.
  unfold render_row. destruct (_ || _); [by apply painter_fixed; eexists; apply writes_id|].
  eexists. intros color. exists (fun _ => color). intros data i. unfold fill. done.
Qed.
Lemma rows_painter (row : Z -> Pixel -> Pixels -> Pixels) n y : (forall y, painter (row y)) -> painter (fun color => rows n y (fun y => row y color)).
Proof.
  intros Hr. revert y. induction n as [|n IH]; intros y; [exists (fun _ => false); intros color; apply writes_id|].
  cbn [rows]. apply (painter_compose (row y) (fun color => rows n (y + 1) (fun y => row y color))); [apply Hr|apply IH].
Qed.
Lemma for_rows_painter (row : Z -> Pixel -> Pixels -> Pixels) a b : (forall y, painter (row y)) -> painter (fun color => for_rows a b (fun y => row y color)).
Proof. intros Hr. by apply rows_painter. Qed.
Lemma two_rows_painter size p q len : painter (fun color data => render_row size q len color (render_row size p len color data)).
Proof. apply (painter_compose (render_row size p len) (render_row size q len)); apply row_painter. Qed.
Lemma icon_painter f size box line : painter (render_icon f size box line).
Proof.
  destruct f; cbn [render_icon].
  - apply (for_rows_painter (fun y color data => render_row size _ line color (render_row size _ line color data))). intros y.
    apply two_rows_painter.
  - set (across := fun (y : Z) (color : Z) => render_row size (mkPoint (left box) y) (width (r_size box)) color).
    set (sides := fun (y : Z) (color : Z) (data : Z -> Z) =>
      render_row size (mkPoint (right box - line) y) line color (render_row size (mkPoint (left box) y) line color data)).
    set (titlebar_bottom := top box + times_quarter (height (r_size box))). set (border_top := bottom box - line).
    set (A := fun color => for_rows (top box) titlebar_bottom (fun y => across y color)).
    set (B := fun color => for_rows titlebar_bottom border_top (fun y => sides y color)).
    set (C := fun color => for_rows border_top (bottom box) (fun y => across y color)).
    apply (painter_compose (fun color data => B color (A color data)) C); [apply (painter_compose A B)|]; apply for_rows_painter; intros y;
      first [apply row_painter | apply two_rows_painter].
  - apply (for_rows_painter (fun y color => render_row size (mkPoint (left box) y) _ color)). intros y. apply row_painter.
Qed.

(** A button covers what its place and function say, whatever its state. *)
Definition button_place (b : ButtonInfo) : ButtonFunction * Rectangle := (bi_function b, bi_rect b).
Definition paint_button (size : Size) (place : ButtonFunction * Rectangle) (color : Pixel) (data : Pixels) : Pixels :=
  let rect := place.2 in
  render_icon place.1 size
    (mkRectangle (point_add (top_left rect) (icon_padding sg))
      (mkSize (width (r_size rect) - 2 * dx (icon_padding sg)) (height (r_size rect) - 2 * dy (icon_padding sg))))
    (icon_line_width sg) default_button_icon
    (for_rows (top rect) (bottom rect) (fun y => render_row size (mkPoint (left rect) y) (width (r_size rect)) color) data).
Lemma render_button_paint size b : render_button size b = paint_button size (button_place b) (button_color b).
Proof. done. Qed.
Lemma paint_button_painter size place : painter (paint_button size place).
Proof.
  apply (painter_compose (fun color => for_rows _ _ (fun y => render_row size (mkPoint (left place.2) y) (width (r_size place.2)) color))
    (fun _ => render_icon _ _ _ _ _)).
  - apply (for_rows_painter (fun y color => render_row size (mkPoint (left place.2) y) (width (r_size place.2)) color)). intros y. apply row_painter.
  - apply painter_fixed, painter_at, icon_painter.
Qed.
Lemma buttons_cover size places : exists cov, forall bs, button_place <$> bs = places -> writes cov (render_buttons size bs).
Proof.
  induction places as [|place places [cov IH]] using rev_ind.
  - exists (fun _ => false). intros [|b bs] E; [apply writes_id|done].
  - destruct (paint_button_painter size place) as [c Hc]. exists (fun i => c i || cov i). intros bs E.
    apply fmap_app_inv in E as (bs1 & bs2 & E1 & E2 & ->). destruct bs2 as [|b [|? ?]]; [done| |done]. injection E2 as E2.
    destruct (writes_compose cov c (render_buttons size bs1) (paint_button size place (button_color b))) as [val H]; [by apply IH|apply Hc|].
    exists val. intros data i. unfold render_buttons. rewrite foldl_snoc, render_button_paint, <- E2. apply H.
Qed.
Lemma buttons_local size bs : local (render_buttons size bs).
Proof. destruct (buttons_cover size (button_place <$> bs)) as [cov H]. by eapply writes_local, H. Qed.

(** Buttons that are drawn again in their places leave no trace of the old. *)
Lemma buttons_again size bs bs' data i : button_place <$> bs = button_place <$> bs' ->
  render_buttons size bs' (render_buttons size bs data) i = render_buttons size bs' data i.
Proof.
  intros E. destruct (buttons_cover size (button_place <$> bs')) as [cov H].
  destruct (H bs E) as [v Hv], (H bs' eq_refl) as [v' Hv']. rewrite !Hv'. destruct (cov i) eqn:Ec; [done|]. by rewrite Hv, Ec.
Qed.

(** *** Text and background *)
Lemma for_rows_local a b row : (forall y, local (row y)) -> local (for_rows a b row).
Proof.
  intros Hr. unfold for_rows. generalize (Z.to_nat (b - a)). intros n. revert a. induction n as [|n IH]; intros a d d' i E; [done|].
  cbn [rows]. by apply IH, Hr.
Qed.
Lemma glyph_local size g p color : local (render_glyph size g p color).
Proof.
  unfold render_glyph. cbv zeta. apply for_rows_local. intros y. apply for_rows_local. intros x a b i E. unfold store.
  destruct (Z.eqb_spec i (y * width size + x)) as [->|]; [by rewrite E|done].
Qed.
Lemma glyphs_local size glyphs p h color : local (render_glyphs size glyphs p h color).
Proof.
  revert p. induction glyphs as [|c glyphs IH]; intros p a b i E; [done|]. cbn [render_glyphs].
  destruct (rasterize_glyph h c) as [g|]; apply IH; [by apply glyph_local|done].
Qed.
Lemma text_local size text p h color : local (text_render size text p h color).
Proof. intros a b i E. unfold text_render. destruct (_ || _); [done|]. destruct (set_char_size h); [by apply glyphs_local|done]. Qed.

Lemma rows_fill size color n y data i : 0 <= y -> 0 < width size -> y + Z.of_nat n <= height size ->
  rows n y (fun y => render_row size (mkPoint 0 y) (width size) color) data i =
    if (y * width size <=? i) && (i <? (y + Z.of_nat n) * width size) then color else data i.
Proof.
  intros Hy Hw. revert y data Hy. induction n as [|n IH]; intros y data Hy Hn; cbn [rows].
  - rewrite Z.add_0_r. destruct (Z.leb_spec (y * width size) i), (Z.ltb_spec i (y * width size)); cbn; (done || lia).
  - rewrite IH by lia. unfold render_row, fill. cbn [px py].
    destruct (Z.ltb_spec y 0); [lia|]. destruct (Z.leb_spec (height size) y); [lia|]. cbn [orb].
    rewrite Z.add_0_l, Z.min_id, Z.max_l by lia. rewrite Nat2Z.inj_succ.
    replace ((y + Z.succ (Z.of_nat n)) * width size) with ((y + 1 + Z.of_nat n) * width size) by ring.
    destruct (Z.leb_spec ((y + 1) * width size) i), (Z.ltb_spec i ((y + 1 + Z.of_nat n) * width size)),
      (Z.leb_spec (y * width size + 0) i), (Z.ltb_spec i (y * width size + 0 + width size - 0)), (Z.leb_spec (y * width size) i); cbn; try done; nia.
Qed.
Lemma area_pos size : area size <> 0 -> 0 < width size /\ 0 < height size /\ area size = width size * height size.
Proof. unfold area. destruct (Z.ltb_spec 0 (width size)), (Z.ltb_spec 0 (height size)); cbn; done. Qed.
Lemma background_fill size color data i : area size <> 0 -> 0 <= i < area size ->
  for_rows 0 (height size) (fun y => render_row size (mkPoint 0 y) (width size) color) data i = color.
Proof.
  intros Ha Hi. destruct (area_pos size Ha) as (Hw & Hh & E). unfold for_rows. rewrite rows_fill by lia. rewrite Z2Nat.id by lia.
  destruct (Z.leb_spec (0 * width size) i), (Z.ltb_spec i ((0 + (height size - 0)) * width size)); cbn; (done || lia).
Qed.

(** Two pictures of a size that look the same. *)
Definition same_picture (size : Size) (a b : Pixels) : Prop := forall i, 0 <= i < area size -> a i = b i.
#[local] Instance same_picture_equiv size : Equivalence (same_picture size).
Proof. split; [by intros a i|by intros a b H i Hi; rewrite H|intros a b c H1 H2 i Hi; by rewrite H1, H2]. Qed.
Lemma local_same size f a b : local f -> same_picture size a b -> same_picture size (f a) (f b).
Proof. intros Hf H i Hi. by apply Hf, H. Qed.
Lemma title_fresh size theme name a b : area size <> 0 -> same_picture size (render_title size theme name a) (render_title size theme name b).
Proof. intros Ha i Hi. apply text_local. by rewrite !background_fill. Qed.

(** *** Nothing is written outside the buffer *)
Lemma row_inside size p len color : inside size (render_row size p len color).
Proof.
  intros data i Hi. unfold render_row, fill. destruct (Z.ltb_spec (py p) 0); [done|]. destruct (Z.leb_spec (height size) (py p)); [done|]. cbn [orb]. cbv zeta.
  destruct (Z.leb_spec (py p * width size + Z.max (px p) 0) i), (Z.ltb_spec i (py p * width size + Z.max (px p) 0 + Z.min (px p + len) (width size) - Z.max (px p) 0)); cbn; try done.
  exfalso. unfold area in Hi. destruct (Z.ltb_spec 0 (width size)), (Z.ltb_spec 0 (height size)); cbn in Hi; nia.
Qed.
Lemma inside_compose size f g : inside size f -> inside size g -> inside size (fun data => g (f data)).
Proof. intros Hf Hg data i Hi. by rewrite Hg, Hf. Qed.
(** What no turn of a loop changes the loop does not change. *)
Lemma for_rows_kept a b row data i : (forall y data, a <= y < b -> row y data i = data i) -> for_rows a b row data i = data i.
Proof.
  intros Hr. unfold for_rows. remember (Z.to_nat (b - a)) as n eqn:Hn. revert a data Hn Hr. induction n as [|n IH]; intros a data Hn Hr; [done|].
  cbn [rows]. rewrite IH; [apply Hr; lia|lia|]. intros y d Hy. apply Hr. lia.
Qed.
Lemma for_rows_inside size a b row : (forall y, inside size (row y)) -> inside size (for_rows a b row).
Proof. intros Hr data i Hi. apply for_rows_kept. intros y d _. by apply Hr. Qed.
Lemma icon_inside f size box line color : inside size (render_icon f size box line color).
Proof.
  destruct f; cbn [render_icon].
  - apply for_rows_inside. intros y. apply (inside_compose size (render_row _ _ _ _) (render_row _ _ _ _)); apply row_inside.
  - intros data i Hi. unfold render_maximize_icon. rewrite !for_rows_inside; [done|..]; try done; intros y; try apply row_inside.
    apply (inside_compose size (render_row _ _ _ _) (render_row _ _ _ _)); apply row_inside.
  - apply for_rows_inside. intros y. apply row_inside.
Qed.
(** The pixel at an address of the buffer. *)
Definition pixel_at (size : Size) (i : Z) : Point := mkPoint (i mod width size) (i / width size).
Lemma pixel_at_address size x y : 0 <= x < width size -> pixel_at size (y * width size + x) = mkPoint x y.
Proof. intros Hx. unfold pixel_at. f_equal; [rewrite Z.add_comm, Z_mod_plus_full; by apply Z.mod_small|rewrite Z.div_add_l by lia; rewrite Z.div_small by done; lia]. Qed.
Lemma row_drawn size p len color data i : render_row size p len color data i <> data i ->
  contains_point (mkRectangle p (mkSize len 1)) (pixel_at size i) = true.
Proof.
  unfold render_row, fill. destruct (Z.ltb_spec (py p) 0); [done|]. destruct (Z.leb_spec (height size) (py p)); [done|]. cbn [orb]. cbv zeta.
  destruct (Z.leb_spec (py p * width size + Z.max (px p) 0) i); [|done]. destruct (Z.ltb_spec i (py p * width size + Z.max (px p) 0 + Z.min (px p + len) (width size) - Z.max (px p) 0)); [|done].
  intros _. replace i with (py p * width size + (i - py p * width size)) by lia. rewrite pixel_at_address by lia. apply contains_point_covers. unfold covers, left, right, top, bottom. cbn. lia.
Qed.
(** What a glyph changes is in the buffer and in its box. *)
Lemma glyph_drawn size g p color data i : render_glyph size g p color data i <> data i ->
  0 <= i < area size /\ contains_point (mkRectangle p (mkSize (g_width g) (g_rows g))) (pixel_at size i) = true.
Proof.
  intros Hne. apply dec_stable. intros Hn. apply Hne. unfold render_glyph. cbv zeta. apply for_rows_kept. intros y d Hy. apply for_rows_kept. intros x d' Hx.
  unfold store. destruct (Z.eqb_spec i (y * width size + x)) as [->|]; [|done]. destruct Hn. split.
  - unfold area. destruct (Z.ltb_spec 0 (width size)), (Z.ltb_spec 0 (height size)); cbn; nia.
  - rewrite pixel_at_address by lia. apply contains_point_covers. unfold covers, left, right, top, bottom. cbn. lia.
Qed.
Lemma glyph_inside size g p color : inside size (render_glyph size g p color).
Proof. intros data i Hi. apply dec_stable. intros [Ha _]%glyph_drawn. lia. Qed.
Lemma text_inside size text p h color : inside size (text_render size text p h color).
Proof.
  intros data i Hi. unfold text_render. destruct (Z.eqb_spec (area size) 0); [done|]. destruct (_ || _); [done|]. destruct (set_char_size h); [|done].
  generalize (utf8_to_utf32 text). intros glyphs. revert p data. induction glyphs as [|c glyphs IH]; intros p data; [done|]. cbn [render_glyphs].
  destruct (rasterize_glyph h c); rewrite IH; [by apply glyph_inside|done].
Qed.

(** C21: (bounds) Drawing stays where it belongs: whatever the size of the
    titlebar, the title, and the number, places and states of the buttons, also
    where these stick out of it, drawing the title or the buttons changes no pixel
    outside the memory allocated for the titlebar; and what sticks out on one side
    does not come in on the other: of the pixels in it a row changes only those
    between its ends, and a glyph only those in its box. *)
Theorem drawing_in_bounds size theme name bs data i :
  (i < 0 \/ area size <= i -> render_title size theme name data i = data i /\ render_buttons size bs data i = data i) /\
  (forall p len color, render_row size p len color data i <> data i -> contains_point (mkRectangle p (mkSize len 1)) (pixel_at size i) = true) /\
  (forall g p color, render_glyph size g p color data i <> data i ->
     contains_point (mkRectangle p (mkSize (g_width g) (g_rows g))) (pixel_at size i) = true).
Proof.
  split; [|split].
  - intros Hi. split.
    + unfold render_title. rewrite text_inside by done. apply (for_rows_inside size); [|done]. intros y. apply row_inside.
    + unfold render_buttons. revert data. induction bs as [|b bs IH]; intros data; [done|]. cbn [foldl]. rewrite IH. unfold render_button.
      rewrite icon_inside by done. apply (for_rows_inside size); [|done]. intros y. apply row_inside.
  - intros p len color. apply row_drawn.
  - intros g p color H. by apply (glyph_drawn size g p color data i).
Qed.

(** ** The flags tell what has to be drawn *)
(** What is in the pixels unless the flags say otherwise; [drawn_buttons] may
    be the buttons before they were pressed or released. *)
Record RendererInv (r : Renderer) : Prop := {
  ri_solid : forall px theme, current_theme r = Some theme -> solid_color_pixels r = Some px -> needs_solid_color_redraw r = false ->
    forall i, 0 <= i < solid_color_pixels_length r -> px i = background_color theme;
  ri_titlebar : forall px theme, current_theme r = Some theme -> titlebar_pixels r = Some px -> needs_titlebar_redraw r = false ->
    exists drawn_buttons, button_place <$> drawn_buttons = button_place <$> r_buttons r /\
      (needs_titlebar_buttons_redraw r = false -> drawn_buttons = r_buttons r) /\
      same_picture (titlebar_size r) px (render_buttons (titlebar_size r) drawn_buttons (render_title (titlebar_size r) theme (r_name r) uninitialized));
  ri_functions : r_buttons r = [] \/ (bi_function <$> r_buttons r) = [ButtonClose; ButtonMaximize; ButtonMinimize]
}.
Definition three_buttons (ins : InputState) : Prop := (bi_function <$> is_buttons ins) = [ButtonClose; ButtonMaximize; ButtonMinimize].
(** The renderer knows the state. *)
Record knows_state (r : Renderer) (ws : WindowState) (ins : InputState) : Prop := {
  ks_left : left_border_size r = r_size (left_border_rect sg ws);
  ks_right : right_border_size r = r_size (right_border_rect sg ws);
  ks_bottom : bottom_border_size r = r_size (bottom_border_rect sg ws);
  ks_length : solid_color_pixels_length r = Z.max (Z.max (Z.max 0 (area (left_border_size r))) (area (right_border_size r))) (area (bottom_border_size r));
  ks_titlebar : titlebar_size r = r_size (titlebar_rect sg ws);
  ks_theme : current_theme r = Some (theme_for (focused_state ws));
  ks_name : r_name r = window_name ws;
  ks_buttons : r_buttons r = is_buttons ins
}.

Lemma new_renderer_inv : RendererInv new_renderer.
Proof. split; [done|done|by left]. Qed.
Lemma update_borders_inv ws r : RendererInv r -> RendererInv (update_borders ws r).
Proof. intros [H1 H2 H3]. unfold update_borders. cbv zeta. case_bool_decide; by split. Qed.
Lemma update_titlebar_size_inv ws r : RendererInv r -> RendererInv (update_titlebar_size ws r).
Proof. intros [H1 H2 H3]. unfold update_titlebar_size. case_bool_decide; by split. Qed.
Lemma update_theme_inv ws r : RendererInv r -> RendererInv (update_theme ws r).
Proof. intros [H1 H2 H3]. unfold update_theme. cbv zeta. case_bool_decide; by split. Qed.
Lemma update_name_inv ws r : RendererInv r -> RendererInv (update_name ws r).
Proof. intros [H1 H2 H3]. unfold update_name. case_bool_decide; by split. Qed.

(** Buttons of the same functions that have not moved are in the same places. *)
Lemma unmoved_places (bs bs' : list ButtonInfo) : (bi_function <$> bs) = (bi_function <$> bs') ->
  existsb (fun b : ButtonInfo * ButtonInfo => bool_decide (bi_rect b.1 <> bi_rect b.2)) (zip bs bs') = false ->
  button_place <$> bs = button_place <$> bs'.
Proof.
  revert bs'. induction bs as [|b bs IH]; intros [|b' bs'] Hf He; try done. cbn in Hf, He. injection Hf as Hf Hfs.
  apply orb_false_iff in He as [Hr%bool_decide_eq_false He]. apply dec_stable in Hr. rewrite !fmap_cons. f_equal; [|by apply IH].
  unfold button_place. congruence.
Qed.
Lemma update_buttons_inv ins r : three_buttons ins -> RendererInv r -> RendererInv (update_buttons ins r).
Proof.
  intros Hb [H1 H2 H3]. unfold update_buttons. case_bool_decide as Hd; [|by split]. split; [done| |by right].
  cbn. intros px theme Ht Hp Hn. apply orb_false_iff in Hn as [Hn Hm].
  case_bool_decide as Hl; [done|]. destruct (H2 px theme Ht Hp Hn) as (bs & Hbs & _ & Hpx).
  exists bs. split; [|split; [done|exact Hpx]]. rewrite Hbs. symmetry. apply unmoved_places; [|done].
  destruct H3 as [H3|H3]; [|by rewrite H3, Hb]. rewrite H3 in Hl. cbn in Hl. apply nil_length_inv in Hl. unfold three_buttons in Hb. by rewrite Hl in Hb.
Qed.
Lemma renderer_update_inv ws ins r : three_buttons ins -> RendererInv r -> RendererInv (renderer_update_state ws ins r).
Proof.
  intros Hb Hr. by apply update_buttons_inv, update_name_inv, update_theme_inv, update_titlebar_size_inv, update_borders_inv.
Qed.
(** What the later parts of [update_state] leave alone. *)
Definition border_part (r : Renderer) : Size * Size * Size * Z := (left_border_size r, right_border_size r, bottom_border_size r, solid_color_pixels_length r).
Lemma titlebar_size_stage ws r : border_part (update_titlebar_size ws r) = border_part r /\ titlebar_size (update_titlebar_size ws r) = r_size (titlebar_rect sg ws).
Proof. unfold update_titlebar_size. case_bool_decide; done. Qed.
Lemma theme_stage ws r : border_part (update_theme ws r) = border_part r /\ titlebar_size (update_theme ws r) = titlebar_size r /\
  current_theme (update_theme ws r) = Some (theme_for (focused_state ws)).
Proof. unfold update_theme. cbv zeta. case_bool_decide; done. Qed.
Lemma name_stage ws r : border_part (update_name ws r) = border_part r /\ titlebar_size (update_name ws r) = titlebar_size r /\
  current_theme (update_name ws r) = current_theme r /\ r_name (update_name ws r) = window_name ws.
Proof. unfold update_name. case_bool_decide; done. Qed.
Lemma buttons_stage ins r : border_part (update_buttons ins r) = border_part r /\ titlebar_size (update_buttons ins r) = titlebar_size r /\
  current_theme (update_buttons ins r) = current_theme r /\ r_name (update_buttons ins r) = r_name r /\ r_buttons (update_buttons ins r) = is_buttons ins.
Proof. unfold update_buttons. case_bool_decide; done. Qed.
Lemma borders_stage ws r :
  let l := r_size (left_border_rect sg ws) in let ri := r_size (right_border_rect sg ws) in let b := r_size (bottom_border_rect sg ws) in
  border_part (update_borders ws r) = (l, ri, b, Z.max (Z.max (Z.max 0 (area l)) (area ri)) (area b)).
Proof. unfold update_borders, border_part. cbv zeta. case_bool_decide as H; cbn; [done|]. cbn in H. by rewrite H. Qed.
Lemma renderer_update_knows ws ins r : knows_state (renderer_update_state ws ins r) ws ins.
Proof.
  unfold renderer_update_state. set (r1 := update_borders ws r). set (r2 := update_titlebar_size ws r1). set (r3 := update_theme ws r2). set (r4 := update_name ws r3).
  destruct (buttons_stage ins r4) as (B1 & B2 & B3 & B4 & B5), (name_stage ws r3) as (N1 & N2 & N3 & N4), (theme_stage ws r2) as (T1 & T2 & T3), (titlebar_size_stage ws r1) as (S1 & S2).
  fold r2 in S1, S2. fold r3 in T1, T2, T3. fold r4 in N1, N2, N3, N4. pose proof (borders_stage ws r) as E. fold r1 in E. cbv zeta in E.
  rewrite <- S1, <- T1, <- N1, <- B1 in E. unfold border_part in E. injection E as E1 E2 E3 E4.
  split; [exact E1|exact E2|exact E3|by rewrite E1, E2, E3|congruence..].
Qed.

(** A buffer of a size with a picture; none if it would be empty or cannot be
    written to. *)
Definition drawn_as (size : Size) (picture : Pixels) (b : option DrawnBuffer) : Prop :=
  if (area size =? 0) || negb pixel_source then b = None else exists px, b = Some (mkDrawn size px) /\ same_picture size px picture.
(** The titlebar as it is drawn from scratch. *)
Definition titlebar_picture (ws : WindowState) (ins : InputState) : Pixels :=
  let size := r_size (titlebar_rect sg ws) in
  render_buttons size (is_buttons ins) (render_title size (theme_for (focused_state ws)) (window_name ws) uninitialized).
Definition border_picture (ws : WindowState) : Pixels := fun _ => background_color (theme_for (focused_state ws)).

Lemma alloc_some size : area size <> 0 -> alloc_pixels size = Some uninitialized.
Proof. intros Ha. unfold alloc_pixels. destruct (Z.eqb_spec (area size * 4) 0); [lia|done]. Qed.

(** The buffer that pixels are submitted in. *)
Definition submitted_buffer (size : Size) (px : Pixels) : option DrawnBuffer := if pixel_source then Some (mkDrawn size px) else None.
Lemma make_buffer_some size px : area size <> 0 -> make_buffer (Some px) size = Ret (submitted_buffer size px).
Proof. intros Ha. unfold make_buffer, submitted_buffer. destruct (Z.eqb_spec (area size) 0); [done|]. by destruct pixel_source. Qed.
Lemma submitted_buffer_as size px picture : area size <> 0 -> same_picture size px picture -> drawn_as size picture (submitted_buffer size px).
Proof.
  intros Ha Hp. unfold drawn_as, submitted_buffer. destruct (Z.eqb_spec (area size) 0); [done|]. destruct pixel_source; cbn; [by exists px|done].
Qed.

(** What drawing the titlebar leaves: a picture that is up to date. *)
Definition titlebar_done (r : Renderer) (px : Pixels) : Renderer :=
  r <| titlebar_pixels := Some px |> <| needs_titlebar_redraw := false |> <| needs_titlebar_buttons_redraw := false |>.
Lemma titlebar_done_ok r px ws ins : RendererInv r -> knows_state r ws ins ->
  same_picture (titlebar_size r) px (titlebar_picture ws ins) -> RendererInv (titlebar_done r px) /\ knows_state (titlebar_done r px) ws ins.
Proof.
  intros [H1 H2 H3] [K1 K2 K3 K4 K5 K6 K7 K8] Hpx. split; [|by split]. split; [done| |done]. cbn. intros px' theme Ht [= <-] _. exists (r_buttons r).
  split; [done|]. split; [done|]. rewrite K6 in Ht. injection Ht as <-. unfold titlebar_picture in Hpx. rewrite <- K5, <- K7, <- K8 in Hpx. exact Hpx.
Qed.
Lemma titlebar_drawn r ws ins : RendererInv r -> knows_state r ws ins -> area (titlebar_size r) <> 0 ->
  exists px, render_titlebar r = Ret (titlebar_done r px, submitted_buffer (titlebar_size r) px) /\ same_picture (titlebar_size r) px (titlebar_picture ws ins).
Proof.
  intros [H1 H2 H3] [K1 K2 K3 K4 K5 K6 K7 K8] Ha. unfold render_titlebar, titlebar_picture. rewrite <- K5, <- K7, <- K8.
  destruct (Z.eqb_spec (area (titlebar_size r)) 0) as [|_]; [done|].
  destruct (titlebar_pixels r) as [px|] eqn:Ep.
  - destruct (needs_titlebar_redraw r) eqn:En; cbn -[make_buffer render_buttons]; rewrite ?K6, ?Ep, ?En; cbn -[make_buffer render_buttons].
    + rewrite ?En. cbn -[make_buffer render_buttons]. rewrite make_buffer_some by done. eexists. split; [reflexivity|]. apply (local_same _ (render_buttons _ _)); [apply buttons_local|]. by apply title_fresh.
    + destruct (H2 px _ K6 eq_refl eq_refl) as (bs & Hbs & Hsame & Hpx). destruct (needs_titlebar_buttons_redraw r) eqn:Eb; cbn -[make_buffer render_buttons]; rewrite ?Ep; cbn -[make_buffer render_buttons];
        rewrite make_buffer_some by done.
      * eexists. split; [reflexivity|]. intros i Hi. etrans; [by apply buttons_local, Hpx|]. by apply buttons_again.
      * exists px. rewrite <- (Hsame eq_refl). split; [|done]. unfold titlebar_done. destruct r. cbn in Ep, En, Eb. by rewrite Ep.
  - cbn -[make_buffer render_buttons]. rewrite K6. cbn -[make_buffer render_buttons]. rewrite alloc_some by done. cbn -[make_buffer render_buttons]. rewrite make_buffer_some by done. by eexists.
Qed.
Lemma render_titlebar_ok r ws ins : RendererInv r -> knows_state r ws ins ->
  exists r' b, render_titlebar r = Ret (r', b) /\ RendererInv r' /\ knows_state r' ws ins /\ drawn_as (r_size (titlebar_rect sg ws)) (titlebar_picture ws ins) b.
Proof.
  intros Hi Hk. rewrite <- (ks_titlebar _ _ _ Hk). destruct (Z.eq_dec (area (titlebar_size r)) 0) as [Ha|Ha].
  - exists r, None. unfold render_titlebar, drawn_as. by rewrite Ha.
  - destruct (titlebar_drawn r ws ins Hi Hk Ha) as (px & E & Hpx). eexists _, _. split; [exact E|].
    destruct (titlebar_done_ok r px ws ins Hi Hk Hpx). split; [done|]. split; [done|]. by apply submitted_buffer_as.
Qed.

(** *** Borders *)
Definition solid_done (r : Renderer) (px : Pixels) : Renderer := r <| solid_color_pixels := Some px |> <| needs_solid_color_redraw := false |>.
Lemma solid_drawn r ws ins : RendererInv r -> knows_state r ws ins -> 0 < solid_color_pixels_length r ->
  exists px, update_solid_color_pixels r = Ret (solid_done r px) /\ forall i, 0 <= i < solid_color_pixels_length r -> px i = background_color (theme_for (focused_state ws)).
Proof.
  intros [H1 H2 H3] [K1 K2 K3 K4 K5 K6 K7 K8] Hl. unfold update_solid_color_pixels.
  assert (Hrow : forall data color i, 0 <= i < solid_color_pixels_length r ->
    render_row (mkSize (solid_color_pixels_length r) 1) point_zero (solid_color_pixels_length r) color data i = color).
  { intros data color i Hi. unfold render_row, fill. cbn -[Z.min Z.max Z.add Z.mul Z.sub].
    match goal with |- (if ?c then _ else _) = _ => assert (c = true) as ->; [|done] end. rewrite andb_true_iff, Z.leb_le, Z.ltb_lt. lia. }
  assert (Halloc : alloc_pixels (mkSize (solid_color_pixels_length r) 1) = Some uninitialized).
  { apply alloc_some. unfold area. cbn [width height]. destruct (Z.ltb_spec 0 (solid_color_pixels_length r)); cbn; lia. }
  destruct (solid_color_pixels r) as [px|] eqn:Ep.
  - destruct (needs_solid_color_redraw r) eqn:En; cbn -[render_row]; rewrite ?K6, ?Ep; cbn -[render_row].
    + eexists. split; [done|]. intros i Hi. by apply Hrow.
    + exists px. split; [|by apply H1]. unfold solid_done. destruct r. cbn in Ep. by rewrite Ep.
  - cbn -[render_row]. rewrite K6. cbn -[render_row]. rewrite Halloc. cbn -[render_row]. eexists. split; [done|]. intros i Hi. by apply Hrow.
Qed.
Lemma render_border_ok r ws ins size : RendererInv r -> knows_state r ws ins -> area size <= solid_color_pixels_length r ->
  exists r' b, render_border size r = Ret (r', b) /\ RendererInv r' /\ knows_state r' ws ins /\ drawn_as size (border_picture ws) b.
Proof.
  intros Hi Hk Hle. unfold render_border. destruct (Z.eqb_spec (area size) 0) as [Ha|Ha]; [exists r, None; unfold drawn_as; by rewrite Ha|].
  destruct (area_pos size Ha) as (Hw & Hh & Earea). destruct (solid_drawn r ws ins Hi Hk) as (px & E & Hpx); [nia|]. rewrite E. cbn -[make_buffer].
  rewrite make_buffer_some by done. eexists _, _. split; [reflexivity|].
  destruct Hi as [H1 H2 H3], Hk as [K1 K2 K3 K4 K5 K6 K7 K8]. split; [|split; [by split|]].
  - split; [|done|done]. cbn. intros px' theme Ht [= <-] _ i Hi. rewrite K6 in Ht. injection Ht as <-. by apply Hpx.
  - apply submitted_buffer_as; [done|]. intros i Hi. apply Hpx. lia.
Qed.

(** *** Sequences *)
Inductive RendererOp := RUpdate (ws : WindowState) (ins : InputState) | RTitlebar | RLeft | RRight | RBottom.
Definition renderer_step (r : Renderer) (op : RendererOp) : outcome (Renderer * option DrawnBuffer) :=
  match op with
  | RUpdate ws ins => Ret (renderer_update_state ws ins r, None)
  | RTitlebar => render_titlebar r
  | RLeft => render_left_border r
  | RRight => render_right_border r
  | RBottom => render_bottom_border r
  end.
(** What an operation should produce in a state. *)
Definition renderer_spec (op : RendererOp) (ws : WindowState) (ins : InputState) (b : option DrawnBuffer) : Prop :=
  match op with
  | RUpdate _ _ => b = None
  | RTitlebar => drawn_as (r_size (titlebar_rect sg ws)) (titlebar_picture ws ins) b
  | RLeft => drawn_as (r_size (left_border_rect sg ws)) (border_picture ws) b
  | RRight => drawn_as (r_size (right_border_rect sg ws)) (border_picture ws) b
  | RBottom => drawn_as (r_size (bottom_border_rect sg ws)) (border_picture ws) b
  end.
Lemma renderer_step_ok r ws ins op : RendererInv r -> knows_state r ws ins -> (forall ws' ins', op = RUpdate ws' ins' -> three_buttons ins') ->
  let '(ws', ins') := match op with RUpdate ws' ins' => (ws', ins') | _ => (ws, ins) end in
  exists r' b, renderer_step r op = Ret (r', b) /\ RendererInv r' /\ knows_state r' ws' ins' /\ renderer_spec op ws' ins' b.
Proof.
  intros Hi Hk Hb. destruct (id Hk) as [K1 K2 K3 K4 K5 K6 K7 K8]. destruct op as [ws' ins'| | | |]; cbn [renderer_step renderer_spec].
  - eexists _, None. split; [done|]. split; [by apply renderer_update_inv; [eapply Hb|]|]. split; [apply renderer_update_knows|done].
  - by apply render_titlebar_ok.
  - unfold render_left_border. rewrite <- K1. apply render_border_ok; [done..|]. rewrite K4. lia.
  - unfold render_right_border. rewrite <- K2. apply render_border_ok; [done..|]. rewrite K4. lia.
  - unfold render_bottom_border. rewrite <- K3. apply render_border_ok; [done..|]. rewrite K4. lia.
Qed.

(** The buffers that a sequence of operations produces. *)
Fixpoint renderer_run (r : Renderer) (ops : list RendererOp) : outcome (list (option DrawnBuffer)) :=
  match ops with
  | [] => Ret []
  | op :: ops => '(r, b) ← renderer_step r op; bs ← renderer_run r ops; Ret (b :: bs)
  end.
(** The buffers are those of the state at their time. *)
Definition state_after (op : RendererOp) (st : WindowState * InputState) : WindowState * InputState :=
  match op with RUpdate ws ins => (ws, ins) | _ => st end.
Fixpoint draws_afresh (st : WindowState * InputState) (ops : list RendererOp) (bs : list (option DrawnBuffer)) : Prop :=
  match ops, bs with
  | [], [] => True
  | op :: ops, b :: bs => renderer_spec op (state_after op st).1 (state_after op st).2 b /\ draws_afresh (state_after op st) ops bs
  | _, _ => False
  end.
Definition proper_op (op : RendererOp) : Prop := match op with RUpdate _ ins => three_buttons ins | _ => True end.
#[global] Instance proper_op_dec op : Decision (proper_op op).
Proof. destruct op; unfold proper_op, three_buttons; apply _. Defined.

Lemma renderer_run_ok r ws ins ops : RendererInv r -> knows_state r ws ins -> Forall proper_op ops ->
  exists bs, renderer_run r ops = Ret bs /\ draws_afresh (ws, ins) ops bs.
Proof.
  intros Hi Hk Hops. revert r ws ins Hi Hk. induction Hops as [|op ops Hop Hops IH]; intros r ws ins Hi Hk; [by exists []|].
  pose proof (renderer_step_ok r ws ins op Hi Hk) as Hs. cbn [renderer_run draws_afresh].
  destruct (state_after op (ws, ins)) as [ws' ins'] eqn:Est.
  assert (exists r' b, renderer_step r op = Ret (r', b) /\ RendererInv r' /\ knows_state r' ws' ins' /\ renderer_spec op ws' ins' b) as (r' & b & E & Hi' & Hk' & Hb).
  { destruct op; injection Est as <- <-; apply Hs; intros ? ? [= <- <-]; apply Hop. }
  rewrite E. cbn [outcome_bind mbind fst snd]. destruct (IH r' ws' ins' Hi' Hk') as (bs & Ebs & Hbs). exists (b :: bs).
  cbn. by rewrite Ebs.
Qed.

(** C19: (equivalence) Redrawing only what has changed shows the same pictures as
    drawing afresh: in every sequence of updates and drawings that starts with an
    update, every buffer that is produced has the size and the pixels that drawing
    its part from scratch gives in the state of the last update - the theme of the
    focus, the name and the states of the buttons included - and no theme and no
    pixels are used before they are there. *)
Theorem renderer_draws_afresh ws ins ops : Forall proper_op (RUpdate ws ins :: ops) ->
  exists bs, renderer_run new_renderer (RUpdate ws ins :: ops) = Ret (None :: bs) /\ draws_afresh (ws, ins) ops bs.
Proof.
  intros [Hb Hops]%Forall_cons.
  destruct (renderer_run_ok (renderer_update_state ws ins new_renderer) ws ins ops) as (bs & E & Hbs); [|apply renderer_update_knows|done|].
  - apply renderer_update_inv; [done|apply new_renderer_inv].
  - exists bs. split; [|done]. cbn [renderer_run renderer_step]. cbn. by rewrite E.
Qed.
End Drawing.

(** The input manager gives three buttons in whatever state it is. *)
Lemma button_functions m : bi_function <$> button_infos m = omap (fun k => match k with WButton f => Some f | WEdge _ => None end) (w_kind <$> widgets m).
Proof.
  unfold button_infos. induction (widgets m) as [|w l IH]; [done|]. cbn. destruct (w_kind w); cbn; [by rewrite <- IH|exact IH].
Qed.
Lemma input_state_three_buttons m : known_kinds m -> three_buttons (input_state_of m).
Proof.
  intros Hk. unfold three_buttons, input_state_of. cbn [is_buttons]. rewrite button_functions.
  assert (w_kind <$> widgets m = widget_kinds) as ->; [|done]. apply list_eq. intros i. rewrite <- kind_at_fmap. apply Hk.
Qed.

(** ** Concrete drawings *)
(** Every glyph is a box of three by ten pixels, half covered. *)
Definition example_glyph (h c : Z) : option Glyph := Some (mkGlyph 3 10 (fun _ _ => 128) 0 h 256 0).
Definition example_from_bytes (text : string) : option (list Z) := Some [65; 66].
Definition example_memory : Pixels := fun i => i.
Definition example_ws (name : string) : WindowState := mkWindowState (mkSize 120 60) BorderFull mir_window_focus_state_focused name.
Definition example_ins : InputState := input_state_of (new_input_manager default_geometry (example_ws "a")).1.
Definition example_drawing : list RendererOp := [RTitlebar; RLeft; RUpdate (example_ws "b") example_ins; RTitlebar; RBottom].

Lemma drawing_in_bounds_witness :
  render_title default_geometry (fun _ => true) example_glyph example_from_bytes (mkSize 120 24) focused_theme "a" example_memory 2880 = 2880 /\
  render_buttons default_geometry (mkSize 120 24) (is_buttons example_ins) example_memory 2880 = 2880.
Proof.
  apply (drawing_in_bounds default_geometry (fun _ => true) example_glyph example_from_bytes (mkSize 120 24) focused_theme "a"
    (is_buttons example_ins) example_memory 2880). right. vm_compute. discriminate.
Defined.
Lemma renderer_draws_afresh_witness :
  exists bs, renderer_run default_geometry (fun _ => true) example_glyph example_from_bytes example_memory true new_renderer
      (RUpdate (example_ws "a") example_ins :: example_drawing) = Ret (None :: bs) /\
    draws_afresh default_geometry (fun _ => true) example_glyph example_from_bytes example_memory true (example_ws "a", example_ins) example_drawing bs.
Proof.
  apply (renderer_draws_afresh default_geometry (fun _ => true) example_glyph example_from_bytes example_memory true
    (example_ws "a") example_ins example_drawing). apply (bool_decide_unpack _). vm_compute. exact I.
Defined.
