(* ===== verification/Decoration.v ===== *)
(** * Window decorations

    [BasicDecoration] of [src/server/shell/decoration/basic_decoration.cpp] with
    the observer of its window ([window.cpp]), [ThreadsafeAccess] and
    [BasicManager]: how a decoration follows its window and its input by tasks of
    an executor, sending on only what has changed. *)
From S2P Require Import Prelude Geometry InputEvents BufferStream WindowInfo Surface SurfaceSpec DecorWindow DecorInput DecorRenderer.

Abbreviation sg := default_geometry.

(** ** Data *)
(** The buffer streams of a decoration. *)
Inductive DecorStream := stream_titlebar | stream_left_border | stream_right_border | stream_bottom_border.
#[export] Instance DecorStream_eq_dec : EqDecision DecorStream.
Proof. solve_decision. Defined.

(** What a decoration calls on the shell, its window and its streams. *)
Inductive DecorCall :=
| call_set_window_margins (top left bottom right : Z)
| call_modify_decoration (spec : SurfaceSpecification)
| call_modify_window (spec : SurfaceSpecification)
| call_submit_buffer (stream : DecorStream) (b : DrawnBuffer)
| call_request_move (timestamp : Z)
| call_request_resize (timestamp : Z) (edge : ResizeEdge)
| call_request_client_surface_close.

Record BasicDecoration := mkDecoration {
  bd_renderer : Renderer;
  bd_window_state : WindowState;
  bd_input_manager : InputManager;
  bd_input_state : InputState
}.
#[export] Instance BasicDecoration_eta : EtaExpansion BasicDecoration := fun d =>
  mkDecoration (bd_renderer d) (bd_window_state d) (bd_input_manager d) (bd_input_state d).

(** [PropertyComparison] and [ObjUpdated] *)
Definition property {T A} `{EqDecision A} (getter : T -> A) (a b : T) : bool := bool_decide (getter a = getter b).
Definition obj_updated {T} (old : option T) (current : T) (comparisons : list (T -> T -> bool)) : bool :=
  match old with None => true | Some old => existsb (fun comparison => negb (comparison old current)) comparisons end.

(** [WindowSurfaceObserverManager::Observer]: what of a window has the
    decoration updated. *)
Definition window_event_tasks (e : SurfaceEvent) : list DecorTask :=
  match e with
  | attrib_changed (mir_window_attrib_type | mir_window_attrib_state | mir_window_attrib_focus | mir_window_attrib_visibility) _
  | window_resized_to _ | renamed _ => [task_window_state_updated]
  | _ => []
  end.

Section Decoration.
Context (set_char_size : Z -> bool) (rasterize_glyph : Z -> Z -> option Glyph).
Context (from_bytes : string -> option (list Z)) (uninitialized : Z -> Z) (pixel_source : bool).
(** The identities of the streams, and the images of cursors by their names. *)
Context (stream_id : DecorStream -> Z) (cursor_image : string -> Z).

Abbreviation draw_titlebar := (render_titlebar sg set_char_size rasterize_glyph from_bytes uninitialized pixel_source).
Abbreviation draw_left_border := (render_left_border uninitialized pixel_source).
Abbreviation draw_right_border := (render_right_border uninitialized pixel_source).
Abbreviation draw_bottom_border := (render_bottom_border uninitialized pixel_source).

(** ** Updating *)
Definition stream_spec (stream : DecorStream) (rect : Rectangle) : list StreamSpecification :=
  if (0 <? width (r_size rect)) && (0 <? height (r_size rect))
  then [mkStreamSpec (Some (stream_id stream)) (mkDisplacement (px (top_left rect)) (py (top_left rect))) (Some (r_size rect))] else [].
Definition decor_stream_specs (ws : WindowState) : list StreamSpecification :=
  match border_type ws with
  | BorderFull =>
      stream_spec stream_titlebar (titlebar_rect sg ws) ++ stream_spec stream_left_border (left_border_rect sg ws) ++
      stream_spec stream_right_border (right_border_rect sg ws) ++ stream_spec stream_bottom_border (bottom_border_rect sg ws)
  | BorderTitlebar => stream_spec stream_titlebar (titlebar_rect sg ws)
  | BorderNone => []
  end.

Definition margins_changed (old : option WindowState) (ws : WindowState) : bool :=
  obj_updated old ws [property (titlebar_height sg); property (side_border_width sg); property (bottom_border_height sg)].
Definition update_margins (old : option WindowState) (ws : WindowState) : list DecorCall :=
  if margins_changed old ws
  then [call_set_window_margins (titlebar_height sg ws) (side_border_width sg ws) (bottom_border_height sg ws) (side_border_width sg ws)] else [].

Definition layout_changed (old : option WindowState) (ws : WindowState) : bool :=
  obj_updated old ws [property border_type; property (titlebar_rect sg); property (left_border_rect sg); property (right_border_rect sg); property (bottom_border_rect sg)].
Definition decoration_spec (old_ws : option WindowState) (old_ins : option InputState) (ws : WindowState) (ins : InputState) : SurfaceSpecification :=
  let spec := surface_spec_empty in
  let spec := if obj_updated old_ws ws [property window_size]
              then spec <| ss_width := Some (width (window_size ws)) |> <| ss_height := Some (height (window_size ws)) |> else spec in
  let spec := if obj_updated old_ins ins [property is_input_shape] then spec <| ss_input_shape := Some (is_input_shape ins) |> else spec in
  if layout_changed old_ws ws then spec <| ss_streams := Some (decor_stream_specs ws) |> else spec.
Definition update_surface (old_ws : option WindowState) (old_ins : option InputState) (ws : WindowState) (ins : InputState) : list DecorCall :=
  let spec := decoration_spec old_ws old_ins ws ins in
  if spec_is_empty spec then [] else [call_modify_decoration spec].

Definition look_changed (old_ws : option WindowState) (old_ins : option InputState) (ws : WindowState) (ins : InputState) : bool :=
  obj_updated old_ws ws [property focused_state; property window_name; property (titlebar_rect sg); property (left_border_rect sg);
                         property (right_border_rect sg); property (bottom_border_rect sg)] ||
  obj_updated old_ins ins [property is_buttons].
Definition update_renderer (old_ws : option WindowState) (old_ins : option InputState) (ws : WindowState) (ins : InputState) (r : Renderer) : Renderer :=
  if look_changed old_ws old_ins ws ins then renderer_update_state sg ws ins r else r.

(** The buffers that are drawn, with the streams they are for. *)
Abbreviation NewBuffers := (list (DecorStream * option DrawnBuffer)).
Definition draw_sides (old : option WindowState) (ws : WindowState) (r : Renderer) : outcome (Renderer * NewBuffers) :=
  if obj_updated old ws [property focused_state; property (side_border_width sg); property (side_border_height sg)] then
    '(r, left_buffer) ← draw_left_border r;
    '(r, right_buffer) ← draw_right_border r;
    Ret (r, [(stream_left_border, left_buffer); (stream_right_border, right_buffer)])
  else Ret (r, []).
Definition draw_bottom (old : option WindowState) (ws : WindowState) (r : Renderer) : outcome (Renderer * NewBuffers) :=
  if obj_updated old ws [property focused_state; property bottom_border_width; property (bottom_border_height sg)] then
    '(r, b) ← draw_bottom_border r;
    Ret (r, [(stream_bottom_border, b)])
  else Ret (r, []).
Definition draw_top (old_ws : option WindowState) (old_ins : option InputState) (ws : WindowState) (ins : InputState) (r : Renderer)
  : outcome (Renderer * NewBuffers) :=
  if obj_updated old_ws ws [property focused_state; property window_name; property (titlebar_rect sg)] || obj_updated old_ins ins [property is_buttons] then
    '(r, b) ← draw_titlebar r;
    Ret (r, [(stream_titlebar, b)])
  else Ret (r, []).
Definition submit_buffers (bs : NewBuffers) : list DecorCall :=
  omap (fun b : DecorStream * option DrawnBuffer => call_submit_buffer b.1 <$> b.2) bs.

Definition decor_update (old_ws : option WindowState) (old_ins : option InputState) (d : BasicDecoration) : outcome (BasicDecoration * list DecorCall) :=
  let ws := bd_window_state d in
  let ins := bd_input_state d in
  let r := update_renderer old_ws old_ins ws ins (bd_renderer d) in
  '(r, sides) ← draw_sides old_ws ws r;
  '(r, bottom) ← draw_bottom old_ws ws r;
  '(r, top) ← draw_top old_ws old_ins ws ins r;
  Ret (d <| bd_renderer := r |>,
       update_margins old_ws ws ++ update_surface old_ws old_ins ws ins ++ submit_buffers (sides ++ bottom ++ top)).

(** ** The tasks *)
Definition window_state_updated (window : Surface) (d : BasicDecoration) : outcome (BasicDecoration * list DecorCall) :=
  let previous_window_state := bd_window_state d in
  let d := d <| bd_window_state := new_window_state window |> in
  let d := d <| bd_input_manager := update_window_state sg (bd_window_state d) (bd_input_manager d) |> in
  let previous_input_state := bd_input_state d in
  let d := d <| bd_input_state := input_state_of (bd_input_manager d) |> in
  decor_update (Some previous_window_state) (Some previous_input_state) d.
Definition input_state_updated (d : BasicDecoration) : outcome (BasicDecoration * list DecorCall) :=
  let previous_input_state := bd_input_state d in
  let d := d <| bd_input_state := input_state_of (bd_input_manager d) |> in
  decor_update (Some (bd_window_state d)) (Some previous_input_state) d.
Definition request_toggle_maximize (window : Surface) : DecorCall :=
  call_modify_window (surface_spec_empty <| ss_state := Some (if bool_decide (sf_state window = mir_window_state_maximized)
                                                              then mir_window_state_restored else mir_window_state_maximized) |>).
Definition request_minimize : DecorCall := call_modify_window (surface_spec_empty <| ss_state := Some mir_window_state_minimized |>).
Definition set_cursor_call (name : string) : DecorCall := call_modify_decoration (surface_spec_empty <| ss_cursor_image := Some (cursor_image name) |>).

Definition run_decor_task (window : Surface) (t : DecorTask) (d : BasicDecoration) : outcome (BasicDecoration * list DecorCall) :=
  match t with
  | task_window_state_updated => window_state_updated window d
  | task_input_state_updated => input_state_updated d
  | task_request_move timestamp => Ret (d, [call_request_move timestamp])
  | task_request_resize timestamp edge => Ret (d, [call_request_resize timestamp edge])
  | task_request_toggle_maximize => Ret (d, [request_toggle_maximize window])
  | task_request_minimize => Ret (d, [request_minimize])
  | task_request_close => Ret (d, [call_request_client_surface_close])
  | task_set_cursor name => Ret (d, [set_cursor_call name])
  end.

(** The surface of the decoration. *)
Definition creation_params (defaults : SurfaceCreationParameters) (window : Window) (surface : Surface) (content : Z) : SurfaceCreationParameters :=
  defaults <| cp_type := Some mir_window_type_decoration |> <| cp_parent := Some window |> <| cp_size := r_size (sf_rect surface) |>
    <| cp_aux_rect := Some (mkRectangle point_zero (mkSize 0 0)) |> <| cp_aux_rect_placement_gravity := Some mir_placement_gravity_northwest |>
    <| cp_surface_placement_gravity := Some mir_placement_gravity_northwest |> <| cp_placement_hints := Some 0 |> <| cp_content := Some content |>.

(** The constructor: with what it calls, and the tasks it leaves. *)
Definition new_decoration (window : Surface) : outcome (BasicDecoration * list DecorCall * list DecorTask) :=
  let ws := new_window_state window in
  let '(m, tasks) := new_input_manager sg ws in
  '(d, calls) ← decor_update None None (mkDecoration new_renderer ws m (input_state_of m));
  Ret (d, calls, tasks).
(** The destructor resets the margins of the window. *)
Definition destroy_decoration (window : Surface) : Surface := (set_window_margins window 0 0 0 0).1.

(** ** A window, its decoration and what the shell has been told *)
(** What the decoration's surface has been asked to be, and the buffers last
    submitted to its streams. *)
Record Shown := mkShown {
  sh_width : option Z;
  sh_height : option Z;
  sh_input_shape : option (list Rectangle);
  sh_streams : option (list StreamSpecification);
  sh_buffers : DecorStream -> option DrawnBuffer
}.
Definition nothing_shown : Shown := mkShown None None None None (fun _ => None).
Definition show_call (sh : Shown) (c : DecorCall) : Shown :=
  match c with
  | call_modify_decoration spec =>
      mkShown (or_keep (ss_width spec) (sh_width sh)) (or_keep (ss_height spec) (sh_height sh))
        (or_keep (ss_input_shape spec) (sh_input_shape sh)) (or_keep (ss_streams spec) (sh_streams sh)) (sh_buffers sh)
  | call_submit_buffer stream b =>
      mkShown (sh_width sh) (sh_height sh) (sh_input_shape sh) (sh_streams sh) (fun st => if decide (st = stream) then Some b else sh_buffers sh st)
  | _ => sh
  end.
Definition margins_call (window : Surface) (c : DecorCall) : Surface :=
  match c with call_set_window_margins t l b r => (set_window_margins window t l b r).1 | _ => window end.

Record DecorWorld := mkWorld {
  dw_window : Surface;
  dw_streams : Streams;
  dw_decoration : BasicDecoration;
  dw_queue : list DecorTask;
  dw_shown : Shown
}.
Definition carry_out (w : DecorWorld) (d : BasicDecoration) (calls : list DecorCall) (queue : list DecorTask) : DecorWorld :=
  mkWorld (foldl margins_call (dw_window w) calls) (dw_streams w) d queue (foldl show_call (dw_shown w) calls).

(** The window changes, its decoration receives input, or the executor runs one
    of the tasks that wait. *)
Inductive DecorStep := DWindow (o : surface_op) | DInput (ev : MirEvent) | DRun (i : nat).
Definition decor_step (w : DecorWorld) (st : DecorStep) : outcome DecorWorld :=
  match st with
  | DWindow o =>
      match surface_step (dw_window w) (dw_streams w) o with
      | Ret (window, streams, events) =>
          Ret (mkWorld window streams (dw_decoration w) (dw_queue w ++ (events ≫= window_event_tasks)) (dw_shown w))
      | Throw _ => Ret w
      end
  | DInput ev =>
      let d := dw_decoration w in
      let '(m, tasks, _) := input_consumed ev (bd_input_manager d) in
      Ret (mkWorld (dw_window w) (dw_streams w) (d <| bd_input_manager := m |>) (dw_queue w ++ tasks) (dw_shown w))
  | DRun i =>
      match dw_queue w !! i with
      | Some t =>
          '(d, calls) ← run_decor_task (dw_window w) t (dw_decoration w);
          Ret (carry_out w d calls (delete i (dw_queue w)))
      | None => Ret w
      end
  end.
Fixpoint decor_run (w : DecorWorld) (steps : list DecorStep) : outcome DecorWorld :=
  match steps with [] => Ret w | st :: steps => w ← decor_step w st; decor_run w steps end.
Definition decorate_window (window : Surface) (streams : Streams) : outcome DecorWorld :=
  '(d, calls, tasks) ← new_decoration window;
  Ret (carry_out (mkWorld window streams d [] nothing_shown) d calls tasks).

(** ** What a decoration promises *)
(** A stream that is part of the decoration shows the picture. *)
Definition stream_shows (size : Size) (picture : Z -> Z) (b : option DrawnBuffer) : Prop :=
  area size <> 0 -> pixel_source = true -> exists px, b = Some (mkDrawn size px) /\ same_picture size px picture.
Abbreviation titlebar_drawing := (titlebar_picture sg set_char_size rasterize_glyph from_bytes uninitialized).
Record shown_for (sh : Shown) (ws : WindowState) (ins : InputState) : Prop := {
  sf_shown_width : sh_width sh = Some (width (window_size ws));
  sf_shown_height : sh_height sh = Some (height (window_size ws));
  sf_shown_shape : sh_input_shape sh = Some (is_input_shape ins);
  sf_shown_streams : sh_streams sh = Some (decor_stream_specs ws);
  sf_shown_titlebar : stream_shows (r_size (titlebar_rect sg ws)) (titlebar_drawing ws ins) (sh_buffers sh stream_titlebar);
  sf_shown_left : stream_shows (r_size (left_border_rect sg ws)) (border_picture ws) (sh_buffers sh stream_left_border);
  sf_shown_right : stream_shows (r_size (right_border_rect sg ws)) (border_picture ws) (sh_buffers sh stream_right_border);
  sf_shown_bottom : stream_shows (r_size (bottom_border_rect sg ws)) (border_picture ws) (sh_buffers sh stream_bottom_border)
}.
Definition margins_of (ws : WindowState) : Margins :=
  mkMargins (titlebar_height sg ws) (side_border_width sg ws) (bottom_border_height sg ws) (side_border_width sg ws).
(** The decoration is that of the window as it is, with the buttons as they are. *)
Definition up_to_date (w : DecorWorld) : Prop :=
  let ws := new_window_state (dw_window w) in
  let ins := mkInputState (button_infos (bd_input_manager (dw_decoration w))) (shape_for sg ws) in
  shown_for (dw_shown w) ws ins /\ sf_margins (dw_window w) = margins_of ws.

(** *** Parts of an update *)
Lemma not_updated {T} (o cur : T) cs : obj_updated (Some o) cur cs = false -> Forall (fun c => c o cur = true) cs.
Proof.
  cbn. induction cs as [|c cs IH]; [constructor|]. cbn. rewrite orb_false_iff, negb_false_iff. intros [H1 H2]. constructor; [done|by apply IH].
Qed.
Lemma property_same {T A} `{EqDecision A} (g : T -> A) a b : property g a b = true -> g a = g b.
Proof. apply bool_decide_eq_true. Qed.
(** From an update that is not due, that the properties are the same. *)
Ltac unchanged H :=
  apply not_updated in H; rewrite ?Forall_cons, ?Forall_nil in H; destruct_and? H;
  repeat match goal with HP : property _ _ _ = true |- _ => apply property_same in HP end.

(** Speak of the old state in place of the new one. *)
Ltac say_old o new := repeat match goal with HP : ?p o = ?q new |- _ => rewrite <- HP; clear HP end.

Lemma update_margins_ok b ws window : (forall o, b = Some o -> sf_margins window = margins_of o) ->
  let window' := foldl margins_call window (update_margins b ws) in
  sf_margins window' = margins_of ws /\ new_window_state window' = new_window_state window.
Proof.
  intros Hb. unfold update_margins. destruct (margins_changed b ws) eqn:E; cbn.
  - assert (0 <= titlebar_height sg ws /\ 0 <= side_border_width sg ws /\ 0 <= bottom_border_height sg ws) as (H1 & H2 & H3)
      by (unfold titlebar_height, side_border_width, bottom_border_height; destruct (border_type ws); cbn; lia).
    unfold set_window_margins. rewrite !Z.max_l by done. case_bool_decide as Hm; cbn; [done|]. by rewrite <- Hm.
  - destruct b as [o|]; [|done]. unfold margins_changed in E. unchanged E. split; [|done]. rewrite (Hb o eq_refl). unfold margins_of. congruence.
Qed.
Lemma decor_stream_specs_same ws ws' : border_type ws = border_type ws' -> titlebar_rect sg ws = titlebar_rect sg ws' -> left_border_rect sg ws = left_border_rect sg ws' ->
  right_border_rect sg ws = right_border_rect sg ws' -> bottom_border_rect sg ws = bottom_border_rect sg ws' -> decor_stream_specs ws = decor_stream_specs ws'.
Proof. unfold decor_stream_specs. by intros -> -> -> -> ->. Qed.
Lemma update_surface_ok ows oins ws ins sh :
  (forall o, ows = Some o -> sh_width sh = Some (width (window_size o)) /\ sh_height sh = Some (height (window_size o)) /\ sh_streams sh = Some (decor_stream_specs o)) ->
  (forall o, oins = Some o -> sh_input_shape sh = Some (is_input_shape o)) ->
  foldl show_call sh (update_surface ows oins ws ins) =
    mkShown (Some (width (window_size ws))) (Some (height (window_size ws))) (Some (is_input_shape ins)) (Some (decor_stream_specs ws)) (sh_buffers sh).
Proof.
  intros Hw Hi. set (sz := obj_updated ows ws [property window_size]). set (shp := obj_updated oins ins [property is_input_shape]). set (lay := layout_changed ows ws).
  assert (Hsz : sz = false -> sh_width sh = Some (width (window_size ws)) /\ sh_height sh = Some (height (window_size ws))).
  { intros E. unfold sz in E. destruct ows as [o|]; [|done]. unchanged E. destruct (Hw o eq_refl) as (W1 & W2 & _). rewrite W1, W2. split; congruence. }
  assert (Hshp : shp = false -> sh_input_shape sh = Some (is_input_shape ins)).
  { intros E. unfold shp in E. destruct oins as [o|]; [|done]. unchanged E. rewrite (Hi o eq_refl). congruence. }
  assert (Hlay : lay = false -> sh_streams sh = Some (decor_stream_specs ws)).
  { intros E. unfold lay, layout_changed in E. destruct ows as [o|]; [|done]. unchanged E. destruct (Hw o eq_refl) as (_ & _ & W1). rewrite W1. f_equal. by apply decor_stream_specs_same. }
  unfold update_surface, decoration_spec. fold sz shp lay. destruct sh as [w h shape streams buffers]. cbn in *.
  destruct sz, shp, lay; cbn; f_equal; (done || (symmetry; by apply Hsz) || (by apply Hsz) || by apply Hshp || by apply Hlay).
Qed.

(** *** Drawing *)
Lemma knows_same r ws ins ws' ins' : knows_state sg r ws ins -> look_changed (Some ws) (Some ins) ws' ins' = false -> knows_state sg r ws' ins'.
Proof.
  intros [K1 K2 K3 K4 K5 K6 K7 K8] H. unfold look_changed in H. apply orb_false_iff in H as [C1 C2]. unchanged C1. unchanged C2. split; congruence.
Qed.
Abbreviation renderer_inv := (RendererInv sg set_char_size rasterize_glyph from_bytes uninitialized).
(** The renderer is sound and knows the states, if there were any before. *)
Definition renderer_ready (r : Renderer) (ows : option WindowState) (oins : option InputState) : Prop :=
  renderer_inv r /\ forall ws ins, ows = Some ws -> oins = Some ins -> knows_state sg r ws ins.
Definition both_or_none {A B} (a : option A) (b : option B) : Prop := is_Some a <-> is_Some b.
Lemma update_renderer_ok r ows oins ws ins : both_or_none ows oins -> renderer_ready r ows oins -> three_buttons ins ->
  renderer_inv (update_renderer ows oins ws ins r) /\ knows_state sg (update_renderer ows oins ws ins r) ws ins.
Proof.
  intros Hbn [Hi Hk] Hb. unfold update_renderer. destruct (look_changed ows oins ws ins) eqn:E.
  - split; [by apply renderer_update_inv|apply renderer_update_knows].
  - split; [done|]. destruct ows as [o|]; [|done]. destruct oins as [oi|]; [|exfalso; by destruct (proj1 Hbn (mk_is_Some _ _ eq_refl))].
    by eapply knows_same; [apply Hk|exact E].
Qed.

(** Buffers are drawn for some streams, each with its picture. *)
Definition shows_drawn (size : Size) (picture : Z -> Z) (stream : DecorStream) (bs : NewBuffers) : Prop :=
  forall sh, stream_shows size picture (sh_buffers (foldl show_call sh (submit_buffers bs)) stream).
Lemma submit_one size picture stream b sh : drawn_as pixel_source size picture b ->
  stream_shows size picture (sh_buffers (foldl show_call sh (submit_buffers [(stream, b)])) stream).
Proof.
  intros Hd Ha Hp. unfold drawn_as in Hd. destruct (Z.eqb_spec (area size) 0); [done|]. rewrite Hp in Hd. destruct Hd as (px & -> & Hpx).
  exists px. cbn. by rewrite decide_True.
Qed.
Lemma submit_other stream bs sh : stream ∉ bs.*1 -> sh_buffers (foldl show_call sh (submit_buffers bs)) stream = sh_buffers sh stream.
Proof.
  revert sh. induction bs as [|[st b] bs IH]; intros sh Hn; [done|]. rewrite fmap_cons, not_elem_of_cons in Hn. destruct Hn as [Hne Hn].
  unfold submit_buffers. destruct b as [b|]; cbn [omap list_omap fst snd fmap option_fmap option_map]; [|by apply IH].
  cbn [foldl]. etrans; [by apply IH|]. cbn. by rewrite decide_False.
Qed.
Lemma submit_outside streams stream bs sh : bs.*1 ⊆ streams -> bool_decide (stream ∉ streams) = true ->
  sh_buffers (foldl show_call sh (submit_buffers bs)) stream = sh_buffers sh stream.
Proof. intros Hs Hn%bool_decide_eq_true. apply submit_other. intros Hin. by apply Hn, Hs. Qed.
Lemma submit_app bs bs' sh : foldl show_call sh (submit_buffers (bs ++ bs')) = foldl show_call (foldl show_call sh (submit_buffers bs)) (submit_buffers bs').
Proof. unfold submit_buffers. by rewrite omap_app, foldl_app. Qed.
(** A part of the decoration is drawn as it should be. *)
Lemma drawing_step r ws ins op : renderer_inv r -> knows_state sg r ws ins -> (forall ws' ins', op <> RUpdate ws' ins') ->
  exists r' b, renderer_step sg set_char_size rasterize_glyph from_bytes uninitialized pixel_source r op = Ret (r', b) /\ renderer_inv r' /\ knows_state sg r' ws ins /\
    renderer_spec sg set_char_size rasterize_glyph from_bytes uninitialized pixel_source op ws ins b.
Proof.
  intros Hi Hk Hop. pose proof (renderer_step_ok sg set_char_size rasterize_glyph from_bytes uninitialized pixel_source r ws ins op Hi Hk) as H.
  destruct op as [ws' ins'| | | |]; [by destruct (Hop ws' ins')|..]; by apply H.
Qed.
Lemma border_picture_same ws ws' : focused_state ws = focused_state ws' -> border_picture ws = border_picture ws'.
Proof. unfold border_picture. by intros ->. Qed.
Definition sides_shown (sh : Shown) (ws : WindowState) : Prop :=
  stream_shows (r_size (left_border_rect sg ws)) (border_picture ws) (sh_buffers sh stream_left_border) /\
  stream_shows (r_size (right_border_rect sg ws)) (border_picture ws) (sh_buffers sh stream_right_border).
Definition bottom_shown (sh : Shown) (ws : WindowState) : Prop :=
  stream_shows (r_size (bottom_border_rect sg ws)) (border_picture ws) (sh_buffers sh stream_bottom_border).
Definition top_shown (sh : Shown) (ws : WindowState) (ins : InputState) : Prop :=
  stream_shows (r_size (titlebar_rect sg ws)) (titlebar_drawing ws ins) (sh_buffers sh stream_titlebar).
(** Drawing a part succeeds, shows the part, and submits to no other streams. *)
Definition draws_part (streams : list DecorStream) (ws : WindowState) (ins : InputState) (res : outcome (Renderer * NewBuffers)) (ok : NewBuffers -> Prop) : Prop :=
  exists r' bs, res = Ret (r', bs) /\ renderer_inv r' /\ knows_state sg r' ws ins /\ ok bs /\ bs.*1 ⊆ streams.
Abbreviation shown_after sh bs := (foldl show_call sh (submit_buffers bs)).

Lemma draw_sides_ok ows ws ins r sh : renderer_inv r -> knows_state sg r ws ins -> (forall o, ows = Some o -> sides_shown sh o) ->
  draws_part [stream_left_border; stream_right_border] ws ins (draw_sides ows ws r) (fun bs => sides_shown (shown_after sh bs) ws).
Proof.
  intros Hi Hk Hs. unfold draws_part, draw_sides. destruct (obj_updated _ _ _) eqn:E.
  - destruct (drawing_step r ws ins RLeft Hi Hk) as (r1 & b1 & E1 & Hi1 & Hk1 & Hb1); [done|].
    destruct (drawing_step r1 ws ins RRight Hi1 Hk1) as (r2 & b2 & E2 & Hi2 & Hk2 & Hb2); [done|].
    cbn [renderer_step] in E1, E2. rewrite E1. cbn. rewrite E2. cbn. eexists _, _. split; [reflexivity|]. split; [done|]. split; [done|].
    split; [|done]. rewrite (submit_app [(stream_left_border, b1)] [(stream_right_border, b2)]). split.
    + rewrite submit_other by (cbn; set_solver). by apply submit_one.
    + by apply submit_one.
  - destruct ows as [o|]; [|done]. exists r, []. split; [done|]. split; [done|]. split; [done|]. split; [|set_solver]. unchanged E.
    destruct (Hs o eq_refl) as [S1 S2]. unfold sides_shown, left_border_rect, right_border_rect in *. rewrite <- (border_picture_same o ws) by done.
    cbn [r_size foldl submit_buffers omap list_omap] in *. say_old o ws. done.
Qed.
Lemma draw_bottom_ok ows ws ins r sh : renderer_inv r -> knows_state sg r ws ins -> (forall o, ows = Some o -> bottom_shown sh o) ->
  draws_part [stream_bottom_border] ws ins (draw_bottom ows ws r) (fun bs => bottom_shown (shown_after sh bs) ws).
Proof.
  intros Hi Hk Hs. unfold draws_part, draw_bottom. destruct (obj_updated _ _ _) eqn:E.
  - destruct (drawing_step r ws ins RBottom Hi Hk) as (r1 & b1 & E1 & Hi1 & Hk1 & Hb1); [done|]. cbn [renderer_step] in E1. rewrite E1. cbn.
    eexists _, _. split; [reflexivity|]. split; [done|]. split; [done|]. split; [|done]. by apply submit_one.
  - destruct ows as [o|]; [|done]. exists r, []. split; [done|]. split; [done|]. split; [done|]. split; [|set_solver]. unchanged E.
    specialize (Hs o eq_refl). unfold bottom_shown, bottom_border_rect in *. rewrite <- (border_picture_same o ws) by done. cbn [r_size foldl submit_buffers omap list_omap] in *. say_old o ws. done.
Qed.
Lemma draw_top_ok ows oins ws ins r sh : both_or_none ows oins -> renderer_inv r -> knows_state sg r ws ins ->
  (forall o oi, ows = Some o -> oins = Some oi -> top_shown sh o oi) ->
  draws_part [stream_titlebar] ws ins (draw_top ows oins ws ins r) (fun bs => top_shown (shown_after sh bs) ws ins).
Proof.
  intros Hbn Hi Hk Hs. unfold draws_part, draw_top. destruct (_ || _) eqn:E.
  - destruct (drawing_step r ws ins RTitlebar Hi Hk) as (r1 & b1 & E1 & Hi1 & Hk1 & Hb1); [done|]. cbn [renderer_step] in E1. rewrite E1. cbn.
    eexists _, _. split; [reflexivity|]. split; [done|]. split; [done|]. split; [|done]. by apply submit_one.
  - destruct ows as [o|]; [|done]. destruct oins as [oi|]; [|exfalso; by destruct (proj1 Hbn (mk_is_Some _ _ eq_refl))].
    exists r, []. split; [done|]. split; [done|]. split; [done|]. split; [|set_solver]. apply orb_false_iff in E as [C1 C2]. unchanged C1. unchanged C2.
    specialize (Hs o oi eq_refl eq_refl). unfold top_shown, titlebar_picture in *. cbn [foldl submit_buffers omap list_omap] in *. say_old o ws. say_old oi ins. done.
Qed.

(** Which calls are shown and which set margins. *)
Lemma margins_not_shown ows ws sh : foldl show_call sh (update_margins ows ws) = sh.
Proof. unfold update_margins. by destruct (margins_changed ows ws). Qed.
Lemma surface_no_margins ows oins ws ins window : foldl margins_call window (update_surface ows oins ws ins) = window.
Proof. unfold update_surface. by destruct (spec_is_empty _). Qed.
Lemma submit_no_margins bs window : foldl margins_call window (submit_buffers bs) = window.
Proof. induction bs as [|[st [b|]] bs IH]; [done|exact IH|exact IH]. Qed.
Lemma submit_rest bs sh : let sh' := shown_after sh bs in
  sh_width sh' = sh_width sh /\ sh_height sh' = sh_height sh /\ sh_input_shape sh' = sh_input_shape sh /\ sh_streams sh' = sh_streams sh.
Proof. revert sh. induction bs as [|[st [b|]] bs IH]; intros sh; [done|apply (IH (show_call sh (call_submit_buffer st b)))|apply IH]. Qed.
Lemma shown_by_parts sh1 bs1 bs2 bs3 ws ins :
  sh_width sh1 = Some (width (window_size ws)) /\ sh_height sh1 = Some (height (window_size ws)) /\
    sh_input_shape sh1 = Some (is_input_shape ins) /\ sh_streams sh1 = Some (decor_stream_specs ws) ->
  sides_shown (shown_after sh1 bs1) ws -> bottom_shown (shown_after (shown_after sh1 bs1) bs2) ws -> top_shown (shown_after (shown_after (shown_after sh1 bs1) bs2) bs3) ws ins ->
  bs2.*1 ⊆ [stream_bottom_border] -> bs3.*1 ⊆ [stream_titlebar] -> shown_for (shown_after (shown_after (shown_after sh1 bs1) bs2) bs3) ws ins.
Proof.
  intros (W1 & W2 & W3 & W4) [Sl Sr] Sb St I2 I3. destruct (submit_rest bs1 sh1) as (A1 & A2 & A3 & A4).
  destruct (submit_rest bs2 (shown_after sh1 bs1)) as (B1 & B2 & B3 & B4). destruct (submit_rest bs3 (shown_after (shown_after sh1 bs1) bs2)) as (C1 & C2 & C3 & C4).
  split; [by rewrite C1, B1, A1|by rewrite C2, B2, A2|by rewrite C3, B3, A3|by rewrite C4, B4, A4|done|..].
  - rewrite (submit_outside _ _ _ _ I3), (submit_outside _ _ _ _ I2) by reflexivity. exact Sl.
  - rewrite (submit_outside _ _ _ _ I3), (submit_outside _ _ _ _ I2) by reflexivity. exact Sr.
  - rewrite (submit_outside _ _ _ _ I3) by reflexivity. exact Sb.
Qed.

(** *** An update as a whole *)
Record followed (window : Surface) (d : BasicDecoration) (sh : Shown) : Prop := {
  fo_renderer : renderer_inv (bd_renderer d);
  fo_knows : knows_state sg (bd_renderer d) (bd_window_state d) (bd_input_state d);
  fo_shown : shown_for sh (bd_window_state d) (bd_input_state d);
  fo_margins : sf_margins window = margins_of (bd_window_state d)
}.
(** The update of a decoration whose states have just been replaced. *)
Lemma decor_update_ok ows oins d window sh : both_or_none ows oins -> three_buttons (bd_input_state d) -> renderer_ready (bd_renderer d) ows oins ->
  (forall o oi, ows = Some o -> oins = Some oi -> shown_for sh o oi /\ sf_margins window = margins_of o) ->
  exists d' calls, decor_update ows oins d = Ret (d', calls) /\
    bd_window_state d' = bd_window_state d /\ bd_input_manager d' = bd_input_manager d /\ bd_input_state d' = bd_input_state d /\
    followed (foldl margins_call window calls) d' (foldl show_call sh calls) /\
    new_window_state (foldl margins_call window calls) = new_window_state window.
Proof.
  intros Hbn Hb Hr Hold. set (ws := bd_window_state d). set (ins := bd_input_state d).
  destruct (update_renderer_ok (bd_renderer d) ows oins ws ins Hbn Hr Hb) as [Hi Hk]. set (r := update_renderer _ _ _ _ _) in *.
  assert (Hold' : forall o, ows = Some o -> exists oi, shown_for sh o oi).
  { intros o ->. destruct oins as [oi|]; [|exfalso; by destruct (proj1 Hbn (mk_is_Some _ _ eq_refl))]. exists oi. by apply Hold. }
  set (sh1 := foldl show_call (foldl show_call sh (update_margins ows ws)) (update_surface ows oins ws ins)).
  assert (E1 : sh1 = mkShown (Some (width (window_size ws))) (Some (height (window_size ws))) (Some (is_input_shape ins)) (Some (decor_stream_specs ws)) (sh_buffers sh)).
  { unfold sh1. rewrite margins_not_shown. apply update_surface_ok.
    - intros o Ho. destruct (Hold' o Ho) as [oi []]. done.
    - intros oi ->. destruct ows as [o|]; [by apply (Hold o oi)|exfalso; by destruct (proj2 Hbn (mk_is_Some _ _ eq_refl))]. }
  assert (Ebuf : sh_buffers sh1 = sh_buffers sh) by by rewrite E1.
  destruct (draw_sides_ok ows ws ins r sh1 Hi Hk) as (r1 & bs1 & Ed1 & Hi1 & Hk1 & Hs1 & Hin1).
  { intros o Ho. unfold sides_shown. rewrite Ebuf. destruct (Hold' o Ho) as [oi []]. done. }
  destruct (draw_bottom_ok ows ws ins r1 (shown_after sh1 bs1) Hi1 Hk1) as (r2 & bs2 & Ed2 & Hi2 & Hk2 & Hs2 & Hin2).
  { intros o Ho. unfold bottom_shown. rewrite (submit_outside _ _ _ _ Hin1), Ebuf by reflexivity. destruct (Hold' o Ho) as [oi []]. done. }
  destruct (draw_top_ok ows oins ws ins r2 (shown_after (shown_after sh1 bs1) bs2) Hbn Hi2 Hk2) as (r3 & bs3 & Ed3 & Hi3 & Hk3 & Hs3 & Hin3).
  { intros o oi Ho Hoi. unfold top_shown. rewrite (submit_outside _ _ _ _ Hin2), (submit_outside _ _ _ _ Hin1), Ebuf by reflexivity. by apply Hold. }
  destruct (update_margins_ok ows ws window) as [Hm Hw].
  { intros o ->. destruct oins as [oi|]; [by apply (Hold o oi)|exfalso; by destruct (proj1 Hbn (mk_is_Some _ _ eq_refl))]. }
  unfold decor_update. fold ws ins r. rewrite Ed1. cbn [mbind outcome_bind]. rewrite Ed2. cbn [mbind outcome_bind]. rewrite Ed3. cbn [mbind outcome_bind].
  eexists _, _. split; [reflexivity|]. split; [done|]. split; [done|]. split; [done|].
  rewrite !foldl_app, submit_no_margins, surface_no_margins. fold sh1. split; [|done].
  rewrite !submit_app. split; [done|done| |done]. cbn [bd_window_state bd_input_state]. apply (shown_by_parts sh1 bs1 bs2 bs3); auto. by rewrite E1.
Qed.

(** *** Input that changes a button says so *)
(** The operation keeps the input shape; it always asks for an update of the
    input state; it asks for one if it changes a button. *)
Definition keeps_shape {A} (a : Spawning A) : Prop := forall m, im_input_shape (a m).1.1 = im_input_shape m.
Definition always_tells {A} (a : Spawning A) : Prop := forall m, task_input_state_updated ∈ (a m).1.2.
Definition tells {A} (a : Spawning A) : Prop := forall m, task_input_state_updated ∈ (a m).1.2 \/ button_infos (a m).1.1 = button_infos m.

Lemma spawning_bind_parts {A B} (a : Spawning A) (f : A -> Spawning B) m :
  let r1 := a m in let r2 := f r1.2 r1.1.1 in ((a ≫= f) m).1.1 = r2.1.1 /\ ((a ≫= f) m).1.2 = r1.1.2 ++ r2.1.2.
Proof. unfold mbind, Spawning_bind. destruct (a m) as [[m1 t1] x]. cbn. by destruct (f x m1) as [[m2 t2] y]. Qed.
Lemma shape_bind {A B} (a : Spawning A) (f : A -> Spawning B) : keeps_shape a -> (forall x, keeps_shape (f x)) -> keeps_shape (a ≫= f).
Proof. intros Ha Hf m. destruct (spawning_bind_parts a f m) as [E _]. by rewrite E, (Hf _ _), Ha. Qed.
Lemma tells_bind {A B} (a : Spawning A) (f : A -> Spawning B) : tells a -> (forall x, tells (f x)) -> tells (a ≫= f).
Proof.
  intros Ha Hf m. destruct (spawning_bind_parts a f m) as [E1 E2]. rewrite E1, E2, elem_of_app.
  destruct (Ha m) as [?|E]; [by left; left|]. destruct (Hf (a m).2 (a m).1.1) as [?|E']; [by left; right|]. right. by rewrite E'.
Qed.
Lemma always_after {A B} (a : Spawning A) (f : A -> Spawning B) : (forall x, always_tells (f x)) -> always_tells (a ≫= f).
Proof. intros Hf m. destruct (spawning_bind_parts a f m) as [_ E]. rewrite E, elem_of_app. right. apply Hf. Qed.
Lemma always_spawn : always_tells (spawn task_input_state_updated).
Proof. intros m. cbn. by apply list_elem_of_singleton. Qed.
Lemma always_tells_tells {A} (a : Spawning A) : always_tells a -> tells a.
Proof. intros H m. left. apply H. Qed.
Lemma tells_ret {A} (x : A) : tells (mret x).
Proof. intros m. by right. Qed.
Lemma tells_get {A} (f : InputManager -> A) : tells (im_get f).
Proof. intros m. by right. Qed.
Lemma tells_change f : (forall m, widgets (f m) = widgets m) -> tells (im_change f).
Proof. intros H m. right. cbn. unfold button_infos. by rewrite H. Qed.
Lemma shape_ret {A} (x : A) : keeps_shape (mret x).
Proof. done. Qed.
Lemma shape_get {A} (f : InputManager -> A) : keeps_shape (im_get f).
Proof. done. Qed.
Lemma shape_spawn t : keeps_shape (spawn t).
Proof. done. Qed.
Lemma shape_change f : (forall m, im_input_shape (f m) = im_input_shape m) -> keeps_shape (im_change f).
Proof. done. Qed.
#[local] Hint Resolve shape_ret shape_get shape_spawn tells_ret tells_get always_spawn : telling.
#[local] Hint Extern 1 (keeps_shape (im_change _)) => (apply shape_change; done) : telling.
#[local] Hint Extern 1 (keeps_shape (set_widget_state _ _)) => (apply shape_change; done) : telling.
#[local] Hint Extern 1 (tells (im_change _)) => (apply tells_change; done) : telling.
Lemma active_keeps d f : (forall i, keeps_shape (f i)) -> keeps_shape (on_active d f).
Proof. intros H. unfold on_active. destruct (active_widget d); [apply H|done]. Qed.
Lemma active_tells d f : (forall i, tells (f i)) -> tells (on_active d f).
Proof. intros H. unfold on_active. destruct (active_widget d); [apply H|apply tells_ret]. Qed.
(** Go through an operation part by part. *)
Ltac through bind :=
  repeat first [progress auto with telling | apply bind; [|intros ?] | apply active_keeps; intros ? | apply active_tells; intros ?
    | match goal with |- context [match ?x with _ => _ end] => destruct x end].

Lemma widget_keeps i : keeps_shape (widget_enter i) /\ keeps_shape (widget_leave i) /\ keeps_shape (widget_down i) /\ keeps_shape (widget_up i) /\ keeps_shape (widget_drag i).
Proof. unfold widget_enter, widget_leave, widget_down, widget_up, widget_drag, the_widget, decor_set_cursor. repeat split; through @shape_bind. Qed.
Lemma widget_tells i : tells (widget_enter i) /\ tells (widget_leave i) /\ tells (widget_down i) /\ tells (widget_up i) /\ tells (widget_drag i).
Proof.
  unfold widget_enter, widget_leave, widget_down, widget_up, widget_drag.
  repeat split; apply always_tells_tells; repeat first [exact always_spawn | apply always_after; intros ?].
Qed.
#[local] Hint Extern 1 (keeps_shape (widget_enter _)) => apply widget_keeps : telling.
#[local] Hint Extern 1 (keeps_shape (widget_leave _)) => apply widget_keeps : telling.
#[local] Hint Extern 1 (keeps_shape (widget_down _)) => apply widget_keeps : telling.
#[local] Hint Extern 1 (keeps_shape (widget_up _)) => apply widget_keeps : telling.
#[local] Hint Extern 1 (keeps_shape (widget_drag _)) => apply widget_keeps : telling.
#[local] Hint Extern 1 (tells (widget_enter _)) => apply widget_tells : telling.
#[local] Hint Extern 1 (tells (widget_leave _)) => apply widget_tells : telling.
#[local] Hint Extern 1 (tells (widget_down _)) => apply widget_tells : telling.
#[local] Hint Extern 1 (tells (widget_up _)) => apply widget_tells : telling.
#[local] Hint Extern 1 (tells (widget_drag _)) => apply widget_tells : telling.
Lemma input_step_keeps st : (forall ws, st <> SWindow ws) -> keeps_shape (decor_input_step sg st).
Proof.
  intros Hn. destruct st as [t l p|t|id t l|id t|ws]; [..|by destruct (Hn ws)]; cbn [decor_input_step];
    unfold pointer_event, decor_pointer_leave, touch_event, decor_touch_up, process_enter, process_leave, process_down, process_up, process_move, process_drag, widget_at;
    through @shape_bind.
Qed.
Lemma input_step_tells st : (forall ws, st <> SWindow ws) -> tells (decor_input_step sg st).
Proof.
  intros Hn. destruct st as [t l p|t|id t l|id t|ws]; [..|by destruct (Hn ws)]; cbn [decor_input_step];
    unfold pointer_event, decor_pointer_leave, touch_event, decor_touch_up, process_enter, process_leave, process_down, process_up, process_move, process_drag, widget_at;
    through @tells_bind.
Qed.
Lemma event_steps_input ev : Forall (fun st => forall ws, st <> SWindow ws) (steps_of_event ev).
Proof.
  destruct ev as [e|e|e|ty]; cbn [steps_of_event]; [constructor| | |constructor].
  - apply Forall_fmap, Forall_forall. intros c _. cbn. by destruct (action c).
  - destruct (p_action e); by repeat constructor.
Qed.
Lemma input_consumed_tells ev : keeps_shape (input_consumed ev) /\ tells (input_consumed ev).
Proof.
  assert (H : keeps_shape (decor_input_run sg (steps_of_event ev)) /\ tells (decor_input_run sg (steps_of_event ev))).
  { induction (event_steps_input ev) as [|st steps Hst _ [IH1 IH2]]; [by split; [|apply tells_ret]|]. cbn [decor_input_run].
    split; [apply shape_bind; [by apply input_step_keeps|by intros []]|apply tells_bind; [by apply input_step_tells|by intros []]]. }
  destruct H as [H1 H2]. split; intros m; rewrite (input_consumed_steps sg); [apply H1|apply H2].
Qed.
Lemma input_consumed_manager ev m : ManagerInv m -> known_kinds m -> ManagerInv (input_consumed ev m).1.1 /\ known_kinds (input_consumed ev m).1.1.
Proof. intros Hm Hk. rewrite (input_consumed_steps sg). by apply decor_input_run_ok. Qed.

(** *** Changes of the window that matter are told *)
Definition leaves_margins (o : surface_op) : bool := match o with OpMargins _ _ _ _ => false | _ => true end.
Lemma surface_step_tells s streams o s' streams' events : surface_step s streams o = Ret (s', streams', events) -> leaves_margins o = true ->
  sf_margins s' = sf_margins s /\ (task_window_state_updated ∈ (events ≫= window_event_tasks) \/ new_window_state s' = new_window_state s).
Proof.
  intros E Ho. destruct o; try done; cbn in E; try (injection E as <- <- <-; split; [done|]; right; reflexivity).
  - unfold surface_resize in E. case_bool_decide; injection E as <- <- <-; (split; [done|]); [left; cbn; set_solver|by right].
  - unfold surface_rename in E. case_bool_decide; injection E as <- <- <-; (split; [done|]); [left; cbn; set_solver|by right].
  - unfold set_application_id in E. case_bool_decide; injection E as <- <- <-; (split; [done|]); by right.
  - unfold configure in E. apply outcome_bind_Ret in E as ([v0 [[s1 str1] ev1]] & E & [= <- <- <-]). apply outcome_bind_Ret in E as (r1 & E & [= <- ->]).
    destruct attrib; unfold set_type, surface_set_state, set_focus_state, set_visibility, set_preferred_orientation, set_dpi, set_swap_interval in E.
    all: repeat (case_match; simplify_eq; try done); try (split; [done|]; first [by right | left; cbn; set_solver]).
    all: apply outcome_bind_Ret in E as (str & _ & [= <- <- <-]); split; [done|]; first [by right | left; cbn; set_solver].
Qed.

(** *** Every step keeps the decoration on the way *)
Record DecorWorldInv (w : DecorWorld) : Prop := {
  wi_followed : followed (dw_window w) (dw_decoration w) (dw_shown w);
  wi_manager : ManagerInv (bd_input_manager (dw_decoration w));
  wi_kinds : known_kinds (bd_input_manager (dw_decoration w));
  wi_shape : im_input_shape (bd_input_manager (dw_decoration w)) = shape_for sg (bd_window_state (dw_decoration w));
  wi_window : task_window_state_updated ∈ dw_queue w \/ bd_window_state (dw_decoration w) = new_window_state (dw_window w);
  wi_input : task_window_state_updated ∈ dw_queue w \/ task_input_state_updated ∈ dw_queue w \/
             bd_input_state (dw_decoration w) = input_state_of (bd_input_manager (dw_decoration w))
}.

Lemma elem_of_delete_other {A} (x y : A) (q : list A) (i : nat) : q !! i = Some y -> x ∈ q -> x <> y -> x ∈ delete i q.
Proof. intros Hi Hx Hne. rewrite <- (take_drop_middle q i y Hi), elem_of_app, elem_of_cons in Hx. rewrite delete_take_drop, elem_of_app. naive_solver. Qed.

Lemma followed_ready window d sh : followed window d sh -> renderer_ready (bd_renderer d) (Some (bd_window_state d)) (Some (bd_input_state d)).
Proof. intros [H1 H2 _ _]. split; [done|]. by intros ws ins [= <-] [= <-]. Qed.
Lemma followed_before window d sh o oi : followed window d sh -> Some (bd_window_state d) = Some o -> Some (bd_input_state d) = Some oi ->
  shown_for sh o oi /\ sf_margins window = margins_of o.
Proof. by intros [_ _ H3 H4] [= <-] [= <-]. Qed.
Lemma window_updated_ok w i : DecorWorldInv w -> dw_queue w !! i = Some task_window_state_updated ->
  exists w', decor_step w (DRun i) = Ret w' /\ DecorWorldInv w' /\ dw_queue w' = delete i (dw_queue w).
Proof.
  intros [Hf Hm Hk Hs Hw Hi] Hq. destruct w as [window streams d q sh]. cbn in *. rewrite Hq. cbn [run_decor_task]. unfold window_state_updated.
  set (ws := new_window_state window). set (m := update_window_state sg ws (bd_input_manager d)).
  set (d1 := mkDecoration (bd_renderer d) ws m (input_state_of m)).
  assert (Hk1 : known_kinds m) by (intros j; rewrite kind_at_fmap; cbn; rewrite place_widgets_kinds, <- kind_at_fmap; apply Hk).
  destruct (decor_update_ok (Some (bd_window_state d)) (Some (bd_input_state d)) d1 window sh) as (d' & calls & E & E1 & E2 & E3 & Hf' & Ew).
  - by split.
  - by apply input_state_three_buttons.
  - exact (followed_ready window d sh Hf).
  - intros o oi. by apply followed_before.
  - change (decor_update _ _ _) with (decor_update (Some (bd_window_state d)) (Some (bd_input_state d)) d1). rewrite E. cbn [mbind outcome_bind].
    eexists. split; [reflexivity|]. split; [|done]. split; cbn [dw_window dw_decoration dw_shown dw_queue carry_out]; rewrite ?E1, ?E2, ?E3; [done| |done|done| |by right; right].
    + by apply (decor_input_step_ok sg (SWindow ws)).
    + right. symmetry. exact Ew.
Qed.
Lemma input_updated_ok w i : DecorWorldInv w -> dw_queue w !! i = Some task_input_state_updated ->
  exists w', decor_step w (DRun i) = Ret w' /\ DecorWorldInv w' /\ dw_queue w' = delete i (dw_queue w).
Proof.
  intros [Hf Hm Hk Hs Hw Hi] Hq. destruct w as [window streams d q sh]. cbn in *. rewrite Hq. cbn [run_decor_task]. unfold input_state_updated.
  set (d1 := mkDecoration (bd_renderer d) (bd_window_state d) (bd_input_manager d) (input_state_of (bd_input_manager d))).
  destruct (decor_update_ok (Some (bd_window_state d)) (Some (bd_input_state d)) d1 window sh) as (d' & calls & E & E1 & E2 & E3 & Hf' & Ew).
  - by split.
  - by apply input_state_three_buttons.
  - exact (followed_ready window d sh Hf).
  - intros o oi. by apply followed_before.
  - change (decor_update _ _ _) with (decor_update (Some (bd_window_state d)) (Some (bd_input_state d)) d1). rewrite E. cbn [mbind outcome_bind].
    eexists. split; [reflexivity|]. split; [|done]. split; cbn [dw_window dw_decoration dw_shown dw_queue carry_out]; rewrite ?E1, ?E2, ?E3; [done..| |by right; right].
    destruct Hw as [Hw|Hw]; [left; by eapply elem_of_delete_other|right]. etrans; [exact Hw|]. symmetry. exact Ew.
Qed.
(** The other tasks call the shell and change nothing here. *)
Lemma request_ok w i t c : DecorWorldInv w -> dw_queue w !! i = Some t -> t <> task_window_state_updated -> t <> task_input_state_updated ->
  run_decor_task (dw_window w) t (dw_decoration w) = Ret (dw_decoration w, [c]) -> margins_call (dw_window w) c = dw_window w -> show_call (dw_shown w) c = dw_shown w ->
  exists w', decor_step w (DRun i) = Ret w' /\ DecorWorldInv w' /\ dw_queue w' = delete i (dw_queue w).
Proof.
  intros [Hf Hm Hk Hs Hw Hi] Hq Hne1 Hne2 Er Em Es. cbn [decor_step]. rewrite Hq, Er. cbn [mbind outcome_bind]. eexists. split; [reflexivity|]. split; [|done].
  unfold carry_out. cbn [foldl]. rewrite Em, Es.
  split; cbn [dw_window dw_decoration dw_shown dw_queue]; [done..| |].
  - destruct Hw as [Hw|Hw]; [left; by eapply elem_of_delete_other|by right].
  - destruct Hi as [Hi|[Hi|Hi]]; [left; by eapply elem_of_delete_other|right; left; by eapply elem_of_delete_other|by right; right].
Qed.
Lemma cursor_not_shown name sh : show_call sh (set_cursor_call name) = sh.
Proof. by destruct sh. Qed.
Lemma run_ok w i t : DecorWorldInv w -> dw_queue w !! i = Some t -> exists w', decor_step w (DRun i) = Ret w' /\ DecorWorldInv w' /\ dw_queue w' = delete i (dw_queue w).
Proof.
  intros Hw Hq. destruct t; [by apply window_updated_ok|by apply input_updated_ok|..]; try (by eapply request_ok).
  eapply request_ok; [done..|]. apply cursor_not_shown.
Qed.

Definition allowed_step (st : DecorStep) : bool := match st with DWindow o => leaves_margins o | _ => true end.
Lemma decor_step_ok w st : DecorWorldInv w -> allowed_step st = true -> exists w', decor_step w st = Ret w' /\ DecorWorldInv w'.
Proof.
  intros Hw Hst. destruct st as [o|ev|i]; cbn [decor_step allowed_step] in *.
  - destruct (surface_step _ _ o) as [[[window' streams'] events]|] eqn:E; [|by exists w]. eexists. split; [reflexivity|].
    destruct (surface_step_tells _ _ _ _ _ _ E Hst) as [Em Et]. destruct Hw as [[F1 F2 F3 F4] Hm Hk Hs Hw Hi].
    split; cbn [dw_window dw_decoration dw_shown dw_queue]; [split; [done..|by rewrite Em]|done..| |].
    + rewrite elem_of_app. destruct Hw as [Hw|Hw], Et as [Et|Et]; auto. right. by rewrite Et.
    + rewrite !elem_of_app. naive_solver.
  - destruct Hw as [[F1 F2 F3 F4] Hm Hk Hs Hw Hi]. destruct (input_consumed_tells ev) as [T1 T2]. set (m := bd_input_manager (dw_decoration w)) in *.
    destruct (input_consumed_manager ev m Hm Hk) as [Hm' Hk']. specialize (T1 m). specialize (T2 m).
    destruct (input_consumed ev m) as [[m' tasks] x]. cbn in T1, T2, Hm', Hk'. eexists. split; [reflexivity|].
    split; cbn; [by split|done|done|by rewrite T1| |]; rewrite ?elem_of_app; [by destruct Hw; auto|].
    destruct Hi as [Hi|[Hi|Hi]]; [auto..|]. destruct T2 as [T2|T2]; [auto|]. right; right. rewrite Hi. unfold input_state_of. by rewrite T1, T2.
  - destruct (dw_queue w !! i) as [t|] eqn:Hq; [|by exists w]. destruct (run_ok w i t Hw Hq) as (w' & E & Hw' & _). exists w'. split; [|done].
    cbn [decor_step] in E. by rewrite Hq in E.
Qed.
Lemma decor_run_ok w steps : DecorWorldInv w -> Forall (fun st => allowed_step st = true) steps -> exists w', decor_run w steps = Ret w' /\ DecorWorldInv w'.
Proof.
  intros Hw Hs. revert w Hw. induction Hs as [|st steps Hst Hs IH]; intros w Hw; [by exists w|]. cbn [decor_run].
  destruct (decor_step_ok w st Hw Hst) as (w1 & E & Hw1). rewrite E. cbn. by apply IH.
Qed.
Lemma decorate_window_ok window streams : exists w, decorate_window window streams = Ret w /\ DecorWorldInv w /\ dw_queue w = [task_set_cursor "default"].
Proof.
  set (ws := new_window_state window). set (m := (new_input_manager sg ws).1). destruct (new_manager_ok sg ws) as [Hm Hk]. fold m in Hm, Hk.
  destruct (decor_update_ok None None (mkDecoration new_renderer ws m (input_state_of m)) window nothing_shown) as (d & calls & E & E1 & E2 & E3 & Hf & Ew).
  - by split.
  - by apply input_state_three_buttons.
  - split; [apply new_renderer_inv|done].
  - done.
  - unfold decorate_window, new_decoration. fold ws. assert (En : new_input_manager sg ws = (m, [task_set_cursor "default"])) by done.
    rewrite En. rewrite E. cbn [mbind outcome_bind]. eexists. split; [reflexivity|]. split; [|done].
    split; cbn [dw_window dw_decoration dw_shown dw_queue dw_streams carry_out]; rewrite ?E1, ?E2, ?E3; [done..| |by right; right]. right. symmetry. exact Ew.
Qed.
Definition no_update_waits (q : list DecorTask) : Prop := task_window_state_updated ∉ q /\ task_input_state_updated ∉ q.
Lemma settled_up_to_date w : DecorWorldInv w -> no_update_waits (dw_queue w) -> up_to_date w.
Proof.
  intros [[_ _ F3 F4] _ _ Hs Hw Hi] [N1 N2]. destruct Hw as [|Hw]; [done|]. destruct Hi as [|[|Hi]]; [done|done|].
  unfold up_to_date. rewrite <- Hw. split; [|done]. rewrite Hi in F3. unfold input_state_of in F3. by rewrite Hs in F3.
Qed.
(** Run what waits. *)
Definition catch_up (q : list DecorTask) : list DecorStep := (fun _ => DRun 0) <$> q.
Lemma catch_up_ok w : DecorWorldInv w -> exists w', decor_run w (catch_up (dw_queue w)) = Ret w' /\ DecorWorldInv w' /\ dw_queue w' = [].
Proof.
  remember (dw_queue w) as q eqn:Hq. revert w Hq. induction q as [|t q IH]; intros w Hq Hw; [by exists w|].
  destruct (run_ok w 0 t Hw) as (w1 & E & Hw1 & Hq1); [by rewrite <- Hq|]. cbn [catch_up fmap list_fmap decor_run]. rewrite E. cbn [mbind outcome_bind].
  apply IH; [|done]. by rewrite Hq1, <- Hq.
Qed.

(** C18: (refinement) A decoration is always the decoration of its window, once the
    tasks it has spawned have run: however the window is resized, renamed,
    focused, maximized, minimized or changed in other ways, whatever input the
    decoration receives, and in whatever order the executor runs the tasks, no
    update ever fails; whenever no update waits, and hence after what waits has
    run, the margins of the window, the size, the input shape and the layout of
    the decoration and the picture in every stream of it are those of the window's
    present size, name, type, state and focus and of the present states of the
    buttons, although each update sends on only what it finds changed.  Nobody
    but the decoration sets the margins of the window. *)
Theorem decoration_follows_window window streams steps : Forall (fun st => allowed_step st = true) steps ->
  exists w, (w0 ← decorate_window window streams; decor_run w0 steps) = Ret w /\ (no_update_waits (dw_queue w) -> up_to_date w) /\
    exists w', decor_run w (catch_up (dw_queue w)) = Ret w' /\ dw_queue w' = [] /\ up_to_date w'.
Proof.
  intros Hs. destruct (decorate_window_ok window streams) as (w0 & E0 & Hw0 & _). rewrite E0. cbn [mbind outcome_bind].
  destruct (decor_run_ok w0 steps Hw0 Hs) as (w & E & Hw). exists w. split; [exact E|]. split; [by apply settled_up_to_date|].
  destruct (catch_up_ok w Hw) as (w' & E' & Hw' & Hq'). exists w'. split; [done|]. split; [done|]. apply settled_up_to_date; [done|].
  rewrite Hq'. split; apply not_elem_of_nil.
Qed.
End Decoration.

(** ** Concrete decorations *)
Definition example_stream_id (st : DecorStream) : Z :=
  match st with stream_titlebar => 101 | stream_left_border => 102 | stream_right_border => 103 | stream_bottom_border => 104 end.
Definition example_cursor (name : string) : Z := 7.
Definition any_size (h : Z) : bool := true.
(** The window is renamed and maximized, and the update runs before the rename's. *)
Definition example_steps : list DecorStep :=
  [DWindow (OpRename "b"); DWindow (OpConfigure mir_window_attrib_state 3); DRun 2; DRun 1; DRun 0].
Lemma decoration_follows_window_witness :
  exists w, (w0 ← decorate_window any_size example_glyph example_from_bytes example_memory true example_stream_id example_surface example_streams;
      decor_run any_size example_glyph example_from_bytes example_memory true example_stream_id example_cursor w0 example_steps) = Ret w /\
    (no_update_waits (dw_queue w) -> up_to_date any_size example_glyph example_from_bytes example_memory true example_stream_id w) /\
    exists w', decor_run any_size example_glyph example_from_bytes example_memory true example_stream_id example_cursor w (catch_up (dw_queue w)) = Ret w' /\
      dw_queue w' = [] /\ up_to_date any_size example_glyph example_from_bytes example_memory true example_stream_id w'.
Proof.
  apply (decoration_follows_window any_size example_glyph example_from_bytes example_memory true example_stream_id example_cursor example_surface example_streams example_steps).
  apply (bool_decide_unpack _). vm_compute. exact I.
Defined.

(** ** The manager of decorations *)
(** [BasicManager]: the decorations by their surfaces.  A surface that is being
    decorated is in the map without a decoration; the builder runs without the
    lock, so that other calls may come in between. *)
Record BasicManager := mkBasicManager { bm_shell : bool; bm_decorations : gmap Z (option Z) }.
#[export] Instance BasicManager_eta : EtaExpansion BasicManager := fun m => mkBasicManager (bm_shell m) (bm_decorations m).

(** [decorate] up to the call of the builder: whether it is called. *)
Definition decorate_begin (m : BasicManager) (surface : Z) : outcome (BasicManager * bool) :=
  if negb (bm_shell m) then Throw (runtime_error "Shell is null")
  else match bm_decorations m !! surface with
       | Some _ => Ret (m, false)
       | None => Ret (m <| bm_decorations := <[surface := None]> (bm_decorations m) |>, true)
       end.
(** ... and after it has returned; what is overwritten is destroyed. *)
Definition decorate_end (m : BasicManager) (surface decoration : Z) : BasicManager * list Z :=
  (m <| bm_decorations := <[surface := Some decoration]> (bm_decorations m) |>, option_list (mjoin (bm_decorations m !! surface))).
Definition undecorate (m : BasicManager) (surface : Z) : BasicManager * list Z :=
  (m <| bm_decorations := delete surface (bm_decorations m) |>, option_list (mjoin (bm_decorations m !! surface))).
Definition held_decorations (m : BasicManager) : list Z := omap snd (map_to_list (bm_decorations m)).
Definition undecorate_all (m : BasicManager) : BasicManager * list Z := (m <| bm_decorations := ∅ |>, held_decorations m).

(** The calls and halves of calls of any threads. *)
Inductive ManagerStep := MBegin (surface : Z) | MEnd (surface decoration : Z) | MUndecorate (surface : Z) | MUndecorateAll.
Definition manager_step (m : BasicManager) (st : ManagerStep) : BasicManager * list Z :=
  match st with
  | MBegin s => match decorate_begin m s with Ret (m, _) => (m, []) | Throw _ => (m, []) end
  | MEnd s d => decorate_end m s d
  | MUndecorate s => undecorate m s
  | MUndecorateAll => undecorate_all m
  end.
Definition built_by (st : ManagerStep) : list Z := match st with MEnd _ d => [d] | _ => [] end.
Fixpoint manager_run (m : BasicManager) (steps : list ManagerStep) : BasicManager * list Z :=
  match steps with
  | [] => (m, [])
  | st :: steps => let '(m1, gone) := manager_step m st in let '(m2, gone') := manager_run m1 steps in (m2, gone ++ gone')
  end.

Lemma held_delete (ds : gmap Z (option Z)) s : omap snd (map_to_list ds) ≡ₚ option_list (mjoin (ds !! s)) ++ omap snd (map_to_list (delete s ds)).
Proof.
  destruct (ds !! s) as [o|] eqn:E; cbn [mjoin option_join].
  - rewrite <- (insert_delete_id ds s o E) at 1. rewrite map_to_list_insert by apply lookup_delete_eq. by destruct o.
  - by rewrite delete_id.
Qed.
Lemma held_insert (ds : gmap Z (option Z)) s o : omap snd (map_to_list (<[s := o]> ds)) ≡ₚ option_list o ++ omap snd (map_to_list (delete s ds)).
Proof. rewrite (held_delete _ s). by rewrite lookup_insert_eq, delete_insert_eq. Qed.
Lemma manager_step_owns m st : let '(m', gone) := manager_step m st in held_decorations m' ++ gone ≡ₚ built_by st ++ held_decorations m.
Proof.
  unfold held_decorations. destruct st as [s|s d|s|]; cbn.
  - unfold decorate_begin. destruct (bm_shell m); cbn; [|by rewrite app_nil_r]. destruct (bm_decorations m !! s) eqn:E; cbn; rewrite app_nil_r; [done|].
    rewrite held_insert, (held_delete (bm_decorations m) s), E. done.
  - rewrite held_insert, (held_delete (bm_decorations m) s). cbn. apply perm_skip. by rewrite Permutation_app_comm.
  - rewrite (held_delete (bm_decorations m) s). by rewrite Permutation_app_comm.
  - by rewrite map_to_list_empty.
Qed.
(** Every decoration that is built is held or destroyed, and destroyed once. *)
Lemma decorations_owned m steps : let '(m', gone) := manager_run m steps in held_decorations m' ++ gone ≡ₚ (steps ≫= built_by) ++ held_decorations m.
Proof.
  revert m. induction steps as [|st steps IH]; intros m; cbn; [by rewrite app_nil_r|]. pose proof (manager_step_owns m st) as H.
  destruct (manager_step m st) as [m1 g1]. specialize (IH m1). destruct (manager_run m1 steps) as [m2 g2].
  rewrite (Permutation_app_comm g1), app_assoc, IH, <- !app_assoc, H. rewrite !app_assoc. by rewrite (Permutation_app_comm (steps ≫= built_by)).
Qed.
(** A surface that is undecorated while its decoration is being built stays
    decorated. *)
Example undecorated_while_built :
  (manager_run (mkBasicManager true ∅) [MBegin 1; MUndecorate 1; MEnd 1 8]).1 = mkBasicManager true {[1 := Some 8]}.
Proof. reflexivity. Qed.
(** After a builder has failed, its surface is taken for decorated. *)
Example failed_builder :
  decorate_begin (manager_run (mkBasicManager true ∅) [MBegin 1]).1 1 = Ret (mkBasicManager true {[1 := None]}, false).
Proof. reflexivity. Qed.
