(* ===== verification/Anr.v ===== *)
(** * Applications that do not respond

    [TimeoutApplicationNotRespondingDetector] of
    [src/server/scene/timeout_application_not_responding_detector.cpp]: sessions
    are pinged periodically, and the observers are told of those that have not
    answered by the next time, and when they answer again. *)
From S2P Require Import Prelude.

(** ** Data *)
Record ANRContext := mkANRContext { replied_since_last_ping : bool; flagged_as_unresponsive : bool }.
#[export] Instance ANRContext_eta : EtaExpansion ANRContext := fun c => mkANRContext (replied_since_last_ping c) (flagged_as_unresponsive c).
(** The sessions and the observers by their identities; [anr_pending] is whether
    the alarm is pending. *)
Record Detector := mkDetector { anr_sessions : gmap Z ANRContext; anr_observers : gset Z; anr_pending : bool }.
#[export] Instance Detector_eta : EtaExpansion Detector := fun d => mkDetector (anr_sessions d) (anr_observers d) (anr_pending d).

(** Calls of pingers and of observers. *)
Inductive AnrCall := call_ping (session : Z) | call_unresponsive (observer session : Z) | call_now_responsive (observer session : Z).

Definition new_detector : Detector := mkDetector ∅ ∅ false.
Definition notify_all (call : Z -> Z -> AnrCall) (d : Detector) (session : Z) : list AnrCall :=
  (fun o => call o session) <$> elements (anr_observers d).

(** ** Operations *)
Definition anr_register_session (d : Detector) (session : Z) : Detector :=
  let d := d <| anr_sessions := <[session := mkANRContext true false]> (anr_sessions d) |> in
  let alarm_needs_schedule := negb (anr_pending d) in
  if alarm_needs_schedule then d <| anr_pending := true |> else d.
Definition anr_unregister_session (d : Detector) (session : Z) : Detector :=
  d <| anr_sessions := delete session (anr_sessions d) |>.
Definition pong_received (d : Detector) (received_for : Z) : outcome (Detector * list AnrCall) :=
  match anr_sessions d !! received_for with
  | None => Throw out_of_range
  | Some session_ctx =>
      let needs_now_responsive_notification := flagged_as_unresponsive session_ctx in
      let d := d <| anr_sessions := <[received_for := mkANRContext true false]> (anr_sessions d) |> in
      let alarm_needs_rescheduling := negb (anr_pending d) in
      let calls := if needs_now_responsive_notification then notify_all call_now_responsive d received_for else [] in
      Ret (if alarm_needs_rescheduling then d <| anr_pending := true |> else d, calls)
  end.
Definition sessions_that (p : ANRContext -> bool) (ss : gmap Z ANRContext) : list Z :=
  fst <$> filter (fun s : Z * ANRContext => p s.2 = true) (map_to_list ss).
Definition anr_register_observer (d : Detector) (observer : Z) : Detector * list AnrCall :=
  (d <| anr_observers := {[observer]} ∪ anr_observers d |>, call_unresponsive observer <$> sessions_that flagged_as_unresponsive (anr_sessions d)).
Definition anr_unregister_observer (d : Detector) (observer : Z) : Detector := d <| anr_observers := anr_observers d ∖ {[observer]} |>.

(** The part of [handle_ping_cycle] under the lock: what becomes of a session,
    which ones are newly unresponsive, and which ones are pinged. *)
Definition newly_unresponsive (c : ANRContext) : bool := negb (replied_since_last_ping c) && negb (flagged_as_unresponsive c).
Definition needs_ping (c : ANRContext) : bool := replied_since_last_ping c.
Definition cycle_context (c : ANRContext) : ANRContext :=
  if newly_unresponsive c then c <| flagged_as_unresponsive := true |>
  else if needs_ping c then c <| replied_since_last_ping := false |> else c.
Definition ping_sessions (d : Detector) : Detector * list AnrCall * list Z * bool :=
  let pinged := sessions_that needs_ping (anr_sessions d) in
  (d <| anr_sessions := cycle_context <$> anr_sessions d |>, call_ping <$> pinged, sessions_that newly_unresponsive (anr_sessions d), bool_decide (pinged <> [])).
(** The alarm has gone off: it is no longer pending unless it is set again.  The
    report to the observers and the alarm come after the lock has been released;
    here they follow with nothing in between, and [answer_overtakes_report] looks
    at the two parts by themselves. *)
Definition handle_ping_cycle (d : Detector) : Detector * list AnrCall :=
  let d := d <| anr_pending := false |> in
  let '(d, pings, unresponsive_sessions_temporary, needs_rearm) := ping_sessions d in
  let calls := unresponsive_sessions_temporary ≫= notify_all call_unresponsive d in
  (if needs_rearm then d <| anr_pending := true |> else d, pings ++ calls).

(** ** Sequences of steps *)
(** Calls that come one after another.  [ATick]: the time of the alarm has come,
    if it is set. *)
Inductive AnrStep := ARegister (s : Z) | AUnregister (s : Z) | APong (s : Z) | AObserve (o : Z) | AUnobserve (o : Z) | ATick.
Definition anr_step (d : Detector) (st : AnrStep) : outcome (Detector * list AnrCall) :=
  match st with
  | ARegister s => Ret (anr_register_session d s, [])
  | AUnregister s => Ret (anr_unregister_session d s, [])
  | APong s => pong_received d s
  | AObserve o => Ret (anr_register_observer d o)
  | AUnobserve o => Ret (anr_unregister_observer d o, [])
  | ATick => Ret (if anr_pending d then handle_ping_cycle d else (d, []))
  end.
(** What the observers believe: which observer takes which session for
    unresponsive.  They forget about sessions that have ended. *)
Definition belief_step (bs : gset (Z * Z)) (c : AnrCall) : gset (Z * Z) :=
  match c with call_ping _ => bs | call_unresponsive o s => {[(o, s)]} ∪ bs | call_now_responsive o s => bs ∖ {[(o, s)]} end.
Definition forget_ended (st : AnrStep) (bs : gset (Z * Z)) : gset (Z * Z) :=
  match st with
  | AUnregister s => filter (fun b : Z * Z => b.2 <> s) bs
  | AUnobserve o => filter (fun b : Z * Z => b.1 <> o) bs
  | _ => bs
  end.
Fixpoint anr_run (d : Detector) (bs : gset (Z * Z)) (steps : list AnrStep) : outcome (Detector * gset (Z * Z)) :=
  match steps with
  | [] => Ret (d, bs)
  | st :: steps => '(d, calls) ← anr_step d st; anr_run d (foldl belief_step (forget_ended st bs) calls) steps
  end.
(** Only sessions that are registered answer, and a session is registered once. *)
Definition proper_step (d : Detector) (st : AnrStep) : bool :=
  match st with
  | ARegister s => bool_decide (anr_sessions d !! s = None)
  | APong s => bool_decide (is_Some (anr_sessions d !! s))
  | _ => true
  end.
Fixpoint proper_run (d : Detector) (steps : list AnrStep) : bool :=
  match steps with
  | [] => true
  | st :: steps => proper_step d st && match anr_step d st with Ret (d, _) => proper_run d steps | Throw _ => false end
  end.

(** ** Beliefs and flags agree *)
#[export] Instance ANRContext_eq_dec : EqDecision ANRContext.
Proof. solve_decision. Defined.
Lemma elem_of_sessions_that p ss s : s ∈ sessions_that p ss <-> exists c, ss !! s = Some c /\ p c = true.
Proof.
  unfold sessions_that. rewrite list_elem_of_fmap. split.
  - intros ([s' c] & -> & Hf). apply list_elem_of_filter in Hf as [Hp Hl]. apply elem_of_map_to_list in Hl. by exists c.
  - intros (c & Hl & Hp). exists (s, c). split; [done|]. apply list_elem_of_filter. split; [done|]. by apply elem_of_map_to_list.
Qed.
Lemma elem_of_notify call d s c : c ∈ notify_all call d s <-> exists o, o ∈ anr_observers d /\ c = call o s.
Proof. unfold notify_all. rewrite list_elem_of_fmap. setoid_rewrite elem_of_elements. naive_solver. Qed.

(** A list of calls that only report, or only take back. *)
Lemma believe_reports (calls : list AnrCall) bs o s : (forall c, c ∈ calls -> forall o' s', c <> call_now_responsive o' s') ->
  (o, s) ∈ foldl belief_step bs calls <-> (o, s) ∈ bs \/ call_unresponsive o s ∈ calls.
Proof.
  revert bs. induction calls as [|c calls IH]; intros bs Hc; [cbn; set_solver|]. cbn [foldl]. rewrite IH by (intros c' Hc'; apply Hc; by right). rewrite elem_of_cons.
  destruct c as [s'|o' s'|o' s']; cbn; [naive_solver| |by destruct (Hc (call_now_responsive o' s') (list_elem_of_here _ _) o' s')].
  rewrite elem_of_union, elem_of_singleton. naive_solver.
Qed.
Lemma believe_taken_back d s bs o s' : (o, s') ∈ foldl belief_step bs (notify_all call_now_responsive d s) <-> (o, s') ∈ bs /\ ~ (s' = s /\ o ∈ anr_observers d).
Proof.
  unfold notify_all. setoid_rewrite <- (elem_of_elements (anr_observers d)). revert bs. induction (elements (anr_observers d)) as [|o' os IH]; intros bs; cbn; [set_solver|].
  rewrite IH, elem_of_difference, elem_of_singleton, elem_of_cons. naive_solver.
Qed.
Definition BeliefInv (d : Detector) (bs : gset (Z * Z)) : Prop :=
  (forall o s c, o ∈ anr_observers d -> anr_sessions d !! s = Some c -> (o, s) ∈ bs <-> flagged_as_unresponsive c = true) /\
  (forall o s, (o, s) ∈ bs -> o ∈ anr_observers d /\ is_Some (anr_sessions d !! s)).

Lemma elem_of_cycle_calls d o s : call_unresponsive o s ∈ (handle_ping_cycle d).2 <->
  o ∈ anr_observers d /\ exists c, anr_sessions d !! s = Some c /\ newly_unresponsive c = true.
Proof.
  unfold handle_ping_cycle, ping_sessions. cbn. rewrite elem_of_app, list_elem_of_fmap, list_elem_of_bind.
  setoid_rewrite elem_of_sessions_that. setoid_rewrite elem_of_notify. cbn. naive_solver.
Qed.
Lemma cycle_reports d c : c ∈ (handle_ping_cycle d).2 -> forall o s, c <> call_now_responsive o s.
Proof.
  unfold handle_ping_cycle, ping_sessions. cbn. rewrite elem_of_app, list_elem_of_fmap, list_elem_of_bind.
  intros [(s' & -> & _)|(s' & Hc & _)]; [done|]. apply elem_of_notify in Hc as (o & _ & ->). done.
Qed.
Lemma cycle_parts d : anr_sessions (handle_ping_cycle d).1 = cycle_context <$> anr_sessions d /\ anr_observers (handle_ping_cycle d).1 = anr_observers d.
Proof. unfold handle_ping_cycle, ping_sessions. cbn. by case_bool_decide. Qed.
Lemma cycle_flag c : flagged_as_unresponsive (cycle_context c) = flagged_as_unresponsive c || newly_unresponsive c.
Proof. by destruct c as [[] []]. Qed.

Lemma tick_believed d bs : BeliefInv d bs -> BeliefInv (handle_ping_cycle d).1 (foldl belief_step bs (handle_ping_cycle d).2).
Proof.
  intros [H1 H2]. destruct (cycle_parts d) as [Es Eo]. unfold BeliefInv. rewrite Es, Eo. split; intros o s.
  - intros c Ho Hc. rewrite lookup_fmap in Hc. destruct (anr_sessions d !! s) as [c0|] eqn:E; [|done]. injection Hc as <-.
    rewrite believe_reports by apply cycle_reports. rewrite elem_of_cycle_calls, cycle_flag, orb_true_iff, (H1 o s c0) by done. naive_solver.
  - rewrite believe_reports by apply cycle_reports. rewrite elem_of_cycle_calls, lookup_fmap, fmap_is_Some. intros [Hb|(Ho & c & Hc & _)]; [by apply H2|eauto].
Qed.
Lemma pong_believed d bs s d' calls : BeliefInv d bs -> pong_received d s = Ret (d', calls) -> BeliefInv d' (foldl belief_step bs calls).
Proof.
  intros [H1 H2] E. unfold pong_received in E. destruct (anr_sessions d !! s) as [c0|] eqn:Es; [|done]. injection E as <- <-.
  set (bs' := foldl _ _ _).
  assert (Hbs : forall o s', (o, s') ∈ bs' <-> (o, s') ∈ bs /\ ~ (s' = s /\ o ∈ anr_observers d)).
  { intros o s'. unfold bs'. destruct (flagged_as_unresponsive c0) eqn:Ef; [rewrite believe_taken_back; done|]. cbn. split; [|naive_solver].
    intros Hb. split; [done|]. intros [-> Ho]. apply (H1 o s c0 Ho Es) in Hb. congruence. }
  assert (Ed : forall d1, d1 = (if negb (anr_pending d) then d <| anr_sessions := <[s := mkANRContext true false]> (anr_sessions d) |> <| anr_pending := true |>
    else d <| anr_sessions := <[s := mkANRContext true false]> (anr_sessions d) |>) -> anr_sessions d1 = <[s := mkANRContext true false]> (anr_sessions d) /\ anr_observers d1 = anr_observers d)
    by (intros d1 ->; by destruct (anr_pending d)).
  destruct (Ed _ eq_refl) as [E1 E2]. unfold BeliefInv. cbn [anr_pending] in *. rewrite E1, E2. split; intros o s'.
  - intros c Ho Hc. rewrite Hbs. destruct (decide (s' = s)) as [->|Hne].
    + rewrite lookup_insert_eq in Hc. injection Hc as <-. cbn. naive_solver.
    + rewrite lookup_insert_ne in Hc by done. rewrite (H1 o s' c Ho Hc). naive_solver.
  - rewrite Hbs. intros [Hb _]. destruct (H2 o s' Hb) as [Ho Hs]. split; [done|]. destruct (decide (s' = s)) as [->|Hne]; [by rewrite lookup_insert_eq|by rewrite lookup_insert_ne].
Qed.
Lemma anr_step_believed d bs st d' calls : BeliefInv d bs -> proper_step d st = true -> anr_step d st = Ret (d', calls) ->
  BeliefInv d' (foldl belief_step (forget_ended st bs) calls).
Proof.
  intros Hi Hp E. destruct st as [s|s|s|o|o|]; cbn [anr_step forget_ended] in *.
  - injection E as <- <-. apply bool_decide_eq_true in Hp. destruct Hi as [H1 H2]. unfold anr_register_session. cbn.
    assert (BeliefInv (d <| anr_sessions := <[s := mkANRContext true false]> (anr_sessions d) |>) bs) as [G1 G2].
    { split; intros o s'; cbn.
      - intros c Ho Hc. destruct (decide (s' = s)) as [->|Hne]; [|rewrite lookup_insert_ne in Hc by done; by apply H1].
        rewrite lookup_insert_eq in Hc. injection Hc as <-. cbn. split; [|done]. intros Hb. destruct (H2 o s Hb) as [_ [? Hs]]. congruence.
      - intros Hb. destruct (H2 o s' Hb) as [Ho Hs]. split; [done|]. destruct (decide (s' = s)) as [->|Hne]; [by rewrite lookup_insert_eq|by rewrite lookup_insert_ne]. }
    destruct (anr_pending d); by split.
  - injection E as <- <-. destruct Hi as [H1 H2]. split; intros o s'; cbn; setoid_rewrite elem_of_filter; cbn.
    + intros c Ho Hc. apply lookup_delete_Some in Hc as [Hne Hc]. rewrite (H1 o s' c Ho Hc). naive_solver.
    + intros [Hne Hb]. rewrite lookup_delete_ne by done. by apply H2.
  - by eapply pong_believed.
  - injection E as <- <-. destruct Hi as [H1 H2].
    assert (Hr : forall c, c ∈ call_unresponsive o <$> sessions_that flagged_as_unresponsive (anr_sessions d) -> forall o' s', c <> call_now_responsive o' s')
      by (intros c (s & -> & _)%list_elem_of_fmap; done).
    assert (Hin : forall o' s, call_unresponsive o' s ∈ call_unresponsive o <$> sessions_that flagged_as_unresponsive (anr_sessions d) <->
      o' = o /\ exists c, anr_sessions d !! s = Some c /\ flagged_as_unresponsive c = true) by (intros; rewrite list_elem_of_fmap; setoid_rewrite elem_of_sessions_that; naive_solver).
    split; intros o' s.
    + intros c Ho Hc. rewrite (believe_reports _ _ _ _ Hr), Hin. cbn in Ho, Hc. destruct (decide (o' ∈ anr_observers d)) as [Ho'|Hn]; [rewrite (H1 o' s c Ho' Hc); naive_solver|].
      apply elem_of_union in Ho as [->%elem_of_singleton|]; [|done]. split; [intros [Hb|]; [by destruct (H2 o s Hb)|naive_solver]|eauto].
    + rewrite (believe_reports _ _ _ _ Hr), Hin. cbn. intros [Hb|(-> & c & Hc & _)]; [destruct (H2 o' s Hb); set_solver|]. split; [set_solver|eauto].
  - injection E as <- <-. destruct Hi as [H1 H2]. split; intros o' s; cbn; setoid_rewrite elem_of_filter; cbn.
    + intros c Ho Hc. rewrite (H1 o' s c) by set_solver. set_solver.
    + intros [Hne Hb]. destruct (H2 o' s Hb). set_solver.
  - destruct (anr_pending d); injection E as <- <-; [by apply tick_believed|done].
Qed.

(** ** The alarm is set while somebody is to be watched *)
Definition AlarmInv (d : Detector) : Prop := forall s c, anr_sessions d !! s = Some c -> flagged_as_unresponsive c = false -> anr_pending d = true.
Lemma anr_step_alarm d st d' calls : AlarmInv d -> anr_step d st = Ret (d', calls) -> AlarmInv d'.
Proof.
  intros Hi E. destruct st as [s|s|s|o|o|]; cbn [anr_step] in E.
  - injection E as <- _. intros s' c _ _. unfold anr_register_session. cbn. by destruct (anr_pending d) eqn:Ep; cbn.
  - injection E as <- _. intros s' c Hc Hf. cbn in Hc. apply lookup_delete_Some in Hc as [_ Hc]. by eapply Hi.
  - unfold pong_received in E. destruct (anr_sessions d !! s); [|done]. injection E as <- _. intros s' c _ _. cbn. by destruct (anr_pending d) eqn:Ep; cbn.
  - by injection E as <- _.
  - by injection E as <- _.
  - destruct (anr_pending d) eqn:Ep; injection E as <- _; [|done]. intros s c Hc Hf. unfold handle_ping_cycle, ping_sessions in *. cbn in *.
    case_bool_decide as Hn; [done|]. cbn in Hc. rewrite lookup_fmap in Hc. destruct (anr_sessions d !! s) as [c0|] eqn:Es; [|done]. injection Hc as <-.
    destruct (replied_since_last_ping c0) eqn:Er; [|exfalso; destruct c0 as [r f]; cbn in *; subst r; by destruct f].
    exfalso. assert (s ∈ sessions_that needs_ping (anr_sessions d)) as Hin by (apply elem_of_sessions_that; by exists c0). rewrite Hn in Hin. by apply not_elem_of_nil in Hin.
Qed.

(** How far a session is from being flagged. *)
Definition stage (c : ANRContext) : nat := if flagged_as_unresponsive c then 2 else if replied_since_last_ping c then 0 else 1.
Definition is_tick (st : AnrStep) : nat := match st with ATick => 1 | _ => 0 end.
Definition ticks (steps : list AnrStep) : nat := sum_list_with is_tick steps.
(** The step does nothing for or about the session. *)
Definition nothing_heard (s : Z) (st : AnrStep) : bool :=
  match st with ARegister s' | AUnregister s' | APong s' => bool_decide (s <> s') | _ => true end.
Lemma unheard_step d st d' calls s c : AlarmInv d -> anr_step d st = Ret (d', calls) -> nothing_heard s st = true -> anr_sessions d !! s = Some c ->
  exists c', anr_sessions d' !! s = Some c' /\ (Nat.min 2 (stage c + is_tick st) <= stage c')%nat.
Proof.
  intros Ha E Hs Hc. assert (Hsame : forall d1, anr_sessions d1 !! s = Some c -> exists c', anr_sessions d1 !! s = Some c' /\ (Nat.min 2 (stage c + 0) <= stage c')%nat)
    by (intros d1 H; exists c; split; [done|lia]).
  destruct st as [s'|s'|s'|o|o|]; cbn [anr_step is_tick nothing_heard] in *; try apply bool_decide_eq_true in Hs.
  - injection E as <- _. apply Hsame. unfold anr_register_session. cbn. destruct (anr_pending d); cbn; by rewrite lookup_insert_ne.
  - injection E as <- _. apply Hsame. cbn. by rewrite lookup_delete_ne.
  - unfold pong_received in E. destruct (anr_sessions d !! s'); [|done]. injection E as <- _. apply Hsame. cbn. destruct (anr_pending d); cbn; by rewrite lookup_insert_ne.
  - injection E as <- _. by apply Hsame.
  - injection E as <- _. by apply Hsame.
  - destruct (anr_pending d) eqn:Ep; [assert (d' = (handle_ping_cycle d).1) as -> by (by injection E as <- _)|injection E as <- _].
    + destruct (cycle_parts d) as [Es _]. rewrite Es, lookup_fmap, Hc. eexists. split; [done|]. destruct c as [[] []]; cbn; lia.
    + exists c. split; [done|]. destruct (flagged_as_unresponsive c) eqn:Ef; [unfold stage; rewrite Ef; lia|]. by rewrite (Ha s c Hc Ef) in Ep.
Qed.

(** *** Runs *)
Record AnrInv (d : Detector) (bs : gset (Z * Z)) : Prop := { ai_belief : BeliefInv d bs; ai_alarm : AlarmInv d }.
Lemma new_detector_inv : AnrInv new_detector ∅.
Proof. split; [split; [done|set_solver]|done]. Qed.
Lemma proper_run_ok steps d bs : AnrInv d bs -> proper_run d steps = true -> exists d' bs', anr_run d bs steps = Ret (d', bs') /\ AnrInv d' bs'.
Proof.
  revert d bs. induction steps as [|st steps IH]; intros d bs Hi Hp; [by exists d, bs|]. cbn [proper_run anr_run] in *. apply andb_true_iff in Hp as [Hst Hp].
  destruct (anr_step d st) as [[d1 calls]|] eqn:E; [|done]. cbn [mbind outcome_bind]. apply IH; [|done]. destruct Hi as [H1 H2].
  split; [by eapply anr_step_believed|by eapply anr_step_alarm].
Qed.
Lemma anr_run_app d bs pre post : anr_run d bs (pre ++ post) = ('(d, bs) ← anr_run d bs pre; anr_run d bs post).
Proof.
  revert d bs. induction pre as [|st pre IH]; intros d bs; [done|]. cbn [app anr_run]. destruct (anr_step d st) as [[d1 calls]|]; cbn [mbind outcome_bind]; [apply IH|done].
Qed.
Lemma proper_run_app d bs pre post : proper_run d (pre ++ post) = true ->
  proper_run d pre = true /\ forall d' bs', anr_run d bs pre = Ret (d', bs') -> proper_run d' post = true.
Proof.
  revert d bs. induction pre as [|st pre IH]; intros d bs H; [split; [done|]; by intros d' bs' [= <- <-]|].
  cbn [app proper_run anr_run] in *. apply andb_true_iff in H as [Hst H]. rewrite Hst. destruct (anr_step d st) as [[d1 calls]|]; [|done]. by apply IH.
Qed.
Lemma unheard_run s steps d bs c : AnrInv d bs -> proper_run d steps = true -> forallb (nothing_heard s) steps = true -> anr_sessions d !! s = Some c ->
  exists d' bs' c', anr_run d bs steps = Ret (d', bs') /\ AnrInv d' bs' /\ anr_sessions d' !! s = Some c' /\ (Nat.min 2 (stage c + ticks steps) <= stage c')%nat.
Proof.
  revert d bs c. induction steps as [|st steps IH]; intros d bs c Hi Hp Hs Hc; [exists d, bs, c; split; [done|]; split; [done|]; split; [done|]; change (ticks []) with 0%nat; lia|].
  cbn [proper_run anr_run forallb] in *. apply andb_true_iff in Hp as [Hst Hp], Hs as [Hs1 Hs]. destruct (anr_step d st) as [[d1 calls]|] eqn:E; [|done]. cbn [mbind outcome_bind].
  destruct Hi as [H1 H2]. destruct (unheard_step _ _ _ _ _ _ H2 E Hs1 Hc) as (c1 & Hc1 & Hst1).
  destruct (IH d1 (foldl belief_step (forget_ended st bs) calls) c1) as (d' & bs' & c' & E' & Hi' & Hc' & Hst'); [|done..|].
  - split; [by eapply anr_step_believed|by eapply anr_step_alarm].
  - exists d', bs', c'. split; [done|]. split; [done|]. split; [done|]. cbn [ticks sum_list_with]. unfold ticks in Hst'. lia.
Qed.

(** C26: (liveness) A session that is registered and stops answering is found out:
    whatever else happens, once the time of the alarm has come twice without an
    answer the session is flagged and every observer that is registered takes it
    for unresponsive; the alarm is set as long as there is a session to watch. *)
Theorem unresponsive_found pre post s d bs c :
  anr_run new_detector ∅ pre = Ret (d, bs) -> anr_sessions d !! s = Some c -> proper_run new_detector (pre ++ post) = true ->
  forallb (nothing_heard s) post = true -> (2 <= ticks post)%nat ->
  exists d' bs' c', anr_run new_detector ∅ (pre ++ post) = Ret (d', bs') /\ anr_sessions d' !! s = Some c' /\
    flagged_as_unresponsive c' = true /\ forall o, o ∈ anr_observers d' -> (o, s) ∈ bs'.
Proof.
  intros E Hc Hp Hs Ht. destruct (proper_run_app _ ∅ _ _ Hp) as [Hp1 Hp2]. destruct (proper_run_ok pre _ ∅ new_detector_inv Hp1) as (d1 & bs1 & E1 & Hi).
  rewrite E in E1. injection E1 as <- <-. destruct (unheard_run s post d bs c Hi (Hp2 _ _ E) Hs Hc) as (d' & bs' & c' & E' & [[Hb _] _] & Hc' & Hst).
  exists d', bs', c'. rewrite anr_run_app, E. split; [exact E'|]. split; [done|].
  assert (Hf : flagged_as_unresponsive c' = true) by (unfold stage in Hst; destruct (flagged_as_unresponsive c'), (replied_since_last_ping c'); (done || lia)).
  split; [done|]. intros o Ho. by apply (Hb o s c').
Qed.

(** ** No false alarms *)
(** The session answers between any two times of the alarm. *)
Fixpoint punctual (s : Z) (awaited : bool) (steps : list AnrStep) : bool :=
  match steps with
  | [] => true
  | ATick :: steps => negb awaited && punctual s true steps
  | APong s' :: steps => punctual s (if bool_decide (s = s') then false else awaited) steps
  | _ :: steps => punctual s awaited steps
  end.
Definition PunctualInv (s : Z) (awaited : bool) (d : Detector) : Prop :=
  forall c, anr_sessions d !! s = Some c -> flagged_as_unresponsive c = false /\ (awaited = false -> replied_since_last_ping c = true).
Definition awaited_after (s : Z) (awaited : bool) (st : AnrStep) : bool :=
  match st with ATick => true | APong s' => if bool_decide (s = s') then false else awaited | _ => awaited end.
Lemma punctual_step s awaited d st d' calls : PunctualInv s awaited d -> anr_step d st = Ret (d', calls) -> (st = ATick -> awaited = false) ->
  PunctualInv s (awaited_after s awaited st) d'.
Proof.
  intros Hi E Ht c Hc. destruct st as [s'|s'|s'|o|o|]; cbn [anr_step awaited_after] in *.
  - injection E as <- _. unfold anr_register_session in Hc. cbn in Hc. assert (Hl : <[s' := mkANRContext true false]> (anr_sessions d) !! s = Some c) by (by destruct (anr_pending d)).
    destruct (decide (s = s')) as [<-|Hne]; [rewrite lookup_insert_eq in Hl; by injection Hl as <-|]. rewrite lookup_insert_ne in Hl by done. by apply Hi.
  - injection E as <- _. cbn in Hc. apply lookup_delete_Some in Hc as [_ Hc]. by apply Hi.
  - unfold pong_received in E. destruct (anr_sessions d !! s'); [|done]. injection E as <- _. cbn in Hc.
    assert (Hl : <[s' := mkANRContext true false]> (anr_sessions d) !! s = Some c) by (by destruct (anr_pending d)).
    case_bool_decide as Hss; [subst s'; rewrite lookup_insert_eq in Hl; by injection Hl as <-|]. rewrite lookup_insert_ne in Hl by done. by apply Hi.
  - injection E as <- _. by apply Hi.
  - injection E as <- _. by apply Hi.
  - destruct (anr_pending d); [assert (d' = (handle_ping_cycle d).1) as -> by (by injection E as <- _)|injection E as <- _].
    + destruct (cycle_parts d) as [Es _]. rewrite Es, lookup_fmap in Hc. destruct (anr_sessions d !! s) as [c0|] eqn:E0; [|done]. injection Hc as <-.
      destruct (Hi c0 E0) as [Hf Hr]. rewrite cycle_flag. unfold newly_unresponsive. by rewrite Hf, Hr by auto.
    + split; [by apply Hi|done].
Qed.
Lemma punctual_run s awaited steps d bs d' bs' : PunctualInv s awaited d -> punctual s awaited steps = true -> anr_run d bs steps = Ret (d', bs') ->
  exists awaited', PunctualInv s awaited' d'.
Proof.
  revert d bs awaited. induction steps as [|st steps IH]; intros d bs awaited Hi Hp E; [injection E as <- <-; by exists awaited|].
  cbn [anr_run] in E. destruct (anr_step d st) as [[d1 calls]|] eqn:Est; [|done]. cbn [mbind outcome_bind] in E.
  assert (Hp' : (st = ATick -> awaited = false) /\ punctual s (awaited_after s awaited st) steps = true).
  { destruct st; cbn in Hp; try done. apply andb_true_iff in Hp as [Ha Hp]. by destruct awaited. }
  destruct Hp' as [Ht Hp']. eapply IH; [by eapply punctual_step|exact Hp'|exact E].
Qed.

(** C27: (safety) The observers know the sessions that do not respond, if the calls
    come one after another (an answer between the locked part of a ping cycle and
    its report leaves them wrong: [answer_overtakes_report]), only registered
    sessions answer and none is registered twice: after every sequence of calls
    each observer that is registered, whenever it was, takes
    exactly the flagged sessions for unresponsive, and nobody ever takes a session
    for unresponsive that answers between any two times of the alarm. *)
Theorem observers_know_unresponsive steps : proper_run new_detector steps = true ->
  exists d bs, anr_run new_detector ∅ steps = Ret (d, bs) /\
    (forall o s c, o ∈ anr_observers d -> anr_sessions d !! s = Some c -> (o, s) ∈ bs <-> flagged_as_unresponsive c = true) /\
    (forall s, punctual s false steps = true -> forall o, (o, s) ∉ bs).
Proof.
  intros Hp. destruct (proper_run_ok steps _ ∅ new_detector_inv Hp) as (d & bs & E & [[H1 H2] _]). exists d, bs. split; [done|]. split; [done|].
  intros s Hs o Hb. destruct (H2 o s Hb) as [Ho [c Hc]]. apply (H1 o s c Ho Hc) in Hb.
  destruct (punctual_run s false steps new_detector ∅ d bs) as [a Ha]; [by intros c'|done|done|]. destruct (Ha c Hc). congruence.
Qed.

(** ** Concrete runs *)
Definition example_watch : list AnrStep := [AObserve 7; ARegister 1; ARegister 2; ATick; APong 1].
Definition example_silence : list AnrStep := [ATick; APong 1; AObserve 8; ATick].
Definition watched : Detector := mkDetector {[1 := mkANRContext true false; 2 := mkANRContext false false]} {[7]} true.
Lemma unresponsive_found_witness :
  exists d' bs' c', anr_run new_detector ∅ (example_watch ++ example_silence) = Ret (d', bs') /\ anr_sessions d' !! 2 = Some c' /\
    flagged_as_unresponsive c' = true /\ forall o, o ∈ anr_observers d' -> (o, 2) ∈ bs'.
Proof. apply (unresponsive_found example_watch example_silence 2 watched ∅ (mkANRContext false false)); vm_compute; first [reflexivity|lia]. Defined.
Lemma observers_know_unresponsive_witness :
  exists d bs, anr_run new_detector ∅ (example_watch ++ example_silence) = Ret (d, bs) /\
    (forall o s c, o ∈ anr_observers d -> anr_sessions d !! s = Some c -> (o, s) ∈ bs <-> flagged_as_unresponsive c = true) /\
    (forall s, punctual s false (example_watch ++ example_silence) = true -> forall o, (o, s) ∉ bs).
Proof. apply (observers_know_unresponsive (example_watch ++ example_silence)). vm_compute. reflexivity. Defined.

(** The observers are called without the lock: a session that answers after it
    has been flagged and before they have been told is taken for unresponsive
    although it is not. *)
Example answer_overtakes_report :
  let d := mkDetector {[1 := mkANRContext false false]} {[7]} false in
  let '(d1, _, unresponsive, _) := ping_sessions d in
  exists d2 calls, pong_received d1 1 = Ret (d2, calls) /\ anr_sessions d2 = {[1 := mkANRContext true false]} /\
    foldl belief_step ∅ (calls ++ (unresponsive ≫= notify_all call_unresponsive d2)) = {[(7, 1)]}.
Proof. do 2 eexists. split; [reflexivity|]. by split; vm_compute. Qed.
(** A flagged session that is registered again is responsive without a word to
    the observers. *)
Example registered_again :
  anr_step (mkDetector {[1 := mkANRContext false true]} {[7]} false) (ARegister 1) = Ret (mkDetector {[1 := mkANRContext true false]} {[7]} true, []).
Proof. reflexivity. Qed.
