(* ===== verification/WlXdg.v ===== *)
(** * XDG windows

    [WaylandExecutor], [WaylandSurfaceObserver] and the XDG shell
    ([wayland_executor.cpp], [wayland_surface_observer.cpp] and
    [xdg_shell_stable.cpp] of [src/server/frontend_wayland]): how toplevel
    windows and popups are told what becomes of them, what their requests ask of
    the window of [WlWindows], and where popups are put. *)
From S2P Require Import Prelude Geometry WindowInfo Placement SurfaceSpec WlSurfaces WlWindows DecorInput.

(** ** The executor of the Wayland thread *)
Inductive ExecutionState := ExRunning | ExTerminationRequested | ExStopped.
#[export] Instance ExecutionState_eq_dec : EqDecision ExecutionState.
Proof. solve_decision. Defined.
Record Executor (W : Type) := mkExecutor { ex_state : ExecutionState; workqueue : list W }.
Arguments mkExecutor {W}.
Arguments ex_state {W}.
Arguments workqueue {W}.

(** What comes from the Wayland thread is run at once: the second result. *)
Definition enqueue {W} (on_wayland_thread : bool) (work : W) (e : Executor W) : Executor W * option W :=
  if on_wayland_thread then (e, Some work)
  else if bool_decide (ex_state e = ExRunning) then (mkExecutor (ex_state e) (workqueue e ++ [work]), None)
  else (e, None).
Definition get_work {W} (e : Executor W) : Executor W * option W :=
  match workqueue e with [] => (e, None) | work :: rest => (mkExecutor (ex_state e) rest, Some work) end.
(** The flag that marks the Wayland thread, which comes with each call here, is
    cleared too. *)
Definition enqueue_termination {W} (terminator : W) (e : Executor W) : Executor W :=
  if bool_decide (ex_state e = ExRunning) then mkExecutor ExTerminationRequested (terminator :: workqueue e) else e.
(** The state, what the queue holds and what is run.  An empty function is left
    in the place of the terminator, and all that waits stays:
    [workqueue.empty()] only asks whether the queue is empty. *)
Definition executor_drain {W} (e : Executor W) : outcome (ExecutionState * list (option W) * list W) :=
  if bool_decide (ex_state e = ExTerminationRequested) then
    match workqueue e with
    | work :: rest => Ret (ExStopped, None :: (Some <$> rest), [work])
    | [] => Throw null_dereference
    end
  else Ret (ExStopped, Some <$> workqueue e, []).

(** ** The observer of a window *)
(** What the scene surface tells its observer. *)
Inductive SceneNote :=
| note_focus (has_focus : bool)
| note_state (st : MirWindowState)
| note_resized (content_size : Size)
| note_close
| note_placed (placement : Rectangle).
#[export] Instance SceneNote_eq_dec : EqDecision SceneNote.
Proof. solve_decision. Defined.
Record WlObserver := mkObserver {
  ob_window_size : Size;
  ob_requested_size : option Size;
  ob_state : MirWindowState;
  ob_destroyed : bool
}.
#[export] Instance WlObserver_eta : EtaExpansion WlObserver := fun o => mkObserver (ob_window_size o) (ob_requested_size o) (ob_state o) (ob_destroyed o).
Definition new_observer : WlObserver := mkObserver (mkSize 0 0) None mir_window_state_unknown false.

(** What an observer does with a note ([keymap_changed] and the events go to the
    dispatcher of [WlInput]): itself afterwards and what of the window
    is called. *)
Inductive WindowCall := handle_active_change | handle_state_change (st : MirWindowState) | handle_resize (top_left : option Point) (size : Size) | handle_close_request.
Definition observe_note (n : SceneNote) (o : WlObserver) : WlObserver * option WindowCall :=
  match n with
  | note_focus _ => (o, Some handle_active_change)
  | note_state st => (o <| ob_state := st |>, Some (handle_state_change st))
  | note_resized size =>
      if bool_decide (size <> ob_window_size o) then (o <| ob_requested_size := Some size |>, Some (handle_resize None size)) else (o, None)
  | note_close => (o, Some handle_close_request)
  | note_placed r => (o <| ob_requested_size := Some (r_size r) |>, Some (handle_resize (Some (top_left r)) (r_size r)))
  end.
Definition latest_client_size (size : Size) (o : WlObserver) : WlObserver := o <| ob_window_size := size |>.
Definition disconnect (o : WlObserver) : WlObserver := o <| ob_destroyed := true |>.

(** ** Toplevel windows *)
Inductive XdgEvent :=
| toplevel_configure (w h : Z) (states : list Z)
| popup_configure (x y w h : Z)
| surface_configure (serial : Z)
| toplevel_close
| popup_done.
Definition state_maximized : Z := 1.
Definition state_fullscreen : Z := 2.
Definition state_activated : Z := 4.
Definition window_state_flags (st : MirWindowState) : list Z :=
  match st with
  | mir_window_state_maximized | mir_window_state_horizmaximized | mir_window_state_vertmaximized => [state_maximized]
  | mir_window_state_fullscreen => [state_fullscreen]
  | _ => []
  end.
Definition toplevel_states (active : bool) (st : MirWindowState) : list Z := (if active then [state_activated] else []) ++ window_state_flags st.

(** [XdgSurfaceStable::send_configure]; serials are counted by the display, in 32
    bits. *)
Definition send_configure (serial : Z) : Z * list XdgEvent := (to_uint32 (serial + 1), [surface_configure (to_uint32 (serial + 1))]).
Definition send_toplevel_configure (active : bool) (o : WlObserver) (serial : Z) : Z * list XdgEvent :=
  let size := default (mkSize 0 0) (ob_requested_size o) in
  let '(serial, done_event) := send_configure serial in
  (serial, toplevel_configure (width size) (height size) (toplevel_states active (ob_state o)) :: done_event).
Definition new_toplevel (serial : Z) : Z * list XdgEvent :=
  let '(serial, done_event) := send_configure serial in (serial, toplevel_configure 0 0 [] :: done_event).
Definition toplevel_handle (c : WindowCall) (active : bool) (o : WlObserver) (serial : Z) : Z * list XdgEvent :=
  match c with
  | handle_close_request => (serial, [toplevel_close])
  | _ => send_toplevel_configure active o serial
  end.

Definition edge_of (edges : Z) : ResizeEdge :=
  if edges =? 1 then edge_north
  else if edges =? 2 then edge_south
  else if edges =? 4 then edge_west
  else if edges =? 8 then edge_east
  else if edges =? 5 then edge_northwest
  else if edges =? 6 then edge_southwest
  else if edges =? 9 then edge_northeast
  else if edges =? 10 then edge_southeast
  else edge_none.
(** The requests of a toplevel window: as operations of its window, where those
    that are carried out at once come with the surface as it is, or as an
    interactive move or resize that the shell is asked to begin. *)
Inductive ToplevelRequest :=
| TlParent (parent : option Window) | TlTitle (title : string) | TlAppId (id : string) | TlMenu | TlMove | TlResize (edges : Z) | TlMax (w h : Z) | TlMin (w h : Z)
| TlMaximized | TlUnmaximized | TlFullscreen (output : option Z) | TlUnfullscreen | TlMinimized.
Inductive ToplevelEffect := window_ops (ops : list WinOp) | initiate_interactive_move | initiate_interactive_resize (edge : ResizeEdge).
Definition toplevel_request (r : ToplevelRequest) (buffer_size : option Size) (data : SurfaceData) : ToplevelEffect :=
  match r with
  | TlParent p => window_ops [WParent p]
  | TlTitle t => window_ops [WTitle t]
  | TlAppId i => window_ops [WAppId i]
  | TlMenu => window_ops []
  | TlMove => initiate_interactive_move
  | TlResize edges => initiate_interactive_resize (edge_of edges)
  | TlMax w h => window_ops [WMax w h]
  | TlMin w h => window_ops [WMin w h]
  | TlMaximized => window_ops [WState mir_window_state_maximized None buffer_size data]
  | TlUnmaximized | TlUnfullscreen => window_ops [WState mir_window_state_restored None buffer_size data]
  | TlFullscreen output => window_ops [WState mir_window_state_fullscreen output buffer_size data]
  | TlMinimized => window_ops [WState mir_window_state_minimized None buffer_size data]
  end.

(** ** Popups *)
Record Popup := mkPopup { cached_top_left : option Point; cached_size : option Size }.
#[export] Instance Popup_eta : EtaExpansion Popup := fun p => mkPopup (cached_top_left p) (cached_size p).
Definition popup_resize (new_top_left : option Point) (new_size : Size) (p : Popup) (serial : Z) : Popup * Z * list XdgEvent :=
  let needs_configure := bool_decide (new_top_left <> cached_top_left p) || bool_decide (Some new_size <> cached_size p) in
  let p := mkPopup (or_keep new_top_left (cached_top_left p)) (Some new_size) in
  match cached_top_left p, cached_size p with
  | Some tl, Some size =>
      if needs_configure then
        let '(serial, done_event) := send_configure serial in
        (p, serial, popup_configure (px tl) (py tl) (width size) (height size) :: done_event)
      else (p, serial, [])
  | _, _ => (p, serial, [])
  end.
Definition popup_handle (c : WindowCall) (p : Popup) (serial : Z) : Popup * Z * list XdgEvent :=
  match c with
  | handle_resize tl size => popup_resize tl size p serial
  | handle_close_request => (p, serial, [popup_done])
  | _ => (p, serial, [])
  end.

(** A positioner is a specification. *)
Abbreviation Positioner := SurfaceSpecification (only parsing).
Definition new_positioner : Positioner :=
  surface_spec_empty <| ss_surface_placement_gravity := Some mir_placement_gravity_center |> <| ss_aux_rect_placement_gravity := Some mir_placement_gravity_center |>.
Definition positioner_set_size (w h : Z) (p : Positioner) : Positioner := p <| ss_width := Some w |> <| ss_height := Some h |>.
Definition positioner_set_anchor_rect (x y w h : Z) (p : Positioner) : Positioner := p <| ss_aux_rect := Some (mkRectangle (mkPoint x y) (mkSize w h)) |>.
Definition positioner_set_offset (x y : Z) (p : Positioner) : Positioner :=
  p <| ss_aux_rect_placement_offset_x := Some x |> <| ss_aux_rect_placement_offset_y := Some y |>.
(** The enumerators of anchors and gravities are 1 top, 2 bottom, 3 left,
    4 right, 5 top left, 6 bottom left, 7 top right, 8 bottom right. *)
Definition anchor_placement (anchor : Z) : MirPlacementGravity :=
  if anchor =? 1 then mir_placement_gravity_north
  else if anchor =? 2 then mir_placement_gravity_south
  else if anchor =? 3 then mir_placement_gravity_west
  else if anchor =? 4 then mir_placement_gravity_east
  else if anchor =? 5 then mir_placement_gravity_northwest
  else if anchor =? 6 then mir_placement_gravity_southwest
  else if anchor =? 7 then mir_placement_gravity_northeast
  else if anchor =? 8 then mir_placement_gravity_southeast
  else mir_placement_gravity_center.
Definition gravity_placement (gravity : Z) : MirPlacementGravity :=
  if gravity =? 1 then mir_placement_gravity_south
  else if gravity =? 2 then mir_placement_gravity_north
  else if gravity =? 3 then mir_placement_gravity_east
  else if gravity =? 4 then mir_placement_gravity_west
  else if gravity =? 5 then mir_placement_gravity_southeast
  else if gravity =? 6 then mir_placement_gravity_northeast
  else if gravity =? 7 then mir_placement_gravity_southwest
  else if gravity =? 8 then mir_placement_gravity_northwest
  else mir_placement_gravity_center.
Definition positioner_set_anchor (anchor : Z) (p : Positioner) : Positioner := p <| ss_aux_rect_placement_gravity := Some (anchor_placement anchor) |>.
Definition positioner_set_gravity (gravity : Z) (p : Positioner) : Positioner := p <| ss_surface_placement_gravity := Some (gravity_placement gravity) |>.

(** [XdgPopupStable::XdgPopupStable]: the positioner itself is changed.  The
    parent is the scene surface of the parent's role, if it has one. *)
Definition popup_spec (parent : option Window) (p : Positioner) : Positioner :=
  let p := p <| ss_type := Some mir_window_type_freestyle |>
             <| ss_placement_hints := Some (Z.lor mir_placement_hints_slide_x mir_placement_hints_slide_y) |> in
  match parent with Some w => p <| ss_parent := Some (Some w) |> | None => p end.
Definition new_popup (params : SurfaceCreationParameters) (parent : option Window) (p : Positioner) : WlWindow * Popup * Positioner :=
  let p := popup_spec parent p in
  (apply_spec p (new_window params), mkPopup None None, p).

(** ** The role of an XDG surface *)
(** [window_role_] with [window_role_destroyed]: the role and whether it has been
    destroyed since. *)
Record XdgSurface := mkXdgSurface { window_role_ : option Z; window_role_destroyed : bool }.
Definition window_role (x : XdgSurface) : XdgSurface * option Z :=
  match window_role_ x with
  | Some r => if window_role_destroyed x then (mkXdgSurface None false, None) else (x, Some r)
  | None => (x, None)
  end.
(** The offset of the surface and the operations of the window, if there is one. *)
Definition set_window_geometry (gx gy w h : Z) (x : XdgSurface) : XdgSurface * option (Displacement * list WinOp) :=
  let '(x, role) := window_role x in
  (x, match role with Some _ => Some (mkDisplacement (- gx) (- gy), [WWidth (Some w); WHeight (Some h)]) | None => None end).
Definition set_window_role (r : Z) (x : XdgSurface) : XdgSurface := mkXdgSurface (Some r) false.

(** ** A toplevel window and what its client has been told *)
(** The focus and the state of the scene surface, the observer, the executor,
    the serial of the display and the events sent so far. *)
Record TopWorld := mkTopWorld {
  tw_focus : bool;
  tw_state : MirWindowState;
  tw_observer : WlObserver;
  tw_executor : Executor SceneNote;
  tw_serial : Z;
  tw_events : list XdgEvent
}.
#[export] Instance TopWorld_eta : EtaExpansion TopWorld := fun w =>
  mkTopWorld (tw_focus w) (tw_state w) (tw_observer w) (tw_executor w) (tw_serial w) (tw_events w).

(** A piece of work on the Wayland thread: [run_unless(destroyed, work)]. *)
Definition top_work (n : SceneNote) (w : TopWorld) : TopWorld :=
  if ob_destroyed (tw_observer w) then w
  else
    let '(o, call) := observe_note n (tw_observer w) in
    let w := w <| tw_observer := o |> in
    match call with
    | Some c => let '(serial, events) := toplevel_handle c (tw_focus w) o (tw_serial w) in
                w <| tw_serial := serial |> <| tw_events := tw_events w ++ events |>
    | None => w
    end.
Definition top_spawn (on_wayland_thread : bool) (n : SceneNote) (w : TopWorld) : TopWorld :=
  let '(e, now) := enqueue on_wayland_thread n (tw_executor w) in
  let w := w <| tw_executor := e |> in
  match now with Some n => top_work n w | None => w end.

(** The shell changes the surface, from the Wayland thread or another one; the
    client commits; the Wayland thread does a piece of work. *)
Inductive TopStep :=
| TFocus (on_wayland_thread focus : bool)
| TState (on_wayland_thread : bool) (st : MirWindowState)
| TResized (on_wayland_thread : bool) (content_size : Size)
| TPlaced (on_wayland_thread : bool) (placement : Rectangle)
| TClose (on_wayland_thread : bool)
| TCommit (size : Size)
| TWork.
Definition top_step (w : TopWorld) (st : TopStep) : TopWorld :=
  match st with
  | TFocus t f => if Bool.eqb f (tw_focus w) then w else top_spawn t (note_focus f) (w <| tw_focus := f |>)
  | TState t s => if bool_decide (s = tw_state w) then w else top_spawn t (note_state s) (w <| tw_state := s |>)
  | TResized t size => top_spawn t (note_resized size) w
  | TPlaced t r => top_spawn t (note_placed r) w
  | TClose t => top_spawn t note_close w
  | TCommit size => w <| tw_observer := latest_client_size size (tw_observer w) |>
  | TWork => let '(e, n) := get_work (tw_executor w) in
             let w := w <| tw_executor := e |> in
             match n with Some n => top_work n w | None => w end
  end.
Definition new_top_world (st : MirWindowState) (serial : Z) : TopWorld :=
  let '(serial, events) := new_toplevel serial in mkTopWorld false st new_observer (mkExecutor ExRunning []) serial events.

(** What the client has been told last. *)
Definition last_told (events : list XdgEvent) : option (Z * Z * list Z) :=
  last (omap (fun e => match e with toplevel_configure w h s => Some (w, h, s) | _ => None end) events).
Definition is_state_note (n : SceneNote) : option MirWindowState := match n with note_state st => Some st | _ => None end.
(** The state that the last note in the queue tells, or the observer's. *)
Definition coming_state (w : TopWorld) : MirWindowState := default (ob_state (tw_observer w)) (last (omap is_state_note (workqueue (tw_executor w)))).
Definition focus_note_waits (w : TopWorld) : Prop := exists f, note_focus f ∈ workqueue (tw_executor w).
Definition size_told (o : WlObserver) : Z * Z := let size := default (mkSize 0 0) (ob_requested_size o) in (width size, height size).

Record TopInv (w : TopWorld) : Prop := {
  ti_alive : ob_destroyed (tw_observer w) = false;
  ti_running : ex_state (tw_executor w) = ExRunning;
  ti_told : exists active, last_told (tw_events w) = Some (size_told (tw_observer w), toplevel_states active (ob_state (tw_observer w))) /\
              (active = tw_focus w \/ focus_note_waits w)
}.
(** The state that will be told is that of the window, as far as it shows. *)
Definition state_coming (w : TopWorld) : Prop := window_state_flags (coming_state w) = window_state_flags (tw_state w).

Lemma told_app a b : last_told (a ++ b) = match last_told b with Some t => Some t | None => last_told a end.
Proof.
  unfold last_told. rewrite omap_app. set (x := omap _ a). set (y := omap _ b). destruct y as [|t y] using rev_ind; [by rewrite app_nil_r|].
  by rewrite app_assoc, !last_snoc.
Qed.
(** What one piece of work does to the observer and to what is told. *)
Lemma top_work_spec n w : ob_destroyed (tw_observer w) = false ->
  let w' := top_work n w in
  tw_focus w' = tw_focus w /\ tw_state w' = tw_state w /\ tw_executor w' = tw_executor w /\ ob_destroyed (tw_observer w') = false /\
  ob_state (tw_observer w') = default (ob_state (tw_observer w)) (is_state_note n) /\
  (last_told (tw_events w') = Some (size_told (tw_observer w'), toplevel_states (tw_focus w) (ob_state (tw_observer w'))) \/
   (last_told (tw_events w') = last_told (tw_events w) /\ size_told (tw_observer w') = size_told (tw_observer w) /\ (forall f, n <> note_focus f) /\ is_state_note n = None)).
Proof.
  intros Hd. unfold top_work. rewrite Hd. destruct n as [f|st|size| |r]; cbn [observe_note]; [| |case_bool_decide| |]; cbn; rewrite ?told_app;
    repeat (split; [done|]); first [by left | by right | idtac].
Qed.
Definition state_waits (w : TopWorld) : bool := negb (bool_decide (omap is_state_note (workqueue (tw_executor w)) = [])).
(** The Wayland thread does not change the state while a change by another
    thread still waits to be told. *)
Definition in_order (w : TopWorld) (st : TopStep) : bool := match st with TState true _ => negb (state_waits w) | _ => true end.

(** A note that is told at once. *)
Definition told_or_waits (n : SceneNote) (w : TopWorld) : Prop :=
  exists active, last_told (tw_events w) = Some (size_told (tw_observer w), toplevel_states active (ob_state (tw_observer w))) /\
    (active = tw_focus w \/ focus_note_waits w \/ exists f, n = note_focus f).
Lemma top_work_ok n w : ob_destroyed (tw_observer w) = false -> ex_state (tw_executor w) = ExRunning -> told_or_waits n w -> TopInv (top_work n w).
Proof.
  intros Hd Hr (a & Ht & Ha). destruct (top_work_spec n w Hd) as (E1 & E2 & E3 & E4 & E5 & E6). split; [done|by rewrite E3|].
  unfold focus_note_waits. rewrite E1, E3. destruct E6 as [E6|(E6 & Esz & Hn & Hst)]; [exists (tw_focus w); by split; [|left]|].
  exists a. rewrite E6, Esz, E5, Hst. split; [exact Ht|]. destruct Ha as [|[|[f ->]]]; [by left|by right|by destruct (Hn f)].
Qed.
Lemma last_omap_snoc {A B} (f : A -> option B) l x : last (omap f (l ++ [x])) = match f x with Some y => Some y | None => last (omap f l) end.
Proof. rewrite omap_app. cbn. destruct (f x); [apply last_snoc|by rewrite app_nil_r]. Qed.
(** A note that has to wait, or is told at once. *)
Lemma top_spawn_ok t n w : ob_destroyed (tw_observer w) = false -> ex_state (tw_executor w) = ExRunning -> told_or_waits n w -> TopInv (top_spawn t n w).
Proof.
  intros Hd Hr Ht. unfold top_spawn, enqueue. destruct t; cbn; [by apply top_work_ok|].
  rewrite Hr, bool_decide_true by done. destruct Ht as (a & Ht & Ha). split; cbn; [done|done|].
  exists a. split; [done|]. unfold focus_note_waits. cbn. setoid_rewrite elem_of_app. destruct Ha as [|[[f Hf]|[f ->]]]; [by left|right; exists f; by left|].
  right. exists f. right. by apply list_elem_of_singleton.
Qed.
Lemma spawn_state_coming t n w : ob_destroyed (tw_observer w) = false -> ex_state (tw_executor w) = ExRunning ->
  match is_state_note n with
  | Some st => window_state_flags st = window_state_flags (tw_state w) /\ (t = true -> state_waits w = false)
  | None => state_coming w
  end -> state_coming (top_spawn t n w).
Proof.
  intros Hd Hr Hs. unfold top_spawn, enqueue, state_coming in *. destruct t; cbn.
  - destruct (top_work_spec n w Hd) as (_ & E2 & E3 & _ & E5 & _). replace (w <| tw_executor := tw_executor w |>) with w by (by destruct w).
    unfold coming_state in *. rewrite E2, E3, E5. destruct (is_state_note n) as [st|]; [|done]. destruct Hs as [Hs Hw].
    specialize (Hw eq_refl). unfold state_waits in Hw. apply negb_false_iff, bool_decide_eq_true in Hw. by rewrite Hw.
  - rewrite Hr, bool_decide_true by done. unfold coming_state in *. cbn. rewrite last_omap_snoc. destruct (is_state_note n) as [st|]; [by destruct Hs|exact Hs].
Qed.
Lemma weaken_told w n : TopInv w -> told_or_waits n w.
Proof. intros [_ _ (a & Ht & Ha)]. exists a. split; [done|]. tauto. Qed.
Lemma top_step_ok w st : TopInv w -> TopInv (top_step w st).
Proof.
  intros Hi. pose proof (fun n => weaken_told w n Hi) as Hw. destruct (id Hi) as [Hd Hr (a & Ht & Ha)].
  destruct st as [t f|t s|t size|t r|t|size|]; cbn [top_step]; try (by apply top_spawn_ok; [..|apply Hw]).
  - destruct (Bool.eqb f (tw_focus w)); [done|]. apply top_spawn_ok; [done..|]. exists a. split; [done|]. right; right. by exists f.
  - case_bool_decide; [done|]. apply top_spawn_ok; [done..|exact (Hw (note_state s))].
  - split; [done|done|by exists a].
  - unfold get_work. destruct (workqueue (tw_executor w)) as [|n q] eqn:Eq; cbn; [by destruct w as [? ? ? [? ?] ? ?]|].
    apply top_work_ok; [done|done|]. exists a. split; [done|]. destruct Ha as [|[f Hf]]; [by left|]. rewrite Eq in Hf.
    apply elem_of_cons in Hf as [<-|Hf]; [right; right; by exists f|right; left; by exists f].
Qed.
Lemma work_state_coming w : TopInv w -> state_coming w -> state_coming (top_step w TWork).
Proof.
  intros Hi Hs. cbn [top_step]. unfold get_work. destruct (workqueue (tw_executor w)) as [|n q] eqn:Eq; cbn; [by destruct w as [? ? ? [? ?] ? ?]|].
  set (w1 := w <| tw_executor := _ |>). destruct (top_work_spec n w1 (ti_alive _ Hi)) as (_ & E2 & E3 & _ & E5 & _).
  unfold state_coming, coming_state in *. rewrite E2, E3, E5. rewrite Eq in Hs. cbn in Hs |- *. rewrite <- Hs. destruct (is_state_note n) as [st|]; cbn; [|done].
  destruct (omap is_state_note q) as [|x l] using rev_ind; [done|]. by rewrite app_comm_cons, !last_snoc.
Qed.
Lemma step_state_coming w st : TopInv w -> state_coming w -> in_order w st = true -> state_coming (top_step w st).
Proof.
  intros Hi Hs Ho. destruct (id Hi) as [Hd Hr _].
  destruct st as [t f|t s|t size|t r|t|size|]; [| |by apply spawn_state_coming..|done|by apply work_state_coming]; cbn [top_step in_order] in *.
  - destruct (Bool.eqb f (tw_focus w)); [done|]. by apply spawn_state_coming.
  - case_bool_decide; [done|]. apply spawn_state_coming; [done..|]. cbn. split; [done|]. intros ->. by apply negb_true_iff in Ho.
Qed.

(** *** Sizes *)
(** In the order in which the Wayland thread comes to them: the client commits
    a size, the window is resized, the window is placed. *)
Inductive SizeEvent := size_committed (size : Size) | size_resized (size : Size) | size_placed (size : Size).
Definition size_of_note (n : SceneNote) : list SizeEvent :=
  match n with note_resized s => [size_resized s] | note_placed r => [size_placed (r_size r)] | _ => [] end.
Definition size_events (w : TopWorld) (st : TopStep) : list SizeEvent :=
  match st with
  | TCommit s => [size_committed s]
  | TResized true s => [size_resized s]
  | TPlaced true r => [size_placed (r_size r)]
  | TWork => match workqueue (tw_executor w) with n :: _ => size_of_note n | [] => [] end
  | _ => []
  end.
(** The client's size and the size asked of it: that of the last placement, or
    of the last resize that differed from the client's size then. *)
Definition size_rule (x : Size * Size) (e : SizeEvent) : Size * Size :=
  match e with
  | size_committed s => (s, x.2)
  | size_resized s => if bool_decide (s = x.1) then x else (x.1, s)
  | size_placed s => (x.1, s)
  end.
Fixpoint sizes_after (x : Size * Size) (w : TopWorld) (steps : list TopStep) : Size * Size :=
  match steps with [] => x | st :: steps => sizes_after (foldl size_rule x (size_events w st)) (top_step w st) steps end.
Definition sizes_of (o : WlObserver) : Size * Size := (ob_window_size o, default (mkSize 0 0) (ob_requested_size o)).
Lemma work_sizes n w : ob_destroyed (tw_observer w) = false -> sizes_of (tw_observer (top_work n w)) = foldl size_rule (sizes_of (tw_observer w)) (size_of_note n).
Proof.
  intros Hd. unfold top_work. rewrite Hd. destruct n as [f|st|size| |r]; cbn [observe_note size_of_note foldl size_rule]; cbn; try done.
  destruct (decide (size = ob_window_size (tw_observer w))) as [E|E]; [rewrite (bool_decide_false (size <> _)) by tauto|rewrite (bool_decide_true (size <> _)) by done].
  - by rewrite bool_decide_true.
  - by rewrite bool_decide_false.
Qed.
Lemma spawn_sizes t n w : ob_destroyed (tw_observer w) = false ->
  sizes_of (tw_observer (top_spawn t n w)) = foldl size_rule (sizes_of (tw_observer w)) (if t then size_of_note n else []).
Proof. intros Hd. unfold top_spawn, enqueue. destruct t; cbn.
  - replace (w <| tw_executor := tw_executor w |>) with w by (by destruct w). by apply work_sizes.
  - by case_bool_decide.
Qed.
Lemma step_sizes w st : TopInv w -> sizes_of (tw_observer (top_step w st)) = foldl size_rule (sizes_of (tw_observer w)) (size_events w st).
Proof.
  intros [Hd _ _]. destruct st as [t f|t s|t size|t r|t|size|]; cbn [top_step size_events].
  - destruct (Bool.eqb f (tw_focus w)); [done|]. rewrite spawn_sizes by done. by destruct t.
  - case_bool_decide; [done|]. rewrite spawn_sizes by done. by destruct t.
  - rewrite spawn_sizes by done. by destruct t.
  - rewrite spawn_sizes by done. by destruct t.
  - rewrite spawn_sizes by done. by destruct t.
  - done.
  - unfold get_work. destruct (workqueue (tw_executor w)) as [|n q]; [done|]. cbn. set (w1 := w <| tw_executor := _ |>).
    change (sizes_of (tw_observer w)) with (sizes_of (tw_observer w1)). by apply work_sizes.
Qed.

Fixpoint top_run (w : TopWorld) (steps : list TopStep) : TopWorld := match steps with [] => w | st :: steps => top_run (top_step w st) steps end.
Fixpoint all_in_order (w : TopWorld) (steps : list TopStep) : bool :=
  match steps with [] => true | st :: steps => in_order w st && all_in_order (top_step w st) steps end.
Lemma top_run_ok w steps : TopInv w -> TopInv (top_run w steps).
Proof. revert w. induction steps as [|st steps IH]; intros w Hi; [done|]. by apply IH, top_step_ok. Qed.
Lemma run_state_coming w steps : TopInv w -> state_coming w -> all_in_order w steps = true -> state_coming (top_run w steps).
Proof.
  revert w. induction steps as [|st steps IH]; intros w Hi Hs Ho; [done|]. cbn in *. apply andb_true_iff in Ho as [H1 H2].
  apply IH; [by apply top_step_ok|by apply step_state_coming|done].
Qed.
Lemma run_sizes w steps : TopInv w -> sizes_of (tw_observer (top_run w steps)) = sizes_after (sizes_of (tw_observer w)) w steps.
Proof. revert w. induction steps as [|st steps IH]; intros w Hi; [done|]. cbn [top_run sizes_after]. rewrite IH by (by apply top_step_ok). by rewrite step_sizes. Qed.
Lemma top_run_app w a b : top_run w (a ++ b) = top_run (top_run w a) b.
Proof. revert w. induction a as [|st a IH]; intros w; [done|apply IH]. Qed.
Lemma new_top_world_ok st serial : TopInv (new_top_world st serial).
Proof. split; [done|done|]; cbn. exists false. split; [done|by left]. Qed.
Lemma work_shrinks w n q : workqueue (tw_executor w) = n :: q -> workqueue (tw_executor (top_step w TWork)) = q.
Proof.
  intros E. cbn. unfold get_work. rewrite E. cbn. unfold top_work. cbn. destruct (ob_destroyed _); [done|]. destruct (observe_note n _) as [o [c|]]; cbn; [|done].
  by destruct (toplevel_handle c _ o _).
Qed.
Lemma work_off w q : TopInv w -> workqueue (tw_executor w) = q ->
  let w' := top_run w (replicate (length q) TWork) in
  workqueue (tw_executor w') = [] /\ tw_focus w' = tw_focus w /\ tw_state w' = tw_state w /\ (state_coming w -> state_coming w').
Proof.
  revert w. induction q as [|n q IH]; intros w Hi E; [done|]. cbn [length replicate top_run].
  assert (Hs : tw_focus (top_step w TWork) = tw_focus w /\ tw_state (top_step w TWork) = tw_state w).
  { cbn [top_step]. unfold get_work. rewrite E. set (w1 := w <| tw_executor := _ |>). destruct (top_work_spec n w1 (ti_alive _ Hi)) as (E1 & E2 & _).
    by rewrite E1, E2. }
  destruct (IH (top_step w TWork)) as (H1 & H2 & H3 & H4); [by apply top_step_ok|by eapply work_shrinks|]. destruct Hs as [<- <-].
  do 3 (split; [done|]). intros Hc. by apply H4, work_state_coming.
Qed.

(** C23: (refinement) What the client of a toplevel window is told: however the
    focus, the state and the size of the window change, from whatever threads,
    and however much of the work has been done, when the rest of the work has been
    done the last configure event says that the window is activated exactly if it
    has the focus.  It gives the size of the last placement or of the last resize
    that differed from the client's size when its turn came ([size_rule]; a resize
    back to the client's size is not told, see [resize_back_not_told]).  And it
    says maximized or full screen exactly if the window is, as long as it was
    neither at first and its state was not changed from the Wayland thread while
    a change by another thread had still to be told ([all_in_order]; see
    [older_state_told_last]). *)
Theorem toplevel_told st serial steps :
  let w0 := new_top_world st serial in
  let w := top_run w0 steps in
  let work := replicate (length (workqueue (tw_executor w))) TWork in
  let w' := top_run w work in
  let size := (sizes_after (mkSize 0 0, mkSize 0 0) w0 (steps ++ work)).2 in
  workqueue (tw_executor w') = [] /\ tw_focus w' = tw_focus w /\ tw_state w' = tw_state w /\
  exists shown, last_told (tw_events w') = Some ((width size, height size), toplevel_states (tw_focus w) shown) /\
    (window_state_flags st = [] -> all_in_order w0 steps = true -> window_state_flags shown = window_state_flags (tw_state w)).
Proof.
  intros w0 w work w' size. assert (Hi0 : TopInv w0) by apply new_top_world_ok. assert (Hi : TopInv w) by (by apply top_run_ok).
  destruct (work_off w _ Hi eq_refl) as (Hq & Hf & Hs & Hc). fold work w' in Hq, Hf, Hs, Hc. do 3 (split; [done|]).
  destruct (top_run_ok w work Hi) as [_ _ (a & Ht & Ha)]. fold w' in Ht, Ha. exists (ob_state (tw_observer w')). split.
  - pose proof (run_sizes w0 (steps ++ work) Hi0) as Hz. rewrite top_run_app in Hz. apply (f_equal snd) in Hz.
    unfold size_told in Ht. cbn [sizes_of snd] in Hz. change (top_run (top_run w0 steps) work) with w' in Hz. rewrite Hz in Ht.
    destruct Ha as [->|[f Hw]]; [|rewrite Hq in Hw; by apply not_elem_of_nil in Hw]. by rewrite Ht, Hf.
  - intros Hst Ho. assert (H : state_coming w') by (apply Hc, run_state_coming; [done| |done]; unfold state_coming; cbn; by rewrite Hst).
    unfold state_coming, coming_state in H. rewrite Hq, Hs in H. exact H.
Qed.

(** ** Popups are told where they are *)
Definition popup_told (events : list XdgEvent) : option (Z * Z * Z * Z) :=
  last (omap (fun e => match e with popup_configure x y w h => Some (x, y, w, h) | _ => None end) events).
Definition place_of (p : Popup) : option (Z * Z * Z * Z) :=
  match cached_top_left p, cached_size p with Some tl, Some s => Some (px tl, py tl, width s, height s) | _, _ => None end.
Definition popup_step (s : Popup * Z * list XdgEvent) (n : option Point * Size) : Popup * Z * list XdgEvent :=
  let '(p, serial, events) := s in let '(p, serial, more) := popup_resize n.1 n.2 p serial in (p, serial, events ++ more).
(** After any placements and resizes the client has been told the place and the
    size that came last. *)
Lemma popup_knows_place ns serial : let '(p, _, events) := foldl popup_step (mkPopup None None, serial, []) ns in popup_told events = place_of p.
Proof.
  assert (H : forall s : Popup * Z * list XdgEvent, popup_told s.2 = place_of s.1.1 -> popup_told (foldl popup_step s ns).2 = place_of (foldl popup_step s ns).1.1).
  { induction ns as [|[tl size] ns IH]; intros [[p se] ev] Hs; [done|]. cbn [foldl]. apply IH. clear IH ns. cbn in Hs. cbn [popup_step fst snd]. unfold popup_resize. cbn [fst snd].
    destruct p as [ptl ps]. cbn. unfold popup_told in *. destruct (or_keep tl ptl) as [tl'|] eqn:Et; cbn.
    - destruct (_ || _) eqn:En; cbn; rewrite omap_app; cbn; [by rewrite last_snoc|]. rewrite app_nil_r, Hs.
      apply orb_false_iff in En as [E1%bool_decide_eq_false E2%bool_decide_eq_false]. apply dec_stable in E1, E2. subst ps ptl. destruct tl; by simplify_eq/=.
    - rewrite omap_app. cbn. rewrite app_nil_r, Hs. by destruct tl, ptl. }
  specialize (H (mkPopup None None, serial, []) eq_refl). by destruct (foldl popup_step _ ns) as [[p se] ev].
Qed.

(** ** Where popups are put *)
(** The place of a popup by the XDG protocol, along one axis: the anchor is on
    the low side, in the middle or on the high side of the anchor rectangle, and
    the popup extends from the point to the low side, to both or to the high side. *)
Inductive AxisSide := Low | Middle | High.
Definition xdg_axis (anchor gravity : AxisSide) (lo len size offset : Z) : Z :=
  let point := match anchor with Low => lo | Middle => lo + half len | High => lo + len end + offset in
  match gravity with Low => point - size | Middle => point + half (- size) | High => point end.
Definition anchor_point_axis (anchor : AxisSide) (lo len offset : Z) : Z := match anchor with Low => lo | Middle => lo + half len | High => lo + len end + offset.
Definition x_side (e : Z) : AxisSide := if (e =? 3) || (e =? 5) || (e =? 6) then Low else if (e =? 4) || (e =? 7) || (e =? 8) then High else Middle.
Definition y_side (e : Z) : AxisSide := if (e =? 1) || (e =? 5) || (e =? 7) then Low else if (e =? 2) || (e =? 6) || (e =? 8) then High else Middle.
Record PopupRequest := mkPopupRequest { pr_size : Size; pr_rect : Rectangle; pr_anchor : Z; pr_gravity : Z; pr_offset : Displacement }.
(** The rectangle is relative to the parent. *)
Definition xdg_popup_rect (parent : Rectangle) (r : PopupRequest) : Rectangle :=
  let x0 := px (top_left parent) + px (top_left (pr_rect r)) in
  let y0 := py (top_left parent) + py (top_left (pr_rect r)) in
  mkRectangle (mkPoint (xdg_axis (x_side (pr_anchor r)) (x_side (pr_gravity r)) x0 (width (r_size (pr_rect r))) (width (pr_size r)) (dx (pr_offset r)))
                       (xdg_axis (y_side (pr_anchor r)) (y_side (pr_gravity r)) y0 (height (r_size (pr_rect r))) (height (pr_size r)) (dy (pr_offset r))))
    (pr_size r).
Definition xdg_anchor_point (parent : Rectangle) (r : PopupRequest) : Point :=
  mkPoint (anchor_point_axis (x_side (pr_anchor r)) (px (top_left parent) + px (top_left (pr_rect r))) (width (r_size (pr_rect r))) (dx (pr_offset r)))
          (anchor_point_axis (y_side (pr_anchor r)) (py (top_left parent) + py (top_left (pr_rect r))) (height (r_size (pr_rect r))) (dy (pr_offset r))).
(** The positioner that a client makes for it. *)
Definition positioner_for (r : PopupRequest) : Positioner :=
  positioner_set_offset (dx (pr_offset r)) (dy (pr_offset r)) (positioner_set_gravity (pr_gravity r) (positioner_set_anchor (pr_anchor r)
    (positioner_set_anchor_rect (px (top_left (pr_rect r))) (py (top_left (pr_rect r))) (width (r_size (pr_rect r))) (height (r_size (pr_rect r)))
      (positioner_set_size (width (pr_size r)) (height (pr_size r)) new_positioner)))).
(** The parameters with which the popup is created. *)
Definition popup_params (params : SurfaceCreationParameters) (w : Window) (r : PopupRequest) (buffer_size : option Size) (data : SurfaceData) : SurfaceCreationParameters :=
  win_params (create_scene_surface cp_size (new_popup params (Some w) (positioner_for r)).1.1 buffer_size data).1.
(** The anchor point is not outside the parent. *)
Definition in_parent (parent : Rectangle) (p : Point) : Prop :=
  px (top_left parent) <= px p <= px (bottom_right parent) /\ py (top_left parent) <= py p <= py (bottom_right parent).
Ltac by_enumerator e :=
  destruct (Z.eqb_spec e 1) as [->|]; [|destruct (Z.eqb_spec e 2) as [->|]; [|destruct (Z.eqb_spec e 3) as [->|]; [|destruct (Z.eqb_spec e 4) as [->|];
  [|destruct (Z.eqb_spec e 5) as [->|]; [|destruct (Z.eqb_spec e 6) as [->|]; [|destruct (Z.eqb_spec e 7) as [->|]; [|destruct (Z.eqb_spec e 8) as [->|]]]]]]]].
Lemma anchor_sides rect e : anchor_for rect (anchor_placement e) =
  Ret (mkPoint (anchor_point_axis (x_side e) (px (top_left rect)) (width (r_size rect)) 0) (anchor_point_axis (y_side e) (py (top_left rect)) (height (r_size rect)) 0)).
Proof.
  destruct rect as [[x y] [w h]]. unfold anchor_placement, x_side, y_side, anchor_point_axis. by_enumerator e; cbn; unfold anchor_for; cbn; geom; rewrite ?Z.add_0_r; done.
Qed.
Definition gravity_axis (gravity : AxisSide) (size : Z) : Z := match gravity with Low => - size | Middle => half (- size) | High => 0 end.
Lemma gravity_sides size e : offset_for size (gravity_placement e) = Ret (mkDisplacement (gravity_axis (x_side e) (width size)) (gravity_axis (y_side e) (height size))).
Proof.
  destruct size as [w h]. unfold gravity_placement, x_side, y_side, gravity_axis. by_enumerator e; unfold offset_for; cbn -[Z.mul]; rewrite <- ?Z.opp_eq_mul_m1, ?(Z.mul_comm (-1)), <- ?Z.opp_eq_mul_m1; done.
Qed.
Lemma placements_valid e : valid_gravity (anchor_placement e) /\ valid_gravity (gravity_placement e).
Proof. unfold anchor_placement, gravity_placement. by_enumerator e; cbn; split; apply (bool_decide_unpack _); reflexivity. Qed.
Lemma constrain_inside parent p : in_parent parent p -> constrain_to parent p = p.
Proof.
  intros [Hx Hy]. unfold constrain_to. destruct p as [x y]. cbn [px py] in *. cbv zeta. destruct (Z.ltb_spec x (px (top_left parent))); [lia|].
  destruct (Z.ltb_spec y (py (top_left parent))); [lia|]. destruct (Z.ltb_spec (px (bottom_right parent)) x); [lia|]. by destruct (Z.ltb_spec (py (bottom_right parent)) y); [lia|].
Qed.
(** The placement that is asked for is the one of the protocol. *)
Lemma popup_preferred params w r buffer_size data parent : in_parent parent (xdg_anchor_point parent r) ->
  let p := popup_params params w r buffer_size data in
  placement_request (window_spec_of_params p) (Z.lor mir_placement_hints_slide_x mir_placement_hints_slide_y) (pr_rect r) (gravity_placement (pr_gravity r)) (anchor_placement (pr_anchor r)) /\
  preferred parent (window_spec_of_params p) (pr_rect r) (gravity_placement (pr_gravity r)) (anchor_placement (pr_anchor r)) (cp_size p) = Ret (xdg_popup_rect parent r).
Proof.
  intros Hp p. destruct r as [[w1 h1] [[rx ry] [rw rh]] an gr [ox oy]]. destruct (placements_valid an) as [Ha _]. destruct (placements_valid gr) as [_ Hg].
  assert (Hsp : forall x : WindowSpecification, sp_placement_hints x <> None -> attach_to_edge mir_placement_hints_flip_any (cp_edge_attachment p) x = x).
  { intros x Hx. unfold attach_to_edge. destruct (cp_edge_attachment p), (sp_placement_hints x); done. }
  unfold window_spec_of_params. rewrite Hsp by done. split; [by split|].
  unfold preferred, candidate. cbn [sp_size sp_aux_rect_placement_offset default]. rewrite anchor_sides. cbn [mbind outcome_bind].
  change (cp_size p) with (mkSize w1 h1). rewrite gravity_sides. cbn [mbind outcome_bind].
  match goal with |- context [constrain_to parent ?q] => set (a := q) end. assert (Ea : a = xdg_anchor_point parent (mkPopupRequest (mkSize w1 h1) (mkRectangle (mkPoint rx ry) (mkSize rw rh)) an gr (mkDisplacement ox oy))).
  { unfold a, xdg_anchor_point. destruct parent as [[x y] [pw ph]]. unfold anchor_point_axis, point_add. cbn -[half]. f_equal; destruct (x_side an), (y_side an); lia. }
  rewrite Ea, constrain_inside by exact Hp. unfold point_add, xdg_popup_rect, xdg_anchor_point, anchor_point_axis, xdg_axis, gravity_axis. cbn -[half].
  destruct (x_side gr), (y_side gr); do 3 f_equal; lia.
Qed.

(** C25: (functional) A popup is put where its client asks for it: if the anchor point,
    with the offset, is not outside the parent window, a popup that fits on the
    output there gets exactly the place that the XDG protocol defines from the
    anchor rectangle, the anchor, the gravity and the offset, on its way through
    the window, its creation parameters and the window manager's specification;
    one that does not fit there but is no larger than the output is moved onto the
    output in its size. *)
Theorem popup_placed_as_asked params w r buffer_size data out parent : in_parent parent (xdg_anchor_point parent r) ->
  let p := popup_params params w r buffer_size data in
  (contains out (xdg_popup_rect parent r) = true -> place_relative out parent (window_spec_of_params p) (cp_size p) = Ret (Some (xdg_popup_rect parent r))) /\
  (0 <= width (pr_size r) <= width (r_size out) -> 0 <= height (pr_size r) <= height (r_size out) ->
   exists placed, place_relative out parent (window_spec_of_params p) (cp_size p) = Ret (Some placed) /\ contains out placed = true /\ r_size placed = pr_size r).
Proof.
  intros Hp p. destruct (popup_preferred params w r buffer_size data parent Hp) as [Hreq Hpref].
  destruct (place_relative_placed out parent _ (cp_size p) _ _ _ _ Hreq) as (pref & rr & Hpref' & Hsize & Hr & Hpl).
  fold p in Hpref, Hpref', Hr. rewrite Hpref in Hpref'. injection Hpref' as <-. split.
  - intros Hc. rewrite Hr. do 2 f_equal. destruct Hpl; [by auto|congruence..].
  - intros Hw Hh. exists rr. split; [done|]. destruct Hpl as [rr H1 H2|rr _ H1 H2|rr _ H1|_ H1 _]; [done|done|exfalso; by apply H1..].
Qed.

(** ** Concrete windows *)
Definition example_top_steps : list TopStep :=
  [TFocus false true; TState false mir_window_state_maximized; TResized false (mkSize 800 600); TWork; TCommit (mkSize 640 480); TWork].
Lemma toplevel_told_witness :
  let w := top_run (new_top_world mir_window_state_restored 10) example_top_steps in
  let w' := top_run w (replicate (length (workqueue (tw_executor w))) TWork) in
  tw_focus w = true /\ tw_state w = mir_window_state_maximized /\
  exists shown, last_told (tw_events w') = Some (800, 600, toplevel_states true shown) /\ window_state_flags shown = [state_maximized].
Proof.
  do 2 (split; [reflexivity|]). destruct (toplevel_told mir_window_state_restored 10 example_top_steps) as (_ & _ & _ & shown & H1 & H2).
  exists shown. split; [exact H1|]. apply H2; reflexivity.
Defined.
Example example_told : last_told (tw_events (top_run (new_top_world mir_window_state_restored 10) (example_top_steps ++ [TWork]))) = Some (800, 600, [4; 1]).
Proof. reflexivity. Qed.

Definition example_parent : Rectangle := mkRectangle (mkPoint 100 100) (mkSize 200 100).
Definition example_request (offset : Displacement) : PopupRequest :=
  mkPopupRequest (mkSize 50 40) (mkRectangle (mkPoint 20 10) (mkSize 30 20)) 6 8 offset.
Definition example_data : SurfaceData := mkSurfaceData [] [].
Definition example_screen : Rectangle := mkRectangle (mkPoint 0 0) (mkSize 1000 500).
Lemma popup_placed_as_asked_witness :
  let r := example_request (mkDisplacement 5 0) in
  let p := popup_params example_creation 3 r None example_data in
  (contains example_screen (xdg_popup_rect example_parent r) = true ->
     place_relative example_screen example_parent (window_spec_of_params p) (cp_size p) = Ret (Some (xdg_popup_rect example_parent r))) /\
  (0 <= width (pr_size r) <= width (r_size example_screen) -> 0 <= height (pr_size r) <= height (r_size example_screen) ->
   exists placed, place_relative example_screen example_parent (window_spec_of_params p) (cp_size p) = Ret (Some placed) /\
     contains example_screen placed = true /\ r_size placed = pr_size r).
Proof.
  apply (popup_placed_as_asked example_creation 3 (example_request (mkDisplacement 5 0)) None example_data example_screen example_parent).
  vm_compute. split; split; discriminate.
Defined.
Example example_popup_place : xdg_popup_rect example_parent (example_request (mkDisplacement 5 0)) = mkRectangle (mkPoint 125 130) (mkSize 50 40).
Proof. reflexivity. Qed.

(** ** What goes wrong *)
(** An offset that leads out of the parent is cut short, also where the popup
    would fit on the output. *)
Example offset_cut_short :
  let r := example_request (mkDisplacement 5 200) in
  let p := popup_params example_creation 3 r None example_data in
  contains example_screen (xdg_popup_rect example_parent r) = true /\
  xdg_popup_rect example_parent r = mkRectangle (mkPoint 125 330) (mkSize 50 40) /\
  place_relative example_screen example_parent (window_spec_of_params p) (cp_size p) = Ret (Some (mkRectangle (mkPoint 125 200) (mkSize 50 40))).
Proof. vm_compute. done. Qed.
(** A popup whose parent has no scene surface gets the parent of the popup that
    was made before it with the same positioner. *)
Example positioner_keeps_parent :
  let '(_, _, used) := new_popup example_creation (Some 3) (positioner_for (example_request (mkDisplacement 0 0))) in
  let '(window, _, _) := new_popup example_creation None used in cp_parent (win_params window) = Some 3.
Proof. reflexivity. Qed.
(** The state is changed by another thread and then by the Wayland thread: the
    client hears of the older change last, and believes it. *)
Example older_state_told_last :
  let w := top_run (new_top_world mir_window_state_restored 10) [TState false mir_window_state_maximized; TState true mir_window_state_restored; TWork] in
  tw_state w = mir_window_state_restored /\ last_told (tw_events w) = Some (0, 0, [state_maximized]).
Proof. done. Qed.
(** A window is resized and, before its client has followed, back to the
    client's size: the client hears of the first size only. *)
Example resize_back_not_told :
  let w := top_run (new_top_world mir_window_state_restored 10)
             [TCommit (mkSize 640 480); TResized false (mkSize 800 600); TWork; TResized false (mkSize 640 480); TWork] in
  last_told (tw_events w) = Some (800, 600, []).
Proof. reflexivity. Qed.
(** What waits when the executor is drained is not dropped. *)
Example drain_keeps_work : executor_drain (enqueue_termination 0 (mkExecutor ExRunning [1; 2])) = Ret (ExStopped, [None; Some 1; Some 2], [0]).
Proof. reflexivity. Qed.
