(* ===== verification/WlLayers.v ===== *)
(** * Layer surfaces

    [LayerSurfaceV1] ([src/server/frontend_wayland/layer_shell_v1.cpp]): panels,
    backgrounds and overlays of Wayland clients, which are attached to edges of
    the output, reserve space there, and agree on their size with the server by
    configure events that the client acknowledges. *)
From S2P Require Import Prelude Geometry WindowInfo SurfaceSpec WlSurfaces WlWindows WlXdg.

(** ** Data *)
Record OptionalSize := mkOptionalSize { os_width : option Z; os_height : option Z }.
Definition no_size : OptionalSize := mkOptionalSize None None.

(** The surface with its window, its observer and the serial of the display. *)
Record LayerSurface := mkLayerSurface {
  ly_window : WlWindow;
  ly_observer : WlObserver;
  exclusive_zone : Z;
  anchored_left : bool;
  anchored_right : bool;
  anchored_top : bool;
  anchored_bottom : bool;
  pending_opt_size : option OptionalSize;
  committed_opt_size : OptionalSize;
  configure_on_next_commit : bool;
  inflight_configures : list (Z * OptionalSize);
  surface_data_dirty : bool;
  ly_serial : Z
}.
#[export] Instance LayerSurface_eta : EtaExpansion LayerSurface := fun l =>
  mkLayerSurface (ly_window l) (ly_observer l) (exclusive_zone l) (anchored_left l) (anchored_right l) (anchored_top l) (anchored_bottom l)
    (pending_opt_size l) (committed_opt_size l) (configure_on_next_commit l) (inflight_configures l) (surface_data_dirty l) (ly_serial l).
Inductive LayerEvent := layer_configure (serial w h : Z) | layer_closed.

Definition layer_shell_layer_to_mir_depth_layer (layer : Z) : outcome MirDepthLayer :=
  if layer =? 0 then Ret mir_depth_layer_background
  else if layer =? 1 then Ret mir_depth_layer_below
  else if layer =? 2 then Ret mir_depth_layer_above
  else if layer =? 3 then Ret mir_depth_layer_overlay
  else Throw (runtime_error "Invalid Layer Shell layer").

Definition layer_spec (layer : MirDepthLayer) (output : option Z) : SurfaceSpecification :=
  surface_spec_empty <| ss_state := Some mir_window_state_attached |> <| ss_depth_layer := Some layer |> <| ss_output_id := output |>.
Definition new_layer_surface (params : SurfaceCreationParameters) (layer : Z) (output : option Z) (serial : Z) : outcome LayerSurface :=
  depth ← layer_shell_layer_to_mir_depth_layer layer;
  Ret (mkLayerSurface (apply_spec (layer_spec depth output) (new_window params)) new_observer 0 false false false false None no_size true [] false serial).

(** ** Anchors and the space they reserve *)
Definition get_placement_gravity (l : LayerSurface) : MirPlacementGravity :=
  let edges := mir_placement_gravity_center in
  let edges := if anchored_left l then Z.lor edges mir_placement_gravity_west else edges in
  let edges := if anchored_right l then Z.lor edges mir_placement_gravity_east else edges in
  let edges := if anchored_top l then Z.lor edges mir_placement_gravity_north else edges in
  if anchored_bottom l then Z.lor edges mir_placement_gravity_south else edges.
Definition get_anchored_edge (l : LayerSurface) : MirPlacementGravity :=
  let h_edge := if Bool.eqb (anchored_left l) (anchored_right l) then mir_placement_gravity_center
                else if anchored_left l then mir_placement_gravity_west else mir_placement_gravity_east in
  let v_edge := if Bool.eqb (anchored_top l) (anchored_bottom l) then mir_placement_gravity_center
                else if anchored_top l then mir_placement_gravity_north else mir_placement_gravity_south in
  if h_edge =? mir_placement_gravity_center then v_edge
  else if v_edge =? mir_placement_gravity_center then h_edge
  else mir_placement_gravity_center.
(** [exclusive_zone] is unsigned; as a length it is converted to [int]. *)
Definition get_exclusive_rect (l : LayerSurface) (buffer_size : option Size) : option Rectangle :=
  if exclusive_zone l <=? 0 then None
  else
    let edge := get_anchored_edge l in
    let size := pending_size (ly_window l) buffer_size in
    let zone := to_int (exclusive_zone l) in
    if edge =? mir_placement_gravity_west then Some (mkRectangle (mkPoint 0 0) (mkSize zone (height size)))
    else if edge =? mir_placement_gravity_east then Some (mkRectangle (mkPoint (width size - zone) 0) (mkSize zone (height size)))
    else if edge =? mir_placement_gravity_north then Some (mkRectangle (mkPoint 0 0) (mkSize (width size) zone))
    else if edge =? mir_placement_gravity_south then Some (mkRectangle (mkPoint 0 (height size - zone)) (mkSize (width size) zone))
    else None.

(** ** Requests *)
Definition layer_set_size (w h : Z) (l : LayerSurface) : LayerSurface :=
  l <| pending_opt_size := Some (mkOptionalSize (if 0 <? w then Some (to_int w) else None) (if 0 <? h then Some (to_int h) else None)) |>
    <| configure_on_next_commit := true |>.
Definition layer_set_anchor (anchor : Z) (l : LayerSurface) : LayerSurface :=
  l <| anchored_left := has_flag anchor 4 |> <| anchored_right := has_flag anchor 8 |> <| anchored_top := has_flag anchor 1 |>
    <| anchored_bottom := has_flag anchor 2 |> <| surface_data_dirty := true |>.
Definition layer_set_exclusive_zone (zone : Z) (l : LayerSurface) : LayerSurface :=
  l <| exclusive_zone := to_uint32 zone |> <| surface_data_dirty := true |>.
(** [get_popup]: the parent of the popup is the scene surface of the layer
    surface, if there is one. *)
Definition layer_get_popup (scene_surface : option Window) (popup : WlWindow) : WlWindow :=
  apply_spec (match scene_surface with Some w => surface_spec_empty <| ss_parent := Some (Some w) |> | None => surface_spec_empty end) popup.

(** ** Configuring *)
Definition configure_size (l : LayerSurface) (buffer_size : option Size) : OptionalSize :=
  let requested := default (current_size (ly_window l) buffer_size) (ob_requested_size (ly_observer l)) in
  mkOptionalSize
    (or_keep (os_width (committed_opt_size l)) (if anchored_left l && anchored_right l then Some (width requested) else None))
    (or_keep (os_height (committed_opt_size l)) (if anchored_bottom l && anchored_top l then Some (height requested) else None)).
Definition configure_event (c : Z * OptionalSize) : LayerEvent :=
  layer_configure c.1 (to_uint32 (default 0 (os_width c.2))) (to_uint32 (default 0 (os_height c.2))).
(** [wl_display_next_serial] counts in 32 bits and wraps around. *)
Definition layer_configure_now (l : LayerSurface) (buffer_size : option Size) : outcome (LayerSurface * list LayerEvent) :=
  let size := configure_size l buffer_size in
  let serial := to_uint32 (ly_serial l + 1) in
  let l := l <| ly_serial := serial |> in
  if match last (inflight_configures l) with Some back => serial <=? back.1 | None => false end
  then Throw (runtime_error "Generated invalid configure serial")
  else Ret (l <| inflight_configures := inflight_configures l ++ [(serial, size)] |>, [configure_event (serial, size)]).

(** The configures that are older than the one acknowledged are dropped. *)
Fixpoint drop_older (serial : Z) (q : list (Z * OptionalSize)) : list (Z * OptionalSize) :=
  match q with c :: rest => if c.1 <? serial then drop_older serial rest else q | [] => [] end.
Definition ack_configure (serial : Z) (l : LayerSurface) : outcome LayerSurface :=
  let q := drop_older serial (inflight_configures l) in
  match q with
  | c :: rest => if c.1 =? serial then Ret (l <| pending_opt_size := Some c.2 |> <| inflight_configures := rest |>)
                 else Throw (runtime_error "Could not find acked configure")
  | [] => Throw (runtime_error "Could not find acked configure")
  end.

(** [handle_commit] *)
Definition commit_size (l : LayerSurface) : LayerSurface :=
  match pending_opt_size l with
  | Some s =>
      let w := match os_width s with Some v => set_pending_width (Some v) (ly_window l) | None => ly_window l end in
      let w := match os_height s with Some v => set_pending_height (Some v) w | None => w end in
      l <| ly_window := w |> <| committed_opt_size := s |> <| pending_opt_size := None |> <| surface_data_dirty := true |>
  | None => l
  end.
Definition commit_surface_data (l : LayerSurface) (buffer_size : option Size) : LayerSurface :=
  if surface_data_dirty l then
    let spec := surface_spec_empty <| ss_attached_edges := Some (get_placement_gravity l) |> <| ss_exclusive_rect := Some (get_exclusive_rect l buffer_size) |> in
    l <| ly_window := apply_spec spec (ly_window l) |> <| surface_data_dirty := false |>
  else l.
Definition layer_handle_commit (l : LayerSurface) (buffer_size : option Size) : outcome (LayerSurface * list LayerEvent) :=
  let l := commit_surface_data (commit_size l) buffer_size in
  if configure_on_next_commit l then
    '(l, events) ← layer_configure_now l buffer_size;
    Ret (l <| configure_on_next_commit := false |>, events)
  else Ret (l, []).

(** [handle_resize], by way of the observer. *)
Definition layer_resized (size : Size) (l : LayerSurface) (buffer_size : option Size) : outcome (LayerSurface * list LayerEvent) :=
  let '(o, call) := observe_note (note_resized size) (ly_observer l) in
  let l := l <| ly_observer := o |> in
  match call with Some _ => layer_configure_now l buffer_size | None => Ret (l, []) end.

Section Layers.
(** The size that the shell gives a new window. *)
Context (placed_size : SurfaceCreationParameters -> Size).

(** [WindowWlSurfaceRole::commit] of a layer surface; a size that the shell has
    not respected comes back at once. *)
Definition layer_commit (l : LayerSurface) (buffer_size : option Size) (refresh : bool) (data : SurfaceData)
  : outcome (LayerSurface * list LayerEvent * list ShellCall) :=
  '(l, events) ← layer_handle_commit l buffer_size;
  let '(w, calls) := window_commit placed_size (ly_window l) buffer_size refresh data in
  let l := l <| ly_window := w |> <| ly_observer := latest_client_size (client_size w) (ly_observer l) |> in
  match omap (fun c => match c with content_resized_to s => Some s | _ => None end) calls with
  | s :: _ => '(l, more) ← layer_resized s l buffer_size; Ret (l, events ++ more, calls)
  | [] => Ret (l, events, calls)
  end.

(** ** Sequences *)
(** What the client asks, what becomes of the window, and serials that others of
    the display have taken. *)
Inductive LayerStep :=
| LSize (w h : Z) | LAnchor (anchor : Z) | LZone (zone : Z) | LAck (serial : Z)
| LCommit (buffer_size : option Size) (refresh : bool) (data : SurfaceData)
| LResized (size : Size) (buffer_size : option Size)
| LClose
| LOtherSerial.
Definition layer_step (l : LayerSurface) (st : LayerStep) : outcome (LayerSurface * list LayerEvent) :=
  match st with
  | LSize w h => Ret (layer_set_size w h l, [])
  | LAnchor a => Ret (layer_set_anchor a l, [])
  | LZone z => Ret (layer_set_exclusive_zone z l, [])
  | LAck s => l ← ack_configure s l; Ret (l, [])
  | LCommit b r d => '(l, events, _) ← layer_commit l b r d; Ret (l, events)
  | LResized size b => layer_resized size l b
  | LClose => Ret (l, [layer_closed])
  | LOtherSerial => Ret (l <| ly_serial := to_uint32 (ly_serial l + 1) |>, [])
  end.
Fixpoint layer_run (l : LayerSurface) (steps : list LayerStep) : outcome (LayerSurface * list LayerEvent) :=
  match steps with
  | [] => Ret (l, [])
  | st :: steps => '(l, events) ← layer_step l st; '(l, more) ← layer_run l steps; Ret (l, events ++ more)
  end.

(** ** Which configures can be acknowledged *)
Definition serials (events : list LayerEvent) : list Z := omap (fun e => match e with layer_configure s _ _ => Some s | layer_closed => None end) events.
Definition last_acked (first : Z) (steps : list LayerStep) : Z := foldl (fun a st => match st with LAck s => s | _ => a end) first steps.
(** The serials that have been sent ascend up to the display's; in flight are
    those after the last one acknowledged. *)
Record LayerInv (l : LayerSurface) (events : list LayerEvent) (acked : Z) : Prop := {
  li_sorted : StronglySorted Z.lt (serials events);
  li_below : Forall (fun s => s <= ly_serial l) (serials events);
  li_inflight : (inflight_configures l).*1 = filter (fun s => acked < s) (serials events);
  li_told : Forall (fun c => configure_event c ∈ events) (inflight_configures l);
  li_acked : acked <= ly_serial l
}.

Lemma sorted_snoc (q : list Z) x : StronglySorted Z.lt q -> Forall (fun s => s < x) q -> StronglySorted Z.lt (q ++ [x]).
Proof.
  induction 1 as [|a q Hq IH Ha]; intros Hx; cbn; [by repeat constructor|]. apply Forall_cons in Hx as [Hax Hx]. constructor; [by apply IH|].
  apply Forall_app. split; [done|]. by apply Forall_singleton.
Qed.
Lemma sorted_filter (P : Z -> Prop) `{forall x, Decision (P x)} (q : list Z) : StronglySorted Z.lt q -> StronglySorted Z.lt (filter P q).
Proof.
  induction 1 as [|a q Hq IH Ha]; [constructor|]. rewrite filter_cons. case_decide; [|done]. constructor; [done|]. apply Forall_forall. intros x [_ Hx]%list_elem_of_filter. rewrite Forall_forall in Ha. by apply Ha.
Qed.
Lemma sorted_app_inv (a b : list Z) : StronglySorted Z.lt (a ++ b) -> StronglySorted Z.lt b /\ forall x y, x ∈ a -> y ∈ b -> x < y.
Proof.
  induction a as [|z a IH]; cbn; intros Hs; [split; [done|]; intros x y Hx; by apply not_elem_of_nil in Hx|]. apply StronglySorted_inv in Hs as [Hs Hz].
  destruct (IH Hs) as [Hb Hab]. split; [done|]. intros x y [->|Hx]%elem_of_cons Hy; [|by apply Hab]. rewrite Forall_forall in Hz. apply Hz, elem_of_app. by right.
Qed.

Lemma later_all (q : list Z) a : Forall (fun x => a < x) q -> filter (fun s => a < s) q = q.
Proof. intros Hq. apply filter_all. by apply Forall_forall. Qed.
Lemma later_none (q : list Z) a : Forall (fun x => x <= a) q -> filter (fun s => a < s) q = [].
Proof. intros Hq. apply filter_none. intros x Hx. rewrite Forall_forall in Hq. specialize (Hq x Hx). lia. Qed.

(** The display has [n] serials left before it wraps around; [l'] has taken up
    to [n] of them. *)
Definition room (n : Z) (l : LayerSurface) : Prop := 0 <= ly_serial l /\ ly_serial l + n <= UINT_MAX.
Definition took (n : Z) (l l' : LayerSurface) : Prop := ly_serial l <= ly_serial l' <= ly_serial l + n.

(** Operations that only change other things. *)
Lemma inv_same l l' events acked : LayerInv l events acked -> inflight_configures l' = inflight_configures l -> ly_serial l' = ly_serial l -> LayerInv l' events acked.
Proof. intros [H1 H2 H3 H5 H4] E1 E2. split; rewrite ?E1, ?E2; done. Qed.
Lemma configure_inv l b events acked : LayerInv l events acked -> room 1 l ->
  exists l' ev, layer_configure_now l b = Ret (l', ev) /\ LayerInv l' (events ++ ev) acked /\ ly_window l' = ly_window l /\ took 1 l l'.
Proof.
  intros [H1 H2 H3 H5 H4] [Hr0 Hr]. unfold layer_configure_now. rewrite to_uint32_id by lia. cbn -[configure_event].
  assert (Hlast : match last (inflight_configures l) with Some back => ly_serial l + 1 <=? back.1 | None => false end = false).
  { destruct (last (inflight_configures l)) as [back|] eqn:E; [|done]. apply Z.leb_gt. apply last_Some in E as [q Eq].
    assert (Hin : back.1 ∈ (inflight_configures l).*1) by (rewrite Eq, fmap_app, elem_of_app; right; by apply list_elem_of_singleton).
    rewrite H3 in Hin. apply list_elem_of_filter in Hin as [_ Hin]. rewrite Forall_forall in H2. specialize (H2 _ Hin). lia. }
  rewrite Hlast. do 2 eexists. split; [reflexivity|]. split; [|split; [done|unfold took; cbn; lia]]. split; cbn -[configure_event].
  - unfold serials. rewrite omap_app. cbn. apply sorted_snoc; [done|]. eapply Forall_impl; [exact H2|]. cbn. lia.
  - unfold serials. rewrite omap_app, Forall_app. cbn. split; [eapply Forall_impl; [exact H2|]; cbn; lia|]. constructor; [lia|done].
  - unfold serials. rewrite fmap_app, H3, omap_app. cbn. rewrite filter_app. f_equal. by rewrite later_all by (constructor; [lia|done]).
  - apply Forall_app. split; [eapply Forall_impl; [exact H5|]; intros c Hc; apply elem_of_app; by left|].
    constructor; [|done]. apply elem_of_app. right. by apply list_elem_of_singleton.
  - lia.
Qed.
Lemma resized_inv size l b events acked : LayerInv l events acked -> room 1 l ->
  exists l' ev, layer_resized size l b = Ret (l', ev) /\ LayerInv l' (events ++ ev) acked /\ ly_window l' = ly_window l /\ took 1 l l'.
Proof.
  intros Hi Hr. unfold layer_resized. cbn [observe_note]. case_bool_decide.
  - destruct (configure_inv (l <| ly_observer := ((ly_observer l) <| ob_requested_size := Some size |>) |>) b events acked) as (l' & ev & E & Hi' & Hw & Ht); [by eapply inv_same|done|].
    exists l', ev. by rewrite E.
  - do 2 eexists. split; [reflexivity|]. rewrite app_nil_r. split; [by eapply inv_same|]. split; [done|unfold took; cbn; lia].
Qed.

Lemma drop_older_split serial q : exists older, q = older ++ drop_older serial q /\ Forall (fun c => c.1 < serial) older /\
  match drop_older serial q with c :: _ => serial <= c.1 | [] => True end.
Proof.
  induction q as [|c q (older & E & Ho & Hd)]; [by exists []|]. cbn. destruct (Z.ltb_spec c.1 serial).
  - exists (c :: older). cbn. rewrite <- E. split; [done|]. split; [by constructor|done].
  - by exists [].
Qed.
(** An acknowledgement succeeds exactly for what is in flight. *)
Lemma ack_spec serial l events acked : LayerInv l events acked ->
  if decide (serial ∈ (inflight_configures l).*1)
  then exists cs rest, (serial, cs) ∈ inflight_configures l /\
         ack_configure serial l = Ret (l <| pending_opt_size := Some cs |> <| inflight_configures := rest |>) /\
         LayerInv (l <| pending_opt_size := Some cs |> <| inflight_configures := rest |>) events serial
  else ack_configure serial l = Throw (runtime_error "Could not find acked configure").
Proof.
  intros [H1 H2 H3 H5 H4]. set (q := inflight_configures l) in *. destruct (drop_older_split serial q) as (older & Eq & Ho & Hd). unfold ack_configure. fold q.
  assert (Hs : StronglySorted Z.lt q.*1) by (rewrite H3; by apply sorted_filter).
  case_decide as Hin.
  - rewrite Eq, fmap_app, elem_of_app in Hin. destruct Hin as [Hin|Hin].
    { apply list_elem_of_fmap in Hin as (c & -> & Hc). rewrite Forall_forall in Ho. specialize (Ho c Hc). cbn in Ho. lia. }
    destruct (drop_older serial q) as [|c rest] eqn:Ed; [by apply not_elem_of_nil in Hin|].
    rewrite Eq, fmap_app in Hs. apply sorted_app_inv in Hs as [Hs _]. cbn in Hs. apply StronglySorted_inv in Hs as [Hsr Hcr].
    assert (Ec : c.1 = serial). { cbn in Hin. apply elem_of_cons in Hin as [->|Hin]; [done|]. rewrite Forall_forall in Hcr. specialize (Hcr _ Hin). lia. }
    rewrite Ec, Z.eqb_refl. exists c.2, rest. split; [rewrite Eq, elem_of_app; right; rewrite <- Ec; destruct c; left|]. split; [done|].
    assert (Hmem : serial ∈ filter (fun s => acked < s) (serials events)) by (rewrite <- H3, Eq, fmap_app, elem_of_app; right; cbn; rewrite Ec; by left).
    apply list_elem_of_filter in Hmem as [Hlt Hmem]. split; cbn; [done|done| |rewrite Eq in H5; apply Forall_app in H5 as [_ H5]; by apply Forall_cons in H5 as [_ H5]|rewrite Forall_forall in H2; by apply H2].
    transitivity (filter (fun s => serial < s) (filter (fun s => acked < s) (serials events))).
    + rewrite <- H3, Eq, fmap_app, filter_app. rewrite later_none; [|apply Forall_fmap; eapply Forall_impl; [exact Ho|]; cbn; lia].
      rewrite app_nil_l, fmap_cons, filter_cons, decide_False by lia. rewrite later_all; [done|]. by rewrite <- Ec.
    + rewrite list_filter_filter_l; [done|]. intros x Hx. lia.
  - destruct (drop_older serial q) as [|c rest] eqn:Ed; [done|]. destruct (Z.eqb_spec c.1 serial) as [Ec|]; [|done]. exfalso. apply Hin.
    rewrite Eq, fmap_app, elem_of_app. right. cbn. rewrite Ec. by left.
Qed.

(** The other operations leave the configures alone. *)
Lemma commit_parts l b : inflight_configures (commit_surface_data (commit_size l) b) = inflight_configures l /\
  ly_serial (commit_surface_data (commit_size l) b) = ly_serial l.
Proof. unfold commit_surface_data, commit_size. destruct (pending_opt_size l); cbn; [done|]. by destruct (surface_data_dirty l). Qed.
Lemma handle_commit_inv l b events acked : LayerInv l events acked -> room 1 l ->
  exists l' ev, layer_handle_commit l b = Ret (l', ev) /\ LayerInv l' (events ++ ev) acked /\
    ly_window l' = ly_window (commit_surface_data (commit_size l) b) /\ took 1 l l'.
Proof.
  intros Hi Hr. unfold layer_handle_commit. destruct (commit_parts l b) as [E1 E2]. set (l1 := commit_surface_data (commit_size l) b) in *.
  assert (Hi1 : LayerInv l1 events acked) by (by eapply inv_same). cbv zeta. destruct (configure_on_next_commit l1).
  - destruct (configure_inv l1 b events acked Hi1) as (l' & ev & -> & Hi' & Hw & Ht); [unfold room in *; by rewrite E2|]. cbn. do 2 eexists. split; [reflexivity|].
    split; [by eapply inv_same|]. split; [done|]. unfold took in *. cbn. by rewrite E2 in Ht.
  - do 2 eexists. split; [reflexivity|]. rewrite app_nil_r. split; [done|]. split; [done|]. unfold took. lia.
Qed.
(** A commit takes two serials at most; the window gets the size that is pending
    in it. *)
Lemma layer_commit_inv l b refresh data events acked : LayerInv l events acked -> room 2 l ->
  exists l' ev calls, layer_commit l b refresh data = Ret (l', ev, calls) /\ LayerInv l' (events ++ ev) acked /\ took 2 l l' /\
    ly_window l' = (window_commit placed_size (ly_window (commit_surface_data (commit_size l) b)) b refresh data).1.
Proof.
  intros Hi Hr. unfold layer_commit. destruct (handle_commit_inv l b events acked Hi) as (l1 & ev & -> & Hi1 & Hw & Ht); [unfold room in *; lia|]. cbn [mbind outcome_bind]. rewrite Hw.
  destruct (window_commit _ _ _ _ _) as [w calls]. cbv zeta. cbn [fst]. set (l2 := l1 <| ly_window := w |> <| ly_observer := _ |>).
  assert (Hi2 : LayerInv l2 (events ++ ev) acked) by (by eapply inv_same). assert (Hw2 : ly_window l2 = w) by done.
  assert (Ht2 : took 1 l l2) by exact Ht. clearbody l2. unfold room, took in *.
  destruct (omap _ calls) as [|s ?]; [exists l2, ev, calls; split; [done|]; split; [done|]; split; [lia|done]|].
  destruct (resized_inv s l2 b _ _ Hi2) as (l3 & more & -> & Hi3 & Hw3 & Ht3); [unfold room; lia|]. cbn [mbind outcome_bind]. exists l3, (ev ++ more), calls. split; [done|].
  rewrite app_assoc. unfold took in Ht3. split; [done|]. split; [lia|by rewrite Hw3].
Qed.
(** Every step but an acknowledgement succeeds. *)
Lemma layer_step_ok l st events acked : LayerInv l events acked -> room 2 l -> (forall s, st <> LAck s) ->
  exists l' ev, layer_step l st = Ret (l', ev) /\ LayerInv l' (events ++ ev) acked /\ took 2 l l'.
Proof.
  intros Hi Hr Hst. assert (Hsame : forall l' : LayerSurface, ly_serial l' = ly_serial l -> took 2 l l') by (unfold took; lia). destruct st as [w h|a|z|s|b r d|size b| |]; cbn [layer_step].
  1-3: do 2 eexists; split; [reflexivity|]; rewrite app_nil_r; split; [by eapply inv_same|by apply Hsame].
  - by destruct (Hst s).
  - destruct (layer_commit_inv l b r d events acked Hi Hr) as (l' & ev & calls & -> & Hi' & Ht & _). by exists l', ev.
  - destruct (resized_inv size l b events acked Hi) as (l' & ev & -> & Hi' & _ & Ht); [unfold room in *; lia|]. exists l', ev. split; [done|]. split; [done|]. unfold took in *; lia.
  - exists l, [layer_closed]. split; [done|]. split; [|by apply Hsame]. destruct Hi as [H1 H2 H3 H5 H4]. assert (E : serials (events ++ [layer_closed]) = serials events) by (unfold serials; by rewrite omap_app, app_nil_r).
    split; rewrite ?E; try done. eapply Forall_impl; [exact H5|]. intros c Hc. apply elem_of_app. by left.
  - do 2 eexists. split; [reflexivity|]. rewrite app_nil_r. unfold room, took in *. rewrite to_uint32_id by lia. split; [|cbn; lia].
    destruct Hi as [H1 H2 H3 H5 H4]. split; cbn; try done; [|lia]. eapply Forall_impl; [exact H2|]. cbn. lia.
Qed.
Lemma layer_step_inv l st l' ev events acked : LayerInv l events acked -> room 2 l -> layer_step l st = Ret (l', ev) ->
  LayerInv l' (events ++ ev) (last_acked acked [st]) /\ took 2 l l'.
Proof.
  intros Hi Hr E. destruct st as [w h|a|z|s|b r d|size b| |].
  4: { cbn in E. pose proof (ack_spec s l events acked Hi) as Ha. case_decide.
       - destruct Ha as (cs & rest & _ & E' & Hi'). rewrite E' in E. cbn in E. injection E as <- <-. rewrite app_nil_r. split; [done|]. unfold took. cbn. lia.
       - by rewrite Ha in E. }
  all: match type of E with layer_step ?l0 ?st = _ => destruct (layer_step_ok l0 st events acked Hi Hr) as (l1 & ev1 & E1 & Hi1); [done|]; rewrite E1 in E; injection E as <- <-; exact Hi1 end.
Qed.
Lemma layer_run_inv steps : forall l l' ev events acked, LayerInv l events acked -> room (2 * Z.of_nat (length steps)) l -> layer_run l steps = Ret (l', ev) ->
  LayerInv l' (events ++ ev) (last_acked acked steps) /\ took (2 * Z.of_nat (length steps)) l l'.
Proof.
  induction steps as [|st steps IH]; intros l l' ev events acked Hi Hr E; cbn in E; [injection E as <- <-; rewrite app_nil_r; split; [done|unfold took; cbn; lia]|].
  cbn [length] in *. rewrite Nat2Z.inj_succ in *.
  apply outcome_bind_Ret in E as ([l1 ev1] & E1 & E). apply outcome_bind_Ret in E as ([l2 ev2] & E2 & E). injection E as <- <-.
  rewrite app_assoc. destruct (layer_step_inv _ _ _ _ _ _ Hi ltac:(unfold room in *; lia) E1) as [Hi1 Ht1].
  destruct (IH _ _ _ _ _ Hi1 ltac:(unfold room, took in *; lia) E2) as [Hi2 Ht2]. split; [exact Hi2|unfold took in *; lia].
Qed.
Lemma new_layer_inv params layer output serial l : new_layer_surface params layer output serial = Ret l -> LayerInv l [] serial /\ ly_serial l = serial.
Proof. intros (d & _ & E)%outcome_bind_Ret. injection E as <-. split; [by repeat constructor|done]. Qed.

(** ** What an acknowledged commit does *)
Lemma serials_unique events e e' s w h w' h' : StronglySorted Z.lt (serials events) -> e = layer_configure s w h -> e' = layer_configure s w' h' ->
  e ∈ events -> e' ∈ events -> e = e'.
Proof.
  intros Hs -> ->. assert (Hmem : forall es a b, layer_configure s a b ∈ es -> s ∈ serials es).
  { intros es a b Hin. apply list_elem_of_omap. by eexists. }
  induction events as [|x es IH]; intros H1 H2; [by apply not_elem_of_nil in H1|]. destruct x as [s0 a b|]; cbn in Hs.
  - apply StronglySorted_inv in Hs as [Hs Hx]. rewrite Forall_forall in Hx.
    apply elem_of_cons in H1 as [H1|H1], H2 as [H2|H2]; [congruence|injection H1 as -> -> ->; apply Hmem, Hx in H2; lia|injection H2 as -> -> ->; apply Hmem, Hx in H1; lia|by apply IH].
  - apply elem_of_cons in H1 as [H1|H1], H2 as [H2|H2]; [done..|by apply IH].
Qed.
(** The size that is pending is the window's after the commit, as far as it is given. *)
Lemma commit_takes_size l b refresh data cs : pending_opt_size l = Some cs ->
  let w := (window_commit placed_size (ly_window (commit_surface_data (commit_size l) b)) b refresh data).1 in
  committed_size w = Some (client_size w) /\ (forall v, os_width cs = Some v -> width (client_size w) = v) /\ (forall v, os_height cs = Some v -> height (client_size w) = v).
Proof.
  intros Hp. cbv zeta. unfold commit_size. rewrite Hp. set (l1 := l <| ly_window := _ |> <| committed_opt_size := _ |> <| pending_opt_size := _ |> <| surface_data_dirty := _ |>).
  assert (Hw : forall v, os_width cs = Some v -> pending_explicit_width (ly_window (commit_surface_data l1 b)) = Some v).
  { intros v Hv. unfold commit_surface_data. cbn. rewrite Hv. unfold apply_spec, ask. cbn. by destruct (os_height cs), (has_scene_surface _). }
  assert (Hh : forall v, os_height cs = Some v -> pending_explicit_height (ly_window (commit_surface_data l1 b)) = Some v).
  { intros v Hv. unfold commit_surface_data. cbn. rewrite Hv. unfold apply_spec, ask. cbn. by destruct (os_width cs), (has_scene_surface _). }
  generalize dependent (ly_window (commit_surface_data l1 b)). clear. intros w Hw Hh.
  assert (E : let w' := (window_commit placed_size w b refresh data).1 in client_size w' = pending_size w b /\ committed_size w' = Some (pending_size w b)).
  { unfold window_commit, tell_shell, create_scene_surface, in_spec, clear_unchanged. cbn. repeat case_match; simplify_eq/=; done. }
  destruct E as [-> ->]. split; [done|]. unfold pending_size. cbn. split; intros v Hv; [by rewrite (Hw v Hv)|by rewrite (Hh v Hv)].
Qed.

(** The step that an acknowledgement and a commit make together. *)
Lemma ack_commit l events acked s b refresh data : LayerInv l events acked -> room 2 l -> s ∈ (inflight_configures l).*1 ->
  exists l' ev cs, layer_run l [LAck s; LCommit b refresh data] = Ret (l', ev) /\ configure_event (s, cs) ∈ events /\
    committed_size (ly_window l') = Some (client_size (ly_window l')) /\
    (forall v, os_width cs = Some v -> width (client_size (ly_window l')) = v) /\ (forall v, os_height cs = Some v -> height (client_size (ly_window l')) = v).
Proof.
  intros Hi Hr Hs. pose proof (ack_spec s l events acked Hi) as Ha. rewrite decide_True in Ha by exact Hs. destruct Ha as (cs' & rest & Hcs & E & Hi').
  set (l1 := l <| pending_opt_size := Some cs' |> <| inflight_configures := rest |>) in *. assert (Hp : pending_opt_size l1 = Some cs') by reflexivity.
  assert (Hr1 : room 2 l1) by exact Hr. clearbody l1.
  destruct (layer_commit_inv l1 b refresh data events s Hi' Hr1) as (l2 & ev & calls & E2 & _ & _ & Hw). exists l2, (ev ++ []), cs'.
  split; [cbn [layer_run layer_step]; rewrite E; cbn [mbind outcome_bind]; by rewrite E2|]. split; [pose proof (li_told _ _ _ Hi) as Ht; rewrite Forall_forall in Ht; exact (Ht _ Hcs)|].
  pose proof (commit_takes_size l1 b refresh data cs' Hp) as Hc. cbv zeta in Hc. by rewrite <- Hw in Hc.
Qed.

(** C24: (error) Layer surfaces and their clients agree on sizes: whatever requests,
    commits, resizes and acknowledgements came before, as long as the display's
    32 bit serials do not wrap around (a step takes two at most), every request,
    commit and resize succeeds; an acknowledgement is accepted exactly if its
    serial is one that has been sent after the one acknowledged last, and is an
    error otherwise; and the commit after it gives the window the size, along each
    axis for which one was told, that was told with this serial.  When the serials
    do wrap around, a configure can fail: [serial_wraps_around]. *)
Theorem layer_acks params layer output serial l0 steps l events :
  0 <= serial -> serial + 2 * Z.of_nat (S (length steps)) <= UINT_MAX ->
  new_layer_surface params layer output serial = Ret l0 -> layer_run l0 steps = Ret (l, events) ->
  (forall st, (forall s, st <> LAck s) -> returns (layer_step l st)) /\
  (forall s, returns (layer_step l (LAck s)) <-> s ∈ serials events /\ last_acked serial steps < s) /\
  (forall s w h b refresh data, layer_configure s w h ∈ events -> last_acked serial steps < s ->
     exists l' ev, layer_run l [LAck s; LCommit b refresh data] = Ret (l', ev) /\
       let size := client_size (ly_window l') in committed_size (ly_window l') = Some size /\
       (w <> 0 -> to_uint32 (width size) = w) /\ (h <> 0 -> to_uint32 (height size) = h)).
Proof.
  intros Hpos Hroom Hnew Hrun. destruct (new_layer_inv _ _ _ _ _ Hnew) as [Hi0 Hs0].
  destruct (layer_run_inv steps l0 l events _ _ Hi0 ltac:(unfold room; lia) Hrun) as [Hi Ht]. cbn [app] in Hi. set (acked := last_acked serial steps) in *.
  assert (Hr : room 2 l) by (unfold room, took in *; lia).
  assert (Hin : forall s, s ∈ (inflight_configures l).*1 <-> s ∈ serials events /\ acked < s).
  { intros s. rewrite (li_inflight _ _ _ Hi), list_elem_of_filter. tauto. }
  split; [|split].
  - intros st Hst. destruct (layer_step_ok l st events acked Hi Hr Hst) as (l' & ev & E & _). by eexists.
  - intros s. rewrite <- Hin. cbn [layer_step]. pose proof (ack_spec s l events acked Hi) as Ha. case_decide as Hd.
    + destruct Ha as (cs & rest & _ & E & _). rewrite E. split; [done|]. intros _. by eexists.
    + rewrite Ha. split; [by intros [? ?]|done].
  - intros s w h b refresh data Hc Hlt. destruct (ack_commit l events acked s b refresh data Hi Hr) as (l' & ev & cs & E & Hc' & H1 & H2 & H3).
    { apply Hin. split; [apply list_elem_of_omap; by eexists|done]. }
    exists l', ev. split; [exact E|]. cbv zeta. split; [exact H1|].
    pose proof (serials_unique events _ _ s _ _ _ _ (li_sorted _ _ _ Hi) eq_refl eq_refl Hc Hc') as Eq. injection Eq as -> ->. cbn [fst snd].
    split; intros Hne; [destruct (os_width cs) as [v|]|destruct (os_height cs) as [v|]]; [by rewrite (H2 v eq_refl)|done|by rewrite (H3 v eq_refl)|done].
Qed.
End Layers.

(** ** Concrete surfaces *)
(** A panel at the top of the output, 30 high and as wide as the output. *)
Definition example_panel : LayerSurface := default (mkLayerSurface (new_window example_creation) new_observer 0 false false false false None no_size false [] false 0)
  match new_layer_surface example_creation 2 None 10 with Ret l => Some l | Throw _ => None end.
Definition panel_steps : list LayerStep :=
  [LSize 0 30; LAnchor 13; LZone 30; LCommit None false example_data; LAck 11; LCommit (Some (mkSize 640 30)) false example_data;
   LResized (mkSize 1280 30) (Some (mkSize 640 30)); LOtherSerial; LResized (mkSize 1920 30) (Some (mkSize 640 30))].
Definition after_panel (steps : list LayerStep) : LayerSurface * list LayerEvent :=
  match layer_run cp_size example_panel steps with Ret r => r | Throw _ => (example_panel, []) end.
Lemma layer_acks_witness :
  let l := (after_panel panel_steps).1 in
  let events := (after_panel panel_steps).2 in
  (forall st, (forall s, st <> LAck s) -> returns (layer_step cp_size l st)) /\
  (forall s, returns (layer_step cp_size l (LAck s)) <-> s ∈ serials events /\ last_acked 10 panel_steps < s) /\
  (forall s w h b refresh data, layer_configure s w h ∈ events -> last_acked 10 panel_steps < s ->
     exists l' ev, layer_run cp_size l [LAck s; LCommit b refresh data] = Ret (l', ev) /\
       let size := client_size (ly_window l') in committed_size (ly_window l') = Some size /\
       (w <> 0 -> to_uint32 (width size) = w) /\ (h <> 0 -> to_uint32 (height size) = h)).
Proof.
  apply (layer_acks cp_size example_creation 2 None 10 example_panel panel_steps (after_panel panel_steps).1 (after_panel panel_steps).2);
    [vm_compute; discriminate|vm_compute; discriminate|vm_compute; reflexivity|vm_compute; reflexivity].
Defined.
Example panel_events : (after_panel panel_steps).2 = [layer_configure 11 640 30; layer_configure 12 640 30; layer_configure 14 640 30].
Proof. reflexivity. Qed.

(** ** What goes wrong *)
(** A zone of -1, by which a surface asks to extend over the zones of others, is
    taken for one of 4294967295, and the space reserved has a width of -1. *)
Example zone_of_others : get_exclusive_rect (layer_set_exclusive_zone (-1) (layer_set_anchor 4 example_panel)) None = Some (mkRectangle (mkPoint 0 0) (mkSize (-1) 480)).
Proof. reflexivity. Qed.
(** The panel does not follow the output: after its first acknowledgement the
    width that was told then is told again, whatever the new one is. *)
Example panel_keeps_width : ob_requested_size (ly_observer (after_panel panel_steps).1) = Some (mkSize 1920 30) /\
  last (after_panel panel_steps).2 = Some (layer_configure 14 640 30).
Proof. done. Qed.
(** The display's serials wrap around while a configure is in flight: the next
    resize of the surface throws. *)
Example serial_wraps_around :
  let last_serial := UINT_MAX - 1 in
  match new_layer_surface example_creation 2 None last_serial with
  | Ret l => layer_run cp_size l [LCommit None false example_data; LResized (mkSize 1280 30) None]
  | Throw e => Throw e
  end = Throw (runtime_error "Generated invalid configure serial").
Proof. vm_compute. reflexivity. Qed.
